(* ===== verification/_CoqProject ===== *)
-Q . S2P
Prelude.v
GoStd.v
GoTime.v
Ast.v
Token.v
Lexer.v
LexerFacts.v
ParserCore.v
Parser.v
ParserFacts.v
ParserSound.v
Structural.v
StructuralFacts.v
EditDistance.v
Semantic.v
SemanticFacts.v
Ir.v
IrFacts.v
Lower.v
LowerFacts.v
Plan.v
PlanFacts.v
ApplyFacts.v
LocalBackend.v
LocalBackendFacts.v
Policy.v
PolicyFacts.v
Mvs.v
MvsFacts.v
Graphs.v
Loop.v
Pipeline.v
PipelineFacts.v
PipelineRun.v
OperatorDag.v
OperatorDagFacts.v
LoopFacts.v
Strategies.v
Memory.v
MemoryFacts.v
ControlFlow.v
OnInputRules.v
RuntimeConfig.v
RuntimeRun.v
ImportGraph.v
ImportGraphFacts.v
ImportOrder.v
Resolver.v
ResolverFacts.v
Validation.v
Auth.v
AuthFacts.v
GoMaps.v
Limits.v
Metrics.v
Sessions.v
SessionsFacts.v
PolicyMerge.v
PolicyMergeFacts.v
Tools.v
ToolsFacts.v
Redact.v
RedactFacts.v
Formatter.v
LexText.v
ParserWp.v
FormatText.v
FormatWf.v
FormatParse.v
FormatStmts.v
FormatAgent.v
FormatRoundtrip.v
Graph.v
GraphFacts.v
GraphRender.v
Commands.v
Server.v
ServerFacts.v
Compile.v
Evaluation.v
