(* ===== verification/Prelude.v ===== *)
(** * AgentSpec, verified

    AgentSpec is a tool chain for declarative agents. A file of IntentLang is
    lexed and parsed to a syntax tree, validated, formatted, drawn as a graph,
    lowered to an intermediate representation (the document: resources with
    fully qualified names, FQNs, and content hashes), compared with the recorded
    state to give a plan, and the plan is applied through an adapter, which
    updates the state, or the document is compiled to another framework. Imports
    are resolved to files and packages, policies are evaluated before an apply.
    At run time a configuration is built from the document; agents run loops of
    model and tool calls, keep memory and sessions, are combined in pipelines
    and workflows, are evaluated on cases, and are invoked through a server that
    authenticates its clients, limits their use and counts it. This development
    models these parts, as functions and relations on Go's data, and proves what
    makes each of them correct.

    ** Files

    Every component is a file of definitions, with its facts in the same file or
    in the files named after it. A Go function [f] is the definition [f]; a
    field [F] of a struct [S] is the projection [S_F]; a method changes its
    receiver by returning a new one.

    - Prelude.v, this file: strings as byte sequences with the routines of
      package strings, Go's insertion sort, record update, results, hints.
      GoStd.v: unicode/utf8, strconv and the float verbs of fmt; the class
      GoRuntime holds what is data of the Go distribution (Unicode tables, the
      text of a float, SHA-256) and the iteration order of maps, any order.
      GoTime.v: the arithmetic of float64, the civil calendar and RFC 3339.
      GoMaps.v: ranges over maps; strings.Contains, Split and ReplaceAll.
    - Ast.v: internal/ast/ast.go.
    - Token.v, Lexer.v, LexerFacts.v: internal/parser/token.go and lexer.go.
    - ParserCore.v, Parser.v, ParserFacts.v, ParserSound.v:
      internal/parser/parser.go, a state monad over the token list.
    - Structural.v, StructuralFacts.v: internal/validate/structural.go.
    - EditDistance.v, Semantic.v, SemanticFacts.v: internal/validate/semantic.go
      and environment.go.
    - Formatter.v: internal/formatter/formatter.go, a writer of pieces of text.
      Its round trip through the parser: LexText.v (texts as tokens), ParserWp.v
      (what the parser's operations read), FormatText.v (the text of a file),
      FormatWf.v (the files it covers), FormatParse.v, FormatStmts.v and
      FormatAgent.v (each declaration is read back), FormatRoundtrip.v.
    - Graph.v, GraphFacts.v: internal/graph, model.go and extract.go with the
      filters. GraphRender.v: dot.go and mermaid.go. Commands.v: the commands
      fmt and graph (cmd/agentspec/fmt.go, graph.go) over a world of files.
    - Ir.v, IrFacts.v: internal/ir/ir.go, hash.go and environment.go.
      Lower.v, LowerFacts.v: internal/ir/lower.go.
    - Plan.v: the vocabulary of planning and applying, with the interfaces
      Backend (and its laws BackendLaws) and Adapter, from internal/state,
      internal/adapters and internal/events; internal/plan/plan.go and drift.go;
      internal/apply/apply.go. PlanFacts.v, ApplyFacts.v: for every lawful
      backend.
    - LocalBackend.v, LocalBackendFacts.v: internal/state/local.go, an instance
      of BackendLaws, with the recording of versions by the apply command
      (cmd/agentspec/apply.go) and the rollback command.
    - Compile.v: internal/compiler, the zones of generated files that are kept,
      the gaps of a target, the configuration reference.
    - Policy.v, PolicyFacts.v: internal/policy.
    - ImportGraph.v, ImportGraphFacts.v, ImportOrder.v:
      internal/imports/graph.go. Resolver.v, ResolverFacts.v: resolver.go and
      lock.go. Mvs.v, MvsFacts.v: mvs.go.
    - Pipeline.v, PipelineFacts.v, PipelineRun.v: internal/pipeline.
      OperatorDag.v, OperatorDagFacts.v: internal/operator/controller/dag.go.
      Graphs.v: what both share on orders and counting.
    - Loop.v, LoopFacts.v: the model interface of internal/llm, with its
      fallbacks and token budget; internal/loop, the strategies react,
      plan-execute and reflexion over the interfaces Client and ToolExecutor;
      Strategies.v: guardrails, delegation, router and map-reduce.
    - Memory.v, MemoryFacts.v: internal/memory. Sessions.v, SessionsFacts.v:
      internal/session, the store in memory and the manager over it.
    - ControlFlow.v: internal/controlflow, the executor of on-input blocks;
      OnInputRules.v: what a block does, as rules, and that it does this.
      RuntimeConfig.v, RuntimeRun.v: internal/runtime, config.go and
      configresolver.go, composed with the parser, lowering and the executor.
    - Server.v, ServerFacts.v: internal/runtime/server.go. serve is the handler
      of the server: authentication, routes, and every handler over the state
      ServerState, which holds the sessions (Sessions.v), the metrics
      (Metrics.v), the rate limiter and the cost tracker (Limits.v), the audit
      log and the world of the models; a strategy (Loop.v) and the evaluator of
      on-input blocks (ControlFlow.v) are its parameters, the users those of
      Auth.v.
    - Limits.v: internal/auth/ratelimit.go, internal/eviction, internal/cost.
      Metrics.v: internal/telemetry/metrics.go.
    - Validation.v: internal/validation. Evaluation.v: internal/evaluation.
    - Auth.v, AuthFacts.v: internal/auth. Redact.v, RedactFacts.v:
      internal/secrets/redact.go. Tools.v, ToolsFacts.v: internal/tools; the
      goroutines of concurrent calls take their steps in any order, and the
      registry is an instance of ToolExecutor and of its laws.
    - PolicyMerge.v, PolicyMergeFacts.v: the policies of the operator.

    ** What is proved

    - Lexing and parsing always return; token positions increase; errors come in
      source order; an accepted file has a package, a supported language version
      and no duplicate declaration.
    - A formatted file is read back as the file that was formatted, positions
      aside, and formatting again changes nothing, for the files that FormatWf.v
      calls formattable: without on-input blocks, without operators, numbers and
      strings in validation expressions, without floats in exponent notation,
      and with keys that need no quotes, all of which the formatter loses or
      spells in a way the parser rejects. The fmt command rewrites exactly the
      files whose formatting differs.
    - The graph of a set of files has exactly their declarations as nodes and
      their references as edges, after the filters, both given by relations on
      the syntax (entity, shows and draws of GraphFacts.v); its DOT text draws
      each once, by the level of each step.
    - The validators decide declarative notions: a well-formed file, a file all
      of whose references resolve, environments without conflicts. levenshtein
      is the edit distance and a suggestion is a closest name.
    - Lowering keeps every declaration once, sorted, with the right FQN and a
      fresh hash; the references of a valid file are FQNs of its document; the
      hash of a resource does not depend on the order of maps; the expansion of
      environment variables terminates when their values contain no dollar
      sign, and need not otherwise.
    - A plan holds one decision for each FQN; it is empty exactly when the
      state is up to date; drift is the part of it that failures do not cause.
      After an apply the next plan retries exactly the failures: a loop of
      apply converges when the adapter succeeds.
    - The local backend refines a store of entries, whose file is in place, set
      aside or damaged, under every failure of the file operations that write
      it, every restart and every end of the process between two of them;
      SaveVersion keeps the last ten versions, and Save loses them all.
    - Recompiling keeps the user code of a file, as far as the new file has
      places for it; gap warnings are those of the features in use.
    - Policy evaluation decides compliance; what the rules of the language
      cannot express is a theorem too.
    - Version selection picks the least version that satisfies the constraints.
      Tarjan's algorithm finds exactly the cycles of the import graph, the order
      of the files puts what a file imports before it, a chain leads to a file
      exactly when it is reachable; resolving imports always returns; a lock
      file accepts what it was made from, up to sources with two versions.
    - A pipeline is accepted exactly without cycles and missing or repeated
      steps, its layers are an earliest topological order, and in every
      interleaving of a run each step gets its own input, else what its first
      dependency put out. A
      workflow of the operator runs every step or reports why not.
    - The agent loop stays within its turns and its budget, and every call of a
      tool in its conversation is followed by its result when the tools are
      those of the registry, which gives every concurrent call its own result
      however the steps of the goroutines interleave.
    - The sliding window refines a bounded cache and the session store a store
      with idle expiry, under every interleaving of the sections of their calls.
    - The configuration built from the document of a parsed file has exactly
      the agents of the file, and its on-input blocks behave as the rules of
      OnInputRules.v say of the source.
    - The loop of validation and retries ends within the allowed retries. An
      evaluation runs the selected cases in order, and a case passes exactly
      when its score, given by rules that share nothing with the scorers,
      reaches its threshold.
    - A request to the server is handled exactly with a credential, and changes
      nothing without one; an invocation reaches the model exactly when the user
      may use the agent, the budget is not used up, and its body and session are
      there, and is charged, counted and remembered; a session refines a window
      of exchanges with idle expiry. A used-up budget blocks its agent until the
      reset; buckets are bounded. The counters hold the sums of what was
      recorded.
    - The middleware of package auth serves a request exactly with the key; a
      client makes at most 18 guesses in a minute. Logs hold no registered
      secret. The transport of tools connects to no private address. The merged
      policy permits what every policy permits, unless their lists have nothing
      in common.

    Theorems that record a defect of the code are stated like the others, and
    are listed as findings of the project.

    ** Bounds and fuel

    Token counts and the counters of the metrics are int64 and wrap around
    (GoStd.wrap64); the budget of a loop holds when no response reports that
    much. Line and column numbers, versions and other small counts are unbounded
    here; numbers of the source are parsed with the range of an int (GoStd.Atoi,
    Mvs.Atoi_value). Floats are those of
    IEEE 754, with the roundings of amd64. Instants are nanoseconds since 1970;
    the theorems on resets are for those that an int64 holds. Loops that are not
    structural take fuel and return [None] when it runs out: the lexer's loops
    start with one more than the number of unread bytes and the parser's with
    more than the number of tokens left, Kahn's loop with one more than the
    number of steps, the searches of the import graph with one more than the
    number of its paths, the resolver with one more than the number of files,
    the reading of the files of a graph with one more than the readable files,
    the level of a step with the number of nodes, the loop of retries with the
    sum of the allowed retries, and theorems prove these enough. resolveEnvVars,
    the operator's loop over remaining steps and the levels of a cyclic pipeline
    may diverge: they have an explicit bound, and it is proved when they end.

    ** What is not modelled

    Slices do not share memory in the model; the code modelled does not rely on
    aliasing. sort.Slice is a stable sort here: it is only applied to elements
    with different keys, or its order is proved for every result. Requests to
    the server are handled one at a time, with their bodies as the JSON decoder
    leaves them; its TLS, listening and logging are left out, as is the wiring
    of the process (runtime.go). The clients of model providers, process and
    container adapters, the reconcilers of the Kubernetes operator, remote state
    and session stores, the plugin host and the registry, the sandboxes, the
    code generators of the compile targets and of the SDKs, and the page of the
    graph server are outside: they are calls of external services and fixed
    texts. Expressions, regular expressions and the registry of packages are
    third-party code or services: parameters.

    * This file

    Shared vocabulary of the development: Go's view of strings (byte
    sequences), the parts of packages strings, strconv, unicode/utf8 and sort
    that the modelled code calls, record update, the result type of fallible
    code, and the tactics and hint databases of the other files. *)
From stdpp Require Export base tactics list strings pretty gmap sorting.
From Stdlib Require Export ZArith Ascii.
From Stdlib Require Import OrdersEx.

Open Scope Z_scope.

(** * Record update

    [settable] eta-expands a record; [r <| f := v |>] is [r] with field [f]
    replaced, the assignment [r.f = v] of the code. *)

Class Settable (T : Type) := settable : T → T.
Class Setter {R F : Type} (proj : R → F) := set_field : (F → F) → R → R.
Global Arguments set_field {_ _} proj {_} _ _.

Ltac solve_setter proj :=
  lazymatch type of proj with
  | ?R → _ =>
      let inst := constr:(_ : Settable R) in
      let eta := eval hnf in inst in
      let eta := eval cbv beta in (λ r : R, ltac:(let e := eval hnf in (eta r) in exact e)) in
      lazymatch eval pattern proj in eta with
      | ?g _ => exact (λ f r, g (λ r', f (proj r')) r)
      end
  end.

#[export] Hint Extern 1 (Setter ?proj) => (solve_setter proj) : typeclass_instances.

Declare Scope record_scope.
Delimit Scope record_scope with rec.
Notation "r <| f := v |>" := (set_field f (λ _, v) r)
  (at level 1, f at next level, left associativity, format "r  <| f  :=  v |>") : record_scope.
#[global] Open Scope record_scope.

(** * Results of fallible code: a value or an error *)

Inductive result (E A : Type) :=
  | Ok (a : A)
  | Err (e : E).
Global Arguments Ok {_ _} _.
Global Arguments Err {_ _} _.

Definition is_ok {E A} (r : result E A) : bool :=
  match r with Ok _ => true | Err _ => false end.

Global Instance result_ret {E} : MRet (result E) := λ A a, Ok a.
Global Instance result_bind {E} : MBind (result E) :=
  λ A B k m, match m with Ok a => k a | Err e => Err e end.

(** * Strings

    A Go string is a sequence of bytes, here [string], whose characters are
    bytes. *)

(** A text with its double quotes written as backquotes. *)
Fixpoint qt (s : string) : string :=
  match s with
  | EmptyString => EmptyString
  | String "`"%char s => String "034"%char (qt s)
  | String c s => String c (qt s)
  end.

Definition nl : string := String "010"%char EmptyString.

(** [a < b] on strings: byte order. *)
Definition str_ltb (a b : string) : bool := String.ltb a b.

(** The byte [c] as an integer. *)
Definition byte_of (c : Ascii.ascii) : Z := Z.of_N (Ascii.N_of_ascii c).

(** strings.HasPrefix, TrimPrefix, HasSuffix, Join, Index, SplitN(s, sep, 2). *)
Definition HasPrefix (s pre : string) : bool := String.prefix pre s.

Fixpoint str_drop (n : nat) (s : string) : string :=
  match n, s with
  | O, _ => s
  | S n, String _ s => str_drop n s
  | S _, EmptyString => EmptyString
  end.

Fixpoint str_take (n : nat) (s : string) : string :=
  match n, s with
  | S n, String c s => String c (str_take n s)
  | _, _ => EmptyString
  end.

Definition TrimPrefix (s pre : string) : string :=
  if HasPrefix s pre then str_drop (String.length pre) s else s.

Definition HasSuffix (s suf : string) : bool :=
  (String.length suf <=? String.length s)%nat &&
  String.eqb (str_drop (String.length s - String.length suf) s) suf.

Definition Join (elems : list string) (sep : string) : string := String.concat sep elems.

Fixpoint Index (s sub : string) : option nat :=
  if HasPrefix s sub then Some O
  else match s with
       | EmptyString => None
       | String _ s => S <$> Index s sub
       end.

Definition SplitN2 (s sep : string) : list string :=
  match Index s sep with
  | Some i => [str_take i s; str_drop (i + String.length sep) s]
  | None => [s]
  end.

(** * Insertion sort

    [for i { for j := i; j > 0 && less(a[j], a[j-1]); j-- { swap } }]: the
    prefix already sorted is kept in reverse, so that the walk of [j] to the
    left is a walk down the list. *)

Section insertion_sort.
Context {A : Type} (less : A → A → bool).

Fixpoint sift (x : A) (rev_prefix : list A) : list A :=
  match rev_prefix with
  | [] => [x]
  | y :: rest => if less x y then y :: sift x rest else x :: y :: rest
  end.

Definition insertion_sort (l : list A) : list A :=
  rev (foldl (λ acc x, sift x acc) [] l).
End insertion_sort.

(** sort.Strings. *)
Definition sort_strings (l : list string) : list string := insertion_sort str_ltb l.

(** * Hint databases

    [go]: rewriting rules of the library; [go_core]: lemmas closing the common
    side conditions. *)
Create Rewrite HintDb go.
Create HintDb go_core discriminated.

(** * Sorted lists *)

Section sorted_snoc.
Context {A : Type} (R : relation A) `{!Transitive R}.

Lemma StronglySorted_snoc l x :
  StronglySorted R l → Forall (λ z, R z x) l → StronglySorted R (l ++ [x]).
Proof.
  induction 1 as [|a l S IH F]; intros Fx; simpl.
  - repeat constructor.
  - apply Forall_cons in Fx as [Rx Fx]. constructor; [auto|].
    apply Forall_app; auto.
Qed.

Lemma StronglySorted_last l y :
  StronglySorted R l → last l = Some y → Forall (λ z, z = y ∨ R z y) l.
Proof.
  induction 1 as [|a l S IH F]; [done|]. destruct l as [|b l]; intros L.
  - simpl in L. injection L as ->. auto.
  - change (last (b :: l) = Some y) in L. constructor; [|auto].
    right. apply last_Some_elem_of in L. rewrite Forall_forall in F. by apply F.
Qed.

(** A list extended by an element above its last one stays sorted. *)
Lemma StronglySorted_extend l x :
  StronglySorted R l → (∀ y, last l = Some y → R y x) → StronglySorted R (l ++ [x]).
Proof.
  intros S L. apply StronglySorted_snoc; [done|].
  destruct (last l) as [y|] eqn:E.
  - eapply Forall_impl; [by eapply StronglySorted_last|].
    intros z [-> | ?]; [by apply L | by etrans; [|apply L]].
  - apply last_None in E as ->. constructor.
Qed.
End sorted_snoc.

(** * Concatenation of strings *)

Lemma str_app_nil_r s : s +:+ "" = s.
Proof. induction s as [|c s IH]; [done|]. change (String c (s +:+ "") = String c s). by rewrite IH. Qed.

Lemma str_app_cons c s t : String c s +:+ t = String c (s +:+ t).
Proof. done. Qed.

Lemma str_app_assoc s t u : s +:+ t +:+ u = (s +:+ t) +:+ u.
Proof. induction s as [|c s IH]; [done|]. rewrite !str_app_cons. by rewrite IH. Qed.

Lemma str_app_length s t : String.length (s +:+ t) = (String.length s + String.length t)%nat.
Proof. induction s as [|c s IH]; [done|]. rewrite str_app_cons. simpl. by rewrite IH. Qed.

Lemma str_app_inj_l s t u : s +:+ t = s +:+ u → t = u.
Proof. induction s as [|c s IH]; [done|]. rewrite !str_app_cons. intros [=]. auto. Qed.

#[export] Hint Rewrite str_app_nil_r str_app_cons str_app_length : go.

(** * Searching strings *)

Lemma HasPrefix_spec s pre : HasPrefix s pre = true ↔ ∃ t, s = pre +:+ t.
Proof.
  unfold HasPrefix. revert s. induction pre as [|c pre IH]; intros s; simpl.
  - destruct s; (split; [by eexists | done]).
  - destruct s as [|d s]; [by split; [|intros [t [=]]]|]. simpl.
    destruct (Ascii.ascii_dec c d) as [->|N].
    + rewrite IH. split; intros [t E]; exists t; [by rewrite E | by injection E].
    + split; [done | intros [t [= -> ?]]; done].
Qed.

Lemma str_drop_app s t : str_drop (String.length s) (s +:+ t) = t.
Proof. induction s as [|c s IH]; [by destruct t|]. by rewrite str_app_cons. Qed.

Lemma str_take_app s t : str_take (String.length s) (s +:+ t) = s.
Proof.
  induction s as [|c s IH]; [by destruct t|]. rewrite str_app_cons. simpl. by rewrite IH.
Qed.

Lemma str_take_drop n s : str_take n s +:+ str_drop n s = s.
Proof.
  revert s. induction n as [|n IH]; intros [|c s]; try done. simpl.
  by rewrite str_app_cons, IH.
Qed.

Lemma str_take_length n s : (n ≤ String.length s)%nat → String.length (str_take n s) = n.
Proof. revert s. induction n as [|n IH]; intros [|c s] L; simpl in *; try lia. rewrite IH; lia. Qed.

(** [Index] finds the first occurrence. *)
Definition first_at (s sub : string) (i : nat) : Prop :=
  (∃ u v, s = u +:+ sub +:+ v ∧ String.length u = i) ∧
  ∀ u v, s = u +:+ sub +:+ v → (i ≤ String.length u)%nat.

Lemma Index_Some s sub i : Index s sub = Some i → first_at s sub i.
Proof.
  revert i. induction s as [|c s IH]; intros i; cbn [Index];
    destruct (HasPrefix _ sub) eqn:Hp; try done.
  - intros [= <-]. apply HasPrefix_spec in Hp as [t E]. split; [by exists "", t|]. intros; lia.
  - intros [= <-]. apply HasPrefix_spec in Hp as [t E]. split; [by exists "", t|]. intros; lia.
  - intros (j & E & ->)%fmap_Some. destruct (IH j E) as [(u & v & -> & <-) M]. split.
    + exists (String c u), v. by rewrite str_app_cons.
    + intros [|c' u'] v' E'.
      * exfalso. apply not_true_iff_false in Hp. apply Hp, HasPrefix_spec. by exists v'.
      * rewrite str_app_cons in E'. injection E' as _ E'. specialize (M u' v' E'). simpl. lia.
Qed.

Lemma Index_None s sub : Index s sub = None → ∀ u v, s ≠ u +:+ sub +:+ v.
Proof.
  induction s as [|c s IH]; cbn [Index]; destruct (HasPrefix _ sub) eqn:Hp; try done;
    apply not_true_iff_false in Hp; rewrite HasPrefix_spec in Hp.
  - intros _ [|c u] v E; [apply Hp; by exists v | done].
  - intros N%fmap_None [|d u] v E; [apply Hp; by exists v|].
    rewrite str_app_cons in E. injection E as _ E. by apply (IH N u v).
Qed.

Lemma Index_first s sub i : Index s sub = Some i ↔ first_at s sub i.
Proof.
  split; [apply Index_Some|]. intros [(u & v & E & L) M].
  destruct (Index s sub) as [j|] eqn:I; [|by eapply Index_None in I].
  apply Index_Some in I as [(u' & v' & E' & L') M'].
  specialize (M u' v' E'). specialize (M' u v E). f_equal. lia.
Qed.

(** * The order of strings *)

Lemma str_compare_OT a b : String.compare a b = String_as_OT.compare a b.
Proof. done. Qed.

Lemma str_ltb_lt a b : str_ltb a b = true ↔ String_as_OT.lt a b.
Proof.
  unfold str_ltb, String.ltb, String_as_OT.lt. rewrite str_compare_OT.
  by destruct (String_as_OT.compare a b).
Qed.

Lemma str_ltb_irrefl a : str_ltb a a = false.
Proof. apply not_true_iff_false. rewrite str_ltb_lt. apply StrictOrder_Irreflexive. Qed.

Lemma str_ltb_trans a b c : str_ltb a b = true → str_ltb b c = true → str_ltb a c = true.
Proof. rewrite !str_ltb_lt. apply StrictOrder_Transitive. Qed.

Lemma str_ltb_total a b : str_ltb a b = true ∨ a = b ∨ str_ltb b a = true.
Proof.
  rewrite !str_ltb_lt. destruct (String_as_OT.compare_spec a b) as [E|L|L]; auto.
Qed.

(** [a <= b] on strings. *)
Definition str_le (a b : string) : Prop := str_ltb b a = false.

Lemma str_le_lt a b : str_le a b ↔ str_ltb a b = true ∨ a = b.
Proof.
  unfold str_le. split.
  - intros E. destruct (str_ltb_total a b) as [?|[?|L]]; auto. congruence.
  - intros [L| ->]; [|apply str_ltb_irrefl].
    apply not_true_iff_false. intros L'. pose proof (str_ltb_trans _ _ _ L L') as C.
    by rewrite str_ltb_irrefl in C.
Qed.

Global Instance str_le_po : PartialOrder str_le.
Proof.
  split; [split|].
  - intros a. apply str_ltb_irrefl.
  - intros a b c. rewrite !str_le_lt. intros [L| ->] [L'| ->]; auto.
    left. by eapply str_ltb_trans.
  - intros a b. rewrite !str_le_lt. intros [L| ->] [L'| E]; auto.
    pose proof (str_ltb_trans _ _ _ L L') as C. by rewrite str_ltb_irrefl in C.
Qed.

Global Instance str_le_total : Total str_le.
Proof. intros a b. rewrite !str_le_lt. destruct (str_ltb_total a b) as [?|[?|?]]; auto. Qed.

(** * Insertion sort sorts

    [less] only has to be a strict weak order: [le] below is total and
    transitive. *)

Section insertion_sort_facts.
Context {A : Type} (less : A → A → bool).
Let le (a b : A) : Prop := less b a = false.
Context `{!Transitive le} `{!Total le}.

Lemma sift_perm x l : sift less x l ≡ₚ x :: l.
Proof.
  induction l as [|y l IH]; simpl; [done|]. destruct (less x y); [|done].
  rewrite IH. apply Permutation_swap.
Qed.

Lemma sift_sorted x l : StronglySorted (flip le) l → StronglySorted (flip le) (sift less x l).
Proof.
  induction 1 as [|y l S IH F]; simpl; [by repeat constructor|].
  destruct (less x y) eqn:E.
  - constructor; [done|]. rewrite sift_perm. constructor; [|done].
    unfold flip, le. destruct (total le x y) as [T|T]; [done|]. unfold le in T. congruence.
  - constructor; [by constructor|]. constructor; [done|].
    eapply Forall_impl; [done|]. unfold flip. intros z Z. by transitivity y.
Qed.

Lemma StronglySorted_rev (R : relation A) l :
  StronglySorted (flip R) l → StronglySorted R (rev l).
Proof.
  induction 1 as [|a l S IH F]; [constructor|]. simpl.
  apply StronglySorted_snoc; [done|]. by rewrite <- Permutation_rev.
Qed.

Lemma insertion_sort_perm l : insertion_sort less l ≡ₚ l.
Proof.
  unfold insertion_sort. rewrite <- Permutation_rev.
  change l with ([] ++ l) at 2. generalize (@nil A) as acc.
  induction l as [|x l IH]; intros acc; simpl; [by rewrite app_nil_r|].
  rewrite IH, sift_perm. apply Permutation_middle.
Qed.

Lemma insertion_sort_sorted l : StronglySorted le (insertion_sort less l).
Proof.
  unfold insertion_sort. apply StronglySorted_rev.
  assert (StronglySorted (flip le) []) as S by constructor.
  revert S. generalize (@nil A) as acc. induction l as [|x l IH]; intros acc S; [done|].
  simpl. by apply IH, sift_sorted.
Qed.
End insertion_sort_facts.

Lemma sort_strings_perm l : sort_strings l ≡ₚ l.
Proof. apply insertion_sort_perm. Qed.

Lemma sort_strings_sorted l : StronglySorted str_le (sort_strings l).
Proof. apply (insertion_sort_sorted str_ltb); apply _. Qed.

(** Sorting forgets the order in which a map was iterated. *)
Lemma sort_strings_proper l1 l2 : l1 ≡ₚ l2 → sort_strings l1 = sort_strings l2.
Proof.
  intros P. apply (StronglySorted_unique str_le); try apply sort_strings_sorted.
  by rewrite !sort_strings_perm.
Qed.

Lemma elem_of_sort_strings x l : x ∈ sort_strings l ↔ x ∈ l.
Proof. by rewrite sort_strings_perm. Qed.
