(* ===== verification/GoStd.v ===== *)
(** The fragments of Go's standard library that the compiler front end calls:
    unicode/utf8, strconv (Quote, Atoi, ParseFloat) and the float verbs of fmt.

    Tables and routines that are data of the Go distribution rather than logic
    of the program (the Unicode categories above U+007F, the shortest decimal
    form of a float, SHA-256) are the fields of the class [GoRuntime]; every
    definition that needs one takes it as an argument. The iteration order of
    maps is a field too, so that what is proved holds for every order. *)
From S2P Require Import Prelude.
From Stdlib Require Import SpecFloat.
Open Scope Z_scope.

Class GoRuntime := {
  uni_letter : Z → bool;              (** unicode.IsLetter, runes >= 0x80 *)
  uni_digit : Z → bool;               (** unicode.IsDigit, runes >= 0x80 *)
  uni_print : Z → bool;               (** unicode.IsPrint, runes >= 0x80 *)
  uni_fold : Z → Z;                   (** the least rune of its case-folding class, lower case
                                          for ASCII letters, runes >= 0x80 *)
  uni_lower : Z → Z;                  (** unicode.ToLower, runes >= 0x80 *)
  uni_upper : Z → Z;                  (** unicode.ToUpper, runes >= 0x80 *)
  fmt_g : spec_float → string;        (** the %g verb *)
  float_f : spec_float → string;      (** strconv.FormatFloat(f, 'f', -1, 64) *)
  json_float : spec_float → string;   (** encoding/json on a finite float64 *)
  sha256_hex : string → string;       (** lower-case hex of sha256.Sum256 *)
  map_range {V} : gmap string V → list (string * V);
                                      (** the order in which range visits a map: any order *)
  map_range_perm {V} (m : gmap string V) : map_range m ≡ₚ map_to_list m;
}.

(** A runtime to evaluate the model with: no letter, digit or printable rune
    above U+007F, and placeholder names for the other tables. *)
Definition ascii_runtime : GoRuntime := {|
  uni_letter := λ _, false;
  uni_digit := λ _, false;
  uni_print := λ _, false;
  uni_fold := λ r, r;
  uni_lower := λ r, r;
  uni_upper := λ r, r;
  fmt_g := λ _, "float";
  float_f := λ _, "float";
  json_float := λ f, match f with S754_zero _ => "0" | _ => "1" end;
  sha256_hex := λ s, s;
  map_range _ m := map_to_list m;
  map_range_perm _ m := reflexivity _;
|}.

(** * unicode/utf8 *)

Definition RuneError : Z := 0xFFFD.

Definition char_of (b : Z) : Ascii.ascii := Ascii.ascii_of_N (Z.to_N b).

Definition is_cont (lo hi b : Z) : bool := (lo <=? b) && (b <=? hi).

Definition low6 (b : Z) : Z := Z.land b 0x3F.

(** DecodeRuneInString: the rune at the start of the string and its width;
    an invalid sequence decodes to [RuneError] and width 1. *)
Definition DecodeRune (s : string) : Z * nat :=
  match s with
  | EmptyString => (RuneError, O)
  | String c0 s1 =>
    let b0 := byte_of c0 in
    if b0 <? 0x80 then (b0, 1%nat)
    else match s1 with
    | EmptyString => (RuneError, 1%nat)
    | String c1 s2 =>
      let b1 := byte_of c1 in
      if is_cont 0xC2 0xDF b0 then
        if is_cont 0x80 0xBF b1
        then (Z.lor (Z.shiftl (Z.land b0 0x1F) 6) (low6 b1), 2%nat)
        else (RuneError, 1%nat)
      else if is_cont 0xE0 0xEF b0 then
        let lo := if b0 =? 0xE0 then 0xA0 else 0x80 in
        let hi := if b0 =? 0xED then 0x9F else 0xBF in
        match s2 with
        | EmptyString => (RuneError, 1%nat)
        | String c2 _ =>
          let b2 := byte_of c2 in
          if is_cont lo hi b1 && is_cont 0x80 0xBF b2
          then (Z.lor (Z.shiftl (Z.land b0 0x0F) 12)
                  (Z.lor (Z.shiftl (low6 b1) 6) (low6 b2)), 3%nat)
          else (RuneError, 1%nat)
        end
      else if is_cont 0xF0 0xF4 b0 then
        let lo := if b0 =? 0xF0 then 0x90 else 0x80 in
        let hi := if b0 =? 0xF4 then 0x8F else 0xBF in
        match s2 with
        | String c2 (String c3 _) =>
          let b2 := byte_of c2 in
          let b3 := byte_of c3 in
          if is_cont lo hi b1 && is_cont 0x80 0xBF b2 && is_cont 0x80 0xBF b3
          then (Z.lor (Z.shiftl (Z.land b0 0x07) 18)
                  (Z.lor (Z.shiftl (low6 b1) 12)
                    (Z.lor (Z.shiftl (low6 b2) 6) (low6 b3))), 4%nat)
          else (RuneError, 1%nat)
        | _ => (RuneError, 1%nat)
        end
      else (RuneError, 1%nat)
    end
  end.

Definition ValidRune (r : Z) : bool :=
  ((0 <=? r) && (r <? 0xD800)) || ((0xDFFF <? r) && (r <=? 0x10FFFF)).

(** AppendRune / strings.Builder.WriteRune: the UTF-8 bytes of a rune, those
    of [RuneError] for an invalid one. *)
Definition encode_rune (r : Z) : string :=
  let r := if ValidRune r then r else RuneError in
  let cont (k : Z) := char_of (Z.lor 0x80 (low6 (Z.shiftr r k))) in
  if r <=? 0x7F then String (char_of r) EmptyString
  else if r <=? 0x7FF then
    String (char_of (Z.lor 0xC0 (Z.shiftr r 6))) (String (cont 0) EmptyString)
  else if r <=? 0xFFFF then
    String (char_of (Z.lor 0xE0 (Z.shiftr r 12)))
      (String (cont 6) (String (cont 0) EmptyString))
  else
    String (char_of (Z.lor 0xF0 (Z.shiftr r 18)))
      (String (cont 12) (String (cont 6) (String (cont 0) EmptyString))).

(** unicode.IsSpace. *)
Definition IsSpace (r : Z) : bool :=
  is_cont 9 13 r || (r =? 0x20) || (r =? 0x85) || (r =? 0xA0) || (r =? 0x1680) ||
  is_cont 0x2000 0x200A r || (r =? 0x2028) || (r =? 0x2029) || (r =? 0x202F) ||
  (r =? 0x205F) || (r =? 0x3000).

(** The runes of a string, each with its bytes ([n] bounds their number). *)
Fixpoint runes_of (n : nat) (s : string) : list (Z * string) :=
  match n, s with
  | S n, String _ _ =>
      let '(r, w) := DecodeRune s in (r, str_take w s) :: runes_of n (str_drop w s)
  | _, _ => []
  end.

(** strings.TrimSpace. *)
Fixpoint drop_spaces (l : list (Z * string)) : list (Z * string) :=
  match l with
  | (r, b) :: l' => if IsSpace r then drop_spaces l' else l
  | [] => []
  end.

Definition TrimSpace (s : string) : string :=
  String.concat ""
    (snd <$> rev (drop_spaces (rev (drop_spaces (runes_of (String.length s) s))))).

(** * strings.Contains, Split, ReplaceAll *)

Definition Contains (s sub : string) : bool :=
  match Index s sub with Some _ => true | None => false end.

(** The parts of [s] between the occurrences of [sep], which is not empty; [n]
    bounds their number. *)
Fixpoint split_on (n : nat) (s sep : string) : list string :=
  match n, Index s sep with
  | S n, Some i => str_take i s :: split_on n (str_drop (i + String.length sep) s) sep
  | _, _ => [s]
  end.

Definition Split (s sep : string) : list string := split_on (String.length s) s sep.

Definition ReplaceAll (s old new : string) : string := Join (Split s old) new.

(** * strings.ToLower and strings.ToUpper *)

Section case.
Context `{GoRuntime}.

Definition to_lower (r : Z) : Z :=
  if r <? 0x80 then (if (65 <=? r) && (r <=? 90) then r + 32 else r) else uni_lower r.

Definition to_upper (r : Z) : Z :=
  if r <? 0x80 then (if (97 <=? r) && (r <=? 122) then r - 32 else r) else uni_upper r.

(** strings.Map. *)
Definition map_runes (f : Z → Z) (s : string) : string :=
  String.concat "" ((λ '(r, _), encode_rune (f r)) <$> runes_of (String.length s) s).

Definition ToLower (s : string) : string := map_runes to_lower s.
Definition ToUpper (s : string) : string := map_runes to_upper s.
End case.

(** * strconv.Quote and the %q verb *)

Definition hex_digit (n : Z) : Ascii.ascii :=
  char_of (if n <? 10 then 48 + n else 87 + n).

(** The [k] low hexadecimal digits of [n], most significant first. *)
Fixpoint hex (k : nat) (n : Z) : string :=
  match k with
  | O => EmptyString
  | S k => String (hex_digit (Z.land (Z.shiftr n (4 * Z.of_nat k)) 0xF)) (hex k n)
  end.

Section quoting.
Context `{GoRuntime}.

Definition IsPrint (r : Z) : bool :=
  if r <? 0x80 then (0x20 <=? r) && (r <=? 0x7E) else uni_print r.

Definition escaped_rune (quote : Ascii.ascii) (r : Z) : string :=
  if (r =? byte_of quote) || (r =? 92) then String "\" (encode_rune r)
  else if IsPrint r then encode_rune r
  else if r =? 7 then "\a" else if r =? 8 then "\b" else if r =? 12 then "\f"
  else if r =? 10 then "\n" else if r =? 13 then "\r" else if r =? 9 then "\t"
  else if r =? 11 then "\v"
  else if (r <? 32) || (r =? 127) then "\x" +:+ hex 2 r
  else let r := if ValidRune r then r else RuneError in
       if r <? 0x10000 then "\u" +:+ hex 4 r else "\U" +:+ hex 8 r.

(** The body of a quoted string; [n] bounds the number of runes left. *)
Fixpoint quote_runes (n : nat) (s : string) : string :=
  match n, s with
  | S n, String c _ =>
      let '(r, w) := DecodeRune s in
      (if (r =? RuneError) && (w =? 1)%nat && (0x80 <=? byte_of c)
       then "\x" +:+ hex 2 (byte_of c)
       else escaped_rune "034" r) +:+ quote_runes n (str_drop w s)
  | _, _ => EmptyString
  end.

(** [%q] of a string, and of a rune. *)
Definition quote (s : string) : string :=
  String "034" (quote_runes (String.length s) s) +:+ String "034" EmptyString.

Definition quote_rune (r : Z) : string :=
  String "'" (escaped_rune "'" (if ValidRune r then r else RuneError)) +:+ "'".
End quoting.

(** * strconv.Atoi and strconv.ParseFloat *)

Definition digit_of (c : Ascii.ascii) : option Z :=
  let b := byte_of c in
  if (48 <=? b) && (b <=? 57) then Some (b - 48) else None.

(** The value of a string of decimal digits. *)
Fixpoint digits_value (acc : Z) (s : string) : option Z :=
  match s with
  | EmptyString => Some acc
  | String c s => d ← digit_of c; digits_value (10 * acc + d) s
  end.

(** An optional sign, and the rest. *)
Definition split_sign (s : string) : bool * string :=
  match s with
  | String "-" s => (true, s)
  | String "+" s => (false, s)
  | _ => (false, s)
  end.

Definition min_int : Z := - 2 ^ 63.
Definition max_int : Z := 2 ^ 63 - 1.

(** A sum of ints or int64s wraps around. *)
Definition wrap64 (x : Z) : Z := (x + 2 ^ 63) mod 2 ^ 64 - 2 ^ 63.

Definition is_int64 (x : Z) : Prop := min_int <= x <= max_int.

Lemma wrap64_small x : is_int64 x → wrap64 x = x.
Proof.
  unfold is_int64, wrap64, min_int, max_int. change (2 ^ 64) with (2 * 2 ^ 63). intros B.
  rewrite Z.mod_small by lia. lia.
Qed.

Lemma wrap64_int x : is_int64 (wrap64 x).
Proof.
  unfold is_int64, wrap64, min_int, max_int. pose proof (Z.mod_pos_bound (x + 2 ^ 63) (2 ^ 64)).
  change (2 ^ 64) with (2 * 2 ^ 63) in *. lia.
Qed.

Lemma wrap64_add_l x y : wrap64 (wrap64 x + y) = wrap64 (x + y).
Proof.
  unfold wrap64. replace (_ - _ + y + 2 ^ 63) with ((x + 2 ^ 63) mod 2 ^ 64 + y) by lia.
  rewrite Z.add_mod_idemp_l by done. f_equal. f_equal. lia.
Qed.

Lemma wrap64_add_r x y : wrap64 (x + wrap64 y) = wrap64 (x + y).
Proof. by rewrite (Z.add_comm x), wrap64_add_l, Z.add_comm. Qed.

Lemma wrap64_idem x : wrap64 (wrap64 x) = wrap64 x.
Proof. apply wrap64_small, wrap64_int. Qed.

(** Atoi: [None] stands for both of its errors, syntax and range. *)
Definition Atoi (s : string) : option Z :=
  let '(neg, body) := split_sign s in
  match body with
  | EmptyString => None
  | _ =>
      v ← digits_value 0 body;
      let v := if neg then - v else v in
      if (min_int <=? v) && (v <=? max_int) then Some v else None
  end.

Abbreviation float64 := spec_float.

Definition float_zero : float64 := S754_zero false.

(** [m / d] rounded to the nearest double, ties to even. *)
Definition float_of_ratio (neg : bool) (m d : positive) : float64 :=
  SFdiv 53 1024 (S754_finite neg m 0) (S754_finite false d 0).

Definition float_lt (a b : float64) : bool := SFltb a b.
Definition float_eq (a b : float64) : bool := SFeqb a b.

(** The integer [n] as a double. *)
Definition float_of_Z (n : Z) : float64 :=
  match n with
  | Z0 => S754_zero false
  | Zpos p => float_of_ratio false p 1
  | Zneg p => float_of_ratio true p 1
  end.

(** ParseFloat on the spellings a number token can have (digits, points and
    signs: no exponent, hexadecimal or named value); [None] stands for both of
    its errors, syntax and range. *)
Definition ParseFloat (s : string) : option float64 :=
  let '(neg, body) := split_sign s in
  let '(ip, fp) :=
    match Index body "." with
    | Some i => (str_take i body, str_drop (S i) body)
    | None => (body, EmptyString)
    end in
  if String.eqb ip EmptyString && String.eqb fp EmptyString then None
  else
    m ← digits_value 0 (ip +:+ fp);
    match m with
    | Zpos p =>
        match float_of_ratio neg p (Z.to_pos (10 ^ Z.of_nat (String.length fp))) with
        | S754_infinity _ => None
        | f => Some f
        end
    | _ => Some (S754_zero neg)
    end.

(** The %f verb with [p] decimals: the exact value rounded, ties to even. *)
Definition zero_pad (p : nat) (s : string) : string :=
  Join (repeat "0" (p - String.length s)) "" +:+ s.

Definition fmt_fixed (p : nat) (f : float64) : string :=
  let sign (neg : bool) := if neg then "-" else "" in
  let scale := 10 ^ Z.of_nat p in
  let digits (n : Z) := pretty (n / scale) +:+ "." +:+ zero_pad p (pretty (n mod scale)) in
  match f with
  | S754_zero neg => sign neg +:+ digits 0
  | S754_infinity neg => if neg then "-Inf" else "+Inf"
  | S754_nan => "NaN"
  | S754_finite neg m e =>
      let n := scale * Zpos m in
      let r :=
        if 0 <=? e then n * 2 ^ e
        else let d := 2 ^ (- e) in
             let q := n / d in
             let rest := 2 * (n mod d) in
             if (rest <? d) || ((rest =? d) && Z.even q) then q else q + 1 in
      sign neg +:+ digits r
  end.

Definition fmt_f1 : float64 → string := fmt_fixed 1.
