(* ===== verification/GoTime.v ===== *)
(** More of Go's standard library: the arithmetic of float64, and of package
    time the civil calendar and the layout RFC3339.

    An instant is a number of nanoseconds since the Unix epoch, in UTC. The
    arithmetic is that of amd64, where the compiler fuses no operations. *)
From S2P Require Import Prelude GoStd.
From Stdlib Require Import SpecFloat.
Open Scope Z_scope.

(** * float64 *)

Definition float_add : float64 → float64 → float64 := SFadd 53 1024.
Definition float_sub : float64 → float64 → float64 := SFsub 53 1024.
Definition float_mul : float64 → float64 → float64 := SFmul 53 1024.
Definition float_div : float64 → float64 → float64 := SFdiv 53 1024.

Definition float_le (a b : float64) : bool := SFleb a b.

(** A decimal literal, [m / 10 ^ p]. *)
Definition decimal (m : Z) (p : nat) : float64 :=
  match m with
  | Zpos q => float_of_ratio false q (Z.to_pos (10 ^ Z.of_nat p))
  | Zneg q => float_of_ratio true q (Z.to_pos (10 ^ Z.of_nat p))
  | Z0 => float_zero
  end.

(** * The calendar *)

Definition ns_per_second : Z := 1000000000.
Definition ns_per_day : Z := 86400 * ns_per_second.

(** Duration.Seconds *)
Definition Seconds (d : Z) : float64 :=
  float_add (float_of_Z (Z.quot d ns_per_second))
    (float_div (float_of_Z (Z.rem d ns_per_second)) (float_of_Z ns_per_second)).

(** The year that starts in March: the day of year [yoe] of an era of 400. *)
Definition year_start (yoe : Z) : Z := yoe * 365 + yoe / 4 - yoe / 100.
Definition month_start (mp : Z) : Z := (153 * mp + 2) / 5.

(** The days from the epoch to a date. *)
Definition day_of_civil (y m d : Z) : Z :=
  let y := if m <=? 2 then y - 1 else y in
  y / 400 * 146097 + year_start (y mod 400) + month_start ((m + 9) mod 12) + (d - 1) - 719468.

Definition civil_of_day (n : Z) : Z * Z * Z :=
  let z := n + 719468 in
  let doe := z mod 146097 in
  let century := Z.min 3 (doe / 36524) in
  let doc := doe - 36524 * century in
  let quad := doc / 1461 in
  let doq := doc - 1461 * quad in
  let year := Z.min 3 (doq / 365) in
  let doy := doq - 365 * year in
  let mp := (5 * doy + 2) / 153 in
  let m := if mp <? 10 then mp + 3 else mp - 9 in
  let y := z / 146097 * 400 + 100 * century + 4 * quad + year in
  (if m <=? 2 then y + 1 else y, m, doy - month_start mp + 1).

(** time.Date at midnight: a month past December is one of the next year. *)
Definition Date (y m d : Z) : Z :=
  day_of_civil (y + (m - 1) / 12) ((m - 1) mod 12 + 1) d * ns_per_day.

Definition is_leap (y : Z) : bool := (y mod 4 =? 0) && (negb (y mod 100 =? 0) || (y mod 400 =? 0)).

Definition daysIn (y m : Z) : Z :=
  if m =? 2 then (if is_leap y then 29 else 28)
  else if (m =? 4) || (m =? 6) || (m =? 9) || (m =? 11) then 30 else 31.

(** * RFC3339 *)

Definition digit (n : Z) : Ascii.ascii := char_of (48 + n).

Definition digits2 (n : Z) : string := String (digit (n / 10)) (String (digit (n mod 10)) "").
Definition digits4 (n : Z) : string := digits2 (n / 100) +:+ digits2 (n mod 100).

(** The year: four digits, or as many as it has. *)
Definition year_text (y : Z) : string :=
  if (0 <=? y) && (y <=? 9999) then digits4 y
  else if y <? 0 then "-" +:+ zero_pad 4 (pretty (- y)) else pretty y.

Definition FormatRFC3339 (t : Z) : string :=
  let '(y, m, d) := civil_of_day (t / ns_per_day) in
  let s := t mod ns_per_day / ns_per_second in
  year_text y +:+ "-" +:+ digits2 m +:+ "-" +:+ digits2 d +:+ "T" +:+
  digits2 (s / 3600) +:+ ":" +:+ digits2 (s / 60 mod 60) +:+ ":" +:+ digits2 (s mod 60) +:+ "Z".

(** [n] digits at the start of a text. *)
Fixpoint take_digits (n : nat) (acc : Z) (s : string) : option (Z * string) :=
  match n, s with
  | O, _ => Some (acc, s)
  | S n, String c s => d ← digit_of c; take_digits n (10 * acc + d) s
  | S _, EmptyString => None
  end.

Definition take_char (c : Ascii.ascii) (s : string) : option string :=
  match s with
  | String c' s => if Ascii.eqb c c' then Some s else None
  | EmptyString => None
  end.

(** The hour may have one digit. *)
Definition take_hour (s : string) : option (Z * string) :=
  match take_digits 2 0 s with Some r => Some r | None => take_digits 1 0 s end.

(** The digits of a fraction: their value in units of [unit] nanoseconds, the
    tenth digit and those after it being dropped. *)
Fixpoint take_fraction (unit acc : Z) (s : string) : Z * string :=
  match s with
  | String c s' =>
      match digit_of c with
      | Some d => take_fraction (unit / 10) (acc + d * unit) s'
      | None => (acc, s)
      end
  | EmptyString => (acc, s)
  end.

Definition take_nanoseconds (s : string) : Z * string :=
  match s with
  | String p (String c _ as s') =>
      match digit_of c with
      | Some _ =>
          if Ascii.eqb p "." || Ascii.eqb p "," then take_fraction 100000000 0 s' else (0, s)
      | None => (0, s)
      end
  | _ => (0, s)
  end.

(** The zone: its offset in seconds. *)
Definition take_zone (s : string) : option (Z * string) :=
  match take_char "Z" s with
  | Some s => Some (0, s)
  | None =>
      '(sign, s) ←
        match take_char "+" s with
        | Some s => Some (1, s)
        | None => s ← take_char "-" s; Some (-1, s)
        end;
      '(hh, s) ← take_digits 2 0 s;
      s ← take_char ":" s;
      '(mm, s) ← take_digits 2 0 s;
      if (hh <=? 24) && (mm <=? 60) then Some (sign * (hh * 60 + mm) * 60, s) else None
  end.

(** time.Parse(time.RFC3339, s), [None] on an error. *)
Definition ParseRFC3339 (s : string) : option Z :=
  '(y, s) ← take_digits 4 0 s; s ← take_char "-" s;
  '(m, s) ← take_digits 2 0 s; s ← take_char "-" s;
  '(d, s) ← take_digits 2 0 s; s ← take_char "T" s;
  '(hh, s) ← take_hour s; s ← take_char ":" s;
  '(mm, s) ← take_digits 2 0 s; s ← take_char ":" s;
  '(ss, s) ← take_digits 2 0 s;
  let '(nanos, s) := take_nanoseconds s in
  '(offset, s) ← take_zone s;
  if String.eqb s "" && (1 <=? m) && (m <=? 12) && (1 <=? d) && (d <=? daysIn y m) &&
     (hh <=? 23) && (mm <=? 59) && (ss <=? 59)
  then Some (day_of_civil y m d * ns_per_day + (hh * 3600 + mm * 60 + ss - offset) * ns_per_second + nanos)
  else None.

(** * The calendar is exact *)

Lemma month_of doy : 0 ≤ doy ≤ 365 →
  let mp := (5 * doy + 2) / 153 in
  0 ≤ mp ≤ 11 ∧ month_start mp ≤ doy < month_start (mp + 1).
Proof. unfold month_start. intros B. simpl. Z.to_euclidean_division_equations. lia. Qed.

Lemma era_parts doe : 0 ≤ doe < 146097 →
  ∃ yoe doy,
    (let century := Z.min 3 (doe / 36524) in
     let doc := doe - 36524 * century in
     let quad := doc / 1461 in
     let doq := doc - 1461 * quad in
     let year := Z.min 3 (doq / 365) in
     yoe = 100 * century + 4 * quad + year ∧ doy = doq - 365 * year) ∧
    0 ≤ yoe < 400 ∧ doe = year_start yoe + doy ∧ 0 ≤ doy ∧ year_start yoe + doy < year_start (yoe + 1) + (if yoe =? 399 then 1 else 0).
Proof.
  intros B. eexists _, _. split; [split; reflexivity|]. unfold year_start.
  remember (Z.min 3 (doe / 36524)) as c eqn:C. remember (doe - 36524 * c) as doc eqn:D.
  assert (0 ≤ c ≤ 3 ∧ 0 ≤ doc ≤ 36524 ∧ (doc = 36524 → c = 3)) as (Bc & Bd & L).
  { subst. Z.to_euclidean_division_equations. lia. }
  remember (doc / 1461) as q eqn:Q. remember (doc - 1461 * q) as doq eqn:E.
  assert (0 ≤ q ≤ 24 ∧ 0 ≤ doq ≤ 1460 ∧ (q = 24 → doq = 1460 → c = 3)) as (Bq & Be & L').
  { subst q doq. Z.to_euclidean_division_equations. lia. }
  remember (Z.min 3 (doq / 365)) as y eqn:Y. remember (doq - 365 * y) as doy eqn:F.
  assert (0 ≤ y ≤ 3 ∧ 0 ≤ doy ≤ 365 ∧ (doy = 365 → y = 3)) as (By & Bf & L'').
  { subst y doy. Z.to_euclidean_division_equations. lia. }
  clear C Q Y.
  assert (doe = 36524 * c + 1461 * q + 365 * y + doy) as -> by lia.
  destruct (Z.eqb_spec (100 * c + 4 * q + y) 399); Z.to_euclidean_division_equations; lia.
Qed.

(** Day [n] is day [doy] of the year [era * 400 + yoe] that starts in March. *)
Record civil_parts (n era yoe doy : Z) : Prop := {
  cp_day : n + 719468 = era * 146097 + year_start yoe + doy;
  cp_yoe : 0 ≤ yoe < 400;
  cp_doy : 0 ≤ doy < 365 + (if is_leap (era * 400 + yoe + 1) then 1 else 0);
  cp_civil : civil_of_day n =
    let mp := (5 * doy + 2) / 153 in
    let m := if mp <? 10 then mp + 3 else mp - 9 in
    let y := era * 400 + yoe in
    (if m <=? 2 then y + 1 else y, m, doy - month_start mp + 1);
}.

(** The length of a year. *)
Lemma year_length era yoe : 0 ≤ yoe < 400 →
  year_start (yoe + 1) + (if yoe =? 399 then 1 else 0) =
  year_start yoe + 365 + (if is_leap (era * 400 + yoe + 1) then 1 else 0).
Proof.
  intros B. unfold year_start, is_leap.
  replace ((era * 400 + yoe + 1) mod 4) with ((yoe + 1) mod 4) by (Z.to_euclidean_division_equations; lia).
  replace ((era * 400 + yoe + 1) mod 100) with ((yoe + 1) mod 100) by (Z.to_euclidean_division_equations; lia).
  replace ((era * 400 + yoe + 1) mod 400) with ((yoe + 1) mod 400) by (Z.to_euclidean_division_equations; lia).
  destruct (Z.eqb_spec ((yoe + 1) mod 4) 0), (Z.eqb_spec ((yoe + 1) mod 100) 0),
    (Z.eqb_spec ((yoe + 1) mod 400) 0), (Z.eqb_spec yoe 399); simpl;
    Z.to_euclidean_division_equations; lia.
Qed.

Lemma civil_exists n : ∃ era yoe doy, civil_parts n era yoe doy.
Proof.
  pose proof (Z.mod_pos_bound (n + 719468) 146097 ltac:(lia)) as B.
  destruct (era_parts _ B) as (yoe & doy & [Ey Ed] & Yb & Day & D0 & D1).
  exists ((n + 719468) / 146097), yoe, doy. split; [| done | |].
  - rewrite (Z.div_mod (n + 719468) 146097) at 1 by lia. lia.
  - rewrite <- (Z.add_0_l 365). pose proof (year_length ((n + 719468) / 146097) yoe Yb). lia.
  - unfold civil_of_day. cbv zeta. rewrite <- Ed. rewrite <- !Z.add_assoc.
    rewrite Ey. rewrite !Z.add_assoc. done.
Qed.

Lemma era_split era yoe : 0 ≤ yoe < 400 → (era * 400 + yoe) / 400 = era ∧ (era * 400 + yoe) mod 400 = yoe.
Proof. intros B. split; Z.to_euclidean_division_equations; lia. Qed.

Lemma month_cases mp : 0 ≤ mp ≤ 11 →
  let m := if mp <? 10 then mp + 3 else mp - 9 in
  1 ≤ m ≤ 12 ∧ (m + 9) mod 12 = mp ∧ (m <=? 2) = (10 <=? mp) ∧ m / 12 = (if mp =? 9 then 1 else 0) ∧
  (m mod 12 + 1 + 9) mod 12 = (mp + 1) mod 12 ∧ (m mod 12 + 1 <=? 2) = ((mp =? 9) || (mp =? 10)).
Proof.
  intros B. assert (mp = 0 ∨ mp = 1 ∨ mp = 2 ∨ mp = 3 ∨ mp = 4 ∨ mp = 5 ∨ mp = 6 ∨ mp = 7 ∨ mp = 8 ∨
    mp = 9 ∨ mp = 10 ∨ mp = 11) as C by lia.
  repeat destruct C as [->|C]; try subst mp; simpl; split_and!; lia || reflexivity.
Qed.

Lemma day_of_parts n y m d : civil_of_day n = (y, m, d) → day_of_civil y m d = n.
Proof.
  destruct (civil_exists n) as (era & yoe & doy & [E Yb Db Cv]). rewrite Cv. cbv zeta. intros [= <- <- <-].
  destruct (month_of doy) as [Mb _]; [destruct (is_leap _); lia|].
  destruct (month_cases _ Mb) as (_ & M9 & M2 & _ & _). cbv zeta in M9, M2. unfold day_of_civil.
  rewrite M9, M2. destruct (era_split era yoe Yb) as [E1 E2].
  destruct (10 <=? _); rewrite ?Z.add_simpl_r, E1, E2; lia.
Qed.

(** The date of a day is one of the calendar. *)
Lemma civil_valid n y m d : civil_of_day n = (y, m, d) → 1 ≤ m ≤ 12 ∧ 1 ≤ d ≤ daysIn y m.
Proof.
  destruct (civil_exists n) as (era & yoe & doy & [E Yb Db Cv]). rewrite Cv. cbv zeta. intros [= <- <- <-].
  destruct (month_of doy) as [Mb [M1 M2]]; [destruct (is_leap _); lia|].
  remember ((5 * doy + 2) / 153) as mp eqn:Emp. clear Emp Cv E.
  destruct (month_cases _ Mb) as (B & _). split; [exact B|]. clear B.
  assert (mp = 0 ∨ mp = 1 ∨ mp = 2 ∨ mp = 3 ∨ mp = 4 ∨ mp = 5 ∨ mp = 6 ∨ mp = 7 ∨ mp = 8 ∨
    mp = 9 ∨ mp = 10 ∨ mp = 11) as C by lia.
  unfold month_start in *. revert Db.
  repeat destruct C as [->|C]; try subst mp; unfold daysIn; simpl;
    try (destruct (is_leap _)); Z.to_euclidean_division_equations; lia.
Qed.

(** The first of the next month is after every day of this one. *)
Lemma next_month_later n y m d :
  civil_of_day n = (y, m, d) → n < day_of_civil (y + m / 12) (m mod 12 + 1) 1.
Proof.
  destruct (civil_exists n) as (era & yoe & doy & [E Yb Db Cv]). rewrite Cv. cbv zeta. intros [= <- <- <-].
  destruct (month_of doy) as [Mb [_ M]]; [destruct (is_leap _); lia|].
  remember ((5 * doy + 2) / 153) as mp eqn:Emp. clear Emp Cv.
  destruct (month_cases _ Mb) as (_ & _ & M2 & Mq & Mn & Ml). cbv zeta in M2, Mq, Mn, Ml.
  unfold day_of_civil. rewrite M2, Mq, Mn, Ml. clear M2 Mq Mn Ml. destruct (era_split era yoe Yb) as [E1 E2].
  pose proof (year_length era yoe Yb) as L.
  destruct (decide (mp = 11)) as [->|N]; simpl.
  - destruct (Z.eqb_spec yoe 399) as [->|N'].
    + replace ((era * 400 + 399 + 1 + 0) / 400) with (era + 1) by (Z.to_euclidean_division_equations; lia).
      replace ((era * 400 + 399 + 1 + 0) mod 400) with 0 by (Z.to_euclidean_division_equations; lia).
      clear E1 E2 M Mb Yb. revert Db. unfold year_start, month_start in *. simpl in *.
      destruct (is_leap _); Z.to_euclidean_division_equations; lia.
    + replace (era * 400 + yoe + 1 + 0) with (era * 400 + (yoe + 1)) by lia.
      destruct (era_split era (yoe + 1)) as [-> ->]; [lia|]. change (month_start ((11 + 1) mod 12)) with 0.
      revert Db L. destruct (is_leap _); lia.
  - rewrite (Z.mod_small (mp + 1)) by lia.
    assert (day_of : ∀ y', y' = era * 400 + yoe →
      n < y' / 400 * 146097 + year_start (y' mod 400) + month_start (mp + 1) + (1 - 1) - 719468).
    { intros y' ->. rewrite E1, E2. lia. }
    destruct (Z.eqb_spec mp 9), (Z.eqb_spec mp 10), (Z.leb_spec 10 mp); simpl; try lia; apply day_of; lia.
Qed.

(** The first of the next month is at most 31 days away. *)
Lemma next_month_soon n y m d :
  civil_of_day n = (y, m, d) → day_of_civil (y + m / 12) (m mod 12 + 1) 1 ≤ n + 31.
Proof.
  destruct (civil_exists n) as (era & yoe & doy & [E Yb Db Cv]). rewrite Cv. cbv zeta. intros [= <- <- <-].
  destruct (month_of doy) as [Mb [M _]]; [destruct (is_leap _); lia|].
  remember ((5 * doy + 2) / 153) as mp eqn:Emp. clear Emp Cv.
  destruct (month_cases _ Mb) as (_ & _ & M2 & Mq & Mn & Ml). cbv zeta in M2, Mq, Mn, Ml.
  unfold day_of_civil. rewrite M2, Mq, Mn, Ml. clear M2 Mq Mn Ml. destruct (era_split era yoe Yb) as [E1 E2].
  pose proof (year_length era yoe Yb) as L.
  destruct (decide (mp = 11)) as [->|N]; simpl.
  - destruct (Z.eqb_spec yoe 399) as [->|N'].
    + replace ((era * 400 + 399 + 1 + 0) / 400) with (era + 1) by (Z.to_euclidean_division_equations; lia).
      replace ((era * 400 + 399 + 1 + 0) mod 400) with 0 by (Z.to_euclidean_division_equations; lia).
      clear E1 E2 Mb Yb. revert Db. unfold year_start, month_start in *. simpl in *.
      destruct (is_leap _); Z.to_euclidean_division_equations; lia.
    + replace (era * 400 + yoe + 1 + 0) with (era * 400 + (yoe + 1)) by lia.
      destruct (era_split era (yoe + 1)) as [-> ->]; [lia|]. change (month_start ((11 + 1) mod 12)) with 0.
      change (month_start 11) with 337 in M. revert Db L. destruct (is_leap _); lia.
  - rewrite (Z.mod_small (mp + 1)) by lia.
    assert (month_start (mp + 1) ≤ month_start mp + 31) by (unfold month_start; Z.to_euclidean_division_equations; lia).
    assert (day_of : ∀ y', y' = era * 400 + yoe →
      y' / 400 * 146097 + year_start (y' mod 400) + month_start (mp + 1) + (1 - 1) - 719468 ≤ n + 31).
    { intros y' ->. rewrite E1, E2. lia. }
    destruct (Z.eqb_spec mp 9), (Z.eqb_spec mp 10), (Z.leb_spec 10 mp); simpl; try lia; apply day_of; lia.
Qed.

(** * Reading a formatted instant back *)

Lemma digit_of_digit n : 0 ≤ n ≤ 9 → digit_of (digit n) = Some n.
Proof.
  intros B. assert (n = 0 ∨ n = 1 ∨ n = 2 ∨ n = 3 ∨ n = 4 ∨ n = 5 ∨ n = 6 ∨ n = 7 ∨ n = 8 ∨ n = 9) as C by lia.
  repeat destruct C as [->|C]; try subst n; reflexivity.
Qed.

Lemma take_digits_digit k acc n s : 0 ≤ n ≤ 9 →
  take_digits (S k) acc (String (digit n) s) = take_digits k (10 * acc + n) s.
Proof. intros B. cbn [take_digits]. by rewrite digit_of_digit. Qed.

Lemma take_digits2 k acc n s : 0 ≤ n ≤ 99 →
  take_digits (S (S k)) acc (digits2 n +:+ s) = take_digits k (100 * acc + n) s.
Proof.
  intros B. change (digits2 n +:+ s) with (String (digit (n / 10)) (String (digit (n mod 10)) s)).
  rewrite !take_digits_digit by (Z.to_euclidean_division_equations; lia).
  f_equal. Z.to_euclidean_division_equations. lia.
Qed.

Lemma take_digits4 n s : 0 ≤ n ≤ 9999 → take_digits 4 0 (digits4 n +:+ s) = Some (n, s).
Proof.
  intros B. unfold digits4. rewrite <- str_app_assoc.
  rewrite !take_digits2 by (Z.to_euclidean_division_equations; lia).
  cbn [take_digits]. f_equal. f_equal. Z.to_euclidean_division_equations. lia.
Qed.

Lemma bind_digits2 {B} n s (k : Z * string → option B) : 0 ≤ n ≤ 99 →
  (take_digits 2 0 (digits2 n +:+ s) ≫= k) = k (n, s).
Proof. intros N. by rewrite take_digits2. Qed.

Lemma bind_digits4 {B} n s (k : Z * string → option B) : 0 ≤ n ≤ 9999 →
  (take_digits 4 0 (digits4 n +:+ s) ≫= k) = k (n, s).
Proof. intros N. by rewrite take_digits4. Qed.

Lemma bind_hour {B} n s (k : Z * string → option B) : 0 ≤ n ≤ 99 →
  (take_hour (digits2 n +:+ s) ≫= k) = k (n, s).
Proof. intros N. unfold take_hour. by rewrite take_digits2. Qed.

Lemma bind_char {B} c s (k : string → option B) : (take_char c (String c "" +:+ s) ≫= k) = k s.
Proof. simpl. by rewrite Ascii.eqb_refl. Qed.

(** A whole second of the years 0 to 9999 is read back. *)
Lemma Parse_Format t y m d :
  civil_of_day (t / ns_per_day) = (y, m, d) → 0 ≤ y ≤ 9999 → t mod ns_per_second = 0 →
  ParseRFC3339 (FormatRFC3339 t) = Some t.
Proof.
  intros C Y W. destruct (civil_valid _ _ _ _ C) as [M D]. pose proof (day_of_parts _ _ _ _ C) as N.
  assert (daysIn y m ≤ 31) as D31 by (unfold daysIn; repeat case_match; lia).
  unfold FormatRFC3339. rewrite C. unfold year_text.
  rewrite (proj2 (andb_true_iff _ _)) by (split; apply Z.leb_le; lia).
  remember (t mod ns_per_day / ns_per_second) as s eqn:S.
  assert (0 ≤ s < 86400 ∧ t = t / ns_per_day * ns_per_day + s * ns_per_second) as [Sb T].
  { subst s. unfold ns_per_day, ns_per_second in *. Z.to_euclidean_division_equations. lia. }
  assert (0 ≤ s / 3600 ≤ 23 ∧ 0 ≤ s / 60 mod 60 ≤ 59 ∧ 0 ≤ s mod 60 ≤ 59 ∧
    s / 3600 * 3600 + s / 60 mod 60 * 60 + s mod 60 = s) as (Hb & Mb & Cb & Hs).
  { Z.to_euclidean_division_equations. lia. }
  unfold ParseRFC3339. rewrite bind_digits4, bind_char, bind_digits2, bind_char, bind_digits2 by lia.
  rewrite bind_char, bind_hour, bind_char, bind_digits2, bind_char, bind_digits2 by lia.
  change (take_nanoseconds "Z") with (0, "Z"). cbv iota beta. change (take_zone "Z") with (Some (0, "")).
  cbn [mbind option_bind]. change (String.eqb "" "") with true. rewrite N.
  rewrite !(proj2 (Z.leb_le _ _)) by lia. cbn [andb]. f_equal. rewrite Z.sub_0_r, Hs. lia.
Qed.

Example format_epoch : FormatRFC3339 0 = "1970-01-01T00:00:00Z".
Proof. reflexivity. Qed.

Example parse_offset : ParseRFC3339 "2024-02-29T23:30:15.5+01:00" = Some (1709245815500000000).
Proof. vm_compute. reflexivity. Qed.
