(* ===== verification/Ast.v ===== *)
(** The syntax tree of IntentLang (internal/ast/ast.go): one record per Go
    struct, a field [F] of struct [S] being the projection [S_F]; pointers are
    options, the interfaces Statement and OnInputStmt are inductive types with
    one constructor per implementing type. The
    struct Variable is [VariableDecl] and the field Variable of ForEachBlock
    [LoopVariable], since [Variable] is a keyword of Rocq. *)
From S2P Require Import Prelude GoStd.
Open Scope Z_scope.

(** Pos represents a position in source code. *)
Record Pos := mkPos {
  Pos_File : string;
  Pos_Line : Z;
  Pos_Column : Z;
}.

Global Instance settable_Pos : Settable Pos := λ r,
  mkPos (Pos_File r) (Pos_Line r) (Pos_Column r).

(** Import declares an external package dependency. *)
Record Import := mkImport {
  Import_Path : string;
  Import_Version : string;
  Import_SHA : string;
  Import_Alias : string;
  Import_StartPos : Pos;
  Import_EndPos : Pos;
}.

Global Instance settable_Import : Settable Import := λ r,
  mkImport (Import_Path r) (Import_Version r) (Import_SHA r) (Import_Alias r)
  (Import_StartPos r) (Import_EndPos r).

(** PluginRef declares a plugin dependency. *)
Record PluginRef := mkPluginRef {
  PluginRef_Name : string;
  PluginRef_Version : string;
  PluginRef_HooksOrder : list string;
  PluginRef_StartPos : Pos;
  PluginRef_EndPos : Pos;
}.

Global Instance settable_PluginRef : Settable PluginRef := λ r,
  mkPluginRef (PluginRef_Name r) (PluginRef_Version r) (PluginRef_HooksOrder
  r) (PluginRef_StartPos r) (PluginRef_EndPos r).

(** Package declares the package header. *)
Record Package := mkPackage {
  Package_Name : string;
  Package_Version : string;
  Package_LangVersion : string;
  Package_Description : string;
  Package_Imports : list Import;
  Package_Plugins : list PluginRef;
  Package_StartPos : Pos;
  Package_EndPos : Pos;
}.

Global Instance settable_Package : Settable Package := λ r,
  mkPackage (Package_Name r) (Package_Version r) (Package_LangVersion r)
  (Package_Description r) (Package_Imports r) (Package_Plugins r)
  (Package_StartPos r) (Package_EndPos r).

(** Ref is a reference to another resource. *)
Record Ref := mkRef {
  Ref_Kind : string;
  Ref_Name : string;
  Ref_Package : string;
  Ref_StartPos : Pos;
  Ref_EndPos : Pos;
}.

Global Instance settable_Ref : Settable Ref := λ r,
  mkRef (Ref_Kind r) (Ref_Name r) (Ref_Package r) (Ref_StartPos r) (Ref_EndPos
  r).

(** MemoryConfig specifies conversation memory settings. *)
Record MemoryConfig := mkMemoryConfig {
  MemoryConfig_Strategy : string;
  MemoryConfig_MaxMessages : Z;
  MemoryConfig_StartPos : Pos;
  MemoryConfig_EndPos : Pos;
}.

Global Instance settable_MemoryConfig : Settable MemoryConfig := λ r,
  mkMemoryConfig (MemoryConfig_Strategy r) (MemoryConfig_MaxMessages r)
  (MemoryConfig_StartPos r) (MemoryConfig_EndPos r).

(** Delegate defines an agent delegation rule. *)
Record Delegate := mkDelegate {
  Delegate_AgentRef : string;
  Delegate_Condition : string;
  Delegate_StartPos : Pos;
  Delegate_EndPos : Pos;
}.

Global Instance settable_Delegate : Settable Delegate := λ r,
  mkDelegate (Delegate_AgentRef r) (Delegate_Condition r) (Delegate_StartPos
  r) (Delegate_EndPos r).

(** ConfigParam declares a runtime configuration parameter within an agent. *)
Record ConfigParam := mkConfigParam {
  ConfigParam_Name : string;
  ConfigParam_Type : string;
  ConfigParam_Description : string;
  ConfigParam_Required : bool;
  ConfigParam_Secret : bool;
  ConfigParam_Default : string;
  ConfigParam_HasDefault : bool;
  ConfigParam_StartPos : Pos;
  ConfigParam_EndPos : Pos;
}.

Global Instance settable_ConfigParam : Settable ConfigParam := λ r,
  mkConfigParam (ConfigParam_Name r) (ConfigParam_Type r)
  (ConfigParam_Description r) (ConfigParam_Required r) (ConfigParam_Secret r)
  (ConfigParam_Default r) (ConfigParam_HasDefault r) (ConfigParam_StartPos r)
  (ConfigParam_EndPos r).

(** ValidationRule declares an output validation rule within an agent. *)
Record ValidationRule := mkValidationRule {
  ValidationRule_Name : string;
  ValidationRule_Severity : string;
  ValidationRule_MaxRetries : Z;
  ValidationRule_Message : string;
  ValidationRule_Expression : string;
  ValidationRule_StartPos : Pos;
  ValidationRule_EndPos : Pos;
}.

Global Instance settable_ValidationRule : Settable ValidationRule := λ r,
  mkValidationRule (ValidationRule_Name r) (ValidationRule_Severity r)
  (ValidationRule_MaxRetries r) (ValidationRule_Message r)
  (ValidationRule_Expression r) (ValidationRule_StartPos r)
  (ValidationRule_EndPos r).

(** EvalCase declares an evaluation test case within an agent. *)
Record EvalCase := mkEvalCase {
  EvalCase_Name : string;
  EvalCase_Input : string;
  EvalCase_Expected : string;
  EvalCase_Scoring : string;
  EvalCase_Threshold : float64;
  EvalCase_Tags : list string;
  EvalCase_StartPos : Pos;
  EvalCase_EndPos : Pos;
}.

Global Instance settable_EvalCase : Settable EvalCase := λ r,
  mkEvalCase (EvalCase_Name r) (EvalCase_Input r) (EvalCase_Expected r)
  (EvalCase_Scoring r) (EvalCase_Threshold r) (EvalCase_Tags r)
  (EvalCase_StartPos r) (EvalCase_EndPos r).

(** Statements of an on-input block, and the else-if clauses of [IfBlock].
    A nil [ElseBody] is the empty list: the parser builds the body of [else {}]
    as a nil slice too. *)
Inductive OnInputStmt :=
  | UseSkillStmt (SkillName : string) (Params : gmap string string) (StartPos : Pos) (EndPos : Pos)
  | DelegateToStmt (AgentName : string) (StartPos : Pos) (EndPos : Pos)
  | RespondStmt (Expression : string) (StartPos : Pos) (EndPos : Pos)
  | IfBlock (Condition : string) (Body : list OnInputStmt) (ElseIfs : list ElseIfClause) (ElseBody : list OnInputStmt) (StartPos : Pos) (EndPos : Pos)
  | ForEachBlock (LoopVariable : string) (Collection : string) (Body : list OnInputStmt) (StartPos : Pos) (EndPos : Pos)
with ElseIfClause :=
  | mkElseIfClause (Condition : string) (Body : list OnInputStmt) (StartPos : Pos) (EndPos : Pos).

(** OnInputBlock defines the agent's request processing flow. *)
Record OnInputBlock := mkOnInputBlock {
  OnInputBlock_Statements : list OnInputStmt;
  OnInputBlock_StartPos : Pos;
  OnInputBlock_EndPos : Pos;
}.

Global Instance settable_OnInputBlock : Settable OnInputBlock := λ r,
  mkOnInputBlock (OnInputBlock_Statements r) (OnInputBlock_StartPos r)
  (OnInputBlock_EndPos r).

(** Agent defines an agent resource. *)
Record Agent := mkAgent {
  Agent_Name : string;
  Agent_Prompt : option Ref;
  Agent_Skills : list Ref;
  Agent_Model : string;
  Agent_Parameters : gmap string string;
  Agent_Client : option Ref;
  Agent_Metadata : gmap string string;
  Agent_Strategy : string;
  Agent_MaxTurns : Z;
  Agent_Timeout : string;
  Agent_TokenBudget : Z;
  Agent_Temperature : float64;
  Agent_HasTemp : bool;
  Agent_Stream : option bool;
  Agent_OnError : string;
  Agent_MaxRetries : Z;
  Agent_Fallback : string;
  Agent_MemoryCfg : option MemoryConfig;
  Agent_Delegates : list Delegate;
  Agent_Models : list string;
  Agent_BudgetDaily : float64;
  Agent_BudgetMonthly : float64;
  Agent_GuardrailRefs : list string;
  Agent_ConfigParams : list ConfigParam;
  Agent_ValidationRules : list ValidationRule;
  Agent_EvalCases : list EvalCase;
  Agent_OnInput : option OnInputBlock;
  Agent_StartPos : Pos;
  Agent_EndPos : Pos;
}.

Global Instance settable_Agent : Settable Agent := λ r,
  mkAgent (Agent_Name r) (Agent_Prompt r) (Agent_Skills r) (Agent_Model r)
  (Agent_Parameters r) (Agent_Client r) (Agent_Metadata r) (Agent_Strategy r)
  (Agent_MaxTurns r) (Agent_Timeout r) (Agent_TokenBudget r)
  (Agent_Temperature r) (Agent_HasTemp r) (Agent_Stream r) (Agent_OnError r)
  (Agent_MaxRetries r) (Agent_Fallback r) (Agent_MemoryCfg r) (Agent_Delegates
  r) (Agent_Models r) (Agent_BudgetDaily r) (Agent_BudgetMonthly r)
  (Agent_GuardrailRefs r) (Agent_ConfigParams r) (Agent_ValidationRules r)
  (Agent_EvalCases r) (Agent_OnInput r) (Agent_StartPos r) (Agent_EndPos r).

(** Variable declares a template variable in a prompt. *)
Record VariableDecl := mkVariableDecl {
  VariableDecl_Name : string;
  VariableDecl_Type : string;
  VariableDecl_Default : string;
  VariableDecl_Required : bool;
  VariableDecl_StartPos : Pos;
  VariableDecl_EndPos : Pos;
}.

Global Instance settable_VariableDecl : Settable VariableDecl := λ r,
  mkVariableDecl (VariableDecl_Name r) (VariableDecl_Type r)
  (VariableDecl_Default r) (VariableDecl_Required r) (VariableDecl_StartPos r)
  (VariableDecl_EndPos r).

(** Prompt defines a prompt resource. *)
Record Prompt := mkPrompt {
  Prompt_Name : string;
  Prompt_Content : string;
  Prompt_Variables : list VariableDecl;
  Prompt_Version : string;
  Prompt_Metadata : gmap string string;
  Prompt_StartPos : Pos;
  Prompt_EndPos : Pos;
}.

Global Instance settable_Prompt : Settable Prompt := λ r,
  mkPrompt (Prompt_Name r) (Prompt_Content r) (Prompt_Variables r)
  (Prompt_Version r) (Prompt_Metadata r) (Prompt_StartPos r) (Prompt_EndPos
  r).

(** Field represents a typed field in input/output schemas. *)
Record Field := mkField {
  Field_Name : string;
  Field_Type : string;
  Field_Required : bool;
  Field_StartPos : Pos;
  Field_EndPos : Pos;
}.

Global Instance settable_Field : Settable Field := λ r,
  mkField (Field_Name r) (Field_Type r) (Field_Required r) (Field_StartPos r)
  (Field_EndPos r).

(** Execution specifies how a skill runs. *)
Record Execution := mkExecution {
  Execution_Type : string;
  Execution_Value : string;
  Execution_Args : list string;
  Execution_StartPos : Pos;
  Execution_EndPos : Pos;
}.

Global Instance settable_Execution : Settable Execution := λ r,
  mkExecution (Execution_Type r) (Execution_Value r) (Execution_Args r)
  (Execution_StartPos r) (Execution_EndPos r).

(** ToolConfig defines how a skill executes (IntentLang 2.0, replaces Execution). *)
Record ToolConfig := mkToolConfig {
  ToolConfig_Type : string;
  ToolConfig_ServerTool : string;
  ToolConfig_Method : string;
  ToolConfig_URL : string;
  ToolConfig_Headers : gmap string string;
  ToolConfig_BodyTemplate : string;
  ToolConfig_Binary : string;
  ToolConfig_Args : list string;
  ToolConfig_Timeout : string;
  ToolConfig_Env : gmap string string;
  ToolConfig_Secrets : gmap string string;
  ToolConfig_Language : string;
  ToolConfig_Code : string;
  ToolConfig_MemoryLimit : string;
  ToolConfig_StartPos : Pos;
  ToolConfig_EndPos : Pos;
}.

Global Instance settable_ToolConfig : Settable ToolConfig := λ r,
  mkToolConfig (ToolConfig_Type r) (ToolConfig_ServerTool r)
  (ToolConfig_Method r) (ToolConfig_URL r) (ToolConfig_Headers r)
  (ToolConfig_BodyTemplate r) (ToolConfig_Binary r) (ToolConfig_Args r)
  (ToolConfig_Timeout r) (ToolConfig_Env r) (ToolConfig_Secrets r)
  (ToolConfig_Language r) (ToolConfig_Code r) (ToolConfig_MemoryLimit r)
  (ToolConfig_StartPos r) (ToolConfig_EndPos r).

(** Skill defines a skill resource. *)
Record Skill := mkSkill {
  Skill_Name : string;
  Skill_Description : string;
  Skill_Input : list Field;
  Skill_Output : list Field;
  Skill_Execution : option Execution;
  Skill_ToolConfig : option ToolConfig;
  Skill_Metadata : gmap string string;
  Skill_StartPos : Pos;
  Skill_EndPos : Pos;
}.

Global Instance settable_Skill : Settable Skill := λ r,
  mkSkill (Skill_Name r) (Skill_Description r) (Skill_Input r) (Skill_Output
  r) (Skill_Execution r) (Skill_ToolConfig r) (Skill_Metadata r)
  (Skill_StartPos r) (Skill_EndPos r).

(** MCPServer defines an MCP server resource. *)
Record MCPServer := mkMCPServer {
  MCPServer_Name : string;
  MCPServer_Transport : string;
  MCPServer_Command : string;
  MCPServer_Args : list string;
  MCPServer_URL : string;
  MCPServer_Auth : option Ref;
  MCPServer_Skills : list Ref;
  MCPServer_Env : gmap string string;
  MCPServer_Metadata : gmap string string;
  MCPServer_StartPos : Pos;
  MCPServer_EndPos : Pos;
}.

Global Instance settable_MCPServer : Settable MCPServer := λ r,
  mkMCPServer (MCPServer_Name r) (MCPServer_Transport r) (MCPServer_Command r)
  (MCPServer_Args r) (MCPServer_URL r) (MCPServer_Auth r) (MCPServer_Skills r)
  (MCPServer_Env r) (MCPServer_Metadata r) (MCPServer_StartPos r)
  (MCPServer_EndPos r).

(** MCPClient defines an MCP client resource. *)
Record MCPClient := mkMCPClient {
  MCPClient_Name : string;
  MCPClient_Servers : list Ref;
  MCPClient_Metadata : gmap string string;
  MCPClient_StartPos : Pos;
  MCPClient_EndPos : Pos;
}.

Global Instance settable_MCPClient : Settable MCPClient := λ r,
  mkMCPClient (MCPClient_Name r) (MCPClient_Servers r) (MCPClient_Metadata r)
  (MCPClient_StartPos r) (MCPClient_EndPos r).

(** Override specifies an attribute override within an environment. *)
Record Override := mkOverride {
  Override_Resource : string;
  Override_Attribute : string;
  Override_Value : string;
  Override_StartPos : Pos;
  Override_EndPos : Pos;
}.

Global Instance settable_Override : Settable Override := λ r,
  mkOverride (Override_Resource r) (Override_Attribute r) (Override_Value r)
  (Override_StartPos r) (Override_EndPos r).

(** Environment defines an environment overlay. *)
Record Environment := mkEnvironment {
  Environment_Name : string;
  Environment_Overrides : list Override;
  Environment_StartPos : Pos;
  Environment_EndPos : Pos;
}.

Global Instance settable_Environment : Settable Environment := λ r,
  mkEnvironment (Environment_Name r) (Environment_Overrides r)
  (Environment_StartPos r) (Environment_EndPos r).

(** Secret defines a secret reference. *)
Record Secret := mkSecret {
  Secret_Name : string;
  Secret_Source : string;
  Secret_Key : string;
  Secret_StartPos : Pos;
  Secret_EndPos : Pos;
}.

Global Instance settable_Secret : Settable Secret := λ r,
  mkSecret (Secret_Name r) (Secret_Source r) (Secret_Key r) (Secret_StartPos
  r) (Secret_EndPos r).

(** Rule defines a single policy rule. *)
Record Rule := mkRule {
  Rule_Action : string;
  Rule_Resource : string;
  Rule_Subject : string;
  Rule_StartPos : Pos;
  Rule_EndPos : Pos;
}.

Global Instance settable_Rule : Settable Rule := λ r,
  mkRule (Rule_Action r) (Rule_Resource r) (Rule_Subject r) (Rule_StartPos r)
  (Rule_EndPos r).

(** Policy defines security constraint rules. *)
Record Policy := mkPolicy {
  Policy_Name : string;
  Policy_Rules : list Rule;
  Policy_StartPos : Pos;
  Policy_EndPos : Pos;
}.

Global Instance settable_Policy : Settable Policy := λ r,
  mkPolicy (Policy_Name r) (Policy_Rules r) (Policy_StartPos r) (Policy_EndPos
  r).

(** Binding defines a target adapter binding. *)
Record Binding := mkBinding {
  Binding_Name : string;
  Binding_Adapter : string;
  Binding_Default : bool;
  Binding_Config : gmap string string;
  Binding_StartPos : Pos;
  Binding_EndPos : Pos;
}.

Global Instance settable_Binding : Settable Binding := λ r,
  mkBinding (Binding_Name r) (Binding_Adapter r) (Binding_Default r)
  (Binding_Config r) (Binding_StartPos r) (Binding_EndPos r).

(** Plugin declares a custom resource from a plugin. *)
Record Plugin := mkPlugin {
  Plugin_Name : string;
  Plugin_Version : string;
  Plugin_StartPos : Pos;
  Plugin_EndPos : Pos;
}.

Global Instance settable_Plugin : Settable Plugin := λ r,
  mkPlugin (Plugin_Name r) (Plugin_Version r) (Plugin_StartPos r)
  (Plugin_EndPos r).

(** ResourceLimits specifies CPU/memory constraints. *)
Record ResourceLimits := mkResourceLimits {
  ResourceLimits_CPU : string;
  ResourceLimits_Memory : string;
  ResourceLimits_StartPos : Pos;
  ResourceLimits_EndPos : Pos;
}.

Global Instance settable_ResourceLimits : Settable ResourceLimits := λ r,
  mkResourceLimits (ResourceLimits_CPU r) (ResourceLimits_Memory r)
  (ResourceLimits_StartPos r) (ResourceLimits_EndPos r).

(** HealthConfig specifies health check settings. *)
Record HealthConfig := mkHealthConfig {
  HealthConfig_Path : string;
  HealthConfig_Interval : string;
  HealthConfig_Timeout : string;
  HealthConfig_StartPos : Pos;
  HealthConfig_EndPos : Pos;
}.

Global Instance settable_HealthConfig : Settable HealthConfig := λ r,
  mkHealthConfig (HealthConfig_Path r) (HealthConfig_Interval r)
  (HealthConfig_Timeout r) (HealthConfig_StartPos r) (HealthConfig_EndPos r).

(** AutoscaleConfig specifies horizontal scaling rules. *)
Record AutoscaleConfig := mkAutoscaleConfig {
  AutoscaleConfig_MinReplicas : Z;
  AutoscaleConfig_MaxReplicas : Z;
  AutoscaleConfig_Metric : string;
  AutoscaleConfig_Target : Z;
  AutoscaleConfig_StartPos : Pos;
  AutoscaleConfig_EndPos : Pos;
}.

Global Instance settable_AutoscaleConfig : Settable AutoscaleConfig := λ r,
  mkAutoscaleConfig (AutoscaleConfig_MinReplicas r)
  (AutoscaleConfig_MaxReplicas r) (AutoscaleConfig_Metric r)
  (AutoscaleConfig_Target r) (AutoscaleConfig_StartPos r)
  (AutoscaleConfig_EndPos r).

(** DeployTarget defines a deployment configuration (IntentLang 2.0, replaces Binding). *)
Record DeployTarget := mkDeployTarget {
  DeployTarget_Name : string;
  DeployTarget_Target : string;
  DeployTarget_Default : bool;
  DeployTarget_Port : Z;
  DeployTarget_Namespace : string;
  DeployTarget_Replicas : Z;
  DeployTarget_Image : string;
  DeployTarget_Resources : option ResourceLimits;
  DeployTarget_Health : option HealthConfig;
  DeployTarget_Autoscale : option AutoscaleConfig;
  DeployTarget_Env : gmap string string;
  DeployTarget_Secrets : gmap string string;
  DeployTarget_StartPos : Pos;
  DeployTarget_EndPos : Pos;
}.

Global Instance settable_DeployTarget : Settable DeployTarget := λ r,
  mkDeployTarget (DeployTarget_Name r) (DeployTarget_Target r)
  (DeployTarget_Default r) (DeployTarget_Port r) (DeployTarget_Namespace r)
  (DeployTarget_Replicas r) (DeployTarget_Image r) (DeployTarget_Resources r)
  (DeployTarget_Health r) (DeployTarget_Autoscale r) (DeployTarget_Env r)
  (DeployTarget_Secrets r) (DeployTarget_StartPos r) (DeployTarget_EndPos r).

(** User defines an authenticated user with agent access control. *)
Record User := mkUser {
  User_Name : string;
  User_KeyRef : string;
  User_Agents : list string;
  User_Role : string;
  User_StartPos : Pos;
  User_EndPos : Pos;
}.

Global Instance settable_User : Settable User := λ r,
  mkUser (User_Name r) (User_KeyRef r) (User_Agents r) (User_Role r)
  (User_StartPos r) (User_EndPos r).

(** Guardrail defines a content filter for agent output. *)
Record Guardrail := mkGuardrail {
  Guardrail_Name : string;
  Guardrail_Mode : string;
  Guardrail_Keywords : list string;
  Guardrail_Patterns : list string;
  Guardrail_FallbackMsg : string;
  Guardrail_StartPos : Pos;
  Guardrail_EndPos : Pos;
}.

Global Instance settable_Guardrail : Settable Guardrail := λ r,
  mkGuardrail (Guardrail_Name r) (Guardrail_Mode r) (Guardrail_Keywords r)
  (Guardrail_Patterns r) (Guardrail_FallbackMsg r) (Guardrail_StartPos r)
  (Guardrail_EndPos r).

(** StateConfig declares a state backend configuration. *)
Record StateConfig := mkStateConfig {
  StateConfig_Name : string;
  StateConfig_Type : string;
  StateConfig_Properties : gmap string string;
  StateConfig_StartPos : Pos;
  StateConfig_EndPos : Pos;
}.

Global Instance settable_StateConfig : Settable StateConfig := λ r,
  mkStateConfig (StateConfig_Name r) (StateConfig_Type r)
  (StateConfig_Properties r) (StateConfig_StartPos r) (StateConfig_EndPos r).

(** TypeField defines a field within a type definition. *)
Record TypeField := mkTypeField {
  TypeField_Name : string;
  TypeField_Type : string;
  TypeField_Required : bool;
  TypeField_Default : string;
  TypeField_StartPos : Pos;
  TypeField_EndPos : Pos;
}.

Global Instance settable_TypeField : Settable TypeField := λ r,
  mkTypeField (TypeField_Name r) (TypeField_Type r) (TypeField_Required r)
  (TypeField_Default r) (TypeField_StartPos r) (TypeField_EndPos r).

(** TypeDef defines a named type with fields, enums, or lists. *)
Record TypeDef := mkTypeDef {
  TypeDef_Name : string;
  TypeDef_Fields : list TypeField;
  TypeDef_EnumVals : list string;
  TypeDef_ListOf : string;
  TypeDef_StartPos : Pos;
  TypeDef_EndPos : Pos;
}.

Global Instance settable_TypeDef : Settable TypeDef := λ r,
  mkTypeDef (TypeDef_Name r) (TypeDef_Fields r) (TypeDef_EnumVals r)
  (TypeDef_ListOf r) (TypeDef_StartPos r) (TypeDef_EndPos r).

(** PipelineStep defines a single step in a pipeline. *)
Record PipelineStep := mkPipelineStep {
  PipelineStep_Name : string;
  PipelineStep_Agent : string;
  PipelineStep_Input : string;
  PipelineStep_Output : string;
  PipelineStep_DependsOn : list string;
  PipelineStep_Parallel : bool;
  PipelineStep_When : string;
  PipelineStep_StartPos : Pos;
  PipelineStep_EndPos : Pos;
}.

Global Instance settable_PipelineStep : Settable PipelineStep := λ r,
  mkPipelineStep (PipelineStep_Name r) (PipelineStep_Agent r)
  (PipelineStep_Input r) (PipelineStep_Output r) (PipelineStep_DependsOn r)
  (PipelineStep_Parallel r) (PipelineStep_When r) (PipelineStep_StartPos r)
  (PipelineStep_EndPos r).

(** Pipeline defines a multi-step agent workflow. *)
Record Pipeline := mkPipeline {
  Pipeline_Name : string;
  Pipeline_Steps : list PipelineStep;
  Pipeline_StartPos : Pos;
  Pipeline_EndPos : Pos;
}.

Global Instance settable_Pipeline : Settable Pipeline := λ r,
  mkPipeline (Pipeline_Name r) (Pipeline_Steps r) (Pipeline_StartPos r)
  (Pipeline_EndPos r).

(** The types that implement the interface Statement. *)
Inductive Statement :=
  | SPackage (s : Package)
  | SImport (s : Import)
  | SPluginRef (s : PluginRef)
  | SAgent (s : Agent)
  | SPrompt (s : Prompt)
  | SSkill (s : Skill)
  | SMCPServer (s : MCPServer)
  | SMCPClient (s : MCPClient)
  | SEnvironment (s : Environment)
  | SSecret (s : Secret)
  | SPolicy (s : Policy)
  | SBinding (s : Binding)
  | SPlugin (s : Plugin)
  | SDeployTarget (s : DeployTarget)
  | SUser (s : User)
  | SGuardrail (s : Guardrail)
  | SStateConfig (s : StateConfig)
  | STypeDef (s : TypeDef)
  | SPipeline (s : Pipeline).

(** File represents a parsed IntentLang AgentSpec (.ias/.az) file. *)
Record File := mkFile {
  File_Path : string;
  File_Package : option Package;
  File_Statements : list Statement;
  File_StartPos : Pos;
  File_EndPos : Pos;
}.

Global Instance settable_File : Settable File := λ r,
  mkFile (File_Path r) (File_Package r) (File_Statements r) (File_StartPos r) (File_EndPos r).

(** The method Pos of each statement type. *)
Definition Statement_Pos (s : Statement) : Pos :=
  match s with
  | SPackage x => Package_StartPos x
  | SImport x => Import_StartPos x
  | SPluginRef x => PluginRef_StartPos x
  | SAgent x => Agent_StartPos x
  | SPrompt x => Prompt_StartPos x
  | SSkill x => Skill_StartPos x
  | SMCPServer x => MCPServer_StartPos x
  | SMCPClient x => MCPClient_StartPos x
  | SEnvironment x => Environment_StartPos x
  | SSecret x => Secret_StartPos x
  | SPolicy x => Policy_StartPos x
  | SBinding x => Binding_StartPos x
  | SPlugin x => Plugin_StartPos x
  | SDeployTarget x => DeployTarget_StartPos x
  | SUser x => User_StartPos x
  | SGuardrail x => Guardrail_StartPos x
  | SStateConfig x => StateConfig_StartPos x
  | STypeDef x => TypeDef_StartPos x
  | SPipeline x => Pipeline_StartPos x
  end.

(** Zero values: the struct literals of the parser set fields on top of them. *)
Definition zero_Pos : Pos :=
  mkPos "" 0 0.

Definition zero_Package : Package :=
  mkPackage "" "" "" "" [] [] zero_Pos zero_Pos.

Definition zero_Import : Import :=
  mkImport "" "" "" "" zero_Pos zero_Pos.

Definition zero_PluginRef : PluginRef :=
  mkPluginRef "" "" [] zero_Pos zero_Pos.

Definition zero_Agent : Agent :=
  mkAgent "" None [] "" ∅ None ∅ "" 0 "" 0 float_zero false None "" 0 "" None
  [] [] float_zero float_zero [] [] [] [] None zero_Pos zero_Pos.

Definition zero_Ref : Ref :=
  mkRef "" "" "" zero_Pos zero_Pos.

Definition zero_MemoryConfig : MemoryConfig :=
  mkMemoryConfig "" 0 zero_Pos zero_Pos.

Definition zero_Delegate : Delegate :=
  mkDelegate "" "" zero_Pos zero_Pos.

Definition zero_ConfigParam : ConfigParam :=
  mkConfigParam "" "" "" false false "" false zero_Pos zero_Pos.

Definition zero_ValidationRule : ValidationRule :=
  mkValidationRule "" "" 0 "" "" zero_Pos zero_Pos.

Definition zero_EvalCase : EvalCase :=
  mkEvalCase "" "" "" "" float_zero [] zero_Pos zero_Pos.

Definition zero_OnInputBlock : OnInputBlock :=
  mkOnInputBlock [] zero_Pos zero_Pos.

Definition zero_Prompt : Prompt :=
  mkPrompt "" "" [] "" ∅ zero_Pos zero_Pos.

Definition zero_VariableDecl : VariableDecl :=
  mkVariableDecl "" "" "" false zero_Pos zero_Pos.

Definition zero_Skill : Skill :=
  mkSkill "" "" [] [] None None ∅ zero_Pos zero_Pos.

Definition zero_Field : Field :=
  mkField "" "" false zero_Pos zero_Pos.

Definition zero_Execution : Execution :=
  mkExecution "" "" [] zero_Pos zero_Pos.

Definition zero_ToolConfig : ToolConfig :=
  mkToolConfig "" "" "" "" ∅ "" "" [] "" ∅ ∅ "" "" "" zero_Pos zero_Pos.

Definition zero_MCPServer : MCPServer :=
  mkMCPServer "" "" "" [] "" None [] ∅ ∅ zero_Pos zero_Pos.

Definition zero_MCPClient : MCPClient :=
  mkMCPClient "" [] ∅ zero_Pos zero_Pos.

Definition zero_Environment : Environment :=
  mkEnvironment "" [] zero_Pos zero_Pos.

Definition zero_Override : Override :=
  mkOverride "" "" "" zero_Pos zero_Pos.

Definition zero_Secret : Secret :=
  mkSecret "" "" "" zero_Pos zero_Pos.

Definition zero_Policy : Policy :=
  mkPolicy "" [] zero_Pos zero_Pos.

Definition zero_Rule : Rule :=
  mkRule "" "" "" zero_Pos zero_Pos.

Definition zero_Binding : Binding :=
  mkBinding "" "" false ∅ zero_Pos zero_Pos.

Definition zero_Plugin : Plugin :=
  mkPlugin "" "" zero_Pos zero_Pos.

Definition zero_DeployTarget : DeployTarget :=
  mkDeployTarget "" "" false 0 "" 0 "" None None None ∅ ∅ zero_Pos zero_Pos.

Definition zero_ResourceLimits : ResourceLimits :=
  mkResourceLimits "" "" zero_Pos zero_Pos.

Definition zero_HealthConfig : HealthConfig :=
  mkHealthConfig "" "" "" zero_Pos zero_Pos.

Definition zero_AutoscaleConfig : AutoscaleConfig :=
  mkAutoscaleConfig 0 0 "" 0 zero_Pos zero_Pos.

Definition zero_User : User :=
  mkUser "" "" [] "" zero_Pos zero_Pos.

Definition zero_Guardrail : Guardrail :=
  mkGuardrail "" "" [] [] "" zero_Pos zero_Pos.

Definition zero_StateConfig : StateConfig :=
  mkStateConfig "" "" ∅ zero_Pos zero_Pos.

Definition zero_TypeDef : TypeDef :=
  mkTypeDef "" [] [] "" zero_Pos zero_Pos.

Definition zero_TypeField : TypeField :=
  mkTypeField "" "" false "" zero_Pos zero_Pos.

Definition zero_Pipeline : Pipeline :=
  mkPipeline "" [] zero_Pos zero_Pos.

Definition zero_PipelineStep : PipelineStep :=
  mkPipelineStep "" "" "" "" [] false "" zero_Pos zero_Pos.

(** Facts about the syntax trees that several components use: the induction
    principle of the nested on-input statements, and the kind and name that a
    declaration defines. *)

(** * Induction on on-input statements *)

Section induction.
Context (Q : OnInputStmt → Prop).
Context (Quse : ∀ n params sp ep, Q (UseSkillStmt n params sp ep)).
Context (Qdelegate : ∀ n sp ep, Q (DelegateToStmt n sp ep)).
Context (Qrespond : ∀ e sp ep, Q (RespondStmt e sp ep)).
Context (Qif : ∀ c body elseIfs elseBody sp ep,
  Forall Q body → Forall (λ '(mkElseIfClause _ b _ _), Forall Q b) elseIfs → Forall Q elseBody →
  Q (IfBlock c body elseIfs elseBody sp ep)).
Context (Qfor : ∀ v c body sp ep, Forall Q body → Q (ForEachBlock v c body sp ep)).

Lemma OnInputStmt_nested_ind : ∀ s, Q s.
Proof.
  fix IH 1. intros [n params sp ep|n sp ep|e sp ep|c body elseIfs elseBody sp ep|v c body sp ep];
    [apply Quse | apply Qdelegate | apply Qrespond | apply Qif | apply Qfor].
  - induction body as [|s l IHl]; constructor; [apply IH | apply IHl].
  - induction elseIfs as [|[? b ? ?] l IHl]; constructor; [|apply IHl].
    induction b as [|s b IHb]; constructor; [apply IH | apply IHb].
  - induction elseBody as [|s l IHl]; constructor; [apply IH | apply IHl].
  - induction body as [|s l IHl]; constructor; [apply IH | apply IHl].
Qed.
End induction.

(** * Declarations *)

(** The kind and the name a declaration defines. *)
Definition decl_of (s : Statement) : option (string * string) :=
  match s with
  | SPrompt d => Some ("Prompt", Prompt_Name d)
  | SSkill d => Some ("Skill", Skill_Name d)
  | SAgent d => Some ("Agent", Agent_Name d)
  | SBinding d => Some ("Binding", Binding_Name d)
  | SSecret d => Some ("Secret", Secret_Name d)
  | SEnvironment d => Some ("Environment", Environment_Name d)
  | SPolicy d => Some ("Policy", Policy_Name d)
  | SMCPServer d => Some ("MCPServer", MCPServer_Name d)
  | SMCPClient d => Some ("MCPClient", MCPClient_Name d)
  | SDeployTarget d => Some ("DeployTarget", DeployTarget_Name d)
  | STypeDef d => Some ("Type", TypeDef_Name d)
  | SPipeline d => Some ("Pipeline", Pipeline_Name d)
  | SUser d => Some ("User", User_Name d)
  | SGuardrail d => Some ("Guardrail", Guardrail_Name d)
  | SPackage _ | SPluginRef _ | SPlugin _ | SImport _ | SStateConfig _ => None
  end.

(** A declaration of the given kind and name is in the file. *)
Definition declares (f : File) (kind name : string) : Prop :=
  ∃ s, s ∈ File_Statements f ∧ decl_of s = Some (kind, name).
