(* ===== verification/Token.v ===== *)
(** Tokens of IntentLang (internal/parser/token.go): the token types in the
    order of the Go constants, their display names, and the keyword table. *)
From S2P Require Import Prelude.
Open Scope Z_scope.

(** TokenType, in the order of its iota constants. *)
Inductive TokenType :=
  | TokenEOF | TokenError | TokenNewline | TokenIdent | TokenString |
    TokenNumber | TokenBool | TokenLBrace | TokenRBrace | TokenLBracket |
    TokenRBracket | TokenLParen | TokenRParen | TokenComma | TokenDot |
    TokenPackage | TokenVersion | TokenLang | TokenPrompt | TokenSkill |
    TokenAgent | TokenBinding | TokenUses | TokenModel | TokenInput |
    TokenOutput | TokenExecution | TokenDescription | TokenContent |
    TokenDefault | TokenAdapter | TokenSecret | TokenEnvironment | TokenPolicy |
    TokenPlugin | TokenServer | TokenClient | TokenConnects | TokenExposes |
    TokenEnv | TokenStore | TokenCommand | TokenRequire | TokenDeny | TokenAllow
    | TokenTo | TokenTrue | TokenFalse | TokenRequired | TokenImport |
    TokenTransport | TokenURL | TokenAuth | TokenArgs | TokenMetadata |
    TokenTool | TokenDeploy | TokenTarget | TokenPipeline | TokenStep |
    TokenDelegate | TokenTypeKw | TokenStrategy | TokenMaxTurns | TokenTimeout |
    TokenTokenBudget | TokenTemperature | TokenStream | TokenParallel |
    TokenDependsOn | TokenFrom | TokenWhen | TokenHealth | TokenAutoscale |
    TokenResources | TokenMemory | TokenOnError | TokenMaxRetries |
    TokenFallback | TokenVariables | TokenEnum | TokenList | TokenMCP |
    TokenHTTP | TokenInline | TokenMethod | TokenHeaders | TokenBodyTemplate |
    TokenBinary | TokenLanguage | TokenCode | TokenPort | TokenNamespace |
    TokenReplicas | TokenImage | TokenSecrets | TokenAs | TokenIf | TokenElse |
    TokenFor | TokenEach | TokenIn | TokenConfig | TokenValidate | TokenEval |
    TokenRule | TokenCase | TokenOn | TokenUse | TokenWith | TokenRespond |
    TokenScoring | TokenThreshold | TokenTags | TokenQuery | TokenLoop |
    TokenUser | TokenGuardrail | TokenModels | TokenBudgetKw | TokenAgents |
    TokenKeywords | TokenPatterns | TokenMode | TokenKey | TokenRole |
    TokenDaily | TokenMonthly | TokenState | TokenColon | TokenEqual |
    TokenNotEqual | TokenGreater | TokenGreaterEq | TokenLess | TokenLessEq.

(** Every token type, at the index of its iota constant. *)
Definition all_tokens : list TokenType :=
  [TokenEOF; TokenError; TokenNewline; TokenIdent; TokenString; TokenNumber;
  TokenBool; TokenLBrace; TokenRBrace; TokenLBracket; TokenRBracket;
  TokenLParen; TokenRParen; TokenComma; TokenDot; TokenPackage; TokenVersion;
  TokenLang; TokenPrompt; TokenSkill; TokenAgent; TokenBinding; TokenUses;
  TokenModel; TokenInput; TokenOutput; TokenExecution; TokenDescription;
  TokenContent; TokenDefault; TokenAdapter; TokenSecret; TokenEnvironment;
  TokenPolicy; TokenPlugin; TokenServer; TokenClient; TokenConnects;
  TokenExposes; TokenEnv; TokenStore; TokenCommand; TokenRequire; TokenDeny;
  TokenAllow; TokenTo; TokenTrue; TokenFalse; TokenRequired; TokenImport;
  TokenTransport; TokenURL; TokenAuth; TokenArgs; TokenMetadata; TokenTool;
  TokenDeploy; TokenTarget; TokenPipeline; TokenStep; TokenDelegate;
  TokenTypeKw; TokenStrategy; TokenMaxTurns; TokenTimeout; TokenTokenBudget;
  TokenTemperature; TokenStream; TokenParallel; TokenDependsOn; TokenFrom;
  TokenWhen; TokenHealth; TokenAutoscale; TokenResources; TokenMemory;
  TokenOnError; TokenMaxRetries; TokenFallback; TokenVariables; TokenEnum;
  TokenList; TokenMCP; TokenHTTP; TokenInline; TokenMethod; TokenHeaders;
  TokenBodyTemplate; TokenBinary; TokenLanguage; TokenCode; TokenPort;
  TokenNamespace; TokenReplicas; TokenImage; TokenSecrets; TokenAs; TokenIf;
  TokenElse; TokenFor; TokenEach; TokenIn; TokenConfig; TokenValidate;
  TokenEval; TokenRule; TokenCase; TokenOn; TokenUse; TokenWith; TokenRespond;
  TokenScoring; TokenThreshold; TokenTags; TokenQuery; TokenLoop; TokenUser;
  TokenGuardrail; TokenModels; TokenBudgetKw; TokenAgents; TokenKeywords;
  TokenPatterns; TokenMode; TokenKey; TokenRole; TokenDaily; TokenMonthly;
  TokenState; TokenColon; TokenEqual; TokenNotEqual; TokenGreater;
  TokenGreaterEq; TokenLess; TokenLessEq].

(** The integer value of a token type. *)
Definition token_ord (t : TokenType) : Z :=
  match t with
  | TokenEOF => 0 | TokenError => 1 | TokenNewline => 2 | TokenIdent => 3 |
  TokenString => 4 | TokenNumber => 5 | TokenBool => 6 | TokenLBrace => 7 |
  TokenRBrace => 8 | TokenLBracket => 9 | TokenRBracket => 10 | TokenLParen =>
  11 | TokenRParen => 12 | TokenComma => 13 | TokenDot => 14 | TokenPackage =>
  15 | TokenVersion => 16 | TokenLang => 17 | TokenPrompt => 18 | TokenSkill
  => 19 | TokenAgent => 20 | TokenBinding => 21 | TokenUses => 22 | TokenModel
  => 23 | TokenInput => 24 | TokenOutput => 25 | TokenExecution => 26 |
  TokenDescription => 27 | TokenContent => 28 | TokenDefault => 29 |
  TokenAdapter => 30 | TokenSecret => 31 | TokenEnvironment => 32 |
  TokenPolicy => 33 | TokenPlugin => 34 | TokenServer => 35 | TokenClient =>
  36 | TokenConnects => 37 | TokenExposes => 38 | TokenEnv => 39 | TokenStore
  => 40 | TokenCommand => 41 | TokenRequire => 42 | TokenDeny => 43 |
  TokenAllow => 44 | TokenTo => 45 | TokenTrue => 46 | TokenFalse => 47 |
  TokenRequired => 48 | TokenImport => 49 | TokenTransport => 50 | TokenURL =>
  51 | TokenAuth => 52 | TokenArgs => 53 | TokenMetadata => 54 | TokenTool =>
  55 | TokenDeploy => 56 | TokenTarget => 57 | TokenPipeline => 58 | TokenStep
  => 59 | TokenDelegate => 60 | TokenTypeKw => 61 | TokenStrategy => 62 |
  TokenMaxTurns => 63 | TokenTimeout => 64 | TokenTokenBudget => 65 |
  TokenTemperature => 66 | TokenStream => 67 | TokenParallel => 68 |
  TokenDependsOn => 69 | TokenFrom => 70 | TokenWhen => 71 | TokenHealth => 72
  | TokenAutoscale => 73 | TokenResources => 74 | TokenMemory => 75 |
  TokenOnError => 76 | TokenMaxRetries => 77 | TokenFallback => 78 |
  TokenVariables => 79 | TokenEnum => 80 | TokenList => 81 | TokenMCP => 82 |
  TokenHTTP => 83 | TokenInline => 84 | TokenMethod => 85 | TokenHeaders => 86
  | TokenBodyTemplate => 87 | TokenBinary => 88 | TokenLanguage => 89 |
  TokenCode => 90 | TokenPort => 91 | TokenNamespace => 92 | TokenReplicas =>
  93 | TokenImage => 94 | TokenSecrets => 95 | TokenAs => 96 | TokenIf => 97 |
  TokenElse => 98 | TokenFor => 99 | TokenEach => 100 | TokenIn => 101 |
  TokenConfig => 102 | TokenValidate => 103 | TokenEval => 104 | TokenRule =>
  105 | TokenCase => 106 | TokenOn => 107 | TokenUse => 108 | TokenWith => 109
  | TokenRespond => 110 | TokenScoring => 111 | TokenThreshold => 112 |
  TokenTags => 113 | TokenQuery => 114 | TokenLoop => 115 | TokenUser => 116 |
  TokenGuardrail => 117 | TokenModels => 118 | TokenBudgetKw => 119 |
  TokenAgents => 120 | TokenKeywords => 121 | TokenPatterns => 122 | TokenMode
  => 123 | TokenKey => 124 | TokenRole => 125 | TokenDaily => 126 |
  TokenMonthly => 127 | TokenState => 128 | TokenColon => 129 | TokenEqual =>
  130 | TokenNotEqual => 131 | TokenGreater => 132 | TokenGreaterEq => 133 |
  TokenLess => 134 | TokenLessEq => 135
  end.

Lemma all_tokens_ord (t : TokenType) : all_tokens !! Z.to_nat (token_ord t) = Some t.
Proof. by destruct t. Qed.

Global Instance token_ord_inj : Inj (=) (=) token_ord.
Proof.
  intros t1 t2 E. pose proof (all_tokens_ord t1) as E1.
  rewrite E, all_tokens_ord in E1. by injection E1.
Qed.

(** [t1 == t2] on token types. *)
Definition token_eqb (t1 t2 : TokenType) : bool := token_ord t1 =? token_ord t2.

Lemma token_eqb_eq (t1 t2 : TokenType) : token_eqb t1 t2 = true ↔ t1 = t2.
Proof. unfold token_eqb. rewrite Z.eqb_eq. split; [apply (inj token_ord) | by intros ->]. Qed.

Lemma token_eqb_refl (t : TokenType) : token_eqb t t = true.
Proof. by apply token_eqb_eq. Qed.

Global Instance TokenType_eq_dec : EqDecision TokenType.
Proof.
  intros t1 t2. destruct (token_eqb t1 t2) eqn:E; [left | right].
  - by apply token_eqb_eq.
  - intros ->. by rewrite token_eqb_refl in E.
Defined.

#[export] Hint Rewrite token_eqb_refl : go.

(** The map tokenNames. *)
Definition tokenNames : list (TokenType * string) :=
  [(TokenEOF, "EOF"); (TokenError, "Error"); (TokenNewline, "Newline");
  (TokenIdent, "Ident"); (TokenString, "String"); (TokenNumber, "Number");
  (TokenBool, "Bool"); (TokenLBrace, "{"); (TokenRBrace, "}");
  (TokenLBracket, "["); (TokenRBracket, "]"); (TokenLParen, "(");
  (TokenRParen, ")"); (TokenComma, ","); (TokenDot, ".");
  (TokenPackage, "package"); (TokenVersion, "version"); (TokenLang, "lang");
  (TokenPrompt, "prompt"); (TokenSkill, "skill"); (TokenAgent, "agent");
  (TokenBinding, "binding"); (TokenUses, "uses"); (TokenModel, "model");
  (TokenInput, "input"); (TokenOutput, "output");
  (TokenExecution, "execution"); (TokenDescription, "description");
  (TokenContent, "content"); (TokenDefault, "default");
  (TokenAdapter, "adapter"); (TokenSecret, "secret");
  (TokenEnvironment, "environment"); (TokenPolicy, "policy");
  (TokenPlugin, "plugin"); (TokenServer, "server"); (TokenClient, "client");
  (TokenConnects, "connects"); (TokenExposes, "exposes"); (TokenEnv, "env");
  (TokenStore, "store"); (TokenCommand, "command"); (TokenRequire, "require");
  (TokenDeny, "deny"); (TokenAllow, "allow"); (TokenTo, "to");
  (TokenTrue, "true"); (TokenFalse, "false"); (TokenRequired, "required");
  (TokenImport, "import"); (TokenTransport, "transport"); (TokenURL, "url");
  (TokenAuth, "auth"); (TokenArgs, "args"); (TokenMetadata, "metadata");
  (TokenTool, "tool"); (TokenDeploy, "deploy"); (TokenTarget, "target");
  (TokenPipeline, "pipeline"); (TokenStep, "step");
  (TokenDelegate, "delegate"); (TokenTypeKw, "type");
  (TokenStrategy, "strategy"); (TokenMaxTurns, "max_turns");
  (TokenTimeout, "timeout"); (TokenTokenBudget, "token_budget");
  (TokenTemperature, "temperature"); (TokenStream, "stream");
  (TokenParallel, "parallel"); (TokenDependsOn, "depends_on");
  (TokenFrom, "from"); (TokenWhen, "when"); (TokenHealth, "health");
  (TokenAutoscale, "autoscale"); (TokenResources, "resources");
  (TokenMemory, "memory"); (TokenOnError, "on_error");
  (TokenMaxRetries, "max_retries"); (TokenFallback, "fallback");
  (TokenVariables, "variables"); (TokenEnum, "enum"); (TokenList, "list");
  (TokenMCP, "mcp"); (TokenHTTP, "http"); (TokenInline, "inline");
  (TokenMethod, "method"); (TokenHeaders, "headers");
  (TokenBodyTemplate, "body_template"); (TokenBinary, "binary");
  (TokenLanguage, "language"); (TokenCode, "code"); (TokenPort, "port");
  (TokenNamespace, "namespace"); (TokenReplicas, "replicas");
  (TokenImage, "image"); (TokenSecrets, "secrets"); (TokenAs, "as");
  (TokenIf, "if"); (TokenElse, "else"); (TokenFor, "for");
  (TokenEach, "each"); (TokenIn, "in"); (TokenConfig, "config");
  (TokenValidate, "validate"); (TokenEval, "eval"); (TokenRule, "rule");
  (TokenCase, "case"); (TokenOn, "on"); (TokenUse, "use");
  (TokenWith, "with"); (TokenRespond, "respond"); (TokenScoring, "scoring");
  (TokenThreshold, "threshold"); (TokenTags, "tags"); (TokenQuery, "query");
  (TokenLoop, "loop"); (TokenUser, "user"); (TokenGuardrail, "guardrail");
  (TokenModels, "models"); (TokenBudgetKw, "budget"); (TokenAgents, "agents");
  (TokenKeywords, "keywords"); (TokenPatterns, "patterns");
  (TokenMode, "mode"); (TokenKey, "key"); (TokenRole, "role");
  (TokenDaily, "daily"); (TokenMonthly, "monthly"); (TokenState, "state");
  (TokenColon, ":"); (TokenEqual, "=="); (TokenNotEqual, "!=");
  (TokenGreater, ">"); (TokenGreaterEq, ">="); (TokenLess, "<");
  (TokenLessEq, "<=")].

Definition assoc_token (t : TokenType) (l : list (TokenType * string)) : option string :=
  snd <$> List.find (λ e, token_eqb e.1 t) l.

(** TokenType.String. *)
Definition TokenType_String (t : TokenType) : string :=
  match assoc_token t tokenNames with
  | Some name => name
  | None => "Token(" +:+ pretty (token_ord t) +:+ ")"
  end.

(** The map keywords. *)
Definition keywords : list (string * TokenType) :=
  [("package", TokenPackage); ("version", TokenVersion); ("lang", TokenLang);
  ("prompt", TokenPrompt); ("skill", TokenSkill); ("agent", TokenAgent);
  ("binding", TokenBinding); ("uses", TokenUses); ("model", TokenModel);
  ("input", TokenInput); ("output", TokenOutput);
  ("execution", TokenExecution); ("description", TokenDescription);
  ("content", TokenContent); ("default", TokenDefault);
  ("adapter", TokenAdapter); ("secret", TokenSecret);
  ("environment", TokenEnvironment); ("policy", TokenPolicy);
  ("plugin", TokenPlugin); ("server", TokenServer); ("client", TokenClient);
  ("connects", TokenConnects); ("exposes", TokenExposes); ("env", TokenEnv);
  ("store", TokenStore); ("command", TokenCommand); ("require", TokenRequire);
  ("deny", TokenDeny); ("allow", TokenAllow); ("to", TokenTo);
  ("true", TokenTrue); ("false", TokenFalse); ("required", TokenRequired);
  ("import", TokenImport); ("transport", TokenTransport); ("url", TokenURL);
  ("auth", TokenAuth); ("args", TokenArgs); ("metadata", TokenMetadata);
  ("tool", TokenTool); ("deploy", TokenDeploy); ("target", TokenTarget);
  ("pipeline", TokenPipeline); ("step", TokenStep);
  ("delegate", TokenDelegate); ("type", TokenTypeKw);
  ("strategy", TokenStrategy); ("max_turns", TokenMaxTurns);
  ("timeout", TokenTimeout); ("token_budget", TokenTokenBudget);
  ("temperature", TokenTemperature); ("stream", TokenStream);
  ("parallel", TokenParallel); ("depends_on", TokenDependsOn);
  ("from", TokenFrom); ("when", TokenWhen); ("health", TokenHealth);
  ("autoscale", TokenAutoscale); ("resources", TokenResources);
  ("memory", TokenMemory); ("on_error", TokenOnError);
  ("max_retries", TokenMaxRetries); ("fallback", TokenFallback);
  ("variables", TokenVariables); ("enum", TokenEnum); ("list", TokenList);
  ("mcp", TokenMCP); ("http", TokenHTTP); ("inline", TokenInline);
  ("method", TokenMethod); ("headers", TokenHeaders);
  ("body_template", TokenBodyTemplate); ("binary", TokenBinary);
  ("language", TokenLanguage); ("code", TokenCode); ("port", TokenPort);
  ("namespace", TokenNamespace); ("replicas", TokenReplicas);
  ("image", TokenImage); ("secrets", TokenSecrets); ("as", TokenAs);
  ("if", TokenIf); ("else", TokenElse); ("for", TokenFor);
  ("each", TokenEach); ("in", TokenIn); ("config", TokenConfig);
  ("validate", TokenValidate); ("eval", TokenEval); ("rule", TokenRule);
  ("case", TokenCase); ("on", TokenOn); ("use", TokenUse);
  ("with", TokenWith); ("respond", TokenRespond); ("scoring", TokenScoring);
  ("threshold", TokenThreshold); ("tags", TokenTags); ("query", TokenQuery);
  ("loop", TokenLoop); ("user", TokenUser); ("guardrail", TokenGuardrail);
  ("models", TokenModels); ("budget", TokenBudgetKw); ("agents", TokenAgents);
  ("keywords", TokenKeywords); ("patterns", TokenPatterns);
  ("mode", TokenMode); ("key", TokenKey); ("role", TokenRole);
  ("daily", TokenDaily); ("monthly", TokenMonthly); ("state", TokenState)].

Definition assoc_string {A} (s : string) (l : list (string * A)) : option A :=
  snd <$> List.find (λ e, String.eqb e.1 s) l.

(** LookupKeyword returns the keyword token type for ident, or TokenIdent. *)
Definition LookupKeyword (ident : string) : TokenType :=
  match assoc_string ident keywords with
  | Some tok => tok
  | None => TokenIdent
  end.

(** Token represents a lexical token with position information. *)
Record Token := mkToken {
  Token_Type : TokenType;
  Token_Literal : string;
  Token_File : string;
  Token_Line : Z;
  Token_Column : Z;
}.
