(* ===== verification/Lexer.v ===== *)
(** The lexer (internal/parser/lexer.go): its state, one definition per
    method, and the scan of a whole input.

    The input is a byte string and [pos] a byte offset, as in the code. A loop
    of the code is a [Fixpoint] on a bound of its iterations, started at
    [fuel l], one more than the number of unread bytes; [None] means that the
    bound ran out, which LexerFacts.v proves impossible. Methods that fail
    return [Err] with the text of the Go error. *)
From S2P Require Import Prelude GoStd Token.
Open Scope Z_scope.

(** Lexer tokenizes IntentLang (.ias/.az) source input. *)
Record Lexer := mkLexer {
  input : string;
  file : string;
  pos : nat;
  line : Z;
  col : Z;
  lex_tokens : list Token;
  start : nat;
  startLn : Z;
  startCl : Z;
}.

Global Instance settable_Lexer : Settable Lexer := λ l,
  mkLexer (input l) (file l) (pos l) (line l) (col l) (lex_tokens l)
    (start l) (startLn l) (startCl l).

(** NewLexer creates a new lexer for the given input. *)
Definition NewLexer (input file : string) : Lexer :=
  mkLexer input file 0 1 1 [] 0 0 0.

(** The unread bytes, [l.input[l.pos:]], and a bound on the steps over them. *)
Definition unread (l : Lexer) : string := str_drop (pos l) (input l).
Definition at_eof (l : Lexer) : bool := (String.length (input l) <=? pos l)%nat.
Definition fuel (l : Lexer) : nat := S (String.length (input l) - pos l).

Definition peekAt (l : Lexer) (offset : nat) : Z :=
  let p := (pos l + offset)%nat in
  if (String.length (input l) <=? p)%nat then 0
  else (DecodeRune (str_drop p (input l))).1.

Definition peek (l : Lexer) : Z :=
  if at_eof l then 0 else (DecodeRune (unread l)).1.

Definition advance (l : Lexer) : Lexer :=
  if at_eof l then l
  else
    let '(r, size) := DecodeRune (unread l) in
    let l := l <| pos := (pos l + size)%nat |> in
    if r =? 10 then l <| line := line l + 1 |> <| col := 1 |>
    else l <| col := col l + 1 |>.

Definition makeToken (l : Lexer) (typ : TokenType) (literal : string) : Token :=
  mkToken typ literal (file l) (startLn l) (startCl l).

Definition isDigit (r : Z) : bool := (48 <=? r) && (r <=? 57).

(** [for l.pos < len(l.input) && p(l.peek()) { l.advance() }] *)
Fixpoint advance_while (n : nat) (p : Z → bool) (l : Lexer) : option Lexer :=
  match n with
  | O => None
  | S n => if negb (at_eof l) && p (peek l) then advance_while n p (advance l) else Some l
  end.

Definition is_blank (ch : Z) : bool := (ch =? 32) || (ch =? 9) || (ch =? 13).
Definition not_newline (ch : Z) : bool := negb (ch =? 10).

(** A line comment starts with # or with //. *)
Definition at_comment (l : Lexer) : bool :=
  (peek l =? 35) || ((peek l =? 47) && (peekAt l 1 =? 47)).

Fixpoint skip_loop (n : nat) (l : Lexer) : option Lexer :=
  match n with
  | O => None
  | S n =>
      if at_eof l then Some l
      else if is_blank (peek l) then skip_loop n (advance l)
      else if at_comment l
      then l ← advance_while (fuel l) not_newline l; skip_loop n l
      else Some l
  end.

Definition skipWhitespaceAndComments (l : Lexer) : option Lexer := skip_loop (fuel l) l.

(** ["%s:%d:%d: "] at the given line and column. *)
Definition at_pos (file : string) (ln cl : Z) : string :=
  file +:+ ":" +:+ pretty ln +:+ ":" +:+ pretty cl +:+ ": ".

(** What a backslash escape writes: the four known ones, and any other
    character together with its backslash. *)
Definition unescape (esc : Z) : string :=
  if esc =? 110 then nl
  else if esc =? 116 then String "009" EmptyString
  else if esc =? 92 then "\"
  else if esc =? 34 then String "034" EmptyString
  else "\" +:+ encode_rune esc.

(** The loop of scanString, after the opening quote; [sb] is the builder. *)
Fixpoint scanString_loop (n : nat) (l : Lexer) (sb : string)
    : option (result string (Token * Lexer)) :=
  match n with
  | O => None
  | S n =>
      if at_eof l
      then Some (Err (at_pos (file l) (startLn l) (startCl l) +:+ "unterminated string"))
      else
        let ch := peek l in
        if ch =? 34 then Some (Ok (makeToken l TokenString sb, advance l))
        else if ch =? 92 then
          let l := advance l in
          if at_eof l
          then Some (Err (at_pos (file l) (line l) (col l) +:+ "unterminated string escape"))
          else scanString_loop n (advance l) (sb +:+ unescape (peek l))
        else if ch =? 10 then
          scanString_loop n
            (l <| line := line l + 1 |> <| col := 1 |> <| pos := (pos l + 1)%nat |>)
            (sb +:+ encode_rune ch)
        else scanString_loop n (advance l) (sb +:+ encode_rune ch)
  end.

Definition scanString (l : Lexer) : option (result string (Token * Lexer)) :=
  let l := advance l in
  scanString_loop (fuel l) l "".

(** [l.input[l.start:l.pos]] *)
Definition lexeme (l : Lexer) : string :=
  str_take (pos l - start l) (str_drop (start l) (input l)).

Definition is_number_char (ch : Z) : bool := isDigit ch || (ch =? 46) || (ch =? 45).

Definition scanNumber (l : Lexer) : option (result string (Token * Lexer)) :=
  l ← advance_while (fuel l) is_number_char l;
  Some (Ok (makeToken l TokenNumber (lexeme l), l)).

Section lexer.
Context `{GoRuntime}.

Definition isIdentStart (r : Z) : bool :=
  (if r <? 0x80 then ((65 <=? r) && (r <=? 90)) || ((97 <=? r) && (r <=? 122))
   else uni_letter r) || (r =? 95).

(** unicode.IsLetter(r) || unicode.IsDigit(r) || r == '_' || r == '-' *)
Definition isIdentPart (r : Z) : bool :=
  isIdentStart r || (if r <? 0x80 then isDigit r else uni_digit r) || (r =? 45).

Definition scanIdentOrKeyword (l : Lexer) : option (result string (Token * Lexer)) :=
  l ← advance_while (fuel l) isIdentPart l;
  let literal := lexeme l in
  Some (Ok (makeToken l (LookupKeyword literal) literal, l)).

(** The one-character tokens of nextToken. *)
Definition single_char (ch : Z) : option (TokenType * string) :=
  if ch =? 10 then Some (TokenNewline, nl)
  else if ch =? 123 then Some (TokenLBrace, "{")
  else if ch =? 125 then Some (TokenRBrace, "}")
  else if ch =? 91 then Some (TokenLBracket, "[")
  else if ch =? 93 then Some (TokenRBracket, "]")
  else if ch =? 40 then Some (TokenLParen, "(")
  else if ch =? 41 then Some (TokenRParen, ")")
  else if ch =? 44 then Some (TokenComma, ",")
  else if ch =? 46 then Some (TokenDot, ".")
  else None.

(** An operator of one character [ch], or of two when '=' follows: the token
    of the one character is absent for '=' and '!'. *)
Definition scanOperator (l : Lexer) (one : option (TokenType * string))
    (two : TokenType * string) (message : string)
    : option (result string (Token * Lexer)) :=
  let l := advance l in
  if peek l =? 61 then Some (Ok (makeToken l two.1 two.2, advance l))
  else match one with
       | Some (typ, literal) => Some (Ok (makeToken l typ literal, l))
       | None => Some (Err (at_pos (file l) (startLn l) (startCl l) +:+ message))
       end.

Definition nextToken (l : Lexer) : option (result string (Token * Lexer)) :=
  l ← skipWhitespaceAndComments l;
  if at_eof l then Some (Ok (makeToken l TokenEOF "", l))
  else
    let l := l <| start := pos l |> <| startLn := line l |> <| startCl := col l |> in
    let ch := peek l in
    match single_char ch with
    | Some (typ, literal) => Some (Ok (makeToken l typ literal, advance l))
    | None =>
        if ch =? 34 then scanString l
        else if isDigit ch || ((ch =? 45) && negb (peekAt l 1 =? 0) && isDigit (peekAt l 1))
        then scanNumber l
        else if ch =? 58 then Some (Ok (makeToken l TokenColon ":", advance l))
        else if ch =? 61 then
          scanOperator l None (TokenEqual, "==") "unexpected character '=' (did you mean '=='?)"
        else if ch =? 33 then
          scanOperator l None (TokenNotEqual, "!=") "unexpected character '!'"
        else if ch =? 62 then
          scanOperator l (Some (TokenGreater, ">")) (TokenGreaterEq, ">=") ""
        else if ch =? 60 then
          scanOperator l (Some (TokenLess, "<")) (TokenLessEq, "<=") ""
        else if isIdentStart ch then scanIdentOrKeyword l
        else Some (Err (at_pos (file l) (startLn l) (startCl l) +:+
                        "unexpected character " +:+ quote_rune ch))
    end.

Fixpoint tokenize_loop (n : nat) (l : Lexer) : option (result string (list Token)) :=
  match n with
  | O => None
  | S n =>
      r ← nextToken l;
      match r with
      | Err e => Some (Err e)
      | Ok (tok, l) =>
          let l := l <| lex_tokens := lex_tokens l ++ [tok] |> in
          if token_eqb (Token_Type tok) TokenEOF then Some (Ok (lex_tokens l))
          else tokenize_loop n l
      end
  end.

(** Tokenize scans the entire input and returns all tokens. *)
Definition Tokenize (l : Lexer) : option (result string (list Token)) :=
  tokenize_loop (fuel l) l.
End lexer.
