(* ===== verification/LexerFacts.v ===== *)
(** Facts about the lexer: every loop terminates, the token list of a lexed
    input ends with its only EOF token, and token positions strictly increase. *)
From S2P Require Import Prelude GoStd Token Lexer.
Open Scope Z_scope.

(** * Positions *)

Definition pos_lt (a b : Z * Z) : Prop := a.1 < b.1 ∨ (a.1 = b.1 ∧ a.2 < b.2).
Definition pos_le (a b : Z * Z) : Prop := a.1 < b.1 ∨ (a.1 = b.1 ∧ a.2 ≤ b.2).

Ltac pos_order := unfold pos_lt, pos_le in *; simpl in *; lia.

Definition lex_at (l : Lexer) : Z * Z := (line l, col l).
Definition lex_start (l : Lexer) : Z * Z := (startLn l, startCl l).
Definition token_at (t : Token) : Z * Z := (Token_Line t, Token_Column t).

(** * One step of the reading head *)

Lemma length_str_drop n s : String.length (str_drop n s) = (String.length s - n)%nat.
Proof. revert s. induction n as [|n IH]; intros [|c s]; simpl; auto with lia. Qed.

Lemma DecodeRune_width s :
  s ≠ EmptyString → (1 ≤ (DecodeRune s).2 ≤ String.length s)%nat.
Proof.
  destruct s as [|c0 s]; [done|]; intros _. unfold DecodeRune.
  repeat (case_match; simpl); lia.
Qed.

(** [l'] is [l] after reading on: the token being scanned is the same, and the
    position advances strictly with the offset. *)
Record reads (l l' : Lexer) : Prop := {
  reads_input : input l' = input l;
  reads_file : file l' = file l;
  reads_tokens : lex_tokens l' = lex_tokens l;
  reads_start : start l' = start l;
  reads_lex_start : lex_start l' = lex_start l;
  reads_pos : (pos l ≤ pos l')%nat;
  reads_le : pos_le (lex_at l) (lex_at l');
  reads_lt : (pos l < pos l')%nat → pos_lt (lex_at l) (lex_at l');
}.

Lemma reads_refl l : reads l l.
Proof. split; try done; [pos_order | lia]. Qed.

Lemma reads_trans l1 l2 l3 : reads l1 l2 → reads l2 l3 → reads l1 l3.
Proof.
  intros [] []. split; try congruence; [lia | pos_order |].
  intros. destruct (decide (pos l1 < pos l2)%nat) as [E|E].
  - specialize (reads_lt0 E). pos_order.
  - assert (pos l2 < pos l3)%nat as E' by lia. specialize (reads_lt1 E'). pos_order.
Qed.

#[export] Hint Resolve reads_refl : go_core.

Definition unread_bytes (l : Lexer) : nat := (String.length (input l) - pos l)%nat.

Lemma at_eof_false l : at_eof l = false ↔ (pos l < String.length (input l))%nat.
Proof. unfold at_eof. rewrite Nat.leb_gt. lia. Qed.

Lemma advance_reads l : reads l (advance l).
Proof.
  unfold advance. destruct (at_eof l) eqn:E; [apply reads_refl|].
  destruct (DecodeRune (unread l)) as [r w]. 
  destruct (r =? 10); split; simpl; try done; try lia; pos_order.
Qed.

Lemma advance_progress l :
  at_eof l = false →
  (pos l < pos (advance l) ≤ String.length (input l))%nat.
Proof.
  intros E. unfold advance. rewrite E. apply at_eof_false in E.
  pose proof (DecodeRune_width (unread l)) as W.
  destruct (DecodeRune (unread l)) as [r w]; simpl in W.
  assert (unread l ≠ EmptyString) as NE.
  { intros X. apply (f_equal String.length) in X. unfold unread in X.
    rewrite length_str_drop in X. simpl in X. lia. }
  specialize (W NE). unfold unread in W. rewrite length_str_drop in W.
  destruct (r =? 10); simpl; lia.
Qed.

Lemma advance_unread l :
  at_eof l = false → (unread_bytes (advance l) < unread_bytes l)%nat.
Proof.
  intros E. pose proof (advance_progress l E). pose proof (reads_input _ _ (advance_reads l)) as I.
  apply at_eof_false in E. unfold unread_bytes. rewrite I. lia.
Qed.

Lemma peek_eof l : at_eof l = true → peek l = 0.
Proof. intros E. unfold peek. by rewrite E. Qed.

(** * The loops *)

Lemma advance_while_total n p l :
  (unread_bytes l < n)%nat →
  ∃ l', advance_while n p l = Some l' ∧ reads l l' ∧
        (at_eof l = false → p (peek l) = true → (pos l < pos l')%nat).
Proof.
  revert l. induction n as [|n IH]; intros l Hn; [lia|]. simpl.
  destruct (at_eof l) eqn:E; simpl; [eauto using reads_refl with congruence|].
  destruct (p (peek l)) eqn:P; [|eauto using reads_refl with congruence].
  pose proof (advance_unread l E). pose proof (advance_progress l E).
  destruct (IH (advance l)) as (l' & -> & R & _); [lia|].
  exists l'. split_and!; [done | by eapply reads_trans, R; apply advance_reads |].
  intros _ _. pose proof (reads_pos _ _ R). lia.
Qed.

(** The form in which the methods call the loop. *)
Lemma advance_while_fuel p l :
  ∃ l', advance_while (fuel l) p l = Some l' ∧ reads l l' ∧
        (at_eof l = false → p (peek l) = true → (pos l < pos l')%nat).
Proof. apply advance_while_total. unfold fuel, unread_bytes. lia. Qed.

Lemma comment_not_newline l : at_comment l = true → not_newline (peek l) = true.
Proof. unfold at_comment, not_newline. intros; destruct (peek l =? 10) eqn:E; lia. Qed.

Lemma skip_loop_total n l :
  (unread_bytes l < n)%nat → ∃ l', skip_loop n l = Some l' ∧ reads l l'.
Proof.
  revert l. induction n as [|n IH]; intros l Hn; [lia|]. cbn [skip_loop].
  destruct (at_eof l) eqn:E; [eauto using reads_refl|].
  destruct (is_blank (peek l)).
  - pose proof (advance_unread l E).
    destruct (IH (advance l)) as (l' & -> & R); [lia|].
    eauto using reads_trans, advance_reads.
  - destruct (at_comment l) eqn:C; [|eauto using reads_refl].
    destruct (advance_while_fuel not_newline l) as (l' & -> & R & P). simpl.
    specialize (P E (comment_not_newline l C)).
    destruct (IH l') as (l'' & -> & R'); [|eauto using reads_trans].
    apply at_eof_false in E. pose proof (reads_input _ _ R) as I.
    unfold unread_bytes in *. rewrite I. lia.
Qed.

Lemma skip_total l : ∃ l', skipWhitespaceAndComments l = Some l' ∧ reads l l'.
Proof. apply skip_loop_total. unfold fuel, unread_bytes. lia. Qed.

(** * Scanning one token *)

(** What a scan method returns from state [l]: an error, or a token that starts
    where the scan started and a state that has read on. *)
Definition scans (l : Lexer) (r : option (result string (Token * Lexer))) : Prop :=
  match r with
  | None => False
  | Some (Err _) => True
  | Some (Ok (tok, l')) =>
      reads l l' ∧ (pos l < pos l')%nat ∧ token_at tok = lex_start l ∧
      Token_File tok = file l ∧ Token_Type tok ≠ TokenEOF
  end.

(** A token made in a state that has read on from [l]. *)
Lemma scans_token l l' typ literal :
  reads l l' → (pos l < pos l')%nat → typ ≠ TokenEOF →
  scans l (Some (Ok (makeToken l' typ literal, l'))).
Proof.
  intros R P T. destruct R. simpl. split_and!; try done.
Qed.

Lemma scans_advance l typ literal :
  at_eof l = false → typ ≠ TokenEOF →
  scans l (Some (Ok (makeToken l typ literal, advance l))).
Proof.
  intros E T. pose proof (advance_progress l E). simpl.
  split_and!; try done; [apply advance_reads | lia].
Qed.

Lemma scans_reads l l' r :
  reads l l' → (pos l ≤ pos l')%nat → scans l' r → scans l r.
Proof.
  intros R P. destruct r as [[[tok l'']|e]|]; simpl; try done.
  intros (R' & P' & A & F & T). pose proof R as [].
  split_and!; try congruence; [by eapply reads_trans | lia].
Qed.

Lemma LookupKeyword_not_EOF s : LookupKeyword s ≠ TokenEOF.
Proof.
  unfold LookupKeyword, assoc_string. destruct (List.find _ _) as [[k t]|] eqn:E; [|done].
  apply List.find_some in E as [E _]. simpl. intros ->.
  assert (Forall (λ e : string * TokenType, e.2 ≠ TokenEOF) keywords) as F
    by (apply (bool_decide_unpack _); by vm_compute).
  rewrite List.Forall_forall in F. by apply F in E.
Qed.

Lemma scanString_loop_scans n l sb :
  (unread_bytes l < n)%nat → scans l (scanString_loop n l sb).
Proof.
  revert l sb. induction n as [|n IH]; intros l sb Hn; [lia|]. cbn [scanString_loop].
  destruct (at_eof l) eqn:E; [done|].
  destruct (peek l =? 34); [by apply scans_advance|].
  pose proof (advance_reads l) as R. pose proof (reads_pos _ _ R).
  pose proof (advance_unread l E).
  destruct (peek l =? 92); [|destruct (peek l =? 10)].
  - destruct (at_eof (advance l)) eqn:E'; [done|].
    pose proof (advance_reads (advance l)) as R'. pose proof (reads_pos _ _ R').
    pose proof (advance_unread _ E').
    eapply scans_reads; [by eapply reads_trans | lia | apply IH; lia].
  - apply at_eof_false in E.
    eapply scans_reads; [| | apply IH]; [|simpl; lia|unfold unread_bytes in *; simpl; lia].
    split; simpl; try done; try lia; pos_order.
  - eapply scans_reads; [done | lia | apply IH; lia].
Qed.

Lemma scanString_scans l : at_eof l = false → scans l (scanString l).
Proof.
  intros E. unfold scanString.
  eapply scans_reads; [apply advance_reads | | apply scanString_loop_scans].
  - pose proof (advance_progress l E). lia.
  - unfold fuel, unread_bytes. lia.
Qed.

Lemma scans_while l p (mk : Lexer → TokenType) :
  at_eof l = false → p (peek l) = true → (∀ l', mk l' ≠ TokenEOF) →
  scans l (l' ← advance_while (fuel l) p l;
           Some (Ok (makeToken l' (mk l') (lexeme l'), l'))).
Proof.
  intros E P T. destruct (advance_while_fuel p l) as (l' & -> & R & Q).
  apply scans_token; auto.
Qed.

Lemma scanOperator_scans l one two message :
  at_eof l = false → two.1 ≠ TokenEOF → (∀ t, one = Some t → t.1 ≠ TokenEOF) →
  scans l (scanOperator l one two message).
Proof.
  intros E T1 T2. unfold scanOperator.
  pose proof (advance_reads l) as R. pose proof (advance_progress l E).
  destruct (peek (advance l) =? 61) eqn:Q.
  - eapply scans_reads; [exact R | lia |]. apply scans_advance; [|done].
    destruct (at_eof (advance l)) eqn:E'; [|done].
    rewrite peek_eof in Q by done. lia.
  - destruct one as [[typ lit]|]; [|done].
    apply scans_token; [done | lia | by apply (T2 (typ, lit))].
Qed.

Section facts.
Context `{GoRuntime}.

Lemma single_char_not_EOF ch t : single_char ch = Some t → t.1 ≠ TokenEOF.
Proof. unfold single_char. repeat case_match; naive_solver. Qed.

(** What nextToken does: it stops at the end of the input with an EOF token
    placed at the start of the token before, or scans one token. *)
Lemma nextToken_spec l :
  (∃ l', nextToken l = Some (Ok (makeToken l TokenEOF "", l')) ∧ reads l l') ∨
  (∃ l1, reads l l1 ∧ at_eof l1 = false ∧
    scans (l1 <| start := pos l1 |> <| startLn := line l1 |> <| startCl := col l1 |>)
      (nextToken l)).
Proof.
  unfold nextToken. destruct (skip_total l) as (l1 & -> & R). simpl.
  destruct (at_eof l1) eqn:E.
  { left. exists l1. split; [|done]. pose proof R as [? F ? ? S ? ? ?].
    unfold makeToken. unfold lex_start in S. injection S as -> ->. by rewrite F. }
  right. exists l1. do 2 (split; [done|]).
  set (l2 := l1 <| start := _ |> <| startLn := _ |> <| startCl := _ |>).
  assert (at_eof l2 = false) as E2 by done.
  destruct (single_char (peek l2)) as [[typ lit]|] eqn:C.
  { apply scans_advance; [done|]. by apply (single_char_not_EOF _ _ C). }
  destruct (peek l2 =? 34); [by apply scanString_scans|].
  destruct (isDigit (peek l2) || _) eqn:D.
  { apply (scans_while l2 is_number_char (λ _, TokenNumber)); [done| |done].
    unfold is_number_char. destruct (isDigit (peek l2)); [done|]. simpl in D. lia. }
  destruct (peek l2 =? 58); [by apply scans_advance|].
  repeat (case_match; [by apply scanOperator_scans; naive_solver|]).
  destruct (isIdentStart (peek l2)) eqn:I; [|done].
  apply (scans_while l2 isIdentPart (λ l, LookupKeyword (lexeme l))); [done| |].
  - unfold isIdentPart. by rewrite I.
  - intros. apply LookupKeyword_not_EOF.
Qed.

(** The loop of Tokenize keeps: the tokens so far are positioned in strictly
    increasing order, all before the reading head, and none is EOF. *)
Record lexing (file0 : string) (l : Lexer) : Prop := {
  lexing_sorted : StronglySorted pos_lt (token_at <$> lex_tokens l);
  lexing_last : lex_start l = default (0, 0) (last (token_at <$> lex_tokens l));
  lexing_head : pos_lt (lex_start l) (lex_at l);
  lexing_name : file l = file0;
  lexing_file : Forall (λ t, Token_File t = file0) (lex_tokens l);
  lexing_types : Forall (λ t, Token_Type t ≠ TokenEOF) (lex_tokens l);
}.

Lemma lexing_new input file0 : lexing file0 (NewLexer input file0).
Proof. split; simpl; repeat constructor; try done; pos_order. Qed.

Global Instance pos_lt_trans : Transitive pos_lt.
Proof. intros ???. pos_order. Qed.

Lemma lexing_step file0 l l1 l' tok :
  lexing file0 l → reads l l1 → at_eof l1 = false →
  scans (l1 <| start := pos l1 |> <| startLn := line l1 |> <| startCl := col l1 |>)
    (Some (Ok (tok, l'))) →
  lexing file0 (l' <| lex_tokens := lex_tokens l' ++ [tok] |>) ∧
  (unread_bytes l' < unread_bytes l)%nat.
Proof.
  intros [] [] E (R & P & A & F & T). apply at_eof_false in E. pose proof R as [].
  assert (token_at tok = lex_at l1) as A1 by done.
  assert (lex_start l' = lex_at l1) as A2 by done.
  assert (lex_tokens l' = lex_tokens l) as TS by (simpl in *; congruence).
  assert (file l' = file0) as FL by (simpl in *; congruence).
  split.
  - split; simpl; rewrite ?TS, ?fmap_app; simpl.
    + apply StronglySorted_extend; [apply _ | done |].
      intros y Hy. rewrite Hy in lexing_last0. simpl in lexing_last0.
      rewrite A1. subst y. pos_order.
    + change (lex_start l' = default (0, 0) (last ((token_at <$> lex_tokens l) ++ [token_at tok]))).
      rewrite last_snoc. simpl. congruence.
    + change (pos_lt (lex_start l') (lex_at l')). rewrite A2.
      apply (reads_lt _ _ R). done.
    + done.
    + rewrite Forall_app, Forall_singleton. split; [done|]. simpl in *. congruence.
    + rewrite Forall_app, Forall_singleton. done.
  - unfold unread_bytes. simpl in *. rewrite reads_input1, reads_input0 in *. lia.
Qed.

(** The tokens Tokenize returns, against the lexer invariant. *)
Definition lexed (file0 : string) (ts : list Token) : Prop :=
  ∃ body eof, ts = body ++ [eof] ∧ Token_Type eof = TokenEOF ∧
    Forall (λ t, Token_Type t ≠ TokenEOF) body ∧
    Forall (λ t, Token_File t = file0) ts ∧
    StronglySorted pos_lt (token_at <$> body) ∧
    token_at eof = default (0, 0) (last (token_at <$> body)).

Lemma tokenize_loop_total file0 n l :
  lexing file0 l → (unread_bytes l < n)%nat →
  ∃ r, tokenize_loop n l = Some r ∧ ∀ ts, r = Ok ts → lexed file0 ts.
Proof.
  revert l. induction n as [|n IH]; intros l L Hn; [lia|]. cbn [tokenize_loop].
  destruct (nextToken_spec l) as [(l' & -> & R)|(l1 & R & E & S)].
  - eexists. split; [done|]. intros ts [= <-]. destruct R, L. simpl.
    rewrite reads_tokens0. exists (lex_tokens l), (makeToken l TokenEOF "").
    split_and!; try done.
    apply Forall_app. split; [done|]. by constructor.
  - destruct (nextToken l) as [[[tok l']|e]|]; [|by eexists|done].
    pose proof (lexing_step file0 l l1 l' tok L R E S) as [L' U].
    destruct S as (_ & _ & _ & _ & T). simpl.
    destruct (token_eqb (Token_Type tok) TokenEOF) eqn:Q;
      [by apply token_eqb_eq in Q|].
    apply IH; [done|]. change (unread_bytes l' < n)%nat. lia.
Qed.
End facts.

Lemma tokenize_total `{GoRuntime} input file : ∃ r, Tokenize (NewLexer input file) = Some r.
Proof.
  destruct (tokenize_loop_total file (fuel (NewLexer input file)) (NewLexer input file))
    as (r & E & _); [apply lexing_new | unfold fuel, unread_bytes; lia |].
  by exists r.
Qed.

(** Tokenize terminates on every input, with a token list or an error: no
    loop of the lexer exceeds the number of unread bytes. *)
Lemma tokenize_terminates `{GoRuntime} (input file : string) :
  ∃ r, Tokenize (NewLexer input file) = Some r.
Proof. apply tokenize_total. Qed.

Lemma tokenize_lexed `{GoRuntime} input file ts :
  Tokenize (NewLexer input file) = Some (Ok ts) → lexed file ts.
Proof.
  intros T.
  destruct (tokenize_loop_total file (fuel (NewLexer input file)) (NewLexer input file))
    as (r & E & L); [apply lexing_new | unfold fuel, unread_bytes; lia |].
  apply L. unfold Tokenize in T. congruence.
Qed.

(** The token list of a lexed input ends with its one EOF token; every
    token carries the file name; the other tokens start at strictly increasing
    line and column; and the EOF token is placed at the start of the last
    token before it, or at line 0, column 0 when there is none. *)
Lemma tokenize_positions `{GoRuntime} (input file : string) (ts : list Token)
    (E : Tokenize (NewLexer input file) = Some (Ok ts)) :
  ∃ body eof, ts = body ++ [eof] ∧ Token_Type eof = TokenEOF ∧
    Forall (λ t, Token_Type t ≠ TokenEOF) body ∧
    Forall (λ t, Token_File t = file) ts ∧
    StronglySorted pos_lt (token_at <$> body) ∧
    token_at eof = default (0, 0) (last (token_at <$> body)).
Proof. by apply (tokenize_lexed input). Qed.

Lemma tokenize_positions_witness :
  ∃ body eof, [mkToken TokenIdent "a" "f" 1 1; mkToken TokenEOF "" "f" 1 1] = body ++ [eof] ∧
    Token_Type eof = TokenEOF ∧
    Forall (λ t, Token_Type t ≠ TokenEOF) body ∧
    Forall (λ t, Token_File t = "f")
      [mkToken TokenIdent "a" "f" 1 1; mkToken TokenEOF "" "f" 1 1] ∧
    StronglySorted pos_lt (token_at <$> body) ∧
    token_at eof = default (0, 0) (last (token_at <$> body)).
Proof. apply (@tokenize_positions ascii_runtime "a" "f"). by vm_compute. Defined.
