(* ===== verification/ParserCore.v ===== *)
(** The parser's state and its token navigation (internal/parser/parser.go):
    [Parser], [ParseError], current, check, advance, expect*, skipNewlines,
    addError, registerName, and the control structures the parse methods are
    written with.

    A parse method is a function of type [P A]: it takes the parser state and
    returns a value with the new state. [None] is reserved for a loop whose
    bound ran out; ParserFacts.v proves that it never happens. *)
From S2P Require Import Prelude GoStd Ast Token.
Open Scope Z_scope.

(** ParseError represents a parse error with position information. *)
Record ParseError := mkParseError {
  ParseError_File : string;
  ParseError_Line : Z;
  ParseError_Column : Z;
  ParseError_Message : string;
  ParseError_Hint : string;
}.

(** The method Error. *)
Definition ParseError_Error (e : ParseError) : string :=
  let s := ParseError_File e +:+ ":" +:+ pretty (ParseError_Line e) +:+ ":" +:+
           pretty (ParseError_Column e) +:+ ": error: " +:+ ParseError_Message e in
  if String.eqb (ParseError_Hint e) "" then s
  else s +:+ nl +:+ "  hint: " +:+ ParseError_Hint e.

(** Parser performs recursive descent parsing of token streams. [p_names] maps
    a kind to the set of its names: the booleans of the Go map are all true. *)
Record Parser := mkParser {
  p_tokens : list Token;
  p_pos : nat;
  p_file : string;
  p_errors : list ParseError;
  p_names : gmap string (gset string);
}.

Global Instance settable_Parser : Settable Parser := λ p,
  mkParser (p_tokens p) (p_pos p) (p_file p) (p_errors p) (p_names p).

(** * The parser monad *)

Definition P (A : Type) : Type := Parser → option (A * Parser).

Global Instance P_ret : MRet P := λ A a p, Some (a, p).
Global Instance P_bind : MBind P := λ A B k m p,
  match m p with
  | Some (a, p') => k a p'
  | None => None
  end.

Definition reads_state {A} (f : Parser → A) : P A := λ p, Some (f p, p).
Definition updates (f : Parser → Parser) : P unit := λ p, Some (tt, f p).

(** * Token navigation *)

Definition current_tok (p : Parser) : Token :=
  match p_tokens p !! p_pos p with
  | Some t => t
  | None => mkToken TokenEOF "" (p_file p) 0 0
  end.

Definition is_tok (t : TokenType) (p : Parser) : bool :=
  token_eqb (Token_Type (current_tok p)) t.

Definition at_end (p : Parser) : bool := is_tok TokenEOF p.
Definition is_lit (s : string) (p : Parser) : bool :=
  String.eqb (Token_Literal (current_tok p)) s.

Definition current : P Token := reads_state current_tok.
Definition check (t : TokenType) : P bool := reads_state (is_tok t).
Definition isAtEnd : P bool := reads_state at_end.

Definition advance : P Token := λ p,
  Some (current_tok p,
        if (p_pos p <? length (p_tokens p))%nat
        then p <| p_pos := S (p_pos p) |> else p).

Definition tok_pos (t : Token) : Pos :=
  mkPos (Token_File t) (Token_Line t) (Token_Column t).

Definition currentPos : P Pos := reads_state (λ p, tok_pos (current_tok p)).

Definition addError (msg hint : string) : P unit := updates (λ p,
  let tok := current_tok p in
  p <| p_errors := p_errors p ++
         [mkParseError (Token_File tok) (Token_Line tok) (Token_Column tok) msg hint] |>).

(** The name of the current token's type, for messages. *)
Definition got (p : Parser) : string := TokenType_String (Token_Type (current_tok p)).

(** * Loops and switches *)

(** How the body of a loop ends: [continue] (or reaching the end), or [break]. *)
Inductive ctl (A : Type) :=
  | Continue (a : A)
  | Break (a : A).
Global Arguments Continue {_} _.
Global Arguments Break {_} _.

Definition continues {A} (c : ctl A) : bool :=
  match c with Continue _ => true | Break _ => false end.

(** The tokens left, and with one more a bound on the rounds of a loop. *)
Definition remaining (p : Parser) : nat := (length (p_tokens p) - p_pos p)%nat.

(** [for cond { body }], [acc] being the variables the loop assigns. *)
Fixpoint while_fuel {A} (n : nat) (cond : Parser → bool) (body : A → P (ctl A)) (acc : A) : P A :=
  λ p,
  match n with
  | O => None
  | S n =>
      if cond p then
        match body acc p with
        | Some (Continue acc, p) => while_fuel n cond body acc p
        | Some (Break acc, p) => Some (acc, p)
        | None => None
        end
      else Some (acc, p)
  end.

Definition while {A} (cond : Parser → bool) (body : A → P (ctl A)) (acc : A) : P A :=
  λ p, while_fuel (S (remaining p)) cond body acc p.

(** A case of a switch: a condition on the state and what to do. *)
Definition arm (A : Type) : Type := (Parser → bool) * P A.
Definition on {A} (t : TokenType) (m : P A) : arm A := (is_tok t, m).
Definition on_lit {A} (s : string) (m : P A) : arm A := (is_lit s, m).
Definition on_if {A} (c : Parser → bool) (m : P A) : arm A := (c, m).

(** [switch { case c1: m1; ...; default: d }]. *)
Fixpoint switch {A} (arms : list (arm A)) (d : P A) : P A :=
  match arms with
  | [] => d
  | (c, m) :: arms => λ p, if c p then m p else switch arms d p
  end.

(** [if c { m }] with nothing in the other branch. *)
Definition when (c : Parser → bool) (m : P unit) : P unit := λ p,
  if c p then m p else Some (tt, p).

(** [if c { m1 } else { m2 }]. *)
Definition ifelse {A} (c : Parser → bool) (m1 m2 : P A) : P A := λ p,
  if c p then m1 p else m2 p.

Definition skip : P unit := mret tt.

(** Advance and drop the token. *)
Definition next : P unit := _ ← advance; skip.

(** Advance and return the token's literal. *)
Definition advance_lit : P string := t ← advance; mret (Token_Literal t).

(** [p.current().Literal] *)
Definition lit : P string := reads_state (λ p, Token_Literal (current_tok p)).

Definition skipNewlines : P unit :=
  while (is_tok TokenNewline) (λ _, next;; mret (Continue tt)) tt.

(** [p.addError(fmt.Sprintf("...%s...", p.current().Type), hint)] *)
Definition error_got (before after hint : string) : P unit := λ p,
  addError (before +:+ got p +:+ after) hint p.

Definition expect (t : TokenType) : P Token :=
  when (λ p, negb (is_tok t p))
    (error_got ("expected " +:+ TokenType_String t +:+ ", got ") "" "");;
  advance.

Definition expectToken (t : TokenType) : P unit :=
  skipNewlines;;
  ifelse (is_tok t) next
    (error_got ("expected " +:+ TokenType_String t +:+ ", got ") "" "").

Definition expectString (context : string) : P string :=
  ifelse (is_tok TokenString) advance_lit
    (error_got ("expected string for " +:+ context +:+ ", got ") "" "";;
     ifelse (λ p, negb (at_end p)) advance_lit (mret "")).

(** Accept keywords as identifiers in value position. *)
Definition is_name_tok (p : Parser) : bool :=
  is_tok TokenString p || is_tok TokenIdent p ||
  (token_ord TokenPackage <=? token_ord (Token_Type (current_tok p))).

Definition expectStringOrIdent (context : string) : P string :=
  ifelse is_name_tok advance_lit
    (error_got ("expected string or identifier for " +:+ context +:+ ", got ") "" "";;
     ifelse (λ p, negb (at_end p)) advance_lit (mret "")).

Definition expectBool (context : string) : P bool :=
  switch [
    on TokenTrue (next;; mret true);
    on TokenFalse (next;; mret false)
  ] (error_got ("expected true/false for " +:+ context +:+ ", got ") "" "";;
     when (λ p, negb (at_end p)) next;;
     mret false).

Section expect_numbers.
Context `{GoRuntime}.

Definition expect_number {A} (conv : string → option A) (zero : A) (what context : string) : P A :=
  ifelse (is_tok TokenNumber)
    (lit ← advance_lit;
     match conv lit with
     | Some n => mret n
     | None =>
         addError ("invalid " +:+ what +:+ " for " +:+ context +:+ ": " +:+ quote lit) "";;
         mret zero
     end)
    (error_got ("expected number for " +:+ context +:+ ", got ") "" "";;
     when (λ p, negb (at_end p)) next;;
     mret zero).

Definition expectInt (context : string) : P Z := expect_number Atoi 0 "integer" context.
Definition expectFloat (context : string) : P float64 :=
  expect_number ParseFloat float_zero "float" context.

Definition names_of (kind : string) (p : Parser) : gset string := default ∅ (p_names p !! kind).

Definition registerName (kind name : string) (_ : Pos) : P unit :=
  when (λ p, bool_decide (name ∈ names_of kind p))
    (addError ("duplicate " +:+ kind +:+ " name " +:+ quote name)
       "each resource must have a unique name within its kind");;
  updates (λ p, p <| p_names := <[kind := {[name]} ∪ names_of kind p]> (p_names p) |>).
End expect_numbers.

(** [for !p.check(TokenRBrace) && !p.isAtEnd() { p.skipNewlines();
    if p.check(TokenRBrace) { break }; body }], the loop over a block. *)
Definition in_block (p : Parser) : bool := negb (is_tok TokenRBrace p) && negb (at_end p).

Definition block_body {A} (body : A → P (ctl A)) (acc : A) : P (ctl A) :=
  skipNewlines;;
  ifelse (is_tok TokenRBrace) (mret (Break acc)) (body acc).

Definition block_loop {A} (body : A → P (ctl A)) (acc : A) : P A :=
  while in_block (block_body body) acc.

(** The same loop with a body that ends with p.skipNewlines(). *)
Definition items {A} (body : A → P A) (acc : A) : P A :=
  block_loop (λ acc, acc ← body acc; skipNewlines;; mret (Continue acc)) acc.

(** [p.expectToken(TokenLBrace); p.skipNewlines(); loop;
    p.expectToken(TokenRBrace)] *)
Definition braces {A} (inner : P A) : P A :=
  expectToken TokenLBrace;;
  skipNewlines;;
  a ← inner;
  expectToken TokenRBrace;;
  mret a.

Definition block {A} (body : A → P A) (acc : A) : P A := braces (items body acc).

(** The default case of most blocks. *)
Definition unexpected {A} (where_ hint : string) (acc : A) : P A :=
  error_got "unexpected token " where_ hint;; next;; mret acc.
