(* ===== verification/Parser.v ===== *)
(** The recursive descent parser (internal/parser/parser.go): one definition
    per parse method, in the order and with the guards of the code.

    A method that fills a struct in a loop over a block is written
    [block (fun acc => switch [...] ...) init]: [acc] is the struct, an arm is
    a case of the Go switch, and the last argument of [switch] its default. *)
From S2P Require Import Prelude GoStd Ast Token Lexer ParserCore.
Open Scope Z_scope.

Section parser.
Context `{GoRuntime}.

(** [&ast.Ref{Kind: kind, Name: name(), StartPos: p.currentPos()}]: the
    positions are read after the name has been consumed. *)
Definition parse_ref (kind : string) (name : P string) : P Ref :=
  n ← name;
  sp ← currentPos;
  ep ← currentPos;
  mret (mkRef kind n "" sp ep).

Definition parsePackage : P Package :=
  startPos ← currentPos;
  expect TokenPackage;;
  name ← expectString "package name";
  let pkg := zero_Package <| Package_StartPos := startPos |> <| Package_Name := name |> in
  pkg ← while (λ p, negb (at_end p) && negb (is_tok TokenNewline p) && negb (at_end p))
    (λ pkg, switch [
       on TokenVersion (next;; v ← expectString "version";
                        mret (Continue (pkg <| Package_Version := v |>)));
       on TokenLang (next;; v ← expectString "lang version";
                     mret (Continue (pkg <| Package_LangVersion := v |>)))
     ] (mret (Break pkg))) pkg;
  when (λ _, String.eqb (Package_LangVersion pkg) "1.0")
    (addError "IntentLang 1.0 is no longer supported"
       "run 'agentspec migrate --to-v2' to upgrade to IntentLang 2.0");;
  endPos ← currentPos;
  mret (pkg <| Package_EndPos := endPos |>).

(** [key := p.current().Literal; p.advance(); m[key] = value] over a block. *)
Definition parseMetadataBlock (m : gmap string string) : P (gmap string string) :=
  ifelse (λ p, negb (is_tok TokenLBrace p)) (mret m)
    (block (λ m,
       key ← lit;
       next;;
       val ← expectStringOrIdent "metadata value";
       mret (<[key := val]> m)) m).

Definition parseStringList : P (list string) :=
  ifelse (is_tok TokenLBracket)
    (next;;
     items ← while (λ p, negb (is_tok TokenRBracket p) && negb (at_end p))
       (λ items, ifelse (is_tok TokenComma) (next;; mret (Continue items))
                   (s ← expectString "list item"; mret (Continue (items ++ [s])))) [];
     expectToken TokenRBracket;;
     mret items)
    (s ← expectString "argument"; mret [s]).

(** [for !RBrace && !atEnd && !Newline { required | default "v" | break }],
    the modifiers of a variable or of a type field. *)
Definition parse_modifiers {A} (required : A → A) (default_ : string → A → A) (v : A) : P A :=
  while (λ p, negb (is_tok TokenRBrace p) && negb (at_end p) && negb (is_tok TokenNewline p))
    (λ v, switch [
       on_lit "required" (next;; mret (Continue (required v)));
       on_if (λ p, is_lit "default" p || is_tok TokenDefault p)
         (next;; d ← expectString "default value"; mret (Continue (default_ d v)))
     ] (mret (Break v))) v.

Definition parseVariablesBlock : P (list VariableDecl) :=
  block (λ vars,
    sp ← currentPos;
    name ← lit; next;;
    type ← lit; next;;
    v ← parse_modifiers (λ v, v <| VariableDecl_Required := true |>)
          (λ d v, v <| VariableDecl_Default := d |>)
          (zero_VariableDecl <| VariableDecl_StartPos := sp |>
             <| VariableDecl_Name := name |> <| VariableDecl_Type := type |>);
    ep ← currentPos;
    mret (vars ++ [v <| VariableDecl_EndPos := ep |>])) [].

Definition parsePrompt : P Prompt :=
  startPos ← currentPos;
  expect TokenPrompt;;
  name ← expectString "prompt name";
  registerName "Prompt" name startPos;;
  prompt ← block (λ prompt, switch [
    on TokenContent (next;; s ← expectString "prompt content";
                     mret (prompt <| Prompt_Content := s |>));
    on TokenVersion (next;; s ← expectString "version";
                     mret (prompt <| Prompt_Version := s |>));
    on TokenVariables (next;; vs ← parseVariablesBlock;
                       mret (prompt <| Prompt_Variables := vs |>));
    on TokenMetadata (next;; m ← parseMetadataBlock (Prompt_Metadata prompt);
                      mret (prompt <| Prompt_Metadata := m |>))
  ] (unexpected " in prompt block" "" prompt))
    (zero_Prompt <| Prompt_StartPos := startPos |> <| Prompt_Name := name |>);
  endPos ← currentPos;
  mret (prompt <| Prompt_EndPos := endPos |>).

Definition parseFieldBlock : P (list Field) :=
  block (λ fields,
    sp ← currentPos;
    name ← lit; next;;
    type ← lit; next;;
    required ← ifelse (is_tok TokenRequired) (next;; mret true) (mret false);
    ep ← currentPos;
    mret (fields ++ [mkField name type required sp ep])) [].

Definition parseExecution : P Execution :=
  sp ← currentPos;
  type ← lit; next;;
  value ← expectString "execution value";
  ep ← currentPos;
  mret (mkExecution type value [] sp ep).

Definition parse_tool_http (tc : ToolConfig) : P ToolConfig :=
  block (λ tc, switch [
    on TokenMethod (next;; s ← expectString "http method";
                    mret (tc <| ToolConfig_Method := s |>));
    on TokenURL (next;; s ← expectString "http url";
                 mret (tc <| ToolConfig_URL := s |>));
    on TokenHeaders (next;; m ← parseMetadataBlock ∅;
                     mret (tc <| ToolConfig_Headers := m |>));
    on TokenBodyTemplate (next;; s ← expectString "body template";
                          mret (tc <| ToolConfig_BodyTemplate := s |>));
    on TokenTimeout (next;; s ← expectString "timeout";
                     mret (tc <| ToolConfig_Timeout := s |>))
  ] (unexpected " in tool http block" "" tc)) tc.

Definition parse_tool_command (tc : ToolConfig) : P ToolConfig :=
  block (λ tc, switch [
    on TokenBinary (next;; s ← expectString "binary path";
                    mret (tc <| ToolConfig_Binary := s |>));
    on TokenArgs (next;; l ← parseStringList;
                  mret (tc <| ToolConfig_Args := l |>));
    on TokenTimeout (next;; s ← expectString "timeout";
                     mret (tc <| ToolConfig_Timeout := s |>));
    on TokenEnv (next;; m ← parseMetadataBlock ∅;
                 mret (tc <| ToolConfig_Env := m |>));
    on TokenSecrets (next;; m ← parseMetadataBlock ∅;
                     mret (tc <| ToolConfig_Secrets := m |>))
  ] (unexpected " in tool command block" "" tc)) tc.

Definition parse_tool_inline (tc : ToolConfig) : P ToolConfig :=
  block (λ tc, switch [
    on TokenLanguage (next;; s ← expectString "language";
                      mret (tc <| ToolConfig_Language := s |>));
    on TokenCode (next;; s ← expectString "code";
                  mret (tc <| ToolConfig_Code := s |>));
    on TokenTimeout (next;; s ← expectString "timeout";
                     mret (tc <| ToolConfig_Timeout := s |>));
    on TokenMemory (next;; s ← expectString "memory limit";
                    mret (tc <| ToolConfig_MemoryLimit := s |>))
  ] (unexpected " in tool inline block" "" tc)) tc.

(** Called after the 'tool' keyword has been consumed. *)
Definition parseToolConfig : P ToolConfig :=
  sp ← currentPos;
  let tc := zero_ToolConfig <| ToolConfig_StartPos := sp |> in
  tc ← switch [
    on TokenMCP (next;; s ← expectString "mcp server/tool reference";
                 mret (tc <| ToolConfig_Type := "mcp" |> <| ToolConfig_ServerTool := s |>));
    on TokenHTTP (next;; parse_tool_http (tc <| ToolConfig_Type := "http" |>));
    on TokenCommand (next;; parse_tool_command (tc <| ToolConfig_Type := "command" |>));
    on TokenInline (next;; parse_tool_inline (tc <| ToolConfig_Type := "inline" |>))
  ] (error_got "expected tool type (mcp, http, command, inline), got " "" "";; next;; mret tc);
  ep ← currentPos;
  mret (tc <| ToolConfig_EndPos := ep |>).

Definition parseSkill : P Skill :=
  startPos ← currentPos;
  expect TokenSkill;;
  name ← expectString "skill name";
  registerName "Skill" name startPos;;
  skill ← block (λ skill, switch [
    on TokenDescription (next;; s ← expectString "description";
                         mret (skill <| Skill_Description := s |>));
    on TokenInput (next;; fs ← parseFieldBlock; mret (skill <| Skill_Input := fs |>));
    on TokenOutput (next;; fs ← parseFieldBlock; mret (skill <| Skill_Output := fs |>));
    on TokenExecution (next;; e ← parseExecution;
                       mret (skill <| Skill_Execution := Some e |>));
    on TokenTool (next;; tc ← parseToolConfig;
                  mret (skill <| Skill_ToolConfig := Some tc |>));
    on TokenMetadata (next;; m ← parseMetadataBlock (Skill_Metadata skill);
                      mret (skill <| Skill_Metadata := m |>))
  ] (unexpected " in skill block" "" skill))
    (zero_Skill <| Skill_StartPos := startPos |> <| Skill_Name := name |>);
  endPos ← currentPos;
  mret (skill <| Skill_EndPos := endPos |>).

Definition parseMemoryConfig : P MemoryConfig :=
  sp ← currentPos;
  mc ← block (λ mc, switch [
    on TokenStrategy (next;; s ← expectString "memory strategy";
                      mret (mc <| MemoryConfig_Strategy := s |>));
    on_if (λ p, is_tok TokenIdent p && is_lit "max_messages" p)
      (next;; n ← expectInt "max_messages"; mret (mc <| MemoryConfig_MaxMessages := n |>))
  ] (unexpected " in memory block" "" mc))
    (zero_MemoryConfig <| MemoryConfig_StartPos := sp |>);
  ep ← currentPos;
  mret (mc <| MemoryConfig_EndPos := ep |>).

(** parseDelegate parses: to agent "name" when "condition" *)
Definition parseDelegate : P Delegate :=
  sp ← currentPos;
  when (is_tok TokenTo) next;;
  when (is_tok TokenAgent) next;;
  agent ← expectString "delegate agent name";
  condition ← ifelse (is_tok TokenWhen) (next;; expectString "delegate condition") (mret "");
  ep ← currentPos;
  mret (mkDelegate agent condition sp ep).

(** Called after the 'config' keyword has been consumed. *)
Definition parseConfigBlock : P (list ConfigParam) :=
  block (λ params,
    sp ← currentPos;
    name ← expectStringOrIdent "config param name";
    type ← expectStringOrIdent "config param type";
    param ← while (λ p, negb (at_end p) && negb (is_tok TokenNewline p) &&
                        negb (is_tok TokenRBrace p) && negb (is_tok TokenString p))
      (λ param, switch [
         on TokenRequired (next;; mret (Continue (param <| ConfigParam_Required := true |>)));
         on TokenSecret (next;; mret (Continue (param <| ConfigParam_Secret := true |>)));
         on TokenDefault
           (next;;
            d ← switch [
              on TokenString advance_lit;
              on TokenNumber advance_lit;
              on TokenTrue advance_lit;
              on TokenFalse advance_lit
            ] (expectStringOrIdent "default value");
            mret (Continue (param <| ConfigParam_HasDefault := true |>
                                  <| ConfigParam_Default := d |>)))
       ] (mret (Break param)))
      (zero_ConfigParam <| ConfigParam_StartPos := sp |> <| ConfigParam_Name := name |>
         <| ConfigParam_Type := type |>);
    skipNewlines;;
    param ← ifelse (is_tok TokenString)
      (s ← advance_lit; mret (param <| ConfigParam_Description := s |>)) (mret param);
    ep ← currentPos;
    mret (params ++ [param <| ConfigParam_EndPos := ep |>])) [].

(** isStopToken; collectExpressionUntil joins token literals up to a stop
    token, a dot being glued to both of its neighbours. *)
Definition isStopToken (stops : list TokenType) (p : Parser) : bool :=
  existsb (λ stop, is_tok stop p) stops.

(** [parts[len(parts)-1] += s] *)
Definition add_to_last (s : string) (parts : list string) : list string :=
  match last parts with
  | Some x => take (length parts - 1) parts ++ [x +:+ s]
  | None => parts
  end.

Definition collect_part (tok : Token) (parts : list string) : list string :=
  match Token_Type tok with
  | TokenString => parts ++ [qt "`" +:+ Token_Literal tok +:+ qt "`"]
  | TokenDot => add_to_last "." parts
  | _ =>
      match last parts with
      | Some x =>
          if HasSuffix x "." then add_to_last (Token_Literal tok) parts
          else parts ++ [Token_Literal tok]
      | None => parts ++ [Token_Literal tok]
      end
  end.

Definition collectExpressionUntil (stops : list TokenType) : P string :=
  parts ← while (λ p, negb (at_end p) && negb (isStopToken stops p))
    (λ parts, ifelse (is_tok TokenNewline) (next;; mret (Continue parts))
      (tok ← current; next;; mret (Continue (collect_part tok parts)))) [];
  mret (TrimSpace (Join parts " ")).

(** Called after the 'validate' keyword has been consumed. *)
Definition parseValidateBlock : P (list ValidationRule) :=
  braces (block_loop (λ rules,
    ifelse (λ p, negb (is_tok TokenRule p))
      (error_got "unexpected token " " in validate block" "expected 'rule'";;
       next;;
       mret (Continue rules))
      (next;;
       sp ← currentPos;
       name ← expectStringOrIdent "rule name";
       severity ← expectStringOrIdent "rule severity";
       retries ← ifelse (is_tok TokenMaxRetries) (next;; expectInt "max_retries") (mret 0);
       skipNewlines;;
       message ← ifelse (is_tok TokenString) advance_lit (mret "");
       skipNewlines;;
       expression ← ifelse (is_tok TokenWhen)
         (next;; collectExpressionUntil [TokenRule; TokenRBrace]) (mret "");
       ep ← currentPos;
       skipNewlines;;
       mret (Continue (rules ++
         [mkValidationRule name severity retries message expression sp ep])))) []).

(** The literal 0.8 of the code. *)
Definition default_threshold : float64 := float_of_ratio false 8 10.

Definition parse_eval_case (ec : EvalCase) : P EvalCase :=
  while (λ p, negb (is_tok TokenCase p) && negb (is_tok TokenRBrace p) && negb (at_end p))
    (λ ec,
      skipNewlines;;
      ifelse (λ p, is_tok TokenCase p || is_tok TokenRBrace p) (mret (Break ec))
        (ec ← switch [
           on TokenInput (next;; s ← expectString "eval input";
                          mret (ec <| EvalCase_Input := s |>));
           on_lit "expect" (next;; s ← expectString "expected output";
                            mret (ec <| EvalCase_Expected := s |>));
           on TokenScoring
             (next;;
              s ← expectStringOrIdent "scoring method";
              let ec := ec <| EvalCase_Scoring := s |> in
              ifelse (is_tok TokenThreshold)
                (next;; f ← expectFloat "threshold";
                 mret (ec <| EvalCase_Threshold := f |>)) (mret ec));
           on TokenTags (next;; l ← parseStringList; mret (ec <| EvalCase_Tags := l |>))
         ] (unexpected " in eval case" "expected 'input', 'expect', 'scoring', or 'tags'" ec);
         skipNewlines;;
         mret (Continue ec))) ec.

(** Called after the 'eval' keyword has been consumed. *)
Definition parseEvalBlock : P (list EvalCase) :=
  braces (block_loop (λ cases,
    ifelse (λ p, negb (is_tok TokenCase p))
      (error_got "unexpected token " " in eval block" "expected 'case'";;
       next;;
       mret (Continue cases))
      (next;;
       sp ← currentPos;
       name ← expectStringOrIdent "eval case name";
       skipNewlines;;
       ec ← parse_eval_case (zero_EvalCase <| EvalCase_StartPos := sp |>
              <| EvalCase_Threshold := default_threshold |> <| EvalCase_Name := name |>);
       ep ← currentPos;
       skipNewlines;;
       mret (Continue (cases ++ [ec <| EvalCase_EndPos := ep |>])))) []).

(** * On-input blocks *)

(** parseUseSkillStmt parses: use skill <name> [with { key: value, ... }] *)
Definition parseUseSkillStmt : P OnInputStmt :=
  sp ← currentPos;
  expect TokenUse;;
  when (is_tok TokenSkill) next;;
  name ← expectStringOrIdent "skill name";
  params ← ifelse (is_tok TokenWith)
    (next;;
     block (λ params,
       key ← expectStringOrIdent "param key";
       expectToken TokenColon;;
       value ← collectExpressionUntil [TokenComma; TokenRBrace; TokenNewline];
       when (is_tok TokenComma) next;;
       mret (<[key := value]> params)) ∅)
    (mret ∅);
  ep ← currentPos;
  mret (UseSkillStmt name params sp ep).

(** parseDelegateToStmt parses: delegate to <agent_name> *)
Definition parseDelegateToStmt : P OnInputStmt :=
  sp ← currentPos;
  expect TokenDelegate;;
  when (is_tok TokenTo) next;;
  name ← expectStringOrIdent "agent name";
  ep ← currentPos;
  mret (DelegateToStmt name sp ep).

(** parseRespondStmt parses: respond <expression> *)
Definition parseRespondStmt : P OnInputStmt :=
  sp ← currentPos;
  expect TokenRespond;;
  expression ← ifelse (is_tok TokenString) advance_lit
    (collectExpressionUntil [TokenNewline; TokenRBrace]);
  ep ← currentPos;
  mret (RespondStmt expression sp ep).

(** [p.expectToken(LBrace); p.skipNewlines(); p.parseOnInputStatements();
    p.expectToken(RBrace)], [body] standing for the recursive call. *)
Definition parse_body (body : P (list OnInputStmt)) : P (list OnInputStmt) := braces body.

(** The else if / else chain of an if block. *)
Definition parse_else_chain (body : P (list OnInputStmt))
    : P (list ElseIfClause * list OnInputStmt) :=
  while (is_tok TokenElse)
    (λ '(elseIfs, elseBody),
      next;;
      ifelse (is_tok TokenIf)
        (next;;
         sp ← currentPos;
         condition ← collectExpressionUntil [TokenLBrace];
         b ← parse_body body;
         ep ← currentPos;
         skipNewlines;;
         mret (Continue (elseIfs ++ [mkElseIfClause condition b sp ep], elseBody)))
        (b ← parse_body body;
         mret (Break (elseIfs, b)))) ([], []).

(** parseIfBlock parses: if <expression> { ... } [else if ...]* [else ...] *)
Definition parseIfBlock (body : P (list OnInputStmt)) : P OnInputStmt :=
  sp ← currentPos;
  expect TokenIf;;
  condition ← collectExpressionUntil [TokenLBrace];
  b ← parse_body body;
  skipNewlines;;
  chain ← parse_else_chain body;
  ep ← currentPos;
  mret (IfBlock condition b chain.1 chain.2 sp ep).

(** parseForEachBlock parses: for each <variable> in <expression> { ... } *)
Definition parseForEachBlock (body : P (list OnInputStmt)) : P OnInputStmt :=
  sp ← currentPos;
  expect TokenFor;;
  when (is_tok TokenEach) next;;
  variable ← expectStringOrIdent "loop variable";
  ifelse (is_tok TokenIn) next (addError "expected 'in' in for each loop" "");;
  collection ← collectExpressionUntil [TokenLBrace];
  b ← parse_body body;
  ep ← currentPos;
  mret (ForEachBlock variable collection b sp ep).

(** One round of the loop of parseOnInputStatements. *)
Definition parse_on_input_stmt (body : P (list OnInputStmt)) (stmts : list OnInputStmt)
    : P (list OnInputStmt) :=
  switch [
    on TokenUse (s ← parseUseSkillStmt; mret (stmts ++ [s]));
    on TokenDelegate (s ← parseDelegateToStmt; mret (stmts ++ [s]));
    on TokenRespond (s ← parseRespondStmt; mret (stmts ++ [s]));
    on TokenIf (s ← parseIfBlock body; mret (stmts ++ [s]));
    on TokenFor (s ← parseForEachBlock body; mret (stmts ++ [s]))
  ] (unexpected " in on input block" "expected 'use', 'delegate', 'respond', 'if', or 'for'"
       stmts).

(** parseOnInputStatements; [n] bounds the depth of nested blocks. *)
Fixpoint parseOnInputStatements (n : nat) : P (list OnInputStmt) :=
  match n with
  | O => λ _, None
  | S n => items (parse_on_input_stmt (parseOnInputStatements n)) []
  end.

(** Called after the 'on' keyword has been consumed. *)
Definition parseOnInputBlock : P OnInputBlock :=
  sp ← currentPos;
  ifelse (is_tok TokenInput) next (addError "expected 'input' after 'on'" "");;
  stmts ← parse_body (λ p, parseOnInputStatements (S (remaining p)) p);
  ep ← currentPos;
  mret (mkOnInputBlock stmts sp ep).

(** * Agents *)

(** The case 'uses' of parseAgent. *)
Definition parse_uses (agent : Agent) : P Agent :=
  switch [
    on TokenPrompt (next;; r ← parse_ref "prompt" (expectString "prompt reference");
                    mret (agent <| Agent_Prompt := Some r |>));
    on TokenSkill (next;; r ← parse_ref "skill" (expectString "skill reference");
                   mret (agent <| Agent_Skills := Agent_Skills agent ++ [r] |>));
    on TokenGuardrail (next;; s ← expectString "guardrail reference";
                       mret (agent <| Agent_GuardrailRefs := Agent_GuardrailRefs agent ++ [s] |>))
  ] (addError "expected 'prompt', 'skill', or 'guardrail' after 'uses'" "";; mret agent).

(** The case 'budget' of parseAgent. *)
Definition parse_budget (agent : Agent) : P Agent :=
  switch [
    on TokenDaily (next;; f ← expectFloat "daily budget";
                   mret (agent <| Agent_BudgetDaily := f |>));
    on TokenMonthly (next;; f ← expectFloat "monthly budget";
                     mret (agent <| Agent_BudgetMonthly := f |>))
  ] (addError "expected 'daily' or 'monthly' after 'budget'" "";; mret agent).

(** The case 'connects' of parseAgent and of parseMCPClient. *)
Definition parse_connects (noun : TokenType) (kind context : string) : P Ref :=
  when (is_tok TokenTo) next;;
  when (is_tok noun) next;;
  parse_ref kind (expectString context).

(** One item of an agent block. *)
Definition parse_agent_item (agent : Agent) : P Agent :=
  switch [
    on TokenUses (next;; parse_uses agent);
    on TokenModel (next;; s ← expectString "model"; mret (agent <| Agent_Model := s |>));
    on TokenModels (next;; l ← parseStringList; mret (agent <| Agent_Models := l |>));
    on TokenBudgetKw (next;; parse_budget agent);
    on TokenConnects (next;; r ← parse_connects TokenClient "client" "client reference";
                      mret (agent <| Agent_Client := Some r |>));
    on TokenStrategy (next;; s ← expectString "strategy";
                      mret (agent <| Agent_Strategy := s |>));
    on TokenMaxTurns (next;; n ← expectInt "max_turns";
                      mret (agent <| Agent_MaxTurns := n |>));
    on TokenTimeout (next;; s ← expectString "timeout";
                     mret (agent <| Agent_Timeout := s |>));
    on TokenTokenBudget (next;; n ← expectInt "token_budget";
                         mret (agent <| Agent_TokenBudget := n |>));
    on TokenTemperature (next;; f ← expectFloat "temperature";
                         mret (agent <| Agent_Temperature := f |>
                                     <| Agent_HasTemp := true |>));
    on TokenStream (next;; b ← expectBool "stream";
                    mret (agent <| Agent_Stream := Some b |>));
    on TokenOnError (next;; s ← expectString "on_error";
                     mret (agent <| Agent_OnError := s |>));
    on TokenMaxRetries (next;; n ← expectInt "max_retries";
                        mret (agent <| Agent_MaxRetries := n |>));
    on TokenFallback (next;; s ← expectString "fallback agent";
                      mret (agent <| Agent_Fallback := s |>));
    on TokenMemory (next;; m ← parseMemoryConfig;
                    mret (agent <| Agent_MemoryCfg := Some m |>));
    on TokenDelegate (next;; d ← parseDelegate;
                      mret (agent <| Agent_Delegates := Agent_Delegates agent ++ [d] |>));
    on TokenMetadata (next;; m ← parseMetadataBlock (Agent_Metadata agent);
                      mret (agent <| Agent_Metadata := m |>));
    on TokenPrompt (next;; r ← parse_ref "prompt" (expectStringOrIdent "prompt reference");
                    mret (agent <| Agent_Prompt := Some r |>));
    on TokenConfig (next;; l ← parseConfigBlock;
                    mret (agent <| Agent_ConfigParams := l |>));
    on TokenValidate (next;; l ← parseValidateBlock;
                      mret (agent <| Agent_ValidationRules := l |>));
    on TokenEval (next;; l ← parseEvalBlock;
                  mret (agent <| Agent_EvalCases := l |>));
    on TokenOn (next;; b ← parseOnInputBlock;
                mret (agent <| Agent_OnInput := Some b |>));
    on TokenLoop (next;; s ← expectString "loop strategy";
                  mret (agent <| Agent_Strategy := s |>))
  ] (unexpected " in agent block" "" agent).

Definition parseAgent : P Agent :=
  startPos ← currentPos;
  expect TokenAgent;;
  name ← expectString "agent name";
  registerName "Agent" name startPos;;
  agent ← block parse_agent_item
    (zero_Agent <| Agent_StartPos := startPos |> <| Agent_Name := name |>);
  endPos ← currentPos;
  mret (agent <| Agent_EndPos := endPos |>).

(** * The other resources *)

Definition parseBinding : P Binding :=
  startPos ← currentPos;
  expect TokenBinding;;
  name ← expectString "binding name";
  registerName "Binding" name startPos;;
  adapter ← ifelse (is_tok TokenAdapter) (next;; expectString "adapter name") (mret "");
  binding ← block (λ binding, switch [
    on TokenDefault
      (next;;
       d ← switch [
         on TokenTrue (next;; mret true);
         on TokenFalse (next;; mret false)
       ] (mret true);
       mret (binding <| Binding_Default := d |>));
    on TokenAdapter (next;; s ← expectString "adapter name";
                     mret (binding <| Binding_Adapter := s |>))
  ] (key ← lit; next;;
     value ← lit; next;;
     mret (binding <| Binding_Config := <[key := value]> (Binding_Config binding) |>)))
    (zero_Binding <| Binding_StartPos := startPos |> <| Binding_Name := name |>
       <| Binding_Adapter := adapter |>);
  endPos ← currentPos;
  mret (binding <| Binding_EndPos := endPos |>).

(** [env(KEY)] or [env KEY], and the same for 'store'. *)
Definition parse_secret_key (context : string) : P string :=
  ifelse (is_tok TokenLParen)
    (next;; k ← expectStringOrIdent context; expectToken TokenRParen;; mret k)
    (expectStringOrIdent context).

Definition parseSecret : P Secret :=
  startPos ← currentPos;
  expect TokenSecret;;
  name ← expectString "secret name";
  registerName "Secret" name startPos;;
  secret ← block (λ secret, switch [
    on TokenEnv (next;; k ← parse_secret_key "env key";
                 mret (secret <| Secret_Source := "env" |> <| Secret_Key := k |>));
    on TokenStore (next;; k ← parse_secret_key "store path";
                   mret (secret <| Secret_Source := "store" |> <| Secret_Key := k |>))
  ] (unexpected " in secret block" "expected 'env' or 'store'" secret))
    (zero_Secret <| Secret_StartPos := startPos |> <| Secret_Name := name |>);
  endPos ← currentPos;
  mret (secret <| Secret_EndPos := endPos |>).

Definition parseEnvironment : P Environment :=
  startPos ← currentPos;
  expect TokenEnvironment;;
  name ← expectString "environment name";
  registerName "Environment" name startPos;;
  overrides ← block (λ overrides,
    resourceKind ← lit; next;;
    resourceName ← expectString "resource name";
    block (λ overrides,
      attr ← lit; next;;
      val ← expectStringOrIdent "override value";
      ep ← currentPos;
      mret (overrides ++
        [mkOverride (resourceKind +:+ "/" +:+ resourceName) attr val startPos ep]))
      overrides) [];
  endPos ← currentPos;
  mret (mkEnvironment name overrides startPos endPos).

(** The literals up to the end of the line or of the block. *)
Definition parse_rule_parts : P (list string) :=
  while (λ p, negb (is_tok TokenNewline p) && negb (is_tok TokenRBrace p) && negb (at_end p))
    (λ parts, s ← lit; next;; mret (Continue (parts ++ [s]))) [].

Definition parsePolicy : P Policy :=
  startPos ← currentPos;
  expect TokenPolicy;;
  name ← expectString "policy name";
  registerName "Policy" name startPos;;
  rules ← braces (block_loop (λ rules,
    sp ← currentPos;
    action ← switch [
      on TokenDeny (next;; mret (Some "deny"));
      on TokenAllow (next;; mret (Some "allow"));
      on TokenRequire (next;; mret (Some "require"))
    ] (unexpected " in policy block" "expected 'deny', 'allow', or 'require'" None);
    match action with
    | None => mret (Continue rules)
    | Some action =>
        parts ← parse_rule_parts;
        ep ← currentPos;
        skipNewlines;;
        mret (Continue (rules ++
          [mkRule action (default "" (head parts)) (Join (tail parts) " ") sp ep]))
    end) []);
  endPos ← currentPos;
  mret (mkPolicy name rules startPos endPos).

Definition parsePlugin : P Plugin :=
  startPos ← currentPos;
  expect TokenPlugin;;
  name ← expectString "plugin name";
  version ← ifelse (is_tok TokenVersion) (next;; expectString "plugin version") (mret "");
  endPos ← currentPos;
  mret (mkPlugin name version startPos endPos).

Definition parseMCPServer : P MCPServer :=
  startPos ← currentPos;
  expect TokenServer;;
  name ← expectString "server name";
  registerName "MCPServer" name startPos;;
  server ← block (λ server, switch [
    on TokenTransport (next;; s ← expectStringOrIdent "transport type";
                       mret (server <| MCPServer_Transport := s |>));
    on TokenCommand (next;; s ← expectString "command";
                     mret (server <| MCPServer_Command := s |>));
    on TokenArgs (next;; l ← parseStringList; mret (server <| MCPServer_Args := l |>));
    on TokenURL (next;; s ← expectString "url"; mret (server <| MCPServer_URL := s |>));
    on TokenAuth (next;; r ← parse_ref "secret" (expectString "auth secret reference");
                  mret (server <| MCPServer_Auth := Some r |>));
    on TokenExposes (next;;
                     when (is_tok TokenSkill) next;;
                     r ← parse_ref "skill" (expectString "skill reference");
                     mret (server <| MCPServer_Skills := MCPServer_Skills server ++ [r] |>));
    on TokenEnv (next;; m ← parseMetadataBlock (MCPServer_Env server);
                 mret (server <| MCPServer_Env := m |>));
    on TokenMetadata (next;; m ← parseMetadataBlock (MCPServer_Metadata server);
                      mret (server <| MCPServer_Metadata := m |>))
  ] (unexpected " in server block" "" server))
    (zero_MCPServer <| MCPServer_StartPos := startPos |> <| MCPServer_Name := name |>);
  endPos ← currentPos;
  mret (server <| MCPServer_EndPos := endPos |>).

Definition parseMCPClient : P MCPClient :=
  startPos ← currentPos;
  expect TokenClient;;
  name ← expectString "client name";
  registerName "MCPClient" name startPos;;
  client ← block (λ client, switch [
    on TokenConnects (next;; r ← parse_connects TokenServer "server" "server reference";
                      mret (client <| MCPClient_Servers := MCPClient_Servers client ++ [r] |>));
    on TokenMetadata (next;; m ← parseMetadataBlock (MCPClient_Metadata client);
                      mret (client <| MCPClient_Metadata := m |>))
  ] (unexpected " in client block" "" client))
    (zero_MCPClient <| MCPClient_StartPos := startPos |> <| MCPClient_Name := name |>);
  endPos ← currentPos;
  mret (client <| MCPClient_EndPos := endPos |>).

Definition parseImportAsStmt : P Import :=
  startPos ← currentPos;
  expect TokenImport;;
  path ← expectString "import path";
  version ← ifelse (is_tok TokenVersion) (next;; expectString "import version") (mret "");
  alias ← ifelse (is_tok TokenAs) (next;; expectStringOrIdent "import alias") (mret "");
  endPos ← currentPos;
  mret (mkImport path version "" alias startPos endPos).

Definition parseResourceLimits : P ResourceLimits :=
  sp ← currentPos;
  rl ← block (λ rl, switch [
    on_lit "cpu" (next;; s ← expectString "cpu"; mret (rl <| ResourceLimits_CPU := s |>));
    on TokenMemory (next;; s ← expectString "memory";
                    mret (rl <| ResourceLimits_Memory := s |>))
  ] (unexpected " in resources block" "" rl))
    (zero_ResourceLimits <| ResourceLimits_StartPos := sp |>);
  ep ← currentPos;
  mret (rl <| ResourceLimits_EndPos := ep |>).

Definition parseHealthConfig : P HealthConfig :=
  sp ← currentPos;
  hc ← block (λ hc, switch [
    on_lit "path" (next;; s ← expectString "health path";
                   mret (hc <| HealthConfig_Path := s |>));
    on_lit "interval" (next;; s ← expectString "health interval";
                       mret (hc <| HealthConfig_Interval := s |>));
    on TokenTimeout (next;; s ← expectString "health timeout";
                     mret (hc <| HealthConfig_Timeout := s |>))
  ] (unexpected " in health block" "" hc))
    (zero_HealthConfig <| HealthConfig_StartPos := sp |>);
  ep ← currentPos;
  mret (hc <| HealthConfig_EndPos := ep |>).

Definition parseAutoscaleConfig : P AutoscaleConfig :=
  sp ← currentPos;
  ac ← block (λ ac, switch [
    on_lit "min" (next;; n ← expectInt "min replicas";
                  mret (ac <| AutoscaleConfig_MinReplicas := n |>));
    on_lit "max" (next;; n ← expectInt "max replicas";
                  mret (ac <| AutoscaleConfig_MaxReplicas := n |>));
    on_lit "metric" (next;; s ← expectString "autoscale metric";
                     mret (ac <| AutoscaleConfig_Metric := s |>));
    on TokenTarget (next;; n ← expectInt "autoscale target";
                    mret (ac <| AutoscaleConfig_Target := n |>))
  ] (unexpected " in autoscale block" "" ac))
    (zero_AutoscaleConfig <| AutoscaleConfig_StartPos := sp |>);
  ep ← currentPos;
  mret (ac <| AutoscaleConfig_EndPos := ep |>).

Definition parseDeployTarget : P DeployTarget :=
  startPos ← currentPos;
  expect TokenDeploy;;
  name ← expectString "deploy name";
  registerName "DeployTarget" name startPos;;
  target ← ifelse (is_tok TokenTarget) (next;; expectString "deploy target type")
    (addError "expected 'target' keyword in deploy block" "";; mret "");
  dt ← block (λ dt, switch [
    on TokenPort (next;; n ← expectInt "port"; mret (dt <| DeployTarget_Port := n |>));
    on TokenDefault (next;; b ← expectBool "default";
                     mret (dt <| DeployTarget_Default := b |>));
    on TokenNamespace (next;; s ← expectString "namespace";
                       mret (dt <| DeployTarget_Namespace := s |>));
    on TokenReplicas (next;; n ← expectInt "replicas";
                      mret (dt <| DeployTarget_Replicas := n |>));
    on TokenImage (next;; s ← expectString "image"; mret (dt <| DeployTarget_Image := s |>));
    on TokenResources (next;; r ← parseResourceLimits;
                       mret (dt <| DeployTarget_Resources := Some r |>));
    on TokenHealth (next;; h ← parseHealthConfig;
                    mret (dt <| DeployTarget_Health := Some h |>));
    on TokenAutoscale (next;; a ← parseAutoscaleConfig;
                       mret (dt <| DeployTarget_Autoscale := Some a |>));
    on TokenEnv (next;; m ← parseMetadataBlock (DeployTarget_Env dt);
                 mret (dt <| DeployTarget_Env := m |>));
    on TokenSecrets (next;; m ← parseMetadataBlock (DeployTarget_Secrets dt);
                     mret (dt <| DeployTarget_Secrets := m |>))
  ] (unexpected " in deploy block" "" dt))
    (zero_DeployTarget <| DeployTarget_StartPos := startPos |> <| DeployTarget_Name := name |>
       <| DeployTarget_Target := target |>);
  endPos ← currentPos;
  mret (dt <| DeployTarget_EndPos := endPos |>).

Definition parseTypeDef : P TypeDef :=
  startPos ← currentPos;
  expect TokenTypeKw;;
  name ← expectString "type name";
  registerName "Type" name startPos;;
  let td := zero_TypeDef <| TypeDef_StartPos := startPos |> <| TypeDef_Name := name |> in
  td ← switch [
    on TokenEnum (next;; l ← parseStringList; mret (td <| TypeDef_EnumVals := l |>));
    on TokenList (next;; s ← lit; next;; mret (td <| TypeDef_ListOf := s |>));
    on TokenLBrace
      (fields ← block (λ fields,
         sp ← currentPos;
         name ← lit; next;;
         type ← lit; next;;
         field ← parse_modifiers (λ f, f <| TypeField_Required := true |>)
           (λ d f, f <| TypeField_Default := d |>)
           (zero_TypeField <| TypeField_StartPos := sp |> <| TypeField_Name := name |>
              <| TypeField_Type := type |>);
         ep ← currentPos;
         mret (fields ++ [field <| TypeField_EndPos := ep |>])) [];
       mret (td <| TypeDef_Fields := fields |>))
  ] (addError "expected '{', 'enum', or 'list' after type name" "";; mret td);
  endPos ← currentPos;
  mret (td <| TypeDef_EndPos := endPos |>).

Definition parsePipelineStep : P PipelineStep :=
  sp ← currentPos;
  name ← expectString "step name";
  step ← block (λ step, switch [
    on TokenAgent (next;; s ← expectString "step agent";
                   mret (step <| PipelineStep_Agent := s |>));
    on TokenInput (next;; s ← expectString "step input";
                   mret (step <| PipelineStep_Input := s |>));
    on TokenOutput (next;; s ← expectString "step output";
                    mret (step <| PipelineStep_Output := s |>));
    on TokenDependsOn (next;; l ← parseStringList;
                       mret (step <| PipelineStep_DependsOn := l |>));
    on TokenParallel (next;; b ← expectBool "parallel";
                      mret (step <| PipelineStep_Parallel := b |>));
    on TokenWhen (next;; s ← expectString "step condition";
                  mret (step <| PipelineStep_When := s |>))
  ] (unexpected " in step block" "" step))
    (zero_PipelineStep <| PipelineStep_StartPos := sp |> <| PipelineStep_Name := name |>);
  ep ← currentPos;
  mret (step <| PipelineStep_EndPos := ep |>).

Definition parsePipeline : P Pipeline :=
  startPos ← currentPos;
  expect TokenPipeline;;
  name ← expectString "pipeline name";
  registerName "Pipeline" name startPos;;
  steps ← block (λ steps,
    ifelse (is_tok TokenStep)
      (next;; step ← parsePipelineStep; mret (steps ++ [step]))
      (unexpected " in pipeline block, expected 'step'" "" steps)) [];
  endPos ← currentPos;
  mret (mkPipeline name steps startPos endPos).

Definition parseUser : P User :=
  startPos ← currentPos;
  expect TokenUser;;
  name ← expectString "user name";
  registerName "User" name startPos;;
  user ← block (λ user, switch [
    on TokenKey
      (next;;
       k ← ifelse (is_tok TokenSecret)
         (next;;
          expectToken TokenLParen;;
          k ← expectString "secret key reference";
          expectToken TokenRParen;;
          mret k)
         (expectString "key reference");
       mret (user <| User_KeyRef := k |>));
    on TokenAgents (next;; l ← parseStringList; mret (user <| User_Agents := l |>));
    on TokenRole (next;; s ← expectString "role"; mret (user <| User_Role := s |>))
  ] (unexpected " in user block" "expected 'key', 'agents', or 'role'" user))
    (zero_User <| User_StartPos := startPos |> <| User_Name := name |>);
  endPos ← currentPos;
  mret (user <| User_EndPos := endPos |>).

Definition parseGuardrail : P Guardrail :=
  startPos ← currentPos;
  expect TokenGuardrail;;
  name ← expectString "guardrail name";
  registerName "Guardrail" name startPos;;
  guard ← block (λ guard, switch [
    on TokenMode (next;; s ← expectString "mode"; mret (guard <| Guardrail_Mode := s |>));
    on TokenKeywords (next;; l ← parseStringList;
                      mret (guard <| Guardrail_Keywords := l |>));
    on TokenPatterns (next;; l ← parseStringList;
                      mret (guard <| Guardrail_Patterns := l |>));
    on TokenFallback (next;; s ← expectString "fallback message";
                      mret (guard <| Guardrail_FallbackMsg := s |>))
  ] (unexpected " in guardrail block"
       "expected 'mode', 'keywords', 'patterns', or 'fallback'" guard))
    (zero_Guardrail <| Guardrail_StartPos := startPos |> <| Guardrail_Name := name |>);
  endPos ← currentPos;
  mret (guard <| Guardrail_EndPos := endPos |>).

Definition parseState : P StateConfig :=
  startPos ← currentPos;
  expect TokenState;;
  name ← ifelse (is_tok TokenString) advance_lit (mret "");
  sc ← block (λ sc,
    ifelse (is_tok TokenTypeKw)
      (next;; s ← expectString "backend type"; mret (sc <| StateConfig_Type := s |>))
      (key ← lit; next;;
       val ← expectString (key +:+ " value");
       mret (sc <| StateConfig_Properties := <[key := val]> (StateConfig_Properties sc) |>)))
    (zero_StateConfig <| StateConfig_StartPos := startPos |> <| StateConfig_Name := name |>);
  endPos ← currentPos;
  mret (sc <| StateConfig_EndPos := endPos |>).

(** * Files *)

(** [return p.parseX()] as a statement. *)
Definition stmt {A} (wrap : A → Statement) (m : P A) : P (option Statement) :=
  a ← m; mret (Some (wrap a)).

Definition parse_declaration : P (option Statement) :=
  switch [
    on TokenPrompt (stmt SPrompt parsePrompt);
    on TokenSkill (stmt SSkill parseSkill);
    on TokenAgent (stmt SAgent parseAgent);
    on TokenBinding (stmt SBinding parseBinding);
    on TokenDeploy (stmt SDeployTarget parseDeployTarget);
    on TokenSecret (stmt SSecret parseSecret);
    on TokenEnvironment (stmt SEnvironment parseEnvironment);
    on TokenPolicy (stmt SPolicy parsePolicy);
    on TokenPlugin (stmt SPlugin parsePlugin);
    on TokenServer (stmt SMCPServer parseMCPServer);
    on TokenClient (stmt SMCPClient parseMCPClient);
    on TokenPipeline (stmt SPipeline parsePipeline);
    on TokenTypeKw (stmt STypeDef parseTypeDef);
    on TokenUser (stmt SUser parseUser);
    on TokenGuardrail (stmt SGuardrail parseGuardrail);
    on TokenImport (stmt SImport parseImportAsStmt);
    on TokenState (stmt SStateConfig parseState)
  ] (unexpected "" "expected a resource declaration (agent, prompt, skill, etc.)" None).

Definition parseStatement : P (option Statement) :=
  skipNewlines;;
  ifelse at_end (mret None) parse_declaration.

(** One round of the loop over the top-level statements, and the loop. *)
Definition parse_statement_item (stmts : list Statement) : P (ctl (list Statement)) :=
  skipNewlines;;
  ifelse at_end (mret (Break stmts))
    (s ← parseStatement;
     mret (Continue (stmts ++ option_list s))).

Definition parse_statements : P (list Statement) :=
  while (λ p, negb (at_end p)) parse_statement_item [].

Definition parseFile : P File :=
  path ← reads_state p_file;
  startPos ← currentPos;
  skipNewlines;;
  pkg ← ifelse (is_tok TokenPackage) (pkg ← parsePackage; mret (Some pkg))
    (addError "expected 'package' declaration at start of file" "";; mret None);
  stmts ← parse_statements;
  endPos ← currentPos;
  mret (mkFile path pkg stmts startPos endPos).

Definition new_parser (tokens : list Token) (file : string) : Parser :=
  mkParser tokens 0 file [] ∅.

(** Parse parses the given source and returns an AST File and the errors. *)
Definition Parse (input file : string) : option (option File * list ParseError) :=
  r ← Tokenize (NewLexer input file);
  match r with
  | Err err => Some (None, [mkParseError file 1 1 err ""])
  | Ok tokens =>
      '(f, p) ← parseFile (new_parser tokens file);
      Some (Some f, p_errors p)
  end.
End parser.
