(* ===== verification/ParserFacts.v ===== *)
(** Total correctness of the parse methods: every method returns from every
    state, keeps the token list, never moves back, only appends errors, and
    reports them in source order; the methods that a loop relies on to make
    progress consume a token unless the input is at its end.

    [Runs N b m] is that statement for [m], from the states with fewer than
    [N] tokens left; [b] tells which results promise progress. The lemmas
    [runs_*] build it along the syntax of a method, the tactic [runs] applies
    them, and the database [runs] holds the methods proved so far. *)
From S2P Require Import Prelude GoStd Ast Token ParserCore Parser.
Open Scope Z_scope.

(** * What a parse method may do to the state *)

Definition token_at_index (p : Parser) (k : nat) : Token :=
  default (mkToken TokenEOF "" (p_file p) 0 0) (p_tokens p !! k).

(** [e] is reported at the [k]-th token. *)
Definition reported_at (p : Parser) (k : nat) (e : ParseError) : Prop :=
  tok_pos (token_at_index p k) =
    mkPos (ParseError_File e) (ParseError_Line e) (ParseError_Column e).

(** The errors [es] are reported at tokens of increasing index in [lo..hi]. *)
Definition reported (p : Parser) (lo hi : nat) (es : list ParseError) : Prop :=
  ∃ ks, Forall2 (reported_at p) ks es ∧ StronglySorted le ks ∧
        Forall (λ k, (lo ≤ k ≤ hi)%nat) ks.

Record ext (p p' : Parser) : Prop := {
  ext_tokens : p_tokens p' = p_tokens p;
  ext_file : p_file p' = p_file p;
  ext_pos : (p_pos p ≤ p_pos p')%nat;
  ext_errors : ∃ es, p_errors p' = p_errors p ++ es ∧ reported p (p_pos p) (p_pos p') es;
  ext_names : ∀ kind, names_of kind p ⊆ names_of kind p';
}.

Lemma reported_nil p lo hi : reported p lo hi [].
Proof. exists []. repeat constructor. Qed.

Lemma StronglySorted_app_le ks1 ks2 (m : nat) :
  StronglySorted le ks1 → StronglySorted le ks2 →
  Forall (λ k, (k ≤ m)%nat) ks1 → Forall (λ k, (m ≤ k)%nat) ks2 →
  StronglySorted le (ks1 ++ ks2).
Proof.
  induction 1 as [|k ks S IH F]; [done|]. intros S2 F1 F2. simpl.
  apply Forall_cons in F1 as [Hk F1]. constructor; [auto|].
  apply Forall_app. split; [done|]. eapply Forall_impl; [done|]. simpl. lia.
Qed.

Lemma ext_refl p : ext p p.
Proof. split; try done. exists []. rewrite app_nil_r. split; [done | apply reported_nil]. Qed.

(** A step that neither moves nor reports. *)
Lemma ext_quiet p p' :
  p_tokens p' = p_tokens p → p_file p' = p_file p → (p_pos p ≤ p_pos p')%nat →
  p_errors p' = p_errors p → (∀ kind, names_of kind p ⊆ names_of kind p') → ext p p'.
Proof.
  intros ? ? ? E ?. split; try done. exists [].
  rewrite app_nil_r. split; [done | apply reported_nil].
Qed.

Lemma ext_trans p1 p2 p3 : ext p1 p2 → ext p2 p3 → ext p1 p3.
Proof.
  intros [T1 F1 L1 (es1 & E1 & ks1 & A1 & S1 & B1) M1]
    [T2 F2 L2 (es2 & E2 & ks2 & A2 & S2 & B2) M2].
  split; [congruence | congruence | lia | | set_solver].
  exists (es1 ++ es2). split; [by rewrite E2, E1, app_assoc|].
  exists (ks1 ++ ks2). split_and!.
  - apply Forall2_app; [done|]. eapply Forall2_impl; [done|]. intros k e.
    unfold reported_at, token_at_index. by rewrite T1, F1.
  - apply (StronglySorted_app_le _ _ (p_pos p2)); [done..| |];
      (eapply Forall_impl; [done|]); simpl; lia.
  - apply Forall_app; split; (eapply Forall_impl; [done|]); simpl; lia.
Qed.

#[export] Hint Resolve ext_refl : go_core.

Lemma ext_remaining p p' : ext p p' → (remaining p' ≤ remaining p)%nat.
Proof. intros [T _ L _ _]. unfold remaining. rewrite T. lia. Qed.

(** Moving on from a state that is not at its end uses up a token. *)
Lemma at_end_false_pos p : at_end p = false → (p_pos p < length (p_tokens p))%nat.
Proof.
  unfold at_end, is_tok, current_tok. destruct (p_tokens p !! p_pos p) eqn:E; [|done].
  intros _. by apply lookup_lt_Some in E.
Qed.

Lemma ext_moved p p' :
  ext p p' → at_end p = false → (p_pos p < p_pos p')%nat → (remaining p' < remaining p)%nat.
Proof.
  intros [T _ _ _ _] E L. apply at_end_false_pos in E. unfold remaining. rewrite T. lia.
Qed.

Lemma ext_not_moved p p' : ext p p' → p_pos p' = p_pos p → at_end p' = at_end p.
Proof.
  intros [T F _ _ _] L. unfold at_end, is_tok, current_tok. by rewrite T, L, F.
Qed.

(** * Runs *)

Definition Runs (N : nat) {A} (b : A → bool) (m : P A) : Prop :=
  ∀ p, (remaining p < N)%nat →
  ∃ a p', m p = Some (a, p') ∧ ext p p' ∧
          (at_end p = false → b a = true → (remaining p' < remaining p)%nat).

(** [m] returns; [m] returns and consumes a token. *)
Abbreviation Safe N m := (Runs N (λ _, false) m).
Abbreviation Eats N m := (Runs N (λ _, true) m).

Lemma runs_weaken N {A} (b : A → bool) m : Eats N m → Runs N b m.
Proof. intros H p Hp. destruct (H p Hp) as (a & p' & E & X & Q). eauto 10. Qed.

Lemma runs_safe N {A} (b : A → bool) m : Runs N b m → Safe N m.
Proof. intros H p Hp. destruct (H p Hp) as (a & p' & E & X & Q). exists a, p'. split_and!; done. Qed.

Lemma runs_ret N {A} (b : A → bool) a : b a = false → Runs N b (mret a).
Proof. intros B p _. exists a, p. split_and!; [done | apply ext_refl | congruence]. Qed.

Lemma runs_reads N {A} (f : Parser → A) : Safe N (reads_state f).
Proof. intros p _. exists (f p), p. split_and!; [done | apply ext_refl | done]. Qed.

Lemma runs_bind_eats N {A B} (b : B → bool) (m : P A) (k : A → P B) :
  Eats N m → (∀ a, Safe N (k a)) → Runs N b (m ≫= k).
Proof.
  intros Hm Hk p Hp. destruct (Hm p Hp) as (a & p1 & E1 & X1 & Q1).
  pose proof (ext_remaining _ _ X1).
  destruct (Hk a p1) as (c & p2 & E2 & X2 & _); [lia|].
  pose proof (ext_remaining _ _ X2).
  exists c, p2. split_and!.
  - unfold mbind, P_bind. by rewrite E1.
  - by eapply ext_trans.
  - intros E _. specialize (Q1 E eq_refl). lia.
Qed.

Lemma runs_bind_tail N {A B} (b : B → bool) (m : P A) (k : A → P B) :
  Safe N m → (∀ a, Runs N b (k a)) → Runs N b (m ≫= k).
Proof.
  intros Hm Hk p Hp. destruct (Hm p Hp) as (a & p1 & E1 & X1 & _).
  pose proof (ext_remaining _ _ X1).
  destruct (Hk a p1) as (c & p2 & E2 & X2 & Q2); [lia|].
  pose proof (ext_remaining _ _ X2). pose proof (ext_trans _ _ _ X1 X2) as X.
  exists c, p2. split_and!; [by unfold mbind, P_bind; rewrite E1 | done |].
  intros E B'. destruct (decide (p_pos p1 = p_pos p)) as [L|L].
  - rewrite <- (ext_not_moved _ _ X1 L) in E. specialize (Q2 E B'). lia.
  - pose proof (ext_pos _ _ X1). pose proof (ext_moved _ _ X1 E ltac:(lia)). lia.
Qed.

Lemma runs_ifelse N {A} (b : A → bool) c m1 m2 :
  Runs N b m1 → Runs N b m2 → Runs N b (ifelse c m1 m2).
Proof. intros H1 H2 p Hp. unfold ifelse. destruct (c p); auto. Qed.

Lemma runs_when N c m : Safe N m → Safe N (when c m).
Proof. intros H. unfold when. intros p Hp. destruct (c p); [by apply H|]. by apply (runs_ret N). Qed.

Lemma runs_switch_nil N {A} (b : A → bool) d : Runs N b d → Runs N b (switch [] d).
Proof. done. Qed.

Lemma runs_switch_cons N {A} (b : A → bool) c m arms d :
  Runs N b m → Runs N b (switch arms d) → Runs N b (switch ((c, m) :: arms) d).
Proof. intros H1 H2 p Hp. simpl. destruct (c p); auto. Qed.

(** A loop returns when it stops at the end of the input and every round that
    continues consumes a token: the bound of [while] is then never reached. *)
Lemma runs_while N {A} cond (body : A → P (ctl A)) acc :
  (∀ p, cond p = true → at_end p = false) →
  (∀ acc, Runs N continues (body acc)) →
  Safe N (while cond body acc).
Proof.
  intros Hc Hb. unfold while.
  assert (∀ n acc p, (remaining p < n)%nat → (remaining p < N)%nat →
    ∃ a p', while_fuel n cond body acc p = Some (a, p') ∧ ext p p') as W.
  { clear acc. induction n as [|n IH]; intros acc p Hn Hp; [lia|]. cbn [while_fuel].
    destruct (cond p) eqn:C; [|eauto using ext_refl].
    destruct (Hb acc p Hp) as (r & p1 & -> & X & Q).
    pose proof (ext_remaining _ _ X). destruct r as [acc'|acc']; [|eauto].
    specialize (Q (Hc p C) eq_refl).
    destruct (IH acc' p1) as (a & p2 & -> & X2); [lia | lia |]. eauto using ext_trans. }
  intros p Hp. destruct (W (S (remaining p)) acc p) as (a & p' & E & X); [lia | lia |].
  exists a, p'. done.
Qed.

(** * The primitives *)

Lemma ext_advance p :
  ext p (if (p_pos p <? length (p_tokens p))%nat then p <| p_pos := S (p_pos p) |> else p).
Proof.
  destruct (_ <? _)%nat; [|apply ext_refl]. apply ext_quiet; simpl; [done | done | lia | done | done].
Qed.

Lemma runs_advance N b : Runs N b advance.
Proof.
  apply runs_weaken. intros p _. do 2 eexists. split_and!; [done | apply ext_advance |].
  intros E _. apply ext_moved; [apply ext_advance | done |].
  apply at_end_false_pos in E. apply Nat.ltb_lt in E. rewrite E. simpl. lia.
Qed.

Lemma runs_addError N msg hint : Safe N (addError msg hint).
Proof.
  intros p _. do 2 eexists. split_and!; [done | | done].
  split; simpl; try done. eexists. split; [done|].
  exists [p_pos p]. split_and!; [|by repeat constructor|by repeat constructor].
  repeat constructor.
Qed.

Lemma runs_error_got N before after hint : Safe N (error_got before after hint).
Proof. intros p Hp. exact (runs_addError N _ hint p Hp). Qed.

Create HintDb runs discriminated.

(** One step of the proof of a [Runs] goal, along the syntax of the method. *)
Ltac runs_step :=
  lazymatch goal with
  | |- ∀ _, _ => intro
  | |- Runs _ _ (mret _) => apply runs_ret; reflexivity
  | |- Runs _ _ (_ ≫= _) =>
      first [ apply runs_bind_eats; [solve [auto 2 with runs nocore] |]
            | apply runs_bind_tail ]
  | |- Runs _ _ (ifelse _ _ _) => apply runs_ifelse
  | |- Runs _ _ (when _ _) => apply runs_when
  | |- Runs _ _ (switch [] _) => apply runs_switch_nil
  | |- Runs _ _ (switch (_ :: _) _) => apply runs_switch_cons
  | |- Runs _ _ (match ?x with _ => _ end) => destruct x
  | |- Runs _ _ (let _ := _ in _) => cbv zeta
  | |- Runs _ _ _ => solve [auto 2 with runs nocore]
  end.

Ltac runs := repeat runs_step.

#[export] Hint Resolve runs_reads runs_advance runs_addError runs_error_got : runs.

Lemma runs_skip N : Safe N skip.
Proof. by apply runs_ret. Qed.
#[export] Hint Resolve runs_skip : runs.

Lemma runs_current N : Safe N current.
Proof. apply runs_reads. Qed.

Lemma runs_currentPos N : Safe N currentPos.
Proof. apply runs_reads. Qed.

Lemma runs_lit N : Safe N lit.
Proof. apply runs_reads. Qed.
#[export] Hint Resolve runs_current runs_currentPos runs_lit : runs.

Lemma runs_next N b : Runs N b next.
Proof. apply runs_weaken. unfold next. runs. Qed.

Lemma runs_advance_lit N b : Runs N b advance_lit.
Proof. apply runs_weaken. unfold advance_lit. runs. Qed.
#[export] Hint Resolve runs_next runs_advance_lit : runs.

Lemma runs_skipNewlines N : Safe N skipNewlines.
Proof.
  apply runs_while.
  - intros p. unfold at_end, is_tok. intros E. apply token_eqb_eq in E. by rewrite E.
  - runs.
Qed.
#[export] Hint Resolve runs_skipNewlines : runs.

Lemma runs_expect N b t : Runs N b (expect t).
Proof. apply runs_weaken. unfold expect. runs. Qed.

Lemma runs_expectToken N t : Safe N (expectToken t).
Proof. unfold expectToken. runs. Qed.
#[export] Hint Resolve runs_expect runs_expectToken : runs.

(** [if p.isAtEnd() { return "" }; return p.advance().Literal] *)
Lemma runs_advance_unless_end N {A} (b : A → bool) (m : P A) (a : A) :
  Eats N m → Runs N b (ifelse (λ p, negb (at_end p)) m (mret a)).
Proof.
  intros H. apply runs_weaken. intros p Hp. unfold ifelse. destruct (at_end p) eqn:E; simpl.
  - exists a, p. split_and!; [done | apply ext_refl | done].
  - destruct (H p Hp) as (a' & p' & -> & X & Q). eauto 10.
Qed.

Lemma runs_expectString N b context : Runs N b (expectString context).
Proof.
  apply runs_weaken. unfold expectString. apply runs_ifelse; [runs|].
  apply runs_bind_tail; [runs|]. intros. apply runs_advance_unless_end. runs.
Qed.

Lemma runs_expectStringOrIdent N b context : Runs N b (expectStringOrIdent context).
Proof.
  apply runs_weaken. unfold expectStringOrIdent. apply runs_ifelse; [runs|].
  apply runs_bind_tail; [runs|]. intros. apply runs_advance_unless_end. runs.
Qed.

Lemma runs_next_unless_end N {A} (b : A → bool) (a : A) :
  Runs N b (when (λ p, negb (at_end p)) next;; mret a).
Proof.
  apply runs_weaken. apply runs_bind_eats; [|runs].
  apply (runs_advance_unless_end N _ next tt). runs.
Qed.

Lemma runs_expectBool N b context : Runs N b (expectBool context).
Proof.
  apply runs_weaken. unfold expectBool.
  do 2 (apply runs_switch_cons; [runs|]). apply runs_switch_nil.
  apply runs_bind_tail; [runs|]. intros. apply runs_next_unless_end.
Qed.

Section numbers.
Context `{GoRuntime}.

Lemma runs_expect_number N {A} b (conv : string → option A) zero what context :
  Runs N b (expect_number conv zero what context).
Proof.
  apply runs_weaken. unfold expect_number. apply runs_ifelse; [runs|].
  apply runs_bind_tail; [runs|]. intros. apply runs_next_unless_end.
Qed.

Lemma runs_expectInt N b context : Runs N b (expectInt context).
Proof. apply runs_expect_number. Qed.

Lemma runs_expectFloat N b context : Runs N b (expectFloat context).
Proof. apply runs_expect_number. Qed.

Lemma runs_registerName N kind name sp : Safe N (registerName kind name sp).
Proof.
  unfold registerName. runs. intros p _. do 2 eexists. split_and!; [done | | done].
  apply ext_quiet; simpl; try done. intros k. unfold names_of at 1 2. simpl.
  destruct (decide (k = kind)) as [->|Hk];
    [rewrite lookup_insert_eq | rewrite lookup_insert_ne by done]; set_solver.
Qed.
End numbers.

#[export] Hint Resolve runs_expectString runs_expectStringOrIdent runs_expectBool
  runs_expectInt runs_expectFloat runs_registerName : runs.

(** * Blocks *)

Lemma in_block_not_end p : in_block p = true → at_end p = false.
Proof. unfold in_block. destruct (at_end p), (is_tok TokenRBrace p); done. Qed.

Lemma runs_block_loop N {A} (body : A → P (ctl A)) acc :
  (∀ acc, Runs N continues (body acc)) → Safe N (block_loop body acc).
Proof.
  intros Hb. apply runs_while; [apply in_block_not_end|]. intros a. unfold block_body. runs.
Qed.

Lemma runs_items N {A} (body : A → P A) acc :
  (∀ acc, Eats N (body acc)) → Safe N (items body acc).
Proof.
  intros Hb. apply runs_block_loop. intros a. apply runs_weaken.
  apply runs_bind_eats; [apply Hb | runs].
Qed.

Lemma runs_braces N {A} (inner : P A) : Safe N inner → Safe N (braces inner).
Proof. intros. unfold braces. runs. Qed.

Lemma runs_block N {A} (body : A → P A) acc :
  (∀ acc, Eats N (body acc)) → Safe N (block body acc).
Proof. intros. by apply runs_braces, runs_items. Qed.

Lemma runs_unexpected N {A} b where_ hint (acc : A) : Runs N b (unexpected where_ hint acc).
Proof. apply runs_weaken. unfold unexpected. runs. Qed.
#[export] Hint Resolve runs_unexpected : runs.

Lemma is_tok_not_end t p : is_tok t p = true → t ≠ TokenEOF → at_end p = false.
Proof.
  unfold at_end, is_tok. intros E N. apply token_eqb_eq in E. rewrite E.
  destruct (token_eqb t TokenEOF) eqn:Q; [|done]. by apply token_eqb_eq in Q.
Qed.

(** The condition of a loop is false at the end of the input. *)
Ltac not_end :=
  let p := fresh "p" in
  let E := fresh "E" in
  intros p E;
  first
    [ by eapply is_tok_not_end
    | revert E; unfold at_end; destruct (is_tok TokenEOF p) eqn:?; [|done];
      repeat match goal with |- context [is_tok ?t p] => destruct (is_tok t p) end;
      done ].

Ltac runs_step ::=
  lazymatch goal with
  | |- ∀ _, _ => intro
  | |- Runs _ _ (mret _) => apply runs_ret; reflexivity
  | |- Runs _ _ (switch _ _ ≫= _) =>
      first [ apply runs_bind_eats; [solve [repeat runs_step] |] | apply runs_bind_tail ]
  | |- Runs _ _ (_ ≫= _) =>
      first [ apply runs_bind_eats; [solve [auto 2 with runs nocore] |]
            | apply runs_bind_tail ]
  | |- Runs _ _ (ifelse _ _ _) => apply runs_ifelse
  | |- Runs _ _ (when _ _) => apply runs_when
  | |- Runs _ _ (switch [] _) => apply runs_switch_nil
  | |- Runs _ _ (switch (_ :: _) _) => apply runs_switch_cons
  | |- Runs _ _ (block _ _) => apply runs_block
  | |- Runs _ _ (braces _) => apply runs_braces
  | |- Runs _ _ (block_loop _ _) => apply runs_block_loop
  | |- Runs _ _ (items _ _) => apply runs_items
  | |- Runs _ _ (while _ _ _) => apply runs_while; [solve [not_end] |]
  | |- Runs _ _ (match ?x with _ => _ end) => destruct x
  | |- Runs _ _ (let _ := _ in _) => cbv zeta
  | |- Runs _ _ _ => solve [auto 2 with runs nocore]
  end.

(** * The methods *)

Section methods.
Context `{GoRuntime}.

Lemma runs_parse_ref N b kind m : (∀ b', Runs N b' m) → Runs N b (parse_ref kind m).
Proof. intros Hm. apply runs_weaken. unfold parse_ref. runs. Qed.

Lemma runs_parsePackage N b : Runs N b parsePackage.
Proof. apply runs_weaken. unfold parsePackage. runs. Qed.

Lemma runs_parseMetadataBlock N m : Safe N (parseMetadataBlock m).
Proof. unfold parseMetadataBlock. runs. Qed.

Lemma runs_parseStringList N : Safe N parseStringList.
Proof. unfold parseStringList. runs. Qed.

Lemma runs_parse_modifiers N {A} r d (v : A) : Safe N (parse_modifiers r d v).
Proof. unfold parse_modifiers. runs. Qed.
#[local] Hint Resolve runs_parsePackage runs_parseMetadataBlock runs_parseStringList
  runs_parse_modifiers : runs.

Lemma runs_parseVariablesBlock N : Safe N parseVariablesBlock.
Proof. unfold parseVariablesBlock. runs. Qed.
#[local] Hint Resolve runs_parseVariablesBlock : runs.

Lemma runs_parsePrompt N b : Runs N b parsePrompt.
Proof. apply runs_weaken. unfold parsePrompt. runs. Qed.
#[local] Hint Resolve runs_parsePrompt : runs.

Lemma runs_parseFieldBlock N : Safe N parseFieldBlock.
Proof. unfold parseFieldBlock. runs. Qed.
#[local] Hint Resolve runs_parseFieldBlock : runs.

Lemma runs_parseExecution N b : Runs N b parseExecution.
Proof. apply runs_weaken. unfold parseExecution. runs. Qed.
#[local] Hint Resolve runs_parseExecution : runs.

Lemma runs_parse_tool_http N tc : Safe N (parse_tool_http tc).
Proof. unfold parse_tool_http. runs. Qed.
#[local] Hint Resolve runs_parse_tool_http : runs.

Lemma runs_parse_tool_command N tc : Safe N (parse_tool_command tc).
Proof. unfold parse_tool_command. runs. Qed.
#[local] Hint Resolve runs_parse_tool_command : runs.

Lemma runs_parse_tool_inline N tc : Safe N (parse_tool_inline tc).
Proof. unfold parse_tool_inline. runs. Qed.
#[local] Hint Resolve runs_parse_tool_inline : runs.

Lemma runs_parseToolConfig N b : Runs N b parseToolConfig.
Proof.
  apply runs_weaken. unfold parseToolConfig. runs.
Qed.
#[local] Hint Resolve runs_parseToolConfig : runs.

Lemma runs_parseSkill N b : Runs N b parseSkill.
Proof. apply runs_weaken. unfold parseSkill. runs. Qed.
#[local] Hint Resolve runs_parseSkill : runs.

Lemma runs_parseMemoryConfig N : Safe N parseMemoryConfig.
Proof. unfold parseMemoryConfig. runs. Qed.
#[local] Hint Resolve runs_parseMemoryConfig : runs.

Lemma runs_parseDelegate N b : Runs N b parseDelegate.
Proof. apply runs_weaken. unfold parseDelegate. runs. Qed.
#[local] Hint Resolve runs_parseDelegate : runs.

Lemma runs_parseConfigBlock N : Safe N parseConfigBlock.
Proof. unfold parseConfigBlock. runs. Qed.
#[local] Hint Resolve runs_parseConfigBlock : runs.

Lemma runs_collectExpressionUntil N stops : Safe N (collectExpressionUntil stops).
Proof. unfold collectExpressionUntil. runs. Qed.
#[local] Hint Resolve runs_collectExpressionUntil : runs.

Lemma runs_parseValidateBlock N : Safe N parseValidateBlock.
Proof. unfold parseValidateBlock. runs. Qed.
#[local] Hint Resolve runs_parseValidateBlock : runs.

Lemma runs_parse_eval_case N ec : Safe N (parse_eval_case ec).
Proof. unfold parse_eval_case. runs. Qed.
#[local] Hint Resolve runs_parse_eval_case : runs.

Lemma runs_parseEvalBlock N : Safe N parseEvalBlock.
Proof. unfold parseEvalBlock. runs. Qed.
#[local] Hint Resolve runs_parseEvalBlock : runs.

Lemma runs_parseUseSkillStmt N b : Runs N b parseUseSkillStmt.
Proof. apply runs_weaken. unfold parseUseSkillStmt. runs. Qed.
#[local] Hint Resolve runs_parseUseSkillStmt : runs.

Lemma runs_parseDelegateToStmt N b : Runs N b parseDelegateToStmt.
Proof. apply runs_weaken. unfold parseDelegateToStmt. runs. Qed.
#[local] Hint Resolve runs_parseDelegateToStmt : runs.

Lemma runs_parseRespondStmt N b : Runs N b parseRespondStmt.
Proof. apply runs_weaken. unfold parseRespondStmt. runs. Qed.
#[local] Hint Resolve runs_parseRespondStmt : runs.

(** ** Nested blocks

    The recursive call [body] of an if or for-each block is only known to run
    from the states with fewer than [N] tokens left; the keyword that opens
    the block has then been consumed. *)

Lemma runs_opened N {A B} (m : P A) (k : A → P B) p :
  (∀ N, Eats N m) → (∀ a, Safe N (k a)) →
  (remaining p < S N)%nat → at_end p = false →
  ∃ a p', (m ≫= k) p = Some (a, p') ∧ ext p p' ∧ (remaining p' < remaining p)%nat.
Proof.
  intros Hm Hk Hp E. destruct (Hm (S N) p Hp) as (a & p1 & E1 & X1 & Q1).
  specialize (Q1 E eq_refl). destruct (Hk a p1) as (c & p2 & E2 & X2 & _); [lia|].
  pose proof (ext_remaining _ _ X2). exists c, p2. unfold mbind, P_bind. rewrite E1.
  split_and!; [done | by eapply ext_trans | lia].
Qed.

Lemma runs_parse_else_chain N body : Safe N body → Safe N (parse_else_chain body).
Proof. intros. unfold parse_else_chain, parse_body. runs. Qed.

(** A statement that a keyword other than EOF selects, after that keyword. *)
Ltac runs_nested :=
  intros Hb p Hp E;
  match goal with
  | |- ∃ _ _, (currentPos ≫= ?k) p = _ ∧ _ =>
      change ((currentPos ≫= k) p) with (k (tok_pos (current_tok p)) p)
  end;
  cbv beta;
  match goal with Hr : (remaining _ < S ?n)%nat |- _ => apply (runs_opened n) end;
  [intros; runs | intros; runs | done | done].

Lemma runs_parseIfBlock N body :
  Safe N body → ∀ p, (remaining p < S N)%nat → at_end p = false →
  ∃ a p', parseIfBlock body p = Some (a, p') ∧ ext p p' ∧ (remaining p' < remaining p)%nat.
Proof.
  pose proof runs_parse_else_chain. unfold parseIfBlock, parse_body. runs_nested.
Qed.

Lemma runs_parseForEachBlock N body :
  Safe N body → ∀ p, (remaining p < S N)%nat → at_end p = false →
  ∃ a p', parseForEachBlock body p = Some (a, p') ∧ ext p p' ∧ (remaining p' < remaining p)%nat.
Proof. unfold parseForEachBlock, parse_body. runs_nested. Qed.

(** An arm whose method is only known to run at its own token. *)
Lemma runs_switch_on N {A} t (m : P A) arms d :
  t ≠ TokenEOF →
  (∀ p, (remaining p < N)%nat → at_end p = false →
    ∃ a p', m p = Some (a, p') ∧ ext p p' ∧ (remaining p' < remaining p)%nat) →
  Eats N (switch arms d) → Eats N (switch (on t m :: arms) d).
Proof.
  intros T H1 H2 p Hp. simpl. destruct (is_tok t p) eqn:E; [|by apply H2].
  destruct (H1 p Hp (is_tok_not_end _ _ E T)) as (a & p' & ? & ? & ?). eauto 10.
Qed.

Lemma run_bind_ret {A B} (m : P A) (f : A → B) p :
  (∃ a p', m p = Some (a, p') ∧ ext p p' ∧ (remaining p' < remaining p)%nat) →
  ∃ b p', (a ← m; mret (f a)) p = Some (b, p') ∧ ext p p' ∧ (remaining p' < remaining p)%nat.
Proof. intros (a & p' & E & H'). unfold mbind, P_bind. rewrite E. eexists _, _. by split. Qed.

Lemma runs_parse_on_input_stmt N body stmts :
  Safe N body → Eats (S N) (parse_on_input_stmt body stmts).
Proof.
  intros Hb. unfold parse_on_input_stmt.
  do 3 (apply runs_switch_cons; [runs|]).
  apply runs_switch_on; [done | intros; by apply run_bind_ret, (runs_parseIfBlock N) |].
  apply runs_switch_on; [done | intros; by apply run_bind_ret, (runs_parseForEachBlock N) |].
  runs.
Qed.

Lemma runs_parseOnInputStatements N : Safe N (parseOnInputStatements N).
Proof.
  induction N as [|N IH]; [intros p Hp; lia|].
  apply runs_items. intros. by apply runs_parse_on_input_stmt.
Qed.

Lemma runs_on_input_body N : Safe N (λ p, parseOnInputStatements (S (remaining p)) p).
Proof. intros p Hp. apply runs_parseOnInputStatements. lia. Qed.
#[local] Hint Resolve runs_on_input_body : runs.

Lemma runs_parseOnInputBlock N : Safe N parseOnInputBlock.
Proof. unfold parseOnInputBlock, parse_body. runs. Qed.
#[local] Hint Resolve runs_parseOnInputBlock : runs.

Lemma runs_parse_ref_string N b kind context : Runs N b (parse_ref kind (expectString context)).
Proof. apply runs_parse_ref. runs. Qed.

Lemma runs_parse_ref_name N b kind context :
  Runs N b (parse_ref kind (expectStringOrIdent context)).
Proof. apply runs_parse_ref. runs. Qed.
#[local] Hint Resolve runs_parse_ref_string runs_parse_ref_name : runs.

Lemma runs_parse_uses N agent : Safe N (parse_uses agent).
Proof. unfold parse_uses. runs. Qed.
#[local] Hint Resolve runs_parse_uses : runs.

Lemma runs_parse_budget N agent : Safe N (parse_budget agent).
Proof. unfold parse_budget. runs. Qed.
#[local] Hint Resolve runs_parse_budget : runs.

Lemma runs_parse_connects N b noun kind context : Runs N b (parse_connects noun kind context).
Proof. apply runs_weaken. unfold parse_connects. runs. Qed.
#[local] Hint Resolve runs_parse_connects : runs.

Lemma runs_parse_agent_item N b agent : Runs N b (parse_agent_item agent).
Proof. apply runs_weaken. unfold parse_agent_item. runs. Qed.
#[local] Hint Resolve runs_parse_agent_item : runs.

Lemma runs_parse_secret_key N b context : Runs N b (parse_secret_key context).
Proof. apply runs_weaken. unfold parse_secret_key. runs. Qed.
#[local] Hint Resolve runs_parse_secret_key : runs.

Lemma runs_parse_rule_parts N : Safe N parse_rule_parts.
Proof. unfold parse_rule_parts. runs. Qed.
#[local] Hint Resolve runs_parse_rule_parts : runs.

Lemma runs_parseAgent N b : Runs N b parseAgent.
Proof. apply runs_weaken. unfold parseAgent. runs. Qed.
#[local] Hint Resolve runs_parseAgent : runs.

Lemma runs_parseBinding N b : Runs N b parseBinding.
Proof. apply runs_weaken. unfold parseBinding. runs. Qed.
#[local] Hint Resolve runs_parseBinding : runs.

Lemma runs_parseSecret N b : Runs N b parseSecret.
Proof. apply runs_weaken. unfold parseSecret. runs. Qed.
#[local] Hint Resolve runs_parseSecret : runs.

Lemma runs_parseEnvironment N b : Runs N b parseEnvironment.
Proof. apply runs_weaken. unfold parseEnvironment. runs. Qed.
#[local] Hint Resolve runs_parseEnvironment : runs.

Lemma runs_parsePolicy N b : Runs N b parsePolicy.
Proof. apply runs_weaken. unfold parsePolicy. runs. Qed.
#[local] Hint Resolve runs_parsePolicy : runs.

Lemma runs_parsePlugin N b : Runs N b parsePlugin.
Proof. apply runs_weaken. unfold parsePlugin. runs. Qed.
#[local] Hint Resolve runs_parsePlugin : runs.

Lemma runs_parseMCPServer N b : Runs N b parseMCPServer.
Proof. apply runs_weaken. unfold parseMCPServer. runs. Qed.
#[local] Hint Resolve runs_parseMCPServer : runs.

Lemma runs_parseMCPClient N b : Runs N b parseMCPClient.
Proof. apply runs_weaken. unfold parseMCPClient. runs. Qed.
#[local] Hint Resolve runs_parseMCPClient : runs.

Lemma runs_parseImportAsStmt N b : Runs N b parseImportAsStmt.
Proof. apply runs_weaken. unfold parseImportAsStmt. runs. Qed.
#[local] Hint Resolve runs_parseImportAsStmt : runs.

Lemma runs_parseResourceLimits N : Safe N parseResourceLimits.
Proof. unfold parseResourceLimits. runs. Qed.
#[local] Hint Resolve runs_parseResourceLimits : runs.

Lemma runs_parseHealthConfig N : Safe N parseHealthConfig.
Proof. unfold parseHealthConfig. runs. Qed.
#[local] Hint Resolve runs_parseHealthConfig : runs.

Lemma runs_parseAutoscaleConfig N : Safe N parseAutoscaleConfig.
Proof. unfold parseAutoscaleConfig. runs. Qed.
#[local] Hint Resolve runs_parseAutoscaleConfig : runs.

Lemma runs_parseDeployTarget N b : Runs N b parseDeployTarget.
Proof. apply runs_weaken. unfold parseDeployTarget. runs. Qed.
#[local] Hint Resolve runs_parseDeployTarget : runs.

Lemma runs_parseTypeDef N b : Runs N b parseTypeDef.
Proof. apply runs_weaken. unfold parseTypeDef. runs. Qed.
#[local] Hint Resolve runs_parseTypeDef : runs.

Lemma runs_parsePipelineStep N b : Runs N b parsePipelineStep.
Proof. apply runs_weaken. unfold parsePipelineStep. runs. Qed.
#[local] Hint Resolve runs_parsePipelineStep : runs.

Lemma runs_parsePipeline N b : Runs N b parsePipeline.
Proof. apply runs_weaken. unfold parsePipeline. runs. Qed.
#[local] Hint Resolve runs_parsePipeline : runs.

Lemma runs_parseUser N b : Runs N b parseUser.
Proof. apply runs_weaken. unfold parseUser. runs. Qed.
#[local] Hint Resolve runs_parseUser : runs.

Lemma runs_parseGuardrail N b : Runs N b parseGuardrail.
Proof. apply runs_weaken. unfold parseGuardrail. runs. Qed.
#[local] Hint Resolve runs_parseGuardrail : runs.

Lemma runs_parseState N b : Runs N b parseState.
Proof. apply runs_weaken. unfold parseState. runs. Qed.
#[local] Hint Resolve runs_parseState : runs.

Lemma runs_stmt N b {A} (wrap : A → Statement) m : (∀ b, Runs N b m) → Runs N b (stmt wrap m).
Proof. intros. apply runs_weaken. unfold stmt. runs. Qed.

Lemma runs_parse_declaration N b : Runs N b parse_declaration.
Proof.
  apply runs_weaken. unfold parse_declaration.
  repeat (apply runs_switch_cons; [apply runs_stmt; intros; runs|]). runs.
Qed.
#[local] Hint Resolve runs_parse_declaration : runs.

Lemma runs_ifelse_end N {A} (b : A → bool) m1 m2 :
  Safe N m1 → Runs N b m2 → Runs N b (ifelse at_end m1 m2).
Proof.
  intros H1 H2 p Hp. unfold ifelse. destruct (at_end p) eqn:E.
  - destruct (H1 p Hp) as (a & p' & ? & ? & _). exists a, p'. split_and!; congruence.
  - destruct (H2 p Hp) as (a & p' & ? & ? & ?). eauto 10.
Qed.

Lemma runs_parseStatement N b : Runs N b parseStatement.
Proof.
  apply runs_weaken. unfold parseStatement. apply runs_bind_tail; [runs|]. intros.
  apply runs_ifelse_end; runs.
Qed.
#[local] Hint Resolve runs_parseStatement : runs.

Lemma runs_parse_statement_item N stmts : Runs N continues (parse_statement_item stmts).
Proof. unfold parse_statement_item. runs. Qed.

Lemma runs_parse_statements N : Safe N parse_statements.
Proof.
  unfold parse_statements. apply runs_while.
  - intros p. by destruct (at_end p).
  - intros stmts. apply runs_parse_statement_item.
Qed.
#[local] Hint Resolve runs_parse_statements : runs.

Lemma runs_parseFile N : Safe N parseFile.
Proof. unfold parseFile. runs. Qed.
End methods.

#[export] Hint Resolve
  runs_parsePackage runs_parseMetadataBlock runs_parseStringList runs_parse_modifiers
  runs_parseVariablesBlock runs_parsePrompt runs_parseFieldBlock runs_parseExecution
  runs_parse_tool_http runs_parse_tool_command runs_parse_tool_inline runs_parseToolConfig
  runs_parseSkill runs_parseMemoryConfig runs_parseDelegate runs_parseConfigBlock
  runs_collectExpressionUntil runs_parseValidateBlock runs_parse_eval_case runs_parseEvalBlock
  runs_parseUseSkillStmt runs_parseDelegateToStmt runs_parseRespondStmt runs_on_input_body
  runs_parseOnInputBlock runs_parse_ref_string runs_parse_ref_name runs_parse_uses
  runs_parse_budget runs_parse_connects runs_parse_agent_item runs_parse_secret_key
  runs_parse_rule_parts runs_parseAgent runs_parseBinding runs_parseSecret
  runs_parseEnvironment runs_parsePolicy runs_parsePlugin runs_parseMCPServer
  runs_parseMCPClient runs_parseImportAsStmt runs_parseResourceLimits runs_parseHealthConfig
  runs_parseAutoscaleConfig runs_parseDeployTarget runs_parseTypeDef runs_parsePipelineStep
  runs_parsePipeline runs_parseUser runs_parseGuardrail runs_parseState runs_parse_declaration
  runs_parseStatement runs_parse_statements runs_parseFile runs_parse_statement_item : runs.
