(* ===== verification/ParserSound.v ===== *)
(** What a successful parse guarantees: [Parse] always returns, its errors are
    in source order, and a file accepted without an error has a package, no
    language version 1.0, and no two resources of one kind with one name. *)
From S2P Require Import Prelude GoStd Ast Token Lexer LexerFacts ParserCore Parser ParserFacts.
Open Scope Z_scope.

(** * Inversion *)

Lemma bind_inv {A B} (m : P A) (k : A → P B) p b p2 :
  (m ≫= k) p = Some (b, p2) → ∃ a p1, m p = Some (a, p1) ∧ k a p1 = Some (b, p2).
Proof. unfold mbind, P_bind. destruct (m p) as [[a p1]|]; [eauto | done]. Qed.

Lemma while_inv {A} (I : A → Parser → Prop) cond body acc p acc' p' :
  (∀ acc p c p', I acc p → body acc p = Some (c, p') →
    I match c with Continue a => a | Break a => a end p') →
  I acc p → while cond body acc p = Some (acc', p') → I acc' p'.
Proof.
  intros Hb. unfold while. generalize (S (remaining p)). intros n. revert acc p.
  induction n as [|n IH]; intros acc p HI E; [done|]. cbn [while_fuel] in E.
  destruct (cond p); [|congruence].
  destruct (body acc p) as [[[a|a] p1]|] eqn:B; [| |done].
  - apply (IH a p1); [|done]. exact (Hb acc p _ p1 HI B).
  - injection E as <- <-. exact (Hb acc p _ p1 HI B).
Qed.

Lemma safe_ext {A} (m : P A) p a p' : (∀ N, Safe N m) → m p = Some (a, p') → ext p p'.
Proof.
  intros Hm E. destruct (Hm (S (remaining p)) p) as (a' & p1 & E' & X & _); [lia|].
  rewrite E' in E. by injection E as <- <-.
Qed.

Lemma ext_no_errors p p' : ext p p' → p_errors p' = [] → p_errors p = [].
Proof.
  intros [_ _ _ (es & E & _) _] N. rewrite E in N. by apply app_eq_nil in N as [-> _].
Qed.

Lemma addError_errors msg hint p a p' : addError msg hint p = Some (a, p') → p_errors p' ≠ [].
Proof. intros [= <- <-] E. by destruct (app_cons_not_nil (p_errors p) [] _ (eq_sym E)). Qed.

(** * The value a method returns *)

Definition Returns {A} (Q : A → Prop) (m : P A) : Prop :=
  ∀ p a p', m p = Some (a, p') → Q a.

Lemma returns_ret {A} (Q : A → Prop) a : Q a → Returns Q (mret a).
Proof. by intros HQ p ? p' [= <- <-]. Qed.

Lemma returns_bind {A B} (Q : B → Prop) (m : P A) (k : A → P B) :
  (∀ a, Returns Q (k a)) → Returns Q (m ≫= k).
Proof. intros Hk p b p' (a & p1 & E1 & E2)%bind_inv. by eapply Hk. Qed.

Lemma returns_bind_with {A B} (R : A → Prop) (Q : B → Prop) (m : P A) (k : A → P B) :
  Returns R m → (∀ a, R a → Returns Q (k a)) → Returns Q (m ≫= k).
Proof. intros Hm Hk p b p' (a & p1 & E1 & E2)%bind_inv. eapply Hk; [by eapply Hm | done]. Qed.

Lemma returns_ifelse {A} (Q : A → Prop) c m1 m2 :
  Returns Q m1 → Returns Q m2 → Returns Q (ifelse c m1 m2).
Proof. intros H1 H2 p a p'. unfold ifelse. destruct (c p); [apply H1 | apply H2]. Qed.

Lemma returns_switch_cons {A} (Q : A → Prop) c m arms d :
  Returns Q m → Returns Q (switch arms d) → Returns Q (switch ((c, m) :: arms) d).
Proof. intros H1 H2 p a p'. simpl. destruct (c p); [apply H1 | apply H2]. Qed.

Lemma returns_items {A} (Q : A → Prop) body acc :
  (∀ acc, Q acc → Returns Q (body acc)) → Q acc → Returns Q (items body acc).
Proof.
  intros Hb HQ p a p' E. refine (while_inv (λ a _, Q a) _ _ _ _ _ _ _ HQ E).
  clear - Hb. intros acc p c p' HQ (? & p1 & _ & E)%bind_inv. revert E. unfold ifelse.
  destruct (is_tok TokenRBrace p1); [by intros [= <- <-]|].
  intros (a & p2 & E & (? & ? & _ & [= <- <-])%bind_inv)%bind_inv. by eapply Hb.
Qed.

Lemma returns_block {A} (Q : A → Prop) body acc :
  (∀ acc, Q acc → Returns Q (body acc)) → Q acc → Returns Q (block body acc).
Proof.
  intros Hb HQ. apply returns_bind. intros _. apply returns_bind. intros _.
  apply (returns_bind_with Q); [by apply returns_items|].
  intros a Ha. apply returns_bind. intros _. by apply returns_ret.
Qed.

Create HintDb returns discriminated.

(** The step of a [Returns] goal, along the syntax of the method: what a
    sub-method returns only matters when it returns the struct under way. *)
Ltac returns_step :=
  lazymatch goal with
  | |- ∀ _, _ => intro
  | |- Returns _ (mret _) => apply returns_ret
  | |- Returns ?Q (_ ≫= _) => first [apply (returns_bind_with Q) | apply returns_bind]
  | |- Returns _ (ifelse _ _ _) => apply returns_ifelse
  | |- Returns _ (switch [] _) => cbn [switch]
  | |- Returns _ (switch (_ :: _) _) => apply returns_switch_cons
  | |- Returns _ (block _ _) => apply returns_block
  | |- Returns _ (let _ := _ in _) => cbv zeta
  | |- Returns _ (unexpected _ _ _) => unfold unexpected
  | |- Returns _ _ => solve [auto 2 with returns nocore]
  | |- _ => simpl in *; congruence
  end.
Ltac returns := repeat returns_step.

(** * Declarations register their name *)

(** An accepted declaration had a new name, which is registered after it. *)
Definition Declares {A} (kind : string) (name_of : A → string) (m : P A) : Prop :=
  ∀ p a p', m p = Some (a, p') → p_errors p' = [] →
  name_of a ∉ names_of kind p ∧ name_of a ∈ names_of kind p'.

Section declares.
Context `{GoRuntime}.

Lemma registerName_new kind name sp p a p' :
  registerName kind name sp p = Some (a, p') → p_errors p' = [] →
  name ∉ names_of kind p ∧ name ∈ names_of kind p'.
Proof.
  intros (u & p1 & E1 & [= <- <-])%bind_inv N. revert E1. unfold when.
  case_bool_decide as D; [intros []%addError_errors; done|].
  intros [= <- <-]. split; [done|].
  unfold names_of. simpl. rewrite lookup_insert_eq. simpl. set_solver.
Qed.

Lemma declares_intro {A} t context kind (name_of : A → string) (rest : Pos → string → P A) :
  (∀ sp n N, Safe N (rest sp n)) →
  (∀ sp n, Returns (λ a, name_of a = n) (rest sp n)) →
  Declares kind name_of
    (sp ← currentPos; expect t;; n ← expectString context; registerName kind n sp;; rest sp n).
Proof.
  intros Hs Hr p a p' (sp & p1 & [= <- <-] & (u & p2 & E2 & (n & p3 & E3 &
    (v & p4 & E4 & E5)%bind_inv)%bind_inv)%bind_inv)%bind_inv NE.
  pose proof (Hr _ _ _ _ _ E5) as <-.
  pose proof (safe_ext _ _ _ _ (Hs _ _) E5) as X5.
  destruct (registerName_new _ _ _ _ _ _ E4) as [N1 N2]; [by eapply ext_no_errors|].
  assert (ext p p3) as X.
  { eapply ext_trans; [eapply safe_ext, E2 | eapply safe_ext, E3]; intros; runs. }
  split; [|by apply (ext_names _ _ X5)]. intros C. by apply N1, (ext_names _ _ X).
Qed.

Lemma returns_parse_uses agent n :
  Agent_Name agent = n → Returns (λ a, Agent_Name a = n) (parse_uses agent).
Proof. intros. unfold parse_uses. returns. Qed.

Lemma returns_parse_budget agent n :
  Agent_Name agent = n → Returns (λ a, Agent_Name a = n) (parse_budget agent).
Proof. intros. unfold parse_budget. returns. Qed.
#[local] Hint Resolve returns_parse_uses returns_parse_budget : returns.

Lemma returns_parse_agent_item agent n :
  Agent_Name agent = n → Returns (λ a, Agent_Name a = n) (parse_agent_item agent).
Proof. intros. unfold parse_agent_item. returns. Qed.
#[local] Hint Resolve returns_parse_agent_item : returns.

(** Both premises of [declares_intro] follow the syntax of the method. *)
Ltac declares := apply declares_intro; [intros; runs | intros; returns].

Lemma declares_parsePrompt : Declares "Prompt" Prompt_Name parsePrompt.
Proof. declares. Qed.

Lemma declares_parseSkill : Declares "Skill" Skill_Name parseSkill.
Proof. declares. Qed.

Lemma declares_parseAgent : Declares "Agent" Agent_Name parseAgent.
Proof. declares. Qed.

Lemma declares_parseBinding : Declares "Binding" Binding_Name parseBinding.
Proof. declares. Qed.

Lemma declares_parseSecret : Declares "Secret" Secret_Name parseSecret.
Proof. declares. Qed.

Lemma declares_parseEnvironment : Declares "Environment" Environment_Name parseEnvironment.
Proof. declares. Qed.

Lemma declares_parsePolicy : Declares "Policy" Policy_Name parsePolicy.
Proof. declares. Qed.

Lemma declares_parseMCPServer : Declares "MCPServer" MCPServer_Name parseMCPServer.
Proof. declares. Qed.

Lemma declares_parseMCPClient : Declares "MCPClient" MCPClient_Name parseMCPClient.
Proof. declares. Qed.

Lemma declares_parseDeployTarget : Declares "DeployTarget" DeployTarget_Name parseDeployTarget.
Proof. declares. Qed.

Lemma declares_parseTypeDef : Declares "Type" TypeDef_Name parseTypeDef.
Proof. declares. Qed.

Lemma declares_parsePipeline : Declares "Pipeline" Pipeline_Name parsePipeline.
Proof. declares. Qed.

Lemma declares_parseUser : Declares "User" User_Name parseUser.
Proof. declares. Qed.

Lemma declares_parseGuardrail : Declares "Guardrail" Guardrail_Name parseGuardrail.
Proof. declares. Qed.
End declares.

(** * Files *)

Section files.
Context `{GoRuntime}.

(** The names of [new] are registered by [p'] and were not by [p]. *)
Definition registers (p p' : Parser) (new : option (string * string)) : Prop :=
  match new with
  | Some (kind, n) => n ∉ names_of kind p ∧ n ∈ names_of kind p'
  | None => True
  end.

Definition declared (s : option Statement) : option (string * string) := s ≫= decl_of.

Definition Accepts (m : P (option Statement)) : Prop :=
  ∀ p s p', m p = Some (s, p') → p_errors p' = [] → registers p p' (declared s).

Lemma accepts_stmt {A} kind name_of (wrap : A → Statement) (m : P A) :
  (∀ a, decl_of (wrap a) = Some (kind, name_of a)) →
  Declares kind name_of m → Accepts (stmt wrap m).
Proof.
  intros Hw Hm p s p' (a & p1 & E & [= <- <-])%bind_inv N. unfold declared. simpl.
  rewrite Hw. by apply (Hm p).
Qed.

Lemma accepts_silent {A} (wrap : A → Statement) (m : P A) :
  (∀ a, decl_of (wrap a) = None) → Accepts (stmt wrap m).
Proof.
  intros Hw p s p' (a & p1 & E & [= <- <-])%bind_inv N. unfold declared. simpl. by rewrite Hw.
Qed.

Lemma accepts_switch_cons c m arms d :
  Accepts m → Accepts (switch arms d) → Accepts (switch ((c, m) :: arms) d).
Proof. intros H1 H2 p a p'. simpl. destruct (c p); [apply H1 | apply H2]. Qed.

Hint Resolve declares_parsePrompt declares_parseSkill declares_parseAgent
  declares_parseBinding declares_parseSecret declares_parseEnvironment declares_parsePolicy
  declares_parseMCPServer declares_parseMCPClient declares_parseDeployTarget
  declares_parseTypeDef declares_parsePipeline declares_parseUser
  declares_parseGuardrail : returns.

Lemma accepts_parse_declaration : Accepts parse_declaration.
Proof.
  unfold parse_declaration.
  repeat (apply accepts_switch_cons;
    [first [by apply accepts_silent
           | eapply accepts_stmt; [|solve [auto 1 with returns nocore]]; done] |]).
  intros p s p' (? & ? & _ & (? & ? & _ & [= <- <-])%bind_inv)%bind_inv. done.
Qed.

Lemma accepts_parseStatement : Accepts parseStatement.
Proof.
  intros p s p' (u & p1 & E1 & E)%bind_inv N. unfold ifelse in E.
  assert (ext p p1) as X by (eapply safe_ext, E1; intros; runs).
  destruct (at_end p1); [injection E as <- <-; done|].
  pose proof (accepts_parse_declaration _ _ _ E N) as A. unfold registers in *.
  destruct (declared s) as [[kind n]|]; [|done].
  destruct A as [A1 A2]. split; [|done]. intros C. by apply A1, (ext_names _ _ X).
Qed.

(** The declarations so far have different names, all of them registered. *)
Definition registered (stmts : list Statement) (p : Parser) : Prop :=
  p_errors p = [] →
  NoDup (omap decl_of stmts) ∧
  Forall (λ '(kind, n), n ∈ names_of kind p) (omap decl_of stmts).

Lemma registered_ext stmts p p' : registered stmts p → ext p p' → registered stmts p'.
Proof.
  intros R X N. destruct R as [R1 R2]; [by eapply ext_no_errors|]. split; [done|].
  eapply Forall_impl; [done|]. intros [kind n] Hn. by apply (ext_names _ _ X).
Qed.

Lemma registered_snoc stmts s p p' :
  registered stmts p → ext p p' → (p_errors p' = [] → registers p p' (declared s)) →
  registered (stmts ++ option_list s) p'.
Proof.
  intros R X A N. specialize (A N).
  destruct (R (ext_no_errors _ _ X N)) as [R1 R2].
  pose proof (registered_ext _ _ _ R X N) as [_ R3].
  destruct s as [s|]; simpl; [|by rewrite app_nil_r].
  rewrite omap_app. simpl. unfold declared, registers in A. simpl in A.
  destruct (decl_of s) as [[kind n]|] eqn:D; simpl; [|by rewrite app_nil_r].
  destruct A as [A1 A2]. split; [|by apply Forall_app; split; [|constructor]].
  apply NoDup_app. split_and!; [done | | by apply NoDup_singleton].
  intros [k n'] I J. apply list_elem_of_singleton in J as [= -> ->].
  rewrite Forall_forall in R2. by apply A1, (R2 _ I).
Qed.

Lemma registered_item stmts p c p' :
  registered stmts p → parse_statement_item stmts p = Some (c, p') →
  registered match c with Continue a => a | Break a => a end p'.
Proof.
  intros R (u & p1 & E1 & E)%bind_inv. unfold ifelse in E.
  assert (ext p p1) as X1 by (eapply safe_ext, E1; intros; runs).
  pose proof (registered_ext _ _ _ R X1) as R1.
  destruct (at_end p1); [by injection E as <- <-|].
  apply bind_inv in E as (s & p2 & E2 & [= <- <-]).
  eapply registered_snoc; [done | eapply safe_ext, E2; intros; runs |].
  intros N. by apply accepts_parseStatement.
Qed.

Lemma parse_statements_registered p stmts p' :
  parse_statements p = Some (stmts, p') → registered stmts p'.
Proof.
  unfold parse_statements. intros E. refine (while_inv registered _ _ _ _ _ _ _ _ E).
  - apply registered_item.
  - split; constructor.
Qed.

Lemma parsePackage_lang p pkg p' :
  parsePackage p = Some (pkg, p') → p_errors p' = [] → Package_LangVersion pkg ≠ "1.0".
Proof.
  intros (sp & p1 & _ & (? & p2 & _ & (name & p3 & _ & (g & p4 & _ & (u & p5 & E &
    (ep & p6 & [= <- <-] & [= <- <-])%bind_inv)%bind_inv)%bind_inv)%bind_inv)%bind_inv)%bind_inv N.
  simpl. intros L. unfold when in E. rewrite L in E. by apply addError_errors in E.
Qed.

(** The parser keeps imports among the statements: the package has none. *)
Lemma parsePackage_imports p pkg p' : parsePackage p = Some (pkg, p') → Package_Imports pkg = [].
Proof.
  intros (sp & p1 & _ & (? & p2 & _ & (name & p3 & _ & (g & p4 & E & (u & p5 & _ &
    (ep & p6 & [= <- <-] & [= <- <-])%bind_inv)%bind_inv)%bind_inv)%bind_inv)%bind_inv)%bind_inv.
  simpl. refine (while_inv (λ g _, Package_Imports g = []) _ _ _ _ _ _ _ _ E); [|done].
  intros a q c q' Ia. simpl. unfold on. destruct (is_tok TokenVersion q).
  { intros (? & ? & _ & (? & ? & _ & [= <- <-])%bind_inv)%bind_inv. done. }
  destruct (is_tok TokenLang q).
  { intros (? & ? & _ & (? & ? & _ & [= <- <-])%bind_inv)%bind_inv. done. }
  by intros [= <- <-].
Qed.

Lemma parseFile_imports p f p' pkg :
  parseFile p = Some (f, p') → File_Package f = Some pkg → Package_Imports pkg = [].
Proof.
  intros (path & p1 & _ & (sp & p2 & _ & (u & p3 & _ & (pkg' & p4 & E4 & (stmts & p5 & _ &
    (ep & p6 & [= <- <-] & [= <- <-])%bind_inv)%bind_inv)%bind_inv)%bind_inv)%bind_inv)%bind_inv.
  simpl. intros ->. unfold ifelse in E4. destruct (is_tok TokenPackage p3).
  - apply bind_inv in E4 as (g & p7 & E7 & [= <- <-]). by eapply parsePackage_imports.
  - by apply bind_inv in E4 as (v & p7 & E7 & [=]).
Qed.

Lemma parseFile_accepted p f p' :
  parseFile p = Some (f, p') → p_errors p' = [] →
  (∃ pkg, File_Package f = Some pkg ∧ Package_LangVersion pkg ≠ "1.0") ∧
  NoDup (omap decl_of (File_Statements f)).
Proof.
  intros (path & p1 & _ & (sp & p2 & _ & (u & p3 & _ & (pkg & p4 & E4 & (stmts & p5 & E5 &
    (ep & p6 & [= <- <-] & [= <- <-])%bind_inv)%bind_inv)%bind_inv)%bind_inv)%bind_inv)%bind_inv N.
  simpl. split; [|by apply (parse_statements_registered _ _ _ E5)].
  assert (p_errors p4 = []) as N4.
  { eapply ext_no_errors; [eapply safe_ext, E5; intros; runs | done]. }
  unfold ifelse in E4. destruct (is_tok TokenPackage p3).
  - apply bind_inv in E4 as (g & p7 & E7 & [= <- <-]). exists g. split; [done|].
    by eapply parsePackage_lang.
  - apply bind_inv in E4 as (v & p7 & E7 & [= <- <-]). by apply addError_errors in E7.
Qed.
End files.

(** * Parse *)

Definition error_at (e : ParseError) : Z * Z := (ParseError_Line e, ParseError_Column e).

(** The positions of a lexed token list, its EOF token included, never
    decrease. *)
Lemma lexed_sorted file ts : lexed file ts → StronglySorted pos_le (token_at <$> ts).
Proof.
  intros (body & eof & -> & _ & _ & _ & S & E). rewrite fmap_app. simpl. rewrite E. clear E.
  induction (token_at <$> body) as [|a l IH]; [by repeat constructor|].
  apply StronglySorted_inv in S as [S F]. simpl.
  assert (Forall (pos_le a) l) as F' by (eapply Forall_impl; [done|]; intros; pos_order).
  destruct l as [|b l]; [by repeat constructor; pos_order|].
  change (last (a :: b :: l)) with (last (b :: l)). specialize (IH S).
  constructor; [done|]. apply Forall_app. split; [done|]. constructor; [|constructor].
  rewrite Forall_forall in F'. apply F'.
  destruct (last (b :: l)) as [c|] eqn:L; [|by apply last_None in L].
  by apply last_Some_elem_of in L.
Qed.

Section reports.
Context (ts : list Token) (file : string) (L : lexed file ts).
Let p0 : Parser := new_parser ts file.

Lemma reported_file k e : reported_at p0 k e → ParseError_File e = file.
Proof.
  unfold reported_at, token_at_index. simpl. destruct (ts !! k) as [t|] eqn:T; simpl.
  - intros [= E _ _]. rewrite <- E. destruct L as (body & eof & E1 & _ & _ & F & _).
    rewrite Forall_forall in F. by apply F, (list_elem_of_lookup_2 _ k).
  - by intros [= E _ _].
Qed.

Lemma reported_in k e : reported_at p0 k e → (k < length ts)%nat →
  (token_at <$> ts) !! k = Some (error_at e).
Proof.
  unfold reported_at, token_at_index. simpl. intros R K.
  destruct (lookup_lt_is_Some_2 _ _ K) as [t T]. rewrite T in R.
  rewrite list_lookup_fmap, T. simpl in *. unfold token_at, error_at. by injection R as _ -> ->.
Qed.

Lemma reported_past k e : reported_at p0 k e → (length ts ≤ k)%nat → error_at e = (0, 0).
Proof.
  unfold reported_at, token_at_index. simpl. intros R K.
  rewrite (lookup_ge_None_2 _ _ K) in R. injection R. intros. unfold error_at. congruence.
Qed.

Lemma StronglySorted_lookup {A} (R : A → A → Prop) l i j a b :
  StronglySorted R l → (i < j)%nat → l !! i = Some a → l !! j = Some b → R a b.
Proof.
  intros S. revert i j. induction S as [|c l S IH F]; intros [|i] [|j] K Ei Ej;
    simpl in *; try lia; try done.
  - injection Ei as ->. rewrite Forall_forall in F. by apply F, (list_elem_of_lookup_2 _ j).
  - apply (IH i j); [lia | done..].
Qed.

Lemma reported_forward k k' e e' :
  (k ≤ k')%nat → (k' < length ts)%nat → reported_at p0 k e → reported_at p0 k' e' →
  pos_le (error_at e) (error_at e').
Proof.
  intros K K' R R'. pose proof (reported_in _ _ R ltac:(lia)) as T.
  pose proof (reported_in _ _ R' K') as T'.
  destruct (decide (k = k')) as [<-|N].
  - assert (error_at e = error_at e') as -> by congruence. pos_order.
  - eapply (StronglySorted_lookup _ _ k k'); [by eapply lexed_sorted | lia | done | done].
Qed.

Lemma reported_sorted ks es :
  Forall2 (reported_at p0) ks es → StronglySorted le ks →
  Forall (λ k, (k < length ts)%nat) ks →
  StronglySorted pos_le (error_at <$> es) ∧
  Forall (λ a, a ∈ token_at <$> ts) (error_at <$> es).
Proof.
  induction 1 as [|k e ks es R F IH]; intros S B; [by repeat constructor|].
  apply StronglySorted_inv in S as [S B1]. apply Forall_cons in B as [K B2].
  destruct (IH S B2) as [S' I']. simpl. split; constructor; try done.
  - apply Forall_fmap. eapply Forall2_Forall_r; [done|].
    apply Forall_forall. intros k' Hk' e' R'. rewrite Forall_forall in B1, B2.
    by eapply (reported_forward k k'); [apply B1 | apply B2 | |].
  - by eapply list_elem_of_lookup_2, reported_in.
Qed.

Lemma sorted_split (n : nat) ks :
  StronglySorted le ks → ∃ ks1 ks2, ks = ks1 ++ ks2 ∧ StronglySorted le ks1 ∧
    Forall (λ k, (k < n)%nat) ks1 ∧ Forall (λ k, (n ≤ k)%nat) ks2.
Proof.
  induction 1 as [|k ks S (ks1 & ks2 & -> & S1 & F1 & F2) B]; [exists [], []; by repeat constructor|].
  apply Forall_app in B as [B1 B2]. destruct (decide (k < n)%nat) as [K|K].
  - exists (k :: ks1), ks2. split_and!; [done | by constructor | by constructor | done].
  - exists [], (k :: ks1 ++ ks2). split_and!; [done | constructor | constructor |].
    constructor; [lia|]. apply Forall_app.
    split; (eapply Forall_impl; [done|]); simpl; intros; lia.
Qed.

(** The reports at tokens of the list come first, in source order; those at
    indices past its end come last, all at line 0, column 0. *)
Lemma reported_split ks es :
  Forall2 (reported_at p0) ks es → StronglySorted le ks →
  ∃ es1 es2, es = es1 ++ es2 ∧
    StronglySorted pos_le (error_at <$> es1) ∧
    Forall (λ a, a ∈ token_at <$> ts) (error_at <$> es1) ∧
    Forall (λ e, error_at e = (0, 0)) es2.
Proof.
  intros F S. destruct (sorted_split (length ts) ks S) as (ks1 & ks2 & -> & S1 & B1 & B2).
  apply Forall2_app_inv_l in F as (es1 & es2 & F1 & F2 & ->).
  destruct (reported_sorted ks1 es1) as [S' I']; try done.
  exists es1, es2. split_and!; try done.
  eapply Forall2_Forall_r; [done|]. eapply Forall_impl; [done|].
  intros k K e R. by eapply reported_past.
Qed.
End reports.

Section theorems.
Context `{GoRuntime}.

Lemma parse_cases input file :
  (∃ err, Tokenize (NewLexer input file) = Some (Err err) ∧
          Parse input file = Some (None, [mkParseError file 1 1 err ""])) ∨
  (∃ ts f p, Tokenize (NewLexer input file) = Some (Ok ts) ∧ lexed file ts ∧
     parseFile (new_parser ts file) = Some (f, p) ∧ ext (new_parser ts file) p ∧
     Parse input file = Some (Some f, p_errors p)).
Proof.
  destruct (tokenize_total input file) as [[ts|err] E]; unfold Parse; rewrite E; simpl.
  - right. destruct (runs_parseFile (S (remaining (new_parser ts file))) (new_parser ts file))
      as (f & p & E' & X & _); [lia|]. rewrite E'.
    exists ts, f, p. split_and!; try done. by eapply tokenize_lexed.
  - left. by exists err.
Qed.

(** C23. Parse returns on every input. It returns a file unless the input has
    no tokens, and the one error it then returns is the lexer's, at line 1,
    column 1. *)
Theorem parse_returns (input file : string) :
  ∃ f errs, Parse input file = Some (f, errs) ∧
    (f = None → ∃ err, Tokenize (NewLexer input file) = Some (Err err) ∧
                       errs = [mkParseError file 1 1 err ""]).
Proof.
  destruct (parse_cases input file) as [(err & E & ->)|(ts & f & p & _ & _ & _ & _ & ->)].
  - eauto 10.
  - by eexists _, _.
Qed.

(** C26. The parser reports errors in source order, each at a token of the
    file, except for those it reports after it has stepped over the EOF token:
    these come last and are placed at line 0, column 0. *)
Theorem parse_errors_in_source_order (input file : string) ts f errs
    (T : Tokenize (NewLexer input file) = Some (Ok ts))
    (E : Parse input file = Some (f, errs)) :
  Forall (λ e, ParseError_File e = file) errs ∧
  ∃ inside past, errs = inside ++ past ∧
    StronglySorted pos_le (error_at <$> inside) ∧
    Forall (λ a, a ∈ token_at <$> ts) (error_at <$> inside) ∧
    Forall (λ e, error_at e = (0, 0)) past.
Proof.
  destruct (parse_cases input file) as [(err & T' & _)|(ts' & f' & p & T' & L & _ & X & E')];
    [congruence|].
  rewrite T in T'. injection T' as <-. rewrite E' in E. injection E as <- <-.
  destruct (ext_errors _ _ X) as (es & -> & ks & F & S & _). simpl. split.
  - eapply Forall2_Forall_r; [done|]. apply Forall_forall. intros k _ e.
    by apply reported_file.
  - by apply (reported_split ts file L ks).
Qed.

(** C3. A file that is parsed without an error has a package declaration, its
    language version is not 1.0, and no two of its resources of one kind have
    the same name. *)
Theorem parse_accepted (input file : string) f
    (E : Parse input file = Some (Some f, [])) :
  (∃ pkg, File_Package f = Some pkg ∧ Package_LangVersion pkg ≠ "1.0") ∧
  NoDup (omap decl_of (File_Statements f)).
Proof.
  destruct (parse_cases input file) as [(err & _ & E')|(ts & f' & p & _ & _ & R & _ & E')].
  - congruence.
  - rewrite E' in E. injection E as <- N. by apply (parseFile_accepted _ _ _ R).
Qed.

Lemma parse_imports (input file : string) f errs pkg :
  Parse input file = Some (Some f, errs) → File_Package f = Some pkg → Package_Imports pkg = [].
Proof.
  intros E. destruct (parse_cases input file) as [(err & _ & E')|(ts & f' & p & _ & _ & R & _ & E')].
  - congruence.
  - rewrite E' in E. injection E as <- <-. by eapply parseFile_imports.
Qed.
End theorems.

(** A small file with two errors: the reports after the EOF token was taken
    for the type of a variable are at 0:0. *)
Definition truncated_file : string :=
  qt "package `p`" +:+ nl +:+ qt "prompt `a` { contents `x`" +:+ nl +:+ "variables { v".

Definition sample_file : string :=
  qt "package `p` version `1` lang `2.0`" +:+ nl +:+
  qt "prompt `a` { content `x` }" +:+ nl +:+ qt "skill `a` { tool command { binary `b` } }".

Definition tokens_of (input : string) : list Token :=
  match @Tokenize ascii_runtime (NewLexer input "f") with Some (Ok ts) => ts | _ => [] end.

Definition parse_of (input : string) : option File * list ParseError :=
  default (None, []) (@Parse ascii_runtime input "f").

Lemma parse_accepted_witness :
  ∃ f, parse_of sample_file = (Some f, []) ∧
    (∃ pkg, File_Package f = Some pkg ∧ Package_LangVersion pkg ≠ "1.0") ∧
    NoDup (omap decl_of (File_Statements f)).
Proof.
  eexists. split; [vm_compute; reflexivity|].
  apply (@parse_accepted ascii_runtime sample_file "f"). vm_compute. reflexivity.
Defined.

Lemma parse_errors_in_source_order_witness :
  Forall (λ e, ParseError_File e = "f") (parse_of truncated_file).2 ∧
  ∃ inside past, (parse_of truncated_file).2 = inside ++ past ∧
    StronglySorted pos_le (error_at <$> inside) ∧
    Forall (λ a, a ∈ token_at <$> tokens_of truncated_file) (error_at <$> inside) ∧
    Forall (λ e, error_at e = (0, 0)) past.
Proof.
  eapply (@parse_errors_in_source_order ascii_runtime truncated_file "f"
            _ (parse_of truncated_file).1); vm_compute; reflexivity.
Defined.

(** The errors past the end happen: the parser takes the EOF token for the
    type of a variable and then reports the missing braces at 0:0. *)
Example parse_reports_at_origin :
  map ParseError_Error (parse_of truncated_file).2 =
    ["f:2:14: error: unexpected token Ident in prompt block";
     "f:2:23: error: unexpected token String in prompt block";
     "f:0:0: error: expected }, got EOF";
     "f:0:0: error: expected }, got EOF"].
Proof. vm_compute. reflexivity. Qed.
