(* ===== verification/Structural.v ===== *)
(** Structural validation (internal/validate/structural.go): required fields,
    enumerated values and ranges, one definition per validator. *)
From S2P Require Import Prelude GoStd Ast.
Open Scope Z_scope.

(** ValidationError represents a validation error with position and hint. *)
Record ValidationError := mkValidationError {
  ValidationError_File : string;
  ValidationError_Line : Z;
  ValidationError_Column : Z;
  ValidationError_Message : string;
  ValidationError_Hint : string;
}.

Definition ValidationError_Error (e : ValidationError) : string :=
  let s := ValidationError_File e +:+ ":" +:+ pretty (ValidationError_Line e) +:+ ":" +:+
           pretty (ValidationError_Column e) +:+ ": error: " +:+ ValidationError_Message e in
  if String.eqb (ValidationError_Hint e) "" then s
  else s +:+ nl +:+ "  hint: " +:+ ValidationError_Hint e.

Definition posError (pos : Pos) (msg hint : string) : ValidationError :=
  mkValidationError (Pos_File pos) (Pos_Line pos) (Pos_Column pos) msg hint.

(** [if c { errs = append(errs, posError(pos, msg, hint)) }] *)
Definition report (c : bool) (pos : Pos) (msg hint : string) : list ValidationError :=
  if c then [posError pos msg hint] else [].

(** A lookup in one of the maps of valid values. *)
Definition one_of (values : list string) (s : string) : bool := existsb (String.eqb s) values.

(** [s == ""], [len(l) == 0], [p == nil]. *)
Definition empty (s : string) : bool := String.eqb s "".
Definition is_empty {A} (l : list A) : bool := match l with [] => true | _ => false end.
Definition is_nil {A} (p : option A) : bool := match p with None => true | Some _ => false end.

Definition valid_strategies := ["react"; "plan-and-execute"; "reflexion"; "router"; "map-reduce"].
Definition valid_on_error := ["retry"; "fail"; "fallback"].
Definition valid_param_types := ["string"; "int"; "float"; "bool"].
Definition valid_severities := ["error"; "warning"].
Definition valid_scoring := ["exact"; "contains"; "semantic"; "custom"].
Definition valid_tool_types := ["mcp"; "http"; "command"; "inline"].
Definition valid_targets := ["process"; "docker"; "docker-compose"; "kubernetes"].
Definition valid_roles := ["invoke"; "admin"].
Definition valid_modes := ["warn"; "block"].

Section structural.
Context `{GoRuntime}.

Definition validateImport (imp : Import) : list ValidationError :=
  report (empty (Import_Path imp)) (Import_StartPos imp) "import path is required" "".

Definition validateConfigParams (a : Agent) : list ValidationError :=
  flat_map (λ p,
    let pos := ConfigParam_StartPos p in
    let named := "config param " +:+ quote (ConfigParam_Name p) in
    report (empty (ConfigParam_Name p)) pos "config param name is required" "" ++
    report (negb (empty (ConfigParam_Type p)) && negb (one_of valid_param_types (ConfigParam_Type p)))
      pos (named +:+ " has invalid type " +:+ quote (ConfigParam_Type p))
      "valid types: string, int, float, bool" ++
    report (ConfigParam_Secret p && ConfigParam_HasDefault p)
      pos (named +:+ " is marked secret and cannot have a default value")
      "remove the default value or remove the secret modifier") (Agent_ConfigParams a).

Definition validateValidationRules (a : Agent) : list ValidationError :=
  flat_map (λ r,
    let pos := ValidationRule_StartPos r in
    let named := "validation rule " +:+ quote (ValidationRule_Name r) in
    report (empty (ValidationRule_Name r)) pos "validation rule name is required" "" ++
    report (negb (empty (ValidationRule_Severity r)) &&
            negb (one_of valid_severities (ValidationRule_Severity r)))
      pos (named +:+ " has invalid severity " +:+ quote (ValidationRule_Severity r))
      "valid severities: error, warning" ++
    report (ValidationRule_MaxRetries r <? 0) pos (named +:+ " has negative max_retries") "" ++
    report (empty (ValidationRule_Expression r))
      pos (named +:+ " requires a 'when' expression") "add 'when <expression>'")
    (Agent_ValidationRules a).

Definition validateEvalCases (a : Agent) : list ValidationError :=
  flat_map (λ c,
    let pos := EvalCase_StartPos c in
    let named := "eval case " +:+ quote (EvalCase_Name c) in
    report (empty (EvalCase_Name c)) pos "eval case name is required" "" ++
    report (empty (EvalCase_Input c)) pos (named +:+ " requires an input") (qt "add 'input `...`'") ++
    report (empty (EvalCase_Expected c))
      pos (named +:+ " requires an expected output") (qt "add 'expect `...`'") ++
    report (negb (empty (EvalCase_Scoring c)) && negb (one_of valid_scoring (EvalCase_Scoring c)))
      pos (named +:+ " has invalid scoring method " +:+ quote (EvalCase_Scoring c))
      "valid methods: exact, contains, semantic, custom" ++
    report (float_lt (EvalCase_Threshold c) (float_of_Z 0) || float_lt (float_of_Z 1) (EvalCase_Threshold c))
      pos (named +:+ " has threshold " +:+ fmt_g (EvalCase_Threshold c) +:+ " out of range [0, 1]")
      "") (Agent_EvalCases a).

Fixpoint validateOnInputStmt (agentName : string) (stmt : OnInputStmt) : list ValidationError :=
  match stmt with
  | UseSkillStmt name _ pos _ => report (empty name) pos "use skill requires a skill name" ""
  | DelegateToStmt name pos _ => report (empty name) pos "delegate requires an agent name" ""
  | RespondStmt expression pos _ =>
      report (empty expression) pos "respond requires an expression" ""
  | IfBlock condition body elseIfs elseBody pos _ =>
      report (empty condition) pos "if block requires a condition" "" ++
      flat_map (validateOnInputStmt agentName) body ++
      flat_map (λ '(mkElseIfClause condition body pos _),
        report (empty condition) pos "else if requires a condition" "" ++
        flat_map (validateOnInputStmt agentName) body) elseIfs ++
      flat_map (validateOnInputStmt agentName) elseBody
  | ForEachBlock variable collection body pos _ =>
      report (empty variable) pos "for each requires a variable name" "" ++
      report (empty collection) pos "for each requires a collection expression" "" ++
      flat_map (validateOnInputStmt agentName) body
  end.

Definition validateOnInputBlock (agentName : string) (block : OnInputBlock) : list ValidationError :=
  flat_map (validateOnInputStmt agentName) (OnInputBlock_Statements block).

Definition validateAgent (a : Agent) : list ValidationError :=
  let pos := Agent_StartPos a in
  let named := "agent " +:+ quote (Agent_Name a) in
  report (empty (Agent_Name a)) pos "agent name is required" "" ++
  report (is_nil (Agent_Prompt a)) pos (named +:+ " requires a prompt reference")
    (qt "add 'uses prompt `name`'") ++
  report (empty (Agent_Model a) && is_empty (Agent_Models a))
    pos (named +:+ " requires a model or models list")
    (qt "add 'model `model-name`' or 'models [`model1`, `model2`]'") ++
  report (negb (empty (Agent_Model a)) && negb (is_empty (Agent_Models a)))
    pos (named +:+ " has both 'model' and 'models' — use one or the other")
    "remove either 'model' or 'models'" ++
  report (float_lt (Agent_BudgetDaily a) (float_of_Z 0)) pos (named +:+ " has negative daily budget") "" ++
  report (float_lt (Agent_BudgetMonthly a) (float_of_Z 0))
    pos (named +:+ " has negative monthly budget") "" ++
  report (negb (empty (Agent_Strategy a)) && negb (one_of valid_strategies (Agent_Strategy a)))
    pos (named +:+ " has invalid strategy " +:+ quote (Agent_Strategy a))
    "valid strategies: react, plan-and-execute, reflexion, router, map-reduce" ++
  report (negb (empty (Agent_OnError a)) && negb (one_of valid_on_error (Agent_OnError a)))
    pos (named +:+ " has invalid on_error " +:+ quote (Agent_OnError a))
    "valid values: retry, fail, fallback" ++
  report (String.eqb (Agent_OnError a) "fallback" && empty (Agent_Fallback a))
    pos (named +:+ qt " uses on_error `fallback` but no fallback agent specified")
    (qt "add 'fallback `agent-name`'") ++
  report (Agent_HasTemp a && (float_lt (Agent_Temperature a) (float_of_Z 0) ||
                              float_lt (float_of_Z 2) (Agent_Temperature a)))
    pos (named +:+ " has temperature " +:+ fmt_f1 (Agent_Temperature a) +:+
         " out of range [0, 2]") "" ++
  validateConfigParams a ++ validateValidationRules a ++ validateEvalCases a ++
  match Agent_OnInput a with
  | Some block => validateOnInputBlock (Agent_Name a) block
  | None => []
  end.

Definition validatePrompt (p : Prompt) : list ValidationError :=
  report (empty (Prompt_Name p)) (Prompt_StartPos p) "prompt name is required" "" ++
  report (empty (Prompt_Content p)) (Prompt_StartPos p)
    ("prompt " +:+ quote (Prompt_Name p) +:+ " requires content") (qt "add 'content `...`'").

Definition validateSkill (s : Skill) : list ValidationError :=
  let pos := Skill_StartPos s in
  let named := "skill " +:+ quote (Skill_Name s) in
  report (empty (Skill_Name s)) pos "skill name is required" "" ++
  report (empty (Skill_Description s)) pos (named +:+ " requires a description")
    (qt "add 'description `...`'") ++
  report (is_empty (Skill_Input s)) pos (named +:+ " requires an input schema")
    "add 'input { name type }'" ++
  report (is_empty (Skill_Output s)) pos (named +:+ " requires an output schema")
    "add 'output { name type }'" ++
  report (is_nil (Skill_Execution s) && is_nil (Skill_ToolConfig s))
    pos (named +:+ " requires an execution or tool block")
    (qt "add 'tool mcp `server/tool`' or 'execution command `...`'") ++
  report (negb (is_nil (Skill_Execution s)) && negb (is_nil (Skill_ToolConfig s)))
    pos (named +:+ " has both execution and tool blocks")
    "use only one: 'tool' (2.0) or 'execution' (1.0)" ++
  match Skill_ToolConfig s with
  | Some tc =>
      report (negb (one_of valid_tool_types (ToolConfig_Type tc))) (ToolConfig_StartPos tc)
        (named +:+ " has invalid tool type " +:+ quote (ToolConfig_Type tc))
        "valid types: mcp, http, command, inline"
  | None => []
  end.

Definition validateMCPServer (s : MCPServer) : list ValidationError :=
  let pos := MCPServer_StartPos s in
  let named := "server " +:+ quote (MCPServer_Name s) in
  report (empty (MCPServer_Name s)) pos "server name is required" "" ++
  report (empty (MCPServer_Transport s)) pos (named +:+ " requires a transport")
    (qt "add 'transport `stdio`' or 'transport `sse`'") ++
  report (String.eqb (MCPServer_Transport s) "stdio" && empty (MCPServer_Command s))
    pos (named +:+ " with stdio transport requires a command") (qt "add 'command `...`'") ++
  report ((String.eqb (MCPServer_Transport s) "sse" ||
           String.eqb (MCPServer_Transport s) "streamable-http") && empty (MCPServer_URL s))
    pos (named +:+ " with " +:+ MCPServer_Transport s +:+ " transport requires a url")
    (qt "add 'url `...`'").

Definition validateMCPClient (c : MCPClient) : list ValidationError :=
  report (empty (MCPClient_Name c)) (MCPClient_StartPos c) "client name is required" "" ++
  report (is_empty (MCPClient_Servers c)) (MCPClient_StartPos c)
    ("client " +:+ quote (MCPClient_Name c) +:+ " requires at least one server connection")
    (qt "add 'connects to server `name`'").

Definition validateSecret (s : Secret) : list ValidationError :=
  let pos := Secret_StartPos s in
  let named := "secret " +:+ quote (Secret_Name s) in
  report (empty (Secret_Name s)) pos "secret name is required" "" ++
  report (empty (Secret_Source s)) pos (named +:+ " requires a source (env or store)")
    "add 'env(KEY)' or 'store(path)'" ++
  report (empty (Secret_Key s)) pos (named +:+ " requires a key") "".

Definition validateBinding (b : Binding) : list ValidationError :=
  report (empty (Binding_Name b)) (Binding_StartPos b) "binding name is required" "" ++
  report (empty (Binding_Adapter b)) (Binding_StartPos b)
    ("binding " +:+ quote (Binding_Name b) +:+ " requires an adapter")
    (qt "add 'adapter `local-mcp`'").

Definition validateDeployTarget (d : DeployTarget) : list ValidationError :=
  let pos := DeployTarget_StartPos d in
  let named := "deploy " +:+ quote (DeployTarget_Name d) in
  report (empty (DeployTarget_Name d)) pos "deploy target name is required" "" ++
  report (empty (DeployTarget_Target d)) pos (named +:+ " requires a target type")
    (qt "add 'target `process`', 'target `docker`', or 'target `kubernetes`'") ++
  report (negb (empty (DeployTarget_Target d)) && negb (one_of valid_targets (DeployTarget_Target d)))
    pos (named +:+ " has invalid target type " +:+ quote (DeployTarget_Target d))
    "valid targets: process, docker, docker-compose, kubernetes".

Definition validateTypeDef (t : TypeDef) : list ValidationError :=
  report (empty (TypeDef_Name t)) (TypeDef_StartPos t) "type name is required" "" ++
  report (is_empty (TypeDef_Fields t) && is_empty (TypeDef_EnumVals t) && empty (TypeDef_ListOf t))
    (TypeDef_StartPos t)
    ("type " +:+ quote (TypeDef_Name t) +:+ " must have fields, enum values, or list type")
    "add fields in a block, enum [...], or list <type>" ++
  flat_map (λ f,
    report (empty (TypeField_Name f)) (TypeField_StartPos f) "type field name is required" "" ++
    report (empty (TypeField_Type f)) (TypeField_StartPos f)
      ("type field " +:+ quote (TypeField_Name f) +:+ " requires a type") "") (TypeDef_Fields t).

(** The first loop over the steps: [seen] is the map stepNames. *)
Definition check_step (p : Pipeline) (acc : gset string * list ValidationError) (step : PipelineStep)
    : gset string * list ValidationError :=
  let '(seen, errs) := acc in
  let pos := PipelineStep_StartPos step in
  let name := PipelineStep_Name step in
  if empty name then (seen, errs ++ [posError pos "step name is required" ""])
  else
    ({[name]} ∪ seen,
     errs ++
     report (bool_decide (name ∈ seen)) pos
       ("duplicate step name " +:+ quote name +:+ " in pipeline " +:+ quote (Pipeline_Name p)) "" ++
     report (empty (PipelineStep_Agent step)) pos
       ("step " +:+ quote name +:+ " requires an agent") (qt "add 'agent `agent-name`'")).

Definition check_depends_on (seen : gset string) (step : PipelineStep) : list ValidationError :=
  let pos := PipelineStep_StartPos step in
  let name := PipelineStep_Name step in
  flat_map (λ dep,
    report (negb (bool_decide (dep ∈ seen))) pos
      ("step " +:+ quote name +:+ " depends_on unknown step " +:+ quote dep) "" ++
    report (String.eqb dep name) pos ("step " +:+ quote name +:+ " cannot depend on itself") "")
    (PipelineStep_DependsOn step).

Definition validatePipeline (p : Pipeline) : list ValidationError :=
  let '(stepNames, errs) := foldl (check_step p) (∅, []) (Pipeline_Steps p) in
  report (empty (Pipeline_Name p)) (Pipeline_StartPos p) "pipeline name is required" "" ++
  report (is_empty (Pipeline_Steps p)) (Pipeline_StartPos p)
    ("pipeline " +:+ quote (Pipeline_Name p) +:+ " requires at least one step")
    (qt "add 'step `name` { agent `...` }'") ++
  errs ++
  flat_map (check_depends_on stepNames) (Pipeline_Steps p).

Definition validateUser (u : User) : list ValidationError :=
  let pos := User_StartPos u in
  let named := "user " +:+ quote (User_Name u) in
  report (empty (User_Name u)) pos "user name is required" "" ++
  report (empty (User_KeyRef u)) pos (named +:+ " requires a key reference")
    (qt "add 'key secret(`ENV_VAR`)'") ++
  report (negb (empty (User_Role u)) && negb (one_of valid_roles (User_Role u)))
    pos (named +:+ " has invalid role " +:+ quote (User_Role u)) "valid roles: invoke, admin".

Definition validateGuardrail (g : Guardrail) : list ValidationError :=
  let pos := Guardrail_StartPos g in
  let named := "guardrail " +:+ quote (Guardrail_Name g) in
  report (empty (Guardrail_Name g)) pos "guardrail name is required" "" ++
  report (empty (Guardrail_Mode g)) pos (named +:+ " requires a mode")
    (qt "add 'mode `warn`' or 'mode `block`'") ++
  report (negb (empty (Guardrail_Mode g)) && negb (one_of valid_modes (Guardrail_Mode g)))
    pos (named +:+ " has invalid mode " +:+ quote (Guardrail_Mode g))
    "valid modes: warn, block" ++
  report (is_empty (Guardrail_Keywords g) && is_empty (Guardrail_Patterns g))
    pos (named +:+ " requires at least one keyword or pattern")
    "add 'keywords [...]' or 'patterns [...]'" ++
  report (String.eqb (Guardrail_Mode g) "block" && empty (Guardrail_FallbackMsg g))
    pos (named +:+ " in block mode requires a fallback message") (qt "add 'fallback `message`'").

Definition validateStatement (stmt : Statement) : list ValidationError :=
  match stmt with
  | SAgent s => validateAgent s
  | SPrompt s => validatePrompt s
  | SSkill s => validateSkill s
  | SMCPServer s => validateMCPServer s
  | SMCPClient s => validateMCPClient s
  | SSecret s => validateSecret s
  | SBinding s => validateBinding s
  | SDeployTarget s => validateDeployTarget s
  | STypeDef s => validateTypeDef s
  | SPipeline s => validatePipeline s
  | SUser s => validateUser s
  | SGuardrail s => validateGuardrail s
  | SImport s => validateImport s
  | _ => []
  end.

Definition ValidateStructural (f : File) : list ValidationError :=
  match File_Package f with
  | None =>
      [mkValidationError (File_Path f) 1 1 "missing package declaration"
         (qt "add 'package `name` version `x.y.z` lang `1.0`' at the start")]
  | Some pkg =>
      report (empty (Package_Name pkg)) (Package_StartPos pkg) "package name is required" "" ++
      report (empty (Package_Version pkg)) (Package_StartPos pkg)
        "package version is required" (qt "add version `x.y.z`") ++
      report (empty (Package_LangVersion pkg)) (Package_StartPos pkg)
        "lang version is required" (qt "add lang `1.0`") ++
      flat_map validateStatement (File_Statements f)
  end.
End structural.
