(* ===== verification/StructuralFacts.v ===== *)
(** The files structural validation accepts: a declarative notion of a
    well-formed file, and the proof that [ValidateStructural] reports nothing
    exactly on well-formed files. *)
From S2P Require Import Prelude GoStd Ast Structural.
Open Scope Z_scope.

(** * Well-formed files *)

(** A field that may be left out, but has one of the values when it is not. *)
Definition enum (values : list string) (s : string) : Prop := s = "" ∨ s ∈ values.

Record ConfigParam_wf (p : ConfigParam) : Prop := {
  param_name : ConfigParam_Name p ≠ "";
  param_type : enum valid_param_types (ConfigParam_Type p);
  param_secret : ConfigParam_Secret p = true → ConfigParam_HasDefault p = false;
}.

Record ValidationRule_wf (r : ValidationRule) : Prop := {
  rule_name : ValidationRule_Name r ≠ "";
  rule_severity : enum valid_severities (ValidationRule_Severity r);
  rule_retries : 0 ≤ ValidationRule_MaxRetries r;
  rule_expression : ValidationRule_Expression r ≠ "";
}.

(** Not below [lo] and not above [hi]: a NaN is in every range. *)
Definition in_range (lo hi : Z) (f : float64) : Prop :=
  float_lt f (float_of_Z lo) = false ∧ float_lt (float_of_Z hi) f = false.

Record EvalCase_wf (c : EvalCase) : Prop := {
  case_name : EvalCase_Name c ≠ "";
  case_input : EvalCase_Input c ≠ "";
  case_expected : EvalCase_Expected c ≠ "";
  case_scoring : enum valid_scoring (EvalCase_Scoring c);
  case_threshold : in_range 0 1 (EvalCase_Threshold c);
}.

(** Every statement of an on-input block has its operands, at every depth. *)
Inductive OnInputStmt_wf : OnInputStmt → Prop :=
  | use_wf name params sp ep : name ≠ "" → OnInputStmt_wf (UseSkillStmt name params sp ep)
  | delegate_wf name sp ep : name ≠ "" → OnInputStmt_wf (DelegateToStmt name sp ep)
  | respond_wf expression sp ep : expression ≠ "" → OnInputStmt_wf (RespondStmt expression sp ep)
  | if_wf condition body elseIfs elseBody sp ep :
      condition ≠ "" →
      (∀ s, s ∈ body → OnInputStmt_wf s) →
      (∀ c b sp ep, mkElseIfClause c b sp ep ∈ elseIfs →
        c ≠ "" ∧ ∀ s, s ∈ b → OnInputStmt_wf s) →
      (∀ s, s ∈ elseBody → OnInputStmt_wf s) →
      OnInputStmt_wf (IfBlock condition body elseIfs elseBody sp ep)
  | foreach_wf variable collection body sp ep :
      variable ≠ "" → collection ≠ "" → (∀ s, s ∈ body → OnInputStmt_wf s) →
      OnInputStmt_wf (ForEachBlock variable collection body sp ep).

Record Agent_wf (a : Agent) : Prop := {
  agent_name : Agent_Name a ≠ "";
  agent_prompt : is_Some (Agent_Prompt a);
  agent_model : Agent_Model a = "" ↔ Agent_Models a ≠ [];
  agent_daily : float_lt (Agent_BudgetDaily a) (float_of_Z 0) = false;
  agent_monthly : float_lt (Agent_BudgetMonthly a) (float_of_Z 0) = false;
  agent_strategy : enum valid_strategies (Agent_Strategy a);
  agent_on_error : enum valid_on_error (Agent_OnError a);
  agent_fallback : Agent_OnError a = "fallback" → Agent_Fallback a ≠ "";
  agent_temperature : Agent_HasTemp a = true → in_range 0 2 (Agent_Temperature a);
  agent_params : Forall ConfigParam_wf (Agent_ConfigParams a);
  agent_rules : Forall ValidationRule_wf (Agent_ValidationRules a);
  agent_cases : Forall EvalCase_wf (Agent_EvalCases a);
  agent_on_input : ∀ block, Agent_OnInput a = Some block →
    Forall OnInputStmt_wf (OnInputBlock_Statements block);
}.

Record Prompt_wf (p : Prompt) : Prop := {
  prompt_name : Prompt_Name p ≠ "";
  prompt_content : Prompt_Content p ≠ "";
}.

Record Skill_wf (s : Skill) : Prop := {
  skill_name : Skill_Name s ≠ "";
  skill_description : Skill_Description s ≠ "";
  skill_input : Skill_Input s ≠ [];
  skill_output : Skill_Output s ≠ [];
  skill_runs : Skill_Execution s = None ↔ is_Some (Skill_ToolConfig s);
  skill_tool : ∀ tc, Skill_ToolConfig s = Some tc → ToolConfig_Type tc ∈ valid_tool_types;
}.

Record MCPServer_wf (s : MCPServer) : Prop := {
  server_name : MCPServer_Name s ≠ "";
  server_transport : MCPServer_Transport s ≠ "";
  server_command : MCPServer_Transport s = "stdio" → MCPServer_Command s ≠ "";
  server_url : MCPServer_Transport s ∈ ["sse"; "streamable-http"] → MCPServer_URL s ≠ "";
}.

Record MCPClient_wf (c : MCPClient) : Prop := {
  client_name : MCPClient_Name c ≠ "";
  client_servers : MCPClient_Servers c ≠ [];
}.

Record Secret_wf (s : Secret) : Prop := {
  secret_name : Secret_Name s ≠ "";
  secret_source : Secret_Source s ≠ "";
  secret_key : Secret_Key s ≠ "";
}.

Record Binding_wf (b : Binding) : Prop := {
  binding_name : Binding_Name b ≠ "";
  binding_adapter : Binding_Adapter b ≠ "";
}.

Record DeployTarget_wf (d : DeployTarget) : Prop := {
  deploy_name : DeployTarget_Name d ≠ "";
  deploy_target : DeployTarget_Target d ∈ valid_targets;
}.

Record TypeDef_wf (t : TypeDef) : Prop := {
  type_name : TypeDef_Name t ≠ "";
  type_shape : TypeDef_Fields t ≠ [] ∨ TypeDef_EnumVals t ≠ [] ∨ TypeDef_ListOf t ≠ "";
  type_fields : Forall (λ f, TypeField_Name f ≠ "" ∧ TypeField_Type f ≠ "") (TypeDef_Fields t);
}.

(** The steps of a pipeline have names, all different, and agents, and depend
    on other steps of the pipeline. *)
Record Pipeline_wf (p : Pipeline) : Prop := {
  pipeline_name : Pipeline_Name p ≠ "";
  pipeline_steps : Pipeline_Steps p ≠ [];
  pipeline_named : Forall (λ s, PipelineStep_Name s ≠ "" ∧ PipelineStep_Agent s ≠ "") (Pipeline_Steps p);
  pipeline_unique : NoDup (PipelineStep_Name <$> Pipeline_Steps p);
  pipeline_deps : ∀ s dep, s ∈ Pipeline_Steps p → dep ∈ PipelineStep_DependsOn s →
    dep ≠ PipelineStep_Name s ∧ dep ∈ PipelineStep_Name <$> Pipeline_Steps p;
}.

Record User_wf (u : User) : Prop := {
  user_name : User_Name u ≠ "";
  user_key : User_KeyRef u ≠ "";
  user_role : enum valid_roles (User_Role u);
}.

Record Guardrail_wf (g : Guardrail) : Prop := {
  guardrail_name : Guardrail_Name g ≠ "";
  guardrail_mode : Guardrail_Mode g ∈ valid_modes;
  guardrail_rules : Guardrail_Keywords g ≠ [] ∨ Guardrail_Patterns g ≠ [];
  guardrail_fallback : Guardrail_Mode g = "block" → Guardrail_FallbackMsg g ≠ "";
}.

Definition Statement_wf (stmt : Statement) : Prop :=
  match stmt with
  | SAgent s => Agent_wf s
  | SPrompt s => Prompt_wf s
  | SSkill s => Skill_wf s
  | SMCPServer s => MCPServer_wf s
  | SMCPClient s => MCPClient_wf s
  | SSecret s => Secret_wf s
  | SBinding s => Binding_wf s
  | SDeployTarget s => DeployTarget_wf s
  | STypeDef s => TypeDef_wf s
  | SPipeline s => Pipeline_wf s
  | SUser s => User_wf s
  | SGuardrail s => Guardrail_wf s
  | SImport s => Import_Path s ≠ ""
  | SPackage _ | SPluginRef _ | SEnvironment _ | SPolicy _ | SPlugin _ | SStateConfig _ => True
  end.

Definition File_wf (f : File) : Prop :=
  ∃ pkg, File_Package f = Some pkg ∧
    Package_Name pkg ≠ "" ∧ Package_Version pkg ≠ "" ∧ Package_LangVersion pkg ≠ "" ∧
    Forall Statement_wf (File_Statements f).

(** * From reports to propositions *)

Lemma report_nil c pos msg hint : report c pos msg hint = [] ↔ c = false.
Proof. by destruct c. Qed.

Lemma app_nil {A} (l1 l2 : list A) : l1 ++ l2 = [] ↔ l1 = [] ∧ l2 = [].
Proof. split; [apply app_eq_nil | by intros [-> ->]]. Qed.

Lemma flat_map_nil {A B} (f : A → list B) l : flat_map f l = [] ↔ Forall (λ x, f x = []) l.
Proof.
  induction l as [|x l IH]; simpl; [by split|]. by rewrite app_nil, IH, Forall_cons.
Qed.

Lemma flat_map_wf {A B} (f : A → list B) (wf : A → Prop) l :
  (∀ x, f x = [] ↔ wf x) → flat_map f l = [] ↔ Forall wf l.
Proof. intros H. rewrite flat_map_nil. by apply Forall_iff. Qed.

Lemma empty_false s : empty s = false ↔ s ≠ "".
Proof. apply String.eqb_neq. Qed.

Lemma empty_true s : empty s = true ↔ s = "".
Proof. apply String.eqb_eq. Qed.

Lemma is_empty_false {A} (l : list A) : is_empty l = false ↔ l ≠ [].
Proof. by destruct l. Qed.

Lemma is_empty_true {A} (l : list A) : is_empty l = true ↔ l = [].
Proof. by destruct l. Qed.

Lemma is_nil_false {A} (o : option A) : is_nil o = false ↔ is_Some o.
Proof. rewrite <- not_eq_None_Some. by destruct o. Qed.

Lemma is_nil_true {A} (o : option A) : is_nil o = true ↔ o = None.
Proof. by destruct o. Qed.

Lemma one_of_true values s : one_of values s = true ↔ s ∈ values.
Proof.
  unfold one_of. rewrite existsb_exists. setoid_rewrite String.eqb_eq.
  rewrite list_elem_of_In. naive_solver.
Qed.

Lemma one_of_false values s : one_of values s = false ↔ s ∉ values.
Proof. rewrite <- one_of_true. by destruct (one_of values s). Qed.

Lemma enum_report values s : negb (empty s) && negb (one_of values s) = false ↔ enum values s.
Proof.
  unfold enum. rewrite andb_false_iff, !negb_false_iff, empty_true, one_of_true. done.
Qed.

Lemma valued values s : s ∈ values → one_of values "" = false → s ≠ "".
Proof. intros V E ->. by apply one_of_true in V; rewrite V in E. Qed.

Lemma eqb_false a b : String.eqb a b = false ↔ a ≠ b.
Proof. apply String.eqb_neq. Qed.

(** [only_if] turns [c && d = false] into the implication it stands for. *)
Lemma only_if c d : c && d = false ↔ (c = true → d = false).
Proof. destruct c, d; naive_solver. Qed.

(** Rewrite the equation of a validator into the list of its requirements. *)
Create Rewrite HintDb wf.
#[export] Hint Rewrite report_nil @app_nil empty_false empty_true @is_empty_false @is_empty_true
  @is_nil_false @is_nil_true one_of_true one_of_false enum_report eqb_false
  String.eqb_eq orb_false_iff orb_true_iff andb_true_iff negb_false_iff negb_true_iff : wf.
Ltac wf_rewrite := cbv zeta; autorewrite with wf.
Ltac wf_rewrite_in H := cbv zeta in H; autorewrite with wf in H.

Lemma elem_of_pair (s a b : string) : s ∈ [a; b] ↔ s = a ∨ s = b.
Proof. set_solver. Qed.

(** Close the equivalence of the requirements with the fields of the record. *)
Ltac wf_close :=
  split; [intros; destruct_and?; split; auto | intros []; split_and?; auto].

Section facts.
Context `{GoRuntime}.

Lemma validateImport_wf i : validateImport i = [] ↔ Import_Path i ≠ "".
Proof. unfold validateImport. by wf_rewrite. Qed.

Lemma validatePrompt_wf p : validatePrompt p = [] ↔ Prompt_wf p.
Proof. unfold validatePrompt. wf_rewrite. wf_close. Qed.

Lemma validateSecret_wf s : validateSecret s = [] ↔ Secret_wf s.
Proof. unfold validateSecret. wf_rewrite. wf_close. Qed.

Lemma validateBinding_wf b : validateBinding b = [] ↔ Binding_wf b.
Proof. unfold validateBinding. wf_rewrite. wf_close. Qed.

Lemma validateMCPClient_wf c : validateMCPClient c = [] ↔ MCPClient_wf c.
Proof. unfold validateMCPClient. wf_rewrite. wf_close. Qed.

Lemma validateUser_wf u : validateUser u = [] ↔ User_wf u.
Proof. unfold validateUser. wf_rewrite. wf_close. Qed.

Lemma validateMCPServer_wf s : validateMCPServer s = [] ↔ MCPServer_wf s.
Proof.
  unfold validateMCPServer. wf_rewrite. rewrite !only_if. wf_rewrite.
  split.
  - intros (? & ? & ? & U). split; try done. by rewrite elem_of_pair.
  - intros [? ? ? U]. rewrite elem_of_pair in U. by split_and!.
Qed.

Lemma validateDeployTarget_wf d : validateDeployTarget d = [] ↔ DeployTarget_wf d.
Proof.
  unfold validateDeployTarget. wf_rewrite. unfold enum.
  split; [intros (? & ? & [?|?]); by split | intros [? D]; split_and!; [done | | by right]].
  by eapply valued.
Qed.

Lemma validateGuardrail_wf g : validateGuardrail g = [] ↔ Guardrail_wf g.
Proof.
  unfold validateGuardrail. wf_rewrite. rewrite !only_if. wf_rewrite. unfold enum.
  split.
  - intros (? & ? & [?|?] & K & ?); [done|]. split; try done.
    destruct (Guardrail_Keywords g); [right; auto | by left].
  - intros [? M K ?]. split_and!; try done; [by eapply valued | by right |].
    intros K'. by destruct K.
Qed.

Lemma validateTypeDef_wf t : validateTypeDef t = [] ↔ TypeDef_wf t.
Proof.
  unfold validateTypeDef. wf_rewrite.
  rewrite (flat_map_wf _ (λ f, TypeField_Name f ≠ "" ∧ TypeField_Type f ≠ ""))
    by (intros; by wf_rewrite).
  rewrite !only_if. wf_rewrite. split.
  - intros (? & S & ?). split; try done.
    destruct (TypeDef_Fields t); [|by left]. destruct (TypeDef_EnumVals t); auto.
  - intros [? S ?]. split_and!; try done. intros [F E]. naive_solver.
Qed.

Lemma validateSkill_wf s : validateSkill s = [] ↔ Skill_wf s.
Proof.
  unfold validateSkill. wf_rewrite. rewrite !only_if. wf_rewrite. split.
  - intros (? & ? & ? & ? & R1 & R2 & T). split; try done.
    + split; [done|]. destruct (Skill_Execution s); [|done]. intros [tc E].
      by rewrite R2 in E.
    + intros tc E. rewrite E in T. by wf_rewrite_in T.
  - intros [? ? ? ? [R1 R2] T]. split_and!; try done.
    + destruct (Skill_ToolConfig s); [|done]. intros [e E]. by rewrite R2 in E.
    + destruct (Skill_ToolConfig s); [|done]. wf_rewrite. auto.
Qed.

Lemma validateConfigParams_wf a :
  validateConfigParams a = [] ↔ Forall ConfigParam_wf (Agent_ConfigParams a).
Proof.
  apply flat_map_wf. intros p. wf_rewrite. rewrite only_if. wf_close.
Qed.

Lemma validateValidationRules_wf a :
  validateValidationRules a = [] ↔ Forall ValidationRule_wf (Agent_ValidationRules a).
Proof. apply flat_map_wf. intros r. wf_rewrite. rewrite Z.ltb_ge. wf_close. Qed.

Lemma validateEvalCases_wf a :
  validateEvalCases a = [] ↔ Forall EvalCase_wf (Agent_EvalCases a).
Proof.
  apply flat_map_wf. intros c. wf_rewrite.
  split; [intros (?&?&?&?&?&?); by repeat split | intros [? ? ? ? []]; by split_and!].
Qed.

(** Lists of statements that are each validated exactly. *)
Lemma stmts_wf name l (IH : Forall (λ s, validateOnInputStmt name s = [] ↔ OnInputStmt_wf s) l) :
  flat_map (validateOnInputStmt name) l = [] ↔ ∀ s, s ∈ l → OnInputStmt_wf s.
Proof.
  rewrite flat_map_nil, Forall_forall. rewrite Forall_forall in IH.
  split; intros F s I; by apply (IH s I), F.
Qed.

Lemma elseIfs_wf name elseIfs
    (IH : Forall (λ '(mkElseIfClause _ b _ _),
      Forall (λ s, validateOnInputStmt name s = [] ↔ OnInputStmt_wf s) b) elseIfs) :
  flat_map (λ '(mkElseIfClause c b pos _),
    report (empty c) pos "else if requires a condition" "" ++
    flat_map (validateOnInputStmt name) b) elseIfs = [] ↔
  ∀ c b sp ep, mkElseIfClause c b sp ep ∈ elseIfs → c ≠ "" ∧ ∀ s, s ∈ b → OnInputStmt_wf s.
Proof.
  rewrite flat_map_nil, Forall_forall. rewrite Forall_forall in IH. split.
  - intros F c b sp ep I. specialize (F _ I). specialize (IH _ I). simpl in *.
    wf_rewrite_in F. by rewrite (stmts_wf name b) in F.
  - intros F [c b sp ep] I. specialize (F c b sp ep I). specialize (IH _ I). simpl in *.
    wf_rewrite. by rewrite (stmts_wf name b).
Qed.

Lemma validateOnInputStmt_wf name : ∀ s, validateOnInputStmt name s = [] ↔ OnInputStmt_wf s.
Proof.
  induction s as [n params sp ep|n sp ep|e sp ep|c body elseIfs elseBody sp ep IHb IHe IHl
    |v c body sp ep IHb] using OnInputStmt_nested_ind; simpl; wf_rewrite.
  1-3: split; [by constructor | by inversion 1].
  - rewrite (stmts_wf name body), (stmts_wf name elseBody) by done.
    rewrite (elseIfs_wf name elseIfs) by done.
    split; [intros (?&?&?&?); by constructor | by inversion 1].
  - rewrite (stmts_wf name body) by done.
    split; [intros (?&?&?); by constructor | by inversion 1].
Qed.

Lemma validateAgent_wf a : validateAgent a = [] ↔ Agent_wf a.
Proof.
  unfold validateAgent. wf_rewrite.
  rewrite validateConfigParams_wf, validateValidationRules_wf, validateEvalCases_wf, !only_if.
  wf_rewrite. split.
  - intros (?&?&M1&M2&?&?&?&?&?&?&?&?&?&O). split; try done.
    + split; [done|]. intros N. destruct (decide (Agent_Model a = "")); [done|]. naive_solver.
    + intros block E. rewrite E in O. by apply (flat_map_wf _ _ _ (validateOnInputStmt_wf _)) in O.
  - intros [? ? [M1 M2] ? ? ? ? ? ? ? ? ? O]. split_and!; try done.
    + intros N. destruct (Agent_Models a); [done|]. by destruct N, M2.
    + destruct (Agent_OnInput a) as [block|]; [|done].
      by apply (flat_map_wf _ _ _ (validateOnInputStmt_wf _)), O.
Qed.

(** ** Pipelines *)

Definition step_ok (step : PipelineStep) : Prop :=
  PipelineStep_Name step ≠ "" ∧ PipelineStep_Agent step ≠ "".

(** The first loop never drops an error, and reports nothing exactly when the
    steps have new, different names. *)
Lemma check_steps_wf p steps seen errs :
  (foldl (check_step p) (seen, errs) steps).2 = [] ↔
  errs = [] ∧ Forall step_ok steps ∧ NoDup (PipelineStep_Name <$> steps) ∧
  Forall (λ n, n ∉ seen) (PipelineStep_Name <$> steps).
Proof.
  revert seen errs. induction steps as [|s steps IH]; intros seen errs; csimpl.
  { split; [intros ->; by repeat constructor | by intros [-> _]]. }
  rewrite NoDup_cons, !Forall_cons. unfold step_ok at 1.
  destruct (empty (PipelineStep_Name s)) eqn:E.
  - apply empty_true in E. rewrite IH.
    split; [by intros [[? ?]%app_nil _] | by intros (_ & [[] _] & _)].
  - apply empty_false in E. rewrite IH. wf_rewrite. rewrite bool_decide_eq_false.
    split.
    + intros ([-> [? ?]] & ? & ? & F). split_and!; try done.
      * intros I. rewrite Forall_forall in F. specialize (F _ I). set_solver.
      * eapply Forall_impl; [done|]. set_solver.
    + intros (-> & [[? ?] ?] & [N ?] & ? & F). split_and!; try done.
      rewrite Forall_forall in *. intros n I. specialize (F n I).
      assert (n ≠ PipelineStep_Name s) by (by intros ->). set_solver.
Qed.

Lemma check_steps_seen p steps seen errs :
  Forall step_ok steps →
  ∀ n, n ∈ (foldl (check_step p) (seen, errs) steps).1 ↔
       n ∈ seen ∨ n ∈ PipelineStep_Name <$> steps.
Proof.
  revert seen errs. induction steps as [|s steps IH]; intros seen errs F n; csimpl; [set_solver|].
  apply Forall_cons in F as [[N _] F].
  apply empty_false in N. rewrite N, (IH _ _ F), elem_of_cons. set_solver.
Qed.

Lemma validatePipeline_wf p : validatePipeline p = [] ↔ Pipeline_wf p.
Proof.
  unfold validatePipeline.
  destruct (foldl (check_step p) (∅, []) (Pipeline_Steps p)) as [seen errs] eqn:E.
  pose proof (check_steps_wf p (Pipeline_Steps p) ∅ []) as W. rewrite E in W. simpl in W.
  wf_rewrite. rewrite W. clear W.
  assert (Forall step_ok (Pipeline_Steps p) →
    flat_map (check_depends_on seen) (Pipeline_Steps p) = [] ↔
    ∀ s dep, s ∈ Pipeline_Steps p → dep ∈ PipelineStep_DependsOn s →
      dep ≠ PipelineStep_Name s ∧ dep ∈ PipelineStep_Name <$> Pipeline_Steps p) as D.
  { intros F. pose proof (check_steps_seen p (Pipeline_Steps p) ∅ [] F) as S.
    rewrite E in S. simpl in S.
    rewrite flat_map_nil, Forall_forall. apply forall_proper. intros s.
    unfold check_depends_on. setoid_rewrite flat_map_nil. setoid_rewrite Forall_forall.
    setoid_rewrite app_nil. setoid_rewrite report_nil.
    setoid_rewrite negb_false_iff. setoid_rewrite bool_decide_eq_true.
    setoid_rewrite String.eqb_neq. set_solver. }
  split.
  - intros (? & ? & (_ & F & ? & _) & R). split; try done. by apply D.
  - intros [? ? F ? R]. split_and!; try done; [|by apply D].
    apply Forall_forall. set_solver.
Qed.

Lemma validateStatement_wf stmt : validateStatement stmt = [] ↔ Statement_wf stmt.
Proof.
  destruct stmt; simpl; try done.
  - apply validateImport_wf.
  - apply validateAgent_wf.
  - apply validatePrompt_wf.
  - apply validateSkill_wf.
  - apply validateMCPServer_wf.
  - apply validateMCPClient_wf.
  - apply validateSecret_wf.
  - apply validateBinding_wf.
  - apply validateDeployTarget_wf.
  - apply validateUser_wf.
  - apply validateGuardrail_wf.
  - apply validateTypeDef_wf.
  - apply validatePipeline_wf.
Qed.
End facts.


(** Files that the documentation says are rejected: a pipeline with a cycle, a
    stdio server with a URL, a server with an unknown transport, an enum with
    one value twice, and a required field with a default. *)
Example accepted_against_documentation (H : GoRuntime) :
  let step name dep := mkPipelineStep name "ag" "" "" [dep] false "" zero_Pos zero_Pos in
  let pkg := zero_Package <| Package_Name := "p" |> <| Package_Version := "1" |> <| Package_LangVersion := "3.0" |> in
  let field := mkTypeField "x" "int" true "1" zero_Pos zero_Pos in
  ValidateStructural (mkFile "f" (Some pkg)
    [SPipeline (mkPipeline "p" [step "a" "b"; step "b" "a"] zero_Pos zero_Pos);
     SMCPServer (mkMCPServer "s" "stdio" "run" [] "http://x" None [] ∅ ∅ zero_Pos zero_Pos);
     SMCPServer (mkMCPServer "t" "carrier-pigeon" "" [] "" None [] ∅ ∅ zero_Pos zero_Pos);
     STypeDef (mkTypeDef "e" [] ["low"; "low"] "" zero_Pos zero_Pos);
     STypeDef (mkTypeDef "t" [field; field] [] "" zero_Pos zero_Pos)] zero_Pos zero_Pos) = [].
Proof. vm_compute. reflexivity. Qed.

(** A rule without a condition, and the scoring method regex, which the
    documentation describes, are reported. *)
Example rejected_against_documentation (H : GoRuntime) :
  validateValidationRules (zero_Agent <| Agent_ValidationRules :=
    [zero_ValidationRule <| ValidationRule_Name := "r" |> <| ValidationRule_Severity := "error" |>] |>) ≠ [] ∧
  validateEvalCases (zero_Agent <| Agent_EvalCases :=
    [zero_EvalCase <| EvalCase_Name := "c" |> <| EvalCase_Input := "i" |> <| EvalCase_Expected := "e" |>
       <| EvalCase_Scoring := "regex" |>] |>) ≠ [].
Proof. by vm_compute. Qed.
