(* ===== verification/EditDistance.v ===== *)
(** levenshtein (internal/validate/semantic.go): the two-row dynamic program,
    and the proof that it computes the edit distance, the least number of
    insertions, deletions and replacements of bytes between two strings. *)
From S2P Require Import Prelude.
From Stdlib Require Import Lia.

Open Scope nat_scope.

(** * The program

    [prev] and [curr] are the two rows, of length [lb + 1]; the loops update
    them in place and exchange them after each row. *)

Definition byte_at (s : string) (i : nat) : Ascii.ascii :=
  default Ascii.zero (String.get i s).

Definition row_get (row : list nat) (j : nat) : nat := default 0 (row !! j).

(** [curr[j] = min(curr[j-1]+1, min(prev[j]+1, prev[j-1]+cost))] *)
Definition lev_cell (a b : string) (i : nat) (prev curr : list nat) (j : nat) : list nat :=
  let cost := if Ascii.eqb (byte_at a (i - 1)) (byte_at b (j - 1)) then 0 else 1 in
  <[j := Nat.min (row_get curr (j - 1) + 1)
           (Nat.min (row_get prev j + 1) (row_get prev (j - 1) + cost))]> curr.

(** The body of the outer loop: the new [(prev, curr)]. *)
Definition lev_row (a b : string) (rows : list nat * list nat) (i : nat) : list nat * list nat :=
  let '(prev, curr) := rows in
  (foldl (lev_cell a b i prev) (<[0 := i]> curr) (seq 1 (String.length b)), prev).

Definition levenshtein (a b : string) : nat :=
  let la := String.length a in
  let lb := String.length b in
  if la =? 0 then lb
  else if lb =? 0 then la
  else
    let rows := foldl (lev_row a b) (seq 0 (lb + 1), replicate (lb + 1) 0) (seq 1 la) in
    row_get rows.1 lb.

(** * Edit scripts *)

Section edits.
Context {A : Type}.

(** [edits n a b]: [n] edits, applied along an alignment, turn [a] into [b]. *)
Inductive edits : nat → list A → list A → Prop :=
  | edits_nil : edits 0 [] []
  | edits_keep n x a b : edits n a b → edits n (x :: a) (x :: b)
  | edits_replace n x y a b : edits n a b → edits (S n) (x :: a) (y :: b)
  | edits_delete n x a b : edits n a b → edits (S n) (x :: a) b
  | edits_insert n y a b : edits n a b → edits (S n) a (y :: b).

Lemma edits_app n1 a1 b1 n2 a2 b2 :
  edits n1 a1 b1 → edits n2 a2 b2 → edits (n1 + n2) (a1 ++ a2) (b1 ++ b2).
Proof. induction 1; intros; simpl; try constructor; auto. Qed.

Lemma edits_rev n a b : edits n a b → edits n (rev a) (rev b).
Proof.
  induction 1 as [|n x a b _ IH|n x y a b _ IH|n x a b _ IH|n y a b _ IH]; simpl.
  - constructor.
  - rewrite <- (Nat.add_0_r n). apply edits_app; [done | repeat constructor].
  - rewrite <- Nat.add_1_r. apply edits_app; [done | repeat constructor].
  - rewrite <- Nat.add_1_r, <- (app_nil_r (rev b)). apply edits_app; [done | repeat constructor].
  - rewrite <- Nat.add_1_r, <- (app_nil_r (rev a)). apply edits_app; [done | repeat constructor].
Qed.

Lemma edits_nil_l b : edits (length b) [] b.
Proof. induction b; by constructor. Qed.

Lemma edits_nil_r a : edits (length a) a [].
Proof. induction a; by constructor. Qed.

Lemma edits_length n a b : edits n a b → length b ≤ length a + n ∧ length a ≤ length b + n.
Proof. induction 1; simpl; lia. Qed.

(** * The recurrence *)

Context `{EqDecision A}.

Definition cost (x y : A) : nat := if decide (x = y) then 0 else 1.

Fixpoint dist (a b : list A) {struct a} : nat :=
  match a with
  | [] => length b
  | x :: a' =>
      (fix dist_b (b : list A) : nat :=
         match b with
         | [] => length a
         | y :: b' => Nat.min (dist_b b' + 1) (Nat.min (dist a' b + 1) (dist a' b' + cost x y))
         end) b
  end.

Lemma dist_nil_l b : dist [] b = length b.
Proof. done. Qed.

Lemma dist_nil_r a : dist a [] = length a.
Proof. by destruct a. Qed.

Lemma dist_cons x a y b :
  dist (x :: a) (y :: b) =
    Nat.min (dist (x :: a) b + 1) (Nat.min (dist a (y :: b) + 1) (dist a b + cost x y)).
Proof. done. Qed.

(** The recurrence is achieved by a script, and no script is shorter. *)
Lemma edits_dist a b : edits (dist a b) a b.
Proof.
  revert b. induction a as [|x a IHa]; intros b; [apply edits_nil_l|].
  induction b as [|y b IHb]; [apply edits_nil_r|]. rewrite dist_cons.
  destruct (Nat.min_dec (dist (x :: a) b + 1)
    (Nat.min (dist a (y :: b) + 1) (dist a b + cost x y))) as [->| ->].
  { rewrite Nat.add_1_r. by constructor. }
  destruct (Nat.min_dec (dist a (y :: b) + 1) (dist a b + cost x y)) as [->| ->].
  { rewrite Nat.add_1_r. by constructor. }
  unfold cost. destruct (decide (x = y)) as [->|].
  - rewrite Nat.add_0_r. by constructor.
  - rewrite Nat.add_1_r. by constructor.
Qed.

Lemma dist_step_l x a b : dist a b ≤ dist (x :: a) b + 1 ∧ dist (x :: a) b ≤ dist a b + 1.
Proof.
  revert x b. induction a as [|x' a IHa]; intros x b.
  - induction b as [|y b IHb]; [simpl; lia|].
    rewrite dist_cons. rewrite !dist_nil_l in *. cbn [length]. unfold cost. destruct (decide _); lia.
  - induction b as [|y b IHb]; [simpl; lia|]. rewrite !(dist_cons x), (dist_cons x').
    destruct (IHa x' b). unfold cost. repeat destruct (decide _); lia.
Qed.

Lemma dist_step_r y a b : dist a b ≤ dist a (y :: b) + 1 ∧ dist a (y :: b) ≤ dist a b + 1.
Proof.
  revert y b. induction a as [|x a IHa]; intros y b; [simpl; lia|].
  destruct (IHa y b). destruct (dist_step_l x a b), (dist_step_l x a (y :: b)).
  rewrite dist_cons. unfold cost. destruct (decide _); lia.
Qed.

Lemma dist_le_edits n a b : edits n a b → dist a b ≤ n.
Proof.
  induction 1 as [|n x a b _ IH|n x y a b _ IH|n x a b _ IH|n y a b _ IH]; [done|..].
  - rewrite dist_cons. unfold cost. destruct (decide _); [lia | done].
  - rewrite dist_cons. unfold cost. destruct (decide _); lia.
  - destruct (dist_step_l x a b); lia.
  - destruct (dist_step_r y a b); lia.
Qed.
End edits.

(** * The rows hold the recurrence on prefixes *)

Notation bytes s := (String.list_ascii_of_string s).

Lemma length_bytes s : length (bytes s) = String.length s.
Proof. induction s; simpl; congruence. Qed.

Lemma get_bytes s i : String.get i s = bytes s !! i.
Proof. revert i. induction s; intros [|i]; simpl; auto. Qed.

Lemma row_get_insert row i x j :
  i < length row → row_get (<[i := x]> row) j = if decide (i = j) then x else row_get row j.
Proof.
  intros H. unfold row_get. destruct (decide (i = j)) as [->|].
  - by rewrite list_lookup_insert_eq.
  - by rewrite list_lookup_insert_ne.
Qed.

Section rows.
Context (a b : string).

Definition prefix_dist (i j : nat) : nat :=
  dist (rev (take i (bytes a))) (rev (take j (bytes b))).

Lemma prefix_dist_0_l j : j ≤ String.length b → prefix_dist 0 j = j.
Proof.
  intros. unfold prefix_dist. simpl. rewrite length_rev, length_take, length_bytes. lia.
Qed.

Lemma prefix_dist_0_r i : i ≤ String.length a → prefix_dist i 0 = i.
Proof.
  intros. unfold prefix_dist. simpl. rewrite dist_nil_r, length_rev, length_take, length_bytes. lia.
Qed.

Lemma rev_take_S s i : i < String.length s →
  rev (take (S i) (bytes s)) = byte_at s i :: rev (take i (bytes s)).
Proof.
  intros L. rewrite <- length_bytes in L. apply lookup_lt_is_Some_2 in L as [x E].
  rewrite (take_S_r _ _ x E), rev_app_distr. unfold byte_at. by rewrite get_bytes, E.
Qed.

Lemma prefix_dist_S i j : i < String.length a → j < String.length b →
  prefix_dist (S i) (S j) =
    Nat.min (prefix_dist (S i) j + 1)
      (Nat.min (prefix_dist i (S j) + 1)
         (prefix_dist i j + if Ascii.eqb (byte_at a i) (byte_at b j) then 0 else 1)).
Proof.
  intros La Lb. unfold prefix_dist. rewrite !(rev_take_S a i La), !(rev_take_S b j Lb), dist_cons.
  unfold cost. destruct (Ascii.eqb_spec (byte_at a i) (byte_at b j)), (decide _); congruence.
Qed.

(** [row] holds the distances of the [i]-th prefix of [a] up to column [n]. *)
Definition holds (i : nat) (row : list nat) (n : nat) : Prop :=
  length row = String.length b + 1 ∧ ∀ j, j ≤ n → row_get row j = prefix_dist i j.

Lemma lev_cells i prev curr n :
  i < String.length a → n ≤ String.length b →
  holds i prev (String.length b) → length curr = String.length b + 1 →
  holds (S i) (foldl (lev_cell a b (S i) prev) (<[0 := S i]> curr) (seq 1 n)) n.
Proof.
  intros La Lb [_ Hp] Lc. induction n as [|n IH].
  - simpl. split; [by rewrite length_insert|]. intros j Hj.
    replace j with 0 by lia. rewrite row_get_insert by lia. simpl.
    by rewrite prefix_dist_0_r by lia.
  - rewrite seq_S, foldl_app. destruct IH as [L H]; [lia|]. simpl.
    set (row := foldl _ _ _) in *. unfold lev_cell. split; [by rewrite length_insert|].
    intros j Hj. rewrite row_get_insert by lia. destruct (decide (S n = j)) as [<-|].
    + rewrite prefix_dist_S by lia. replace (S n - 1) with n by lia. replace (S i - 1) with i by lia.
      by rewrite (H n), (Hp (S n)), (Hp n) by lia.
    + apply H. lia.
Qed.

Lemma lev_rows n :
  n ≤ String.length a →
  let rows := foldl (lev_row a b)
    (seq 0 (String.length b + 1), replicate (String.length b + 1) 0) (seq 1 n) in
  holds n rows.1 (String.length b) ∧ length rows.2 = String.length b + 1.
Proof.
  intros La. induction n as [|n IH]; cbv zeta.
  - simpl. rewrite length_replicate. split; [|done]. split; [by rewrite length_seq|].
    intros j Hj. rewrite prefix_dist_0_l by done. unfold row_get.
    by rewrite lookup_seq_lt by lia.
  - rewrite seq_S, foldl_app. simpl. destruct IH as [Hp Lc]; [lia|].
    destruct (foldl _ _ _) as [prev curr]. simpl in *. split; [by apply lev_cells|]. apply Hp.
Qed.

Lemma levenshtein_dist : levenshtein a b = prefix_dist (String.length a) (String.length b).
Proof.
  unfold levenshtein. destruct (Nat.eqb_spec (String.length a) 0) as [->|].
  { by rewrite prefix_dist_0_l. }
  destruct (Nat.eqb_spec (String.length b) 0) as [->|].
  { by rewrite prefix_dist_0_r. }
  destruct (lev_rows (String.length a)) as [[_ H] _]; [done|]. by rewrite H.
Qed.
End rows.

(** C27. levenshtein computes the edit distance: some script of [levenshtein a b]
    insertions, deletions and replacements of single bytes turns [a] into [b],
    and every script has at least that many edits. *)
Theorem levenshtein_edit_distance (a b : string) :
  edits (levenshtein a b) (bytes a) (bytes b) ∧
  ∀ n, edits n (bytes a) (bytes b) → levenshtein a b ≤ n.
Proof.
  rewrite levenshtein_dist. unfold prefix_dist. rewrite <- !length_bytes, !firstn_all. split.
  - rewrite <- (rev_involutive (bytes a)) at 2. rewrite <- (rev_involutive (bytes b)) at 2.
    apply edits_rev, edits_dist.
  - intros n E. by apply dist_le_edits, edits_rev.
Qed.
