(* ===== verification/Semantic.v ===== *)
(** Semantic validation (internal/validate/semantic.go and environment.go):
    references between declarations, prompt variables, defaults, and the
    overrides of environments. *)
From S2P Require Import Prelude GoStd Ast Structural EditDistance.
Open Scope Z_scope.

(** * Declared names *)

(** map[string]map[string]bool; an absent kind has no names. *)
Notation Names := (gmap string (gset string)).

Definition names_at (names : Names) (kind : string) : gset string := default ∅ (names !! kind).
Definition has_name (names : Names) (kind name : string) : bool :=
  bool_decide (name ∈ names_at names kind).

Definition declared_kinds : list string :=
  ["Agent"; "Prompt"; "Skill"; "MCPServer"; "MCPClient"; "Secret"; "Environment"; "Policy";
   "Binding"; "DeployTarget"; "Type"; "Pipeline"; "User"; "Guardrail"].

(** [names[kind][name] = true] *)
Definition add_name (names : Names) (kind name : string) : Names :=
  <[kind := {[name]} ∪ names_at names kind]> names.

Definition collect_statement (names : Names) (stmt : Statement) : Names :=
  match stmt with
  | SAgent s => add_name names "Agent" (Agent_Name s)
  | SPrompt s => add_name names "Prompt" (Prompt_Name s)
  | SSkill s => add_name names "Skill" (Skill_Name s)
  | SMCPServer s => add_name names "MCPServer" (MCPServer_Name s)
  | SMCPClient s => add_name names "MCPClient" (MCPClient_Name s)
  | SSecret s => add_name names "Secret" (Secret_Name s)
  | SEnvironment s => add_name names "Environment" (Environment_Name s)
  | SPolicy s => add_name names "Policy" (Policy_Name s)
  | SBinding s => add_name names "Binding" (Binding_Name s)
  | SDeployTarget s => add_name names "DeployTarget" (DeployTarget_Name s)
  | STypeDef s => add_name names "Type" (TypeDef_Name s)
  | SPipeline s => add_name names "Pipeline" (Pipeline_Name s)
  | SUser s => add_name names "User" (User_Name s)
  | SGuardrail s => add_name names "Guardrail" (Guardrail_Name s)
  | _ => names
  end.

Definition collectNames (f : File) : Names :=
  foldl collect_statement (list_to_map ((λ k, (k, ∅)) <$> declared_kinds)) (File_Statements f).

Section semantic.
Context `{GoRuntime}.

(** * Suggestions *)

(** The loop of suggestName: the best name so far and its distance. *)
Definition closer (name : string) (acc : string * nat) (n : string) : string * nat :=
  let d := levenshtein name n in
  if (d <? acc.2)%nat then (n, d) else acc.

(** suggestName returns a "did you mean?" hint if a close match exists. *)
Definition suggestName (name : string) (available : gset string) : string :=
  if bool_decide (available = ∅) then ""
  else
    let names := sort_strings (elements available) in
    let best := foldl (closer name) ("", String.length name / 2 + 1)%nat names in
    if negb (empty best.1) then "did you mean " +:+ quote best.1 +:+ "?"
    else "available: " +:+ Join names ", ".

(** * References *)

(** [if !names[kind][name] { errs = append(errs, posError(pos, msg,
    suggestName(name, names[kind]))) }] *)
Definition resolve (names : Names) (kind name : string) (pos : Pos) (msg : string)
    : list ValidationError :=
  report (negb (has_name names kind name)) pos msg (suggestName name (names_at names kind)).

Definition resolve_skill (names : Names) (skill : Ref) : list ValidationError :=
  resolve names "Skill" (Ref_Name skill) (Ref_StartPos skill)
    ("skill " +:+ quote (Ref_Name skill) +:+ " not found").

(** validateOnInputRefs on one statement. *)
Fixpoint validate_on_input_ref (names : Names) (stmt : OnInputStmt) : list ValidationError :=
  match stmt with
  | UseSkillStmt name _ pos _ =>
      resolve names "Skill" name pos ("skill " +:+ quote name +:+ " not found")
  | DelegateToStmt name pos _ =>
      resolve names "Agent" name pos ("delegate agent " +:+ quote name +:+ " not found")
  | RespondStmt _ _ _ => []
  | IfBlock _ body elseIfs elseBody _ _ =>
      flat_map (validate_on_input_ref names) body ++
      flat_map (λ '(mkElseIfClause _ body _ _), flat_map (validate_on_input_ref names) body) elseIfs ++
      flat_map (validate_on_input_ref names) elseBody
  | ForEachBlock _ _ body _ _ => flat_map (validate_on_input_ref names) body
  end.

Definition validateOnInputRefs (stmts : list OnInputStmt) (names : Names) : list ValidationError :=
  flat_map (validate_on_input_ref names) stmts.

Definition check_agent_refs (names : Names) (s : Agent) : list ValidationError :=
  match Agent_Prompt s with
  | Some r => resolve names "Prompt" (Ref_Name r) (Ref_StartPos r)
                ("prompt " +:+ quote (Ref_Name r) +:+ " not found")
  | None => []
  end ++
  flat_map (resolve_skill names) (Agent_Skills s) ++
  match Agent_Client s with
  | Some r => resolve names "MCPClient" (Ref_Name r) (Ref_StartPos r)
                ("client " +:+ quote (Ref_Name r) +:+ " not found")
  | None => []
  end ++
  (if empty (Agent_Fallback s) then []
   else
     resolve names "Agent" (Agent_Fallback s) (Agent_StartPos s)
       ("fallback agent " +:+ quote (Agent_Fallback s) +:+ " not found") ++
     report (String.eqb (Agent_Fallback s) (Agent_Name s)) (Agent_StartPos s)
       ("agent " +:+ quote (Agent_Name s) +:+ " cannot fallback to itself") "") ++
  flat_map (λ d, resolve names "Agent" (Delegate_AgentRef d) (Delegate_StartPos d)
    ("delegate agent " +:+ quote (Delegate_AgentRef d) +:+ " not found")) (Agent_Delegates s) ++
  match Agent_OnInput s with
  | Some block => validateOnInputRefs (OnInputBlock_Statements block) names
  | None => []
  end ++
  flat_map (λ gr, resolve names "Guardrail" gr (Agent_StartPos s)
    ("guardrail " +:+ quote gr +:+ " not found")) (Agent_GuardrailRefs s).

(** The server of a tool reference "server/tool". *)
Definition tool_server (s : Skill) : option (ToolConfig * string) :=
  match Skill_ToolConfig s with
  | Some tc =>
      if String.eqb (ToolConfig_Type tc) "mcp" && negb (empty (ToolConfig_ServerTool tc)) then
        match SplitN2 (ToolConfig_ServerTool tc) "/" with
        | [serverName; _] => Some (tc, serverName)
        | _ => None
        end
      else None
  | None => None
  end.

Definition check_skill_refs (names : Names) (s : Skill) : list ValidationError :=
  match tool_server s with
  | Some (tc, serverName) =>
      resolve names "MCPServer" serverName (ToolConfig_StartPos tc)
        ("MCP server " +:+ quote serverName +:+ " not found in tool reference " +:+
         quote (ToolConfig_ServerTool tc))
  | None => []
  end.

Definition check_client_refs (names : Names) (s : MCPClient) : list ValidationError :=
  flat_map (λ server, resolve names "MCPServer" (Ref_Name server) (Ref_StartPos server)
    ("server " +:+ quote (Ref_Name server) +:+ " not found")) (MCPClient_Servers s).

Definition check_pipeline_refs (names : Names) (s : Pipeline) : list ValidationError :=
  flat_map (λ step,
    if empty (PipelineStep_Agent step) then []
    else resolve names "Agent" (PipelineStep_Agent step) (PipelineStep_StartPos step)
           ("step " +:+ quote (PipelineStep_Name step) +:+ " references unknown agent " +:+
            quote (PipelineStep_Agent step))) (Pipeline_Steps s).

Definition check_server_refs (names : Names) (s : MCPServer) : list ValidationError :=
  flat_map (resolve_skill names) (MCPServer_Skills s) ++
  match MCPServer_Auth s with
  | Some r => resolve names "Secret" (Ref_Name r) (Ref_StartPos r)
                ("secret " +:+ quote (Ref_Name r) +:+ " not found")
  | None => []
  end.

Definition check_user_refs (names : Names) (s : User) : list ValidationError :=
  flat_map (λ agentName, resolve names "Agent" agentName (User_StartPos s)
    ("user " +:+ quote (User_Name s) +:+ " references unknown agent " +:+ quote agentName))
    (User_Agents s).

(** * Prompt variables *)

(** The variable whose braces open at offset [i] of the content. *)
Definition variable_at (content : string) (i : nat) : option string :=
  let rest := str_drop i content in
  if HasPrefix rest "{{" then
    let inner := str_drop 2 rest in
    (λ e, TrimSpace (str_take e inner)) <$> Index inner "}}"
  else None.

Definition check_prompt_vars (s : Prompt) : list ValidationError :=
  if is_empty (Prompt_Variables s) then []
  else
    let declaredVars := VariableDecl_Name <$> Prompt_Variables s in
    flat_map (λ i,
      match variable_at (Prompt_Content s) i with
      | Some varName =>
          report (negb (one_of declaredVars varName)) (Prompt_StartPos s)
            ("prompt " +:+ quote (Prompt_Name s) +:+ " references undeclared variable {{" +:+
             varName +:+ "}}")
            "add variable declaration in the variables block"
      | None => []
      end) (seq 0 (String.length (Prompt_Content s) - 3)).

(** * The file *)

Definition check_refs (names : Names) (stmt : Statement) : list ValidationError :=
  match stmt with
  | SAgent s => check_agent_refs names s
  | SSkill s => check_skill_refs names s
  | SMCPClient s => check_client_refs names s
  | SPipeline s => check_pipeline_refs names s
  | SPrompt s => check_prompt_vars s
  | SMCPServer s => check_server_refs names s
  | SUser s => check_user_refs names s
  | _ => []
  end.

Definition is_default_binding (stmt : Statement) : bool :=
  match stmt with SBinding b => Binding_Default b | _ => false end.

Definition is_default_deploy (stmt : Statement) : bool :=
  match stmt with SDeployTarget d => DeployTarget_Default d | _ => false end.

(** The two counting loops. *)
Definition count (c : Statement → bool) (f : File) : nat :=
  foldl (λ n stmt, if c stmt then S n else n) O (File_Statements f).

Definition file_error (f : File) (msg hint : string) : ValidationError :=
  mkValidationError (File_Path f) 1 1 msg hint.

Definition ValidateSemantic (f : File) : list ValidationError :=
  let names := collectNames f in
  flat_map (check_refs names) (File_Statements f) ++
  (if (1 <? count is_default_binding f)%nat
   then [file_error f "multiple bindings marked as default" "only one binding may be the default"]
   else []) ++
  (if (1 <? count is_default_deploy f)%nat
   then [file_error f "multiple deploy targets marked as default"
           "only one deploy target may be the default"]
   else []).

(** * Environments *)

(** The "kind/name" under which a declaration can be overridden. *)
Definition override_target (stmt : Statement) : option string :=
  match stmt with
  | SAgent s => Some ("agent/" +:+ Agent_Name s)
  | SPrompt s => Some ("prompt/" +:+ Prompt_Name s)
  | SSkill s => Some ("skill/" +:+ Skill_Name s)
  | SMCPServer s => Some ("server/" +:+ MCPServer_Name s)
  | SMCPClient s => Some ("client/" +:+ MCPClient_Name s)
  | SSecret s => Some ("secret/" +:+ Secret_Name s)
  | _ => None
  end.

Definition override_key (ov : Override) : string :=
  Override_Resource ov +:+ "." +:+ Override_Attribute ov.

(** One round of the loop over the overrides: the map seen and the errors. *)
Definition check_override (env : string) (targets : list string)
    (acc : gset string * list ValidationError) (ov : Override)
    : gset string * list ValidationError :=
  let '(seen, errs) := acc in
  let key := override_key ov in
  let named := "environment " +:+ quote env in
  ({[key]} ∪ seen,
   errs ++
   report (bool_decide (key ∈ seen)) (Override_StartPos ov)
     ("conflicting override in " +:+ named +:+ ": " +:+ Override_Resource ov +:+ "." +:+
      Override_Attribute ov +:+ " set multiple times")
     "each attribute may only be overridden once per environment" ++
   report (negb (one_of targets (Override_Resource ov))) (Override_StartPos ov)
     (named +:+ ": override target " +:+ quote (Override_Resource ov) +:+ " not found")
     "check the resource kind and name").

Definition ValidateEnvironments (f : File) : list ValidationError :=
  let targets := omap override_target (File_Statements f) in
  flat_map (λ stmt,
    match stmt with
    | SEnvironment env =>
        (foldl (check_override (Environment_Name env) targets) (∅, []) (Environment_Overrides env)).2
    | _ => []
    end) (File_Statements f).
End semantic.
