(* ===== verification/SemanticFacts.v ===== *)
(** What semantic validation decides: every reference of the file resolves to
    a declaration, and the suggestions it prints are the closest names. *)
From S2P Require Import Prelude GoStd Ast Structural StructuralFacts EditDistance Semantic.
Open Scope Z_scope.

(** * Declared names *)

Lemma collect_statement_decl names stmt :
  collect_statement names stmt =
    match decl_of stmt with Some (k, n) => add_name names k n | None => names end.
Proof. by destruct stmt. Qed.

Lemma add_name_spec names k n k' n' :
  n' ∈ names_at (add_name names k n) k' ↔ (k' = k ∧ n' = n) ∨ n' ∈ names_at names k'.
Proof.
  unfold add_name, names_at at 1. destruct (decide (k = k')) as [<-|N].
  - rewrite lookup_insert_eq. simpl. set_solver.
  - rewrite lookup_insert_ne by done. fold (names_at names k'). naive_solver.
Qed.

Lemma collect_fold_spec stmts names k n :
  n ∈ names_at (foldl collect_statement names stmts) k ↔
  n ∈ names_at names k ∨ ∃ s, s ∈ stmts ∧ decl_of s = Some (k, n).
Proof.
  revert names. induction stmts as [|s stmts IH]; intros names; simpl; [set_solver|].
  rewrite IH, collect_statement_decl. setoid_rewrite elem_of_cons.
  destruct (decl_of s) as [[k' n']|] eqn:D; [rewrite add_name_spec|]; naive_solver.
Qed.

Lemma collectNames_spec f k n : n ∈ names_at (collectNames f) k ↔ declares f k n.
Proof.
  unfold collectNames. rewrite collect_fold_spec. unfold declares.
  assert (names_at (list_to_map ((λ k, (k, ∅)) <$> declared_kinds)) k = ∅) as ->; [|set_solver].
  unfold names_at. destruct (list_to_map _ !! k) as [x|] eqn:E; [|done].
  apply elem_of_list_to_map_2, list_elem_of_fmap in E as (k' & [= _ ->] & _). done.
Qed.

Lemma has_name_true f k n : has_name (collectNames f) k n = true ↔ declares f k n.
Proof. unfold has_name. by rewrite bool_decide_eq_true, collectNames_spec. Qed.

(** * References *)

(** [Uses s k n]: an on-input statement uses the declaration [n] of kind [k],
    directly or in a nested block. *)
Inductive Uses : OnInputStmt → string → string → Prop :=
  | uses_skill n params sp ep : Uses (UseSkillStmt n params sp ep) "Skill" n
  | uses_agent n sp ep : Uses (DelegateToStmt n sp ep) "Agent" n
  | uses_if c body elseIfs elseBody sp ep s k n :
      s ∈ body → Uses s k n → Uses (IfBlock c body elseIfs elseBody sp ep) k n
  | uses_elseif c body elseIfs elseBody sp ep c' b sp' ep' s k n :
      mkElseIfClause c' b sp' ep' ∈ elseIfs → s ∈ b → Uses s k n →
      Uses (IfBlock c body elseIfs elseBody sp ep) k n
  | uses_else c body elseIfs elseBody sp ep s k n :
      s ∈ elseBody → Uses s k n → Uses (IfBlock c body elseIfs elseBody sp ep) k n
  | uses_for v c body sp ep s k n :
      s ∈ body → Uses s k n → Uses (ForEachBlock v c body sp ep) k n.

(** The references an agent makes. *)
Inductive AgentRefers (a : Agent) : string → string → Prop :=
  | agent_prompt_ref r : Agent_Prompt a = Some r → AgentRefers a "Prompt" (Ref_Name r)
  | agent_skill_ref r : r ∈ Agent_Skills a → AgentRefers a "Skill" (Ref_Name r)
  | agent_client_ref r : Agent_Client a = Some r → AgentRefers a "MCPClient" (Ref_Name r)
  | agent_fallback_ref : Agent_Fallback a ≠ "" → AgentRefers a "Agent" (Agent_Fallback a)
  | agent_delegate_ref d : d ∈ Agent_Delegates a → AgentRefers a "Agent" (Delegate_AgentRef d)
  | agent_on_input_ref b s k n :
      Agent_OnInput a = Some b → s ∈ OnInputBlock_Statements b → Uses s k n → AgentRefers a k n
  | agent_guardrail_ref g : g ∈ Agent_GuardrailRefs a → AgentRefers a "Guardrail" g.

(** [Refers stmt k n]: the declaration [stmt] refers to [n] of kind [k]. *)
Inductive Refers : Statement → string → string → Prop :=
  | refers_agent a k n : AgentRefers a k n → Refers (SAgent a) k n
  | refers_tool s tc server tool :
      Skill_ToolConfig s = Some tc → ToolConfig_Type tc = "mcp" →
      ToolConfig_ServerTool tc = server +:+ "/" +:+ tool →
      (∀ u v, server ≠ u +:+ "/" +:+ v) →
      Refers (SSkill s) "MCPServer" server
  | refers_client c r : r ∈ MCPClient_Servers c → Refers (SMCPClient c) "MCPServer" (Ref_Name r)
  | refers_step p step :
      step ∈ Pipeline_Steps p → PipelineStep_Agent step ≠ "" →
      Refers (SPipeline p) "Agent" (PipelineStep_Agent step)
  | refers_exposes s r : r ∈ MCPServer_Skills s → Refers (SMCPServer s) "Skill" (Ref_Name r)
  | refers_auth s r : MCPServer_Auth s = Some r → Refers (SMCPServer s) "Secret" (Ref_Name r)
  | refers_user u n : n ∈ User_Agents u → Refers (SUser u) "Agent" n.

(** A [{{name}}] of the content, closed by the first [}}] after its braces. *)
Definition mentions (content name : string) : Prop :=
  ∃ pre inner post, content = pre +:+ "{{" +:+ inner +:+ "}}" +:+ post ∧
    first_at (inner +:+ "}}" +:+ post) "}}" (String.length inner) ∧ name = TrimSpace inner.

Record Resolved (f : File) : Prop := {
  resolved_refs s k n : s ∈ File_Statements f → Refers s k n → declares f k n;
  resolved_fallback a : SAgent a ∈ File_Statements f → Agent_Fallback a ≠ "" →
    Agent_Fallback a ≠ Agent_Name a;
  resolved_vars p name : SPrompt p ∈ File_Statements f → Prompt_Variables p ≠ [] →
    mentions (Prompt_Content p) name → name ∈ VariableDecl_Name <$> Prompt_Variables p;
  resolved_binding : (length (filter is_default_binding (File_Statements f)) ≤ 1)%nat;
  resolved_deploy : (length (filter is_default_deploy (File_Statements f)) ≤ 1)%nat;
}.

(** A "/" after a text without one is its first. *)
Lemma slash_first server tool :
  (∀ u v, server ≠ u +:+ "/" +:+ v) →
  ∀ u v, server +:+ "/" +:+ tool = u +:+ "/" +:+ v → (String.length server ≤ String.length u)%nat.
Proof.
  revert tool. induction server as [|c server IH]; intros tool N u v E; simpl; [lia|].
  destruct u as [|d u].
  - injection E as -> _. by destruct (N "" server).
  - injection E as -> E. simpl. apply le_n_S. apply (IH tool) with v; [|done].
    intros u' v' ->. by apply (N (String d u') v').
Qed.

Section facts.
Context `{GoRuntime} (f : File).
Let names : Names := collectNames f.

Lemma resolve_nil k n pos msg : resolve names k n pos msg = [] ↔ declares f k n.
Proof. unfold resolve. rewrite report_nil, negb_false_iff. apply has_name_true. Qed.

Lemma flat_map_resolve {A} (l : list A) (g : A → list ValidationError) (k : string) (n : A → string) :
  (∀ x, g x = [] ↔ declares f k (n x)) →
  flat_map g l = [] ↔ ∀ x, x ∈ l → declares f k (n x).
Proof. intros G. rewrite flat_map_nil, Forall_forall. by setoid_rewrite G. Qed.

(** A list of on-input statements, each of which is checked exactly. *)
Lemma on_input_list l
    (IH : Forall (λ s, validate_on_input_ref names s = [] ↔ ∀ k n, Uses s k n → declares f k n) l) :
  flat_map (validate_on_input_ref names) l = [] ↔
  ∀ s k n, s ∈ l → Uses s k n → declares f k n.
Proof.
  rewrite flat_map_nil, !Forall_forall in *. split.
  - intros F s k n I. by apply (IH s I), F.
  - intros F s I. apply (IH s I). intros k n. by apply F.
Qed.

Lemma on_input_else_ifs elseIfs
    (IH : Forall (λ '(mkElseIfClause _ b _ _), Forall (λ s,
      validate_on_input_ref names s = [] ↔ ∀ k n, Uses s k n → declares f k n) b) elseIfs) :
  flat_map (λ '(mkElseIfClause _ b _ _), flat_map (validate_on_input_ref names) b) elseIfs = [] ↔
  ∀ c b sp ep s k n, mkElseIfClause c b sp ep ∈ elseIfs → s ∈ b → Uses s k n → declares f k n.
Proof.
  rewrite flat_map_nil, Forall_forall. rewrite Forall_forall in IH. split.
  - intros F c b sp ep s k n I. specialize (IH _ I). specialize (F _ I). simpl in *.
    apply (proj1 (on_input_list b IH) F).
  - intros F [c b sp ep] I. specialize (IH _ I). simpl in *. apply (proj2 (on_input_list b IH)).
    intros s k n. by apply (F c b sp ep).
Qed.

Lemma validate_on_input_ref_spec s :
  validate_on_input_ref names s = [] ↔ ∀ k n, Uses s k n → declares f k n.
Proof.
  induction s as [n params sp ep|n sp ep|e sp ep|c body elseIfs elseBody sp ep IHb IHe IHl
    |v c body sp ep IHb] using OnInputStmt_nested_ind; simpl.
  - rewrite resolve_nil. split; [intros D k n' U; by inversion U; subst | intros U; apply U; constructor].
  - rewrite resolve_nil. split; [intros D k n' U; by inversion U; subst | intros U; apply U; constructor].
  - split; [intros _ k n U; inversion U | done].
  - rewrite !app_nil, (on_input_list body), (on_input_list elseBody), (on_input_else_ifs elseIfs)
      by done. split.
    + intros (U1 & U2 & U3) k n U. inversion U; subst; eauto.
    + intros U. split_and!; intros; apply U; eauto using Uses.
  - rewrite (on_input_list body) by done. split.
    + intros U1 k n U. inversion U; subst; eauto.
    + intros U. intros; apply U; eauto using Uses.
Qed.

Lemma validateOnInputRefs_spec stmts :
  validateOnInputRefs stmts names = [] ↔ ∀ s k n, s ∈ stmts → Uses s k n → declares f k n.
Proof.
  apply on_input_list, Forall_forall. intros s _. apply validate_on_input_ref_spec.
Qed.

Lemma option_resolve {A} (o : option A) (g : A → list ValidationError) (k : string) (n : A → string) :
  (∀ x, g x = [] ↔ declares f k (n x)) →
  match o with Some x => g x | None => [] end = [] ↔
  ∀ x, o = Some x → declares f k (n x).
Proof. intros G. destruct o; [rewrite G|]; naive_solver. Qed.

Lemma check_agent_refs_spec a :
  check_agent_refs names a = [] ↔
  (∀ k n, AgentRefers a k n → declares f k n) ∧
  (Agent_Fallback a ≠ "" → Agent_Fallback a ≠ Agent_Name a).
Proof.
  unfold check_agent_refs. rewrite !app_nil.
  rewrite !(option_resolve _ _ _ Ref_Name) by (intros; apply resolve_nil).
  rewrite (flat_map_resolve (Agent_Skills a) _ "Skill" Ref_Name) by (intros; apply resolve_nil).
  rewrite (flat_map_resolve (Agent_Delegates a) _ "Agent" Delegate_AgentRef)
    by (intros; apply resolve_nil).
  rewrite (flat_map_resolve (Agent_GuardrailRefs a) _ "Guardrail" id) by (intros; apply resolve_nil).
  assert ((if empty (Agent_Fallback a) then [] else
     resolve names "Agent" (Agent_Fallback a) (Agent_StartPos a)
       ("fallback agent " +:+ quote (Agent_Fallback a) +:+ " not found") ++
     report (String.eqb (Agent_Fallback a) (Agent_Name a)) (Agent_StartPos a)
       ("agent " +:+ quote (Agent_Name a) +:+ " cannot fallback to itself") "") = [] ↔
    (Agent_Fallback a ≠ "" → declares f "Agent" (Agent_Fallback a) ∧
                             Agent_Fallback a ≠ Agent_Name a)) as ->.
  { unfold empty. destruct (String.eqb_spec (Agent_Fallback a) ""); [naive_solver|].
    rewrite app_nil, resolve_nil, report_nil, eqb_false. naive_solver. }
  assert (match Agent_OnInput a with
    | Some block => validateOnInputRefs (OnInputBlock_Statements block) names
    | None => [] end = [] ↔
    ∀ b s k n, Agent_OnInput a = Some b → s ∈ OnInputBlock_Statements b → Uses s k n →
      declares f k n) as ->.
  { destruct (Agent_OnInput a); [rewrite validateOnInputRefs_spec|]; naive_solver. }
  split.
  - intros (R1 & R2 & R3 & R4 & R5 & R6 & R7).
    split; [|by apply R4]. intros k n U. inversion U; subst; eauto. by apply R4.
  - intros [R F]. split_and!; intros; try split; try apply R; eauto using AgentRefers.
Qed.

Lemma tool_server_spec s tc server :
  tool_server s = Some (tc, server) ↔
  ∃ tool, Skill_ToolConfig s = Some tc ∧ ToolConfig_Type tc = "mcp" ∧
    ToolConfig_ServerTool tc = server +:+ "/" +:+ tool ∧ (∀ u v, server ≠ u +:+ "/" +:+ v).
Proof.
  unfold tool_server. destruct (Skill_ToolConfig s) as [tc'|]; [|naive_solver].
  destruct (String.eqb_spec (ToolConfig_Type tc') "mcp") as [T|T]; simpl; [|naive_solver].
  destruct (empty (ToolConfig_ServerTool tc')) eqn:E; simpl.
  { apply empty_true in E. split; [done|]. intros (tool & [= <-] & _ & E' & _).
    rewrite E in E'. by destruct server. }
  unfold SplitN2. destruct (Index (ToolConfig_ServerTool tc') "/") as [i|] eqn:I.
  - pose proof I as I'. apply Index_Some in I' as [(u & v & Eq & <-) M]. rewrite Eq, str_take_app.
    split.
    + intros [= <- <-]. exists v. split_and!; try done. intros u' v' ->.
      specialize (M u' (v' +:+ "/" +:+ v)). rewrite Eq in M.
      rewrite <- !str_app_assoc in M. specialize (M eq_refl). rewrite !str_app_length in M.
      simpl in M. lia.
    + intros (tool & [= <-] & _ & E' & N). rewrite E' in Eq. f_equal. f_equal.
      assert (Index (server +:+ "/" +:+ tool) "/" = Some (String.length server)) as J.
      { apply Index_first. split; [by exists server, tool|]. apply (slash_first server tool N). }
      rewrite E' in I. rewrite J in I. injection I as L. symmetry.
      rewrite <- (str_take_app server ("/" +:+ tool)), L, Eq. by rewrite str_take_app.
  - split; [done|]. intros (tool & [= <-] & _ & E' & _). by eapply Index_None in I.
Qed.

Lemma check_skill_refs_spec s :
  check_skill_refs names s = [] ↔ ∀ k n, Refers (SSkill s) k n → declares f k n.
Proof.
  unfold check_skill_refs. destruct (tool_server s) as [[tc server]|] eqn:T.
  - rewrite resolve_nil. pose proof T as T'.
    apply tool_server_spec in T' as (tool & ? & ? & ? & ?). split.
    + intros D k n R. inversion R; subst.
      assert (tool_server s = Some (tc0, n)) as T2 by (apply tool_server_spec; eauto 10). congruence.
    + intros R. apply R. by eapply refers_tool.
  - split; [|done]. intros _ k n R. inversion R; subst.
    assert (tool_server s = Some (tc, n)) as T2 by (apply tool_server_spec; eauto 10). congruence.
Qed.

Lemma check_client_refs_spec c :
  check_client_refs names c = [] ↔ ∀ k n, Refers (SMCPClient c) k n → declares f k n.
Proof.
  unfold check_client_refs.
  rewrite (flat_map_resolve _ _ "MCPServer" Ref_Name) by (intros; apply resolve_nil).
  split; [intros D k n R; inversion R; subst; auto | intros D r I; apply D; by constructor].
Qed.

Lemma check_user_refs_spec u :
  check_user_refs names u = [] ↔ ∀ k n, Refers (SUser u) k n → declares f k n.
Proof.
  unfold check_user_refs.
  rewrite (flat_map_resolve _ _ "Agent" id) by (intros; apply resolve_nil).
  split; [intros D k n R; inversion R; subst; by apply D | intros D r I; apply D; by constructor].
Qed.

Lemma check_pipeline_refs_spec p :
  check_pipeline_refs names p = [] ↔ ∀ k n, Refers (SPipeline p) k n → declares f k n.
Proof.
  unfold check_pipeline_refs. rewrite flat_map_nil, Forall_forall. split.
  - intros F k n R. inversion R as [| | |? step I N| | |]; subst. specialize (F step I).
    apply empty_false in N. rewrite N in F. by apply resolve_nil in F.
  - intros D step I. destruct (empty (PipelineStep_Agent step)) eqn:E; [done|].
    apply empty_false in E. apply resolve_nil, D. by constructor.
Qed.

Lemma check_server_refs_spec s :
  check_server_refs names s = [] ↔ ∀ k n, Refers (SMCPServer s) k n → declares f k n.
Proof.
  unfold check_server_refs. rewrite app_nil.
  rewrite (flat_map_resolve _ _ "Skill" Ref_Name) by (intros; apply resolve_nil).
  rewrite (option_resolve _ _ "Secret" Ref_Name) by (intros; apply resolve_nil). split.
  - intros [D1 D2] k n R. inversion R; subst; auto.
  - intros D. split; intros r I; apply D; by constructor.
Qed.

(** ** Prompt variables *)

Lemma variable_at_mentions content name :
  mentions content name ↔
  ∃ i, i ∈ seq 0 (String.length content - 3) ∧ variable_at content i = Some name.
Proof.
  unfold mentions, variable_at. split.
  - intros (pre & inner & post & -> & F & ->). exists (String.length pre). split.
    { apply elem_of_seq. rewrite !str_app_length. simpl. lia. }
    rewrite str_drop_app.
    assert (HasPrefix ("{{" +:+ inner +:+ "}}" +:+ post) "{{" = true) as ->
      by (apply HasPrefix_spec; eauto).
    change (str_drop 2 ("{{" +:+ inner +:+ "}}" +:+ post)) with (inner +:+ "}}" +:+ post).
    apply Index_first in F. rewrite F. simpl. by rewrite str_take_app.
  - intros (i & _ & E). destruct (HasPrefix (str_drop i content) "{{") eqn:Hp; [|done].
    apply HasPrefix_spec in Hp as [rest Er]. rewrite Er in E.
    change (str_drop 2 ("{{" +:+ rest)) with rest in E.
    apply fmap_Some in E as (e & I & ->). pose proof I as F. apply Index_Some in F as [(u & v & -> & L) M].
    exists (str_take i content), u, v. split_and!.
    + by rewrite <- Er, str_take_drop.
    + split; [by exists u, v|]. by rewrite L.
    + by rewrite <- L, str_take_app.
Qed.

Lemma check_prompt_vars_spec p :
  check_prompt_vars p = [] ↔
  (Prompt_Variables p ≠ [] → ∀ name, mentions (Prompt_Content p) name →
     name ∈ VariableDecl_Name <$> Prompt_Variables p).
Proof.
  unfold check_prompt_vars. destruct (is_empty (Prompt_Variables p)) eqn:E.
  { apply is_empty_true in E. naive_solver. }
  apply is_empty_false in E. rewrite flat_map_nil, Forall_forall.
  setoid_rewrite variable_at_mentions. split.
  - intros F _ name (i & I & V). specialize (F i I). rewrite V in F.
    by rewrite report_nil, negb_false_iff, one_of_true in F.
  - intros D i I. destruct (variable_at (Prompt_Content p) i) as [name|] eqn:V; [|done].
    rewrite report_nil, negb_false_iff, one_of_true. eauto.
Qed.

Lemma count_filter c : count c f = length (filter c (File_Statements f)).
Proof.
  unfold count. rewrite <- (Nat.add_0_r (length _)). generalize O.
  induction (File_Statements f) as [|s l IH]; intros n; simpl; [done|].
  rewrite IH. destruct (decide (c s)) as [Hc|Hc].
  - rewrite filter_cons_True by done. apply Is_true_true in Hc. rewrite Hc. simpl. lia.
  - rewrite filter_cons_False by done. apply Is_true_false in Hc. by rewrite Hc.
Qed.

Lemma default_nil (n : nat) (e : ValidationError) : (if (1 <? n)%nat then [e] else []) = [] ↔ (n ≤ 1)%nat.
Proof. destruct (Nat.ltb_spec 1 n); split; (done || lia). Qed.

(** What the check of one statement decides. *)
Definition statement_resolved (s : Statement) : Prop :=
  (∀ k n, Refers s k n → declares f k n) ∧
  (∀ a, s = SAgent a → Agent_Fallback a ≠ "" → Agent_Fallback a ≠ Agent_Name a) ∧
  (∀ p, s = SPrompt p → Prompt_Variables p ≠ [] → ∀ name, mentions (Prompt_Content p) name →
     name ∈ VariableDecl_Name <$> Prompt_Variables p).

Lemma check_refs_spec s : check_refs names s = [] ↔ statement_resolved s.
Proof.
  unfold statement_resolved. destruct s; cbn [check_refs];
    try (split; [intros _; split_and!; [intros k n R; inversion R | done..] | done]).
  - rewrite check_agent_refs_spec. split.
    + intros [R F]. split_and!; [|by intros ? [= <-] | done]. intros k n U. inversion U; subst; auto.
    + intros (R & F & _). split; [|by apply F]. intros k n U. by apply R, refers_agent.
  - rewrite check_prompt_vars_spec. split.
    + intros V. split_and!; [intros k n R; inversion R | done | by intros ? [= <-]].
    + intros (_ & _ & V). by apply V.
  - rewrite check_skill_refs_spec. naive_solver.
  - rewrite check_server_refs_spec. naive_solver.
  - rewrite check_client_refs_spec. naive_solver.
  - rewrite check_user_refs_spec. naive_solver.
  - rewrite check_pipeline_refs_spec. naive_solver.
Qed.
End facts.

Lemma semantic_resolved `{GoRuntime} (f : File) : ValidateSemantic f = [] ↔ Resolved f.
Proof.
  unfold ValidateSemantic.
  rewrite !app_nil, !default_nil, !count_filter, (flat_map_wf _ _ _ (check_refs_spec f)).
  rewrite Forall_forall. split.
  - intros (R & B & D). split; try done.
    + intros s k n I. by apply (R s I).
    + intros a I. by apply (R _ I).
    + intros p name I ?. by apply (R _ I).
  - intros [R F V B D]. split_and!; try done. intros s I. split_and!.
    + intros k n. by apply R.
    + intros a ->. by apply F.
    + intros p -> ? name. by apply V.
Qed.


(** Duplicates, and two agents that fall back and delegate to each other, are
    accepted. *)
Example duplicates_and_cycles_accepted (H : GoRuntime) :
  let secret := SSecret (mkSecret "s" "literal" "sk-123" zero_Pos zero_Pos) in
  let agent name other := SAgent (zero_Agent <| Agent_Name := name |> <| Agent_OnError := "fallback" |>
    <| Agent_Fallback := other |> <| Agent_Delegates := [zero_Delegate <| Delegate_AgentRef := other |>] |>) in
  ValidateSemantic (mkFile "f" None [secret; secret; agent "a" "b"; agent "b" "a"] zero_Pos zero_Pos) = [].
Proof. vm_compute. reflexivity. Qed.

(** * Suggestions *)

Lemma closer_none name b (d : nat) l :
  (∀ m, m ∈ l → d ≤ levenshtein name m)%nat → foldl (closer name) (b, d) l = (b, d).
Proof.
  intros F. induction l as [|m l IH]; [done|]. simpl. unfold closer at 2. simpl.
  specialize (F m) as Fm. destruct (Nat.ltb_spec (levenshtein name m) d); [set_solver by lia|].
  apply IH. set_solver.
Qed.

(** [n] comes before every other candidate: nearer, or as near and smaller. *)
Definition closest (name n : string) (candidates : list string) : Prop :=
  n ∈ candidates ∧
  ∀ m, m ∈ candidates →
    (levenshtein name n < levenshtein name m)%nat ∨
    levenshtein name n = levenshtein name m ∧ str_le n m.

Lemma closer_closest name n b (d : nat) l :
  StronglySorted str_le l → closest name n l → (levenshtein name n < d)%nat →
  foldl (closer name) (b, d) l = (n, levenshtein name n).
Proof.
  intros S [I C]. revert b d I. induction S as [|m l S IH F]; intros b d I L; [set_solver|].
  simpl. unfold closer at 2. simpl.
  assert (∀ m, m ∈ l → levenshtein name n ≤ levenshtein name m)%nat as Cl.
  { intros m' I'. destruct (C m'); [set_solver | lia | lia]. }
  destruct (decide (n = m)) as [->|N].
  - destruct (Nat.ltb_spec (levenshtein name m) d); [|lia]. by apply closer_none.
  - assert (n ∈ l) as Il by set_solver.
    assert (levenshtein name n < levenshtein name m)%nat as Lm.
    { destruct (C m) as [|[_ E]]; [set_solver | done |]. rewrite Forall_forall in F.
      by destruct N; apply (anti_symm str_le); [|apply F]. }
    destruct (Nat.ltb_spec (levenshtein name m) d); apply IH; try done; set_solver.
Qed.

(** suggestName proposes the declared name at the smallest edit distance,
    the alphabetically first among equals, when that distance is at most half
    the length of the unknown name; when no name is that near it lists the
    declared names in alphabetical order. *)
Lemma suggestName_closest `{GoRuntime} (name n : string) (available : gset string) :
  (closest name n (elements available) → n ≠ "" →
   (levenshtein name n ≤ String.length name / 2)%nat →
   suggestName name available = "did you mean " +:+ quote n +:+ "?") ∧
  (available ≠ ∅ → (∀ m, m ∈ available → String.length name / 2 < levenshtein name m)%nat →
   suggestName name available = "available: " +:+ Join (sort_strings (elements available)) ", ").
Proof.
  unfold suggestName. split.
  - intros [I C] N L. rewrite bool_decide_eq_false_2 by set_solver.
    rewrite (closer_closest name n).
    + simpl. by apply empty_false in N; rewrite N.
    + apply sort_strings_sorted.
    + split; [by rewrite elem_of_sort_strings|]. intros m. rewrite elem_of_sort_strings. apply C.
    + lia.
  - intros A F. rewrite bool_decide_eq_false_2 by done. rewrite closer_none; [done|].
    intros m. rewrite elem_of_sort_strings. intros I%elem_of_elements%F. lia.
Qed.

Lemma suggestName_closest_witness :
  @suggestName ascii_runtime "summry" {["summary"; "other"]} = qt "did you mean `summary`?".
Proof.
  etransitivity; [apply (proj1 (@suggestName_closest ascii_runtime "summry" "summary" _)) |];
    [| done | vm_compute; lia | by vm_compute].
  split; [by apply elem_of_elements, elem_of_union_l, elem_of_singleton|]. intros m.
  rewrite elem_of_elements, elem_of_union, !elem_of_singleton. intros [-> | ->];
    [right; split; [done | by rewrite str_le_lt; right] | left; vm_compute; lia].
Defined.

(** * Environments *)

Record Environment_wf (f : File) (env : Environment) : Prop := {
  env_once : NoDup (override_key <$> Environment_Overrides env);
  env_target ov : ov ∈ Environment_Overrides env →
    ∃ s, s ∈ File_Statements f ∧ override_target s = Some (Override_Resource ov);
}.

Lemma check_overrides_spec `{GoRuntime} env targets ovs seen errs :
  (foldl (check_override env targets) (seen, errs) ovs).2 = [] ↔
  errs = [] ∧ NoDup (override_key <$> ovs) ∧
  Forall (λ ov, override_key ov ∉ seen ∧ Override_Resource ov ∈ targets) ovs.
Proof.
  revert seen errs. induction ovs as [|ov ovs IH]; intros seen errs; csimpl.
  { split; [intros ->; by repeat constructor | by intros [-> _]]. }
  rewrite IH, NoDup_cons, Forall_cons, !app_nil, !report_nil, bool_decide_eq_false, negb_false_iff,
    one_of_true. split.
  - intros ([-> [? ?]] & ? & F). split_and!; try done.
    + intros (ov' & E & I)%list_elem_of_fmap. rewrite Forall_forall in F.
      destruct (F ov' I) as [N _]. rewrite E in N. set_solver.
    + eapply Forall_impl; [done|]. set_solver.
  - intros (-> & [N ?] & [? ?] & F). split_and!; try done.
    rewrite !Forall_forall in *. intros ov' I. destruct (F ov' I) as [N' T]. split; [|done].
    assert (override_key ov' ≠ override_key ov).
    { intros E. apply N. rewrite <- E. by apply list_elem_of_fmap_2. }
    set_solver.
Qed.

(** ValidateEnvironments reports nothing exactly when every override of
    every environment targets a declared agent, prompt, skill, server, client
    or secret, and no environment overrides one attribute twice. *)
Theorem environments_exact `{GoRuntime} (f : File) :
  ValidateEnvironments f = [] ↔ ∀ env, SEnvironment env ∈ File_Statements f → Environment_wf f env.
Proof.
  unfold ValidateEnvironments. rewrite flat_map_nil, Forall_forall. split.
  - intros F env I. specialize (F _ I). simpl in F.
    apply check_overrides_spec in F as (_ & N & F). split; [done|].
    intros ov Io. rewrite Forall_forall in F. destruct (F ov Io) as [_ T].
    by apply list_elem_of_omap in T.
  - intros W s I. destruct s; try done. apply check_overrides_spec. destruct (W _ I) as [N T].
    split_and!; [done..|]. apply Forall_forall. intros ov Io. split; [set_solver|].
    apply list_elem_of_omap. eauto.
Qed.
