(* ===== verification/Ir.v ===== *)
(** The intermediate representation (internal/ir/ir.go, hash.go,
    environment.go): values, documents, the canonical JSON serialization, the
    resource hash, the order of resources and environment overrides.

    A [map[string]interface{}] is an association list with different keys: the
    code never depends on its order, and IrFacts.v proves that the
    serialization does not either. *)
From S2P Require Import Prelude GoStd.
Open Scope Z_scope.

(** * Values

    The dynamic types the code stores in an interface{}: string, bool, int,
    float64, []interface{} and map[string]interface{}. *)
Inductive Value :=
  | VStr (s : string)
  | VBool (b : bool)
  | VInt (n : Z)
  | VFloat (f : float64)
  | VList (l : list Value)
  | VMap (m : list (string * Value)).

Notation Attrs := (list (string * Value)).

(** [m[k]] and [m[k] = v]. *)
Fixpoint attr (k : string) (m : Attrs) : option Value :=
  match m with
  | [] => None
  | (k', v) :: m => if String.eqb k k' then Some v else attr k m
  end.

Fixpoint set_attr (k : string) (v : Value) (m : Attrs) : Attrs :=
  match m with
  | [] => [(k, v)]
  | (k', v') :: m => if String.eqb k k' then (k, v) :: m else (k', v') :: set_attr k v m
  end.

(** * Documents *)

(** Import represents a resolved import dependency. *)
Record Import := mkImport {
  Import_Path : string;
  Import_Version : string;
  Import_Alias : string;
}.

(** Package holds resolved package metadata. *)
Record Package := mkPackage {
  Package_Name : string;
  Package_Version : string;
  Package_Description : string;
}.

(** Resource is a fully-resolved resource in the IR. *)
Record Resource := mkResource {
  Resource_Kind : string;
  Resource_Name : string;
  Resource_FQN : string;
  Resource_Attributes : Attrs;
  Resource_References : list string;
  Resource_Hash : string;
  Resource_Metadata : Attrs;
}.

Global Instance settable_Resource : Settable Resource := λ r,
  mkResource (Resource_Kind r) (Resource_Name r) (Resource_FQN r) (Resource_Attributes r)
  (Resource_References r) (Resource_Hash r) (Resource_Metadata r).

(** Rule is a single policy rule. *)
Record Rule := mkRule {
  Rule_Action : string;
  Rule_Resource : string;
  Rule_Subject : string;
}.

(** Policy holds resolved policy rules. *)
Record Policy := mkPolicy {
  Policy_Name : string;
  Policy_Rules : list Rule;
}.

(** Binding is a target adapter binding. *)
Record Binding := mkBinding {
  Binding_Name : string;
  Binding_Adapter : string;
  Binding_Default : bool;
  Binding_Config : option Attrs;
}.

(** DeployTarget is a deployment configuration. *)
Record DeployTarget := mkDeployTarget {
  DeployTarget_Name : string;
  DeployTarget_Target : string;
  DeployTarget_Default : bool;
  DeployTarget_Config : option Attrs;
}.

(** StateConfig holds resolved state backend configuration. *)
Record StateConfig := mkStateConfig {
  StateConfig_Type : string;
  StateConfig_Properties : gmap string string;
}.

(** Document is the top-level IR container. *)
Record Document := mkDocument {
  Document_IRVersion : string;
  Document_LangVersion : string;
  Document_Package : Package;
  Document_Imports : list Import;
  Document_Resources : list Resource;
  Document_Policies : list Policy;
  Document_Bindings : list Binding;
  Document_DeployTargets : list DeployTarget;
  Document_StateConfig : option StateConfig;
}.

Global Instance settable_Document : Settable Document := λ d,
  mkDocument (Document_IRVersion d) (Document_LangVersion d) (Document_Package d)
  (Document_Imports d) (Document_Resources d) (Document_Policies d) (Document_Bindings d)
  (Document_DeployTargets d) (Document_StateConfig d).

(** The comparison of SortResources: by kind, then name. *)
Definition resource_less (a b : Resource) : bool :=
  if negb (String.eqb (Resource_Kind a) (Resource_Kind b))
  then str_ltb (Resource_Kind a) (Resource_Kind b)
  else str_ltb (Resource_Name a) (Resource_Name b).

(** SortResources sorts resources by kind then name. sort.Slice promises a
    sorted permutation; the order it gives to equal keys is not specified, and
    no theorem below depends on it. *)
Definition SortResources (resources : list Resource) : list Resource :=
  insertion_sort resource_less resources.

(** * JSON

    encoding/json with its default HTML escaping. [None] is the error for a
    float that is not finite. *)

Definition json_rune (r : Z) (bytes : string) (w : nat) : string :=
  let hex4 := String (hex_digit (Z.land (Z.shiftr r 12) 15))
    (String (hex_digit (Z.land (Z.shiftr r 8) 15))
      (String (hex_digit (Z.land (Z.shiftr r 4) 15))
        (String (hex_digit (Z.land r 15)) EmptyString))) in
  if (r =? 34) || (r =? 92) then String "\" bytes
  else if r =? 8 then "\b"
  else if r =? 9 then "\t"
  else if r =? 10 then "\n"
  else if r =? 12 then "\f"
  else if r =? 13 then "\r"
  else if (r <? 32) || (r =? 60) || (r =? 62) || (r =? 38) || (r =? 0x2028) || (r =? 0x2029)
  then "\u" +:+ hex4
  else if (r =? RuneError) && (w =? 1)%nat then "\ufffd"
  else bytes.

Definition json_string (s : string) : string :=
  String "034" (String.concat ""
    ((λ '(r, b), json_rune r b (String.length b)) <$> runes_of (String.length s) s)) +:+
  String "034" EmptyString.

Definition is_finite (f : float64) : bool :=
  match f with
  | SpecFloat.S754_zero _ | SpecFloat.S754_finite _ _ _ => true
  | SpecFloat.S754_infinity _ | SpecFloat.S754_nan => false
  end.

(** The members of an object, sorted by key. *)
Definition key_less {A} (a b : string * A) : bool := str_ltb a.1 b.1.
Definition sort_keys {A} (m : list (string * A)) : list (string * A) := insertion_sort key_less m.

(** The text of an object whose members are given in order. *)
Definition json_object (members : list (string * option string)) : option string :=
  texts ← mapM (λ '(k, v), t ← v; Some (json_string k +:+ ":" +:+ t)) members;
  Some ("{" +:+ Join texts "," +:+ "}").

Section json.
Context `{GoRuntime}.

(** json.Marshal. *)
Fixpoint Marshal (v : Value) : option string :=
  match v with
  | VStr s => Some (json_string s)
  | VBool b => Some (if b then "true" else "false")
  | VInt n => Some (pretty n)
  | VFloat f => if is_finite f then Some (json_float f) else None
  | VList l =>
      texts ← mapM id (map Marshal l);
      Some ("[" +:+ Join texts "," +:+ "]")
  | VMap m => json_object (sort_keys (map (λ '(k, v), (k, Marshal v)) m))
  end.
End json.

(** ** The canonical serialization *)

(** orderedMap: the members of a map in the order of their keys; the values
    that are maps are ordered as well, lists are not looked into. *)
Inductive Ordered :=
  | OVal (v : Value)
  | OMap (members : list (string * Ordered)).

Fixpoint sorted_value (v : Value) : Ordered :=
  match v with
  | VMap m => OMap (sort_keys (map (λ '(k, v), (k, sorted_value v)) m))
  | _ => OVal v
  end.

Definition sortedMap (m : Attrs) : Ordered := sorted_value (VMap m).

Section canonical.
Context `{GoRuntime}.

(** The method MarshalJSON of orderedMap, through json.Marshal. *)
Fixpoint marshal_ordered (o : Ordered) : option string :=
  match o with
  | OVal v => Marshal v
  | OMap members => json_object (map (λ '(k, o), (k, marshal_ordered o)) members)
  end.

Definition SerializeCanonical (attrs : Attrs) : option string := marshal_ordered (sortedMap attrs).

(** ComputeHash computes the SHA-256 hash of the canonical JSON. *)
Definition ComputeHash (attrs : Attrs) : string :=
  match SerializeCanonical attrs with
  | None => ""
  | Some data => "sha256:" +:+ sha256_hex data
  end.

(** * Environments *)

(** strings.EqualFold: the runes are equal up to case. *)
Definition fold_rune (r : Z) : Z :=
  if r <? 0x80 then (if is_cont 65 90 r then r + 32 else r) else uni_fold r.

Definition fold_case (s : string) : list Z :=
  (λ '(r, _), fold_rune r) <$> runes_of (String.length s) s.

Definition EqualFold (a b : string) : bool := bool_decide (fold_case a = fold_case b).

(** [x, _ := v.(string)] *)
Definition as_string (v : option Value) : string :=
  match v with Some (VStr s) => s | _ => "" end.

Definition is_target (resourceRef : string) (r : Resource) : bool :=
  let resourceKey := Resource_Kind r +:+ "/" +:+ Resource_Name r in
  String.eqb resourceKey resourceRef || EqualFold resourceKey resourceRef.

Definition override_resource (attribute value : string) (r : Resource) : Resource :=
  let newAttrs := set_attr attribute (VStr value) (Resource_Attributes r) in
  r <| Resource_Attributes := newAttrs |> <| Resource_Hash := ComputeHash newAttrs |>.

(** The loop over the resources: update the first target; [None] when there
    is none. *)
Fixpoint apply_override (resourceRef attribute value : string) (rs : list Resource)
    : option (list Resource) :=
  match rs with
  | [] => None
  | r :: rs =>
      if is_target resourceRef r then Some (override_resource attribute value r :: rs)
      else rs' ← apply_override resourceRef attribute value rs; Some (r :: rs')
  end.

(** The loop over the overrides. *)
Fixpoint apply_overrides (envName : string) (overrides : list Value) (rs : list Resource)
    : result string (list Resource) :=
  match overrides with
  | [] => Ok rs
  | VMap ov :: overrides =>
      let resourceRef := as_string (attr "resource" ov) in
      let attribute := as_string (attr "attribute" ov) in
      let value := as_string (attr "value" ov) in
      if String.eqb resourceRef "" || String.eqb attribute "" then apply_overrides envName overrides rs
      else
        match apply_override resourceRef attribute value rs with
        | Some rs => apply_overrides envName overrides rs
        | None =>
            Err ("environment " +:+ quote envName +:+ ": override target " +:+
                 quote resourceRef +:+ " not found")
        end
  | _ :: overrides => apply_overrides envName overrides rs
  end.

Definition is_environment (r : Resource) : bool := String.eqb (Resource_Kind r) "Environment".

(** ApplyEnvironment applies environment overrides to the IR resources. *)
Definition ApplyEnvironment (doc : Document) (envName : string) : result string Document :=
  if String.eqb envName "" then Ok doc
  else
    match List.find (λ r, is_environment r && String.eqb (Resource_Name r) envName)
            (Document_Resources doc) with
    | None => Err ("environment " +:+ quote envName +:+ " not found")
    | Some envResource =>
        match attr "overrides" (Resource_Attributes envResource) with
        | Some (VList overrides) =>
            rs ← apply_overrides envName overrides (Document_Resources doc);
            Ok (doc <| Document_Resources := List.filter (λ r, negb (is_environment r)) rs |>)
        | _ => Ok doc
        end
    end.
End canonical.
