(* ===== verification/IrFacts.v ===== *)
(** The intermediate representation does not depend on the order of maps: the
    canonical serialization is JSON with sorted keys, so the hash of a resource
    is a function of its attributes as a map. Environments change exactly the
    attributes they override, and keep every hash up to date. *)
From S2P Require Import Prelude GoStd Ir.
Open Scope Z_scope.

(** * Sorting by key *)

Section sort_keys.
Context {A B : Type}.
Implicit Types m : list (string * A).

Definition key_le {A} (a b : string * A) : Prop := str_le a.1 b.1.
Definition key_lt {A} (a b : string * A) : Prop := str_ltb a.1 b.1 = true.

Lemma sort_keys_perm m : sort_keys m ≡ₚ m.
Proof. apply insertion_sort_perm. Qed.

Lemma sort_keys_sorted m : StronglySorted key_le (sort_keys m).
Proof.
  refine (insertion_sort_sorted (key_less (A:=A)) m).
  - intros a b c. apply (transitivity (R:=str_le)).
  - intros a b. apply (total str_le).
Qed.

(** Different keys make the order strict, hence unique. *)
Lemma sorted_strict m : NoDup m.*1 → StronglySorted key_le m → StronglySorted key_lt m.
Proof.
  intros N S. induction S as [|a m S IH F]; [constructor|].
  apply NoDup_cons in N as [Na N]. constructor; [auto|].
  apply Forall_forall. intros b I. rewrite Forall_forall in F.
  specialize (F b I). unfold key_le in F. apply str_le_lt in F as [?|E]; [done|].
  destruct Na. rewrite E. by apply list_elem_of_fmap_2.
Qed.

Lemma sort_keys_strict m : NoDup m.*1 → StronglySorted key_lt (sort_keys m).
Proof.
  intros N. apply sorted_strict; [by rewrite sort_keys_perm | apply sort_keys_sorted].
Qed.

Global Instance key_lt_antisymm : AntiSymm eq (key_lt (A:=A)).
Proof.
  intros a b L1 L2. pose proof (str_ltb_trans _ _ _ L1 L2) as C. by rewrite str_ltb_irrefl in C.
Qed.

Lemma sort_keys_unique m1 m2 : NoDup m1.*1 → m1 ≡ₚ m2 → sort_keys m1 = sort_keys m2.
Proof.
  intros N P. apply (StronglySorted_unique key_lt).
  - by apply sort_keys_strict.
  - apply sort_keys_strict. by rewrite <- P.
  - by rewrite !sort_keys_perm.
Qed.

(** Sorting only looks at the keys. *)
Definition on_value (f : A → B) (kv : string * A) : string * B := (kv.1, f kv.2).

Lemma sift_map f x l :
  sift key_less (on_value f x) (map (on_value f) l) = map (on_value f) (sift key_less x l).
Proof.
  induction l as [|y l IH]; [done|]. cbn [map sift].
  change (key_less (on_value f x) (on_value f y)) with (key_less x y).
  destruct (key_less x y); simpl; [by rewrite IH | done].
Qed.

Lemma sort_keys_map f m : sort_keys (map (on_value f) m) = map (on_value f) (sort_keys m).
Proof.
  unfold sort_keys, insertion_sort. rewrite map_rev. f_equal.
  change (@nil (string * B)) with (map (on_value f) []).
  generalize (@nil (string * A)) as acc. induction m as [|x m IH]; intros acc; [done|].
  cbn [map foldl]. by rewrite sift_map, IH.
Qed.
End sort_keys.

(** * Values up to the order of maps *)

Section values.
Context (Q : Value → Prop).
Context (Qstr : ∀ s, Q (VStr s)) (Qbool : ∀ b, Q (VBool b)) (Qint : ∀ n, Q (VInt n))
  (Qfloat : ∀ f, Q (VFloat f)).
Context (Qlist : ∀ l, Forall Q l → Q (VList l)).
Context (Qmap : ∀ m, Forall (λ kv, Q kv.2) m → Q (VMap m)).

Lemma Value_nested_ind : ∀ v, Q v.
Proof.
  fix IH 1. intros [s|b|n|f|l|m]; [apply Qstr | apply Qbool | apply Qint | apply Qfloat
    | apply Qlist | apply Qmap].
  - induction l as [|v l IHl]; constructor; [apply IH | apply IHl].
  - induction m as [|[k v] m IHm]; constructor; [apply IH | apply IHm].
Qed.
End values.

(** [veq v1 v2]: the values have maps with different keys, and are equal up to
    the order of these maps, at every depth. *)
Inductive veq : Value → Value → Prop :=
  | veq_str s : veq (VStr s) (VStr s)
  | veq_bool b : veq (VBool b) (VBool b)
  | veq_int n : veq (VInt n) (VInt n)
  | veq_float f : veq (VFloat f) (VFloat f)
  | veq_list l1 l2 : Forall2 veq l1 l2 → veq (VList l1) (VList l2)
  | veq_map m1 m m2 :
      NoDup m1.*1 → m1 ≡ₚ m → Forall2 (λ a b, a.1 = b.1 ∧ veq a.2 b.2) m m2 →
      veq (VMap m1) (VMap m2).

Definition attrs_eq (m1 m2 : Attrs) : Prop := veq (VMap m1) (VMap m2).

(** All the maps of a value have different keys. *)
Inductive value_wf : Value → Prop :=
  | wf_str s : value_wf (VStr s)
  | wf_bool b : value_wf (VBool b)
  | wf_int n : value_wf (VInt n)
  | wf_float f : value_wf (VFloat f)
  | wf_list l : Forall value_wf l → value_wf (VList l)
  | wf_map m : NoDup m.*1 → Forall (λ kv, value_wf kv.2) m → value_wf (VMap m).

Lemma Forall2_diag {A} (R : A → A → Prop) l : Forall (λ x, R x x) l → Forall2 R l l.
Proof. induction 1; by constructor. Qed.

Lemma veq_refl v : value_wf v → veq v v.
Proof.
  induction v as [| | | |l IH|m IH] using Value_nested_ind; intros W; try by constructor.
  - inversion W as [| | | |? F|]; subst. constructor. apply Forall2_diag.
    rewrite Forall_forall in *. auto.
  - inversion W as [| | | | |? N F]; subst. apply (veq_map m m m); [done|done|].
    apply Forall2_diag. rewrite Forall_forall in *. auto.
Qed.

Section marshal.
Context `{GoRuntime}.

Local Notation member := (on_value Marshal).

Lemma Marshal_map m : Marshal (VMap m) = json_object (map member (sort_keys m)).
Proof.
  rewrite <- (sort_keys_map Marshal m). simpl. f_equal. f_equal.
  apply map_ext. by intros [].
Qed.

Lemma fst_members m : (map member m).*1 = m.*1.
Proof. induction m; csimpl; congruence. Qed.

Lemma Marshal_veq v1 v2 : veq v1 v2 → Marshal v1 = Marshal v2.
Proof.
  revert v2. induction v1 as [| | | |l IH|m IH] using Value_nested_ind; intros v2 E;
    inversion E as [| | | |? l2 F|? m' m2 N P F]; subst; try done.
  - simpl. f_equal. f_equal. induction F as [|a b l l2 Q F IHF]; [done|].
    apply Forall_cons in IH as [IHa IHl]. simpl. rewrite (IHa _ Q).
    f_equal. apply IHF; [done|]. by constructor.
  - assert (map member m' = map member m2) as M.
    { assert (Forall (λ kv, ∀ v, veq kv.2 v → Marshal kv.2 = Marshal v) m') as IH' by by rewrite <- P.
      clear -IH' F. induction F as [|a b m' m2 [Q1 Q2] F IHF]; [done|].
      apply Forall_cons in IH' as [IHa IHm]. simpl. unfold on_value at 1 3.
      rewrite Q1, (IHa _ Q2). by f_equal; apply IHF. }
    rewrite !Marshal_map.
    rewrite <- !sort_keys_map, <- M. f_equal.
    apply sort_keys_unique; [by rewrite fst_members|]. by rewrite P.
Qed.

(** The canonical serialization is the JSON of the map. *)
Lemma marshal_sorted v : marshal_ordered (sorted_value v) = Marshal v.
Proof.
  induction v as [| | | |l IH|m IH] using Value_nested_ind; try done.
  rewrite Marshal_map.
  assert (sorted_value (VMap m) = OMap (map (on_value sorted_value) (sort_keys m))) as ->.
  { rewrite <- sort_keys_map. simpl. f_equal. f_equal. apply map_ext. by intros []. }
  simpl. f_equal. rewrite map_map. apply map_ext_Forall.
  assert (Forall (λ kv, marshal_ordered (sorted_value kv.2) = Marshal kv.2) (sort_keys m)) as IH'
    by by rewrite sort_keys_perm.
  eapply Forall_impl; [done|]. intros [k v] E. simpl in *. unfold on_value. simpl. by rewrite E.
Qed.

Lemma SerializeCanonical_Marshal attrs : SerializeCanonical attrs = Marshal (VMap attrs).
Proof. apply marshal_sorted. Qed.

Global Instance SerializeCanonical_proper : Proper (attrs_eq ==> eq) SerializeCanonical.
Proof. intros m1 m2 E. rewrite !SerializeCanonical_Marshal. by apply Marshal_veq. Qed.

Global Instance ComputeHash_proper : Proper (attrs_eq ==> eq) ComputeHash.
Proof. intros m1 m2 E. unfold ComputeHash. by rewrite E. Qed.
End marshal.

(** C24. The hash of a resource depends on its attributes as a map: attributes
    that are equal up to the order of maps, at every depth, have the same
    canonical serialization, which is the JSON text of the map with its keys
    sorted, and the same hash. *)
Theorem hash_order_independent `{GoRuntime} (m1 m2 : Attrs) (E : attrs_eq m1 m2) :
  SerializeCanonical m1 = Marshal (VMap m2) ∧ ComputeHash m1 = ComputeHash m2.
Proof. split; [by rewrite E, SerializeCanonical_Marshal | by rewrite E]. Qed.

Lemma hash_order_independent_witness :
  @SerializeCanonical ascii_runtime [("b", VMap [("y", VInt 1); ("x", VBool true)]); ("a", VStr "<")] =
    Some (qt "{`a`:`\u003c`,`b`:{`x`:true,`y`:1}}") ∧
  @ComputeHash ascii_runtime [("b", VMap [("y", VInt 1); ("x", VBool true)]); ("a", VStr "<")] =
  @ComputeHash ascii_runtime [("a", VStr "<"); ("b", VMap [("x", VBool true); ("y", VInt 1)])].
Proof.
  replace (Some _) with
    (@Marshal ascii_runtime (VMap [("a", VStr "<"); ("b", VMap [("x", VBool true); ("y", VInt 1)])]))
    by (vm_compute; reflexivity).
  apply (@hash_order_independent ascii_runtime).
  eapply (veq_map _ [("a", VStr "<"); ("b", VMap [("y", VInt 1); ("x", VBool true)])]).
  - by apply (bool_decide_unpack _).
  - apply Permutation_swap.
  - repeat constructor. eapply (veq_map _ [("x", VBool true); ("y", VInt 1)]).
    + by apply (bool_decide_unpack _).
    + apply Permutation_swap.
    + repeat constructor.
Defined.

(** * Environments *)

Lemma attr_app k m1 m2 :
  attr k (m1 ++ m2) = match attr k m1 with Some v => Some v | None => attr k m2 end.
Proof. induction m1 as [|[k' v] m1 IH]; simpl; [done|]. by destruct (String.eqb k k'). Qed.

Lemma attr_set k k' v m : attr k (set_attr k' v m) = if decide (k = k') then Some v else attr k m.
Proof.
  induction m as [|[k2 v2] m IH]; simpl.
  - destruct (String.eqb_spec k k'), (decide (k = k')); congruence.
  - destruct (String.eqb_spec k' k2) as [->|N]; simpl.
    + destruct (String.eqb_spec k k2), (decide (k = k2)); congruence.
    + destruct (String.eqb_spec k k2) as [->|]; [|done].
      by destruct (decide (k2 = k')) as [->|].
Qed.

Section environment.
Context `{GoRuntime}.

(** What identifies a resource. *)
Definition same_resource (r r' : Resource) : Prop :=
  Resource_Kind r' = Resource_Kind r ∧ Resource_Name r' = Resource_Name r ∧
  Resource_FQN r' = Resource_FQN r ∧ Resource_References r' = Resource_References r ∧
  Resource_Metadata r' = Resource_Metadata r.

(** The hash is that of the attributes. *)
Definition hash_fresh (r : Resource) : Prop :=
  Resource_Hash r = ComputeHash (Resource_Attributes r).

(** The overrides the loop applies: (resource, attribute, value). *)
Definition effective (ov : Value) : option (string * string * string) :=
  match ov with
  | VMap m =>
      let ref := as_string (attr "resource" m) in
      let attribute := as_string (attr "attribute" m) in
      if String.eqb ref "" || String.eqb attribute "" then None
      else Some (ref, attribute, as_string (attr "value" m))
  | _ => None
  end.

(** The position of the first resource that a reference matches. *)
Definition first_target (ref : string) (rs : list Resource) : option nat :=
  fst <$> list_find (λ r, is_target ref r = true) rs.

Lemma apply_override_alter ref a v rs :
  apply_override ref a v rs =
    (λ i, alter (override_resource a v) i rs) <$> first_target ref rs.
Proof.
  unfold first_target. induction rs as [|r rs IH]; [done|]. cbn [apply_override list_find].
  destruct (is_target ref r) eqn:T.
  - by rewrite decide_True.
  - rewrite decide_False by done. rewrite IH.
    by destruct (list_find _ rs) as [[i r']|].
Qed.

(** Overriding attributes does not move targets. *)
Lemma first_target_alter ref a v i rs :
  first_target ref (alter (override_resource a v) i rs) = first_target ref rs.
Proof.
  unfold first_target. revert i. induction rs as [|r rs IH]; intros [|i]; try done; simpl.
  - change (is_target ref (override_resource a v r)) with (is_target ref r).
    by destruct (decide (is_target ref r = true)).
  - destruct (decide (is_target ref r = true)); [done|]. specialize (IH i).
    change (list_alter (override_resource a v) i rs) with (alter (override_resource a v) i rs).
    destruct (list_find _ (alter _ i rs)) as [[]|], (list_find _ rs) as [[]|]; simpl in *;
      congruence.
Qed.

(** The last value that the overrides give to attribute [a] of resource [i]. *)
Fixpoint overridden (rs : list Resource) (ovs : list Value) (i : nat) (a : string) : option string :=
  match ovs with
  | [] => None
  | ov :: ovs =>
      match overridden rs ovs i a, effective ov with
      | Some v, _ => Some v
      | None, Some (ref, a', v) =>
          if bool_decide (first_target ref rs = Some i ∧ a' = a) then Some v else None
      | None, None => None
      end
  end.

Lemma overridden_alter a v j rs ovs i b :
  overridden (alter (override_resource a v) j rs) ovs i b = overridden rs ovs i b.
Proof.
  induction ovs as [|ov ovs IH]; [done|]. simpl. rewrite IH.
  destruct (effective ov) as [[[? ?] ?]|]; [|done]. by rewrite first_target_alter.
Qed.

Definition override_spec (rs rs' : list Resource) (ovs : list Value) : Prop :=
  length rs' = length rs ∧
  ∀ i r r', rs !! i = Some r → rs' !! i = Some r' →
    same_resource r r' ∧ (hash_fresh r → hash_fresh r') ∧
    ∀ a, attr a (Resource_Attributes r') =
         match overridden rs ovs i a with
         | Some v => Some (VStr v)
         | None => attr a (Resource_Attributes r)
         end.

Lemma apply_overrides_cons env ov ovs rs :
  apply_overrides env (ov :: ovs) rs =
    match effective ov with
    | None => apply_overrides env ovs rs
    | Some (ref, a, v) =>
        match first_target ref rs with
        | Some j => apply_overrides env ovs (alter (override_resource a v) j rs)
        | None => Err ("environment " +:+ quote env +:+ ": override target " +:+
                       quote ref +:+ " not found")
        end
    end.
Proof.
  destruct ov as [| | | | |m]; try done. simpl. destruct (_ || _); [done|].
  rewrite apply_override_alter. by destruct (first_target _ rs).
Qed.

Lemma apply_overrides_spec env ovs rs rs' :
  apply_overrides env ovs rs = Ok rs' → override_spec rs rs' ovs.
Proof.
  revert rs. induction ovs as [|ov ovs IH]; intros rs E.
  { injection E as <-. split; [done|]. intros i r r' ->. intros [= ->]. by split_and!. }
  rewrite apply_overrides_cons in E. unfold override_spec. simpl.
  destruct (effective ov) as [[[ref a] v]|] eqn:Ef.
  - destruct (first_target ref rs) as [j|] eqn:T; [|done].
    destruct (IH _ E) as [L S]. rewrite length_alter in L. split; [done|].
    intros i r r' Er Er'. specialize (S i). rewrite list_lookup_alter in S.
    setoid_rewrite overridden_alter in S.
    destruct (decide (j = i)) as [->|N].
    + rewrite Er in S. destruct (S _ _ eq_refl Er') as (? & Hf & Ha). split_and!; [done| |].
      * intros _. by apply Hf.
      * intros b. rewrite Ha. destruct (overridden rs ovs i b); [done|]. simpl. rewrite attr_set.
        destruct (decide (b = a)) as [->|Nb].
        -- by rewrite bool_decide_eq_true_2.
        -- rewrite bool_decide_eq_false_2; [done|]. naive_solver.
    + destruct (S _ _ Er Er') as (? & Hf & Ha). split_and!; [done|done|].
      intros b. rewrite Ha. destruct (overridden rs ovs i b); [done|].
      rewrite bool_decide_eq_false_2; [done|]. naive_solver.
  - destruct (IH _ E) as [L S]. split; [done|]. intros i r r' Er Er'.
    destruct (S _ _ _ Er Er') as (? & ? & Ha). split_and!; [done|done|].
    intros b. rewrite Ha. by destruct (overridden rs ovs i b).
Qed.

Lemma apply_overrides_err env ovs rs err :
  apply_overrides env ovs rs = Err err →
  ∃ ov ref a v, ov ∈ ovs ∧ effective ov = Some (ref, a, v) ∧ first_target ref rs = None.
Proof.
  revert rs. induction ovs as [|ov ovs IH]; intros rs E; [done|].
  rewrite apply_overrides_cons in E. destruct (effective ov) as [[[ref a] v]|] eqn:Ef.
  - destruct (first_target ref rs) as [j|] eqn:T.
    + destruct (IH _ E) as (ov' & ref' & a' & v' & I & Ef' & T'). rewrite first_target_alter in T'.
      exists ov', ref', a', v'. split_and!; [by right | done | done].
    + exists ov, ref, a, v. split_and!; [by left | done | done].
  - destruct (IH _ E) as (ov' & ref' & a' & v' & I & ?). exists ov', ref', a', v'. by split; [right|].
Qed.

Definition environment_of (doc : Document) (name : string) : option Resource :=
  List.find (λ r, is_environment r && String.eqb (Resource_Name r) name) (Document_Resources doc).

(** Applying an environment whose overrides are a list gives the resources
    of the document without its environments, in the same order: each keeps
    its kind, name, FQN, references and metadata, an up-to-date hash stays up
    to date, and each attribute has the value of the last override of that
    resource and attribute, or its old value. It fails only when an override
    matches no resource. *)
Theorem apply_environment_overrides (doc : Document) (name : string) (env : Resource) (ovs : list Value)
    (N : name ≠ "") (F : environment_of doc name = Some env)
    (A : attr "overrides" (Resource_Attributes env) = Some (VList ovs)) :
  match ApplyEnvironment doc name with
  | Ok doc' =>
      ∃ rs', Document_Resources doc' = List.filter (λ r, negb (is_environment r)) rs' ∧
             override_spec (Document_Resources doc) rs' ovs
  | Err _ =>
      ∃ ov ref a v, ov ∈ ovs ∧ effective ov = Some (ref, a, v) ∧
                    first_target ref (Document_Resources doc) = None
  end.
Proof.
  unfold ApplyEnvironment. apply String.eqb_neq in N. rewrite N.
  fold (environment_of doc name). rewrite F, A.
  destruct (apply_overrides name ovs (Document_Resources doc)) as [rs'|err] eqn:E; simpl.
  - exists rs'. split; [done|]. by eapply apply_overrides_spec.
  - by eapply apply_overrides_err.
Qed.
End environment.

(** A document with an agent and an environment that renames its model. *)
Definition env_override (resource attribute value : string) : Value :=
  VMap [("resource", VStr resource); ("attribute", VStr attribute); ("value", VStr value)].

Definition env_document (overrides : list Value) : Document :=
  mkDocument "1.0" "2.0" (mkPackage "p" "1" "") []
    [mkResource "Agent" "a" "p/Agent/a" [("model", VStr "m")] [] "" [];
     mkResource "Environment" "prod" "p/Environment/prod" [("overrides", VList overrides)] [] "" [];
     mkResource "MCPServer" "s" "p/MCPServer/s" [("transport", VStr "stdio")] [] "" []]
    [] [] [] None.

Lemma apply_environment_overrides_witness :
  ∃ rs', Document_Resources
      match @ApplyEnvironment ascii_runtime (env_document [env_override "agent/a" "model" "n"]) "prod"
      with Ok d => d | Err _ => env_document [] end =
    List.filter (λ r, negb (is_environment r)) rs' ∧
    @override_spec ascii_runtime (Document_Resources (env_document [env_override "agent/a" "model" "n"]))
      rs' [env_override "agent/a" "model" "n"].
Proof.
  refine (@apply_environment_overrides ascii_runtime
    (env_document [env_override "agent/a" "model" "n"]) "prod" _ _ _ _ _);
    [done | reflexivity | reflexivity].
Defined.

(** The overrides of servers, which the validator accepts under the name
    "server/x", match no resource: the kind of a lowered server is MCPServer. *)
Lemma server_override_matches_nothing `{GoRuntime} (n : string) (r : Resource)
    (K : Resource_Kind r = "MCPServer") : is_target ("server/" +:+ n) r = false.
Proof.
  unfold is_target. rewrite K. apply orb_false_iff. split; [done|].
  unfold EqualFold. by apply bool_decide_eq_false.
Qed.

Lemma server_override_matches_nothing_witness :
  @is_target ascii_runtime "server/s"
    (mkResource "MCPServer" "s" "p/MCPServer/s" [] [] "" []) = false.
Proof. by apply (@server_override_matches_nothing ascii_runtime "s"). Defined.
