(* ===== verification/Lower.v ===== *)
(** Lowering a syntax tree to the intermediate representation
    (internal/ir/lower.go): one definition per case of the switch of Lower,
    lowerOnInputStmts, resolveEnvVars and strMapToInterface. *)
From S2P Require Import Prelude GoStd Ir Ast.
Open Scope Z_scope.

(** [m[k] = v] under a condition: the keys of each map literal and of the
    assignments that follow it are different, so the map is their list. *)
Definition field (c : bool) (k : string) (v : Value) : Attrs := if c then [(k, v)] else [].

Definition nonempty (s : string) : bool := negb (String.eqb s "").
Definition some_of {A} (l : list A) : bool := match l with [] => false | _ => true end.

(** A []string as []interface{}. *)
Definition strings (l : list string) : Value := VList (VStr <$> l).

(** A field that is set when the string is not empty, or the int positive. *)
Definition str_field (k s : string) : Attrs := field (nonempty s) k (VStr s).
Definition int_field (k : string) (n : Z) : Attrs := field (0 <? n) k (VInt n).
Definition true_field (k : string) (b : bool) : Attrs := field b k (VBool true).
Definition list_field (k : string) (l : list string) : Attrs := field (some_of l) k (strings l).

Definition validStateBackends : list string := ["local"; "kubernetes"; "etcd"; "postgres"; "s3"].

Section lower.
Context `{GoRuntime}.

Definition strMapToInterface (m : gmap string string) : Attrs :=
  (λ '(k, v), (k, VStr v)) <$> map_range m.

Definition map_field (k : string) (m : gmap string string) : Attrs :=
  field (some_of (map_range m)) k (VMap (strMapToInterface m)).

Definition fqn (pkgName kind name : string) : string := pkgName +:+ "/" +:+ kind +:+ "/" +:+ name.

Definition resource (pkgName kind name : string) (attrs : Attrs) (refs : list string)
    (metadata : gmap string string) : Resource :=
  mkResource kind name (fqn pkgName kind name) attrs refs (ComputeHash attrs)
    (strMapToInterface metadata).

(** * Prompts and skills *)

Definition lower_variable (v : VariableDecl) : Value :=
  VMap ([("name", VStr (VariableDecl_Name v)); ("type", VStr (VariableDecl_Type v))] ++
        true_field "required" (VariableDecl_Required v) ++
        str_field "default" (VariableDecl_Default v)).

Definition lower_prompt (pkgName : string) (s : Prompt) : Resource :=
  resource pkgName "Prompt" (Prompt_Name s)
    ([("content", VStr (Prompt_Content s))] ++
     str_field "version" (Prompt_Version s) ++
     field (some_of (Prompt_Variables s)) "variables" (VList (lower_variable <$> Prompt_Variables s)))
    [] (Prompt_Metadata s).

(** The fields of a tool that depend on its type. *)
Definition lower_tool_fields (tc : ToolConfig) : Attrs :=
  let type := ToolConfig_Type tc in
  if String.eqb type "mcp" then [("server_tool", VStr (ToolConfig_ServerTool tc))]
  else if String.eqb type "http" then
    str_field "method" (ToolConfig_Method tc) ++
    str_field "url" (ToolConfig_URL tc) ++
    map_field "headers" (ToolConfig_Headers tc) ++
    str_field "body_template" (ToolConfig_BodyTemplate tc)
  else if String.eqb type "command" then
    str_field "binary" (ToolConfig_Binary tc) ++
    list_field "args" (ToolConfig_Args tc) ++
    str_field "timeout" (ToolConfig_Timeout tc) ++
    map_field "env" (ToolConfig_Env tc) ++
    map_field "secrets" (ToolConfig_Secrets tc)
  else if String.eqb type "inline" then
    str_field "language" (ToolConfig_Language tc) ++
    str_field "code" (ToolConfig_Code tc) ++
    str_field "memory_limit" (ToolConfig_MemoryLimit tc)
  else [].

Definition lower_tool (tc : ToolConfig) : Value :=
  VMap ([("type", VStr (ToolConfig_Type tc))] ++
        lower_tool_fields tc ++
        field (nonempty (ToolConfig_Timeout tc) && negb (String.eqb (ToolConfig_Type tc) "command"))
          "timeout" (VStr (ToolConfig_Timeout tc))).

Definition lower_field (f : Field) : Value :=
  VMap ([("name", VStr (Field_Name f)); ("type", VStr (Field_Type f))] ++
        true_field "required" (Field_Required f)).

Definition lower_skill (pkgName : string) (s : Skill) : Resource :=
  resource pkgName "Skill" (Skill_Name s)
    ([("description", VStr (Skill_Description s))] ++
     match Skill_Execution s with
     | Some e => [("execution", VMap [("type", VStr (Execution_Type e)); ("value", VStr (Execution_Value e))])]
     | None => []
     end ++
     match Skill_ToolConfig s with
     | Some tc => [("tool", lower_tool tc)]
     | None => []
     end ++
     field (some_of (Skill_Input s)) "input" (VList (lower_field <$> Skill_Input s)) ++
     field (some_of (Skill_Output s)) "output" (VList (lower_field <$> Skill_Output s)))
    [] (Skill_Metadata s).

(** * Agents *)

Fixpoint lower_on_input_stmt (stmt : OnInputStmt) : Value :=
  match stmt with
  | UseSkillStmt name params _ _ =>
      VMap ([("type", VStr "use_skill"); ("skill", VStr name)] ++ map_field "params" params)
  | DelegateToStmt name _ _ => VMap [("type", VStr "delegate"); ("agent", VStr name)]
  | RespondStmt expression _ _ => VMap [("type", VStr "respond"); ("expression", VStr expression)]
  | IfBlock condition body elseIfs elseBody _ _ =>
      VMap ([("type", VStr "if"); ("condition", VStr condition);
             ("body", VList (map lower_on_input_stmt body))] ++
            field (some_of elseIfs) "else_ifs"
              (VList (map (λ '(mkElseIfClause c b _ _),
                 VMap [("condition", VStr c); ("body", VList (map lower_on_input_stmt b))]) elseIfs)) ++
            field (some_of elseBody) "else_body" (VList (map lower_on_input_stmt elseBody)))
  | ForEachBlock variable collection body _ _ =>
      VMap [("type", VStr "for_each"); ("variable", VStr variable);
            ("collection", VStr collection); ("body", VList (map lower_on_input_stmt body))]
  end.

Definition lowerOnInputStmts (stmts : list OnInputStmt) : Value :=
  VList (map lower_on_input_stmt stmts).

Definition lower_delegate (d : Delegate) : Value :=
  VMap [("agent", VStr (Delegate_AgentRef d)); ("condition", VStr (Delegate_Condition d))].

Definition lower_memory (m : MemoryConfig) : Value :=
  VMap (str_field "strategy" (MemoryConfig_Strategy m) ++
        int_field "max_messages" (MemoryConfig_MaxMessages m)).

Definition lower_param (p : ConfigParam) : Value :=
  VMap ([("name", VStr (ConfigParam_Name p)); ("type", VStr (ConfigParam_Type p))] ++
        str_field "description" (ConfigParam_Description p) ++
        true_field "required" (ConfigParam_Required p) ++
        true_field "secret" (ConfigParam_Secret p) ++
        field (ConfigParam_HasDefault p) "default" (VStr (ConfigParam_Default p))).

Definition lower_rule (r : ValidationRule) : Value :=
  VMap ([("name", VStr (ValidationRule_Name r)); ("severity", VStr (ValidationRule_Severity r));
         ("expression", VStr (ValidationRule_Expression r))] ++
        int_field "max_retries" (ValidationRule_MaxRetries r) ++
        str_field "message" (ValidationRule_Message r)).

Definition lower_case (c : EvalCase) : Value :=
  VMap ([("name", VStr (EvalCase_Name c)); ("input", VStr (EvalCase_Input c));
         ("expected", VStr (EvalCase_Expected c))] ++
        str_field "scoring" (EvalCase_Scoring c) ++
        field (negb (float_eq (EvalCase_Threshold c) (float_of_ratio false 8 10)))
          "threshold" (VFloat (EvalCase_Threshold c)) ++
        list_field "tags" (EvalCase_Tags c)).

(** [if o != nil { m[k] = f(o) }] *)
Definition opt_field {A} (k : string) (f : A → Value) (o : option A) : Attrs :=
  match o with Some x => [(k, f x)] | None => [] end.

Definition positive_float (f : float64) : bool := float_lt float_zero f.

Definition agent_attrs (s : Agent) : Attrs :=
  [("model", VStr (Agent_Model s))] ++
  opt_field "prompt" (λ r, VStr (Ref_Name r)) (Agent_Prompt s) ++
  list_field "skills" (Ref_Name <$> Agent_Skills s) ++
  opt_field "client" (λ r, VStr (Ref_Name r)) (Agent_Client s) ++
  str_field "strategy" (Agent_Strategy s) ++
  int_field "max_turns" (Agent_MaxTurns s) ++
  str_field "timeout" (Agent_Timeout s) ++
  int_field "token_budget" (Agent_TokenBudget s) ++
  field (Agent_HasTemp s) "temperature" (VFloat (Agent_Temperature s)) ++
  opt_field "stream" VBool (Agent_Stream s) ++
  str_field "on_error" (Agent_OnError s) ++
  int_field "max_retries" (Agent_MaxRetries s) ++
  str_field "fallback" (Agent_Fallback s) ++
  opt_field "memory" lower_memory (Agent_MemoryCfg s) ++
  field (some_of (Agent_Delegates s)) "delegates" (VList (lower_delegate <$> Agent_Delegates s)) ++
  field (some_of (Agent_ConfigParams s)) "config_params" (VList (lower_param <$> Agent_ConfigParams s)) ++
  field (some_of (Agent_ValidationRules s)) "validation_rules"
    (VList (lower_rule <$> Agent_ValidationRules s)) ++
  field (some_of (Agent_EvalCases s)) "eval_cases" (VList (lower_case <$> Agent_EvalCases s)) ++
  opt_field "on_input" (λ b, lowerOnInputStmts (OnInputBlock_Statements b)) (Agent_OnInput s) ++
  list_field "models" (Agent_Models s) ++
  field (positive_float (Agent_BudgetDaily s)) "budget_daily" (VFloat (Agent_BudgetDaily s)) ++
  field (positive_float (Agent_BudgetMonthly s)) "budget_monthly" (VFloat (Agent_BudgetMonthly s)) ++
  list_field "guardrails" (Agent_GuardrailRefs s).

(** The references of an agent, as kind and name. *)
Definition agent_refs (s : Agent) : list (string * string) :=
  match Agent_Prompt s with Some r => [("Prompt", Ref_Name r)] | None => [] end ++
  ((λ r, ("Skill", Ref_Name r)) <$> Agent_Skills s) ++
  match Agent_Client s with Some r => [("MCPClient", Ref_Name r)] | None => [] end ++
  (if nonempty (Agent_Fallback s) then [("Agent", Agent_Fallback s)] else []) ++
  ((λ d, ("Agent", Delegate_AgentRef d)) <$> Agent_Delegates s) ++
  ((λ g, ("Guardrail", g)) <$> Agent_GuardrailRefs s).

(** [fmt.Sprintf("%s/Kind/%s", pkgName, name)] for each reference. *)
Definition fqns (pkgName : string) (refs : list (string * string)) : list string :=
  (λ '(kind, name), fqn pkgName kind name) <$> refs.

Definition lower_agent (pkgName : string) (s : Agent) : Resource :=
  resource pkgName "Agent" (Agent_Name s) (agent_attrs s) (fqns pkgName (agent_refs s))
    (Agent_Metadata s).

(** * The other resources *)

Definition server_refs (s : MCPServer) : list (string * string) :=
  match MCPServer_Auth s with Some r => [("Secret", Ref_Name r)] | None => [] end ++
  ((λ r, ("Skill", Ref_Name r)) <$> MCPServer_Skills s).

Definition lower_server (pkgName : string) (s : MCPServer) : Resource :=
  resource pkgName "MCPServer" (MCPServer_Name s)
    ([("transport", VStr (MCPServer_Transport s))] ++
     str_field "command" (MCPServer_Command s) ++
     list_field "args" (MCPServer_Args s) ++
     str_field "url" (MCPServer_URL s) ++
     map_field "env" (MCPServer_Env s) ++
     opt_field "auth" (λ r, VStr (Ref_Name r)) (MCPServer_Auth s))
    (fqns pkgName (server_refs s)) (MCPServer_Metadata s).

Definition client_refs (s : MCPClient) : list (string * string) :=
  (λ r, ("MCPServer", Ref_Name r)) <$> MCPClient_Servers s.

Definition lower_client (pkgName : string) (s : MCPClient) : Resource :=
  resource pkgName "MCPClient" (MCPClient_Name s)
    (list_field "servers" (Ref_Name <$> MCPClient_Servers s))
    (fqns pkgName (client_refs s)) (MCPClient_Metadata s).

Definition lower_secret (pkgName : string) (s : Secret) : Resource :=
  resource pkgName "Secret" (Secret_Name s)
    [("source", VStr (Secret_Source s)); ("key", VStr (Secret_Key s))] [] ∅.

Definition lower_override (o : Override) : Value :=
  VMap [("resource", VStr (Override_Resource o)); ("attribute", VStr (Override_Attribute o));
        ("value", VStr (Override_Value o))].

Definition lower_environment (pkgName : string) (s : Environment) : Resource :=
  resource pkgName "Environment" (Environment_Name s)
    [("name", VStr (Environment_Name s));
     ("overrides", VList (lower_override <$> Environment_Overrides s))] [] ∅.

Definition lower_policy (s : Policy) : Ir.Policy :=
  Ir.mkPolicy (Policy_Name s)
    ((λ r, Ir.mkRule (Rule_Action r) (Rule_Resource r) (Rule_Subject r)) <$> Policy_Rules s).

Definition lower_binding (s : Binding) : Ir.Binding :=
  Ir.mkBinding (Binding_Name s) (Binding_Adapter s) (Binding_Default s)
    (if some_of (map_range (Binding_Config s)) then Some (strMapToInterface (Binding_Config s))
     else None).

Definition lower_type_field (f : TypeField) : Value :=
  VMap ([("name", VStr (TypeField_Name f)); ("type", VStr (TypeField_Type f))] ++
        true_field "required" (TypeField_Required f) ++
        str_field "default" (TypeField_Default f)).

Definition lower_type (pkgName : string) (s : TypeDef) : Resource :=
  resource pkgName "Type" (TypeDef_Name s)
    ([("name", VStr (TypeDef_Name s))] ++
     list_field "enum" (TypeDef_EnumVals s) ++
     str_field "list_of" (TypeDef_ListOf s) ++
     field (some_of (TypeDef_Fields s)) "fields" (VList (lower_type_field <$> TypeDef_Fields s)))
    [] ∅.

Definition lower_step (step : PipelineStep) : Value :=
  VMap ([("name", VStr (PipelineStep_Name step))] ++
        str_field "agent" (PipelineStep_Agent step) ++
        str_field "input" (PipelineStep_Input step) ++
        str_field "output" (PipelineStep_Output step) ++
        list_field "depends_on" (PipelineStep_DependsOn step) ++
        true_field "parallel" (PipelineStep_Parallel step) ++
        str_field "when" (PipelineStep_When step)).

Definition pipeline_refs (s : Pipeline) : list (string * string) :=
  flat_map (λ step, if nonempty (PipelineStep_Agent step)
                    then [("Agent", PipelineStep_Agent step)] else []) (Pipeline_Steps s).

Definition lower_pipeline (pkgName : string) (s : Pipeline) : Resource :=
  resource pkgName "Pipeline" (Pipeline_Name s)
    ([("name", VStr (Pipeline_Name s))] ++
     field (some_of (Pipeline_Steps s)) "steps" (VList (lower_step <$> Pipeline_Steps s)))
    (fqns pkgName (pipeline_refs s)) ∅.

Definition lower_user (pkgName : string) (s : User) : Resource :=
  resource pkgName "User" (User_Name s)
    ([("key_ref", VStr (User_KeyRef s))] ++
     list_field "agents" (User_Agents s) ++
     str_field "role" (User_Role s)) [] ∅.

Definition lower_guardrail (pkgName : string) (s : Guardrail) : Resource :=
  resource pkgName "Guardrail" (Guardrail_Name s)
    (str_field "mode" (Guardrail_Mode s) ++
     list_field "keywords" (Guardrail_Keywords s) ++
     list_field "patterns" (Guardrail_Patterns s) ++
     str_field "fallback" (Guardrail_FallbackMsg s)) [] ∅.

Definition deploy_config (s : DeployTarget) : Attrs :=
  int_field "port" (DeployTarget_Port s) ++
  str_field "namespace" (DeployTarget_Namespace s) ++
  int_field "replicas" (DeployTarget_Replicas s) ++
  str_field "image" (DeployTarget_Image s) ++
  opt_field "resources" (λ r, VMap (str_field "cpu" (ResourceLimits_CPU r) ++
                                    str_field "memory" (ResourceLimits_Memory r)))
    (DeployTarget_Resources s) ++
  opt_field "health" (λ h, VMap (str_field "path" (HealthConfig_Path h) ++
                                 str_field "interval" (HealthConfig_Interval h) ++
                                 str_field "timeout" (HealthConfig_Timeout h)))
    (DeployTarget_Health s) ++
  opt_field "autoscale" (λ a, VMap (int_field "min_replicas" (AutoscaleConfig_MinReplicas a) ++
                                    int_field "max_replicas" (AutoscaleConfig_MaxReplicas a) ++
                                    str_field "metric" (AutoscaleConfig_Metric a) ++
                                    int_field "target" (AutoscaleConfig_Target a)))
    (DeployTarget_Autoscale s) ++
  map_field "env" (DeployTarget_Env s) ++
  map_field "secrets" (DeployTarget_Secrets s).

Definition lower_deploy (s : DeployTarget) : Ir.DeployTarget :=
  Ir.mkDeployTarget (DeployTarget_Name s) (DeployTarget_Target s) (DeployTarget_Default s)
    (if some_of (deploy_config s) then Some (deploy_config s) else None).

(** * The state block

    [LookupEnv] is os.LookupEnv. resolveEnvVars replaces the first "${VAR}"
    until none is left: it need not end when the value of a variable contains
    "${" again, and [None] is running out of [fuel]. *)

Context (LookupEnv : string → option string).

Fixpoint resolveEnvVars (fuel : nat) (s : string) : option (result string string) :=
  match fuel with
  | O => None
  | S fuel =>
      match Index s "${" with
      | None => Some (Ok s)
      | Some start =>
          let rest := str_drop start s in
          match Index rest "}" with
          | None => Some (Ok s)
          | Some e =>
              let varName := str_drop 2 (str_take e rest) in
              match LookupEnv varName with
              | None => Some (Err ("unresolved environment variable " +:+ quote varName))
              | Some val =>
                  resolveEnvVars fuel (str_take start s +:+ val +:+ str_drop (S e) rest)
              end
          end
      end
  end.

Definition pos_prefix (p : Pos) : string :=
  Pos_File p +:+ ":" +:+ pretty (Pos_Line p) +:+ ":" +:+ pretty (Pos_Column p) +:+ ": ".

(** The loop over the properties. *)
Fixpoint resolve_properties (fuel : nat) (pos : Pos) (props : list (string * string))
    (resolved : gmap string string) : option (result string (gmap string string)) :=
  match props with
  | [] => Some (Ok resolved)
  | (k, v) :: props =>
      match resolveEnvVars fuel v with
      | None => None
      | Some (Err err) =>
          Some (Err (pos_prefix pos +:+ "state property " +:+ quote k +:+ ": " +:+ err))
      | Some (Ok rv) => resolve_properties fuel pos props (<[k := rv]> resolved)
      end
  end.

Definition lower_state (fuel : nat) (doc : Document) (s : StateConfig)
    : option (result string Document) :=
  match Document_StateConfig doc with
  | Some _ =>
      Some (Err (pos_prefix (StateConfig_StartPos s) +:+
        "duplicate state block; at most one state block is allowed per package"))
  | None =>
      if negb (existsb (String.eqb (StateConfig_Type s)) validStateBackends) then
        Some (Err (pos_prefix (StateConfig_StartPos s) +:+ "unknown state backend type " +:+
          quote (StateConfig_Type s) +:+ "; valid types: local, kubernetes, etcd, postgres, s3"))
      else
        match resolve_properties fuel (StateConfig_StartPos s)
                (map_range (StateConfig_Properties s)) ∅ with
        | None => None
        | Some (Err err) => Some (Err err)
        | Some (Ok resolved) =>
            Some (Ok (doc <| Document_StateConfig :=
              Some (Ir.mkStateConfig (StateConfig_Type s) resolved) |>))
        end
  end.

(** * The file *)

(** The resource a statement lowers to. *)
Definition lower_resource (pkgName : string) (stmt : Statement) : option Resource :=
  match stmt with
  | SPrompt s => Some (lower_prompt pkgName s)
  | SSkill s => Some (lower_skill pkgName s)
  | SAgent s => Some (lower_agent pkgName s)
  | SMCPServer s => Some (lower_server pkgName s)
  | SMCPClient s => Some (lower_client pkgName s)
  | SSecret s => Some (lower_secret pkgName s)
  | SEnvironment s => Some (lower_environment pkgName s)
  | STypeDef s => Some (lower_type pkgName s)
  | SPipeline s => Some (lower_pipeline pkgName s)
  | SUser s => Some (lower_user pkgName s)
  | SGuardrail s => Some (lower_guardrail pkgName s)
  | _ => None
  end.

(** One round of the loop of Lower: the statement is appended to its list. *)
Definition lower_statement (fuel : nat) (pkgName : string) (doc : Document) (stmt : Statement)
    : option (result string Document) :=
  match stmt with
  | SImport s => Some (Ok (doc <| Document_Imports := Document_Imports doc ++
      [Ir.mkImport (Import_Path s) (Import_Version s) (Import_Alias s)] |>))
  | SPolicy s => Some (Ok (doc <| Document_Policies := Document_Policies doc ++ [lower_policy s] |>))
  | SBinding s => Some (Ok (doc <| Document_Bindings := Document_Bindings doc ++ [lower_binding s] |>))
  | SDeployTarget s =>
      Some (Ok (doc <| Document_DeployTargets := Document_DeployTargets doc ++ [lower_deploy s] |>))
  | SStateConfig s => lower_state fuel doc s
  | _ =>
      match lower_resource pkgName stmt with
      | Some r => Some (Ok (doc <| Document_Resources := Document_Resources doc ++ [r] |>))
      | None => Some (Ok doc)
      end
  end.

Fixpoint lower_statements (fuel : nat) (pkgName : string) (doc : Document) (stmts : list Statement)
    : option (result string Document) :=
  match stmts with
  | [] => Some (Ok doc)
  | stmt :: stmts =>
      match lower_statement fuel pkgName doc stmt with
      | Some (Ok doc) => lower_statements fuel pkgName doc stmts
      | r => r
      end
  end.

(** Lower converts an AST File to an IR Document. *)
Definition Lower (fuel : nat) (f : File) : option (result string Document) :=
  match File_Package f with
  | None => Some (Err "missing package declaration")
  | Some pkg =>
      let doc := mkDocument "1.0" (Package_LangVersion pkg)
        (Ir.mkPackage (Package_Name pkg) (Package_Version pkg) "") [] [] [] [] [] None in
      match lower_statements fuel (Package_Name pkg) doc (File_Statements f) with
      | Some (Ok doc) =>
          Some (Ok (doc <| Document_Resources := SortResources (Document_Resources doc) |>))
      | r => r
      end
  end.
End lower.
