(* ===== verification/LowerFacts.v ===== *)
(** What lowering guarantees: the resources of the document are those of the
    statements, sorted by kind and name, with fresh hashes and one FQN each;
    the references of a semantically valid file are FQNs of resources of the
    document; the expansion of environment variables. *)
From S2P Require Import Prelude GoStd Ir IrFacts Ast Structural StructuralFacts EditDistance Semantic SemanticFacts Lower.
Open Scope Z_scope.

(** * The resources of the document *)

Section resources.
Context `{GoRuntime} (LookupEnv : string → option string).

Lemma lower_statement_resources fuel pkgName doc stmt doc' :
  lower_statement LookupEnv fuel pkgName doc stmt = Some (Ok doc') →
  Document_Resources doc' =
    Document_Resources doc ++ option_list (lower_resource pkgName stmt).
Proof.
  destruct stmt; cbn [lower_statement lower_resource option_list];
    try (intros [= <-]; simpl; by rewrite ?app_nil_r).
  unfold lower_state. destruct (Document_StateConfig doc); [done|].
  destruct (negb _); [done|]. destruct (resolve_properties _ _ _ _ _) as [[|]|]; [|done..].
  intros [= <-]. simpl. by rewrite app_nil_r.
Qed.

Lemma lower_statements_resources fuel pkgName doc stmts doc' :
  lower_statements LookupEnv fuel pkgName doc stmts = Some (Ok doc') →
  Document_Resources doc' = Document_Resources doc ++ omap (lower_resource pkgName) stmts.
Proof.
  revert doc. induction stmts as [|stmt stmts IH]; intros doc E.
  { injection E as <-. by rewrite app_nil_r. }
  cbn [lower_statements] in E.
  destruct (lower_statement LookupEnv fuel pkgName doc stmt) as [[doc1|]|] eqn:E1; [|done..].
  rewrite (IH _ E), (lower_statement_resources _ _ _ _ _ E1). simpl.
  rewrite <- app_assoc. by destruct (lower_resource pkgName stmt).
Qed.

Lemma Lower_resources fuel f doc :
  Lower LookupEnv fuel f = Some (Ok doc) →
  ∃ pkg, File_Package f = Some pkg ∧
    Document_Resources doc =
      SortResources (omap (lower_resource (Package_Name pkg)) (File_Statements f)).
Proof.
  unfold Lower. destruct (File_Package f) as [pkg|]; [|done].
  destruct (lower_statements _ _ _ _ _) as [[doc1|]|] eqn:E; [|done..].
  intros [= <-]. exists pkg. split; [done|]. simpl.
  by rewrite (lower_statements_resources _ _ _ _ _ E).
Qed.

End resources.

(** ** Sorting *)

Definition resource_le (a b : Resource) : Prop := resource_less b a = false.

Lemma resource_le_spec a b :
  resource_le a b ↔
  str_ltb (Resource_Kind a) (Resource_Kind b) = true ∨
  Resource_Kind a = Resource_Kind b ∧ str_le (Resource_Name a) (Resource_Name b).
Proof.
  unfold resource_le, resource_less.
  destruct (String.eqb_spec (Resource_Kind b) (Resource_Kind a)) as [->|N]; simpl.
  - rewrite str_ltb_irrefl. naive_solver.
  - change (str_ltb (Resource_Kind b) (Resource_Kind a) = false) with
      (str_le (Resource_Kind a) (Resource_Kind b)). rewrite str_le_lt. naive_solver.
Qed.

#[local] Instance resource_le_trans : Transitive resource_le.
Proof.
  intros a b c. rewrite !resource_le_spec. intros [K1|[-> N1]] [K2|[<- N2]]; auto.
  - left. by eapply str_ltb_trans.
  - right. split; [done|]. by etrans.
Qed.

#[local] Instance resource_le_total : Total resource_le.
Proof.
  intros a b. rewrite !resource_le_spec.
  destruct (str_ltb_total (Resource_Kind a) (Resource_Kind b)) as [?|[->|?]]; auto.
  destruct (total str_le (Resource_Name a) (Resource_Name b)); auto.
Qed.

Lemma SortResources_perm rs : SortResources rs ≡ₚ rs.
Proof. apply insertion_sort_perm. Qed.

Lemma SortResources_sorted rs : StronglySorted resource_le (SortResources rs).
Proof. refine (insertion_sort_sorted resource_less rs). Qed.

(** Lowering keeps every resource declaration exactly once: the resources
    of the document are a permutation of the lowered statements, in ascending
    order of kind and name. *)
Lemma lower_resources_sorted `{GoRuntime} LookupEnv fuel f doc
    (E : Lower LookupEnv fuel f = Some (Ok doc)) :
  ∃ pkg, File_Package f = Some pkg ∧
    Document_Resources doc ≡ₚ omap (lower_resource (Package_Name pkg)) (File_Statements f) ∧
    StronglySorted resource_le (Document_Resources doc).
Proof.
  destruct (Lower_resources _ _ _ _ E) as (pkg & P & ->). exists pkg. split_and!; [done| |].
  - apply SortResources_perm.
  - apply SortResources_sorted.
Qed.

(** * References *)

Section references.
Context `{GoRuntime}.

(** The kinds that become resources. *)
Definition resource_kinds : list string :=
  ["Prompt"; "Skill"; "Agent"; "MCPServer"; "MCPClient"; "Secret"; "Environment"; "Type";
   "Pipeline"; "User"; "Guardrail"].

Lemma lower_resource_decl pkgName stmt kind name :
  decl_of stmt = Some (kind, name) → kind ∈ resource_kinds →
  ∃ r, lower_resource pkgName stmt = Some r ∧ Resource_Kind r = kind ∧ Resource_Name r = name ∧
       Resource_FQN r = fqn pkgName kind name.
Proof.
  destruct stmt; intros D K; try done; injection D as <- <-; try (by eexists);
    exfalso; revert K; apply one_of_false; reflexivity.
Qed.

Lemma lower_resource_fqn pkgName stmt r :
  lower_resource pkgName stmt = Some r →
  decl_of stmt = Some (Resource_Kind r, Resource_Name r) ∧ Resource_Kind r ∈ resource_kinds ∧
  Resource_FQN r = fqn pkgName (Resource_Kind r) (Resource_Name r) ∧ hash_fresh r.
Proof.
  destruct stmt; try done; intros [= <-]; (split_and!; [done | | done | done]);
    by apply one_of_true.
Qed.

(** The references of a lowered statement, as kind and name. *)
Definition refs_of (stmt : Statement) : list (string * string) :=
  match stmt with
  | SAgent s => agent_refs s
  | SMCPServer s => server_refs s
  | SMCPClient s => client_refs s
  | SPipeline s => pipeline_refs s
  | _ => []
  end.

Lemma lower_resource_refs pkgName stmt r :
  lower_resource pkgName stmt = Some r → Resource_References r = fqns pkgName (refs_of stmt).
Proof. destruct stmt; try done; by intros [= <-]. Qed.

Lemma option_refs {A} (o : option A) (f : A → string * string) x :
  x ∈ match o with Some r => [f r] | None => [] end ↔ ∃ r, o = Some r ∧ x = f r.
Proof. destruct o; set_solver. Qed.

Lemma nonempty_true s : nonempty s = true ↔ s ≠ "".
Proof. unfold nonempty. by rewrite negb_true_iff, String.eqb_neq. Qed.

Lemma nonempty_refs (k s : string) x :
  x ∈ (if nonempty s then [(k, s)] else []) ↔ s ≠ "" ∧ x = (k, s).
Proof.
  destruct (nonempty s) eqn:N.
  - apply nonempty_true in N. rewrite list_elem_of_singleton. naive_solver.
  - split; [by intros ?%not_elem_of_nil|]. intros [E%nonempty_true _]. congruence.
Qed.

(** Every reference the lowering emits is one that validation resolves, of a
    kind that becomes a resource. *)
Lemma refs_of_refers stmt kind name :
  (kind, name) ∈ refs_of stmt → Refers stmt kind name ∧ kind ∈ resource_kinds.
Proof.
  assert (∀ k, one_of resource_kinds k = true → k ∈ resource_kinds) as K by apply one_of_true.
  destruct stmt as [| | |a| | |s|c| | | | | | | | | | |p]; simpl; try (by intros ?%not_elem_of_nil).
  - unfold agent_refs. rewrite !elem_of_app, !option_refs, !list_elem_of_fmap, nonempty_refs.
    intros [(r & ? & [= -> ->])|[(r & [= -> ->] & ?)|[(r & ? & [= -> ->])|[(N & [= -> ->])|
      [(d & [= -> ->] & ?)|(g & [= -> ->] & ?)]]]]];
      (split; [constructor; eauto using AgentRefers | by apply K]).
  - unfold server_refs. rewrite elem_of_app, option_refs, list_elem_of_fmap.
    intros [(r & ? & [= -> ->])|(r & [= -> ->] & ?)]; (split; [by constructor | by apply K]).
  - unfold client_refs. rewrite list_elem_of_fmap.
    intros (r & [= -> ->] & ?). split; [by constructor | by apply K].
  - unfold pipeline_refs. rewrite list_elem_of_In, in_flat_map.
    intros (step & I%list_elem_of_In & R%list_elem_of_In).
    apply nonempty_refs in R as [N [= -> ->]]. split; [by constructor | by apply K].
Qed.
End references.

(** C7. Referential integrity from source to IR: when a file passes semantic
    validation and is lowered, every reference of every resource of the
    document is the FQN of a resource of the document. *)
Theorem lower_references_resolve `{GoRuntime} LookupEnv fuel f doc r ref
    (V : ValidateSemantic f = []) (E : Lower LookupEnv fuel f = Some (Ok doc))
    (I : r ∈ Document_Resources doc) (R : ref ∈ Resource_References r) :
  ∃ r', r' ∈ Document_Resources doc ∧ Resource_FQN r' = ref.
Proof.
  apply semantic_resolved in V.
  destruct (Lower_resources _ _ _ _ E) as (pkg & P & Er). rewrite Er in *.
  setoid_rewrite SortResources_perm. rewrite SortResources_perm in I.
  apply list_elem_of_omap in I as (stmt & Is & Lr).
  rewrite (lower_resource_refs _ _ _ Lr) in R.
  apply list_elem_of_fmap in R as ([kind name] & -> & Rr).
  apply refs_of_refers in Rr as [Rf K].
  destruct (resolved_refs _ V _ _ _ Is Rf) as (stmt' & Is' & D).
  destruct (lower_resource_decl (Package_Name pkg) _ _ _ D K) as (r' & L' & _ & _ & F').
  exists r'. split; [|done]. apply list_elem_of_omap. eauto.
Qed.

(** * FQNs *)

Lemma kind_no_slash kind : kind ∈ resource_kinds → ∀ u v, kind ≠ u +:+ "/" +:+ v.
Proof.
  intros K u v E.
  assert (Index kind "/" = None) as N.
  { apply one_of_true in K. unfold one_of in K. apply existsb_exists in K as (k & I & E').
    apply String.eqb_eq in E' as ->. simpl in I. destruct_or?; subst; done. }
  by eapply Index_None in N.
Qed.

Lemma fqn_inj pkg k n k' n' :
  k ∈ resource_kinds → k' ∈ resource_kinds → fqn pkg k n = fqn pkg k' n' → k = k' ∧ n = n'.
Proof.
  unfold fqn. intros K K' E. apply str_app_inj_l, (str_app_inj_l "/") in E.
  assert (k = k') as <-.
  { pose proof (slash_first k n (kind_no_slash k K) k' n' E) as L1.
    pose proof (slash_first k' n' (kind_no_slash k' K') k n (eq_sym E)) as L2.
    rewrite <- (str_take_app k ("/" +:+ n)), E.
    replace (String.length k) with (String.length k') by lia. by rewrite str_take_app. }
  split; [done|]. by apply str_app_inj_l, (str_app_inj_l "/") in E.
Qed.

Lemma lowered_fqns `{GoRuntime} pkgName stmts :
  NoDup (omap decl_of stmts) →
  NoDup (Resource_FQN <$> omap (lower_resource pkgName) stmts).
Proof.
  induction stmts as [|stmt stmts IH]; intros N; [constructor|]. csimpl in *.
  destruct (lower_resource pkgName stmt) as [r|] eqn:L.
  - destruct (lower_resource_fqn _ _ _ L) as (D & K & F & _). rewrite D in N. csimpl.
    apply NoDup_cons in N as [Nn N]. apply NoDup_cons. split; [|by apply IH].
    intros (r' & E & I)%list_elem_of_fmap. apply list_elem_of_omap in I as (s & Is & L').
    destruct (lower_resource_fqn _ _ _ L') as (D' & K' & F' & _). rewrite F, F' in E.
    destruct (fqn_inj _ _ _ _ _ K K' E) as [E1 E2].
    apply Nn, list_elem_of_omap. exists s. split; [done|]. congruence.
  - apply IH. destruct (decl_of stmt); [by apply NoDup_cons in N as [_ N] | done].
Qed.

(** C8. The resources of a document have the FQN package/kind/name of their
    declaration and the hash of their attributes; when no two declarations of
    the file have one kind and name, no two resources share an FQN. *)
Theorem lower_identity `{GoRuntime} LookupEnv fuel f doc
    (E : Lower LookupEnv fuel f = Some (Ok doc)) :
  (∃ pkg, File_Package f = Some pkg ∧
    Forall (λ r, hash_fresh r ∧
      Resource_FQN r = fqn (Package_Name pkg) (Resource_Kind r) (Resource_Name r) ∧
      declares f (Resource_Kind r) (Resource_Name r)) (Document_Resources doc)) ∧
  (NoDup (omap decl_of (File_Statements f)) → NoDup (Resource_FQN <$> Document_Resources doc)).
Proof.
  destruct (Lower_resources _ _ _ _ E) as (pkg & P & ->). split.
  - exists pkg. split; [done|]. rewrite SortResources_perm. apply Forall_forall. intros r I.
    apply list_elem_of_omap in I as (s & Is & L).
    destruct (lower_resource_fqn _ _ _ L) as (D & _ & F & Hf). split_and!; [done..|]. by exists s.
  - intros N. rewrite SortResources_perm. by apply lowered_fqns.
Qed.

(** * Environment variables *)

Fixpoint dollars (s : string) : nat :=
  match s with
  | EmptyString => O
  | String c s => if Ascii.eqb c "$" then S (dollars s) else dollars s
  end.

Lemma dollars_app s t : dollars (s +:+ t) = (dollars s + dollars t)%nat.
Proof.
  induction s as [|c s IH]; [done|]. rewrite str_app_cons. simpl. rewrite IH.
  by destruct (Ascii.eqb c "$").
Qed.

Lemma dollars_length s : (dollars s ≤ String.length s)%nat.
Proof. induction s as [|c s IH]; [done|]. simpl. destruct (Ascii.eqb c "$"); lia. Qed.

(** One replacement removes the "$" of its opening. *)
Lemma expand_dollars s start e val :
  Index s "${" = Some start → Index (str_drop start s) "}" = Some e →
  dollars val = O →
  (dollars (str_take start s +:+ val +:+ str_drop (S e) (str_drop start s)) < dollars s)%nat.
Proof.
  intros I J V. apply Index_Some in I as [(u & v & -> & <-) _].
  rewrite str_take_app. rewrite str_drop_app in *.
  apply Index_Some in J as [(u' & v' & E & <-) _]. rewrite E.
  assert (str_drop (S (String.length u')) (u' +:+ "}" +:+ v') = v') as ->.
  { change (S (String.length u')) with (1 + String.length u')%nat. clear.
    induction u' as [|c u' IH]; [done|]. rewrite str_app_cons. apply IH. }
  rewrite !dollars_app, V. destruct u' as [|c u']; [done|].
  rewrite str_app_cons in E. injection E as <- E. simpl. lia.
Qed.

(** Expansion of "${VAR}" ends, within one round per byte of the value,
    when no environment variable contains a "$"; a result that is not an error
    has no "${" with a "}" after it. *)
Lemma resolveEnvVars_terminates `{GoRuntime} (LookupEnv : string → option string) (s : string)
    (D : ∀ n v, LookupEnv n = Some v → dollars v = O) (fuel : nat)
    (L : (String.length s < fuel)%nat) :
  ∃ r, resolveEnvVars LookupEnv fuel s = Some r ∧
    ∀ s', r = Ok s' → ∀ u v w, s' ≠ u +:+ "${" +:+ v +:+ "}" +:+ w.
Proof.
  pose proof (dollars_length s) as M. assert (dollars s < fuel)%nat as B by lia. clear L M.
  revert s B. induction fuel as [|fuel IH]; intros s B; [lia|]. cbn [resolveEnvVars]. cbv zeta.
  destruct (Index s "${") as [start|] eqn:I.
  - destruct (Index (str_drop start s) "}") as [e|] eqn:J.
    + destruct (LookupEnv _) as [val|] eqn:V; [|by eexists].
      apply IH. pose proof (expand_dollars _ _ _ _ I J (D _ _ V)). lia.
    + eexists. split; [done|]. intros s' [= <-] u v w E.
      pose proof I as F. apply Index_Some in F as [(u' & v' & E' & <-) M].
      specialize (M u (v +:+ "}" +:+ w) E). rewrite E', str_drop_app in J.
      eapply Index_None with (u := str_drop (String.length u') u +:+ "${" +:+ v) (v := w) in J.
      apply J. rewrite E' in E. clear -E M. revert u E M.
      induction u' as [|c u' IH]; intros u E M.
      * change (str_drop 0 u) with u. change ("${" +:+ v' = u +:+ "${" +:+ v +:+ "}" +:+ w) in E.
        by rewrite E, !str_app_assoc.
      * destruct u as [|d u]; simpl in M; [lia|]. rewrite !str_app_cons in E. injection E as _ E. apply IH; [done | lia].
  - eexists. split; [done|]. intros s' [= <-] u v w E.
    by eapply Index_None with (u := u) (v := v +:+ "}" +:+ w) in I.
Qed.

Definition home_env (n : string) : option string :=
  if String.eqb n "HOME" then Some "/root" else None.

Lemma resolveEnvVars_terminates_witness :
  ∃ r, @resolveEnvVars ascii_runtime home_env 20 "${HOME}/state" = Some r ∧
    ∀ s', r = Ok s' → ∀ u v w, s' ≠ u +:+ "${" +:+ v +:+ "}" +:+ w.
Proof.
  apply (@resolveEnvVars_terminates ascii_runtime home_env).
  - intros n v. unfold home_env. destruct (String.eqb n "HOME"); [by intros [= <-] | done].
  - simpl. lia.
Defined.

(** Expansion never ends on a variable whose value mentions it again: no
    number of rounds gives a result. *)
Lemma resolveEnvVars_diverges `{GoRuntime} (LookupEnv : string → option string)
    (S : LookupEnv "SELF" = Some "${SELF}") (fuel : nat) :
  resolveEnvVars LookupEnv fuel "${SELF}" = None.
Proof. induction fuel as [|fuel IH]; [done|]. simpl. rewrite S. exact IH. Qed.

Lemma resolveEnvVars_diverges_witness :
  @resolveEnvVars ascii_runtime (λ n, Some ("${" +:+ n +:+ "}")) 100 "${SELF}" = None.
Proof. by apply (@resolveEnvVars_diverges ascii_runtime). Defined.

(** * A small file *)

Definition small_file : File :=
  mkFile "f" (Some (zero_Package <| Package_Name := "p" |>))
    [SPrompt (zero_Prompt <| Prompt_Name := "x" |> <| Prompt_Content := "hi" |>);
     SAgent (zero_Agent <| Agent_Name := "a" |> <| Agent_Model := "m" |>
               <| Agent_Prompt := Some (mkRef "prompt" "x" "" zero_Pos zero_Pos) |>)]
    zero_Pos zero_Pos.

Definition small_document : Document :=
  match @Lower ascii_runtime home_env 1 small_file with
  | Some (Ok doc) => doc
  | _ => mkDocument "" "" (Ir.mkPackage "" "" "") [] [] [] [] [] None
  end.

Lemma lower_references_resolve_witness :
  ∃ r', r' ∈ Document_Resources small_document ∧ Resource_FQN r' = "p/Prompt/x".
Proof.
  eapply (@lower_references_resolve ascii_runtime home_env 1 small_file small_document);
    [by vm_compute | by vm_compute | vm_compute; left | vm_compute; left].
Defined.

Lemma lower_resources_sorted_witness :
  ∃ pkg, File_Package small_file = Some pkg ∧
    Document_Resources small_document ≡ₚ
      omap (@lower_resource ascii_runtime (Package_Name pkg)) (File_Statements small_file) ∧
    StronglySorted resource_le (Document_Resources small_document).
Proof.
  apply (@lower_resources_sorted ascii_runtime home_env 1 small_file small_document).
  by vm_compute.
Defined.

Lemma lower_identity_witness :
  (∃ pkg, File_Package small_file = Some pkg ∧
    Forall (λ r, @hash_fresh ascii_runtime r ∧
      Resource_FQN r = fqn (Package_Name pkg) (Resource_Kind r) (Resource_Name r) ∧
      declares small_file (Resource_Kind r) (Resource_Name r)) (Document_Resources small_document)) ∧
  (NoDup (omap decl_of (File_Statements small_file)) →
   NoDup (Resource_FQN <$> Document_Resources small_document)).
Proof.
  apply (@lower_identity ascii_runtime home_env 1 small_file small_document).
  by vm_compute.
Defined.
