(* ===== verification/Plan.v ===== *)
(** The vocabulary that planning, applying and the state backends share:
    entries and the Backend interface (internal/state/state.go), actions,
    results and the Adapter interface (internal/adapters/adapter.go), events
    (internal/events/events.go). *)
From S2P Require Import Prelude GoStd Ir.
Open Scope Z_scope.

(** * Entries *)

(** Status is a string type. *)
Definition StatusApplied : string := "applied".
Definition StatusFailed : string := "failed".
Definition StatusOrphaned : string := "orphaned".

(** Entry records the state of a single resource after apply. A time is an
    integer. *)
Record Entry := mkEntry {
  Entry_FQN : string;
  Entry_Hash : string;
  Entry_Status : string;
  Entry_LastApplied : Z;
  Entry_Adapter : string;
  Entry_Error : string;
  Entry_OrphanedAt : Z;
}.

(** Backend is the interface for state persistence: each method may change the
    backend's own state [S]. *)
Class Backend (S : Type) := {
  Load : S → result string (list Entry) * S;
  Save : list Entry → S → result string unit * S;
  (** the optional interface Locker *)
  LockWithContext : S → result string unit * S;
  Unlock : S → S;
}.

(** What Apply relies on: saved entries are loaded back, up to their order, and
    the lock does not change what is loaded. *)
Class BackendLaws (S : Type) `{Backend S} := {
  save_load : ∀ es s s', Save es s = (Ok tt, s') →
    ∃ es', (Load s').1 = Ok es' ∧ es' ≡ₚ es;
  lock_load : ∀ s s', LockWithContext s = (Ok tt, s') → (Load s').1 = (Load s).1;
  unlock_load : ∀ s, (Load (Unlock s)).1 = (Load s).1;
}.

(** * Actions and results *)

Definition ActionCreate : string := "create".
Definition ActionUpdate : string := "update".
Definition ActionDelete : string := "delete".
Definition ActionNoop : string := "noop".

(** Action describes a planned change for a single resource. *)
Record Action := mkAction {
  Action_FQN : string;
  Action_Type : string;
  Action_Resource : option Resource;
  Action_Reason : string;
}.

Definition ResultSuccess : string := "success".
Definition ResultFailed : string := "failed".

(** Result describes the outcome of applying a single action. *)
Record Result := mkResult {
  Result_FQN : string;
  Result_Action : string;
  Result_Status : string;
  Result_Error : string;
  Result_Artifact : string;
}.

(** The methods of an Adapter that Apply calls. *)
Class Adapter := {
  Adapter_Name : string;
  Adapter_Apply : list Action → result string (list Result);
}.

(** The adapter local-mcp (internal/adapters/local/local.go). *)
Definition local_adapter : Adapter := {|
  Adapter_Name := "local-mcp";
  Adapter_Apply actions :=
    Ok ((λ a, mkResult (Action_FQN a) (Action_Type a) ResultSuccess "" "") <$> actions);
|}.

(** * Events *)

(** Event is a structured event; the time stamp is left out. *)
Record Event := mkEvent {
  Event_Type : string;
  Event_CorrelationID : string;
  Event_Data : Attrs;
}.

Definition ApplyStarted : string := "apply.started".
Definition ApplyResource : string := "apply.resource".
Definition ApplyCompleted : string := "apply.completed".

Definition new_event (eventType correlationID : string) : Event := mkEvent eventType correlationID [].
Definition WithData (e : Event) (key : string) (value : Value) : Event :=
  mkEvent (Event_Type e) (Event_CorrelationID e) (set_attr key value (Event_Data e)).

(** Planning and drift detection (internal/plan/plan.go, drift.go). *)

(** Plan represents a computed set of changes. *)
Record Plan := mkPlan {
  Plan_Actions : list Action;
  Plan_TargetBinding : string;
  Plan_HasChanges : bool;
}.

(** [m[e.FQN] = e] over a slice: the last entry of an FQN wins. *)
Definition entries_by_fqn (current : list Entry) : gmap string Entry :=
  foldl (λ m e, <[Entry_FQN e := e]> m) ∅ current.

Definition resources_by_fqn (desired : list Resource) : gmap string Resource :=
  foldl (λ m r, <[Resource_FQN r := r]> m) ∅ desired.

(** The action of one desired resource. *)
Definition desired_action (currentMap : gmap string Entry) (r : Resource) : Action :=
  match currentMap !! Resource_FQN r with
  | None => mkAction (Resource_FQN r) ActionCreate (Some r) "resource does not exist"
  | Some entry =>
      if negb (String.eqb (Entry_Hash entry) (Resource_Hash r)) then
        mkAction (Resource_FQN r) ActionUpdate (Some r) "resource hash changed"
      else if String.eqb (Entry_Status entry) StatusFailed then
        mkAction (Resource_FQN r) ActionUpdate (Some r) "retrying previously failed resource"
      else mkAction (Resource_FQN r) ActionNoop (Some r) "no changes"
  end.

(** The action of one entry of the state, when it is no longer desired. *)
Definition delete_action (desiredMap : gmap string Resource) (e : Entry) : option Action :=
  match desiredMap !! Entry_FQN e with
  | Some _ => None
  | None => Some (mkAction (Entry_FQN e) ActionDelete None "resource no longer defined")
  end.

(** hasChanges is set with every action that is not a noop. *)
Definition changes (a : Action) : bool := negb (String.eqb (Action_Type a) ActionNoop).

(** sortActions: the insertion sort of the code. *)
Definition sortActions (actions : list Action) : list Action :=
  insertion_sort (λ a b, str_ltb (Action_FQN a) (Action_FQN b)) actions.

(** ComputePlan compares desired IR resources against current state. *)
Definition ComputePlan (desired : list Resource) (current : list Entry) : Plan :=
  let currentMap := entries_by_fqn current in
  let desiredMap := resources_by_fqn desired in
  let actions := (desired_action currentMap <$> desired) ++ omap (delete_action desiredMap) current in
  mkPlan (sortActions actions) "" (existsb changes actions).

(** ResolveBinding finds the target binding; a nil pointer is [None], and the
    error is always nil. *)
Definition ResolveBinding (bindings : list Binding) (targetName : string) : option Binding :=
  match bindings with
  | [] => None
  | _ =>
      if negb (String.eqb targetName "") then
        List.find (λ b, String.eqb (Binding_Name b) targetName) bindings
      else
        match List.find Binding_Default bindings with
        | Some b => Some b
        | None => match bindings with [b] => Some b | _ => None end
        end
  end.

Definition ResolveDeployTarget (targets : list DeployTarget) (targetName : string)
    : option DeployTarget :=
  match targets with
  | [] => None
  | _ =>
      if negb (String.eqb targetName "") then
        List.find (λ t, String.eqb (DeployTarget_Name t) targetName) targets
      else
        match List.find DeployTarget_Default targets with
        | Some t => Some t
        | None => match targets with [t] => Some t | _ => None end
        end
  end.

Definition DeployTargetAdapter (target : string) : string :=
  if String.eqb target "process" then "local-mcp"
  else if String.eqb target "docker-compose" then "docker-compose"
  else target.

(** * Drift *)

Record DriftEntry := mkDriftEntry {
  DriftEntry_FQN : string;
  DriftEntry_Expected : string;
  DriftEntry_Actual : string;
  DriftEntry_Type : string;
}.

Record DriftResult := mkDriftResult {
  DriftResult_HasDrift : bool;
  DriftResult_Drifted : list DriftEntry;
}.

Definition desired_drift (currentMap : gmap string Entry) (r : Resource) : option DriftEntry :=
  match currentMap !! Resource_FQN r with
  | None => Some (mkDriftEntry (Resource_FQN r) (Resource_Hash r) "" "missing")
  | Some entry =>
      if negb (String.eqb (Entry_Hash entry) (Resource_Hash r)) then
        Some (mkDriftEntry (Resource_FQN r) (Resource_Hash r) (Entry_Hash entry) "hash_mismatch")
      else None
  end.

Definition extra_drift (desiredMap : gmap string Resource) (e : Entry) : option DriftEntry :=
  match desiredMap !! Entry_FQN e with
  | Some _ => None
  | None => Some (mkDriftEntry (Entry_FQN e) "" (Entry_Hash e) "extra")
  end.

(** [result.Drifted = append(result.Drifted, d); result.HasDrift = true] *)
Definition add_drift (result : DriftResult) (d : option DriftEntry) : DriftResult :=
  match d with
  | Some d => mkDriftResult true (DriftResult_Drifted result ++ [d])
  | None => result
  end.

Definition DetectDrift (desired : list Resource) (current : list Entry) : DriftResult :=
  let currentMap := entries_by_fqn current in
  let desiredMap := resources_by_fqn desired in
  let result := foldl (λ res r, add_drift res (desired_drift currentMap r))
    (mkDriftResult false []) desired in
  foldl (λ res e, add_drift res (extra_drift desiredMap e)) result current.

(** Applying a plan (internal/apply/apply.go): the actions that change
    something go through the adapter, and each result updates the state, a
    failed one being marked and the others continued with. *)

(** Result summarizes the outcome of an apply operation. *)
Record Summary := mkSummary {
  Created : Z;
  Updated : Z;
  Deleted : Z;
  Failed : Z;
  Results : list Result;
}.

Global Instance settable_Summary : Settable Summary := λ s,
  mkSummary (Created s) (Updated s) (Deleted s) (Failed s) (Results s).

Section apply.
Context `{GoRuntime} {S : Type} `{Backend S} (adapter : Adapter) (now : Z).

(** The hash of the action at the index of the result. *)
Definition action_hash (toApply : list Action) (i : nat) : string :=
  match toApply !! i with
  | Some a => match Action_Resource a with Some r => Resource_Hash r | None => "" end
  | None => ""
  end.

Definition resource_event (correlationID : string) (r : Result) : Event :=
  WithData (WithData (WithData (new_event ApplyResource correlationID)
    "fqn" (VStr (Result_FQN r))) "action" (VStr (Result_Action r))) "status" (VStr (Result_Status r)).

(** One round of the loop over the results: the state map and the summary. *)
Definition apply_result (toApply : list Action) (i : nat) (r : Result)
    (acc : gmap string Entry * Summary) : gmap string Entry * Summary :=
  let '(stateMap, res) := acc in
  let fqn := Result_FQN r in
  let applied := mkEntry fqn (action_hash toApply i) StatusApplied now (@Adapter_Name adapter) "" 0 in
  if String.eqb (Result_Status r) ResultSuccess then
    if String.eqb (Result_Action r) ActionCreate then
      (<[fqn := applied]> stateMap, res <| Created := Created res + 1 |>)
    else if String.eqb (Result_Action r) ActionUpdate then
      (<[fqn := applied]> stateMap, res <| Updated := Updated res + 1 |>)
    else if String.eqb (Result_Action r) ActionDelete then
      (delete fqn stateMap, res <| Deleted := Deleted res + 1 |>)
    else (<[fqn := applied]> stateMap, res)
  else
    (<[fqn := mkEntry fqn "" StatusFailed now (@Adapter_Name adapter) (Result_Error r) 0]> stateMap,
     res <| Failed := Failed res + 1 |>).

(** The loop, from the index of its first result. *)
Fixpoint apply_results (toApply : list Action) (i : nat) (results : list Result)
    (acc : gmap string Entry * Summary) : gmap string Entry * Summary :=
  match results with
  | [] => acc
  | r :: results => apply_results toApply (Datatypes.S i) results (apply_result toApply i r acc)
  end.

Definition completed_event (correlationID : string) (res : Summary) : Event :=
  WithData (WithData (WithData (WithData (new_event ApplyCompleted correlationID)
    "created" (VInt (Created res))) "updated" (VInt (Updated res)))
    "deleted" (VInt (Deleted res))) "failed" (VInt (Failed res)).

(** What Apply does once the lock is held: the returned pair (summary, error),
    the backend and the emitted events. *)
Definition apply_locked (actions : list Action) (correlationID : string) (s : S)
    : (option Summary * option string) * S * list Event :=
  let started := WithData (WithData (new_event ApplyStarted correlationID)
    "adapter" (VStr (@Adapter_Name adapter))) "action_count" (VInt (Z.of_nat (length actions))) in
  let toApply := List.filter changes actions in
  match toApply with
  | [] =>
      (Some (mkSummary 0 0 0 0 []), None, s,
       [started; WithData (new_event ApplyCompleted correlationID) "message" (VStr "no changes")])
  | _ =>
      match @Adapter_Apply adapter toApply with
      | Err err => (None, Some err, s, [started])
      | Ok results =>
          let '(loaded, s) := Load s in
          let existing := match loaded with Ok es => es | Err _ => [] end in
          let '(stateMap, res) :=
            apply_results toApply 0 results (entries_by_fqn existing, mkSummary 0 0 0 0 results) in
          let entries := (map_range stateMap).*2 in
          let emitted := started :: (resource_event correlationID <$> results) in
          match Save entries s with
          | (Err err, s) => (Some res, Some err, s, emitted)
          | (Ok _, s) => (Some res, None, s, emitted ++ [completed_event correlationID res])
          end
      end
  end.

(** Apply executes a plan using the given adapter. *)
Definition Apply (actions : list Action) (correlationID : string) (s : S)
    : (option Summary * option string) * S * list Event :=
  match LockWithContext s with
  | (Err err, s) => (None, Some ("acquire state lock: " +:+ err), s, [])
  | (Ok _, s) =>
      let '(ret, s, events) := apply_locked actions correlationID s in
      (ret, Unlock s, events)
  end.
End apply.
