(* ===== verification/PlanFacts.v ===== *)
(** What a plan says: it has changes exactly when the state differs from the
    desired resources or records a failure, it contains one action per FQN, in
    the order of FQNs, and drift is the part of it that failures do not cause. *)
From S2P Require Import Prelude GoStd Ir Plan.
Open Scope Z_scope.

(** * The maps by FQN *)

Section by_key.
Context {A : Type} (key : A → string).

Definition by_key (l : list A) : gmap string A := foldl (λ m x, <[key x := x]> m) ∅ l.

Lemma by_key_app l x : by_key (l ++ [x]) = <[key x := x]> (by_key l).
Proof. unfold by_key. by rewrite foldl_app. Qed.

Lemma by_key_Some l k x : by_key l !! k = Some x → x ∈ l ∧ key x = k.
Proof.
  induction l as [|y l IH] using rev_ind; [done|]. rewrite by_key_app.
  intros [[<- <-]|[N E]]%lookup_insert_Some; [set_solver|]. destruct (IH E). set_solver.
Qed.

Lemma by_key_None l k : by_key l !! k = None ↔ k ∉ key <$> l.
Proof.
  induction l as [|y l IH] using rev_ind; [set_solver|].
  rewrite by_key_app, lookup_insert_None, IH, fmap_app. set_solver.
Qed.

(** With different keys the map holds every element. *)
Lemma by_key_elem l x : NoDup (key <$> l) → x ∈ l → by_key l !! key x = Some x.
Proof.
  intros N I. destruct (by_key l !! key x) as [y|] eqn:E.
  - apply by_key_Some in E as [J K]. f_equal.
    apply list_elem_of_lookup in I as [i Ei], J as [j Ej].
    assert (i = j) as ->; [|congruence].
    eapply (NoDup_lookup _ i j (key x)); [done | |]; rewrite list_lookup_fmap; [by rewrite Ei|].
    rewrite Ej. simpl. by rewrite K.
  - apply by_key_None in E. destruct E. by apply list_elem_of_fmap_2.
Qed.

Lemma find_by_key l k :
  NoDup (key <$> l) → List.find (λ x, String.eqb (key x) k) l = by_key l !! k.
Proof.
  intros N. destruct (List.find _ l) as [x|] eqn:F.
  - apply List.find_some in F as [I E]. apply list_elem_of_In in I. apply String.eqb_eq in E as <-.
    symmetry. by apply by_key_elem.
  - symmetry. apply by_key_None. intros (x & -> & I)%list_elem_of_fmap.
    apply list_elem_of_In in I. pose proof (List.find_none _ _ F x I) as E. simpl in E.
    by rewrite String.eqb_refl in E.
Qed.

Lemma by_key_values l : NoDup (key <$> l) → (map_to_list (by_key l)).*2 ≡ₚ l.
Proof.
  induction l as [|y l IH] using rev_ind; intros N; [done|].
  rewrite fmap_app in N. apply NoDup_app in N as (N & D & _).
  rewrite by_key_app, map_to_list_insert.
  - csimpl. rewrite IH by done. by rewrite Permutation_app_comm.
  - apply by_key_None. intros I. eapply D; [done|]. set_solver.
Qed.
End by_key.

Lemma entries_by_key current : entries_by_fqn current = by_key Entry_FQN current.
Proof. done. Qed.

Lemma resources_by_key desired : resources_by_fqn desired = by_key Resource_FQN desired.
Proof. done. Qed.

(** * The actions *)

(** What the plan decides for an FQN, from the entry and the resource that the
    maps hold for it. *)
Definition decision (entry : option Entry) (r : option Resource) : string :=
  match r, entry with
  | None, _ => ActionDelete
  | Some r, None => ActionCreate
  | Some r, Some e =>
      if bool_decide (Entry_Hash e = Resource_Hash r ∧ Entry_Status e ≠ StatusFailed)
      then ActionNoop else ActionUpdate
  end.

Lemma desired_action_FQN m r : Action_FQN (desired_action m r) = Resource_FQN r.
Proof. unfold desired_action. repeat case_match; done. Qed.

Lemma desired_action_resource m r : Action_Resource (desired_action m r) = Some r.
Proof. unfold desired_action. repeat case_match; done. Qed.

Lemma desired_action_type m r :
  Action_Type (desired_action m r) = decision (m !! Resource_FQN r) (Some r).
Proof.
  unfold desired_action, decision. destruct (m !! Resource_FQN r) as [e|]; [|done].
  destruct (String.eqb_spec (Entry_Hash e) (Resource_Hash r)),
    (String.eqb_spec (Entry_Status e) StatusFailed); case_bool_decide; naive_solver.
Qed.

Lemma changes_desired m r :
  changes (desired_action m r) = false ↔
  ∃ e, m !! Resource_FQN r = Some e ∧ Entry_Hash e = Resource_Hash r ∧ Entry_Status e ≠ StatusFailed.
Proof.
  unfold changes. rewrite desired_action_type, negb_false_iff, String.eqb_eq. unfold decision.
  destruct (m !! Resource_FQN r) as [e|]; [case_bool_decide|]; naive_solver.
Qed.

(** ** Sorting *)

Definition action_le (a b : Action) : Prop := str_le (Action_FQN a) (Action_FQN b).

Lemma sortActions_perm l : sortActions l ≡ₚ l.
Proof. apply insertion_sort_perm. Qed.

Lemma sortActions_sorted l : StronglySorted action_le (sortActions l).
Proof.
  refine (insertion_sort_sorted (λ a b, str_ltb (Action_FQN a) (Action_FQN b)) l).
  - intros a b c. apply (transitivity (R:=str_le)).
  - intros a b. apply (total str_le).
Qed.

Lemma existsb_false {A} (g : A → bool) l : existsb g l = false ↔ ∀ x, x ∈ l → g x = false.
Proof.
  induction l as [|x l IH]; simpl; [set_solver|]. rewrite orb_false_iff, IH. set_solver.
Qed.

(** ** The plan *)

Section plan.
Context (desired : list Resource) (current : list Entry).
Context (Nd : NoDup (Resource_FQN <$> desired)) (Nc : NoDup (Entry_FQN <$> current)).

(** The state agrees with the desired resources. *)
Definition up_to_date : Prop :=
  (∀ r, r ∈ desired → ∃ e, e ∈ current ∧ Entry_FQN e = Resource_FQN r ∧
     Entry_Hash e = Resource_Hash r ∧ Entry_Status e ≠ StatusFailed) ∧
  (∀ e, e ∈ current → Entry_FQN e ∈ Resource_FQN <$> desired).

Lemma plan_actions :
  Plan_Actions (ComputePlan desired current) ≡ₚ
    (desired_action (entries_by_fqn current) <$> desired) ++
    omap (delete_action (resources_by_fqn desired)) current.
Proof. apply sortActions_perm. Qed.

Lemma plan_unchanged : Plan_HasChanges (ComputePlan desired current) = false ↔ up_to_date.
Proof.
  simpl. rewrite existsb_false. setoid_rewrite elem_of_app.
  setoid_rewrite list_elem_of_fmap. setoid_rewrite list_elem_of_omap. unfold up_to_date. split.
  - intros A. split.
    + intros r I. destruct (proj1 (changes_desired _ _) (A _ (or_introl (ex_intro _ r (conj eq_refl I)))))
        as (e & L & ? & ?). rewrite entries_by_key in L. apply by_key_Some in L as [? ?]. eauto.
    + intros e I. destruct (resources_by_fqn desired !! Entry_FQN e) as [r|] eqn:L.
      * rewrite resources_by_key in L. apply by_key_Some in L as [? <-].
        by apply list_elem_of_fmap_2.
      * assert (changes (mkAction (Entry_FQN e) ActionDelete None "resource no longer defined") = false)
          as C by (apply A; right; exists e; split; [done|]; unfold delete_action; by rewrite L).
        done.
  - intros [U D] a [(r & -> & I)|(e & I & L)].
    + apply changes_desired. destruct (U r I) as (e & Ie & F & ? & ?). exists e.
      rewrite entries_by_key, <- F. split; [by apply by_key_elem | done].
    + unfold delete_action in L. destruct (resources_by_fqn desired !! Entry_FQN e) eqn:Lr; [done|].
      rewrite resources_by_key in Lr. apply by_key_None in Lr. by destruct Lr; apply D.
Qed.

(** The entry and the resource with an FQN. *)
Definition entry_of (fqn : string) : option Entry :=
  List.find (λ e, String.eqb (Entry_FQN e) fqn) current.
Definition resource_of (fqn : string) : option Resource :=
  List.find (λ r, String.eqb (Resource_FQN r) fqn) desired.

Lemma delete_actions_FQN :
  Action_FQN <$> omap (delete_action (resources_by_fqn desired)) current =
  filter (λ fqn, fqn ∉ Resource_FQN <$> desired) (Entry_FQN <$> current).
Proof.
  clear Nc. induction current as [|e l IH]; [done|]. csimpl. unfold delete_action at 1.
  destruct (resources_by_fqn desired !! Entry_FQN e) as [r|] eqn:L; rewrite resources_by_key in L.
  - apply by_key_Some in L as [I <-]. rewrite filter_cons_False; [done|].
    intros N. by apply N, list_elem_of_fmap_2.
  - apply by_key_None in L. rewrite filter_cons_True by done. csimpl. by rewrite IH.
Qed.

Lemma actions_FQN :
  Action_FQN <$> Plan_Actions (ComputePlan desired current) ≡ₚ
    (Resource_FQN <$> desired) ++
    filter (λ fqn, fqn ∉ Resource_FQN <$> desired) (Entry_FQN <$> current).
Proof.
  rewrite plan_actions, fmap_app, delete_actions_FQN. f_equiv.
  rewrite <- list_fmap_compose.
  erewrite list_fmap_ext; [reflexivity|]. intros i r _. apply desired_action_FQN.
Qed.

Lemma plan_action_decision a :
  a ∈ Plan_Actions (ComputePlan desired current) →
  Action_Type a = decision (entry_of (Action_FQN a)) (resource_of (Action_FQN a)) ∧
  Action_Resource a = resource_of (Action_FQN a).
Proof.
  unfold entry_of, resource_of. rewrite !find_by_key by done. rewrite plan_actions, elem_of_app.
  intros [(r & -> & I)%list_elem_of_fmap|(e & I & L)%list_elem_of_omap].
  - rewrite desired_action_type, desired_action_FQN, desired_action_resource.
    by rewrite (by_key_elem _ _ _ Nd I).
  - unfold delete_action in L. destruct (resources_by_fqn desired !! Entry_FQN e) eqn:Lr; [done|].
    injection L as <-. simpl. rewrite resources_by_key in Lr. by rewrite Lr.
Qed.
End plan.

Lemma plan_facts (desired : list Resource) (current : list Entry)
    (Nd : NoDup (Resource_FQN <$> desired)) (Nc : NoDup (Entry_FQN <$> current)) :
  let actions := Plan_Actions (ComputePlan desired current) in
  StronglySorted action_le actions ∧ NoDup (Action_FQN <$> actions) ∧
  (∀ fqn, fqn ∈ Action_FQN <$> actions ↔
          fqn ∈ Resource_FQN <$> desired ∨ fqn ∈ Entry_FQN <$> current) ∧
  ∀ a, a ∈ actions →
    Action_Type a = decision (entry_of current (Action_FQN a)) (resource_of desired (Action_FQN a)) ∧
    Action_Resource a = resource_of desired (Action_FQN a).
Proof.
  cbv zeta. split_and!.
  - apply sortActions_sorted.
  - rewrite actions_FQN. apply NoDup_app. split_and!; [done | | by apply NoDup_filter].
    intros fqn I F%list_elem_of_filter. by destruct F.
  - intros fqn. rewrite actions_FQN, elem_of_app, list_elem_of_filter.
    destruct (decide (fqn ∈ Resource_FQN <$> desired)); naive_solver.
  - intros a. by apply plan_action_decision.
Qed.

(** C6. When neither the resources nor the state have an FQN twice, a plan has
    exactly one action for every FQN that is desired or in the state, in
    ascending order of the FQN, the package and not the kind coming first:
    create when only the resource exists, delete
    when only the entry does, noop when both exist with equal hashes and the
    entry is not a failure, and update otherwise. *)
Theorem plan_exact (desired : list Resource) (current : list Entry)
    (Nd : NoDup (Resource_FQN <$> desired)) (Nc : NoDup (Entry_FQN <$> current)) :
  let actions := Plan_Actions (ComputePlan desired current) in
  StronglySorted action_le actions ∧ NoDup (Action_FQN <$> actions) ∧
  (∀ fqn, fqn ∈ Action_FQN <$> actions ↔
          fqn ∈ Resource_FQN <$> desired ∨ fqn ∈ Entry_FQN <$> current) ∧
  ∀ a, a ∈ actions →
    Action_Type a = decision (entry_of current (Action_FQN a)) (resource_of desired (Action_FQN a)) ∧
    Action_Resource a = resource_of desired (Action_FQN a).
Proof. by apply plan_facts. Qed.

(** A plan has no changes exactly when every desired resource has an entry
    with its hash that is not a failure, and every entry is still desired. *)
Lemma plan_no_changes (desired : list Resource) (current : list Entry)
    (Nd : NoDup (Resource_FQN <$> desired)) (Nc : NoDup (Entry_FQN <$> current)) :
  Plan_HasChanges (ComputePlan desired current) = false ↔ up_to_date desired current.
Proof. by apply plan_unchanged. Qed.

(** * Drift *)

Lemma fold_drift {A} (g : A → option DriftEntry) l res :
  foldl (λ res x, add_drift res (g x)) res l =
    mkDriftResult (DriftResult_HasDrift res || existsb (λ x, bool_decide (is_Some (g x))) l)
      (DriftResult_Drifted res ++ omap g l).
Proof.
  revert res. induction l as [|x l IH]; intros [h d]; simpl.
  - by rewrite orb_false_r, app_nil_r.
  - rewrite IH. destruct (g x) as [y|] eqn:E; simpl.
    + by rewrite !orb_true_r, <- app_assoc.
    + done.
Qed.

Lemma no_drift desired current :
  NoDup (Entry_FQN <$> current) →
  DriftResult_HasDrift (DetectDrift desired current) = false ↔
  (∀ r, r ∈ desired → ∃ e, e ∈ current ∧ Entry_FQN e = Resource_FQN r ∧
     Entry_Hash e = Resource_Hash r) ∧
  (∀ e, e ∈ current → Entry_FQN e ∈ Resource_FQN <$> desired).
Proof.
  intros Nc. unfold DetectDrift. rewrite !fold_drift. simpl. rewrite orb_false_iff, !existsb_false.
  assert (∀ r, bool_decide (is_Some (desired_drift (entries_by_fqn current) r)) = false ↔
    ∃ e, e ∈ current ∧ Entry_FQN e = Resource_FQN r ∧ Entry_Hash e = Resource_Hash r) as Dd.
  { intros r. rewrite bool_decide_eq_false, <- eq_None_not_Some.
    unfold desired_drift. destruct (entries_by_fqn current !! Resource_FQN r) as [e|] eqn:L;
      rewrite entries_by_key in L.
    - apply by_key_Some in L as [I F].
      destruct (String.eqb_spec (Entry_Hash e) (Resource_Hash r)); simpl; [naive_solver|].
      split; [done|]. intros (e' & I' & F' & Hh).
      assert (Some e' = Some e) as [= ->]; [|done].
      rewrite <- (by_key_elem _ _ _ Nc I), <- (by_key_elem _ _ _ Nc I'). by rewrite F, F'.
    - apply by_key_None in L. split; [done|]. intros (e & I & F & _). destruct L.
      rewrite <- F. by apply list_elem_of_fmap_2. }
  assert (∀ e, bool_decide (is_Some (extra_drift (resources_by_fqn desired) e)) = false ↔
    Entry_FQN e ∈ Resource_FQN <$> desired) as De.
  { intros e. rewrite bool_decide_eq_false, <- eq_None_not_Some.
    unfold extra_drift. destruct (resources_by_fqn desired !! Entry_FQN e) as [r|] eqn:L;
      rewrite resources_by_key in L.
    - apply by_key_Some in L as [I <-]. split; [intros _; by apply list_elem_of_fmap_2 | done].
    - apply by_key_None in L. split; [done | intros ?; done]. }
  by setoid_rewrite Dd; setoid_rewrite De.
Qed.

(** Drift is reported exactly for the reasons a plan has changes, except
    for failures: a plan has no changes when there is no drift and no entry
    records a failure. *)
Lemma drift_explains_plan (desired : list Resource) (current : list Entry)
    (Nd : NoDup (Resource_FQN <$> desired)) (Nc : NoDup (Entry_FQN <$> current)) :
  Plan_HasChanges (ComputePlan desired current) = false ↔
  DriftResult_HasDrift (DetectDrift desired current) = false ∧
  ∀ e, e ∈ current → Entry_Status e ≠ StatusFailed.
Proof.
  rewrite plan_unchanged, no_drift by done. unfold up_to_date. split.
  - intros [U D]. split; [naive_solver|]. intros e I.
    apply D in I as J. apply list_elem_of_fmap in J as (r & F & Ir).
    destruct (U r Ir) as (e' & I' & F' & _ & S).
    assert (Some e = Some e') as [= ->]; [|done].
    rewrite <- (by_key_elem _ _ _ Nc I), <- (by_key_elem _ _ _ Nc I'). by rewrite F', F.
  - naive_solver.
Qed.

(** * A concrete plan: an update, a no-op, a create and a delete *)

Definition desired_ex : list Resource :=
  [mkResource "Agent" "a" "p/Agent/a" [] [] "h2" []; mkResource "Agent" "c" "p/Agent/c" [] [] "h" [];
   mkResource "Prompt" "b" "p/Prompt/b" [] [] "h" []].
Definition current_ex : list Entry :=
  [mkEntry "p/Agent/a" "h1" StatusApplied 1 "local-mcp" "" 0;
   mkEntry "p/Prompt/b" "h" StatusApplied 1 "local-mcp" "" 0;
   mkEntry "p/Skill/d" "h" StatusApplied 1 "local-mcp" "" 0].

Lemma plan_exact_witness :
  (λ a, (Action_FQN a, Action_Type a)) <$> Plan_Actions (ComputePlan desired_ex current_ex) =
    [("p/Agent/a", "update"); ("p/Agent/c", "create"); ("p/Prompt/b", "noop"); ("p/Skill/d", "delete")] ∧
  NoDup (Action_FQN <$> Plan_Actions (ComputePlan desired_ex current_ex)).
Proof.
  split; [by vm_compute|].
  apply (plan_exact desired_ex current_ex); by apply (bool_decide_unpack _).
Defined.

Lemma plan_no_changes_witness : ¬ up_to_date desired_ex current_ex.
Proof.
  intros U. apply (plan_no_changes desired_ex current_ex) in U; [done|by apply (bool_decide_unpack _)..].
Defined.

Lemma drift_explains_plan_witness :
  DriftResult_HasDrift (DetectDrift desired_ex current_ex) = true ∧
  ¬ (DriftResult_HasDrift (DetectDrift desired_ex current_ex) = false ∧
     ∀ e, e ∈ current_ex → Entry_Status e ≠ StatusFailed).
Proof.
  split; [by vm_compute|].
  intros U. apply (drift_explains_plan desired_ex current_ex) in U; [done|by apply (bool_decide_unpack _)..].
Defined.
