(* ===== verification/ApplyFacts.v ===== *)
(** Applying a plan converges: after it, the next plan changes exactly what the
    adapter failed to apply. The theorems are proved for every backend with
    [BackendLaws] and every adapter that answers each action. *)
From S2P Require Import Prelude GoStd Ir Plan PlanFacts.
Open Scope Z_scope.

(** * One FQN of a plan *)

(** The plan changes an FQN. *)
Definition changed (entry : option Entry) (r : option Resource) : Prop :=
  match r, entry with
  | None, None => False
  | _, _ => decision entry r ≠ ActionNoop
  end.

Definition changes_fqn (desired : list Resource) (current : list Entry) (fqn : string) : Prop :=
  ∃ a, a ∈ Plan_Actions (ComputePlan desired current) ∧ Action_FQN a = fqn ∧ changes a = true.

Lemma changes_true a : changes a = true ↔ Action_Type a ≠ ActionNoop.
Proof. unfold changes. by rewrite negb_true_iff, String.eqb_neq. Qed.

Section fqn.
Context (desired : list Resource) (current : list Entry).
Context (Nd : NoDup (Resource_FQN <$> desired)) (Nc : NoDup (Entry_FQN <$> current)).

Lemma entry_of_None fqn : entry_of current fqn = None ↔ fqn ∉ Entry_FQN <$> current.
Proof. unfold entry_of. rewrite find_by_key by done. apply by_key_None. Qed.

Lemma resource_of_None fqn : resource_of desired fqn = None ↔ fqn ∉ Resource_FQN <$> desired.
Proof. unfold resource_of. rewrite find_by_key by done. apply by_key_None. Qed.

Lemma changes_fqn_spec fqn :
  changes_fqn desired current fqn ↔ changed (entry_of current fqn) (resource_of desired fqn).
Proof.
  destruct (plan_facts desired current Nd Nc) as (_ & _ & C & D). split.
  - intros (a & I & <- & T). apply changes_true in T. rewrite (proj1 (D a I)) in T.
    assert (Action_FQN a ∈ Action_FQN <$> Plan_Actions (ComputePlan desired current)) as J
      by by apply list_elem_of_fmap_2.
    unfold changed. destruct (resource_of desired (Action_FQN a)) eqn:R; [done|].
    destruct (entry_of current (Action_FQN a)) eqn:E; [done|].
    apply C in J. apply resource_of_None in R. apply entry_of_None in E. naive_solver.
  - intros Ch. assert (fqn ∈ Action_FQN <$> Plan_Actions (ComputePlan desired current)) as J.
    { apply C. destruct (decide (fqn ∈ Resource_FQN <$> desired)) as [|R]; [by left|].
      destruct (decide (fqn ∈ Entry_FQN <$> current)) as [|E]; [by right|].
      apply resource_of_None in R. apply entry_of_None in E. by rewrite R, E in Ch. }
    apply list_elem_of_fmap in J as (a & -> & I). exists a. split_and!; [done..|].
    apply changes_true. rewrite (proj1 (D a I)). unfold changed in Ch.
    destruct (resource_of _ _), (entry_of _ _); done.
Qed.
End fqn.

Lemma plan_changes_fqn desired current :
  Plan_HasChanges (ComputePlan desired current) = true ↔ ∃ fqn, changes_fqn desired current fqn.
Proof.
  unfold changes_fqn. setoid_rewrite plan_actions. simpl. rewrite existsb_exists.
  setoid_rewrite <- list_elem_of_In. naive_solver.
Qed.

(** * The loop over the results *)

Section results.
Context (adapter : Adapter) (now : Z) (toApply : list Action).

(** The entry that the result at index [i] leaves. *)
Definition outcome (i : nat) (r : Result) : option Entry :=
  let fqn := Result_FQN r in
  if String.eqb (Result_Status r) ResultSuccess then
    if String.eqb (Result_Action r) ActionDelete then None
    else Some (mkEntry fqn (action_hash toApply i) StatusApplied now (@Adapter_Name adapter) "" 0)
  else Some (mkEntry fqn "" StatusFailed now (@Adapter_Name adapter) (Result_Error r) 0).

Lemma apply_result_lookup i r m sum fqn :
  (apply_result adapter now toApply i r (m, sum)).1 !! fqn =
    if decide (Result_FQN r = fqn) then outcome i r else m !! fqn.
Proof.
  unfold apply_result, outcome.
  destruct (String.eqb_spec (Result_Action r) ActionDelete) as [D|D].
  - rewrite D. destruct (String.eqb (Result_Status r) ResultSuccess); simpl;
      destruct (decide (Result_FQN r = fqn)) as [<-|]; by simplify_map_eq.
  - destruct (String.eqb (Result_Status r) ResultSuccess); repeat case_match; simpl;
      destruct (decide (Result_FQN r = fqn)) as [<-|]; by simplify_map_eq.
Qed.

Lemma apply_results_lookup i results m sum fqn :
  NoDup (Result_FQN <$> results) →
  (apply_results adapter now toApply i results (m, sum)).1 !! fqn =
    match list_find (λ r, Result_FQN r = fqn) results with
    | Some (j, r) => outcome (i + j) r
    | None => m !! fqn
    end.
Proof.
  revert i m sum. induction results as [|r results IH]; intros i m sum N; [done|].
  apply NoDup_cons in N as [Nr N]. cbn [apply_results].
  destruct (apply_result adapter now toApply i r (m, sum)) as [m1 sum1] eqn:E.
  rewrite (IH _ _ _ N). pose proof (apply_result_lookup i r m sum fqn) as L. rewrite E in L.
  simpl in L. cbn [list_find]. destruct (decide (Result_FQN r = fqn)) as [<-|Nf].
  - destruct (list_find _ results) as [[j r']|] eqn:F.
    + apply list_find_Some in F as (Ej & F & _). destruct Nr. rewrite <- F.
      by apply list_elem_of_fmap_2, (list_elem_of_lookup_2 _ j).
    + by rewrite L, Nat.add_0_r.
  - destruct (list_find _ results) as [[j r']|]; simpl; [|done]. f_equal. lia.
Qed.

Lemma apply_results_failed i results m sum :
  Failed (apply_results adapter now toApply i results (m, sum)).2 =
    Failed sum + Z.of_nat (length (filter (λ r, Result_Status r ≠ ResultSuccess) results)).
Proof.
  revert i m sum. induction results as [|r results IH]; intros i m sum; cbn [apply_results].
  { simpl. lia. }
  destruct (apply_result adapter now toApply i r (m, sum)) as [m1 sum1] eqn:E. rewrite IH.
  unfold apply_result in E. destruct (String.eqb_spec (Result_Status r) ResultSuccess) as [S|S].
  - rewrite filter_cons_False by naive_solver.
    repeat case_match; injection E as <- <-; simpl; lia.
  - rewrite filter_cons_True by done. injection E as <- <-. simpl. lia.
Qed.

Lemma apply_results_results i results m sum :
  Results (apply_results adapter now toApply i results (m, sum)).2 = Results sum.
Proof.
  revert i m sum. induction results as [|r results IH]; intros i m sum; [done|].
  cbn [apply_results]. destruct (apply_result _ _ _ _ _ _) as [m1 sum1] eqn:E. rewrite IH.
  unfold apply_result in E. repeat case_match; by injection E as <- <-.
Qed.
End results.

(** Every key of the state map is the FQN of its entry. *)
Definition keyed (m : gmap string Entry) : Prop := ∀ k e, m !! k = Some e → Entry_FQN e = k.

Lemma keyed_entries current : keyed (entries_by_fqn current).
Proof. intros k e E. by apply (by_key_Some Entry_FQN) in E as [_ ?]. Qed.

Lemma keyed_results adapter now toApply i results m sum :
  keyed m → keyed (apply_results adapter now toApply i results (m, sum)).1.
Proof.
  revert i m sum. induction results as [|r results IH]; intros i m sum K; [done|].
  cbn [apply_results]. destruct (apply_result _ _ _ _ _ _) as [m1 sum1] eqn:E. apply IH.
  intros k e L. pose proof (apply_result_lookup adapter now toApply i r m sum k) as L'.
  rewrite E in L'. simpl in L'. rewrite L in L'.
  destruct (decide (Result_FQN r = k)) as [<-|]; [|by apply K].
  unfold outcome in L'. repeat case_match; by simplify_eq/=.
Qed.

Lemma keyed_FQNs m : keyed m → Entry_FQN <$> (map_to_list m).*2 = (map_to_list m).*1.
Proof.
  intros K. rewrite <- list_fmap_compose. apply list_fmap_ext. intros i [k e] E. simpl.
  apply K, elem_of_map_to_list. by eapply list_elem_of_lookup_2.
Qed.

(** The saved entries stand for the map. *)
Lemma saved_entries `{GoRuntime} m es :
  keyed m → es ≡ₚ (map_range m).*2 →
  NoDup (Entry_FQN <$> es) ∧ ∀ fqn, entry_of es fqn = m !! fqn.
Proof.
  intros K P. rewrite map_range_perm in P.
  assert (NoDup (Entry_FQN <$> es)) as N.
  { rewrite P, keyed_FQNs by done. apply NoDup_fst_map_to_list. }
  split; [done|]. intros fqn. unfold entry_of. rewrite find_by_key by done.
  apply option_eq. intros e. split.
  - intros [I <-]%by_key_Some. rewrite P in I. apply list_elem_of_fmap in I as ([k e'] & -> & I).
    apply elem_of_map_to_list in I. simpl. by rewrite (K _ _ I).
  - intros E. rewrite <- (K _ _ E). apply by_key_elem; [done|]. rewrite P.
    apply list_elem_of_fmap. exists (fqn, e). by rewrite elem_of_map_to_list.
Qed.

(** * Convergence *)

(** What the result of an adapter for an action must say: its FQN, and that it
    is a deletion exactly when the action is one. *)
Definition answers (a : Action) (r : Result) : Prop :=
  Result_FQN r = Action_FQN a ∧ (Result_Action r = ActionDelete ↔ Action_Type a = ActionDelete).

Definition failed_fqn (results : list Result) (fqn : string) : Prop :=
  ∃ r, r ∈ results ∧ Result_FQN r = fqn ∧ Result_Status r ≠ ResultSuccess.

Section converge.
Context (adapter : Adapter) (now : Z).
Context (desired : list Resource) (current : list Entry).
Context (Nd : NoDup (Resource_FQN <$> desired)) (Nc : NoDup (Entry_FQN <$> current)).
Let toApply : list Action := List.filter changes (Plan_Actions (ComputePlan desired current)).
Context (results : list Result) (A : Forall2 answers toApply results).
Context (sum : Summary).
Let stateMap : gmap string Entry :=
  (apply_results adapter now toApply 0 results (entries_by_fqn current, sum)).1.

Lemma in_toApply a :
  a ∈ toApply ↔ a ∈ Plan_Actions (ComputePlan desired current) ∧ changes a = true.
Proof. unfold toApply. by rewrite list_elem_of_In, filter_In, <- list_elem_of_In. Qed.

Lemma results_fqns : Result_FQN <$> results = Action_FQN <$> toApply.
Proof.
  clear stateMap. revert A. generalize toApply. intros l F.
  induction F as [|a r l l' [E _] _ IH]; csimpl; congruence.
Qed.

Lemma NoDup_toApply : NoDup (Action_FQN <$> toApply).
Proof.
  destruct (plan_facts desired current Nd Nc) as (_ & N & _). unfold toApply. revert N.
  generalize (Plan_Actions (ComputePlan desired current)). clear. intros l N.
  induction l as [|a l IH]; [constructor|]. apply NoDup_cons in N as [Na N]. simpl.
  destruct (changes a); [|by apply IH]. csimpl. apply NoDup_cons. split; [|by apply IH].
  intros (b & E & I)%list_elem_of_fmap. apply list_elem_of_In, filter_In in I as [I _].
  apply Na. rewrite E. by apply list_elem_of_fmap_2, list_elem_of_In.
Qed.

(** The result for an FQN answers its action, at the same index. *)
Lemma result_action j r :
  results !! j = Some r →
  ∃ a, toApply !! j = Some a ∧ answers a r ∧
    Action_Type a = decision (entry_of current (Result_FQN r)) (resource_of desired (Result_FQN r)) ∧
    Action_Resource a = resource_of desired (Result_FQN r).
Proof.
  intros E. destruct (Forall2_lookup_r _ _ _ _ _ A E) as (a & Ea & [F T]). exists a.
  split_and!; [done | done | |]; rewrite F;
    apply (plan_facts desired current Nd Nc), in_toApply; by eapply list_elem_of_lookup_2.
Qed.

(** What the new state says of an FQN that a result settles. *)
Lemma settled_changed j r :
  results !! j = Some r →
  changed (outcome adapter now toApply j r) (resource_of desired (Result_FQN r)) ↔
  Result_Status r ≠ ResultSuccess.
Proof.
  intros E. destruct (result_action j r E) as (a & Ea & [F T] & D & R).
  unfold outcome. destruct (String.eqb_spec (Result_Status r) ResultSuccess) as [S|S].
  - split; [|done]. destruct (String.eqb_spec (Result_Action r) ActionDelete) as [X|X].
    + assert (resource_of desired (Result_FQN r) = None) as ->; [|done].
      apply T in X. rewrite D in X. destruct (resource_of _ _); [|done].
      unfold decision in X. destruct (entry_of _ _); [case_bool_decide|]; done.
    + destruct (resource_of desired (Result_FQN r)) as [res|] eqn:Q; [|destruct X; by rewrite T, D].
      unfold changed, decision. rewrite bool_decide_eq_true_2; [done|]. simpl.
      unfold action_hash. by rewrite Ea, R.
  - split; [done|]. intros _. unfold changed, decision.
    destruct (resource_of _ _); [|done]. rewrite bool_decide_eq_false_2; [done|]. by intros [_ []].
Qed.

Lemma stateMap_changed fqn :
  changed (stateMap !! fqn) (resource_of desired fqn) ↔ failed_fqn results fqn.
Proof.
  unfold stateMap. rewrite apply_results_lookup by (rewrite results_fqns; apply NoDup_toApply).
  destruct (list_find _ results) as [[j r]|] eqn:F.
  - apply list_find_Some in F as (E & <- & _). rewrite Nat.add_0_l, (settled_changed j r E).
    unfold failed_fqn. split; [intros S; exists r; split; [by eapply list_elem_of_lookup_2 | done]|].
    intros (r' & I & Fq & S). apply list_elem_of_lookup in I as [j' E'].
    assert (j' = j) as ->; [|congruence].
    eapply (NoDup_lookup (Result_FQN <$> results)); [rewrite results_fqns; apply NoDup_toApply | |];
      rewrite list_lookup_fmap; [by rewrite E'|]. rewrite E. simpl. by rewrite Fq.
  - apply list_find_None in F. rewrite Forall_forall in F.
    assert (¬ failed_fqn results fqn) as NF by (intros (r & I & Fq & _); by apply (F r)).
    split; [|done]. intros C. exfalso.
    assert (entries_by_fqn current !! fqn = entry_of current fqn) as Ee
      by (unfold entry_of; by rewrite find_by_key).
    rewrite Ee in C. apply (changes_fqn_spec desired current Nd Nc) in C as (a & I & Fa & T).
    assert (fqn ∈ Action_FQN <$> toApply) as J.
    { apply list_elem_of_fmap. exists a. split; [done|]. by apply in_toApply. }
    rewrite <- results_fqns in J. apply list_elem_of_fmap in J as (r & -> & Ir). by apply (F r).
Qed.
End converge.

Section apply.
Context `{GoRuntime} {S : Type} `{BackendLaws S} (adapter : Adapter) (now : Z).

(** C1. Applying a plan converges. The state can be loaded and, like the
    resources, has no FQN twice; the backend returns what was saved, in any
    order, and its lock changes nothing of it; and if the adapter returns results for the actions of the plan that
    change something, there is one for each of them, in order, with its FQN,
    which is a deletion exactly when the action is one. (The adapters of the
    repository keep this, except the process adapter when its process runs
    already.) Then, when Apply ends without an error, the state can be loaded,
    has no FQN twice, and the next plan for the same resources changes exactly
    the FQNs whose result was a failure; when nothing failed it has no
    changes. *)
Theorem apply_retries_failures (desired : list Resource) (current : list Entry) cid (s s' : S)
    (sum : Summary) events
    (Nd : NoDup (Resource_FQN <$> desired)) (Nc : NoDup (Entry_FQN <$> current))
    (L : (Load s).1 = Ok current)
    (C : let toApply := List.filter changes (Plan_Actions (ComputePlan desired current)) in
         ∀ results, @Adapter_Apply adapter toApply = Ok results → Forall2 answers toApply results)
    (E : Apply adapter now (Plan_Actions (ComputePlan desired current)) cid s =
         ((Some sum, None), s', events)) :
  ∃ current', (Load s').1 = Ok current' ∧ NoDup (Entry_FQN <$> current') ∧
    (∀ fqn, changes_fqn desired current' fqn ↔ failed_fqn (Results sum) fqn) ∧
    (Failed sum = 0 → Plan_HasChanges (ComputePlan desired current') = false).
Proof.
  unfold Apply in E. destruct (LockWithContext s) as [[[]|] s1] eqn:Lk; [|done].
  apply lock_load in Lk. rewrite L in Lk.
  destruct (apply_locked adapter now _ cid s1) as [[ret s2] ev] eqn:E2. injection E as -> <- <-.
  setoid_rewrite unlock_load. unfold apply_locked in E2.
  destruct (List.filter changes (Plan_Actions (ComputePlan desired current))) as [|a0 l0] eqn:F.
  - injection E2 as <- <- <-. exists current.
    assert (∀ fqn, ¬ changes_fqn desired current fqn) as NC.
    { intros fqn (a & I & _ & T). assert (a ∈ @nil Action) as J; [|by apply not_elem_of_nil in J].
      rewrite <- F, list_elem_of_In, filter_In, <- list_elem_of_In. done. }
    split_and!; [done..| |].
    + intros fqn. split; [by intros ?%NC | by intros (r & ?%not_elem_of_nil & _)].
    + intros _. apply not_true_iff_false. rewrite plan_changes_fqn. by intros [fqn ?%NC].
  - rewrite <- F in E2, C. destruct (Adapter_Apply _) as [results|] eqn:R; [|done].
    destruct (Load s1) as [loaded s3] eqn:Ld. simpl in Lk. subst loaded.
    pose proof (C _ R) as A.
    pose proof (stateMap_changed adapter now desired current Nd Nc results A (mkSummary 0 0 0 0 results))
      as SC.
    pose proof (keyed_results adapter now (List.filter changes (Plan_Actions (ComputePlan desired current)))
      0 results (entries_by_fqn current) (mkSummary 0 0 0 0 results) (keyed_entries current)) as K.
    pose proof (apply_results_results adapter now
      (List.filter changes (Plan_Actions (ComputePlan desired current)))
      0 results (entries_by_fqn current) (mkSummary 0 0 0 0 results)) as Rs.
    pose proof (apply_results_failed adapter now
      (List.filter changes (Plan_Actions (ComputePlan desired current)))
      0 results (entries_by_fqn current) (mkSummary 0 0 0 0 results)) as Fl.
    destruct (apply_results adapter now _ 0 results _) as [stateMap sum'] eqn:Ar.
    simpl in SC, K, Rs, Fl.
    destruct (Save (map_range stateMap).*2 s3) as [[[]|] s4] eqn:Sv; [|done].
    injection E2 as -> <- <-. destruct (save_load _ _ _ Sv) as (es & Le & P).
    destruct (saved_entries stateMap es K P) as [N Eo].
    assert (∀ fqn, changes_fqn desired es fqn ↔ failed_fqn results fqn) as Ch.
    { intros fqn. rewrite changes_fqn_spec, Eo by done. apply SC. }
    exists es. rewrite Rs. split_and!; [done..|]. intros Z0. apply not_true_iff_false.
    rewrite plan_changes_fqn. intros [fqn (r & I & _ & Sr)%Ch].
    assert (r ∈ filter (λ r, Result_Status r ≠ ResultSuccess) results) as J
      by by apply list_elem_of_filter.
    destruct (filter _ results); [by apply not_elem_of_nil in J | simpl in Fl; lia].
Qed.
End apply.

(** * A backend in memory *)

Definition memory_backend : Backend (list Entry) := {|
  Load es := (Ok es, es);
  Save es _ := (Ok tt, es);
  LockWithContext es := (Ok tt, es);
  Unlock es := es;
|}.

Lemma memory_backend_laws : @BackendLaws (list Entry) memory_backend.
Proof. split; [intros es s s' [= <-]; by exists es | by intros s s' [= ->] | done]. Defined.

Definition small_resources : list Resource :=
  [mkResource "Agent" "a" "p/Agent/a" [] [] "h2" []; mkResource "Prompt" "x" "p/Prompt/x" [] [] "h" []].

Definition small_state : list Entry :=
  [mkEntry "p/Agent/a" "h1" StatusApplied 0 "local-mcp" "" 0;
   mkEntry "p/Skill/s" "h" StatusApplied 0 "local-mcp" "" 0].

Definition small_apply : (option Summary * option string) * list Entry * list Event :=
  @Apply ascii_runtime (list Entry) memory_backend local_adapter 7
    (Plan_Actions (ComputePlan small_resources small_state)) "cid" small_state.

Lemma apply_retries_failures_witness :
  ∃ sum current', small_apply.1.1.1 = Some sum ∧ Failed sum = 0 ∧
    (@Load _ memory_backend small_apply.1.2).1 = Ok current' ∧ NoDup (Entry_FQN <$> current') ∧
    (∀ fqn, changes_fqn small_resources current' fqn ↔ failed_fqn (Results sum) fqn) ∧
    (Failed sum = 0 → Plan_HasChanges (ComputePlan small_resources current') = false).
Proof.
  destruct (@apply_retries_failures ascii_runtime (list Entry) memory_backend memory_backend_laws
    local_adapter 7 small_resources small_state "cid" small_state small_apply.1.2
    (default (mkSummary 0 0 0 0 []) small_apply.1.1.1) small_apply.2) as (c & ?).
  - by apply (bool_decide_unpack _).
  - by apply (bool_decide_unpack _).
  - done.
  - intros toApply results [= <-]. by repeat constructor.
  - vm_compute. reflexivity.
  - eexists _, c. split; [vm_compute; reflexivity|]. split; [reflexivity|]. assumption.
Defined.

(** The process adapter when its process runs already: every result is a
    success and a no-op. *)
Definition running_process : Adapter := {|
  Adapter_Name := "process";
  Adapter_Apply actions := Ok ((λ a, mkResult (Action_FQN a) ActionNoop ResultSuccess "" "") <$> actions);
|}.

(** It breaks the contract on a deletion: the resource stays in the state and
    the next plan deletes it again, although no result failed. *)
Example running_process_keeps_deleted :
  let es := [mkEntry "p/Skill/s" "h" StatusApplied 0 "process" "" 0] in
  let '((sum, err), es', _) :=
    @Apply ascii_runtime (list Entry) memory_backend running_process 7 (Plan_Actions (ComputePlan [] es)) "cid" es in
  Failed <$> sum = Some 0 ∧ err = None ∧ Plan_HasChanges (ComputePlan [] es') = true.
Proof. by vm_compute. Qed.
