(* ===== verification/LocalBackend.v ===== *)
(** The local JSON state backend (internal/state/local.go): the state file and
    its backup, the cache of entries, budgets and version history, and the
    recording of versions after an apply (cmd/agentspec/apply.go) and the
    rollback to one (cmd/agentspec/rollback.go).

    A file is represented by what it decodes to: a state file, or text that is
    not valid JSON. A modification time is taken from [stamp], an arbitrary
    function of the number of writes so far; [json_error] is the text of the
    decoder's error. The operations of Save, and the writing of budgets and
    versions, take their outcome from a list of faults in the state; a file that
    exists can be read, and a backup can be put back. *)
From S2P Require Import Prelude GoStd Ir Plan.
Open Scope Z_scope.

(** VersionEntry records a snapshot of an agent configuration for rollback. *)
Record VersionEntry := mkVersionEntry {
  VersionEntry_Version : Z;
  VersionEntry_Timestamp : string;
  VersionEntry_Summary : string;
  VersionEntry_Snapshot : gmap string string;
}.

(** BudgetState tracks budget usage for persistence across restarts. *)
Record BudgetState := mkBudgetState {
  BudgetState_Agent : string;
  BudgetState_Period : string;
  BudgetState_LimitDollars : float64;
  BudgetState_UsedDollars : float64;
  BudgetState_ResetAt : string;
  BudgetState_Paused : bool;
  BudgetState_WarnedAt : string;
}.

(** stateFile is the on-disk JSON structure. [None] is the nil slice of
    entries, which is written as null; [Some []] is read from an empty array. *)
Record stateFile := mkStateFile {
  sf_Version : string;
  sf_Entries : option (list Entry);
  sf_Budgets : list BudgetState;
  sf_AgentVersions : gmap string (list VersionEntry);
}.

Global Instance settable_stateFile : Settable stateFile := λ f,
  mkStateFile (sf_Version f) (sf_Entries f) (sf_Budgets f) (sf_AgentVersions f).

Definition entries_of (sf : stateFile) : list Entry := default [] (sf_Entries sf).
Definition slice_of (entries : list Entry) : option (list Entry) :=
  match entries with [] => None | _ => Some entries end.
Definition zero_stateFile : stateFile := mkStateFile "" None [] ∅.

Inductive Content := Good (sf : stateFile) | Corrupt.

(** What goes wrong in a Save: creating, writing, syncing or closing the
    temporary file, renaming the state to the backup, or renaming the
    temporary file to the state, with or without the backup being put back. *)
Inductive Fault :=
  | CreateFails
  | WriteFails
  | SyncFails
  | CloseFails
  | BackupFails
  | RenameFails (restored : bool).

(** LocalBackend: the state file and its backup, each with its modification
    time, and the fields of the struct that are state. The index is a function
    of the cached entries. *)
Record LocalBackend := mkLocalBackend {
  lb_main : option (Z * Content);
  lb_bak : option (Z * Content);
  lb_writes : nat;
  lb_faults : list (option Fault);
  lb_cachedEntries : option (list Entry);
  lb_cacheModTime : Z;
  lb_locked : bool;
}.

Global Instance settable_LocalBackend : Settable LocalBackend := λ b,
  mkLocalBackend (lb_main b) (lb_bak b) (lb_writes b) (lb_faults b) (lb_cachedEntries b)
  (lb_cacheModTime b) (lb_locked b).

Section local.
Context `{GoRuntime} (Path : string) (stamp : nat → Z) (json_error os_error : string).

(** ErrStateCorrupted with BackupUsed. *)
Definition corrupted : string :=
  "state file " +:+ quote Path +:+ " and backup are both corrupted: " +:+ json_error.

(** os.WriteFile on the state file: a new modification time. *)
Definition write_main (c : Content) (b : LocalBackend) : LocalBackend :=
  b <| lb_main := Some (stamp (lb_writes b), c) |> <| lb_writes := S (lb_writes b) |>.

Definition invalidateCache (b : LocalBackend) : LocalBackend :=
  b <| lb_cachedEntries := None |> <| lb_cacheModTime := 0 |>.

(** * Entries *)

Definition loadFromBackup (b : LocalBackend) : result string (list Entry) * LocalBackend :=
  match lb_bak b with
  | None => (Ok [], b)
  | Some (_, Corrupt) => (Err corrupted, b)
  | Some (_, Good sf) => (Ok (entries_of sf), write_main (Good sf) b)
  end.

Definition recoverFromBackup (b : LocalBackend) : result string (list Entry) * LocalBackend :=
  match lb_bak b with
  | Some (_, Good sf) => (Ok (entries_of sf), write_main (Good sf) b)
  | _ => (Err corrupted, b)
  end.

Definition local_Load (b : LocalBackend) : result string (list Entry) * LocalBackend :=
  match lb_main b with
  | None => loadFromBackup (invalidateCache b)
  | Some (modTime, content) =>
      match lb_cachedEntries b, modTime =? lb_cacheModTime b with
      | Some entries, true => (Ok entries, b)
      | _, _ =>
          match content with
          | Corrupt => recoverFromBackup b
          | Good sf =>
              (Ok (entries_of sf),
               b <| lb_cachedEntries := sf_Entries sf |> <| lb_cacheModTime := modTime |>)
          end
      end
  end.

Definition sort_entries (entries : list Entry) : list Entry :=
  insertion_sort (λ a b, str_ltb (Entry_FQN a) (Entry_FQN b)) entries.

(** Step 3: the current state file, if there is one, becomes the backup. *)
Definition backup (b : LocalBackend) : LocalBackend :=
  match lb_main b with
  | Some f => b <| lb_bak := Some f |> <| lb_main := None |>
  | None => b
  end.

(** [os.Rename(bakPath, b.Path)] *)
Definition restore (b : LocalBackend) : LocalBackend :=
  match lb_bak b with
  | Some f => b <| lb_main := Some f |> <| lb_bak := None |>
  | None => b
  end.

Definition pop_fault (b : LocalBackend) : option Fault * LocalBackend :=
  match lb_faults b with
  | f :: fs => (f, b <| lb_faults := fs |>)
  | [] => (None, b)
  end.

(** Save writes all entries through a temporary file and two renames. An empty
    slice is given to it as nil. *)
Definition local_Save (entries : list Entry) (b : LocalBackend) : result string unit * LocalBackend :=
  let sf := mkStateFile "1.0" (slice_of (sort_entries entries)) [] ∅ in
  let '(fault, b) := pop_fault b in
  let finish := invalidateCache (write_main (Good sf) (backup b)) in
  match fault with
  | Some CreateFails => (Err ("create temp file: " +:+ os_error), b)
  | Some WriteFails => (Err ("write temp file: " +:+ os_error), b)
  | Some SyncFails => (Err ("fsync temp file: " +:+ os_error), b)
  | Some CloseFails => (Err ("close temp file: " +:+ os_error), b)
  | Some BackupFails =>
      match lb_main b with
      | Some _ => (Err ("create backup: " +:+ os_error), b)
      | None => (Ok tt, finish)
      end
  | Some (RenameFails restored) =>
      (Err ("rename temp to state: " +:+ os_error),
       if restored then restore (backup b) else backup b)
  | None => (Ok tt, finish)
  end.

Definition buildIndex (entries : list Entry) : gmap string Entry :=
  foldl (λ m e, <[Entry_FQN e := e]> m) ∅ entries.

(** Get looks a copy of the entry up in the index of the cache. *)
Definition local_Get (fqn : string) (b : LocalBackend) : result string (option Entry) * LocalBackend :=
  match local_Load b with
  | (Err err, b) => (Err err, b)
  | (Ok _, b) =>
      (Ok (buildIndex (default [] (lb_cachedEntries b)) !! fqn), b)
  end.

Definition local_List (status : option string) (b : LocalBackend)
    : result string (list Entry) * LocalBackend :=
  match local_Load b with
  | (Err err, b) => (Err err, b)
  | (Ok entries, b) =>
      (Ok match status with
          | None => entries
          | Some st => List.filter (λ e, String.eqb (Entry_Status e) st) entries
          end, b)
  end.

(** * Budgets and versions *)

(** What the file holds for the methods that read it without the cache. *)
Definition read_file (b : LocalBackend) : result string (option stateFile) :=
  match lb_main b with
  | None => Ok None
  | Some (_, Good sf) => Ok (Some sf)
  | Some (_, Corrupt) => Err json_error
  end.

(** A file that does not decode is taken for an empty one. *)
Definition read_or_zero (b : LocalBackend) : stateFile :=
  match read_file b with Ok (Some sf) => sf | _ => zero_stateFile end.

(** [if sf.Version == "" { sf.Version = "1.0" }; return b.writeStateFile(sf)].
    os.WriteFile opens the file and truncates it first: when the opening fails
    nothing changes, and when the write fails what is left does not decode. *)
Definition writeStateFile (sf : stateFile) (b : LocalBackend) : result string unit * LocalBackend :=
  let '(fault, b) := pop_fault b in
  let sf := if String.eqb (sf_Version sf) "" then sf <| sf_Version := "1.0" |> else sf in
  match fault with
  | Some CreateFails => (Err os_error, b)
  | Some WriteFails => (Err os_error, write_main Corrupt b)
  | _ => (Ok tt, write_main (Good sf) b)
  end.

Definition LoadBudgets (b : LocalBackend) : result string (list BudgetState) :=
  o ← read_file b; mret (match o with Some sf => sf_Budgets sf | None => [] end).

Definition SaveBudgets (budgets : list BudgetState) (b : LocalBackend)
    : result string unit * LocalBackend :=
  let sf := read_or_zero b in
  writeStateFile (sf <| sf_Budgets := budgets |>) b.

Definition versions_of (agent : string) (sf : stateFile) : list VersionEntry :=
  default [] (sf_AgentVersions sf !! agent).

(** SaveVersion records a new version entry (max 10 retained). *)
Definition SaveVersion (agent : string) (entry : VersionEntry) (b : LocalBackend)
    : result string unit * LocalBackend :=
  let sf := read_or_zero b in
  let versions := versions_of agent sf ++ [entry] in
  let versions := if (10 <? length versions)%nat then drop (length versions - 10) versions else versions in
  writeStateFile (sf <| sf_AgentVersions := <[agent := versions]> (sf_AgentVersions sf) |>) b.

Definition GetVersions (agent : string) (b : LocalBackend) : result string (list VersionEntry) :=
  o ← read_file b; mret (match o with Some sf => versions_of agent sf | None => [] end).

(** The version snapshot of one agent after a successful apply; [snapshot] is
    its attributes as text. A failure to save it is only a warning. *)
Definition record_version (timestamp : string) (snapshot : Attrs → gmap string string)
    (b : LocalBackend) (res : Resource) : LocalBackend :=
  if String.eqb (Resource_Kind res) "Agent" then
    let versions := match GetVersions (Resource_Name res) b with Ok vs => vs | Err _ => [] end in
    let nextVer := match last versions with Some v => VersionEntry_Version v + 1 | None => 1 end in
    (SaveVersion (Resource_Name res)
      (mkVersionEntry nextVer timestamp ("Applied version " +:+ pretty nextVer)
         (snapshot (Resource_Attributes res))) b).2
  else b.

Definition record_versions (timestamp : string) (snapshot : Attrs → gmap string string)
    (resources : list Resource) (b : LocalBackend) : LocalBackend :=
  foldl (record_version timestamp snapshot) b resources.

(** The rollback command: the snapshot before the last becomes a new version. *)
Definition rollback (timestamp agentName : string) (b : LocalBackend)
    : result string unit * LocalBackend :=
  match GetVersions agentName b with
  | Err err => (Err ("load versions: " +:+ err), b)
  | Ok versions =>
      match rev versions with
      | cur :: prev :: _ =>
          let rollbackEntry := mkVersionEntry (VersionEntry_Version cur + 1) timestamp
            ("Rollback to version " +:+ pretty (VersionEntry_Version prev)) (VersionEntry_Snapshot prev) in
          match SaveVersion agentName rollbackEntry b with
          | (Err err, b) => (Err ("save rollback version: " +:+ err), b)
          | (Ok _, b) => (Ok tt, b)
          end
      | _ => (Err ("no previous version to rollback to for agent " +:+ quote agentName), b)
      end
  end.

(** * The interface

    Acquiring the file lock waits on other processes: its outcome is a
    parameter. *)
Context (flock : LocalBackend → result string unit).

Definition local_Lock (b : LocalBackend) : result string unit * LocalBackend :=
  match flock b with
  | Ok _ => (Ok tt, b <| lb_locked := true |>)
  | Err err => (Err err, b)
  end.

Definition local_Unlock (b : LocalBackend) : LocalBackend := b <| lb_locked := false |>.

Definition local_backend : Backend LocalBackend := {|
  Load := local_Load;
  Save := local_Save;
  LockWithContext := local_Lock;
  Unlock := local_Unlock;
|}.
End local.
