(* ===== verification/LocalBackendFacts.v ===== *)
(** The local state backend as an abstract store of entries: the refinement,
    the laws of the Backend interface, the version history and where it is
    lost. *)
From S2P Require Import Prelude GoStd Ir Plan LocalBackend.
Open Scope Z_scope.

(** * The abstract store

    Every operation reports a label. *)
Inductive Label :=
  | Loaded (r : result string (list Entry))
  | Got (fqn : string) (r : result string (option Entry))
  | Listed (status : option string) (r : result string (list Entry))
  | Saved (entries : list Entry) (r : result string unit)
  | Wrote (r : result string unit)
  | Crashed
  | Silent.

Definition with_status (status : option string) (e : Entry) : Prop :=
  match status with None => True | Some st => Entry_Status e = st end.
Global Instance with_status_dec status e : Decision (with_status status e).
Proof. destruct status; cbn; apply _. Defined.

Definition last_with_fqn (fqn : string) (entries : list Entry) : option Entry :=
  last (filter (λ e, Entry_FQN e = fqn) entries).

(** The store has its entries in place; or a Save that did not end has set them
    aside as the backup; or budgets or versions were written over them. *)
Inductive Store := InPlace (es : list Entry) | SetAside (es : list Entry) | Damaged.

Inductive shows : Store → list Entry → Prop :=
  | shows_in_place es : shows (InPlace es) es
  | shows_aside es : shows (SetAside es) es.

(** What a store promises: reads never fail and show the entries of the last
    successful Save, in order; a Save that fails, or that the process does not
    survive, loses nothing. Two exceptions: a Get that finds the entries set
    aside answers that there is none, and puts them back; and budgets and
    versions must be written without a failure, while the entries are in place,
    or the store promises nothing until the next successful Save. *)
Inductive spec_step : Store → Label → Store → Prop :=
  | spec_load s es : shows s es → spec_step s (Loaded (Ok es)) (InPlace es)
  | spec_list s es status : shows s es →
      spec_step s (Listed status (Ok (filter (with_status status) es))) (InPlace es)
  | spec_get es fqn : spec_step (InPlace es) (Got fqn (Ok (last_with_fqn fqn es))) (InPlace es)
  | spec_get_aside es fqn : spec_step (SetAside es) (Got fqn (Ok None)) (InPlace es)
  | spec_save s new new' : new' ≡ₚ new → StronglySorted (λ a b, str_le (Entry_FQN a) (Entry_FQN b)) new' →
      spec_step s (Saved new (Ok tt)) (InPlace new')
  | spec_save_error s s' es new err : shows s es → shows s' es → spec_step s (Saved new (Err err)) s'
  | spec_crash s s' es : shows s es → shows s' es → spec_step s Crashed s'
  | spec_wrote es : spec_step (InPlace es) (Wrote (Ok tt)) (InPlace es)
  | spec_wrote_error s err : spec_step s (Wrote (Err err)) Damaged
  | spec_wrote_aside es : spec_step (SetAside es) (Wrote (Ok tt)) Damaged
  | spec_silent s : spec_step s Silent s
  | spec_damaged l : (∀ new, l ≠ Saved new (Ok tt)) → spec_step Damaged l Damaged.

(** Sequences of labelled steps. *)
Inductive run {A} (R : A → Label → A → Prop) : A → list Label → A → Prop :=
  | run_nil a : run R a [] a
  | run_cons a l b ls c : R a l b → run R b ls c → run R a (l :: ls) c.

(** The index of the cache finds the last entry with an FQN. *)
Lemma buildIndex_last entries fqn : buildIndex entries !! fqn = last_with_fqn fqn entries.
Proof.
  unfold buildIndex, last_with_fqn. induction entries as [|e l IH] using rev_ind; [done|].
  rewrite foldl_app, filter_app. simpl. destruct (decide (Entry_FQN e = fqn)) as [<-|N].
  - by rewrite lookup_insert_eq, filter_cons_True, filter_nil, last_snoc by done.
  - by rewrite lookup_insert_ne, filter_cons_False, filter_nil, app_nil_r by done.
Qed.

Lemma filter_status st l :
  List.filter (λ e, String.eqb (Entry_Status e) st) l = filter (with_status (Some st)) l.
Proof.
  induction l as [|e l IH]; [done|]. simpl. rewrite filter_cons, <- IH.
  destruct (String.eqb_spec (Entry_Status e) st); by case_decide.
Qed.

Lemma filter_any (l : list Entry) : filter (with_status None) l = l.
Proof. induction l as [|e l IH]; [done|]. by rewrite filter_cons_True, IH. Qed.

Lemma sort_entries_perm l : sort_entries l ≡ₚ l.
Proof. apply insertion_sort_perm. Qed.

Lemma sort_entries_sorted l :
  StronglySorted (λ a b, str_le (Entry_FQN a) (Entry_FQN b)) (sort_entries l).
Proof.
  refine (insertion_sort_sorted (λ a b, str_ltb (Entry_FQN a) (Entry_FQN b)) l).
  - intros a b c. apply (transitivity (R:=str_le)).
  - intros a b. apply (total str_le).
Qed.

Lemma slice_of_default l : default [] (slice_of l) = l.
Proof. by destruct l. Qed.

Lemma entries_of_Some sf c : sf_Entries sf = Some c → c = entries_of sf.
Proof. unfold entries_of. by intros ->. Qed.

Section local.
Context `{GoRuntime} (Path : string) (stamp : nat → Z) (json_error os_error : string).
Context (flock : LocalBackend → result string unit).

Abbreviation Load' := (local_Load Path stamp json_error).
Abbreviation Save' := (local_Save stamp os_error).
Abbreviation SaveVersion' := (SaveVersion stamp json_error os_error).
Abbreviation SaveBudgets' := (SaveBudgets stamp json_error os_error).

(** * The refinement *)

(** The steps of the local backend: its methods, with any outcome of the
    operations on files, the end of a process that does nothing, and the end of
    one between the two renames of a Save. *)
Inductive step : LocalBackend → Label → LocalBackend → Prop :=
  | step_load b : step b (Loaded (Load' b).1) (Load' b).2
  | step_get b fqn :
      step b (Got fqn (local_Get Path stamp json_error fqn b).1)
        (local_Get Path stamp json_error fqn b).2
  | step_list b status :
      step b (Listed status (local_List Path stamp json_error status b).1)
        (local_List Path stamp json_error status b).2
  | step_save b entries : step b (Saved entries (Save' entries b).1) (Save' entries b).2
  | step_lock b : step b Silent (local_Lock flock b).2
  | step_unlock b : step b Silent (local_Unlock b)
  | step_budgets b budgets : step b (Wrote (SaveBudgets' budgets b).1) (SaveBudgets' budgets b).2
  | step_version b agent entry : step b (Wrote (SaveVersion' agent entry b).1) (SaveVersion' agent entry b).2
  | step_restart b : step b Silent (invalidateCache b)
  | step_crash b : step b Crashed (invalidateCache (backup b)).

Definition cache_holds (es : list Entry) (b : LocalBackend) : Prop :=
  ∀ cached, lb_cachedEntries b = Some cached → cached = es.

(** The files hold the store: its entries are in the state file, or there is no
    file yet; or they are in the backup, and there is no state file. *)
Definition holds (s : Store) (b : LocalBackend) : Prop :=
  match s with
  | InPlace es => cache_holds es b ∧
      match lb_main b with
      | Some (_, Good sf) => entries_of sf = es
      | Some (_, Corrupt) => False
      | None => lb_bak b = None ∧ es = []
      end
  | SetAside es => cache_holds es b ∧ lb_main b = None ∧
      match lb_bak b with Some (_, Good sf) => entries_of sf = es | _ => False end
  | Damaged => True
  end.

(** An empty directory. *)
Definition fresh (faults : list (option Fault)) : LocalBackend :=
  mkLocalBackend None None 0 faults None 0 false.

Lemma fresh_holds faults : holds (InPlace []) (fresh faults).
Proof. by repeat split. Qed.

Lemma load_in_place es b : holds (InPlace es) b →
  (Load' b).1 = Ok es ∧ holds (InPlace es) (Load' b).2 ∧ default [] (lb_cachedEntries (Load' b).2) = es.
Proof.
  destruct b as [main bak w fs cached mt lk]. intros [C F]. cbn in C, F.
  unfold local_Load, loadFromBackup, holds, cache_holds in *; cbn in *.
  destruct main as [[t [sf|]]|]; [|done|destruct F as [-> ->]; by cbn].
  subst es. pose proof (entries_of_Some sf) as S.
  destruct cached as [c|]; [pose proof (C c eq_refl) as ->; destruct (t =? mt)|]; cbn; by split_and!.
Qed.

Lemma load_aside es b : holds (SetAside es) b →
  (Load' b).1 = Ok es ∧ holds (InPlace es) (Load' b).2 ∧ lb_cachedEntries (Load' b).2 = None.
Proof.
  destruct b as [main bak w fs cached mt lk]. intros (C & M & F). cbn in M, F. subst main.
  unfold local_Load, loadFromBackup; cbn. destruct bak as [[t [sf|]]|]; try done. by subst.
Qed.

Lemma load_shown s es b : shows s es → holds s b →
  (Load' b).1 = Ok es ∧ holds (InPlace es) (Load' b).2.
Proof. intros [] Hs; [destruct (load_in_place _ _ Hs) as (?&?&_)|destruct (load_aside _ _ Hs) as (?&?&_)]; done. Qed.

(** A Save either replaces the entries or keeps them, in place or aside. *)
Lemma save_ok entries b : (Save' entries b).1 = Ok tt →
  ∃ t, lb_main (Save' entries b).2 = Some (t, Good (mkStateFile "1.0" (slice_of (sort_entries entries)) [] ∅)) ∧
    lb_faults (Save' entries b).2 = tail (lb_faults b) ∧ lb_cachedEntries (Save' entries b).2 = None.
Proof.
  destruct b as [main bak w fs cached mt lk]. unfold local_Save, pop_fault.
  destruct fs as [|[[| | | | |[]]|] fs], main as [[t c]|]; cbn; try done; intros _;
    by eexists.
Qed.

Lemma save_error s es entries err b : shows s es → holds s b → (Save' entries b).1 = Err err →
  ∃ s', shows s' es ∧ holds s' (Save' entries b).2.
Proof.
  intros Sh Hs E.
  assert (holds (InPlace es) (Save' entries b).2 ∨ holds (SetAside es) (Save' entries b).2) as [|];
    [|eexists; split; [constructor|done]..].
  revert Hs E. destruct b as [main bak w fs cached mt lk]. unfold local_Save, pop_fault, holds, cache_holds.
  destruct Sh as [es|es]; cbn; intros [C F]; destruct fs as [|[[| | | | |[]]|] fs],
    main as [[t [sf|]]|], bak as [[t' [sf'|]]|]; cbn in *; try done; intros _; intuition (subst; congruence || auto).
Qed.

Lemma save_holds s b entries : holds s b →
  ∃ s', spec_step s (Saved entries (Save' entries b).1) s' ∧ holds s' (Save' entries b).2.
Proof.
  intros Hs. destruct ((Save' entries b).1) as [[]|err] eqn:E.
  - exists (InPlace (sort_entries entries)).
    split; [constructor; [apply sort_entries_perm|apply sort_entries_sorted]|].
    destruct (save_ok _ _ E) as (t & M & _ & C). unfold holds, cache_holds. rewrite M, C.
    by split; [|apply slice_of_default].
  - destruct s as [es|es|]; [..|by exists Damaged; split; [by constructor|]];
      (edestruct save_error as (s' & Sh & Hs'); [constructor|exact Hs|exact E|]);
      (exists s'; split; [by econstructor; [constructor|]|done]).
Qed.

(** Budgets and versions are written beside the entries that are in place. *)
Lemma write_holds s b sf : holds s b → entries_of sf = entries_of (read_or_zero json_error b) →
  ∃ s', spec_step s (Wrote (writeStateFile stamp os_error sf b).1) s' ∧
    holds s' (writeStateFile stamp os_error sf b).2.
Proof.
  intros Hs E. destruct ((writeStateFile stamp os_error sf b).1) as [[]|err] eqn:W.
  2: { exists Damaged. by split; [constructor|]. }
  destruct s as [es|es|]; [|exists Damaged; by split; [constructor|]..].
  exists (InPlace es). split; [constructor|]. revert Hs E W. destruct b as [main bak w fs cached mt lk].
  unfold holds, cache_holds, read_or_zero, read_file; cbn. intros [C F] E.
  assert (entries_of sf = es) as Fs.
  { rewrite E. by destruct main as [[t [sf'|]]|]; [..|destruct F as [_ ->]]. }
  assert (entries_of (if String.eqb (sf_Version sf) "" then sf <| sf_Version := "1.0" |> else sf) = es).
  { by destruct (String.eqb _ _). }
  unfold writeStateFile, pop_fault. by destruct fs as [|[[| | | | |]|] fs].
Qed.

Lemma crash_holds s b : holds s b →
  ∃ s', spec_step s Crashed s' ∧ holds s' (invalidateCache (backup b)).
Proof.
  destruct b as [main bak w fs cached mt lk]. destruct s as [es|es|]; cbn; [intros [C F]|intros (C & -> & F)|].
  - destruct main as [[t [sf|]]|]; [exists (SetAside es)|done|exists (InPlace es)];
      (split; [econstructor; constructor|done]).
  - exists (SetAside es). split; [econstructor; constructor|done].
  - intros _. exists Damaged. by split; [constructor|].
Qed.

Lemma shown_or_damaged s : (∃ es, shows s es) ∨ s = Damaged.
Proof. destruct s as [es|es|]; [left; exists es; constructor..|by right]. Qed.

Lemma step_simulated b l b' s : step b l b' → holds s b → ∃ s', spec_step s l s' ∧ holds s' b'.
Proof.
  intros St Hs. destruct St as [b|b fqn|b status|b entries|b|b|b budgets|b agent entry|b|b].
  - destruct (shown_or_damaged s) as [[es Sh]| ->]; [|by exists Damaged; split; [constructor|]].
    destruct (load_shown _ _ _ Sh Hs) as [-> H1]. exists (InPlace es). by split; [constructor|].
  - unfold local_Get. destruct s as [es|es|]; [| |by exists Damaged; split; [constructor|]].
    + destruct (load_in_place _ _ Hs) as (L & H1 & Cl). destruct (Load' b) as [r b']. cbn in *. subst r.
      exists (InPlace es). split; [|done]. cbn. rewrite buildIndex_last, Cl. constructor.
    + destruct (load_aside _ _ Hs) as (L & H1 & Cl). destruct (Load' b) as [r b']. cbn in *. subst r.
      exists (InPlace es). split; [|done]. cbn. rewrite Cl. constructor.
  - destruct (shown_or_damaged s) as [[es Sh]| ->]; [|by exists Damaged; split; [constructor|]].
    destruct (load_shown _ _ _ Sh Hs) as [L H1]. unfold local_List. destruct (Load' b) as [r b']. cbn in *. subst r.
    exists (InPlace es). split; [|done]. destruct status as [st|]; cbn.
    + rewrite filter_status. by apply spec_list.
    + rewrite <- (filter_any es) at 1. by apply spec_list.
  - by apply save_holds.
  - exists s. split; [constructor|]. unfold local_Lock. by destruct (flock b), s.
  - exists s. split; [constructor|by destruct s].
  - by apply write_holds.
  - by apply write_holds.
  - exists s. split; [constructor|]. destruct s; [by destruct Hs..|done].
  - by apply crash_holds.
Qed.

(** C2. The local backend implements the store: in every run from an empty
    directory, whatever goes wrong when Save or the writing of budgets and
    versions opens, writes or renames a file, and wherever a process ends in a
    Save, the labels are those of a run of the abstract store. So every Load and
    List shows the entries of the last Save that succeeded, through the cache or
    from the files, and so does every Get, except that the first one after a
    Save that failed, or was cut, between its two renames answers that there is
    no entry. This holds until budgets or versions are written with a failure
    or while the state file is set aside: after that nothing is promised until
    the next Save that succeeds. A file that exists can be read, and a backup
    can be put back, without an error. *)
Theorem local_backend_refines (faults : list (option Fault)) (labels : list Label) (b : LocalBackend)
    (R : run step (fresh faults) labels b) :
  ∃ s, run spec_step (InPlace []) labels s ∧ holds s b.
Proof.
  pose proof (fresh_holds faults) as Hs. revert R Hs. generalize (fresh faults) (InPlace []).
  intros b0 s0 R. revert s0.
  induction R as [b|b0 l b1 ls b2 St R IH]; intros s0 Hs.
  - exists s0. by split; [constructor|].
  - destruct (step_simulated _ _ _ _ St Hs) as (s1 & Sp & H1).
    destruct (IH s1 H1) as (s & Rs & H2). exists s. by split; [econstructor|].
Qed.

(** * Versions *)

Lemma writeStateFile_ok sf b : (writeStateFile stamp os_error sf b).1 = Ok tt →
  ∃ sf' t, lb_main (writeStateFile stamp os_error sf b).2 = Some (t, Good sf') ∧
    sf_Entries sf' = sf_Entries sf ∧ sf_Budgets sf' = sf_Budgets sf ∧
    sf_AgentVersions sf' = sf_AgentVersions sf ∧
    lb_faults (writeStateFile stamp os_error sf b).2 = tail (lb_faults b).
Proof.
  destruct b as [main bak w fs cached mt lk]. unfold writeStateFile, pop_fault.
  destruct fs as [|[[| | | | |]|] fs]; cbn; try done; intros _;
    (do 2 eexists; split; [reflexivity|]; by destruct (String.eqb _ _)).
Qed.

Definition keep_last (n : nat) (l : list VersionEntry) : list VersionEntry := drop (length l - n) l.

Lemma keep_last_10 l :
  (if (10 <? length l)%nat then drop (length l - 10) l else l) = keep_last 10 l.
Proof.
  unfold keep_last. destruct (Nat.ltb_spec 10 (length l)); [done|].
  by replace (length l - 10)%nat with 0%nat by lia.
Qed.

Lemma SaveVersion_eq agent entry b :
  let sf := read_or_zero json_error b in
  SaveVersion' agent entry b =
    writeStateFile stamp os_error (sf <| sf_AgentVersions :=
      <[agent := keep_last 10 (versions_of agent sf ++ [entry])]> (sf_AgentVersions sf) |>) b.
Proof. unfold SaveVersion. cbv zeta. by rewrite keep_last_10. Qed.

Lemma save_version_facts agent entry b : (SaveVersion' agent entry b).1 = Ok tt →
  ∃ sf' t, lb_main (SaveVersion' agent entry b).2 = Some (t, Good sf') ∧
    entries_of sf' = entries_of (read_or_zero json_error b) ∧
    sf_Budgets sf' = sf_Budgets (read_or_zero json_error b) ∧
    versions_of agent sf' = keep_last 10 (versions_of agent (read_or_zero json_error b) ++ [entry]) ∧
    (∀ other, other ≠ agent → versions_of other sf' = versions_of other (read_or_zero json_error b)) ∧
    lb_faults (SaveVersion' agent entry b).2 = tail (lb_faults b).
Proof.
  rewrite SaveVersion_eq. cbv zeta. intros W.
  destruct (writeStateFile_ok _ _ W) as (sf' & t & M & E & B & V & F).
  exists sf', t. rewrite B, F. split_and!; try done.
  - unfold entries_of. by rewrite E.
  - unfold versions_of at 1. rewrite V. cbn. by rewrite lookup_insert_eq.
  - intros other N. unfold versions_of at 1. rewrite V. cbn. by rewrite lookup_insert_ne.
Qed.

(** SaveVersion appends to the history of its agent and keeps the last ten
    versions; the histories of the other agents, the entries and the budgets
    stay as they are. *)
Lemma save_version_appends (b : LocalBackend) (sf : stateFile) (agent : string) (entry : VersionEntry)
    (R : read_file json_error b = Ok (Some sf)) (W : (SaveVersion' agent entry b).1 = Ok tt) :
  let b' := (SaveVersion' agent entry b).2 in
  GetVersions json_error agent b' = Ok (keep_last 10 (versions_of agent sf ++ [entry])) ∧
  (∀ other, other ≠ agent →
     GetVersions json_error other b' = GetVersions json_error other b) ∧
  LoadBudgets json_error b' = LoadBudgets json_error b ∧
  (Load' (invalidateCache b')).1 = Ok (entries_of sf).
Proof.
  cbv zeta. destruct (save_version_facts _ _ _ W) as (sf' & t & M & E & B & V & O & _).
  assert (read_or_zero json_error b = sf) as Z by (unfold read_or_zero; by rewrite R).
  rewrite Z in *. unfold GetVersions, LoadBudgets. rewrite R.
  assert (read_file json_error (SaveVersion' agent entry b).2 = Ok (Some sf')) as ->.
  { unfold read_file. by rewrite M. }
  cbn. rewrite V, B. split_and!; [done| |done|].
  - intros other N. by rewrite O.
  - unfold local_Load. cbn. rewrite M. cbn. by rewrite E.
Qed.

(** * What Save forgets *)

(** The write of a state file that is given this outcome succeeds. *)
Definition writable (f : option Fault) : Prop := f ≠ Some CreateFails ∧ f ≠ Some WriteFails.

Definition agent_names (resources : list Resource) : list string :=
  Resource_Name <$> filter (λ r, Resource_Kind r = "Agent") resources.

Lemma record_versions_once ts snapshot resources b sf t :
  NoDup (agent_names resources) →
  lb_main b = Some (t, Good sf) →
  Forall writable (lb_faults b) →
  (∀ a, a ∈ agent_names resources → versions_of a sf = []) →
  ∃ sf' t', lb_main (record_versions stamp json_error os_error ts snapshot resources b) = Some (t', Good sf') ∧
    (∀ a, a ∈ agent_names resources → ∃ v, versions_of a sf' = [v] ∧ VersionEntry_Version v = 1) ∧
    (∀ a, a ∉ agent_names resources → versions_of a sf' = versions_of a sf).
Proof.
  unfold record_versions. revert b sf t.
  induction resources as [|r rs IH]; intros b sf t Nd M Fs V; cbn.
  { exists sf, t. split_and!; [done| |done]. by intros a ?%not_elem_of_nil. }
  unfold record_version at 2. unfold agent_names in *. rewrite filter_cons in *.
  destruct (String.eqb_spec (Resource_Kind r) "Agent") as [K|K]; case_decide; try done;
    cbn in *; [|by apply (IH _ sf t)].
  assert (read_file json_error b = Ok (Some sf)) as R by (unfold read_file; by rewrite M).
  apply NoDup_cons in Nd as [Nr Nd].
  unfold GetVersions at 1. rewrite R. cbn. rewrite (V (Resource_Name r)) by constructor. cbn.
  match goal with |- context [SaveVersion' ?n ?e b] => set (entry := e) end.
  assert ((SaveVersion' (Resource_Name r) entry b).1 = Ok tt) as W.
  { unfold SaveVersion, writeStateFile, pop_fault. destruct (lb_faults b) as [|[[| | | | |]|] ?]; try done.
    all: by apply Forall_cons in Fs as [[] _]. }
  destruct (save_version_facts _ _ _ W) as (sf1 & t1 & M1 & _ & _ & V1 & O1 & F1).
  assert (read_or_zero json_error b = sf) as Z by (unfold read_or_zero; by rewrite R).
  rewrite Z in *. rewrite (V (Resource_Name r)) in V1 by constructor.
  destruct (IH _ sf1 t1 Nd M1) as (sf' & t' & M' & V' & O').
  - rewrite F1. destruct Fs; [constructor|done].
  - intros a I. rewrite O1; [apply V; by right|]. by intros ->.
  - exists sf', t'. split_and!; [done| |].
    + intros a [->|I]%elem_of_cons; [|by apply V'].
      exists entry. rewrite O' by done. by rewrite V1.
    + intros a [N1 N2]%not_elem_of_cons. rewrite O' by done. by apply O1.
Qed.

(** A successful apply erases the version history: after its Save and the
    recording of its versions every agent it applied has one version, numbered
    1, whatever the state file held before, and the rollback command finds no
    previous version. Budgets are erased as well. *)
Lemma apply_erases_history (b : LocalBackend) (entries : list Entry) (resources : list Resource)
    (timestamp : string) (snapshot : Attrs → gmap string string) (name : string)
    (W : (Save' entries b).1 = Ok tt)
    (Fs : Forall writable (tail (lb_faults b)))
    (Nd : NoDup (agent_names resources)) (I : name ∈ agent_names resources) :
  let saved := (Save' entries b).2 in
  let b' := record_versions stamp json_error os_error timestamp snapshot resources saved in
  LoadBudgets json_error saved = Ok [] ∧
  (∃ v, GetVersions json_error name b' = Ok [v] ∧ VersionEntry_Version v = 1) ∧
  (rollback stamp json_error os_error timestamp name b').1 =
    Err ("no previous version to rollback to for agent " +:+ quote name).
Proof.
  cbv zeta. destruct (save_ok _ _ W) as (t & M & F & _). rewrite <- F in Fs.
  destruct (record_versions_once timestamp snapshot resources _ _ t Nd M Fs) as (sf' & t' & M' & V & _).
  { done. }
  destruct (V name I) as (v & Ev & E1).
  assert (GetVersions json_error name (record_versions stamp json_error os_error timestamp snapshot
    resources (Save' entries b).2) = Ok [v]) as G.
  { unfold GetVersions, read_file. rewrite M'. cbn. by rewrite Ev. }
  split_and!.
  - unfold LoadBudgets, read_file. by rewrite M.
  - by exists v.
  - unfold rollback. by rewrite G.
Qed.

(** * The laws of the interface *)

Lemma local_backend_laws :
  @BackendLaws LocalBackend (local_backend Path stamp json_error os_error flock).
Proof.
  split; cbn.
  - intros es s s' W. assert ((Save' es s).1 = Ok tt) as W1 by by rewrite W.
    destruct (save_ok _ _ W1) as (t & M & _ & C). rewrite W in M, C. cbn in M, C.
    exists (sort_entries es). unfold local_Load. rewrite M, C. cbn. unfold entries_of. cbn.
    rewrite slice_of_default. split; [done|apply sort_entries_perm].
  - intros s s'. unfold local_Lock. destruct (flock s); [|done]. injection 1 as <-.
    by destruct s as [main [[? []]|] ? ? [?|] ? ?], main as [[? []]|]; cbn; try destruct (_ =? _).
  - intros s. unfold local_Unlock.
    by destruct s as [main [[? []]|] ? ? [?|] ? ?], main as [[? []]|]; cbn; try destruct (_ =? _).
Qed.
End local.

#[export] Existing Instance local_backend_laws.

(** * Concrete runs *)

Definition entry_a : Entry := mkEntry "p/Agent/a" "h" StatusApplied 1 "local-mcp" "" 0.
Definition entry_b : Entry := mkEntry "p/Agent/b" "h" StatusApplied 1 "local-mcp" "" 0.
Definition agent_a : Resource := mkResource "Agent" "a" "p/Agent/a" [] [] "h" [].
Definition version_1 : VersionEntry := mkVersionEntry 1 "t" "Applied version 1" ∅.

(** A clock that counts the writes. *)
Definition ticks (n : nat) : Z := Z.of_nat n + 1.

Definition with_main (f : option Content) (bak : option Content) : LocalBackend :=
  mkLocalBackend ((λ c, (1, c)) <$> f) ((λ c, (0, c)) <$> bak) 2 [] None 0 false.

Section examples.
Local Existing Instance ascii_runtime.
Definition saves := local_Save ticks "EIO".
Definition loads := local_Load "s.json" ticks "bad JSON".
Definition free (b : LocalBackend) : result string unit := Ok tt.

Definition small_faults : list (option Fault) := [None; Some (RenameFails false); Some WriteFails].

(** Two saves, the second of which fails half way and leaves only the backup;
    the Get that follows finds nothing, and what comes after it finds all; then a
    version is written without success. *)
Definition after_save := (saves [entry_b; entry_a] (fresh small_faults)).2.
Definition after_failure := (saves [entry_a] after_save).2.
Definition gets := local_Get "s.json" ticks "bad JSON" "p/Agent/b".
Definition small_labels : list Label :=
  [Saved [entry_b; entry_a] (Ok tt); Saved [entry_a] (Err "rename temp to state: EIO");
   Got "p/Agent/b" (Ok None); Loaded (Ok [entry_a; entry_b]); Got "p/Agent/b" (Ok (Some entry_b));
   Wrote (Err "EIO")].

Lemma local_backend_refines_witness :
  ∃ b s, run (step "s.json" ticks "bad JSON" "EIO" free) (fresh small_faults) small_labels b ∧
    run spec_step (InPlace []) small_labels s ∧ holds s b.
Proof.
  set (b1 := (gets after_failure).2). set (b2 := (loads b1).2). set (b3 := (gets b2).2).
  pose proof (step_save "s.json" ticks "bad JSON" "EIO" free (fresh small_faults) [entry_b; entry_a]) as S1.
  pose proof (step_save "s.json" ticks "bad JSON" "EIO" free after_save [entry_a]) as S2.
  pose proof (step_get "s.json" ticks "bad JSON" "EIO" free after_failure "p/Agent/b") as S3.
  pose proof (step_load "s.json" ticks "bad JSON" "EIO" free b1) as S4.
  pose proof (step_get "s.json" ticks "bad JSON" "EIO" free b2 "p/Agent/b") as S5.
  pose proof (step_version "s.json" ticks "bad JSON" "EIO" free b3 "a" version_1) as S6.
  pose proof (run_cons _ _ _ _ _ _ S1 (run_cons _ _ _ _ _ _ S2 (run_cons _ _ _ _ _ _ S3
    (run_cons _ _ _ _ _ _ S4 (run_cons _ _ _ _ _ _ S5 (run_cons _ _ _ _ _ _ S6 (run_nil _ _))))))) as R.
  match type of R with run _ _ ?ls _ => assert (ls = small_labels) as E by (vm_compute; reflexivity) end.
  rewrite E in R. destruct (local_backend_refines "s.json" ticks "bad JSON" "EIO" free _ _ _ R) as (s & A & B).
  eexists _, s. split; [exact R|]. by split.
Defined.

Definition with_budget := with_main (Some (Good (mkStateFile "1.0" (Some [entry_a])
  [mkBudgetState "a" "daily" float_zero float_zero "t" false ""] {["a" := [version_1; version_1]]}))) None.

Lemma save_version_appends_witness :
  GetVersions "bad JSON" "a" (SaveVersion ticks "bad JSON" "EIO" "a" version_1 with_budget).2 =
    Ok [version_1; version_1; version_1] ∧
  (loads (invalidateCache (SaveVersion ticks "bad JSON" "EIO" "a" version_1 with_budget).2)).1 =
    Ok [entry_a].
Proof.
  destruct (save_version_appends "s.json" ticks "bad JSON" "EIO" with_budget
    (mkStateFile "1.0" (Some [entry_a])
      [mkBudgetState "a" "daily" float_zero float_zero "t" false ""] {["a" := [version_1; version_1]]})
    "a" version_1) as (V & _ & _ & L); [reflexivity|reflexivity|].
  split; [exact V|exact L].
Defined.

Lemma apply_erases_history_witness :
  (rollback ticks "bad JSON" "EIO" "t" "a"
    (record_versions ticks "bad JSON" "EIO" "t" (λ _, ∅) [agent_a] (saves [entry_a] with_budget).2)).1 =
    Err ("no previous version to rollback to for agent " +:+ quote "a").
Proof.
  apply (apply_erases_history ticks "bad JSON" "EIO" with_budget [entry_a] [agent_a] "t" (λ _, ∅) "a").
  - reflexivity.
  - constructor.
  - by apply (bool_decide_unpack _).
  - by apply (bool_decide_unpack _).
Defined.

(** After the state file was lost and put back from the backup, Load
    returns an entry that Get, called first, does not find: the recovery leaves
    the index empty. *)
Example get_misses_recovered_entry :
  let b := with_main None (Some (Good (mkStateFile "1.0" (Some [entry_a]) [] ∅))) in
  (loads b).1 = Ok [entry_a] ∧
  (local_Get "s.json" ticks "bad JSON" "p/Agent/a" b).1 = Ok None ∧
  (local_Get "s.json" ticks "bad JSON" "p/Agent/a"
    (local_Get "s.json" ticks "bad JSON" "p/Agent/a" b).2).1 = Ok (Some entry_a).
Proof. by vm_compute. Qed.

(** Writing a version is not atomic: when the write of the state file
    stops half way, or when the state file was already damaged, the entries are
    lost, although a damaged file with a good backup is recovered by Load. *)
Example save_version_not_atomic :
  let sf := mkStateFile "1.0" (Some [entry_a]) [] ∅ in
  let failing := (with_main (Some (Good sf)) None) <| lb_faults := [Some WriteFails] |> in
  let damaged := with_main (Some Corrupt) (Some (Good sf)) in
  (loads failing).1 = Ok [entry_a] ∧
  (loads (SaveVersion ticks "bad JSON" "EIO" "a" version_1 failing).2).1 =
    Err (corrupted "s.json" "bad JSON") ∧
  (loads damaged).1 = Ok [entry_a] ∧
  (SaveVersion ticks "bad JSON" "EIO" "a" version_1 damaged).1 = Ok tt ∧
  (loads (SaveVersion ticks "bad JSON" "EIO" "a" version_1 damaged).2).1 = Ok [].
Proof. by vm_compute. Qed.
End examples.
