(* ===== verification/Policy.v ===== *)
(** Policy evaluation (internal/policy/policy.go, enforce.go): rules, the
    built-in requirements, and the report of violations. *)
From S2P Require Import Prelude GoStd Ir Structural.
Open Scope Z_scope.

(** EvalMode determines how violations are handled. *)
Inductive EvalMode := ModeEnforce | ModeWarn.

(** Violation represents a policy rule that was violated. *)
Record Violation := mkViolation {
  Violation_Rule : Rule;
  Violation_Resource : Resource;
  Violation_Message : string;
  Violation_Details : string;
}.

(** matchesPattern checks if a resource kind matches a pattern. *)
Definition matchesPattern (pattern kind : string) : bool :=
  if String.eqb pattern "*" then true else String.eqb pattern kind.

(** [ref[strings.LastIndex(ref, "@")+1:]], when there is an "@". *)
Fixpoint after_last_at (ref : string) : option string :=
  match ref with
  | EmptyString => None
  | String c rest =>
      match after_last_at rest with
      | Some version => Some version
      | None => if Ascii.eqb c "@"%char then Some rest else None
      end
  end.

(** hasVersionPin checks if a reference string contains a version pin. *)
Definition hasVersionPin (ref : string) : bool :=
  match after_last_at ref with
  | None => false
  | Some version => negb (String.eqb version "latest" || String.eqb version "")
  end.

Definition checkPinnedImports (resource : Resource) : bool :=
  if is_empty (Resource_References resource) then true
  else forallb hasVersionPin (Resource_References resource).

(** checkSecret verifies a named secret is available in resource metadata. *)
Definition checkSecret (secretName : string) (resource : Resource) : bool :=
  match attr "secrets" (Resource_Metadata resource) with
  | Some (VMap secrets) => match attr secretName secrets with Some _ => true | None => false end
  | _ => false
  end.

Definition checkSignedPackages (resource : Resource) : bool := true.

Definition checkRequirement (subject : string) (resource : Resource) : bool :=
  if String.eqb subject "pinned imports" then checkPinnedImports resource
  else if String.eqb subject "signed packages" then checkSignedPackages resource
  else if HasPrefix subject "secret " then checkSecret (TrimPrefix subject "secret ") resource
  else false.

Section runtime.
Context `{GoRuntime}.

Definition detailsForRequirement (subject : string) (resource : Resource) : string :=
  if String.eqb subject "pinned imports" then
    "Unpinned imports: " +:+
    Join (List.filter (λ ref, negb (hasVersionPin ref)) (Resource_References resource)) ", "
  else if String.eqb subject "signed packages" then
    "Package signature verification not yet implemented"
  else if HasPrefix subject "secret " then
    "Secret " +:+ quote (TrimPrefix subject "secret ") +:+ " not found in configured secrets"
  else "Unknown requirement type: " +:+ quote subject.

Definition evaluateDeny (rule : Rule) (resource : Resource) : option Violation :=
  if negb (matchesPattern (Rule_Resource rule) (Resource_Kind resource)) then None
  else if HasPrefix (Rule_Subject rule) "command " then
    let deniedBinary := TrimPrefix (Rule_Subject rule) "command " in
    match attr "binary" (Resource_Attributes resource) with
    | Some (VStr binary) =>
        if String.eqb binary deniedBinary then
          Some (mkViolation rule resource
            ("denied by policy: command " +:+ quote deniedBinary +:+ " is blocked")
            ("Resource " +:+ quote (Resource_Name resource) +:+ " uses denied command " +:+ quote deniedBinary))
        else None
    | _ => None
    end
  else Some (mkViolation rule resource ("denied by policy: " +:+ Rule_Subject rule) "").

Definition evaluateRequire (rule : Rule) (resource : Resource) : option Violation :=
  if negb (matchesPattern (Rule_Resource rule) (Resource_Kind resource)) then None
  else if checkRequirement (Rule_Subject rule) resource then None
  else Some (mkViolation rule resource ("requirement not met: " +:+ Rule_Subject rule)
               (detailsForRequirement (Rule_Subject rule) resource)).

Definition evaluateRule (rule : Rule) (resource : Resource) : option Violation :=
  if String.eqb (Rule_Action rule) "deny" then evaluateDeny rule resource
  else if String.eqb (Rule_Action rule) "require" then evaluateRequire rule resource
  else None.

(** Evaluate collects all violations, not just the first. *)
Definition Evaluate (policies : list Policy) (resources : list Resource) : list Violation :=
  flat_map (λ policy, flat_map (λ rule, omap (evaluateRule rule) resources) (Policy_Rules policy)) policies.

(** Enforce returns validation errors for any violations. *)
Definition Enforce (policies : list Policy) (resources : list Resource) : list ValidationError :=
  (λ v, mkValidationError "" 0 0
     ("policy violation on " +:+ Resource_FQN (Violation_Resource v) +:+ ": " +:+ Violation_Message v)
     ("rule: " +:+ Rule_Action (Violation_Rule v) +:+ " " +:+ Rule_Resource (Violation_Rule v) +:+ " " +:+
      Rule_Subject (Violation_Rule v))) <$> Evaluate policies resources.

(** * The report, grouped by resource name *)

(** The maps grouped and order, after one violation. *)
Definition group_violation (acc : gmap string (list Violation) * list string) (v : Violation)
    : gmap string (list Violation) * list string :=
  let '(grouped, order) := acc in
  let key := Resource_Name (Violation_Resource v) in
  (<[key := default [] (grouped !! key) ++ [v]]> grouped,
   match grouped !! key with Some _ => order | None => order ++ [key] end).

Definition format_violation (v : Violation) : string :=
  "  [" +:+ Rule_Action (Violation_Rule v) +:+ "] " +:+ Violation_Message v +:+ nl +:+
  (if negb (empty (Violation_Details v)) then "    " +:+ Violation_Details v +:+ nl else "").

Definition FormatViolations (violations : list Violation) (mode : EvalMode) : string :=
  if is_empty violations then ""
  else
    let prefix := match mode with ModeWarn => "WARNING" | ModeEnforce => "ERROR" end in
    let '(grouped, order) := foldl group_violation (∅, []) violations in
    Join ((λ key, nl +:+ prefix +:+ " [" +:+ key +:+ "]:" +:+ nl +:+
                  Join (format_violation <$> default [] (grouped !! key)) "") <$> order) "".
End runtime.
