(* ===== verification/PolicyFacts.v ===== *)
(** What policy evaluation decides, and what it cannot see: the declarative
    notion of a compliant document, and the resources that lowering produces
    seen through the rules of the language. *)
From S2P Require Import Prelude GoStd Ast Ir Structural StructuralFacts IrFacts Lower LowerFacts Token Lexer ParserCore Parser Policy.
Open Scope Z_scope.

(** * Compliance *)

(** A reference is pinned to what follows its last "@". *)
Definition pinned (ref : string) : Prop :=
  ∃ name version, ref = name +:+ "@" +:+ version ∧ (∀ u v, version ≠ u +:+ "@" +:+ v) ∧
    version ≠ "latest" ∧ version ≠ "".

(** A requirement is met by a resource. Signatures are not verified: the
    requirement of signed packages is met by every resource. *)
Definition meets (subject : string) (r : Resource) : Prop :=
  (subject = "pinned imports" ∧ ∀ ref, ref ∈ Resource_References r → pinned ref) ∨
  subject = "signed packages" ∨
  ∃ name secrets v, subject = "secret " +:+ name ∧
    attr "secrets" (Resource_Metadata r) = Some (VMap secrets) ∧ attr name secrets = Some v.

Definition concerns (rule : Rule) (r : Resource) : Prop :=
  Rule_Resource rule = "*" ∨ Rule_Resource rule = Resource_Kind r.

(** A resource complies with a rule when the rule does not concern it, or does
    not deny it and its requirement is met. *)
Definition complies (rule : Rule) (r : Resource) : Prop :=
  concerns rule r →
  (Rule_Action rule = "deny" →
     ∃ binary, Rule_Subject rule = "command " +:+ binary ∧
       attr "binary" (Resource_Attributes r) ≠ Some (VStr binary)) ∧
  (Rule_Action rule = "require" → meets (Rule_Subject rule) r).

Lemma matchesPattern_true rule r :
  matchesPattern (Rule_Resource rule) (Resource_Kind r) = true ↔ concerns rule r.
Proof.
  unfold matchesPattern, concerns.
  destruct (String.eqb_spec (Rule_Resource rule) "*"); [naive_solver|].
  rewrite String.eqb_eq. naive_solver.
Qed.

Lemma TrimPrefix_app pre s : TrimPrefix (pre +:+ s) pre = s.
Proof.
  unfold TrimPrefix. assert (HasPrefix (pre +:+ s) pre = true) as ->; [|by apply str_drop_app].
  apply HasPrefix_spec. by exists s.
Qed.

Lemma after_last_at_Some ref version :
  after_last_at ref = Some version ↔
  ∃ name, ref = name +:+ "@" +:+ version ∧ after_last_at version = None.
Proof.
  revert version. induction ref as [|c ref IH]; intros version; simpl.
  { split; [done|]. intros (name & E & _). by destruct name. }
  destruct (after_last_at ref) as [v|] eqn:L.
  - rewrite IH. split.
    + intros (name & -> & N). exists (String c name). done.
    + intros (name & E & N). destruct name as [|c' name]; simpl in E; injection E as -> E'.
      * change ("" +:+ version) with version in E'. congruence.
      * by exists name.
  - destruct (Ascii.eqb_spec c "@"%char) as [->|Nc].
    + split.
      * intros [= <-]. by exists "".
      * intros (name & E & N). destruct name as [|c' name]; simpl in E; injection E as E2; [by subst|].
        assert (None = Some version) as C by (apply IH; by exists name). done.
    + split; [done|]. intros (name & E & N). destruct name as [|c' name]; simpl in E.
      * by injection E as E1 E2.
      * injection E as E1 E2. apply IH. by exists name.
Qed.

Lemma after_last_at_None ref : after_last_at ref = None ↔ ∀ u v, ref ≠ u +:+ "@" +:+ v.
Proof.
  induction ref as [|c ref IH]; simpl.
  { split; [|done]. intros _ u v E. by destruct u. }
  destruct (after_last_at ref) as [x|] eqn:L.
  - split; [done|]. intros N. apply after_last_at_Some in L as (name & -> & _).
    by destruct (N (String c name) x).
  - destruct IH as [IH _]. specialize (IH eq_refl). destruct (Ascii.eqb_spec c "@"%char) as [->|Nc].
    + split; [done|]. intros N. by destruct (N "" ref).
    + split; [|done]. intros _ u v E. destruct u as [|c' u]; simpl in E; injection E as E1 E2; [done|].
      by eapply IH.
Qed.

Lemma hasVersionPin_true ref : hasVersionPin ref = true ↔ pinned ref.
Proof.
  unfold hasVersionPin, pinned. destruct (after_last_at ref) as [x|] eqn:L.
  - rewrite negb_true_iff, orb_false_iff, !String.eqb_neq. apply after_last_at_Some in L as (n & E & N).
    rewrite after_last_at_None in N. split; [naive_solver|].
    intros (n' & x' & E' & N' & ?). assert (x' = x) as ->; [|done].
    apply after_last_at_None in N, N'.
    assert (after_last_at ref = Some x) as L1 by (apply after_last_at_Some; eauto).
    assert (after_last_at ref = Some x') as L2 by (apply after_last_at_Some; eauto). congruence.
  - split; [done|]. intros (n & x & E & _). rewrite after_last_at_None in L. by destruct (L n x).
Qed.

Lemma checkRequirement_true subject r : checkRequirement subject r = true ↔ meets subject r.
Proof.
  unfold checkRequirement, meets. destruct (String.eqb_spec subject "pinned imports") as [->|N1].
  { unfold checkPinnedImports. destruct (Resource_References r) as [|x l]; simpl is_empty; cbv match.
    - split; [|done]. intros _. left. split; [done|]. by intros ref ?%not_elem_of_nil.
    - rewrite forallb_forall. setoid_rewrite hasVersionPin_true.
      setoid_rewrite <- list_elem_of_In. split; [naive_solver|].
      intros [[_ P]|[?|(n & s & v & E & _)]]; [done|done|]. by destruct n. }
  destruct (String.eqb_spec subject "signed packages") as [->|N2]; [naive_solver|].
  destruct (HasPrefix subject "secret ") eqn:P.
  - apply HasPrefix_spec in P as [name ->]. rewrite TrimPrefix_app. unfold checkSecret.
    split.
    + destruct (attr "secrets" _) as [[]|] eqn:A; try done.
      destruct (attr name m) eqn:A'; [|done]. intros _. right. right. by exists name, m, v.
    + intros [[? _]|[?|(n & s & v & E & A & A')]]; [done|done|].
      apply str_app_inj_l in E as ->. by rewrite A, A'.
  - split; [done|]. intros [[? _]|[?|(n & s & v & E & A & A')]]; [done|done|].
    subst. assert (HasPrefix ("secret " +:+ n) "secret " = true) as C; [|congruence].
    apply HasPrefix_spec. by exists n.
Qed.

Section policy.
Context `{GoRuntime}.

Lemma evaluateRule_None rule r : evaluateRule rule r = None ↔ complies rule r.
Proof.
  unfold evaluateRule, complies.
  destruct (String.eqb_spec (Rule_Action rule) "deny") as [->|Nd].
  - unfold evaluateDeny. rewrite <- matchesPattern_true.
    destruct (matchesPattern _ _); simpl; [|naive_solver].
    destruct (HasPrefix (Rule_Subject rule) "command ") eqn:P.
    + apply HasPrefix_spec in P as [b E]. rewrite E, TrimPrefix_app.
      assert (∀ o : option Value, (∃ binary, "command " +:+ b = "command " +:+ binary ∧ o ≠ Some (VStr binary)) ↔
        o ≠ Some (VStr b)) as Eq.
      { intros o. split; [|naive_solver]. by intros (b' & E'%str_app_inj_l & N); subst. }
      destruct (attr "binary" _) as [[]|] eqn:A; try (split; [intros _ _; split; [|done]; intros _; by exists b|done]).
      destruct (String.eqb_spec s b) as [->|N].
      * split; [done|]. intros C. destruct (C eq_refl) as [C1 _]. by destruct (proj1 (Eq _) (C1 eq_refl)).
      * split; [|done]. intros _ _. split; [|done]. intros _. apply Eq. congruence.
    + split; [done|]. intros C. destruct (C eq_refl) as [C1 _]. destruct (C1 eq_refl) as (b & E & _).
      rewrite E in P. assert (HasPrefix ("command " +:+ b) "command " = true); [|congruence].
      apply HasPrefix_spec. by exists b.
  - destruct (String.eqb_spec (Rule_Action rule) "require") as [->|Nr]; [|naive_solver].
    unfold evaluateRequire. rewrite <- matchesPattern_true, <- checkRequirement_true.
    destruct (matchesPattern _ _); simpl; [|naive_solver].
    destruct (checkRequirement _ _); naive_solver.
Qed.

Lemma evaluate_nil policies resources :
  Evaluate policies resources = [] ↔
  ∀ policy rule r, policy ∈ policies → rule ∈ Policy_Rules policy → r ∈ resources → complies rule r.
Proof.
  unfold Evaluate. rewrite flat_map_nil, Forall_forall. setoid_rewrite flat_map_nil.
  setoid_rewrite Forall_forall. setoid_rewrite <- evaluateRule_None.
  assert (∀ (g : Resource → option Violation) l, omap g l = [] ↔ ∀ r, r ∈ l → g r = None) as O.
  { intros g l. induction l as [|x l IH]; [by split; [intros _ r ?%not_elem_of_nil|]|].
    simpl. destruct (g x) eqn:G; [split; [done|]; intros C; specialize (C x ltac:(left)); congruence|].
    rewrite IH. split; [intros C r [->|?]%elem_of_cons; auto|]. intros C r I. apply C. by right. }
  setoid_rewrite O. naive_solver.
Qed.

(** C39. Evaluation finds nothing exactly in compliant documents: every resource
    complies with every rule of every policy that concerns it, by its kind or by
    the pattern of all. It complies with the denial of a command whose name is
    not its attribute binary, and with no other denial; with the requirement of
    pinned imports when every reference has some text but latest after its last
    at sign; with that of a secret when its metadata have a map of secrets with
    the name; with that of signed packages always, since signatures are not
    verified; and with no other requirement. *)
Theorem evaluate_exact (policies : list Policy) (resources : list Resource) :
  Evaluate policies resources = [] ↔
  ∀ policy rule r, policy ∈ policies → rule ∈ Policy_Rules policy → r ∈ resources → complies rule r.
Proof. apply evaluate_nil. Qed.
End policy.

(** * Lowered resources *)

Lemma attr_cons_ne k k' v m : String.eqb k k' = false → attr k ((k', v) :: m) = attr k m.
Proof. intros E. simpl. by rewrite E. Qed.

Lemma attr_field_ne k c k' v : String.eqb k k' = false → attr k (field c k' v) = None.
Proof. intros E. destruct c; [|done]. simpl. by rewrite E. Qed.

Lemma attr_opt_field_ne {A} k k' (f : A → Value) o :
  String.eqb k k' = false → attr k (opt_field k' f o) = None.
Proof. intros E. destruct o; [|done]. simpl. by rewrite E. Qed.

Section lowered.
Context `{GoRuntime} (LookupEnv : string → option string).

Lemma lowered_binary pkgName stmt r :
  lower_resource pkgName stmt = Some r → attr "binary" (Resource_Attributes r) = None.
Proof.
  destruct stmt; try done; intros [= <-]; simpl;
    unfold lower_prompt, lower_skill, agent_attrs, map_field; simpl Resource_Attributes;
    unfold str_field, int_field, true_field, list_field;
    rewrite ?attr_app, ?attr_cons_ne, ?attr_field_ne, ?attr_opt_field_ne by reflexivity;
    repeat match goal with |- context [attr _ (match ?o with _ => _ end)] => destruct o end;
    reflexivity.
Qed.

Lemma attr_strings k m v : attr k (strMapToInterface m) = Some v → ∃ s, v = VStr s.
Proof.
  unfold strMapToInterface. induction (map_range m) as [|[k' s] l IH]; simpl; [done|].
  destruct (String.eqb k k'); [intros [= <-]; by exists s|done].
Qed.

Lemma lowered_metadata pkgName stmt r k v :
  lower_resource pkgName stmt = Some r → attr k (Resource_Metadata r) = Some v → ∃ s, v = VStr s.
Proof. destruct stmt; try done; intros [= <-]; simpl; apply attr_strings. Qed.

Lemma document_lowered fuel f doc r :
  Lower LookupEnv fuel f = Some (Ok doc) → r ∈ Document_Resources doc →
  ∃ pkgName stmt, lower_resource pkgName stmt = Some r.
Proof.
  intros L I. destruct (Lower_resources LookupEnv fuel f doc L) as (pkg & _ & E).
  rewrite E, SortResources_perm in I. apply list_elem_of_omap in I as (stmt & _ & L').
  by exists (Ast.Package_Name pkg), stmt.
Qed.

(** The resource types of the language documentation. *)
Definition documented_types : list string := ["model"; "skill"; "secret"].

(** The rules of the documentation have no effect: in the document of any
    file, a policy whose rules name the resource types model, skill and secret
    is never violated, whatever it denies or requires, since evaluation takes
    the type for the kind of a resource. *)
Lemma documented_policies_ineffective fuel f doc (policies : list Policy)
    (L : Lower LookupEnv fuel f = Some (Ok doc))
    (D : ∀ policy rule, policy ∈ policies → rule ∈ Policy_Rules policy →
           Rule_Resource rule ∈ documented_types) :
  Evaluate policies (Document_Resources doc) = [].
Proof.
  apply evaluate_nil. intros policy rule r Ip Ir I C. exfalso.
  destruct (document_lowered fuel f doc r L I) as (pkgName & stmt & L').
  apply lower_resource_fqn in L' as (_ & K & _). specialize (D _ _ Ip Ir).
  destruct C as [C|C]; rewrite C in D; revert D; [by apply one_of_false|].
  revert K. generalize (Resource_Kind r) as k.
  intros k K. repeat (apply elem_of_cons in K as [->|K]; [by apply one_of_false|]).
  by apply not_elem_of_nil in K.
Qed.

(** The two rules that look into a resource cannot see what lowering puts
    there: denying a command with any pattern never rejects a resource of the
    document of a file, since the binary of a tool is an attribute of its tool,
    and requiring a secret rejects every resource it concerns, since the
    metadata of a resource only holds strings. *)
Lemma command_and_secret_rules fuel f doc (r : Resource) (rule : Rule) (name : string)
    (L : Lower LookupEnv fuel f = Some (Ok doc)) (I : r ∈ Document_Resources doc) :
  (Rule_Action rule = "deny" → Rule_Subject rule = "command " +:+ name →
     evaluateRule rule r = None) ∧
  (Rule_Action rule = "require" → Rule_Subject rule = "secret " +:+ name → concerns rule r →
     is_Some (evaluateRule rule r)).
Proof.
  destruct (document_lowered fuel f doc r L I) as (pkgName & stmt & L'). split.
  - intros A S. apply evaluateRule_None. intros _. rewrite A. split; [|done]. intros _.
    exists name. by rewrite (lowered_binary _ _ _ L').
  - intros A S C. apply not_eq_None_Some. rewrite evaluateRule_None. intros M.
    destruct (M C) as [_ R]. rewrite S in R.
    destruct (R A) as [[E _]|[E|(n & secrets & v & _ & E & _)]].
    + by destruct name.
    + by destruct name.
    + by apply (lowered_metadata _ _ _ _ _ L') in E as [s ?].
Qed.
End lowered.

(** * A file with a policy of the documentation *)

Definition policy_file : string :=
  qt "package `p` version `1.0.0` lang `2.0`" +:+ nl +:+
  qt "prompt `x` { content `hi` }" +:+ nl +:+
  qt "agent `a` { uses prompt `x` model `claude-haiku-latest` }" +:+ nl +:+
  qt "policy `safe` { deny model claude-haiku-latest" +:+ nl +:+
  "require secret db-connection" +:+ nl +:+ "}" +:+ nl.

Definition policy_document : Document :=
  match @Parse ascii_runtime policy_file "f" with
  | Some (Some f, []) =>
      match @Lower ascii_runtime (λ _, None) 1 f with
      | Some (Ok doc) => doc
      | _ => mkDocument "" "" (Ir.mkPackage "" "" "") [] [] [] [] [] None
      end
  | _ => mkDocument "" "" (Ir.mkPackage "" "" "") [] [] [] [] [] None
  end.

Definition policy_ast : File :=
  match @Parse ascii_runtime policy_file "f" with
  | Some (Some f, _) => f
  | _ => mkFile "" None [] zero_Pos zero_Pos
  end.

Lemma documented_policies_ineffective_witness :
  Document_Policies policy_document =
    [mkPolicy "safe" [Ir.mkRule "deny" "model" "claude-haiku-latest";
                      Ir.mkRule "require" "secret" "db-connection"]] ∧
  @Evaluate ascii_runtime (Document_Policies policy_document) (Document_Resources policy_document) = [].
Proof.
  assert (Document_Policies policy_document =
    [mkPolicy "safe" [Ir.mkRule "deny" "model" "claude-haiku-latest";
                      Ir.mkRule "require" "secret" "db-connection"]]) as E by by vm_compute.
  split; [exact E|].
  apply (@documented_policies_ineffective ascii_runtime (λ _, None) 1 policy_ast policy_document).
  - by vm_compute.
  - intros policy rule Ip Ir. rewrite E in Ip.
    apply list_elem_of_singleton in Ip as ->.
    apply elem_of_cons in Ir as [->|Ir%list_elem_of_singleton]; [|subst]; by apply (bool_decide_unpack _).
Defined.

Lemma command_and_secret_rules_witness :
  ∃ r, r ∈ Document_Resources policy_document ∧
    is_Some (@evaluateRule ascii_runtime (Ir.mkRule "require" "*" "secret db-connection") r).
Proof.
  destruct (Document_Resources policy_document) as [|r l] eqn:E; [by vm_compute in E|].
  exists r. split; [left|].
  eapply (@command_and_secret_rules ascii_runtime (λ _, None) 1 policy_ast policy_document r _ "db-connection").
  - by vm_compute.
  - rewrite E. left.
  - done.
  - done.
  - by left.
Defined.
