(* ===== verification/Mvs.v ===== *)
(** Minimal version selection (internal/imports/mvs.go): semantic versions,
    the selection and the detection of conflicts. *)
From S2P Require Import Prelude GoStd.
Open Scope Z_scope.

(** * Semantic versions *)

(** The value of [n, _ := strconv.Atoi(p)]: 0 for text that is not a number,
    the nearest int for a number out of range. [uint_value] stops at the first
    digit that overflows a uint64. *)
Definition max_uint : Z := 2 ^ 64 - 1.

Fixpoint uint_value (acc : Z) (s : string) : Z :=
  match s with
  | EmptyString => acc
  | String c s =>
      match digit_of c with
      | None => 0
      | Some d => if max_uint <? 10 * acc + d then max_uint else uint_value (10 * acc + d) s
      end
  end.

Definition Atoi_value (s : string) : Z :=
  let '(neg, body) := split_sign s in
  let un := uint_value 0 body in
  if neg then Z.max min_int (- un) else Z.min max_int un.

(** strings.SplitN(v, ".", 3) *)
Definition SplitN3 (s sep : string) : list string :=
  match SplitN2 s sep with
  | [a; rest] => a :: SplitN2 rest sep
  | l => l
  end.

Definition semver : Type := Z * Z * Z.

(** parseSemver splits a version string into [major, minor, patch]. *)
Definition parseSemver (v : string) : semver :=
  let v := TrimPrefix v "v" in
  let v := match Index v "-" with Some idx => str_take idx v | None => v end in
  match Atoi_value <$> SplitN3 v "." with
  | [major] => (major, 0, 0)
  | [major; minor] => (major, minor, 0)
  | major :: minor :: patch :: _ => (major, minor, patch)
  | [] => (0, 0, 0)
  end.

Definition compare_int (a b : Z) : Z := if a <? b then -1 else if b <? a then 1 else 0.

(** compareSemver returns -1 if a < b, 0 if a == b, 1 if a > b. *)
Definition compareSemver (a b : string) : Z :=
  let '(a1, a2, a3) := parseSemver a in
  let '(b1, b2, b3) := parseSemver b in
  if negb (compare_int a1 b1 =? 0) then compare_int a1 b1
  else if negb (compare_int a2 b2 =? 0) then compare_int a2 b2
  else compare_int a3 b3.

(** * Selection *)

(** VersionConstraint represents a single version requirement. *)
Record VersionConstraint := mkVersionConstraint {
  VersionConstraint_Package : string;
  VersionConstraint_MinVersion : string;
  VersionConstraint_RequiredBy : string;
}.

(** ResolvedVersion is the output of MVS. *)
Record ResolvedVersion := mkResolvedVersion {
  ResolvedVersion_Package : string;
  ResolvedVersion_Version : string;
}.

(** [byPackage[c.Package] = append(byPackage[c.Package], c)] over the list. *)
Definition group_constraint (m : gmap string (list VersionConstraint)) (c : VersionConstraint) :
    gmap string (list VersionConstraint) :=
  <[VersionConstraint_Package c := default [] (m !! VersionConstraint_Package c) ++ [c]]> m.

Definition by_package (constraints : list VersionConstraint) : gmap string (list VersionConstraint) :=
  foldl group_constraint ∅ constraints.

Definition raise_min (maxMin : string) (c : VersionConstraint) : string :=
  if String.eqb maxMin "" || (0 <? compareSemver (VersionConstraint_MinVersion c) maxMin)
  then VersionConstraint_MinVersion c else maxMin.

Definition max_min (cs : list VersionConstraint) : string := foldl raise_min "" cs.

Section runtime.
Context `{GoRuntime}.

Fixpoint select_versions (groups : list (string * list VersionConstraint))
    : result string (list ResolvedVersion) :=
  match groups with
  | [] => Ok []
  | (pkg, cs) :: groups =>
      if String.eqb (max_min cs) "" then Err ("no version constraint for package " +:+ quote pkg)
      else
        resolved ← select_versions groups;
        Ok (mkResolvedVersion pkg (max_min cs) :: resolved)
  end.

(** MVS implements Minimal Version Selection. *)
Definition MVS (constraints : list VersionConstraint) : result string (list ResolvedVersion) :=
  resolved ← select_versions (map_range (by_package constraints));
  Ok (insertion_sort (λ a b, str_ltb (ResolvedVersion_Package a) (ResolvedVersion_Package b)) resolved).

(** * Conflicts *)

(** VersionConflict describes an incompatible version requirement. *)
Record VersionConflict := mkVersionConflict {
  VersionConflict_Package : string;
  VersionConflict_ChainA : string;
  VersionConflict_ChainB : string;
  VersionConflict_Reason : string;
}.

Definition chain (pkg : string) (c : VersionConstraint) : string :=
  VersionConstraint_RequiredBy c +:+ " requires " +:+ pkg +:+ "@" +:+ VersionConstraint_MinVersion c.

Definition major (c : VersionConstraint) : Z := (parseSemver (VersionConstraint_MinVersion c)).1.1.

Definition conflict_of (pkg : string) (a b : VersionConstraint) : list VersionConflict :=
  if negb (major a =? major b) then
    [mkVersionConflict pkg (chain pkg a) (chain pkg b)
       ("major version mismatch: v" +:+ pretty (major a) +:+ " vs v" +:+ pretty (major b))]
  else [].

(** The pairs i < j of the constraints of a package. *)
Fixpoint package_conflicts (pkg : string) (cs : list VersionConstraint) : list VersionConflict :=
  match cs with
  | [] => []
  | c :: cs => flat_map (conflict_of pkg c) cs ++ package_conflicts pkg cs
  end.

Definition DetectConflicts (constraints : list VersionConstraint) : list VersionConflict :=
  flat_map (λ '(pkg, cs), package_conflicts pkg cs) (map_range (by_package constraints)).

Definition format_conflict (c : VersionConflict) : string :=
  "  - " +:+ VersionConflict_Package c +:+ ": " +:+ VersionConflict_Reason c +:+ nl +:+
  "    " +:+ VersionConflict_ChainA c +:+ nl +:+
  "    " +:+ VersionConflict_ChainB c +:+ nl +:+
  "    Suggestion: align both dependencies to the same major version".

Definition FormatConflicts (conflicts : list VersionConflict) : string :=
  Join (format_conflict <$> conflicts) nl.

(** ValidateConstraints checks that all constraints can be satisfied simultaneously. *)
Definition ValidateConstraints (constraints : list VersionConstraint) : result string unit :=
  match MVS constraints with
  | Err err => Err err
  | Ok _ =>
      match DetectConflicts constraints with
      | [] => Ok tt
      | conflicts => Err ("version conflicts detected:" +:+ nl +:+ FormatConflicts conflicts)
      end
  end.
End runtime.
