(* ===== verification/MvsFacts.v ===== *)
(** Minimal version selection selects: for every package the greatest of the
    required minimal versions, so the least version that satisfies them all;
    constraints validate exactly when each package has a version and one major
    version. *)
From S2P Require Import Prelude GoStd Mvs.
Open Scope Z_scope.

(** * The order of versions *)

Definition semver_le (a b : semver) : Prop :=
  let '(a1, a2, a3) := a in
  let '(b1, b2, b3) := b in
  a1 < b1 ∨ a1 = b1 ∧ (a2 < b2 ∨ a2 = b2 ∧ a3 <= b3).

Definition version_le (a b : string) : Prop := semver_le (parseSemver a) (parseSemver b).

Global Instance version_le_trans : Transitive version_le.
Proof.
  intros a b c. unfold version_le.
  destruct (parseSemver a) as [[a1 a2] a3], (parseSemver b) as [[b1 b2] b3],
    (parseSemver c) as [[c1 c2] c3]. simpl. lia.
Qed.

Global Instance version_le_refl : Reflexive version_le.
Proof. intros a. unfold version_le. destruct (parseSemver a) as [[a1 a2] a3]. simpl. lia. Qed.

Lemma compare_int_spec a b :
  (compare_int a b = -1 ∧ a < b) ∨ (compare_int a b = 0 ∧ a = b) ∨ (compare_int a b = 1 ∧ b < a).
Proof. unfold compare_int. destruct (Z.ltb_spec a b); [lia|]. destruct (Z.ltb_spec b a); lia. Qed.

Lemma compareSemver_le a b : (0 <? compareSemver a b) = false ↔ version_le a b.
Proof.
  unfold compareSemver, version_le.
  destruct (parseSemver a) as [[a1 a2] a3], (parseSemver b) as [[b1 b2] b3]. simpl.
  destruct (compare_int_spec a1 b1) as [[-> ?]|[[-> ?]|[-> ?]]]; simpl; try (split; [lia|done]).
  - destruct (compare_int_spec a2 b2) as [[-> ?]|[[-> ?]|[-> ?]]]; simpl; try (split; [lia|done]).
    + destruct (compare_int_spec a3 b3) as [[-> ?]|[[-> ?]|[-> ?]]]; simpl; split; try done; lia.
    + split; [done|lia].
  - split; [done|lia].
Qed.

Lemma compareSemver_gt a b : (0 <? compareSemver a b) = true → version_le b a.
Proof.
  unfold compareSemver, version_le.
  destruct (parseSemver a) as [[a1 a2] a3], (parseSemver b) as [[b1 b2] b3]. simpl.
  destruct (compare_int_spec a1 b1) as [[-> ?]|[[-> ?]|[-> ?]]]; simpl; try done; [|lia].
  destruct (compare_int_spec a2 b2) as [[-> ?]|[[-> ?]|[-> ?]]]; simpl; try done; [|lia].
  destruct (compare_int_spec a3 b3) as [[-> ?]|[[-> ?]|[-> ?]]]; simpl; try done; lia.
Qed.

(** ** No version is below the empty one *)

Definition no_dash (s : string) : Prop := ∀ u v, s ≠ u +:+ "-" +:+ v.

Lemma no_dash_app s t : no_dash (s +:+ t) → no_dash s ∧ no_dash t.
Proof.
  intros N. split; intros u v E.
  - apply (N u (v +:+ t)). rewrite E. by rewrite !str_app_assoc.
  - apply (N (s +:+ u) v). by rewrite E, str_app_assoc.
Qed.

Lemma uint_value_nonneg s acc : 0 <= acc → 0 <= uint_value acc s.
Proof.
  revert acc. induction s as [|c s IH]; intros acc A; simpl; [done|].
  unfold digit_of. destruct (_ && _) eqn:D; [|done].
  apply andb_true_iff in D as [?%Z.leb_le ?%Z.leb_le].
  destruct (max_uint <? _); [done|]. apply IH. lia.
Qed.

Lemma Atoi_value_nonneg s : no_dash s → 0 <= Atoi_value s.
Proof.
  intros N. unfold Atoi_value.
  assert ((split_sign s).1 = false) as E.
  { destruct s as [|c s]; [done|]. destruct (Ascii.eqb_spec c "-"%char) as [->|Nc].
    - by destruct (N "" s).
    - by destruct c as [[] [] [] [] [] [] [] []]. }
  destruct (split_sign s) as [neg body]. simpl in E. subst.
  pose proof (uint_value_nonneg body 0). unfold max_int. lia.
Qed.

Lemma SplitN2_no_dash s sep : no_dash s → Forall no_dash (SplitN2 s sep).
Proof.
  intros N. unfold SplitN2. destruct (Index s sep) as [i|] eqn:I; [|by constructor].
  apply Index_Some in I as [(u & v & -> & <-) _].
  rewrite str_take_app. rewrite <- str_app_length, str_app_assoc, str_drop_app.
  apply no_dash_app in N as [Nu N]. apply no_dash_app in N as [_ Nv]. by repeat constructor.
Qed.

Lemma SplitN3_no_dash s sep : no_dash s → Forall no_dash (SplitN3 s sep).
Proof.
  intros N. pose proof (SplitN2_no_dash s sep N) as F. unfold SplitN3.
  destruct (SplitN2 s sep) as [|a [|b [|]]]; try done.
  apply Forall_cons in F as [Fa F]. apply Forall_cons in F as [Fb _].
  constructor; [done|]. by apply SplitN2_no_dash.
Qed.

Lemma before_dash v :
  no_dash (match Index v "-" with Some idx => str_take idx v | None => v end).
Proof.
  destruct (Index v "-") as [i|] eqn:I; [|by intros u w; apply (Index_None _ _ I)].
  apply Index_Some in I as [(u & w & -> & <-) M]. rewrite str_take_app.
  intros u' w' ->. specialize (M u' (w' +:+ "-" +:+ w)). rewrite !str_app_length in M. simpl in M.
  ospecialize (M _); [|lia]. by rewrite !str_app_assoc.
Qed.

Lemma version_le_empty v : version_le "" v.
Proof.
  unfold version_le. change (parseSemver "") with (0, 0, 0). unfold parseSemver.
  pose proof (SplitN3_no_dash _ "." (before_dash (TrimPrefix v "v"))) as F.
  destruct (SplitN3 _ _) as [|a [|b [|c l]]]; simpl; [lia|..];
    repeat match goal with
    | F : Forall _ (_ :: _) |- _ => apply Forall_cons in F as [?%Atoi_value_nonneg F]
    end; lia.
Qed.

(** * Selection *)

Definition of_package (pkg : string) (cs : list VersionConstraint) : list VersionConstraint :=
  filter (λ c, VersionConstraint_Package c = pkg) cs.

Lemma by_package_lookup cs pkg :
  by_package cs !! pkg = match of_package pkg cs with [] => None | l => Some l end.
Proof.
  unfold by_package, of_package. induction cs as [|c cs IH] using rev_ind; [done|].
  rewrite foldl_app, filter_app. simpl. unfold group_constraint at 1.
  destruct (decide (VersionConstraint_Package c = pkg)) as [<-|N].
  - rewrite lookup_insert_eq, IH, filter_cons_True, filter_nil by done. by destruct (filter _ cs).
  - by rewrite lookup_insert_ne, IH, filter_cons_False, filter_nil, app_nil_r by done.
Qed.

(** [v] is the greatest of the versions of [cs] that are given. *)
Definition greatest (cs : list VersionConstraint) (v : string) : Prop :=
  v ≠ "" ∧ v ∈ VersionConstraint_MinVersion <$> cs ∧
  ∀ c, c ∈ cs → version_le (VersionConstraint_MinVersion c) v.

Lemma max_min_spec cs :
  (max_min cs = "" ∧ ∀ c, c ∈ cs → VersionConstraint_MinVersion c = "") ∨
  greatest cs (max_min cs).
Proof.
  unfold max_min, greatest. induction cs as [|c cs IH] using rev_ind.
  { left. split; [done|]. by intros c ?%not_elem_of_nil. }
  rewrite foldl_app, fmap_app. simpl. revert IH. generalize (foldl raise_min "" cs) as m.
  intros m IH. unfold raise_min.
  destruct (String.eqb_spec m "") as [Em|Nm]; simpl.
  - destruct IH as [[_ A]|[N _]]; [|done].
    destruct (decide (VersionConstraint_MinVersion c = "")) as [Ec|Nc].
    + left. split; [done|]. intros c' [?| ->%list_elem_of_singleton]%elem_of_app; auto.
    + right. split_and!; [done|set_solver|].
      intros c' [I| ->%list_elem_of_singleton]%elem_of_app; [|done].
      rewrite (A c' I). apply version_le_empty.
  - right. destruct IH as [[? _]|(_ & I & A)]; [done|].
    destruct (0 <? compareSemver _ m) eqn:C; split_and!.
    + intros E. rewrite E in C. apply compareSemver_gt in C as G.
      pose proof (version_le_empty m) as L. apply compareSemver_le in L. congruence.
    + set_solver.
    + intros c' [I'| ->%list_elem_of_singleton]%elem_of_app; [|done].
      transitivity m; [by apply A|]. by apply compareSemver_gt.
    + done.
    + set_solver.
    + intros c' [I'| ->%list_elem_of_singleton]%elem_of_app; [by apply A|]. by apply compareSemver_le.
Qed.

Section runtime.
Context `{GoRuntime}.

Lemma select_versions_spec groups :
  match select_versions groups with
  | Ok resolved =>
      ResolvedVersion_Package <$> resolved = groups.*1 ∧
      Forall2 (λ r g, ResolvedVersion_Version r = max_min g.2 ∧ max_min g.2 ≠ "") resolved groups
  | Err _ => ∃ g, g ∈ groups ∧ max_min g.2 = ""
  end.
Proof.
  induction groups as [|[pkg cs] groups IH]; simpl; [by repeat constructor|].
  destruct (String.eqb_spec (max_min cs) "") as [E|N]; [exists (pkg, cs); split; [left|done]|].
  destruct (select_versions groups) as [resolved|err]; simpl.
  - destruct IH as [P F]. split; [by f_equal|]. by constructor.
  - destruct IH as (g & I & E). exists g. split; [by right|done].
Qed.

Lemma in_groups cs pkg l :
  (pkg, l) ∈ map_range (by_package cs) ↔ l = of_package pkg cs ∧ l ≠ [].
Proof.
  rewrite map_range_perm, elem_of_map_to_list, by_package_lookup.
  destruct (of_package pkg cs) eqn:E; naive_solver.
Qed.

Definition packages (cs : list VersionConstraint) : list string := VersionConstraint_Package <$> cs.

Lemma of_package_nil cs pkg : of_package pkg cs = [] ↔ pkg ∉ packages cs.
Proof.
  unfold of_package, packages. rewrite list_elem_of_fmap. split.
  - intros E (c & -> & I). assert (c ∈ filter (λ c', VersionConstraint_Package c' = VersionConstraint_Package c) cs) as F.
    { by apply list_elem_of_filter. }
    rewrite E in F. by apply not_elem_of_nil in F.
  - intros N. destruct (filter _ cs) as [|c l] eqn:E; [done|]. destruct N. exists c.
    assert (c ∈ c :: l) as I by left. rewrite <- E in I. by apply list_elem_of_filter in I as [<- ?].
Qed.

(** Some package is required without a version. *)
Definition unversioned (cs : list VersionConstraint) : Prop :=
  ∃ pkg, pkg ∈ packages cs ∧
    ∀ c, c ∈ cs → VersionConstraint_Package c = pkg → VersionConstraint_MinVersion c = "".

Lemma MVS_cases cs :
  match MVS cs with
  | Ok resolved =>
      StronglySorted str_le (ResolvedVersion_Package <$> resolved) ∧
      NoDup (ResolvedVersion_Package <$> resolved) ∧
      (∀ pkg, pkg ∈ ResolvedVersion_Package <$> resolved ↔ pkg ∈ packages cs) ∧
      ∀ r, r ∈ resolved → greatest (of_package (ResolvedVersion_Package r) cs) (ResolvedVersion_Version r)
  | Err _ => unversioned cs
  end.
Proof.
  unfold MVS. pose proof (select_versions_spec (map_range (by_package cs))) as S.
  destruct (select_versions _) as [resolved|err]; simpl.
  - destruct S as [P F].
    set (less := λ a b, str_ltb (ResolvedVersion_Package a) (ResolvedVersion_Package b)).
    assert (StronglySorted (λ a b, str_le (ResolvedVersion_Package a) (ResolvedVersion_Package b))
      (insertion_sort less resolved)) as So.
    { refine (insertion_sort_sorted less resolved).
      - intros a b c. apply (transitivity (R:=str_le)).
      - intros a b. apply (total str_le). }
    assert (∀ pkg, pkg ∈ (map_range (by_package cs)).*1 ↔ pkg ∈ packages cs) as Pk.
    { intros pkg. rewrite map_range_perm, list_elem_of_fmap. split.
      - intros ([? l] & -> & I). apply elem_of_map_to_list in I. rewrite by_package_lookup in I.
        simpl. apply dec_stable. rewrite <- of_package_nil. intros E. by rewrite E in I.
      - intros I. destruct (of_package pkg cs) as [|c l] eqn:E; [by apply of_package_nil in E|].
        exists (pkg, c :: l). split; [done|]. apply elem_of_map_to_list.
        by rewrite by_package_lookup, E. }
    split_and!.
    + clear -So. induction So as [|a l S IH Fa]; simpl; constructor; [done|]. by apply Forall_fmap.
    + rewrite insertion_sort_perm, P, map_range_perm. apply NoDup_fst_map_to_list.
    + intros pkg. by rewrite insertion_sort_perm, P.
    + intros r I. rewrite insertion_sort_perm in I. apply list_elem_of_lookup in I as [i I].
      destruct (Forall2_lookup_l _ _ _ _ _ F I) as ([pkg l] & G & V & N).
      assert (ResolvedVersion_Package r = pkg) as ->.
      { assert ((ResolvedVersion_Package <$> resolved) !! i = Some (ResolvedVersion_Package r)) as A
          by by rewrite list_lookup_fmap, I.
        rewrite P, list_lookup_fmap, G in A. by injection A. }
      apply list_elem_of_lookup_2, in_groups in G as [-> _]. simpl in *. rewrite V.
      by destruct (max_min_spec (of_package pkg cs)) as [[? _]|?].
  - destruct S as ([pkg l] & I & E). apply in_groups in I as [-> N]. exists pkg. split.
    + apply dec_stable. by rewrite <- of_package_nil.
    + intros c Ic <-. simpl in E.
      destruct (max_min_spec (of_package (VersionConstraint_Package c) cs)) as [[_ A]|[G _]]; [|done].
      apply A. by apply list_elem_of_filter.
Qed.

Lemma MVS_err cs : is_ok (MVS cs) = false ↔ unversioned cs.
Proof.
  pose proof (MVS_cases cs) as C. destruct (MVS cs) as [resolved|err]; [|done].
  split; [done|]. intros (pkg & I & E). destruct C as (_ & _ & P & G).
  apply P, list_elem_of_fmap in I as (r & -> & Ir).
  destruct (G r Ir) as (N & (c & Ec & Ic)%list_elem_of_fmap & _).
  apply list_elem_of_filter in Ic as [Ep Ic]. destruct N. by rewrite Ec, (E c Ic Ep).
Qed.

(** A version satisfies the constraints on a package. *)
Definition satisfies (cs : list VersionConstraint) (pkg v : string) : Prop :=
  ∀ c, c ∈ cs → VersionConstraint_Package c = pkg → version_le (VersionConstraint_MinVersion c) v.

(** Minimal version selection: it fails exactly when some package is
    required without any version, and otherwise selects one version for each
    required package, in the order of packages and whatever the order of the
    map it iterates: the least one that satisfies the constraints. *)
Theorem mvs_selects_least (cs : list VersionConstraint) :
  match MVS cs with
  | Ok resolved =>
      StronglySorted str_le (ResolvedVersion_Package <$> resolved) ∧
      NoDup (ResolvedVersion_Package <$> resolved) ∧
      (∀ pkg, pkg ∈ ResolvedVersion_Package <$> resolved ↔ pkg ∈ packages cs) ∧
      (∀ r, r ∈ resolved →
         satisfies cs (ResolvedVersion_Package r) (ResolvedVersion_Version r) ∧
         ∀ v, satisfies cs (ResolvedVersion_Package r) v → version_le (ResolvedVersion_Version r) v) ∧
      ¬ unversioned cs
  | Err _ => unversioned cs
  end.
Proof.
  pose proof (MVS_cases cs) as C. pose proof (MVS_err cs) as M.
  destruct (MVS cs) as [resolved|err]; [|done]. destruct C as (S & N & P & G).
  split_and!; [done..| |by intros U; apply M in U].
  intros r I. destruct (G r I) as (_ & (c & -> & Ic)%list_elem_of_fmap & A). split.
  - intros c' I' E. apply A. by apply list_elem_of_filter.
  - intros v V. apply list_elem_of_filter in Ic as [E Ic]. by apply V.
Qed.

(** * Conflicts *)

Lemma package_conflicts_nil pkg cs :
  package_conflicts pkg cs = [] ↔ ∀ a b, a ∈ cs → b ∈ cs → major a = major b.
Proof.
  induction cs as [|c cs IH]; simpl; [split; [by intros _ a b ?%not_elem_of_nil|done]|].
  assert (flat_map (conflict_of pkg c) cs = [] ↔ ∀ b, b ∈ cs → major c = major b) as Fc.
  { clear IH. induction cs as [|b cs IH]; simpl; [split; [by intros _ b ?%not_elem_of_nil|done]|].
    unfold conflict_of at 1. destruct (Z.eqb_spec (major c) (major b)) as [E|N]; simpl.
    - rewrite IH. set_solver.
    - split; [done|]. intros A. destruct N. apply A. left. }
  split.
  - intros [F P]%app_eq_nil. pose proof (proj1 Fc F) as F1. pose proof (proj1 IH P) as P1.
    intros a b [->|Ia]%elem_of_cons [->|Ib]%elem_of_cons; auto. symmetry. auto.
  - intros A. rewrite (proj2 Fc), (proj2 IH); [done| |]; intros; apply A; set_solver.
Qed.

Lemma DetectConflicts_nil cs :
  DetectConflicts cs = [] ↔
  ∀ a b, a ∈ cs → b ∈ cs → VersionConstraint_Package a = VersionConstraint_Package b →
    major a = major b.
Proof.
  unfold DetectConflicts. split.
  - intros E a b Ia Ib P.
    assert (∀ pkg l, (pkg, l) ∈ map_range (by_package cs) → package_conflicts pkg l = []) as A.
    { revert E. induction (map_range (by_package cs)) as [|[pkg l] gs IH]; simpl.
      - by intros _ pkg l ?%not_elem_of_nil.
      - intros [E1 E2]%app_eq_nil pkg' l' [[= -> ->]|I]%elem_of_cons; auto. }
    eapply package_conflicts_nil; [apply (A (VersionConstraint_Package b))| |].
    + apply in_groups. split; [done|]. intros N. apply of_package_nil in N. destruct N.
      unfold packages. by apply list_elem_of_fmap_2.
    + by apply list_elem_of_filter.
    + by apply list_elem_of_filter.
  - intros A.
    assert (∀ pkg l, (pkg, l) ∈ map_range (by_package cs) → package_conflicts pkg l = []) as C.
    { intros pkg l I. apply in_groups in I as [-> _]. apply package_conflicts_nil.
      intros a b [Ea Ia]%list_elem_of_filter [Eb Ib]%list_elem_of_filter. apply A; congruence. }
    revert C. induction (map_range (by_package cs)) as [|[pkg l] gs IH]; intros C; simpl; [done|].
    rewrite (C pkg l), IH; [done| |left]. intros pkg' l' I. apply C. by right.
Qed.

(** Constraints validate exactly when every required package has a version
    and no two constraints on a package have different major versions. *)
Lemma validate_constraints_exact (cs : list VersionConstraint) :
  ValidateConstraints cs = Ok tt ↔
  ¬ unversioned cs ∧
  ∀ a b, a ∈ cs → b ∈ cs → VersionConstraint_Package a = VersionConstraint_Package b →
    major a = major b.
Proof.
  unfold ValidateConstraints. rewrite <- MVS_err, <- DetectConflicts_nil.
  destruct (MVS cs); simpl; [|naive_solver]. destruct (DetectConflicts cs); naive_solver.
Qed.
End runtime.
