(* ===== verification/Graphs.v ===== *)
(** Finite graphs given by lists of edges: occurrences in lists, the nodes that
    are stuck behind a cycle, and paths. Shared by the components that order a
    graph: pipelines, the workflows of the operator and the import graph. *)
From S2P Require Import Prelude.
Open Scope Z_scope.

(** The element of a Go map of integers, zero when it is missing. *)
Definition count_of (incoming : gmap string Z) (name : string) : Z := default 0 (incoming !! name).

(** * Occurrences in lists *)

Definition occ (x : string) (l : list string) : nat := length (filter (λ y, y = x) l).
(** How many elements of [l] are in [L], and how many are not. *)
Definition among (L l : list string) : nat := length (filter (λ y, y ∈ L) l).
Definition outside (L l : list string) : nat := length (filter (λ y, y ∉ L) l).

Lemma occ_app x l1 l2 : occ x (l1 ++ l2) = (occ x l1 + occ x l2)%nat.
Proof. unfold occ. by rewrite filter_app, length_app. Qed.

Lemma occ_cons x y l : occ x (y :: l) = ((if decide (y = x) then 1 else 0) + occ x l)%nat.
Proof. unfold occ. rewrite filter_cons. by destruct (decide (y = x)). Qed.

Lemma filter_length_pos {A} (P : A → Prop) `{∀ x, Decision (P x)} l :
  (0 < length (filter P l))%nat ↔ ∃ x, x ∈ l ∧ P x.
Proof.
  split.
  - intros L. destruct (filter P l) as [|x l'] eqn:E; [simpl in L; lia|].
    assert (x ∈ filter P l) as I by (rewrite E; left). apply list_elem_of_filter in I. naive_solver.
  - intros (x & I & Px). assert (x ∈ filter P l) as I' by by apply list_elem_of_filter.
    destruct (filter P l); [by apply not_elem_of_nil in I'|simpl; lia].
Qed.

Lemma filter_length_impl {A} (P Q : A → Prop) `{∀ x, Decision (P x)} `{∀ x, Decision (Q x)} l :
  (∀ x, P x → Q x) → (length (filter P l) ≤ length (filter Q l))%nat.
Proof.
  intros I. induction l as [|x l IH]; [done|]. rewrite !filter_cons. specialize (I x).
  do 2 case_decide; simpl; first [lia | exfalso; auto].
Qed.

Lemma filter_length_impl_lt {A} (P Q : A → Prop) `{∀ x, Decision (P x)} `{∀ x, Decision (Q x)} l y :
  (∀ x, P x → Q x) → y ∈ l → Q y → ¬ P y → (length (filter P l) < length (filter Q l))%nat.
Proof.
  intros I In Qy Py. induction l as [|x l IH]; [by apply not_elem_of_nil in In|].
  rewrite !filter_cons. apply elem_of_cons in In as [->|In].
  - destruct (decide (P x)), (decide (Q x)); try done. simpl. by apply le_n_S, filter_length_impl.
  - specialize (I x). specialize (IH In). do 2 case_decide; simpl; first [lia | exfalso; auto].
Qed.

Lemma occ_pos x l : (0 < occ x l)%nat ↔ x ∈ l.
Proof. unfold occ. rewrite filter_length_pos. naive_solver. Qed.

Lemma among_pos L l : (0 < among L l)%nat ↔ ∃ x, x ∈ l ∧ x ∈ L.
Proof. apply filter_length_pos. Qed.

Lemma outside_pos L l : (0 < outside L l)%nat ↔ ∃ x, x ∈ l ∧ x ∉ L.
Proof. apply filter_length_pos. Qed.

Lemma outside_zero L l : outside L l = 0%nat ↔ ∀ x, x ∈ l → x ∈ L.
Proof.
  split.
  - intros Z x I. apply dec_stable. intros N. assert (0 < outside L l)%nat; [|lia].
    apply outside_pos. by exists x.
  - intros A. destruct (decide (0 < outside L l)%nat) as [P|]; [|lia].
    apply outside_pos in P as (x & I & N). by destruct N; apply A.
Qed.

Lemma outside_nil l : outside [] l = length l.
Proof.
  unfold outside. f_equal. induction l as [|x l IH]; [done|].
  rewrite filter_cons, IH. destruct (decide (x ∉ [])) as [|C]; [done|]. destruct C. apply not_elem_of_nil.
Qed.

Lemma among_nil l : among [] l = 0%nat.
Proof.
  unfold among. induction l as [|x l IH]; [done|].
  rewrite filter_cons. destruct (decide (x ∈ [])) as [C|]; [by apply not_elem_of_nil in C|done].
Qed.

Lemma outside_app done L l : (∀ x, x ∈ L → x ∉ done) →
  (outside (done ++ L) l + among L l = outside done l)%nat.
Proof.
  intros D. unfold outside, among. induction l as [|x l IH]; [done|]. rewrite !filter_cons.
  specialize (D x). repeat case_decide; simpl; try lia; set_solver.
Qed.

Lemma among_cons d L l : d ∉ L → among (d :: L) l = (occ d l + among L l)%nat.
Proof.
  intros N. unfold among, occ. induction l as [|x l IH]; [done|]. rewrite !filter_cons.
  repeat case_decide; simpl; try lia; set_solver.
Qed.

Lemma occ_flat_map (adj : string → list string) (deps : string → list string) L x :
  (∀ d, d ∈ L → occ x (adj d) = occ d (deps x)) → NoDup L →
  occ x (flat_map adj L) = among L (deps x).
Proof.
  intros A N. induction N as [|d L Nd N IH]; simpl.
  { by rewrite among_nil. }
  rewrite occ_app, among_cons by done. rewrite (A d), IH; [done| |left]. intros d' I. apply A. by right.
Qed.

(** * Cycles *)

(** * What is left to visit *)

Lemma left_none (x : string) (A V : gset string) : x ∈ A → x ∉ V → ¬ (size (A ∖ V) ≤ 0)%nat.
Proof.
  intros I N Sz. assert (size (A ∖ V) = 0%nat) as E by lia. apply size_empty_inv in E.
  assert (x ∈ A ∖ V) as D by (by apply elem_of_difference). by apply E, not_elem_of_empty in D.
Qed.

Lemma left_less (x : string) (A V : gset string) : x ∈ A → x ∉ V →
  (size (A ∖ ({[x]} ∪ V)) < size (A ∖ V))%nat.
Proof.
  intros I N. apply subset_size, strict_spec_alt. split; [set_solver|]. intros E.
  assert (x ∈ A ∖ V) as D by (by apply elem_of_difference). rewrite <- E in D. set_solver.
Qed.

Lemma left_more (A V V' : gset string) : V ⊆ V' → (size (A ∖ V') ≤ size (A ∖ V))%nat.
Proof. intros S. apply subseteq_size. set_solver. Qed.

(** * Lists of lists *)

Lemma NoDup_concat_in {A} (ls : list (list A)) l : NoDup (concat ls) → l ∈ ls → NoDup l.
Proof.
  induction ls as [|l' ls IH]; simpl; [by intros _ ?%not_elem_of_nil|].
  intros (N & _ & N')%NoDup_app [-> | I]%elem_of_cons; [done|by apply IH].
Qed.

Lemma NoDup_concat_filter {A} (f : list A → bool) ls : NoDup (concat ls) → NoDup (concat (List.filter f ls)).
Proof.
  induction ls as [|l ls IH]; simpl; [done|]. intros (N & D & N')%NoDup_app.
  destruct (f l); simpl; [|by apply IH]. apply NoDup_app. split_and!; [done| |by apply IH].
  intros x Ix I. apply (D x Ix). apply list_elem_of_In, in_concat in I as (l' & I' & Ix').
  apply filter_In in I' as [I' _]. apply list_elem_of_In, in_concat. by exists l'.
Qed.

(** The first step of a path. *)
Lemma tc_step {A} (R : relation A) x z : tc R x z → ∃ y, R x y ∧ rtc R y z.
Proof. inversion 1 as [? ? E|? y ? E T]; subst; [by exists z|]. exists y. split; [done|by apply tc_rtc]. Qed.

(** Where every step has a dependency that is stuck too, there is a cycle. *)
Lemma stuck_cycle (R : string → string → Prop) (C : gset string) :
  C ≢ ∅ → (∀ x, x ∈ C → ∃ d, R x d ∧ d ∈ C) → ∃ x, tc R x x.
Proof.
  intros Ne S.
  assert (∀ n (V : gset string) y, size (C ∖ V) = n → y ∈ C → y ∉ V → (∀ v, v ∈ V → tc R v y) →
    ∃ x, tc R x x) as W.
  { induction n as [|n IH]; intros V y Sz Iy Ny Rv.
    - apply size_empty_inv in Sz. set_solver.
    - destruct (S y Iy) as (z & Ryz & Iz).
      destruct (decide (z = y)) as [->|Nz]; [exists y; by apply tc_once|].
      destruct (decide (z ∈ V)) as [Vz|Vz].
      { exists z. eapply tc_r; [by apply Rv|done]. }
      apply (IH ({[y]} ∪ V) z).
      + assert (C ∖ V = {[y]} ∪ (C ∖ ({[y]} ∪ V))) as E.
        { apply set_eq. intros x. destruct (decide (x = y)); set_solver. }
        rewrite E, size_union, size_singleton in Sz by set_solver. lia.
      + done.
      + set_solver.
      + intros v [->%elem_of_singleton|Iv]%elem_of_union; [by apply tc_once|].
        eapply tc_r; [by apply Rv|done]. }
  destruct (set_choose C Ne) as [y Iy]. apply (W _ ∅ y eq_refl Iy); set_solver.
Qed.
