(* ===== verification/Loop.v ===== *)
(** The LLM abstraction (internal/llm/client.go, tokens.go, fallback.go,
    provider.go): messages, requests and responses, the interface of a client,
    the tracker of a token budget and the chain of fallback clients.

    A client is a third party: the class [Client] is the interface Client over
    a world [W], which stands for everything a call may read or change.
    Contexts and logging are left out; an error is its text. *)
From S2P Require Import Prelude GoStd Ir.
Open Scope Z_scope.

(** * Messages *)

Definition RoleUser : string := "user".
Definition RoleAssistant : string := "assistant".
Definition StopToolUse : string := "tool_use".

(** ToolCall represents the LLM requesting a tool invocation. *)
Record ToolCall := mkToolCall {
  ToolCall_ID : string;
  ToolCall_Name : string;
  ToolCall_Input : Attrs;
}.

(** ToolResult represents the result of a tool invocation sent back to the LLM. *)
Record ToolResult := mkToolResult {
  ToolResult_ToolUseID : string;
  ToolResult_Content : string;
  ToolResult_IsError : bool;
}.

(** Message represents a single message in a conversation. *)
Record Message := mkMessage {
  Message_Role : string;
  Message_Content : string;
  Message_ToolCalls : list ToolCall;
  Message_ToolResult : option ToolResult;
}.

(** ToolDefinition describes a tool available to the LLM. *)
Record ToolDefinition := mkToolDefinition {
  ToolDefinition_Name : string;
  ToolDefinition_Description : string;
  ToolDefinition_InputSchema : Attrs;
}.

(** TokenUsage tracks token consumption for a single LLM call. *)
Record TokenUsage := mkTokenUsage {
  TokenUsage_InputTokens : Z;
  TokenUsage_OutputTokens : Z;
  TokenUsage_CacheRead : Z;
  TokenUsage_CacheWrite : Z;
}.

Definition zero_tokens : TokenUsage := mkTokenUsage 0 0 0 0.

(** Total returns the sum of the input and output tokens, an int. *)
Definition Total (u : TokenUsage) : Z := wrap64 (TokenUsage_InputTokens u + TokenUsage_OutputTokens u).

(** ChatRequest contains parameters for an LLM chat call. *)
Record ChatRequest := mkChatRequest {
  ChatRequest_Model : string;
  ChatRequest_Messages : list Message;
  ChatRequest_System : string;
  ChatRequest_Tools : list ToolDefinition;
  ChatRequest_MaxTokens : Z;
  ChatRequest_Temperature : option float64;
}.

(** ChatResponse contains the LLM's response to a chat request. *)
Record ChatResponse := mkChatResponse {
  ChatResponse_Content : string;
  ChatResponse_ToolCalls : list ToolCall;
  ChatResponse_StopReason : string;
  ChatResponse_Usage : TokenUsage;
}.

(** StreamEvent represents an incremental event during streaming. *)
Record StreamEvent := mkStreamEvent {
  StreamEvent_Type : string;
  StreamEvent_Text : string;
  StreamEvent_ToolCall : option ToolCall;
  StreamEvent_Response : option ChatResponse;
  StreamEvent_Error : option string;
}.

(** Client is the interface for LLM interactions. The channel of a stream is
    the list of the events it carries until it is closed. *)
Class Client (W : Type) := mkClient {
  Chat : ChatRequest → W → result string ChatResponse * W;
  ChatStream : ChatRequest → W → result string (list StreamEvent) * W;
}.

(** * Token budgets *)

(** TokenTracker tracks cumulative token usage and enforces budgets. *)
Record TokenTracker := mkTokenTracker {
  TokenTracker_budget : Z;
  TokenTracker_used : TokenUsage;
}.

(** NewTokenTracker creates a tracker with the given budget. *)
Definition NewTokenTracker (budget : Z) : TokenTracker := mkTokenTracker budget zero_tokens.

(** Add records token usage from a single LLM call; the sums are ints, which
    wrap around. *)
Definition Add (t : TokenTracker) (usage : TokenUsage) : TokenTracker :=
  let used := TokenTracker_used t in
  mkTokenTracker (TokenTracker_budget t)
    (mkTokenUsage
      (wrap64 (TokenUsage_InputTokens used + TokenUsage_InputTokens usage))
      (wrap64 (TokenUsage_OutputTokens used + TokenUsage_OutputTokens usage))
      (wrap64 (TokenUsage_CacheRead used + TokenUsage_CacheRead usage))
      (wrap64 (TokenUsage_CacheWrite used + TokenUsage_CacheWrite usage))).

(** CheckBudget returns an error if the budget would be exceeded by additional
    tokens. *)
Definition CheckBudget (t : TokenTracker) (additional : Z) : option string :=
  if TokenTracker_budget t <=? 0 then None
  else
    let total := wrap64 (Total (TokenTracker_used t) + additional) in
    if TokenTracker_budget t <? total
    then Some ("token budget exceeded: used " +:+ pretty (Total (TokenTracker_used t)) +:+
               " + requested " +:+ pretty additional +:+ " > budget " +:+ pretty (TokenTracker_budget t))
    else None.

(** Usage returns the current cumulative usage. *)
Definition Usage (t : TokenTracker) : TokenUsage := TokenTracker_used t.

(** Remaining returns the number of tokens remaining in the budget. *)
Definition Remaining (t : TokenTracker) : Z :=
  if TokenTracker_budget t <=? 0 then -1
  else
    let rem := wrap64 (TokenTracker_budget t - Total (TokenTracker_used t)) in
    if rem <? 0 then 0 else rem.

(** * Fallback *)

Section fallback.
Context {W : Type}.

(** FallbackClient wraps multiple LLM clients and tries them in order. *)
Record FallbackClient := mkFallbackClient {
  FallbackClient_clients : list (Client W);
  FallbackClient_models : list string;
  FallbackClient_OnFallback : option (string → string → W → W);
}.

(** modelName returns the model name for the client at the given index. *)
Definition modelName (f : FallbackClient) (i : nat) : string :=
  match FallbackClient_models f !! i with
  | Some name => name
  | None => "client-" +:+ pretty (Z.of_nat i)
  end.

(** The loop over the clients from index [i], with the errors so far. *)
Fixpoint try_clients {A} (f : FallbackClient) (call : Client W → W → result string A * W)
    (clients : list (Client W)) (i : nat) (errs : list string) (w : W) : result string A * W :=
  match clients with
  | [] => (Err ("all LLM clients failed: " +:+ Join errs "; "), w)
  | client :: clients =>
      let model := modelName f i in
      match call client w with
      | (Ok resp, w) => (Ok resp, w)
      | (Err err, w) =>
          let w :=
            match clients, FallbackClient_OnFallback f with
            | _ :: _, Some on => on model (modelName f (S i)) w
            | _, _ => w
            end in
          try_clients f call clients (S i) (errs ++ [model +:+ ": " +:+ err]) w
      end
  end.

(** Chat sends a request and returns the complete response, trying each client
    in order until one succeeds. *)
Definition FallbackClient_Chat (f : FallbackClient) (req : ChatRequest) (w : W) :
    result string ChatResponse * W :=
  try_clients f (λ c, @Chat W c req) (FallbackClient_clients f) 0 [] w.

(** ChatStream, likewise. *)
Definition FallbackClient_ChatStream (f : FallbackClient) (req : ChatRequest) (w : W) :
    result string (list StreamEvent) * W :=
  try_clients f (λ c, @ChatStream W c req) (FallbackClient_clients f) 0 [] w.

(** A chain is a client. *)
Definition fallback_client (f : FallbackClient) : Client W :=
  mkClient W (FallbackClient_Chat f) (FallbackClient_ChatStream f).
End fallback.
Global Arguments FallbackClient : clear implicits.

(** Agentic loops (internal/loop/loop.go, react.go, plan_execute.go,
    reflexion.go): what a strategy is given and returns, and the three
    strategies that call the model in a loop.

    The model and the tools are the interfaces [Client] and [ToolExecutor] over
    a world [W], which the loop threads through its calls in the order of the
    code; events go to a callback on the same world. Contexts, durations and
    the clock are left out. *)

(** ToolCallRecord is an audit record of a single tool invocation. *)
Record ToolCallRecord := mkToolCallRecord {
  ToolCallRecord_ID : string;
  ToolCallRecord_ToolName : string;
  ToolCallRecord_Input : Attrs;
  ToolCallRecord_Output : string;
  ToolCallRecord_Error : string;
}.

(** Invocation represents a single agent invocation request. *)
Record Invocation := mkInvocation {
  Invocation_AgentName : string;
  Invocation_Model : string;
  Invocation_System : string;
  Invocation_Input : string;
  Invocation_Messages : list Message;
  Invocation_Variables : gmap string string;
  Invocation_MaxTurns : Z;
  Invocation_MaxTokens : Z;
  Invocation_TokenBudget : Z;
  Invocation_Temperature : option float64;
  Invocation_Stream : bool;
}.

(** Response represents the result of an agent invocation. *)
Record Response := mkResponse {
  Response_Output : string;
  Response_ToolCalls : list ToolCallRecord;
  Response_Tokens : TokenUsage;
  Response_Turns : Z;
  Response_Error : string;
}.

(** ToolExecutor dispatches tool calls during the agentic loop. [Definitions]
    is [None] for an executor without that method. *)
Class ToolExecutor (W : Type) := mkToolExecutor {
  ExecuteConcurrent : list ToolCall → W → list ToolResult * W;
  Definitions : W → option (list ToolDefinition);
}.

(** How an execution fails: with an error, or with a panic, the index out of
    range of a result without its call. *)
Inductive failure :=
  | Failed (err : string)
  | Panicked.

Section loop.
Context {W : Type} `{!Client W} `{!ToolExecutor W}.
Context (onEvent : option (StreamEvent → W → W)).

Definition emit (e : StreamEvent) (w : W) : W :=
  match onEvent with Some f => f e w | None => w end.

Definition text_event (text : string) : StreamEvent := mkStreamEvent "text" text None None None.

(** The defaults of the limits. *)
Definition limit (n dflt : Z) : Z := if n <=? 0 then dflt else n.

Definition user_message (content : string) : Message := mkMessage RoleUser content [] None.
Definition assistant_message (content : string) (calls : list ToolCall) : Message :=
  mkMessage RoleAssistant content calls None.
Definition result_message (r : ToolResult) : Message := mkMessage RoleUser "" [] (Some r).

(** What a strategy carries from one call of the model to the next. *)
Record LoopState := mkLoopState {
  ls_messages : list Message;
  ls_records : list ToolCallRecord;
  ls_output : string;
  ls_tracker : TokenTracker;
  ls_turns : Z;
}.

Global Instance settable_LoopState : Settable LoopState := λ s,
  mkLoopState (ls_messages s) (ls_records s) (ls_output s) (ls_tracker s) (ls_turns s).

Definition respond (s : LoopState) (err : string) : Response :=
  mkResponse (ls_output s) (ls_records s) (Usage (ls_tracker s)) (ls_turns s) err.

(** A request of a strategy, with the tools of the executor. *)
Definition request (inv : Invocation) (maxTokens : Z) (messages : list Message) (w : W) : ChatRequest :=
  mkChatRequest (Invocation_Model inv) messages (Invocation_System inv) (default [] (Definitions w))
    maxTokens (Invocation_Temperature inv).

(** A request with one user message, without tools. *)
Definition prompt_request (inv : Invocation) (system : string) (maxTokens : Z) (prompt : string) : ChatRequest :=
  mkChatRequest (Invocation_Model inv) [user_message prompt] system [] maxTokens None.

(** The tools are called for; otherwise the answer is final. *)
Definition wants_tools (resp : ChatResponse) : bool :=
  negb (length (ChatResponse_ToolCalls resp) =? 0)%nat &&
  String.eqb (ChatResponse_StopReason resp) StopToolUse.

(** The loop over the results of the tools: each is recorded, announced and
    added to the conversation; a result without a call is an index out of
    range. [errors] tells whether the error of a result is recorded, and
    [announce] whether an event is sent. *)
Fixpoint record_results (errors announce : bool) (results : list ToolResult) (calls : list ToolCall)
    (s : LoopState) (w : W) : option LoopState * W :=
  match results, calls with
  | [], _ => (Some s, w)
  | _ :: _, [] => (None, w)
  | r :: results, tc :: calls =>
      let record := mkToolCallRecord (ToolCall_ID tc) (ToolCall_Name tc) (ToolCall_Input tc)
        (ToolResult_Content r)
        (if errors && ToolResult_IsError r then ToolResult_Content r else "") in
      let w :=
        if announce
        then emit (mkStreamEvent "tool_call_end" ""
               (Some (mkToolCall (ToolCall_ID tc) (ToolCall_Name tc) [])) None None) w
        else w in
      record_results errors announce results calls
        (s <| ls_records := ls_records s ++ [record] |>
           <| ls_messages := ls_messages s ++ [result_message r] |>) w
  end.

(** ExecuteConcurrent, and the loop over its results. *)
Definition use_tools (errors announce : bool) (calls : list ToolCall) (s : LoopState) (w : W) :
    option LoopState * W :=
  let '(results, w) := ExecuteConcurrent calls w in
  record_results errors announce results calls s w.

(** * ReAct *)

(** The loop over the events of a stream: the last response, or the first
    error. *)
Fixpoint drain (events : list StreamEvent) (resp : option ChatResponse) (w : W) :
    result string (option ChatResponse) * W :=
  match events with
  | [] => (Ok resp, w)
  | e :: events =>
      let w := emit e w in
      let resp := match StreamEvent_Response e with Some r => Some r | None => resp end in
      match StreamEvent_Error e with
      | Some err => (Err err, w)
      | None => drain events resp w
      end
  end.

(** The response of a turn, streamed or not; [turn] counts from zero. *)
Definition ask (inv : Invocation) (req : ChatRequest) (turn : Z) (w : W) : result string ChatResponse * W :=
  let n := pretty (turn + 1) in
  if Invocation_Stream inv && bool_decide (is_Some onEvent) then
    match ChatStream req w with
    | (Err err, w) => (Err ("react: stream turn " +:+ n +:+ ": " +:+ err), w)
    | (Ok events, w) =>
        match drain events None w with
        | (Err err, w) => (Err ("react: stream error turn " +:+ n +:+ ": " +:+ err), w)
        | (Ok None, w) => (Err ("react: stream turn " +:+ n +:+ ": no response received"), w)
        | (Ok (Some resp), w) => (Ok resp, w)
        end
    end
  else
    match Chat req w with
    | (Err err, w) => (Err ("react: turn " +:+ n +:+ ": " +:+ err), w)
    | (Ok resp, w) => (Ok resp, w)
    end.

(** What the response of the model changes first: usage and output. *)
Definition take_response (resp : ChatResponse) (s : LoopState) : LoopState :=
  let s := s <| ls_tracker := Add (ls_tracker s) (ChatResponse_Usage resp) |> in
  if String.eqb (ChatResponse_Content resp) "" then s
  else s <| ls_output := ChatResponse_Content resp |>.

(** The loop over the turns, [n] of which are left. *)
Fixpoint react_loop (n : nat) (inv : Invocation) (maxTokens turn : Z) (s : LoopState) (w : W) :
    result failure Response * W :=
  match n with
  | O => (Ok (respond s ""), w)
  | S n =>
      let s := s <| ls_turns := ls_turns s + 1 |> in
      match CheckBudget (ls_tracker s) maxTokens with
      | Some err => (Ok (respond s err), w)
      | None =>
          match ask inv (request inv maxTokens (ls_messages s) w) turn w with
          | (Err err, w) => (Err (Failed err), w)
          | (Ok resp, w) =>
              let s := take_response resp s in
              if negb (wants_tools resp) then (Ok (respond s ""), w)
              else
                let calls := ChatResponse_ToolCalls resp in
                let s := s <| ls_messages :=
                  ls_messages s ++ [assistant_message (ChatResponse_Content resp) calls] |> in
                match use_tools true true calls s w with
                | (None, w) => (Err Panicked, w)
                | (Some s, w) => react_loop n inv maxTokens (turn + 1) s w
                end
          end
      end
  end.

(** ReActStrategy.Execute runs the ReAct loop. *)
Definition ReAct_Execute (inv : Invocation) (w : W) : result failure Response * W :=
  let maxTurns := limit (Invocation_MaxTurns inv) 10 in
  let maxTokens := limit (Invocation_MaxTokens inv) 4096 in
  let messages := Invocation_Messages inv ++ [user_message (Invocation_Input inv)] in
  react_loop (Z.to_nat maxTurns) inv maxTokens 0
    (mkLoopState messages [] "" (NewTokenTracker (Invocation_TokenBudget inv)) 0) w.

(** * Plan and execute *)

Definition is_step_line (line : string) : bool :=
  let line := TrimSpace line in HasPrefix line "STEP " || HasPrefix line "Step ".

Definition countSteps (plan : string) : Z :=
  Z.of_nat (length (List.filter is_step_line (Split plan nl))).

(** The loop over the steps of the plan, [n] of which are left. *)
Fixpoint plan_loop (n : nat) (inv : Invocation) (maxTokens step : Z) (s : LoopState) (w : W) :
    result failure Response * W :=
  match n with
  | O => (Ok (respond s ""), w)
  | S n =>
      let s := s <| ls_turns := ls_turns s + 1 |> in
      match CheckBudget (ls_tracker s) maxTokens with
      | Some err => (Ok (respond s err), w)
      | None =>
          let stepPrompt := "Execute step " +:+ pretty (step + 1) +:+ " of the plan. Use available tools as needed." in
          let s := s <| ls_messages := ls_messages s ++ [user_message stepPrompt] |> in
          match Chat (request inv maxTokens (ls_messages s) w) w with
          | (Err err, w) => (Err (Failed ("execute step " +:+ pretty (step + 1) +:+ ": " +:+ err)), w)
          | (Ok resp, w) =>
              let calls := ChatResponse_ToolCalls resp in
              let s := take_response resp s in
              let s := s <| ls_messages :=
                ls_messages s ++ [assistant_message (ChatResponse_Content resp) calls] |> in
              match (if wants_tools resp then use_tools false false calls s w else (Some s, w)) with
              | (None, w) => (Err Panicked, w)
              | (Some s, w) => plan_loop n inv maxTokens (step + 1) s w
              end
          end
      end
  end.

(** PlanExecuteStrategy.Execute runs the Plan-and-Execute loop. *)
Definition PlanExecute_Execute (inv : Invocation) (w : W) : result failure Response * W :=
  let maxTurns := limit (Invocation_MaxTurns inv) 10 in
  let maxTokens := limit (Invocation_MaxTokens inv) 4096 in
  let planPrompt :=
    Invocation_System inv +:+ nl +:+ nl +:+
    "Create a step-by-step plan to accomplish the following task. " +:+
    "Format each step on a new line prefixed with 'STEP N:'. " +:+
    "After planning, I will execute each step." +:+ nl +:+ nl +:+ "Task: " +:+ Invocation_Input inv in
  match Chat (prompt_request inv "" maxTokens planPrompt) w with
  | (Err err, w) => (Err (Failed ("plan phase: " +:+ err)), w)
  | (Ok planResp, w) =>
      let plan := ChatResponse_Content planResp in
      let w := emit (text_event ("Plan:" +:+ nl +:+ plan +:+ nl +:+ nl)) w in
      let steps := if countSteps plan =? 0 then 1 else countSteps plan in
      plan_loop (Z.to_nat (Z.min steps (maxTurns - 1))) inv maxTokens 0
        (mkLoopState [user_message (Invocation_Input inv); assistant_message plan []] [] ""
           (Add (NewTokenTracker (Invocation_TokenBudget inv)) (ChatResponse_Usage planResp)) 1) w
  end.

(** * Reflexion *)

Section reflexion.
Context `{GoRuntime}.

(** The critique is taken for an approval. *)
Definition is_satisfactory (critique : string) : bool := Contains (ToUpper critique) "SATISFACTORY".

(** The loop of critiques and improvements, [n] iterations of which are left. *)
Fixpoint reflect_loop (n : nat) (inv : Invocation) (maxTokens iter : Z) (s : LoopState) (w : W) :
    LoopState * W :=
  match n with
  | O => (s, w)
  | S n =>
      match CheckBudget (ls_tracker s) maxTokens with
      | Some _ => (s, w)
      | None =>
          let critiquePrompt :=
            "Review your previous response and identify any issues, " +:+
            "inaccuracies, or areas for improvement. If the response is satisfactory, " +:+
            "respond with exactly 'SATISFACTORY'." +:+ nl +:+ nl +:+ "Previous response:" +:+ nl +:+ ls_output s in
          match Chat (prompt_request inv (Invocation_System inv) maxTokens critiquePrompt) w with
          | (Err _, w) => (s, w)
          | (Ok critiqueResp, w) =>
              let s := s <| ls_tracker := Add (ls_tracker s) (ChatResponse_Usage critiqueResp) |>
                         <| ls_turns := ls_turns s + 1 |> in
              let critique := TrimSpace (ChatResponse_Content critiqueResp) in
              if is_satisfactory critique then (s, w)
              else
                let w := emit (text_event
                  (nl +:+ "[Reflection " +:+ pretty (iter + 1) +:+ "]: " +:+ critique +:+ nl)) w in
                let improvePrompt :=
                  "Based on this critique, provide an improved response:" +:+ nl +:+ nl +:+
                  "Critique: " +:+ critique +:+ nl +:+ nl +:+ "Original task: " +:+ Invocation_Input inv in
                match Chat (prompt_request inv (Invocation_System inv) maxTokens improvePrompt) w with
                | (Err _, w) => (s, w)
                | (Ok improveResp, w) =>
                    reflect_loop n inv maxTokens (iter + 1)
                      (s <| ls_tracker := Add (ls_tracker s) (ChatResponse_Usage improveResp) |>
                         <| ls_turns := ls_turns s + 1 |>
                         <| ls_output := ChatResponse_Content improveResp |>) w
                end
          end
      end
  end.

(** The initial response, with one round of tools. *)
Definition initial_response (inv : Invocation) (maxTokens : Z) (w : W) : result failure LoopState * W :=
  let messages := Invocation_Messages inv ++ [user_message (Invocation_Input inv)] in
  let tools := default [] (Definitions w) in
  let req messages := mkChatRequest (Invocation_Model inv) messages (Invocation_System inv) tools
    maxTokens (Invocation_Temperature inv) in
  match Chat (req messages) w with
  | (Err err, w) => (Err (Failed ("reflexion initial: " +:+ err)), w)
  | (Ok resp, w) =>
      let s := mkLoopState messages [] (ChatResponse_Content resp)
        (Add (NewTokenTracker (Invocation_TokenBudget inv)) (ChatResponse_Usage resp)) 1 in
      if negb (wants_tools resp) then (Ok s, w)
      else
        let calls := ChatResponse_ToolCalls resp in
        let s := s <| ls_messages :=
          ls_messages s ++ [assistant_message (ChatResponse_Content resp) calls] |> in
        match use_tools false false calls s w with
        | (None, w) => (Err Panicked, w)
        | (Some s, w) =>
            match Chat (req (ls_messages s)) w with
            | (Err err, w) => (Err (Failed ("reflexion after tools: " +:+ err)), w)
            | (Ok resp, w) =>
                (Ok (s <| ls_tracker := Add (ls_tracker s) (ChatResponse_Usage resp) |>
                       <| ls_turns := ls_turns s + 1 |>
                       <| ls_output := ChatResponse_Content resp |>), w)
            end
        end
  end.

(** ReflexionStrategy.Execute runs the Reflexion loop. *)
Definition Reflexion_Execute (inv : Invocation) (w : W) : result failure Response * W :=
  let maxTurns := limit (Invocation_MaxTurns inv) 3 in
  let maxTokens := limit (Invocation_MaxTokens inv) 4096 in
  match initial_response inv maxTokens w with
  | (Err err, w) => (Err err, w)
  | (Ok s, w) =>
      let '(s, w) := reflect_loop (Z.to_nat (maxTurns - 1)) inv maxTokens 0 s w in
      (Ok (respond s ""), w)
  end.
End reflexion.
End loop.
