(* ===== verification/Pipeline.v ===== *)
(** Pipelines (internal/pipeline/dag.go, executor.go): the graph of steps, its
    layers, and the execution of the layers with an agent invoker.

    The steps of a layer run concurrently. What a run may do is a relation:
    the steps of a layer complete in any order, and a step sees the context
    cancelled only when something has cancelled it, a failed step of its layer
    or the caller. *)
From S2P Require Import Prelude GoStd Graphs Loop.
Open Scope Z_scope.

(** Step represents a single pipeline step with its dependencies. *)
Record Step := mkStep {
  Step_Name : string;
  Step_AgentRef : string;
  Step_Input : string;
  Step_Output : string;
  Step_Parallel : bool;
  Step_DependsOn : list string;
}.

(** DAG represents a directed acyclic graph of pipeline steps. *)
Record DAG := mkDAG {
  DAG_Steps : gmap string Step;
  DAG_Order : list (list string);
  DAG_Incoming : gmap string Z;
  DAG_Adjacency : gmap string (list string);
}.

Global Instance settable_DAG : Settable DAG := λ d,
  mkDAG (DAG_Steps d) (DAG_Order d) (DAG_Incoming d) (DAG_Adjacency d).

Section graph.
Context `{GoRuntime}.

(** * The graph *)

(** The loop that indexes the steps. *)
Fixpoint index_steps (steps : list Step) (dag : DAG) : result string DAG :=
  match steps with
  | [] => Ok dag
  | s :: steps =>
      match DAG_Steps dag !! Step_Name s with
      | Some _ => Err ("duplicate step " +:+ quote (Step_Name s))
      | None =>
          index_steps steps
            (dag <| DAG_Steps := <[Step_Name s := s]> (DAG_Steps dag) |>
                 <| DAG_Incoming := <[Step_Name s := 0]> (DAG_Incoming dag) |>)
      end
  end.

(** The edges of one step. *)
Fixpoint add_deps (name : string) (deps : list string) (dag : DAG) : result string DAG :=
  match deps with
  | [] => Ok dag
  | dep :: deps =>
      match DAG_Steps dag !! dep with
      | None => Err ("step " +:+ quote name +:+ " depends on unknown step " +:+ quote dep)
      | Some _ =>
          if String.eqb dep name then Err ("step " +:+ quote name +:+ " depends on itself")
          else
            add_deps name deps
              (dag <| DAG_Incoming := <[name := count_of (DAG_Incoming dag) name + 1]> (DAG_Incoming dag) |>
                   <| DAG_Adjacency :=
                      <[dep := default [] (DAG_Adjacency dag !! dep) ++ [name]]> (DAG_Adjacency dag) |>)
      end
  end.

Fixpoint add_edges (steps : list (string * Step)) (dag : DAG) : result string DAG :=
  match steps with
  | [] => Ok dag
  | (_, s) :: steps =>
      dag ← add_deps (Step_Name s) (Step_DependsOn s) dag;
      add_edges steps dag
  end.

(** * Kahn's algorithm *)

(** [incoming[dependent]--], and the dependent is queued at zero. *)
Definition decrement (acc : gmap string Z * list string) (dependent : string) : gmap string Z * list string :=
  let '(incoming, nextQueue) := acc in
  let n := count_of incoming dependent - 1 in
  (<[dependent := n]> incoming, if n =? 0 then nextQueue ++ [dependent] else nextQueue).

Definition visit_step (dag : DAG) (acc : gmap string Z * list string) (name : string) :
    gmap string Z * list string :=
  foldl decrement acc (default [] (DAG_Adjacency dag !! name)).

(** The loop over the queue, with the layers and the number of steps so far. *)
Fixpoint layer_loop (fuel : nat) (dag : DAG) (queue : list string) (incoming : gmap string Z)
    (layers : list (list string)) (processed : nat) : option (list (list string) * nat) :=
  match queue, fuel with
  | [], _ => Some (layers, processed)
  | _, O => None
  | _, S fuel =>
      let layer := sort_strings queue in
      let '(incoming, nextQueue) := foldl (visit_step dag) (incoming, []) layer in
      layer_loop fuel dag nextQueue incoming (layers ++ [layer]) (processed + length layer)
  end.

Definition topologicalSort (dag : DAG) : option (result string (list (list string))) :=
  let incoming := DAG_Incoming dag in
  let queue := (List.filter (λ '(_, n), n =? 0) (map_range incoming)).*1 in
  let total := size (DAG_Steps dag) in
  '(layers, processed) ← layer_loop (S total) dag queue incoming [] 0;
  Some (if (processed <? total)%nat then Err "cycle detected in pipeline dependencies" else Ok layers).

(** BuildDAG constructs a DAG from a list of pipeline steps. *)
Definition BuildDAG (steps : list Step) : option (result string DAG) :=
  match index_steps steps (mkDAG ∅ [] ∅ ∅) with
  | Err err => Some (Err err)
  | Ok dag =>
      match add_edges (map_range (DAG_Steps dag)) dag with
      | Err err => Some (Err err)
      | Ok dag =>
          order ← topologicalSort dag;
          Some (order ← order; Ok (dag <| DAG_Order := order |>))
      end
  end.
End graph.

(** * Execution *)

Definition addTokens (a b : TokenUsage) : TokenUsage :=
  mkTokenUsage (wrap64 (TokenUsage_InputTokens a + TokenUsage_InputTokens b))
    (wrap64 (TokenUsage_OutputTokens a + TokenUsage_OutputTokens b))
    (wrap64 (TokenUsage_CacheRead a + TokenUsage_CacheRead b))
    (wrap64 (TokenUsage_CacheWrite a + TokenUsage_CacheWrite b)).

(** StepResult holds the result of a single step; its duration is left out. *)
Record StepResult := mkStepResult {
  StepResult_StepName : string;
  StepResult_AgentRef : string;
  StepResult_Output : string;
  StepResult_Status : string;
  StepResult_Error : string;
  StepResult_Tokens : TokenUsage;
}.

(** The state of an execution: the results and total of PipelineResult, the
    outputs of the completed steps, whether a step of the layer failed, and
    whether the context is cancelled. *)
Record Exec := mkExec {
  ex_steps : gmap string StepResult;
  ex_tokens : TokenUsage;
  ex_outputs : gmap string string;
  ex_failed : bool;
  ex_cancelled : bool;
}.

Global Instance settable_Exec : Settable Exec := λ e,
  mkExec (ex_steps e) (ex_tokens e) (ex_outputs e) (ex_failed e) (ex_cancelled e).

Section execution.
Context (Invoke : bool → string → string → result string Response) (dag : DAG).

(** The input of a step: its own, else the output of its first dependency,
    else the input of the pipeline. *)
Definition step_input (step : Step) (outputs : gmap string string) : string :=
  let output_of name := default "" (outputs !! name) in
  let input :=
    match Step_Input step, Step_DependsOn step with
    | "", dep :: _ => output_of dep
    | input, _ => input
    end in
  if String.eqb input "" then output_of "trigger" else input.

(** executeStep; [sees] tells whether the invocation sees a cancelled context. *)
Definition executeStep (sees : bool) (step : Step) (outputs : gmap string string) : StepResult :=
  match Invoke sees (Step_AgentRef step) (step_input step outputs) with
  | Err err =>
      mkStepResult (Step_Name step) (Step_AgentRef step) "" "failed"
        ("invoke " +:+ Step_AgentRef step +:+ ": " +:+ err) zero_tokens
  | Ok resp =>
      mkStepResult (Step_Name step) (Step_AgentRef step) (Response_Output resp) "completed" ""
        (Response_Tokens resp)
  end.

(** What is done with the result of a step, under the mutex. *)
Definition finish (sn : string) (sr : StepResult) (e : Exec) : Exec :=
  let e := e <| ex_steps := <[sn := sr]> (ex_steps e) |>
             <| ex_tokens := addTokens (ex_tokens e) (StepResult_Tokens sr) |> in
  if String.eqb (StepResult_Status sr) "failed"
  then e <| ex_failed := true |> <| ex_cancelled := true |>
  else e <| ex_outputs := <[sn := StepResult_Output sr]> (ex_outputs e) |>.

(** The steps of a layer complete one after the other, in some order, each
    with the outputs from before the layer. The caller may cancel at any time. *)
Inductive complete (snapshot : gmap string string) : list string → Exec → Exec → Prop :=
  | complete_nil e : complete snapshot [] e e
  | complete_step sn layer layer' step sees e e' :
      layer ≡ₚ sn :: layer' → DAG_Steps dag !! sn = Some step →
      (sees = true → ex_cancelled e = true) →
      complete snapshot layer' (finish sn (executeStep sees step snapshot) e) e' →
      complete snapshot layer e e'
  | complete_cancel layer e e' :
      complete snapshot layer (e <| ex_cancelled := true |>) e' →
      complete snapshot layer e e'.

(** Execute, layer by layer, with the status of the result. *)
Inductive execute : list (list string) → Exec → string → Exec → Prop :=
  | execute_done e : execute [] e "completed" e
  | execute_cancelled layer layers e :
      ex_cancelled e = true → execute (layer :: layers) e "cancelled" e
  | execute_failed layer layers e e' :
      ex_cancelled e = false → complete (ex_outputs e) layer e e' → ex_failed e' = true →
      execute (layer :: layers) e "failed" e'
  | execute_layer layer layers e e' status e'' :
      ex_cancelled e = false → complete (ex_outputs e) layer e e' → ex_failed e' = false →
      execute layers e' status e'' → execute (layer :: layers) e status e''.

Definition start (triggerInput : string) : Exec :=
  mkExec ∅ zero_tokens {["trigger" := triggerInput]} false false.

(** Execute runs the pipeline. *)
Definition Execute (triggerInput status : string) (e : Exec) : Prop :=
  execute (DAG_Order dag) (start triggerInput) status e.
End execution.
