(* ===== verification/PipelineFacts.v ===== *)
(** The layers of a pipeline are a topological order: every step comes after
    the steps it depends on, as early as it can, and layers exist exactly for
    graphs without a cycle. *)
From S2P Require Import Prelude GoStd Graphs Loop Pipeline.
Open Scope Z_scope.

(** * One layer *)

Lemma decrement_all l acc :
  (∀ x, x ∈ l → Z.of_nat (occ x l) <= count_of acc.1 x) →
  let acc' := foldl decrement acc l in
  (∀ x, count_of acc'.1 x = count_of acc.1 x - Z.of_nat (occ x l)) ∧
  ∃ new, acc'.2 = acc.2 ++ new ∧ NoDup new ∧
    ∀ x, x ∈ new ↔ x ∈ l ∧ count_of acc.1 x = Z.of_nat (occ x l).
Proof.
  revert acc. induction l as [|y l IH]; intros [inc next] B; simpl in *.
  { split; [intros x; unfold occ; simpl; lia|]. exists []. rewrite app_nil_r.
    split_and!; [done|constructor|]. intros x. split; [by intros ?%not_elem_of_nil|]. by intros [?%not_elem_of_nil _]. }
  set (n := count_of inc y - 1). set (acc1 := (<[y:=n]> inc, if n =? 0 then next ++ [y] else next)).
  assert (∀ x, count_of acc1.1 x = count_of inc x - (if decide (y = x) then 1 else 0)) as C1.
  { intros x. unfold acc1, count_of, n. simpl. destruct (decide (y = x)) as [->|N].
    - by rewrite lookup_insert_eq.
    - rewrite lookup_insert_ne by done. lia. }
  assert (∀ x, Z.of_nat (occ x (y :: l)) = (if decide (y = x) then 1 else 0) + Z.of_nat (occ x l)) as O1.
  { intros x. rewrite occ_cons. destruct (decide (y = x)); lia. }
  destruct (IH acc1) as [Ci (new & En & Nn & Mn)].
  { intros x I. rewrite C1. specialize (B x ltac:(by right)). rewrite O1 in B. lia. }
  split.
  { intros x. rewrite Ci, C1, O1. lia. }
  assert (Z.of_nat (occ y l) <= n) as Bn.
  { specialize (B y ltac:(left)). rewrite O1 in B. destruct (decide (y = y)); [|done]. unfold n. lia. }
  assert (∀ x, x ∈ y :: l ∧ count_of inc x = Z.of_nat (occ x (y :: l)) ↔
    (x = y ∧ n = 0) ∨ x ∈ new) as M.
  { intros x. rewrite Mn, C1, O1, elem_of_cons. destruct (decide (y = x)) as [<-|N].
    - unfold n in *. pose proof (occ_pos y l) as P. split.
      + intros [_ E]. destruct (decide (y ∈ l)) as [I|I]; [right; split; [done|lia]|].
        left. split; [done|]. assert (¬ (0 < occ y l)%nat) by by rewrite P. lia.
      + intros [[_ E]|[I E]]; (split; [by left|lia]).
    - split; [intros [[->|I] E]; [done|]; right; split; [done|lia]|].
      intros [[-> _]|[I E]]; [done|]. split; [by right|lia]. }
  assert (acc1.2 = next ++ (if n =? 0 then [y] else [])) as E2.
  { unfold acc1. simpl. by destruct (n =? 0); rewrite ?app_nil_r. }
  rewrite E2, <- app_assoc in En. exists ((if n =? 0 then [y] else []) ++ new).
  split; [done|]. destruct (Z.eqb_spec n 0) as [E0|N0]; simpl.
  - split.
    + constructor; [|done]. rewrite Mn. intros [I _]. apply occ_pos in I. lia.
    + intros x. rewrite M, elem_of_cons. naive_solver.
  - split; [done|]. intros x. rewrite M. naive_solver.
Qed.

Lemma visit_layer dag layer acc :
  foldl (visit_step dag) acc layer =
    foldl decrement acc (flat_map (λ name, default [] (DAG_Adjacency dag !! name)) layer).
Proof.
  revert acc. induction layer as [|n l IH]; intros acc; simpl; [done|]. by rewrite IH, foldl_app.
Qed.

(** * Kahn's algorithm on a graph that counts its edges *)

(** The graph of [deps] on [names]. *)
Record counts_edges (names : list string) (deps : string → list string) (dag : DAG) : Prop := {
  ce_names : ∀ n, n ∈ names ↔ is_Some (DAG_Steps dag !! n);
  ce_incoming : ∀ n c, DAG_Incoming dag !! n = Some c ↔ n ∈ names ∧ c = Z.of_nat (length (deps n));
  ce_adjacency : ∀ d x, occ x (default [] (DAG_Adjacency dag !! d)) =
    if decide (x ∈ names) then occ d (deps x) else 0%nat;
  ce_known : ∀ x d, x ∈ names → d ∈ deps x → d ∈ names;
}.

(** Step [x] of layer [i] comes after its dependencies, and right after one of
    them. *)
Definition placed (deps : string → list string) (layers : list (list string)) (i : nat) (x : string) : Prop :=
  (∀ d, d ∈ deps x → ∃ j l, (j < i)%nat ∧ layers !! j = Some l ∧ d ∈ l) ∧
  (∀ j, i = S j → ∃ d l, d ∈ deps x ∧ layers !! j = Some l ∧ d ∈ l).

Section kahn.
Context (names : list string) (deps : string → list string) (dag : DAG).
Context (Hce : counts_edges names deps dag) (Nn : NoDup names).

Record kahn (queue : list string) (incoming : gmap string Z) (layers : list (list string))
    (processed : nat) : Prop := {
  k_nodup : NoDup (concat layers ++ queue);
  k_names : ∀ x, x ∈ concat layers ++ queue → x ∈ names;
  k_count : ∀ x, x ∈ names → count_of incoming x = Z.of_nat (outside (concat layers) (deps x));
  k_ready : ∀ x, x ∈ names →
    x ∈ concat layers ++ queue ↔ outside (concat layers) (deps x) = 0%nat;
  k_processed : processed = length (concat layers);
  k_sorted : Forall (StronglySorted str_le) layers;
  k_placed : ∀ i l x, layers !! i = Some l → x ∈ l → placed deps layers i x;
  k_queue : ∀ x j, x ∈ queue → length layers = S j →
    ∃ d l, d ∈ deps x ∧ layers !! j = Some l ∧ d ∈ l;
}.

Lemma adjacency_other x L : x ∉ names →
  occ x (flat_map (λ d, default [] (DAG_Adjacency dag !! d)) L) = 0%nat.
Proof.
  intros N. induction L as [|d L IH]; [done|]. simpl. rewrite occ_app, IH.
  rewrite (ce_adjacency _ _ _ Hce). by destruct (decide _).
Qed.

Lemma adjacency_among x L : x ∈ names → NoDup L →
  occ x (flat_map (λ d, default [] (DAG_Adjacency dag !! d)) L) = among L (deps x).
Proof.
  intros I N. apply (occ_flat_map (λ d, default [] (DAG_Adjacency dag !! d)) deps); [|done].
  intros d _. rewrite (ce_adjacency _ _ _ Hce). by rewrite decide_True by done.
Qed.

Lemma placed_app layers layers' i x : placed deps layers i x → placed deps (layers ++ layers') i x.
Proof.
  intros [A B]. split.
  - intros d I. destruct (A d I) as (j & l & Lt & E & Id). exists j, l.
    split_and!; [done| |done]. by apply lookup_app_l_Some.
  - intros j E. destruct (B j E) as (d & l & I & El & Id). exists d, l.
    split_and!; [done| |done]. by apply lookup_app_l_Some.
Qed.

Lemma concat_snoc (layers : list (list string)) l : concat (layers ++ [l]) = concat layers ++ l.
Proof. by rewrite concat_app; simpl; rewrite app_nil_r. Qed.

(** What a round computes: the new counts, and the steps queued next are those
    whose last dependencies are in the layer. *)
Lemma kahn_round queue incoming layers processed : kahn queue incoming layers processed →
  let layer := sort_strings queue in
  let acc := foldl (visit_step dag) (incoming, []) layer in
  (∀ x, x ∈ names → count_of acc.1 x = Z.of_nat (outside (concat layers ++ layer) (deps x))) ∧
  NoDup acc.2 ∧
  ∀ x, x ∈ acc.2 ↔ x ∈ names ∧ (0 < among layer (deps x))%nat ∧
    outside (concat layers ++ layer) (deps x) = 0%nat.
Proof.
  intros K. cbv zeta. set (layer := sort_strings queue). rewrite visit_layer.
  set (flat := flat_map (λ d, default [] (DAG_Adjacency dag !! d)) layer).
  pose proof (k_nodup _ _ _ _ K) as Nd. apply NoDup_app in Nd as (Nl & Dj & Nq).
  assert (∀ x, x ∈ names → occ x flat = among layer (deps x) ∧
    (outside (concat layers ++ layer) (deps x) + among layer (deps x) =
     outside (concat layers) (deps x))%nat) as Os.
  { intros x I. split.
    - apply adjacency_among; [done|]. unfold layer. by rewrite sort_strings_perm.
    - apply outside_app. intros y. unfold layer. rewrite elem_of_sort_strings. naive_solver. }
  assert (∀ x, x ∈ flat → x ∈ names) as Inf.
  { intros x I. apply dec_stable. intros N. apply occ_pos in I. unfold flat in I.
    rewrite adjacency_other in I by done. lia. }
  destruct (decrement_all flat (incoming, [])) as [Ci (new & En & Nnew & Mn)].
  { intros x I%Inf. simpl. rewrite (k_count _ _ _ _ K) by done. destruct (Os x I). lia. }
  simpl in *. rewrite En. split_and!; [|done|].
  - intros x I. rewrite Ci, (k_count _ _ _ _ K) by done. destruct (Os x I). lia.
  - intros x. rewrite Mn. split.
    + intros [I E]. pose proof (Inf x I) as Ix. apply occ_pos in I.
      rewrite (k_count _ _ _ _ K) in E by done. destruct (Os x Ix). split; [done|lia].
    + intros (Ix & P & E). rewrite (k_count _ _ _ _ K) by done. rewrite <- occ_pos.
      destruct (Os x Ix). lia.
Qed.

(** The steps of the queue are placed in the next layer. *)
Lemma kahn_placed queue incoming layers processed x : kahn queue incoming layers processed →
  x ∈ sort_strings queue → placed deps (layers ++ [sort_strings queue]) (length layers) x.
Proof.
  intros K I. rewrite elem_of_sort_strings in I.
  assert (x ∈ concat layers ++ queue) as J by (apply elem_of_app; by right).
  pose proof (k_names _ _ _ _ K x J) as Ix. apply (k_ready _ _ _ _ K x Ix) in J.
  rewrite outside_zero in J. split.
  - intros d Id. apply J in Id as (l & Il & Idl)%list_elem_of_In%in_concat.
    apply list_elem_of_In in Idl. apply list_elem_of_In, list_elem_of_lookup in Il as [j Ej].
    exists j, l. split_and!; [by eapply lookup_lt_Some| |done]. by apply lookup_app_l_Some.
  - intros j Ej. destruct (k_queue _ _ _ _ K x j I Ej) as (d & l & Id & El & Idl).
    exists d, l. split_and!; [done| |done]. by apply lookup_app_l_Some.
Qed.

Lemma kahn_step queue incoming layers processed : kahn queue incoming layers processed →
  let layer := sort_strings queue in
  let acc := foldl (visit_step dag) (incoming, []) layer in
  kahn acc.2 acc.1 (layers ++ [layer]) (processed + length layer).
Proof.
  intros K. destruct (kahn_round _ _ _ _ K) as (Ci & Nnew & Mn). cbv zeta in *.
  set (layer := sort_strings queue) in *.
  set (acc := foldl (visit_step dag) (incoming, []) layer) in *. clearbody acc.
  assert (layer ≡ₚ queue) as Lq by apply sort_strings_perm.
  pose proof (k_nodup _ _ _ _ K) as Nd. rewrite <- Lq in Nd.
  assert (∀ x, x ∈ concat layers ++ layer → x ∈ names) as In.
  { intros x I. apply (k_names _ _ _ _ K). by rewrite <- Lq. }
  assert (∀ x, x ∈ names → x ∈ concat layers ++ layer ↔ outside (concat layers) (deps x) = 0%nat) as Rd.
  { intros x I. rewrite <- (k_ready _ _ _ _ K x I), !elem_of_app, Lq. done. }
  assert (∀ x, (outside (concat layers ++ layer) (deps x) + among layer (deps x) =
    outside (concat layers) (deps x))%nat) as Os.
  { intros x. apply outside_app. apply NoDup_app in Nd. set_solver. }
  constructor; try rewrite !concat_snoc.
  - apply NoDup_app. split_and!; [done| |done].
    intros x I (Ix & P & _)%Mn. apply (Rd x Ix) in I. specialize (Os x). lia.
  - intros x [I|(I & _)%Mn]%elem_of_app; auto.
  - done.
  - intros x I. rewrite elem_of_app, Mn, (Rd x I). specialize (Os x). split; [lia|].
    intros E. destruct (decide (0 < among layer (deps x))%nat); [by right|left; lia].
  - rewrite length_app, (k_processed _ _ _ _ K). done.
  - apply Forall_app. split; [apply (k_sorted _ _ _ _ K)|]. repeat constructor. apply sort_strings_sorted.
  - intros i l x E I. apply lookup_app_Some in E as [E|[Le E]].
    { apply placed_app. by apply (k_placed _ _ _ _ K i l x). }
    apply list_lookup_singleton_Some in E as [E <-].
    assert (i = length layers) as -> by lia. by apply (kahn_placed _ _ _ _ x K).
  - intros x j I E. rewrite length_app in E. simpl in E. assert (j = length layers) as -> by lia.
    apply Mn in I as (_ & (d & Id & Il)%among_pos & _).
    exists d, layer. split_and!; [done| |done]. by rewrite lookup_app_r, Nat.sub_diag by lia.
Qed.

(** The loop ends, with every step it can reach placed. *)
Lemma layer_loop_spec fuel queue incoming layers processed :
  kahn queue incoming layers processed → (length names < fuel + length (concat layers))%nat →
  ∃ layers' incoming', layer_loop fuel dag queue incoming layers processed =
      Some (layers', length (concat layers')) ∧
    kahn [] incoming' layers' (length (concat layers')).
Proof.
  revert queue incoming layers processed.
  induction fuel as [|fuel IH]; intros queue incoming layers processed K Lt.
  - exfalso. pose proof (k_nodup _ _ _ _ K) as Nd.
    assert (length (concat layers ++ queue) ≤ length names)%nat as L.
    { apply submseteq_length, NoDup_submseteq; [done|]. apply (k_names _ _ _ _ K). }
    rewrite length_app in L. lia.
  - destruct queue as [|q queue].
    { pose proof (k_processed _ _ _ _ K) as ->. by exists layers, incoming. }
    pose proof (kahn_step _ _ _ _ K) as K'. cbv zeta in K'.
    cbn [layer_loop]. set (layer := sort_strings (q :: queue)) in *.
    destruct (foldl (visit_step dag) (incoming, []) layer) as [incoming' next].
    apply (IH _ _ _ _ K'). rewrite concat_snoc, length_app.
    assert (length layer = S (length queue)) as ->; [|lia].
    unfold layer. by rewrite sort_strings_perm.
Qed.

Lemma concat_length_le layers incoming p : kahn [] incoming layers p →
  (length (concat layers) ≤ length names)%nat.
Proof.
  intros K. apply submseteq_length, NoDup_submseteq.
  - pose proof (k_nodup _ _ _ _ K) as N. by rewrite app_nil_r in N.
  - intros x I. apply (k_names _ _ _ _ K). by rewrite app_nil_r.
Qed.

(** All steps are placed, or the steps that are not depend on one another. *)
Lemma kahn_done layers incoming p : kahn [] incoming layers p →
  if (length (concat layers) <? length names)%nat
  then ∃ stuck : gset string, stuck ≢ ∅ ∧ (∀ x, x ∈ stuck → x ∈ names) ∧
    ∀ x, x ∈ stuck → ∃ d, d ∈ deps x ∧ d ∈ stuck
  else concat layers ≡ₚ names.
Proof.
  intros K. pose proof (k_nodup _ _ _ _ K) as N. rewrite app_nil_r in N.
  assert (concat layers ⊆+ names) as Sub.
  { apply NoDup_submseteq; [done|]. intros x I. apply (k_names _ _ _ _ K). by rewrite app_nil_r. }
  destruct (Nat.ltb_spec (length (concat layers)) (length names)) as [Lt|Ge].
  - assert (∀ x, x ∈ (list_to_set (filter (λ x, x ∉ concat layers) names) : gset string) ↔
      x ∈ names ∧ x ∉ concat layers) as M.
    { intros x. rewrite elem_of_list_to_set, list_elem_of_filter. naive_solver. }
    exists (list_to_set (filter (λ x, x ∉ concat layers) names)). split_and!.
    + intros E. assert (length names ≤ length (concat layers))%nat; [|lia].
      apply submseteq_length, NoDup_submseteq; [done|]. intros x I. apply dec_stable. intros Nx.
      assert (x ∈ (∅ : gset string)) as C; [|by apply not_elem_of_empty in C].
      rewrite <- E. by apply M.
    + intros x [? _]%M. done.
    + intros x [I Nx]%M. pose proof (k_ready _ _ _ _ K x I) as R. rewrite app_nil_r in R.
      assert (0 < outside (concat layers) (deps x))%nat as P.
      { destruct (decide (0 < outside (concat layers) (deps x))%nat); [done|]. destruct Nx. apply R. lia. }
      apply outside_pos in P as (d & Id & Nd). exists d. split; [done|]. apply M. split; [|done].
      by apply (ce_known _ _ _ Hce x).
  - by apply submseteq_length_Permutation.
Qed.
End kahn.

(** * Cycles *)

(** Where every step is placed, there is none. *)
Lemma placed_acyclic (deps : string → list string) layers :
  NoDup (concat layers) →
  (∀ i l x, layers !! i = Some l → x ∈ l → placed deps layers i x) →
  (∀ x, x ∉ concat layers → deps x = []) →
  ∀ x, ¬ tc (λ x d, d ∈ deps x) x x.
Proof.
  intros N P D.
  assert (∀ i j l l' x, layers !! i = Some l → layers !! j = Some l' → x ∈ l → x ∈ l' → i = j) as U.
  { clear P D. induction layers as [|a layers IH]; intros i j l l' x Ei Ej Ii Ij; [done|].
    simpl in N. apply NoDup_app in N as (_ & Dj & N).
    assert (∀ k m, layers !! k = Some m → x ∈ m → x ∈ concat layers) as Ic.
    { intros k m Em Im. apply list_elem_of_In, in_concat. exists m.
      split; apply list_elem_of_In; [by eapply list_elem_of_lookup_2|done]. }
    destruct i as [|i], j as [|j]; simpl in *; simplify_eq.
    - done.
    - destruct (Dj x Ii). by eapply Ic.
    - destruct (Dj x Ij). by eapply Ic.
    - f_equal. by eapply IH. }
  assert (∀ x y, tc (λ x d, d ∈ deps x) x y → ∀ i l, layers !! i = Some l → x ∈ l →
    ∃ j l', (j < i)%nat ∧ layers !! j = Some l' ∧ y ∈ l') as W.
  { intros x y T. induction T as [x y Rxy|x y z Rxy T IH]; intros i l E I.
    - destruct (P i l x E I) as [A _]. by apply A.
    - destruct (P i l x E I) as [A _]. destruct (A y Rxy) as (j & l' & Lt & E' & I').
      destruct (IH j l' E' I') as (k & l'' & Lt' & E'' & I''). exists k, l''. split_and!; [lia|done|done]. }
  intros x T. destruct (decide (x ∈ concat layers)) as [I|Nx].
  - apply list_elem_of_In, in_concat in I as (l & Il & Ix). apply list_elem_of_In in Il, Ix.
    apply list_elem_of_lookup in Il as [i Ei].
    destruct (W x x T i l Ei Ix) as (j & l' & Lt & Ej & Ij).
    assert (i = j) by by eapply U. lia.
  - assert (∃ y, y ∈ deps x) as [y I] by (inversion T; eauto).
    rewrite (D x Nx) in I. by apply not_elem_of_nil in I.
Qed.

(** * Building the graph *)

Section build.
Context `{GoRuntime}.

Definition find_step (name : string) (steps : list Step) : option Step :=
  List.find (λ s, String.eqb (Step_Name s) name) steps.

(** What the steps named [x] depend on. *)
Definition deps_of (steps : list Step) (x : string) : list string :=
  match find_step x steps with Some s => Step_DependsOn s | None => [] end.

Definition step_names (steps : list Step) : list string := Step_Name <$> steps.

Lemma find_step_Some name steps s :
  find_step name steps = Some s → s ∈ steps ∧ Step_Name s = name.
Proof.
  unfold find_step. intros F. apply List.find_some in F as [I E].
  apply String.eqb_eq in E. by apply list_elem_of_In in I.
Qed.

Lemma find_step_elem steps s : NoDup (step_names steps) → s ∈ steps → find_step (Step_Name s) steps = Some s.
Proof.
  unfold find_step, step_names. intros N I. induction steps as [|s' steps IH]; [by apply not_elem_of_nil in I|].
  simpl in *. apply NoDup_cons in N as [Nx N]. apply elem_of_cons in I as [->|I]; [by rewrite String.eqb_refl|].
  destruct (String.eqb_spec (Step_Name s') (Step_Name s)) as [E|_]; [|by apply IH].
  destruct Nx. rewrite E. by apply list_elem_of_fmap_2.
Qed.

Lemma index_steps_spec steps dag :
  match index_steps steps dag with
  | Ok dag' =>
      NoDup (step_names steps) ∧ (∀ s, s ∈ steps → DAG_Steps dag !! Step_Name s = None) ∧
      (∀ n, DAG_Steps dag' !! n =
         match find_step n steps with Some s => Some s | None => DAG_Steps dag !! n end) ∧
      (∀ n, DAG_Incoming dag' !! n =
         match find_step n steps with Some s => Some 0 | None => DAG_Incoming dag !! n end) ∧
      DAG_Adjacency dag' = DAG_Adjacency dag
  | Err _ => ¬ (NoDup (step_names steps) ∧ ∀ s, s ∈ steps → DAG_Steps dag !! Step_Name s = None)
  end.
Proof.
  revert dag. induction steps as [|s steps IH]; intros dag; simpl.
  { split_and!; try done; [constructor|]. by intros s ?%not_elem_of_nil. }
  destruct (DAG_Steps dag !! Step_Name s) as [s'|] eqn:L.
  { intros [_ A]. specialize (A s ltac:(left)). congruence. }
  match goal with |- context [index_steps steps ?d] => specialize (IH d); set (dag1 := d) in * end.
  assert (∀ n, DAG_Steps dag1 !! n = if decide (Step_Name s = n) then Some s else DAG_Steps dag !! n) as L1.
  { intros n. unfold dag1. simpl. destruct (decide (Step_Name s = n)) as [<-|N].
    - by rewrite lookup_insert_eq.
    - by rewrite lookup_insert_ne. }
  assert ((∀ s', s' ∈ steps → DAG_Steps dag1 !! Step_Name s' = None) ↔
    Step_Name s ∉ step_names steps ∧ ∀ s', s' ∈ steps → DAG_Steps dag !! Step_Name s' = None) as A1.
  { setoid_rewrite L1. split.
    - intros A. split.
      + intros (s' & E & I)%list_elem_of_fmap. specialize (A s' I). by rewrite decide_True in A.
      + intros s' I. specialize (A s' I). by destruct (decide _).
    - intros [N A] s' I. rewrite decide_False by (intros E; destruct N; rewrite E; by apply list_elem_of_fmap_2).
      by apply A. }
  destruct (index_steps steps dag1) as [dag'|err].
  - destruct IH as (N & A & Ls & Li & Ad). apply A1 in A as [Ns A]. split_and!.
    + by constructor.
    + intros s' [->|I]%elem_of_cons; [done|by apply A].
    + intros n. rewrite Ls, L1. unfold find_step. simpl. fold (find_step n steps).
      destruct (String.eqb_spec (Step_Name s) n) as [<-|Nn]; [|by rewrite decide_False by done].
      rewrite decide_True by done. destruct (find_step (Step_Name s) steps) as [s'|] eqn:F; [|done].
      apply find_step_Some in F as [I E]. destruct Ns. rewrite <- E. by apply list_elem_of_fmap_2.
    + intros n. rewrite Li. unfold find_step. simpl. fold (find_step n steps).
      destruct (String.eqb_spec (Step_Name s) n) as [<-|Nn].
      * rewrite lookup_insert_eq. by destruct (find_step _ steps).
      * by rewrite lookup_insert_ne.
    + done.
  - intros [N A]. apply IH. split; [by inversion N|]. apply A1.
    apply NoDup_cons in N as [Ns N]. split; [done|]. intros s' I. apply A. by right.
Qed.

Lemma add_deps_spec name deps dag c : DAG_Incoming dag !! name = Some c →
  match add_deps name deps dag with
  | Ok dag' =>
      DAG_Steps dag' = DAG_Steps dag ∧
      (∀ d, d ∈ deps → is_Some (DAG_Steps dag !! d) ∧ d ≠ name) ∧
      (∀ n, DAG_Incoming dag' !! n =
         if decide (name = n) then Some (c + Z.of_nat (length deps)) else DAG_Incoming dag !! n) ∧
      ∀ d x, occ x (default [] (DAG_Adjacency dag' !! d)) =
        (occ x (default [] (DAG_Adjacency dag !! d)) + if decide (name = x) then occ d deps else 0)%nat
  | Err _ => ∃ d, d ∈ deps ∧ (DAG_Steps dag !! d = None ∨ d = name)
  end.
Proof.
  revert dag c. induction deps as [|dep deps IH]; intros dag c L; simpl.
  { split_and!; [done|by intros d ?%not_elem_of_nil| |].
    - intros n. rewrite Z.add_0_r. by destruct (decide (name = n)) as [<-|].
    - intros d x. destruct (decide _); unfold occ; simpl; lia. }
  destruct (DAG_Steps dag !! dep) as [s|] eqn:Ld; [|exists dep; split; [left|by left]].
  destruct (String.eqb_spec dep name) as [->|Ne]; [exists name; split; [left|by right]|].
  match goal with |- context [add_deps name deps ?d] => specialize (IH d (c + 1)); set (dag1 := d) in * end.
  destruct (add_deps name deps dag1) as [dag'|err].
  - destruct IH as (S & K & I & A).
    { unfold dag1, count_of. simpl. by rewrite lookup_insert_eq, L. }
    split_and!.
    + done.
    + intros d [->|Id]%elem_of_cons; [by rewrite Ld|by apply K].
    + intros n. rewrite I. destruct (decide (name = n)) as [->|N]; [f_equal; lia|].
      unfold dag1. simpl. by rewrite lookup_insert_ne.
    + intros d x. rewrite A, occ_cons. unfold dag1. simpl.
      destruct (decide (dep = d)) as [->|Nd]; [rewrite lookup_insert_eq|by rewrite lookup_insert_ne].
      simpl. rewrite occ_app. unfold occ at 2. simpl.
      rewrite filter_cons, filter_nil. destruct (decide (name = x)); simpl; lia.
  - destruct IH as (d & I & E).
    { unfold dag1, count_of. simpl. by rewrite lookup_insert_eq, L. }
    exists d. split; [by right|done].
Qed.

Definition step_map (l : list (string * Step)) : gmap string Step := list_to_map l.

Lemma add_edges_spec l dag :
  NoDup l.*1 → (∀ n s, (n, s) ∈ l → Step_Name s = n ∧ is_Some (DAG_Incoming dag !! n)) →
  match add_edges l dag with
  | Ok dag' =>
      DAG_Steps dag' = DAG_Steps dag ∧
      (∀ n s d, (n, s) ∈ l → d ∈ Step_DependsOn s → is_Some (DAG_Steps dag !! d) ∧ d ≠ n) ∧
      (∀ n, DAG_Incoming dag' !! n =
         match step_map l !! n with
         | Some s => Some (count_of (DAG_Incoming dag) n + Z.of_nat (length (Step_DependsOn s)))
         | None => DAG_Incoming dag !! n
         end) ∧
      ∀ d x, occ x (default [] (DAG_Adjacency dag' !! d)) =
        (occ x (default [] (DAG_Adjacency dag !! d)) +
         match step_map l !! x with Some s => occ d (Step_DependsOn s) | None => 0 end)%nat
  | Err _ => ∃ n s d, (n, s) ∈ l ∧ d ∈ Step_DependsOn s ∧ (DAG_Steps dag !! d = None ∨ d = n)
  end.
Proof.
  revert dag. induction l as [|[n s] l IH]; intros dag Nd Inc; simpl.
  { split_and!; [done|by intros n s d ?%not_elem_of_nil|done|]. intros d x. unfold step_map. simpl.
    rewrite lookup_empty. lia. }
  simpl in Nd. apply NoDup_cons in Nd as [Nn Nd].
  assert (step_map l !! n = None) as Ln by by apply not_elem_of_list_to_map.
  destruct (Inc n s) as [E [c L]]; [left|]. subst n.
  pose proof (add_deps_spec _ (Step_DependsOn s) dag c L) as D.
  destruct (add_deps (Step_Name s) (Step_DependsOn s) dag) as [dag1|err]; simpl.
  2:{ destruct D as (d & I & O). exists (Step_Name s), s, d. split_and!; [left|done|done]. }
  destruct D as (S1 & K1 & I1 & A1). specialize (IH dag1 Nd).
  destruct (add_edges l dag1) as [dag'|err].
  - destruct IH as (S2 & K2 & I2 & A2).
    { intros n' s' I. destruct (Inc n' s') as [E' Is]; [by right|]. split; [done|]. rewrite I1.
      by destruct (decide _). }
    rewrite S1 in *. split_and!.
    + done.
    + intros n' s' d [[= -> ->]|I]%elem_of_cons Id; [by apply K1|by apply (K2 n' s')].
    + intros n'. rewrite I2. unfold step_map in *. simpl. destruct (decide (Step_Name s = n')) as [<-|N].
      * rewrite lookup_insert_eq, Ln, I1. rewrite decide_True by done. unfold count_of. by rewrite L.
      * rewrite lookup_insert_ne by done. unfold count_of. rewrite I1. by rewrite decide_False.
    + intros d x. rewrite A2, A1. unfold step_map in *. simpl. destruct (decide (Step_Name s = x)) as [<-|N].
      * rewrite lookup_insert_eq, Ln. lia.
      * rewrite lookup_insert_ne by done. lia.
  - destruct IH as (n' & s' & d & I & Id & O).
    { intros n' s' I. destruct (Inc n' s') as [E' Is]; [by right|]. split; [done|]. rewrite I1.
      by destruct (decide _). }
    rewrite S1 in O. exists n', s', d. split_and!; [by right|done|done].
Qed.

(** ** What BuildDAG accepts *)

(** A list of steps is well-formed: different names, and known dependencies. *)
Definition well_formed (steps : list Step) : Prop :=
  NoDup (step_names steps) ∧
  ∀ x d, d ∈ deps_of steps x → d ∈ step_names steps ∧ d ≠ x.

Lemma find_step_None name steps : find_step name steps = None ↔ name ∉ step_names steps.
Proof.
  unfold find_step, step_names. induction steps as [|s steps IH]; simpl.
  { split; [by intros _ ?%not_elem_of_nil|done]. }
  rewrite not_elem_of_cons, <- IH. destruct (String.eqb_spec (Step_Name s) name); [naive_solver|].
  split; [|naive_solver]. intros F. split; [congruence|done].
Qed.

(** After the two loops, the graph counts the edges of the steps, or the steps
    are not well-formed. *)
Lemma build_counts steps :
  match index_steps steps (mkDAG ∅ [] ∅ ∅) with
  | Err _ => ¬ NoDup (step_names steps)
  | Ok dag =>
      match add_edges (map_range (DAG_Steps dag)) dag with
      | Err _ => ¬ well_formed steps
      | Ok dag' => well_formed steps ∧ counts_edges (step_names steps) (deps_of steps) dag' ∧
          ∀ n, DAG_Steps dag' !! n = find_step n steps
      end
  end.
Proof.
  pose proof (index_steps_spec steps (mkDAG ∅ [] ∅ ∅)) as Ix.
  destruct (index_steps steps _) as [dag|err].
  2:{ intros N. apply Ix. split; [done|]. intros s _. apply lookup_empty. }
  destruct Ix as (N & _ & Ls & Li & Ad). simpl in *.
  assert (∀ n, DAG_Steps dag !! n = find_step n steps) as Ls'.
  { intros n. rewrite Ls, lookup_empty. by destruct (find_step n steps). }
  assert (step_map (map_range (DAG_Steps dag)) = DAG_Steps dag) as Em.
  { unfold step_map. rewrite <- (list_to_map_to_list (DAG_Steps dag)) at 2.
    apply list_to_map_proper; [|apply map_range_perm].
    rewrite map_range_perm. apply NoDup_fst_map_to_list. }
  assert (∀ n s, (n, s) ∈ map_range (DAG_Steps dag) ↔ find_step n steps = Some s) as Ir.
  { intros n s. by rewrite map_range_perm, elem_of_map_to_list, Ls'. }
  pose proof (add_edges_spec (map_range (DAG_Steps dag)) dag) as D.
  destruct (add_edges _ dag) as [dag'|err].
  - destruct D as (S & K & I & A).
    { rewrite map_range_perm. apply NoDup_fst_map_to_list. }
    { intros n s F%Ir. rewrite Li, F. apply find_step_Some in F as [_ ?]. split; [done|]. by eexists. }
    assert (well_formed steps) as W.
    { split; [done|]. intros x d. unfold deps_of. destruct (find_step x steps) as [s|] eqn:F;
        [|by intros ?%not_elem_of_nil]. intros Id. destruct (K x s d) as [Kd Nd]; [by apply Ir|done|].
      split; [|done]. rewrite Ls' in Kd. apply dec_stable. rewrite <- find_step_None. by intros E; rewrite E in Kd; destruct Kd. }
    rewrite Em in *. split_and!; [done| |by intros n; rewrite S].
    assert (∀ n, n ∈ step_names steps ↔ is_Some (find_step n steps)) as In.
    { intros n. rewrite <- not_eq_None_Some, find_step_None. split; [by intros ? ?|apply dec_stable]. }
    constructor.
    + intros n. by rewrite S, Ls', In.
    + intros n c. rewrite I, Ls', Li, lookup_empty, In. unfold count_of. rewrite Li. unfold deps_of.
      destruct (find_step n steps) as [s|]; simpl; [|by split; [|intros [[? ?] _]]].
      rewrite Z.add_0_l. split; [intros [= <-]; by split; [eexists|]|by intros [_ ->]].
    + intros d x. rewrite A, Ad, lookup_empty, Ls'. unfold deps_of. simpl.
      destruct (decide (x ∈ step_names steps)) as [Ix|Nx].
      * apply In in Ix as [s ->]. done.
      * apply find_step_None in Nx. by rewrite Nx.
    + intros x d _ Id. by destruct (proj2 W x d Id).
  - intros [_ W]. destruct D as (n & s & d & F%Ir & Id & O).
    { rewrite map_range_perm. apply NoDup_fst_map_to_list. }
    { intros n s F%Ir. rewrite Li, F. apply find_step_Some in F as [_ ?]. split; [done|]. by eexists. }
    destruct (W n d) as [Ik Nd]; [unfold deps_of; by rewrite F|].
    destruct O as [O|O]; [|done]. rewrite Ls' in O. by apply find_step_None in O.
Qed.

(** Kahn's algorithm starts from the steps without dependencies. *)
Lemma kahn_start steps dag : NoDup (step_names steps) → counts_edges (step_names steps) (deps_of steps) dag →
  kahn (step_names steps) (deps_of steps)
    (List.filter (λ '(_, n), n =? 0) (map_range (DAG_Incoming dag))).*1 (DAG_Incoming dag) [] 0.
Proof.
  intros N C. set (queue := (List.filter _ _).*1).
  assert (∀ x, x ∈ queue ↔ x ∈ step_names steps ∧ deps_of steps x = []) as Q.
  { intros x. unfold queue. rewrite list_elem_of_fmap. split.
    - intros ([x' c] & -> & [I E]%list_elem_of_In%List.filter_In).
      apply list_elem_of_In in I. rewrite map_range_perm, elem_of_map_to_list in I.
      apply (ce_incoming _ _ _ C) in I as [I ->]. split; [done|]. apply Z.eqb_eq in E. simpl.
      destruct (deps_of steps x'); [done|simpl in E; lia].
    - intros [I E]. exists (x, 0). split; [done|]. apply list_elem_of_In, List.filter_In. split; [|done].
      apply list_elem_of_In. rewrite map_range_perm, elem_of_map_to_list.
      apply (ce_incoming _ _ _ C). by rewrite E. }
  constructor; simpl.
  - unfold queue. assert (NoDup (map_range (DAG_Incoming dag)).*1) as Nm.
    { rewrite map_range_perm. apply NoDup_fst_map_to_list. }
    revert Nm. generalize (map_range (DAG_Incoming dag)). clear.
    induction l as [|[x c] l IH]; simpl; intros Nm; [constructor|].
    apply NoDup_cons in Nm as [Nx Nm]. destruct (c =? 0); simpl; [|by apply IH].
    constructor; [|by apply IH]. intros (y & -> & [I _]%list_elem_of_In%List.filter_In)%list_elem_of_fmap.
    destruct Nx. apply list_elem_of_fmap_2. by apply list_elem_of_In.
  - intros x [I _]%Q. done.
  - intros x I. unfold count_of. rewrite outside_nil.
    assert (DAG_Incoming dag !! x = Some (Z.of_nat (length (deps_of steps x)))) as ->; [|done].
    by apply (ce_incoming _ _ _ C).
  - intros x I. rewrite outside_nil, Q. split; [by intros [_ ->]|]. intros E. split; [done|].
    by apply nil_length_inv.
  - done.
  - constructor.
  - intros i l x E. by rewrite lookup_nil in E.
  - done.
Qed.

(** The steps have a cycle of dependencies. *)
Definition cyclic (steps : list Step) : Prop := ∃ x, tc (λ x d, d ∈ deps_of steps x) x x.

Definition layered (steps : list Step) (order : list (list string)) : Prop :=
  concat order ≡ₚ step_names steps ∧ Forall (StronglySorted str_le) order ∧
  ∀ i l x, order !! i = Some l → x ∈ l → placed (deps_of steps) order i x.

Lemma deps_of_unknown steps x : x ∉ step_names steps → deps_of steps x = [].
Proof. intros N. unfold deps_of. by apply find_step_None in N as ->. Qed.

Lemma build_cases steps :
  (∃ dag, BuildDAG steps = Some (Ok dag) ∧ well_formed steps ∧ ¬ cyclic steps ∧
     layered steps (DAG_Order dag) ∧ ∀ n, DAG_Steps dag !! n = find_step n steps) ∨
  (∃ err, BuildDAG steps = Some (Err err) ∧ ¬ (well_formed steps ∧ ¬ cyclic steps)).
Proof.
  unfold BuildDAG. pose proof (build_counts steps) as B.
  destruct (index_steps steps _) as [dag|err]; [|right; exists err; split; [done|by intros [[N _] _]]].
  destruct (add_edges _ dag) as [dag'|err]; [|right; exists err; split; [done|by intros [W _]]].
  destruct B as (W & C & Ls). pose proof W as [N _].
  pose proof (kahn_start steps dag' N C) as K. unfold topologicalSort.
  assert (size (DAG_Steps dag') = length (step_names steps)) as Sz.
  { assert (dom (DAG_Steps dag') = list_to_set (step_names steps)) as D.
    { apply set_eq. intros x. rewrite elem_of_dom, elem_of_list_to_set, (ce_names _ _ _ C). done. }
    rewrite <- size_dom, D. by apply size_list_to_set. }
  destruct (layer_loop_spec _ _ _ C N (S (size (DAG_Steps dag'))) _ _ _ _ K) as (layers & inc & -> & K').
  { rewrite Sz. simpl. lia. }
  simpl. rewrite Sz. pose proof (kahn_done _ _ _ C N _ _ _ K') as Dn.
  destruct (length (concat layers) <? length (step_names steps))%nat; simpl.
  - right. eexists. split; [done|]. intros [_ Ac]. apply Ac.
    destruct Dn as (stuck & Ne & _ & S). by apply (stuck_cycle _ stuck).
  - left. eexists. split; [done|]. simpl. split_and!; [done| | |done].
    + intros [x T]. revert T. apply (placed_acyclic (deps_of steps) layers).
      * by rewrite Dn.
      * apply (k_placed _ _ _ _ _ _ K').
      * intros y. rewrite Dn. apply deps_of_unknown.
    + split_and!; [done|apply (k_sorted _ _ _ _ _ _ K')|apply (k_placed _ _ _ _ _ _ K')].
Qed.

(** C40. BuildDAG returns, and accepts exactly the pipelines whose steps have
    different names, depend on other declared steps and have no cycle of
    dependencies. The layers of an accepted pipeline hold every step once, in
    ascending order within a layer; every step that a step depends on is in an
    earlier layer, and a step that is not in the first layer depends on one of
    the layer just before its own. *)
Theorem build_dag_exact (steps : list Step) :
  (∃ r, BuildDAG steps = Some r) ∧
  ((∃ dag, BuildDAG steps = Some (Ok dag)) ↔ well_formed steps ∧ ¬ cyclic steps) ∧
  ∀ dag, BuildDAG steps = Some (Ok dag) →
    concat (DAG_Order dag) ≡ₚ (Step_Name <$> steps) ∧ Forall (StronglySorted str_le) (DAG_Order dag) ∧
    ∀ i l x, DAG_Order dag !! i = Some l → x ∈ l →
      (∀ d, d ∈ deps_of steps x → ∃ j l', (j < i)%nat ∧ DAG_Order dag !! j = Some l' ∧ d ∈ l') ∧
      (∀ j, i = S j → ∃ d l', d ∈ deps_of steps x ∧ DAG_Order dag !! j = Some l' ∧ d ∈ l').
Proof.
  destruct (build_cases steps) as [(dag & -> & W & C & L & _)|(err & -> & N)]; (split; [by eexists|]).
  - split; [split; [done|by eexists]|]. intros ? [= <-]. exact L.
  - split; [|done]. split; [by intros []|naive_solver].
Qed.

(** The layers of an accepted pipeline hold every step once, in ascending
    order within a layer; a step is in a later layer than all the steps it
    depends on, and in the first such layer. *)
Lemma build_dag_layers (steps : list Step) (dag : DAG) (B : BuildDAG steps = Some (Ok dag)) :
  concat (DAG_Order dag) ≡ₚ step_names steps ∧ Forall (StronglySorted str_le) (DAG_Order dag) ∧
  ∀ i l x, DAG_Order dag !! i = Some l → x ∈ l → placed (deps_of steps) (DAG_Order dag) i x.
Proof. destruct (build_cases steps) as [(dag' & E & _ & _ & L & _)|(err & E & _)]; naive_solver. Qed.
End build.

Definition diamond : list Step :=
  [mkStep "end" "z" "" "" false ["left"; "right"]; mkStep "left" "x" "" "" true ["begin"];
   mkStep "begin" "w" "" "" false []; mkStep "right" "y" "" "" true ["begin"; "begin"]].

Definition diamond_dag : DAG :=
  match @BuildDAG ascii_runtime diamond with
  | Some (Ok dag) => dag
  | _ => mkDAG ∅ [] ∅ ∅
  end.

Lemma build_dag_layers_witness :
  DAG_Order diamond_dag = [["begin"]; ["left"; "right"]; ["end"]] ∧
  concat (DAG_Order diamond_dag) ≡ₚ step_names diamond.
Proof.
  split; [by vm_compute|]. apply (@build_dag_layers ascii_runtime diamond diamond_dag). by vm_compute.
Defined.
