(* ===== verification/PipelineRun.v ===== *)
(** Running a pipeline: whatever the order in which the concurrent steps of a
    layer complete, each step gets the input that the graph says. *)
From S2P Require Import Prelude GoStd Graphs Loop Pipeline PipelineFacts.
Open Scope Z_scope.

Section run.
Context `{GoRuntime} (Invoke : bool → string → string → result string Response).
Context (steps : list Step) (dag : DAG) (B : BuildDAG steps = Some (Ok dag)).
Context (triggerInput : string) (Nt : "trigger" ∉ step_names steps).

Abbreviation exec sees step outputs := (executeStep Invoke sees step outputs).
Abbreviation completed sr := (StepResult_Status sr = "completed").
Abbreviation failed sr := (StepResult_Status sr = "failed").

Lemma status_cases sees step outputs :
  completed (exec sees step outputs) ∨ failed (exec sees step outputs).
Proof. unfold executeStep. destruct (Invoke _ _ _); auto. Qed.

Lemma exec_agree sees step o1 o2 :
  o1 !! "trigger" = o2 !! "trigger" → (∀ d, d ∈ Step_DependsOn step → o1 !! d = o2 !! d) →
  exec sees step o1 = exec sees step o2.
Proof.
  intros T D. unfold executeStep. assert (step_input step o1 = step_input step o2) as ->; [|done].
  unfold step_input. rewrite T. destruct (Step_Input step); [|done].
  destruct (Step_DependsOn step) as [|d l]; [done|]. by rewrite (D d) by left.
Qed.

(** The step [x] of a layer has a result. *)
Definition ran (snapshot : gmap string string) (e : Exec) (x : string) : Prop :=
  ∃ step sees, DAG_Steps dag !! x = Some step ∧
    ex_steps e !! x = Some (exec sees step snapshot) ∧
    (completed (exec sees step snapshot) →
       ex_outputs e !! x = Some (StepResult_Output (exec sees step snapshot))).

Definition some_failed (e : Exec) (layer : list string) : Prop :=
  ∃ x sr, x ∈ layer ∧ ex_steps e !! x = Some sr ∧ failed sr.

Lemma finish_other sn sr e x : x ≠ sn →
  ex_steps (finish sn sr e) !! x = ex_steps e !! x ∧ ex_outputs (finish sn sr e) !! x = ex_outputs e !! x.
Proof.
  intros N. unfold finish. destruct (String.eqb _ _); simpl; by rewrite ?lookup_insert_ne by done.
Qed.

Lemma finish_self sn step sees snapshot e : DAG_Steps dag !! sn = Some step →
  let e' := finish sn (exec sees step snapshot) e in
  ran snapshot e' sn ∧ (ex_failed e' = true ↔ ex_failed e = true ∨ failed (exec sees step snapshot)).
Proof.
  intros L. cbv zeta. unfold ran, finish.
  destruct (String.eqb_spec (StepResult_Status (exec sees step snapshot)) "failed") as [F|F]; simpl.
  - split; [|naive_solver]. exists step, sees. rewrite lookup_insert_eq. split_and!; [done..|].
    intros C. congruence.
  - split; [|naive_solver]. exists step, sees. by rewrite !lookup_insert_eq.
Qed.

(** A layer changes the results and outputs of its steps only, and fails when
    one of them fails. *)
Lemma complete_spec snapshot layer e e' : complete Invoke dag snapshot layer e e' → NoDup layer →
  (∀ x, x ∉ layer → ex_steps e' !! x = ex_steps e !! x ∧ ex_outputs e' !! x = ex_outputs e !! x) ∧
  (∀ x, x ∈ layer → ran snapshot e' x) ∧
  (ex_failed e' = true ↔ ex_failed e = true ∨ some_failed e' layer).
Proof.
  induction 1 as [e|sn layer layer' step sees e e' P L Se C IH|layer e e' C IH]; intros N.
  - split_and!; [done|by intros x ?%not_elem_of_nil|].
    split; [by left|]. intros [?|(x & sr & I & _)]; [done|by apply not_elem_of_nil in I].
  - rewrite P in N. apply NoDup_cons in N as [Ns N]. destruct (IH N) as (O & R & F).
    destruct (finish_self sn step sees snapshot e L) as [Rs Fs]. cbv zeta in *.
    set (e1 := finish sn (exec sees step snapshot) e) in *.
    assert (ran snapshot e' sn) as R'.
    { destruct (O sn Ns) as [O1 O2]. unfold ran. by rewrite O1, O2. }
    split_and!.
    + intros x Nx. rewrite P in Nx. apply not_elem_of_cons in Nx as [Nx Nl].
      destruct (O x Nl) as [-> ->]. by apply finish_other.
    + intros x I. rewrite P in I. apply elem_of_cons in I as [->|I]; [done|by apply R].
    + rewrite F, Fs. destruct Rs as (step' & sees' & _ & E' & _).
      assert (ex_steps e1 !! sn = Some (exec sees step snapshot)) as E1.
      { unfold e1, finish. destruct (String.eqb _ _); simpl; by rewrite lookup_insert_eq. }
      destruct (O sn Ns) as [O1 _]. unfold some_failed. split.
      * intros [[Fe|Fe]|(x & sr & I & E & Fx)]; [by left|right|right].
        -- exists sn, (exec sees step snapshot). rewrite P, O1. split_and!; [left|done|done].
        -- exists x, sr. rewrite P. split_and!; [by right|done|done].
      * intros [Fe|(x & sr & I & E & Fx)]; [by left; left|]. rewrite P in I.
        apply elem_of_cons in I as [->|I]; [|right; by exists x, sr].
        left; right. rewrite O1, E1 in E. by injection E as ->.
  - destruct (IH N) as (O & R & F). split_and!; [|done|done].
    intros x I. by destruct (O x I).
Qed.

(** ** The layers *)

(** Every result so far is that of its step on the outputs of the steps it
    depends on, which have completed. *)
Definition explained (e : Exec) : Prop :=
  ∀ x sr, ex_steps e !! x = Some sr → ∃ step sees, find_step x steps = Some step ∧
    sr = exec sees step (ex_outputs e) ∧
    ∀ d, d ∈ Step_DependsOn step → ∃ sd, ex_steps e !! d = Some sd ∧ completed sd ∧
      ex_outputs e !! d = Some (StepResult_Output sd).

Record boundary (done_steps : list string) (e : Exec) : Prop := {
  b_explained : explained e;
  b_trigger : ex_outputs e !! "trigger" = Some triggerInput;
  b_dom : ∀ x, is_Some (ex_steps e !! x) ↔ x ∈ done_steps;
  b_outputs : ∀ x sr, ex_steps e !! x = Some sr → completed sr →
    ex_outputs e !! x = Some (StepResult_Output sr);
}.

Definition all_completed (e : Exec) : Prop := ∀ x sr, ex_steps e !! x = Some sr → completed sr.

Lemma layer_boundary done_steps layer e e' :
  boundary done_steps e → all_completed e →
  NoDup (done_steps ++ layer) → (∀ x, x ∈ layer → x ∈ step_names steps) →
  (∀ x d, x ∈ layer → d ∈ deps_of steps x → d ∈ done_steps) →
  (∀ n, DAG_Steps dag !! n = find_step n steps) →
  complete Invoke dag (ex_outputs e) layer e e' →
  boundary (done_steps ++ layer) e' ∧
  (ex_failed e = false → if ex_failed e' then some_failed e' layer else all_completed e').
Proof.
  intros [Ex Tr Dm Ou] Al N Ns Dp Ls C. apply NoDup_app in N as (_ & Dj & N).
  destruct (complete_spec _ _ _ _ C N) as (O & R & F).
  assert (∀ d sd, ex_steps e !! d = Some sd → d ∉ layer) as Nl.
  { intros d sd E I. apply (Dj d); [|done]. apply Dm. by eexists. }
  assert (∀ d, d ∈ done_steps → ∃ sd, ex_steps e' !! d = Some sd ∧ completed sd ∧
    ex_outputs e' !! d = ex_outputs e !! d ∧ ex_outputs e' !! d = Some (StepResult_Output sd)) as Dn.
  { intros d [sd E]%Dm. destruct (O d (Nl d sd E)) as [E1 E2]. exists sd. rewrite E1, E2.
    split_and!; [done|by apply (Al d)|done|]. by apply Ou; [|apply (Al d)]. }
  assert (ex_outputs e' !! "trigger" = ex_outputs e !! "trigger") as Tr'.
  { apply O. intros I. by apply Ns in I. }
  split.
  - constructor.
    + intros x sr E. destruct (decide (x ∈ layer)) as [I|Nx].
      * destruct (R x I) as (step & sees & L & E' & _). rewrite Ls in L. rewrite E in E'.
        injection E' as ->. exists step, sees.
        assert (∀ d, d ∈ Step_DependsOn step → d ∈ done_steps) as Dd.
        { intros d Id. apply (Dp x); [done|]. unfold deps_of. by rewrite L. }
        split_and!; [done| |].
        -- apply exec_agree; [done|]. intros d Id. by destruct (Dn d (Dd d Id)) as (sd & _ & _ & -> & _).
        -- intros d Id. destruct (Dn d (Dd d Id)) as (sd & Ed & Cd & _ & Od). by exists sd.
      * destruct (O x Nx) as [E1 _]. rewrite E1 in E. destruct (Ex x sr E) as (step & sees & L & -> & D).
        exists step, sees. split_and!; [done| |].
        -- apply exec_agree; [done|]. intros d Id. destruct (D d Id) as (sd & Ed & _).
           by destruct (O d (Nl d sd Ed)) as [_ ->].
        -- intros d Id. destruct (D d Id) as (sd & Ed & Cd & Od). exists sd.
           by destruct (O d (Nl d sd Ed)) as [-> ->].
    + by rewrite Tr'.
    + intros x. rewrite elem_of_app. destruct (decide (x ∈ layer)) as [I|Nx].
      * destruct (R x I) as (step & sees & _ & -> & _). split; [by right|by eexists].
      * destruct (O x Nx) as [-> _]. rewrite Dm. naive_solver.
    + intros x sr E Cs. destruct (decide (x ∈ layer)) as [I|Nx].
      * destruct (R x I) as (step & sees & _ & E' & Oc). rewrite E in E'. injection E' as ->. by apply Oc.
      * destruct (O x Nx) as [E1 ->]. rewrite E1 in E. by apply Ou.
  - intros Fe. destruct (ex_failed e') eqn:Fe'.
    + destruct (proj1 F eq_refl); [congruence|done].
    + intros x sr E. destruct (decide (x ∈ layer)) as [I|Nx].
      * destruct (R x I) as (step & sees & _ & E' & _).
        destruct (status_cases sees step (ex_outputs e)) as [Cs|Fs]; [congruence|].
        assert (false = true); [|done]. apply F. right. exists x, (exec sees step (ex_outputs e)). done.
      * destruct (O x Nx) as [E1 _]. rewrite E1 in E. by apply (Al x).
Qed.

Lemma order_perm : concat (DAG_Order dag) ≡ₚ step_names steps.
Proof.
  destruct (build_cases steps) as [(dag' & B' & _ & _ & (P & _) & _)|(err & B' & _)];
    rewrite B in B'; [by injection B' as <-|done].
Qed.

Lemma execute_spec pre layers e status e' :
  execute Invoke dag layers e status e' → DAG_Order dag = pre ++ layers →
  boundary (concat pre) e → all_completed e → ex_failed e = false →
  ∃ done_steps, boundary done_steps e' ∧
    (status = "completed" → all_completed e' ∧ done_steps = concat (DAG_Order dag)) ∧
    (status = "cancelled" → all_completed e') ∧
    (status = "failed" → ∃ x sr, ex_steps e' !! x = Some sr ∧ failed sr).
Proof.
  destruct (build_cases steps) as [(dag' & B' & W & Ac & (P & So & Pl) & Ls)|(err & B' & _)];
    rewrite B in B'; [injection B' as <-|done].
  assert (NoDup (concat (DAG_Order dag))) as Nd by (rewrite P; apply W).
  assert (∀ pre layer layers, DAG_Order dag = pre ++ layer :: layers →
    NoDup (concat pre ++ layer) ∧ (∀ x, x ∈ layer → x ∈ step_names steps) ∧
    ∀ x d, x ∈ layer → d ∈ deps_of steps x → d ∈ concat pre) as Ly.
  { clear pre layers e status e'. intros pre layer layers E.
    rewrite E, concat_app in Nd, P. simpl in Nd, P. split_and!.
    - rewrite app_assoc in Nd. by apply NoDup_app in Nd as [? _].
    - intros x I. rewrite <- P. set_solver.
    - intros x d I Id. assert (DAG_Order dag !! length pre = Some layer) as El.
      { rewrite E. by apply list_lookup_middle. }
      destruct (Pl _ _ _ El I) as [A _]. destruct (A d Id) as (j & l & Lt & Ej & Il).
      rewrite E, lookup_app_l in Ej by done. apply list_elem_of_In, in_concat. exists l.
      split; apply list_elem_of_In; [by eapply list_elem_of_lookup_2|done]. }
  intros X. revert pre. induction X as [e|layer layers e _|layer layers e e' Ce C Fe'
    |layer layers e e1 status e' Ce C F1 X IH]; intros pre E Bd Al Fe.
  - exists (concat pre). rewrite app_nil_r in E. rewrite E. by split_and!.
  - exists (concat pre). by split_and!.
  - destruct (Ly _ _ _ E) as (N1 & N2 & N3).
    destruct (layer_boundary _ _ _ _ Bd Al N1 N2 N3 Ls C) as [Bd' Sf]. exists (concat pre ++ layer).
    split; [done|]. split_and!; [done..|]. intros _. specialize (Sf Fe). rewrite Fe' in Sf.
    destruct Sf as (x & sr & _ & ? & ?). by exists x, sr.
  - destruct (Ly _ _ _ E) as (N1 & N2 & N3).
    destruct (layer_boundary _ _ _ _ Bd Al N1 N2 N3 Ls C) as [Bd' Sf]. specialize (Sf Fe).
    rewrite F1 in Sf. apply (IH (pre ++ [layer])); [by rewrite <- app_assoc| |done|done].
    by rewrite concat_app; simpl; rewrite app_nil_r.
Qed.

(** The input that a step is given: its own; else the output of its first
    dependency; and else, or when that is empty, the input of the pipeline. *)
Inductive given (results : gmap string StepResult) (step : Step) : string → Prop :=
  | given_own : Step_Input step ≠ "" → given results step (Step_Input step)
  | given_dependency dep deps sd :
      Step_Input step = "" → Step_DependsOn step = dep :: deps → results !! dep = Some sd →
      StepResult_Output sd ≠ "" → given results step (StepResult_Output sd)
  | given_nothing dep deps sd :
      Step_Input step = "" → Step_DependsOn step = dep :: deps → results !! dep = Some sd →
      StepResult_Output sd = "" → given results step triggerInput
  | given_trigger : Step_Input step = "" → Step_DependsOn step = [] → given results step triggerInput.

(** The result of a step: that of its agent on the input it is given, after all
    of its dependencies. *)
Definition follows (results : gmap string StepResult) (x : string) (sr : StepResult) : Prop :=
  ∃ step sees input, find_step x steps = Some step ∧ given results step input ∧
    (∀ d, d ∈ Step_DependsOn step → ∃ sd, results !! d = Some sd ∧ completed sd) ∧
    sr = match Invoke sees (Step_AgentRef step) input with
         | Ok resp => mkStepResult x (Step_AgentRef step) (Response_Output resp) "completed" "" (Response_Tokens resp)
         | Err err => mkStepResult x (Step_AgentRef step) "" "failed"
             ("invoke " +:+ Step_AgentRef step +:+ ": " +:+ err) zero_tokens
         end.

Lemma explained_follows e x sr :
  explained e → ex_outputs e !! "trigger" = Some triggerInput → ex_steps e !! x = Some sr → follows (ex_steps e) x sr.
Proof.
  intros Ex Tr E. destruct (Ex x sr E) as (step & sees & L & -> & D).
  exists step, sees, (step_input step (ex_outputs e)). split_and!; [done| | |].
  - unfold step_input. rewrite Tr. destruct (Step_Input step) as [|c rest] eqn:I.
    + destruct (Step_DependsOn step) as [|dep deps] eqn:Dp; [by apply given_trigger|].
      destruct (D dep) as (sd & Ed & _ & Od); [left|]. rewrite Od. unfold default, from_option, id.
      destruct (String.eqb_spec (StepResult_Output sd) ""); [by eapply given_nothing|by eapply given_dependency].
    + rewrite <- I. destruct (String.eqb_spec (Step_Input step) ""); [congruence|]. by apply given_own.
  - intros d Id. destruct (D d Id) as (sd & Ed & Cd & _). by exists sd.
  - unfold executeStep. destruct (find_step_Some _ _ _ L) as [_ ->]. by destruct (Invoke _ _ _).
Qed.

(** C28. A run of a pipeline without a step named trigger follows its graph,
    whatever the order in which concurrent steps complete and whenever it is
    cancelled: every result is that of the agent of its step on the step's own
    input, else on the output of its first dependency, and on the pipeline's
    input when there is neither or that output is empty; all the dependencies of
    a step with a result have completed, a completed run has completed every
    step, and a failed run has a failed step. (A step named trigger would take
    the place of the pipeline's input.) *)
Theorem execute_dataflow (status : string) (e : Exec)
    (X : Execute Invoke dag triggerInput status e) :
  (∀ x sr, ex_steps e !! x = Some sr → follows (ex_steps e) x sr) ∧
  (status = "completed" → ∀ x, x ∈ step_names steps →
     ∃ sr, ex_steps e !! x = Some sr ∧ completed sr) ∧
  (status = "failed" ↔ ∃ x sr, ex_steps e !! x = Some sr ∧ failed sr).
Proof.
  assert (status = "completed" ∨ status = "cancelled" ∨ status = "failed") as St.
  { clear -X. induction X; auto. }
  destruct (execute_spec [] (DAG_Order dag) (start triggerInput) status e X eq_refl)
    as (D & Bd & Co & Ca & Fa); [| |done|].
  - constructor; [|cbn; by rewrite lookup_singleton_eq| |]; cbn.
    + intros x sr E. cbn in E. by rewrite lookup_empty in E.
    + intros x. rewrite lookup_empty. split; [by intros [? ?]|by intros ?%not_elem_of_nil].
    + intros x sr E. by rewrite lookup_empty in E.
  - intros x sr E. cbn in E. by rewrite lookup_empty in E.
  - split_and!; [intros x sr Es; apply explained_follows; [apply (b_explained _ _ Bd)|apply (b_trigger _ _ Bd)|done]| |].
    + intros E x I. destruct (Co E) as [Al ->].
      pose proof (order_perm) as P. rewrite <- P in I.
      apply (b_dom _ _ Bd) in I as [sr Es]. exists sr. split; [done|by apply (Al x)].
    + split; [done|]. intros (x & sr & E & F).
      destruct St as [-> | [-> | -> ]]; [| |done].
      * destruct (Co eq_refl) as [Al _]. specialize (Al x sr E). congruence.
      * specialize (Ca eq_refl x sr E). congruence.
Qed.
End run.

(** An agent that answers with its input, and one that fails. *)
Definition echo (sees : bool) (agent input : string) : result string Response :=
  if String.eqb agent "bad" then Err "no" else Ok (mkResponse (agent +:+ "(" +:+ input +:+ ")") [] zero_tokens 1 "").

Definition diamond_layer (order : list string) (e : Exec) : Exec :=
  foldl (λ e' sn, match DAG_Steps diamond_dag !! sn with
    | Some step => finish sn (executeStep echo false step (ex_outputs e)) e'
    | None => e'
    end) e order.

Definition diamond_begin : Exec := diamond_layer ["begin"] (start "hi").
Definition diamond_middle : Exec := diamond_layer ["right"; "left"] diamond_begin.
Definition diamond_run : Exec := diamond_layer ["end"] diamond_middle.

Lemma execute_dataflow_witness :
  StepResult_Output <$> (ex_steps diamond_run !! "end") = Some "z(x(w(hi)))" ∧
  ∀ x, x ∈ step_names diamond → ∃ sr, ex_steps diamond_run !! x = Some sr ∧ StepResult_Status sr = "completed".
Proof.
  split; [by vm_compute|].
  apply (@execute_dataflow ascii_runtime echo diamond diamond_dag eq_refl "hi"
    ltac:(by apply (bool_decide_unpack _)) "completed" diamond_run); [|done].
  unfold Execute. assert (DAG_Order diamond_dag = [["begin"]; ["left"; "right"]; ["end"]]) as -> by by vm_compute.
  apply (execute_layer _ _ _ _ _ diamond_begin); [done| |done|].
  { eapply (complete_step _ _ _ "begin" _ [] _ false); [done|by vm_compute|done|apply complete_nil]. }
  apply (execute_layer _ _ _ _ _ diamond_middle); [done| |done|].
  { eapply (complete_step _ _ _ "right" _ ["left"] _ false); [apply Permutation_swap|by vm_compute|done|].
    eapply (complete_step _ _ _ "left" _ [] _ false); [done|by vm_compute|done|apply complete_nil]. }
  apply (execute_layer _ _ _ _ _ diamond_run); [done| |done|apply execute_done].
  eapply (complete_step _ _ _ "end" _ [] _ false); [done|by vm_compute|done|apply complete_nil].
Defined.
