(* ===== verification/OperatorDag.v ===== *)
(** The workflow graph of the operator (internal/operator/controller/dag.go):
    Kahn's order of the steps, and the waves of DAGExecutor.Run.

    The goroutines of a wave write different keys of the results, so a wave is
    a fold. What the caller's context does meanwhile is an argument: [stopped k
    n] says that the goroutine of step [n] in wave [k] finds it cancelled. *)
From S2P Require Import Prelude GoStd Graphs.
Open Scope Z_scope.

(** DAGStep represents a single node in a directed acyclic graph. *)
Record DAGStep := mkDAGStep {
  DAGStep_Name : string;
  DAGStep_AgentRef : string;
  DAGStep_DependsOn : list string;
  DAGStep_Input : string;
}.

(** * Kahn's algorithm *)

(** One dependency of a step: an edge. *)
Definition count_dependency (name : string) (acc : gmap string Z * gmap string (list string))
    (dep : string) : gmap string Z * gmap string (list string) :=
  let '(inDegree, dependents) := acc in
  (<[name := count_of inDegree name + 1]> inDegree,
   <[dep := default [] (dependents !! dep) ++ [name]]> dependents).

(** The body of the first loop: the node and the edges of one step. *)
Definition add_dag_step (acc : gmap string Z * gmap string (list string)) (s : DAGStep) :
    gmap string Z * gmap string (list string) :=
  let '(inDegree, dependents) := acc in
  let inDegree :=
    match inDegree !! DAGStep_Name s with
    | Some _ => inDegree
    | None => <[DAGStep_Name s := 0]> inDegree
    end in
  foldl (count_dependency (DAGStep_Name s)) (inDegree, dependents) (DAGStep_DependsOn s).

(** [inDegree[dep]--], and the dependent is queued at zero. *)
Definition release (acc : gmap string Z * list string) (dep : string) : gmap string Z * list string :=
  let '(inDegree, queue) := acc in
  let n := count_of inDegree dep - 1 in
  (<[dep := n]> inDegree, if n =? 0 then queue ++ [dep] else queue).

(** The loop over the queue. *)
Fixpoint topo_loop (fuel : nat) (dependents : gmap string (list string)) (inDegree : gmap string Z)
    (queue order : list string) : option (list string) :=
  match queue, fuel with
  | [], _ => Some order
  | _, O => None
  | n :: queue, S fuel =>
      let '(inDegree, queue) := foldl release (inDegree, queue) (default [] (dependents !! n)) in
      topo_loop fuel dependents inDegree queue (order ++ [n])
  end.

(** topoSort performs Kahn's algorithm to produce a topological ordering. *)
Definition topoSort (steps : list DAGStep) : option (result string (list string)) :=
  let '(inDegree, dependents) := foldl add_dag_step (∅, ∅) steps in
  let queue := DAGStep_Name <$> filter (λ s, count_of inDegree (DAGStep_Name s) = 0) steps in
  order ← topo_loop (S (length steps)) dependents inDegree queue [];
  Some (if negb (length order =? length steps)%nat
        then Err ("cycle detected in DAG: sorted " +:+ pretty (Z.of_nat (length order)) +:+ " of "
                    +:+ pretty (Z.of_nat (length steps)) +:+ " steps")
        else Ok order).

(** * Execution in waves *)

Section run.
Context (stopped : nat → string → bool).

Definition is_completed (completed : gmap string bool) (name : string) : bool :=
  default false (completed !! name).

(** All dependencies of the step are completed. *)
Definition all_met (stepMap : gmap string DAGStep) (completed : gmap string bool) (name : string) : bool :=
  forallb (is_completed completed)
    (match stepMap !! name with Some s => DAGStep_DependsOn s | None => [] end).

(** One goroutine of wave [k]. *)
Definition run_step (k : nat) (acc : gmap string string * gmap string bool) (n : string) :
    gmap string string * gmap string bool :=
  let '(results, completed) := acc in
  if stopped k n then (results, completed)
  else (<[n := "output of " +:+ n]> results, <[n := true]> completed).

(** The loop over the waves. [firstErr] is never set, so FailFast changes
    nothing. *)
Fixpoint wave_loop (fuel : nat) (k : nat) (stepMap : gmap string DAGStep) (remaining : list string)
    (results : gmap string string) (completed : gmap string bool) : option (gmap string string) :=
  match remaining, fuel with
  | [], _ => Some results
  | _, O => None
  | _, S fuel =>
      let ready := List.filter (all_met stepMap completed) remaining in
      let next := List.filter (λ name, negb (all_met stepMap completed name)) remaining in
      let '(results, completed) := foldl (run_step k) (results, completed) ready in
      wave_loop fuel (S k) stepMap next results completed
  end.

(** The later of two steps with the same name wins. *)
Definition step_table (steps : list DAGStep) : gmap string DAGStep :=
  foldl (λ m s, <[DAGStep_Name s := s]> m) ∅ steps.

(** Run executes steps in topological order, running independent steps
    concurrently; [fuel] bounds the number of waves. *)
Definition Run (fuel : nat) (steps : list DAGStep) : option (result string (gmap string string)) :=
  order ← topoSort steps;
  match order with
  | Err err => Some (Err err)
  | Ok order => Ok <$> wave_loop fuel 0 (step_table steps) order ∅ ∅
  end.
End run.
