(* ===== verification/OperatorDagFacts.v ===== *)
(** The order of a workflow is topological and exists exactly without cycles;
    the waves of a run end, and complete every step, unless the context is
    cancelled or two steps share a name. *)
From S2P Require Import Prelude GoStd Graphs Pipeline PipelineFacts OperatorDag.
Open Scope Z_scope.

Definition dag_names (steps : list DAGStep) : list string := DAGStep_Name <$> steps.

(** What the steps named [x] depend on. *)
Definition dag_deps (steps : list DAGStep) (x : string) : list string :=
  flat_map DAGStep_DependsOn (filter (λ s, DAGStep_Name s = x) steps).

Lemma foldl_release acc l : foldl release acc l = foldl decrement acc l.
Proof. done. Qed.

(** * The graph *)

Definition counted (acc : gmap string Z * gmap string (list string)) (deps : string → list string) : Prop :=
  (∀ x, count_of acc.1 x = Z.of_nat (length (deps x))) ∧
  (∀ d x, occ x (default [] (acc.2 !! d)) = occ d (deps x)).

Lemma count_dependencies name ds acc deps : counted acc deps →
  counted (foldl (count_dependency name) acc ds)
    (λ x, if decide (x = name) then deps x ++ ds else deps x).
Proof.
  revert acc deps. induction ds as [|d ds IH]; intros [inc adj] deps [C A]; simpl.
  { split; intros; case_decide; simpl; rewrite ?app_nil_r; auto. }
  match goal with |- counted (foldl _ ?a _) _ => set (acc1 := a) end.
  destruct (IH acc1 (λ x, if decide (x = name) then deps x ++ [d] else deps x)) as [C1 A1].
  - split; simpl.
    + intros x. case_decide as E; [subst|].
      * unfold count_of at 1. rewrite lookup_insert_eq. simpl. specialize (C name). simpl in C. rewrite C, length_app. simpl. lia.
      * unfold count_of. rewrite lookup_insert_ne by done. apply C.
    + intros e x. destruct (decide (e = d)) as [->|N].
      * rewrite lookup_insert_eq. simpl. rewrite occ_app, A. simpl.
        unfold occ at 2. rewrite filter_cons, filter_nil.
        destruct (decide (x = name)) as [->|Nx].
        { rewrite decide_True, occ_app, occ_cons, decide_True by done. done. }
        rewrite decide_False by congruence. simpl. lia.
      * rewrite lookup_insert_ne by done. rewrite A. case_decide; [|done].
        rewrite occ_app, occ_cons, decide_False by done. unfold occ. simpl. lia.
  - split; intros; rewrite ?C1, ?A1; case_decide; by rewrite <- ?app_assoc.
Qed.

Lemma add_steps_counted steps acc deps : counted acc deps →
  counted (foldl add_dag_step acc steps) (λ x, deps x ++ dag_deps steps x).
Proof.
  revert acc deps. induction steps as [|s steps IH]; intros [inc adj] deps [C A]; simpl.
  { split; intros; unfold dag_deps; simpl; rewrite app_nil_r; auto. }
  assert (counted (match inc !! DAGStep_Name s with
    | Some _ => inc | None => <[DAGStep_Name s := 0]> inc end, adj) deps) as C0.
  { split; [|done]. intros x. simpl. destruct (inc !! DAGStep_Name s) as [c|] eqn:E; [apply C|].
    destruct (decide (x = DAGStep_Name s)) as [->|N].
    - specialize (C (DAGStep_Name s)). simpl in C. unfold count_of in *.
      rewrite E in C. rewrite lookup_insert_eq. done.
    - unfold count_of. rewrite lookup_insert_ne by done. apply C. }
  apply (count_dependencies (DAGStep_Name s) (DAGStep_DependsOn s)) in C0.
  apply IH in C0 as [C1 A1]. unfold dag_deps in *.
  split; intros; rewrite ?C1, ?A1; rewrite filter_cons; repeat case_decide;
    try congruence; simpl; by rewrite <- ?app_assoc.
Qed.

Lemma graph_counted steps : counted (foldl add_dag_step (∅, ∅) steps) (dag_deps steps).
Proof. apply (add_steps_counted steps (∅, ∅) (λ _, [])). split; intros; unfold count_of; simpl; by rewrite lookup_empty. Qed.

Lemma dag_deps_names steps x d : d ∈ dag_deps steps x → x ∈ dag_names steps.
Proof.
  unfold dag_deps, dag_names. intros (s & [E I]%list_elem_of_In%list_elem_of_filter & _)%list_elem_of_In%in_flat_map.
  subst. by apply list_elem_of_fmap_2.
Qed.

(** * The loop ends, whatever the names *)

Section terminates.
Context (names : list string) (dependents : gmap string (list string)).
Context (Hn : ∀ d x, x ∈ default [] (dependents !! d) → x ∈ names).

(** The names that wait for dependencies. *)
Definition waiting (inDegree : gmap string Z) : nat :=
  length (filter (λ x, 0 < count_of inDegree x) names).

Lemma waiting_lt inc inc' y : (∀ x, 0 < count_of inc' x → 0 < count_of inc x) →
  y ∈ names → 0 < count_of inc y → count_of inc' y <= 0 → (waiting inc' < waiting inc)%nat.
Proof. intros. apply (filter_length_impl_lt _ _ _ y); [done|done|done|lia]. Qed.

Lemma release_measure l acc : (∀ x, x ∈ l → x ∈ names) →
  let acc' := foldl release acc l in
  (length acc'.2 + waiting acc'.1 ≤ length acc.2 + waiting acc.1)%nat.
Proof.
  revert acc. induction l as [|y l IH]; intros [inc q] In; simpl; [lia|].
  etrans; [apply IH; intros; apply In; by right|]. simpl.
  set (n := count_of inc y - 1).
  assert (∀ x, 0 < count_of (<[y:=n]> inc) x → 0 < count_of inc x) as L.
  { intros x. unfold count_of, n. destruct (decide (y = x)) as [->|N].
    - rewrite lookup_insert_eq. simpl. unfold count_of. lia.
    - by rewrite lookup_insert_ne. }
  destruct (Z.eqb_spec n 0) as [E|N].
  - rewrite length_app. simpl. assert (waiting (<[y:=n]> inc) < waiting inc)%nat; [|lia].
    apply (waiting_lt _ _ y L); [apply In; left|unfold n in E; lia|].
    unfold count_of. rewrite lookup_insert_eq. simpl. lia.
  - apply Nat.add_le_mono_l. by apply filter_length_impl.
Qed.

Lemma topo_loop_returns fuel inc queue order : (length queue + waiting inc < fuel)%nat →
  ∃ order', topo_loop fuel dependents inc queue order = Some order'.
Proof.
  revert inc queue order. induction fuel as [|fuel IH]; intros inc [|n queue] order L;
    simpl in *; try (by eexists); [lia|].
  pose proof (release_measure (default [] (dependents !! n)) (inc, queue) (Hn n)) as M.
  simpl in M. destruct (foldl release _ _) as [inc' queue']. simpl in M. apply IH. lia.
Qed.
End terminates.

(** * The order *)

Section order.
Context (names : list string) (deps : string → list string) (dependents : gmap string (list string)).
Context (Hadj : ∀ d x, occ x (default [] (dependents !! d)) = occ d (deps x)).
Context (Hdeps : ∀ x d, d ∈ deps x → x ∈ names) (Nn : NoDup names).

(** Every step of [order] comes after its dependencies. *)
Definition after_deps (order : list string) : Prop :=
  ∀ i x d, order !! i = Some x → d ∈ deps x → d ∈ take i order.

Record topo_inv (inDegree : gmap string Z) (queue order : list string) : Prop := {
  ti_nodup : NoDup (order ++ queue);
  ti_names : ∀ x, x ∈ order ++ queue → x ∈ names;
  ti_count : ∀ x, count_of inDegree x = Z.of_nat (outside order (deps x));
  ti_ready : ∀ x, x ∈ names → x ∈ order ++ queue ↔ outside order (deps x) = 0%nat;
  ti_after : after_deps order;
}.

Lemma topo_inv_step inc n queue order : topo_inv inc (n :: queue) order →
  let acc := foldl release (inc, queue) (default [] (dependents !! n)) in
  topo_inv acc.1 acc.2 (order ++ [n]).
Proof.
  intros [N In C R A] acc.
  assert (∀ x, (outside (order ++ [n]) (deps x) + occ n (deps x) = outside order (deps x))%nat) as Os.
  { intros x. rewrite <- (outside_app order [n]).
    - by rewrite among_cons, among_nil, Nat.add_0_r by apply not_elem_of_nil.
    - intros y ->%list_elem_of_singleton I. apply NoDup_app in N as (_ & D & _). by apply (D n I); left. }
  destruct (decrement_all (default [] (dependents !! n)) (inc, queue)) as [Ci (new & En & Nnew & Mn)].
  { intros x _. simpl. rewrite C, Hadj. specialize (Os x). lia. }
  rewrite <- foldl_release in Ci, En. fold acc in Ci, En. simpl in En.
  assert (∀ x, x ∈ new ↔ (0 < occ n (deps x))%nat ∧ outside (order ++ [n]) (deps x) = 0%nat) as Mn'.
  { intros x. rewrite Mn, <- occ_pos, Hadj. simpl. rewrite C. specialize (Os x). lia. }
  assert ((order ++ [n]) ++ acc.2 = (order ++ n :: queue) ++ new) as E.
  { by rewrite En, <- !app_assoc. }
  constructor; rewrite ?E.
  - apply NoDup_app. split_and!; [done| |done]. intros x I [P Z]%Mn'.
    pose proof (proj1 (R x (In x I)) I) as Z'. specialize (Os x). lia.
  - intros x [I|[P _]%Mn']%elem_of_app; [by apply In|]. by apply occ_pos, Hdeps in P.
  - intros x. rewrite Ci. simpl. rewrite C, Hadj. specialize (Os x). lia.
  - intros x I. rewrite elem_of_app, Mn', (R x I). specialize (Os x). lia.
  - intros i x d E' I. apply lookup_app_Some in E' as [E'|[L E']].
    + rewrite take_app_le by (apply lookup_lt_Some in E'; lia). by eapply A.
    + apply list_lookup_singleton_Some in E' as [E' <-].
      assert (i = length order) as -> by lia. rewrite take_app_length.
      assert (n ∈ order ++ n :: queue) as J by (apply elem_of_app; right; left).
      apply R in J; [|by apply In]. rewrite outside_zero in J. by apply J.
Qed.

Lemma topo_loop_inv fuel inc queue order order' : topo_inv inc queue order →
  topo_loop fuel dependents inc queue order = Some order' → ∃ inc', topo_inv inc' [] order'.
Proof.
  revert inc queue order. induction fuel as [|fuel IH]; intros inc [|n queue] order K E;
    simpl in E; simplify_eq; [by eexists|by eexists|].
  apply topo_inv_step in K. cbv zeta in K. destruct (foldl release _ _) as [inc1 queue1].
  by eapply IH.
Qed.

Lemma after_deps_no_cycle order x y : after_deps order → (∀ z, z ∉ order → deps z = []) →
  tc (λ x d, d ∈ deps x) x y → ∀ i, order !! i = Some x → ∃ j, (j < i)%nat ∧ order !! j = Some y.
Proof.
  intros A _ T. assert (∀ u d i, d ∈ deps u → order !! i = Some u → ∃ j, (j < i)%nat ∧ order !! j = Some d) as S.
  { intros u d i I E. apply (A i u d E), list_elem_of_lookup in I as [j Ej].
    apply lookup_take_Some in Ej as [Ej Lt]. by exists j. }
  induction T as [x y I|x y z I T IH]; intros i E; [by eapply S|].
  destruct (S _ _ _ I E) as (j & Lt & Ej). destruct (IH j Ej) as (k & Lt' & Ek). exists k. split; [lia|done].
Qed.

Lemma topo_inv_done inc order : topo_inv inc [] order →
  (length order ≤ length names)%nat ∧
  if (length order =? length names)%nat
  then order ≡ₚ names ∧ (∀ x d, d ∈ deps x → d ∈ names) ∧ ¬ (∃ x, tc (λ x d, d ∈ deps x) x x)
  else (∃ x d, d ∈ deps x ∧ d ∉ names) ∨ ∃ x, tc (λ x d, d ∈ deps x) x x.
Proof.
  intros [N In _ R A]. rewrite app_nil_r in *.
  assert (order ⊆+ names) as Sub by by apply NoDup_submseteq.
  pose proof (submseteq_length _ _ Sub) as Le. split; [done|].
  assert (order ≡ₚ names → ∀ x d, d ∈ deps x → d ∈ order) as Kn.
  { intros P x d I. pose proof (Hdeps x d I) as J. rewrite <- P in J.
    apply list_elem_of_lookup in J as [i E]. pose proof (A i x d E I) as K.
    by apply elem_of_take in K as (j & Ej & _); eapply list_elem_of_lookup_2. }
  destruct (Nat.eqb_spec (length order) (length names)) as [E|NE].
  - assert (order ≡ₚ names) as P by (apply submseteq_length_Permutation; [done|lia]).
    split_and!; [done| |].
    + intros x d I. rewrite <- P. by eapply Kn.
    + intros [x T]. assert (x ∈ order) as [i Ei]%list_elem_of_lookup.
      { rewrite P. inversion T; subst; by eapply Hdeps. }
      destruct (after_deps_no_cycle order x x A) with (i := i) as (j & Lt & Ej); [|done..|].
      { intros z Nz. destruct (deps z) as [|d l] eqn:D; [done|]. destruct Nz. rewrite P.
        apply (Hdeps z d). rewrite D. left. }
      assert (j = i) by (by eapply NoDup_lookup). lia.
  - destruct (decide (Forall (λ x, Forall (λ d, d ∈ names) (deps x)) names)) as [F|F]; [right|left].
    + set (stuck := (list_to_set (filter (λ x, x ∉ order) names) : gset string)).
      assert (∀ x, x ∈ stuck ↔ x ∈ names ∧ x ∉ order) as M.
      { intros x. unfold stuck. rewrite elem_of_list_to_set, list_elem_of_filter. naive_solver. }
      apply (stuck_cycle _ stuck).
      * intros Em. assert (length names ≤ length order)%nat; [|lia].
        apply submseteq_length, NoDup_submseteq; [done|]. intros x I. apply dec_stable. intros Nx.
        assert (x ∈ (∅ : gset string)) as []%not_elem_of_empty. rewrite <- Em. by apply M.
      * intros x [I Nx]%M. specialize (R x I).
        destruct (decide (0 < outside order (deps x))%nat) as [P|P]; [|destruct Nx; apply R; lia].
        apply outside_pos in P as (d & Id & Nd). exists d. split; [done|]. apply M. split; [|done].
        rewrite Forall_forall in F. specialize (F x I). rewrite Forall_forall in F. by apply F.
    + apply not_Forall_Exists in F; [|apply _]. apply Exists_exists in F as (x & I & F).
      simpl in F. apply not_Forall_Exists in F; [|apply _]. apply Exists_exists in F as (d & Id & Nd). by exists x, d.
Qed.
End order.

(** * topoSort *)

(** Every dependency is a step, and there is no cycle of dependencies. *)
Definition dag_ok (steps : list DAGStep) : Prop :=
  (∀ x d, d ∈ dag_deps steps x → d ∈ dag_names steps) ∧
  ¬ (∃ x, tc (λ x d, d ∈ dag_deps steps x) x x).

Lemma filter_names inc steps :
  DAGStep_Name <$> filter (λ s, count_of inc (DAGStep_Name s) = 0) steps =
  filter (λ x, count_of inc x = 0) (dag_names steps).
Proof.
  unfold dag_names. induction steps as [|s steps IH]; [done|].
  rewrite fmap_cons, !filter_cons. case_decide; by rewrite ?fmap_cons, IH.
Qed.

Lemma filter_split inc l :
  (length (filter (λ x : string, count_of inc x = 0%Z) l) + waiting l inc ≤ length l)%nat.
Proof.
  unfold waiting. induction l as [|x l IH]; simpl; [done|]. rewrite !filter_cons.
  do 2 case_decide; simpl; lia.
Qed.

Lemma topoSort_loop steps : ∃ inc dependents order,
  counted (inc, dependents) (dag_deps steps) ∧
  topo_loop (S (length steps)) dependents inc (filter (λ x, count_of inc x = 0) (dag_names steps)) [] =
    Some order ∧
  topoSort steps = Some (if negb (length order =? length steps)%nat
    then Err ("cycle detected in DAG: sorted " +:+ pretty (Z.of_nat (length order)) +:+ " of "
                +:+ pretty (Z.of_nat (length steps)) +:+ " steps")
    else Ok order).
Proof.
  pose proof (graph_counted steps) as C. unfold topoSort.
  destruct (foldl add_dag_step (∅, ∅) steps) as [inc dependents]. rewrite filter_names.
  destruct (topo_loop_returns (dag_names steps) dependents) with (fuel := S (length steps)) (inc := inc)
    (queue := filter (λ x, count_of inc x = 0) (dag_names steps)) (order := @nil string) as [order E].
  - intros d x I. apply occ_pos in I. rewrite (proj2 C), occ_pos in I. by eapply dag_deps_names.
  - pose proof (filter_split inc (dag_names steps)) as L. unfold dag_names in L at 3.
    rewrite length_fmap in L. lia.
  - exists inc, dependents, order. by rewrite E.
Qed.

Lemma topoSort_returns steps : ∃ r, topoSort steps = Some r.
Proof. destruct (topoSort_loop steps) as (? & ? & ? & _ & _ & ->). by eexists. Qed.

Lemma topoSort_cases steps : NoDup (dag_names steps) →
  (∃ order, topoSort steps = Some (Ok order) ∧ dag_ok steps ∧ order ≡ₚ dag_names steps ∧
     after_deps (dag_deps steps) order) ∨
  (∃ err, topoSort steps = Some (Err err) ∧ ¬ dag_ok steps).
Proof.
  intros N. destruct (topoSort_loop steps) as (inc & dependents & order & [C A] & L & ->).
  simpl in C, A. apply (topo_loop_inv (dag_names steps) (dag_deps steps)) in L as [inc' K]; [|done|by apply dag_deps_names|].
  - pose proof (ti_after _ _ _ _ _ K) as Af.
    apply topo_inv_done in K as [_ K]; [|by apply dag_deps_names|done].
    unfold dag_names in K at 1. rewrite length_fmap in K.
    destruct (length order =? length steps)%nat; simpl.
    + left. exists order. destruct K as (P & Kn & Ac). done.
    + right. eexists. split; [done|]. intros [Kn Ac].
      destruct K as [(x & d & I & Nd)|T]; [by eapply Nd, Kn|done].
  - constructor; simpl.
    + by apply NoDup_filter.
    + intros x [_ I]%list_elem_of_filter. done.
    + intros x. by rewrite C, outside_nil.
    + intros x I. rewrite list_elem_of_filter, C, outside_nil. split; [by intros [? _]; lia|]. intros ->. done.
    + intros i x d E. by rewrite lookup_nil in E.
Qed.

(** * Waves *)

(** What the step found for [n] in the table depends on. *)
Definition table_deps (stepMap : gmap string DAGStep) (n : string) : list string :=
  match stepMap !! n with Some s => DAGStep_DependsOn s | None => [] end.

(** Every name of the list depends on names in [C] and on names before it. *)
Fixpoint chain (deps : string → list string) (C : string → Prop) (l : list string) : Prop :=
  match l with
  | [] => True
  | x :: l => (∀ d, d ∈ deps x → C d) ∧ chain deps (λ d, C d ∨ d = x) l
  end.

Lemma chain_ext deps deps' l : ∀ C C' : string → Prop,
  (∀ x, x ∈ l → deps' x = deps x) → (∀ d, C d → C' d) → chain deps C l → chain deps' C' l.
Proof.
  induction l as [|x l IH]; intros C C' T M; simpl; [done|]. intros [H K]. split.
  - intros d. rewrite T by left. auto.
  - eapply IH; [by intros y I; apply T; right| |done]. simpl. naive_solver.
Qed.

Lemma chain_after_deps deps pre order :
  after_deps deps (pre ++ order) → chain deps (λ d, d ∈ pre) order.
Proof.
  revert pre. induction order as [|x order IH]; intros pre A; simpl; [done|]. split.
  - intros d I. specialize (A (length pre) x d). rewrite lookup_app_r, Nat.sub_diag in A by lia.
    rewrite take_app_length in A. by apply A.
  - eapply chain_ext; [done| |apply (IH (pre ++ [x])); by rewrite <- app_assoc].
    simpl. intros d. rewrite elem_of_app, list_elem_of_singleton. done.
Qed.

Lemma chain_filter deps (f : string → bool) l : ∀ C C' : string → Prop,
  (∀ d, C d → C' d) → (∀ x, x ∈ l → f x = true → C' x) → chain deps C l →
  chain deps C' (List.filter (λ x, negb (f x)) l).
Proof.
  induction l as [|x l IH]; intros C C' M R; simpl; [done|]. intros [D K].
  destruct (f x) eqn:F; simpl.
  - apply (IH (λ d, C d ∨ d = x)); [|by intros; apply R; [right|]|done].
    intros d [? | -> ]; [auto|]. apply R; [left|done].
  - split; [auto|]. apply (IH (λ d, C d ∨ d = x)); [naive_solver| |done].
    intros y I Fy. left. by apply R; [right|].
Qed.

Section waves.
Context (stopped : nat → string → bool).

Lemma run_steps k l acc : (∀ n, n ∈ l → stopped k n = false) →
  (∀ n, (foldl (run_step stopped k) acc l).1 !! n =
     if decide (n ∈ l) then Some ("output of " +:+ n) else acc.1 !! n) ∧
  (∀ n, is_completed (foldl (run_step stopped k) acc l).2 n =
     if decide (n ∈ l) then true else is_completed acc.2 n).
Proof.
  revert acc. induction l as [|m l IH]; intros [res comp] St; simpl.
  { done. }
  rewrite (St m) by left. destruct (IH (<[m := "output of " +:+ m]> res, <[m := true]> comp)) as [E1 E2].
  { intros n I. apply St. by right. }
  split; intros n; [rewrite E1|rewrite E2]; simpl; unfold is_completed;
    (destruct (decide (n = m)) as [->|Nm];
      [rewrite lookup_insert_eq, (decide_True (P := m ∈ m :: l)) by left; by case_decide|]);
    rewrite lookup_insert_ne by done;
    (destruct (decide (n ∈ l));
      [by rewrite decide_True by by right|rewrite decide_False; [done|by rewrite elem_of_cons; intros [?|?]]]).
Qed.

(** Nothing is cancelled: each wave completes at least its first step. *)
Lemma wave_loop_completes stepMap fuel k remaining results completed :
  (∀ j n, stopped j n = false) →
  chain (table_deps stepMap) (λ d, is_completed completed d = true) remaining →
  (length remaining ≤ fuel)%nat →
  ∃ results', wave_loop stopped fuel k stepMap remaining results completed = Some results' ∧
    ∀ n, results' !! n = if decide (n ∈ remaining) then Some ("output of " +:+ n) else results !! n.
Proof.
  intros St. revert k remaining results completed.
  induction fuel as [|fuel IH]; intros k [|x rest] results completed Ch L; cbn [wave_loop];
    try (simpl in L; lia);
    try (eexists; split; [done|]; intros; rewrite decide_False by apply not_elem_of_nil; done).
  set (met := all_met stepMap completed).
  assert (met x = true) as Mx.
  { unfold met, all_met. apply List.forallb_forall. intros d I%list_elem_of_In. by apply (proj1 Ch). }
  set (ready := List.filter met (x :: rest)). set (next := List.filter (λ n, negb (met n)) (x :: rest)).
  destruct (run_steps k ready (results, completed)) as [E1 E2]; [auto|].
  destruct (foldl (run_step stopped k) (results, completed) ready) as [results1 completed1].
  simpl in E1, E2.
  destruct (IH (S k) next results1 completed1) as (results' & -> & Er).
  - unfold next. eapply chain_filter; [| |exact Ch].
    + intros d C. simpl. rewrite E2, C. by case_decide.
    + intros y I M. simpl. rewrite E2, decide_True; [done|]. apply list_elem_of_In, List.filter_In.
      by rewrite <- list_elem_of_In.
  - unfold next. simpl. rewrite Mx. simpl. etrans; [apply List.filter_length_le|]. simpl in L. lia.
  - exists results'. split; [done|]. intros n. rewrite Er, E1.
    assert (n ∈ x :: rest ↔ n ∈ next ∨ n ∈ ready) as M.
    { unfold next, ready. rewrite !list_elem_of_In, !List.filter_In. destruct (met n); naive_solver. }
    repeat case_decide; try done; naive_solver.
Qed.

(** A step that waits for one that never completes keeps the loop going. *)
Lemma wave_loop_spins (dead : string → Prop) stepMap fuel k remaining results completed x d :
  (∀ n, dead n → is_completed completed n = false) →
  (∀ j n, dead n → n ∈ remaining → stopped j n = true) →
  x ∈ remaining → d ∈ table_deps stepMap x → dead d →
  wave_loop stopped fuel k stepMap remaining results completed = None.
Proof.
  intros Nc St I Id Dd. revert k remaining results completed Nc St I.
  induction fuel as [|fuel IH]; intros k [|y rest] results completed Nc St I;
    try (by apply not_elem_of_nil in I); [done|]. cbn [wave_loop].
  set (met := all_met stepMap completed).
  assert (met x = false) as Mx.
  { apply not_true_iff_false. unfold met, all_met. intros M.
    rewrite List.forallb_forall in M. apply list_elem_of_In, M in Id. by rewrite Nc in Id. }
  assert (∀ l acc, (∀ n, n ∈ l → n ∈ y :: rest) →
    ∀ n, dead n → is_completed (foldl (run_step stopped k) acc l).2 n = is_completed acc.2 n) as Fr.
  { clear IH. induction l as [|m l IH]; intros [res comp] In n Dn; simpl; [done|].
    rewrite IH by (done || intros; apply In; by right). destruct (stopped k m) eqn:Sm; [done|].
    simpl. unfold is_completed. rewrite lookup_insert_ne; [done|]. intros ->.
    rewrite St in Sm; [done|done|]. apply In. left. }
  set (ready := List.filter met (y :: rest)).
  specialize (Fr ready (results, completed)).
  destruct (foldl (run_step stopped k) (results, completed) ready) as [results1 completed1].
  assert (∀ n (g : string → bool), n ∈ List.filter g (y :: rest) → n ∈ y :: rest) as Sub.
  { intros n g [J _]%list_elem_of_In%List.filter_In. by apply list_elem_of_In. }
  apply IH.
  - intros n Dn. simpl in Fr. rewrite Fr; [by apply Nc| |done]. intros m. apply Sub.
  - intros j n Dn J. apply St; [done|]. by eapply Sub.
  - apply list_elem_of_In, List.filter_In. split; [by apply list_elem_of_In|]. by rewrite Mx.
Qed.
End waves.

(** * Runs *)

Lemma step_table_lookup steps m n : NoDup (dag_names steps) →
  table_deps (foldl (λ m s, <[DAGStep_Name s := s]> m) m steps) n =
    if decide (n ∈ dag_names steps) then dag_deps steps n else table_deps m n.
Proof.
  unfold dag_names, dag_deps. revert m. induction steps as [|s steps IH]; intros m N; simpl.
  { done. }
  apply NoDup_cons in N as [Ns N]. rewrite IH by done. rewrite filter_cons.
  destruct (decide (DAGStep_Name s = n)) as [<-|Nn].
  - rewrite decide_False, decide_True by (done || left). simpl.
    unfold table_deps. rewrite lookup_insert_eq.
    assert (filter (λ s', DAGStep_Name s' = DAGStep_Name s) steps = []) as ->; [|simpl; by rewrite app_nil_r].
    destruct (filter _ _) as [|s' l] eqn:E; [done|]. destruct Ns.
    assert (s' ∈ filter (λ s', DAGStep_Name s' = DAGStep_Name s) steps) as [<- I]%list_elem_of_filter
      by (rewrite E; left). by apply list_elem_of_fmap_2.
  - destruct (decide (n ∈ DAGStep_Name <$> steps)) as [I|Ni].
    + by rewrite decide_True by by right.
    + rewrite decide_False; [|by intros [->|?]%elem_of_cons].
      unfold table_deps. by rewrite lookup_insert_ne.
Qed.

Lemma ordered_table steps order : NoDup (dag_names steps) →
  order ≡ₚ dag_names steps → ∀ x, x ∈ order → table_deps (step_table steps) x = dag_deps steps x.
Proof.
  intros N P x I. unfold step_table. rewrite step_table_lookup by done.
  rewrite decide_True; [done|]. by rewrite <- P.
Qed.

(** C11. The operator runs every workflow whose steps have different names, as
    long as nothing cancels it: after at most one wave for each step the run
    has the output of exactly the steps, if every dependency is a step and no
    dependencies form a cycle, and an error otherwise. (The controller calls
    topoSort alone: nothing calls the executor yet.) *)
Theorem dag_run_completes (stopped : nat → string → bool) (steps : list DAGStep)
    (N : NoDup (dag_names steps)) (Live : ∀ k n, stopped k n = false) :
  ∃ r, (∀ fuel, (length steps ≤ fuel)%nat → Run stopped fuel steps = Some r) ∧
  match r with
  | Ok results => dag_ok steps ∧
      ∀ n, results !! n = if decide (n ∈ dag_names steps) then Some ("output of " +:+ n) else None
  | Err _ => ¬ dag_ok steps
  end.
Proof.
  unfold Run. destruct (topoSort_cases steps N) as [(order & -> & D & P & A)|(err & -> & D)];
    [|by exists (Err err)].
  assert (length order = length steps) as L.
  { rewrite P. unfold dag_names. by rewrite length_fmap. }
  assert (chain (table_deps (step_table steps)) (λ d, is_completed ∅ d = true) order) as Ch.
  { apply (chain_after_deps _ []) in A. eapply chain_ext; [by apply ordered_table| |exact A].
    by intros d ?%not_elem_of_nil. }
  destruct (wave_loop_completes stopped (step_table steps) (length steps) 0 order ∅ ∅ Live Ch) as (results & E & R);
    [lia|].
  exists (Ok results). split.
  - intros fuel F. simpl.
    destruct (wave_loop_completes stopped (step_table steps) fuel 0 order ∅ ∅ Live Ch) as (results' & E' & R'); [lia|].
    rewrite E'. simpl. do 2 f_equal. apply map_eq. intros n. by rewrite R, R'.
  - split; [done|]. intros n. rewrite R, lookup_empty. do 2 case_decide; try done; exfalso; revert select (_ ∈ _); revert select (_ ∉ _); by rewrite P.
Qed.

(** A context that is cancelled before the run makes the loop over the
    waves spin forever, as soon as some step depends on another: the goroutines
    return without completing their steps, and no later wave has a step that
    is ready. *)
Lemma cancelled_run_spins (steps : list DAGStep) (order : list string) (s : DAGStep) (d : string) (fuel : nat)
    (N : NoDup (dag_names steps)) (T : topoSort steps = Some (Ok order))
    (I : s ∈ steps) (D : d ∈ DAGStep_DependsOn s) :
  Run (λ _ _, true) fuel steps = None.
Proof.
  unfold Run. rewrite T. simpl.
  destruct (topoSort_cases steps N) as [(order' & T' & _ & P & _)|(err & T' & _)]; [|congruence].
  assert (order' = order) as -> by congruence.
  assert (d ∈ dag_deps steps (DAGStep_Name s)) as Id.
  { unfold dag_deps. apply list_elem_of_In, in_flat_map. exists s. split; apply list_elem_of_In; [|done].
    by apply list_elem_of_filter. }
  assert (DAGStep_Name s ∈ order) as Io by (rewrite P; by eapply dag_deps_names).
  rewrite (wave_loop_spins _ (λ _, True) _ _ _ _ _ _ (DAGStep_Name s) d); try done.
  by rewrite (ordered_table steps order).
Qed.

Definition fetch_then_report : list DAGStep :=
  [mkDAGStep "report" "writer" ["fetch"; "fetch"] ""; mkDAGStep "fetch" "reader" [] "news"].

Lemma dag_run_completes_witness :
  Run (λ _ _, false) 2 fetch_then_report =
    Some (Ok {["fetch" := "output of fetch"; "report" := "output of report"]}) ∧
  ∃ r, (∀ fuel, (2 ≤ fuel)%nat → Run (λ _ _, false) fuel fetch_then_report = Some r) ∧
  match r with
  | Ok results => dag_ok fetch_then_report ∧
      ∀ n, results !! n = if decide (n ∈ dag_names fetch_then_report) then Some ("output of " +:+ n) else None
  | Err _ => ¬ dag_ok fetch_then_report
  end.
Proof.
  split; [by vm_compute|].
  apply (dag_run_completes (λ _ _, false) fetch_then_report); [|done].
  by apply (bool_decide_unpack _).
Defined.

Lemma cancelled_run_spins_witness : Run (λ _ _, true) 1000 fetch_then_report = None.
Proof.
  apply (cancelled_run_spins fetch_then_report ["fetch"; "report"]
    (mkDAGStep "report" "writer" ["fetch"; "fetch"] "") "fetch" 1000).
  - by apply (bool_decide_unpack _).
  - by vm_compute.
  - left.
  - left.
Defined.

(** Two steps with one name can hide a dependency that is no step: both
    queue a common dependent, so that the order has the expected length, and
    the run waits for a step that does not exist. *)
Lemma duplicate_names_spin (fuel : nat) :
  let steps := [mkDAGStep "a" "x" [] ""; mkDAGStep "a" "x" [] ""; mkDAGStep "b" "y" ["a"; "c"] ""] in
  topoSort steps = Some (Ok ["a"; "a"; "b"]) ∧ Run (λ _ _, false) fuel steps = None.
Proof.
  intros steps. assert (topoSort steps = Some (Ok ["a"; "a"; "b"])) as T by by vm_compute.
  split; [done|]. unfold Run. rewrite T. simpl.
  rewrite (wave_loop_spins _ (λ n, n = "c") _ _ _ _ _ _ "b" "c"); try done.
  - intros j n -> I. exfalso. set_solver.
  - set_solver.
  - apply (bool_decide_unpack _). by vm_compute.
Qed.
