(* ===== verification/LoopFacts.v ===== *)
(** What the ReAct loop asks of the model: never more calls than turns, never
    beyond the token budget, and conversations in which every call of a tool
    is answered.

    The calls are observed by a client that keeps a log of the requests and
    the responses it got for them. *)
From S2P Require Import Prelude GoStd Ir Loop.
Open Scope Z_scope.

(** * The log of a client *)

Abbreviation Log := (list (ChatRequest * option ChatResponse)).

(** The response that a stream delivers: the last one before an error. *)
Fixpoint streamed (events : list StreamEvent) (resp : option ChatResponse) : option ChatResponse :=
  match events with
  | [] => resp
  | e :: events =>
      match StreamEvent_Error e with
      | Some _ => None
      | None => streamed events (match StreamEvent_Response e with Some r => Some r | None => resp end)
      end
  end.

Section logged.
Context {W : Type} (llm : Client W) (tools : ToolExecutor W) (onEvent : option (StreamEvent → W → W)).

Definition logged_client : Client (W * Log) := mkClient _
  (λ req '(w, log),
    let '(r, w) := Chat req w in
    (r, (w, log ++ [(req, match r with Ok resp => Some resp | Err _ => None end)])))
  (λ req '(w, log),
    let '(r, w) := ChatStream req w in
    (r, (w, log ++ [(req, match r with Ok events => streamed events None | Err _ => None end)]))).

Definition logged_tools : ToolExecutor (W * Log) := mkToolExecutor _
  (λ calls '(w, log), let '(rs, w) := ExecuteConcurrent calls w in (rs, (w, log)))
  (λ '(w, _), Definitions w).

Definition logged_events : option (StreamEvent → W * Log → W * Log) :=
  (λ f e '(w, log), (f e w, log)) <$> onEvent.
End logged.

(** What a tool executor promises: a result for each call, in order. *)
Class ToolExecutorLaws (W : Type) (tools : ToolExecutor W) : Prop := {
  results_match calls w :
    ToolResult_ToolUseID <$> (ExecuteConcurrent calls w).1 = ToolCall_ID <$> calls;
}.

(** * Conversations *)

Definition responses (log : Log) : list ChatResponse := omap snd log.

(** The sum of some tokens over the responses of a log, without bound. *)
Definition sum_of (tokens : TokenUsage → Z) (log : Log) : Z :=
  foldr (λ r n, tokens (ChatResponse_Usage r) + n) 0 (responses log).

(** What the responses of a log spent: each sum as an int. *)
Definition spent (log : Log) : TokenUsage :=
  mkTokenUsage (wrap64 (sum_of TokenUsage_InputTokens log)) (wrap64 (sum_of TokenUsage_OutputTokens log))
    (wrap64 (sum_of TokenUsage_CacheRead log)) (wrap64 (sum_of TokenUsage_CacheWrite log)).

(** The input and output tokens of a log, without bound. *)
Definition total_spent (log : Log) : Z := sum_of TokenUsage_InputTokens log + sum_of TokenUsage_OutputTokens log.

Lemma Total_spent log : Total (spent log) = wrap64 (total_spent log).
Proof. unfold Total, spent, total_spent. simpl. by rewrite wrap64_add_l, wrap64_add_r. Qed.

(** The last text of a log that is not empty. *)
Definition last_text (log : Log) : string :=
  foldl (λ o r, if String.eqb (ChatResponse_Content r) "" then o else ChatResponse_Content r) "" (responses log).

(** A response with tool calls, and the results that answer it. *)
Definition answers (resp : ChatResponse) (results : list ToolResult) : Prop :=
  ChatResponse_ToolCalls resp ≠ [] ∧ ChatResponse_StopReason resp = "tool_use" ∧
  ToolResult_ToolUseID <$> results = ToolCall_ID <$> ChatResponse_ToolCalls resp.

Definition round (resp : ChatResponse) (results : list ToolResult) : list Message :=
  mkMessage "assistant" (ChatResponse_Content resp) (ChatResponse_ToolCalls resp) None ::
  ((λ r, mkMessage "user" "" [] (Some r)) <$> results).

(** The conversation that starts with [base] and in which every one of the
    responses is answered by the results of its tool calls. *)
Definition conversation (base : list Message) (resps : list ChatResponse) (ms : list Message) : Prop :=
  ∃ rs, Forall2 answers resps rs ∧ ms = base ++ concat (zip_with round resps rs).

Lemma conversation_snoc base resps ms resp results :
  conversation base resps ms → answers resp results →
  conversation base (resps ++ [resp]) (ms ++ round resp results).
Proof.
  intros (rs & F & ->) A. exists (rs ++ [results]). split.
  - apply Forall2_app; [done|]. by constructor.
  - rewrite zip_with_app by (by eapply Forall2_length).
    rewrite concat_app. simpl. by rewrite app_nil_r, app_assoc.
Qed.

Lemma responses_snoc log req resp : responses (log ++ [(req, Some resp)]) = responses log ++ [resp].
Proof. unfold responses. by rewrite omap_app. Qed.

Section react.
Context {W : Type} (llm : Client W) (tools : ToolExecutor W) (onEvent : option (StreamEvent → W → W)).
Context (inv : Invocation).

Local Instance the_client : Client (W * Log) := logged_client llm.
Local Instance the_tools : ToolExecutor (W * Log) := logged_tools tools.
Let ev := logged_events onEvent.
Let base : list Message := Invocation_Messages inv ++ [user_message (Invocation_Input inv)].
Let maxTokens := limit (Invocation_MaxTokens inv) 4096.

(** A request that the limits of the invocation allow after [before]: with a
    budget, what was spent and the tokens it asks for are within it as ints,
    and so they are within it when their sum is an int. *)
Definition allowed (before : Log) (req : ChatRequest) : Prop :=
  ChatRequest_MaxTokens req = maxTokens ∧
  (0 < Invocation_TokenBudget inv →
     wrap64 (total_spent before + maxTokens) <= Invocation_TokenBudget inv ∧
     (is_int64 (total_spent before + maxTokens) →
      total_spent before + maxTokens <= Invocation_TokenBudget inv)).

(** Every request of a log is allowed; with an executor that answers its calls
    it continues the conversation. *)
Definition well_logged (log : Log) : Prop :=
  ∀ i req resp, log !! i = Some (req, resp) →
    allowed (take i log) req ∧
    (ToolExecutorLaws W tools → conversation base (responses (take i log)) (ChatRequest_Messages req)).

(** The state of the loop is what the log makes of it. *)
Record tracks (s : LoopState) (log : Log) : Prop := {
  tr_turns : ls_turns s = Z.of_nat (length log);
  tr_tracker : ls_tracker s = mkTokenTracker (Invocation_TokenBudget inv) (spent log);
  tr_output : ls_output s = last_text log;
  tr_messages : ToolExecutorLaws W tools → conversation base (responses log) (ls_messages s);
  tr_all : Forall (λ '(_, r), is_Some r) log;
  tr_logged : well_logged log;
}.

Lemma well_logged_snoc log req resp : well_logged log →
  allowed log req →
  (ToolExecutorLaws W tools → conversation base (responses log) (ChatRequest_Messages req)) →
  well_logged (log ++ [(req, resp)]).
Proof.
  intros L A C i req' resp' E. apply lookup_app_Some in E as [E|[Le E]].
  - pose proof (lookup_lt_Some _ _ _ E). rewrite take_app_le by lia. by eapply L.
  - apply list_lookup_singleton_Some in E as [E [= <- <-]].
    assert (i = length log) as -> by lia. by rewrite take_app_length.
Qed.

Lemma emit_log (e : StreamEvent) (w : W) (log : Log) : ∃ w', emit ev e (w, log) = (w', log).
Proof. unfold emit, ev, logged_events. destruct onEvent; simpl; by eexists. Qed.

Lemma drain_streamed events resp (w : W) (log : Log) : ∃ w',
  drain ev events resp (w, log) =
    (match streamed events resp, List.find (λ e, bool_decide (is_Some (StreamEvent_Error e))) events with
     | _, Some e => Err (default "" (StreamEvent_Error e))
     | r, None => Ok r
     end, (w', log)).
Proof.
  revert resp w. induction events as [|e events IH]; intros resp w; cbn [drain streamed List.find];
    [by eexists|].
  destruct (emit_log e w log) as [w1 ->].
  destruct (StreamEvent_Error e) as [err|] eqn:E; cbn beta iota.
  - exists w1. rewrite bool_decide_true by done. by rewrite E.
  - rewrite bool_decide_false by by intros [? ?]. apply IH.
Qed.

(** One request is logged, with the response that [ask] returns. *)
Lemma ask_logs req turn (w : W) (log : Log) : ∃ r w',
  ask ev inv req turn (w, log) =
    (r, (w', log ++ [(req, match r with Ok resp => Some resp | Err _ => None end)])).
Proof.
  unfold ask. destruct (_ && _).
  - cbn [ChatStream the_client logged_client]. destruct (ChatStream req w) as [[events|err] w1]; simpl.
    + destruct (drain_streamed events None w1 (log ++ [(req, streamed events None)])) as [w2 ->].
      destruct (List.find _ events) as [e|] eqn:F.
      * assert (∀ o, streamed events o = None) as S.
        { clear -F. induction events as [|e' events IH]; simpl in *; [done|]. intros o.
          destruct (StreamEvent_Error e'); [done|].
          rewrite bool_decide_false in F by by intros [? ?]. by apply IH. }
        rewrite S. by destruct (streamed events None); eexists (Err _), w2.
      * destruct (streamed events None) as [r|]; [by exists (Ok r), w2|by eexists (Err _), w2].
    + by eexists (Err _), w1.
  - cbn [Chat the_client logged_client]. destruct (Chat req w) as [[resp|err] w1]; simpl;
      [by exists (Ok resp), w1|by eexists (Err _), w1].
Qed.

(** A result without its call is a panic; the results become messages. *)
Lemma record_results_messages errors announce results calls s (w : W) (log : Log) : ∃ o w',
  record_results ev errors announce results calls s (w, log) = (o, (w', log)) ∧
  (o = None → (length calls < length results)%nat) ∧
  ∀ s', o = Some s' →
    ls_messages s' = ls_messages s ++ (result_message <$> results) ∧
    ls_output s' = ls_output s ∧ ls_tracker s' = ls_tracker s ∧ ls_turns s' = ls_turns s.
Proof.
  revert calls s w. induction results as [|r results IH]; intros calls s w; simpl.
  { exists (Some s), w. split_and!; [done..|]. intros s' [= <-]. by rewrite app_nil_r. }
  destruct calls as [|tc calls]; [exists None, w; split_and!; [done|simpl; lia|done]|].
  set (w1 := if announce then _ else _).
  assert (∃ w2, w1 = (w2, log)) as [w2 ->].
  { unfold w1. destruct announce; [apply emit_log|by exists w]. }
  set (s1 := s <| ls_records := _ |> <| ls_messages := _ |>).
  destruct (IH calls s1 w2) as (o & w' & -> & N & S). exists o, w'. split_and!; [done| |].
  - intros E. specialize (N E). simpl. lia.
  - intros s' E. destruct (S s' E) as (M & O & T & K). rewrite M, O, T, K. simpl. by rewrite <- app_assoc.
Qed.

Lemma spent_snoc log req resp :
  mkTokenTracker (Invocation_TokenBudget inv) (spent (log ++ [(req, Some resp)])) =
  Add (mkTokenTracker (Invocation_TokenBudget inv) (spent log)) (ChatResponse_Usage resp).
Proof.
  unfold Add, spent. simpl. rewrite !wrap64_add_l.
  assert (∀ f, sum_of f (log ++ [(req, Some resp)]) = sum_of f log + f (ChatResponse_Usage resp)) as S.
  { intros f. unfold sum_of. rewrite responses_snoc, foldr_app. cbn [foldr]. rewrite Z.add_0_r.
    generalize (responses log). intros l. induction l as [|r l IH]; cbn [foldr]; lia. }
  by rewrite !S.
Qed.

Lemma last_text_snoc log req resp :
  last_text (log ++ [(req, Some resp)]) =
  if String.eqb (ChatResponse_Content resp) "" then last_text log else ChatResponse_Content resp.
Proof. unfold last_text. by rewrite responses_snoc, foldl_app. Qed.

Lemma CheckBudget_None log :
  CheckBudget (mkTokenTracker (Invocation_TokenBudget inv) (spent log)) maxTokens = None →
  0 < Invocation_TokenBudget inv →
  wrap64 (total_spent log + maxTokens) <= Invocation_TokenBudget inv ∧
  (is_int64 (total_spent log + maxTokens) → total_spent log + maxTokens <= Invocation_TokenBudget inv).
Proof.
  unfold CheckBudget. cbn [TokenTracker_budget TokenTracker_used]. rewrite Total_spent, wrap64_add_l.
  destruct (Z.leb_spec (Invocation_TokenBudget inv) 0); [lia|].
  destruct (Z.ltb_spec (Invocation_TokenBudget inv) (wrap64 (total_spent log + maxTokens))); [done|].
  intros _ _. split; [lia|]. intros B. by rewrite wrap64_small in * by done.
Qed.

Lemma CheckBudget_Some t n err : CheckBudget t n = Some err → err ≠ "".
Proof. unfold CheckBudget. destruct (_ <=? _); [done|]. by destruct (_ <? _); intros [= <-]. Qed.

(** What a run that starts with [log0] and may take [n] turns leaves. *)
Definition run_ok (n : nat) (log0 : Log) (out : result failure Response * (W * Log)) : Prop :=
  let '(r, (_, log)) := out in
  (length log ≤ length log0 + n)%nat ∧ well_logged log ∧
  match r with
  | Ok resp =>
      Response_Tokens resp = spent log ∧ Response_Output resp = last_text log ∧
      Response_Turns resp =
        Z.of_nat (length log) + (if String.eqb (Response_Error resp) "" then 0 else 1)
  | Err f => ToolExecutorLaws W tools → (∃ err, f = Failed err) ∧ ∃ req, last log = Some (req, None)
  end.

Lemma react_loop_ok n turn s (w : W) (log : Log) : tracks s log →
  run_ok n log (react_loop ev n inv maxTokens turn s (w, log)).
Proof.
  revert turn s w log. induction n as [|n IH]; intros turn s w log T; cbn [react_loop].
  { split_and!; [lia|apply T|simpl..]; rewrite ?(tr_tracker _ _ T), ?(tr_output _ _ T), ?(tr_turns _ _ T); simpl; [done..|lia]. }
  cbn [ls_tracker ls_turns ls_messages ls_output set_field settable].
  rewrite (tr_tracker _ _ T). destruct (CheckBudget _ _) as [err|] eqn:B.
  { apply CheckBudget_Some in B as Ne.
    split_and!; [lia|apply T|simpl..]; rewrite ?(tr_tracker _ _ T), ?(tr_output _ _ T), ?(tr_turns _ _ T); simpl; [done..|].
    destruct (String.eqb_spec err ""); [done|lia]. }
  set (req := request inv maxTokens _ _).
  destruct (ask_logs req turn w log) as (r & w1 & ->).
  assert (allowed log req) as Al by (split; [done|by apply CheckBudget_None]).
  assert (∀ o, well_logged (log ++ [(req, o)])) as Wl.
  { intros o. apply well_logged_snoc; [apply T|done|apply T]. }
  destruct r as [resp|err].
  2: { split_and!; [rewrite length_app; simpl; lia|done|]. intros _. split; [by eexists|]. exists req. apply last_snoc. }
  set (log1 := log ++ [(req, Some resp)]).
  assert (length log1 = S (length log)) as L1 by (unfold log1; rewrite length_app; simpl; lia).
  set (s1 := take_response resp _).
  assert (ls_turns s1 = Z.of_nat (length log1) ∧ ls_messages s1 = ls_messages s ∧
    ls_tracker s1 = mkTokenTracker (Invocation_TokenBudget inv) (spent log1) ∧
    ls_output s1 = last_text log1) as (T1 & M1 & K1 & O1).
  { unfold log1. rewrite spent_snoc, last_text_snoc. fold log1. unfold s1, take_response.
    rewrite <- (tr_tracker _ _ T), <- (tr_output _ _ T), L1.
    destruct (String.eqb _ _); simpl; rewrite (tr_turns _ _ T); split_and!; try done; lia. }
  destruct (wants_tools resp) eqn:Wt; simpl.
  2: { rewrite K1, O1, T1. split_and!; [lia|apply Wl|done|done|lia]. }
  unfold use_tools. cbn [ExecuteConcurrent the_tools logged_tools].
  assert (ToolExecutorLaws W tools → ToolResult_ToolUseID <$> (ExecuteConcurrent (ChatResponse_ToolCalls resp) w1).1 =
    ToolCall_ID <$> ChatResponse_ToolCalls resp) as Rm by (intros L; apply results_match).
  destruct (ExecuteConcurrent (ChatResponse_ToolCalls resp) w1) as [results w2]. simpl in Rm.
  set (s2 := s1 <| ls_messages := _ |>).
  destruct (record_results_messages true true results (ChatResponse_ToolCalls resp) s2 w2 log1)
    as (o & w3 & -> & Pn & So).
  destruct o as [s3|].
  2: { split_and!; [lia|apply Wl|]. intros L%Rm%(f_equal length). rewrite !length_fmap in L. specialize (Pn eq_refl). lia. }
  destruct (So s3 eq_refl) as (M3 & O3 & K3 & T3).
  cut (run_ok n log1 (react_loop ev n inv maxTokens (turn + 1) s3 (w3, log1))).
  { unfold run_ok. destruct (react_loop _ _ _ _ _ _ _) as [r' [w' log']].
    intros (Le & ? & ?). split_and!; [lia|done|done]. }
  apply IH. constructor; rewrite ?T3, ?K3, ?O3; try done.
  - intros L. rewrite M3. unfold s2. simpl. rewrite M1. unfold log1. rewrite responses_snoc, <- app_assoc.
    apply conversation_snoc; [by apply T|].
    unfold wants_tools in Wt. apply andb_prop in Wt as [Ne St]. apply String.eqb_eq in St.
    split_and!; [by intros E; rewrite E in Ne | done | by apply Rm].
  - apply Forall_app. split; [apply T|]. by repeat constructor.
  - apply Wl.
Qed.

Lemma tracks_start : tracks (mkLoopState base [] "" (NewTokenTracker (Invocation_TokenBudget inv)) 0) [].
Proof.
  constructor; try done.
  intros _. exists []. split; [constructor|]. simpl. by rewrite app_nil_r.
Qed.

(** C12. For every model, invocation and tool executor, a ReAct run calls the
    model at most once per allowed turn; each request asks for the maximum of
    tokens of the invocation; under a token budget, what the earlier responses
    report and the tokens it asks for are together at most the budget, as the
    64-bit ints they are added in, and so really at most the budget whenever
    that sum is an int (a model that reports about 2^63 tokens gets past the
    budget); and the response reports the tokens spent, as ints, and the last
    text, whose turns count the calls, and one more turn when the budget ended
    the run. *)
Theorem react_within_limits (w : W) :
  let '(r, (_, log)) := ReAct_Execute ev inv (w, []) in
  (length log ≤ Z.to_nat (limit (Invocation_MaxTurns inv) 10))%nat ∧
  (∀ i req resp, log !! i = Some (req, resp) → allowed (take i log) req) ∧
  ∀ resp, r = Ok resp →
    Response_Tokens resp = spent log ∧ Response_Output resp = last_text log ∧
    Response_Turns resp = Z.of_nat (length log) + (if String.eqb (Response_Error resp) "" then 0 else 1).
Proof.
  pose proof (react_loop_ok (Z.to_nat (limit (Invocation_MaxTurns inv) 10)) 0 _ w [] tracks_start) as R.
  unfold ReAct_Execute. fold base. fold maxTokens. destruct (react_loop _ _ _ _ _ _ _) as [r [w' log]].
  destruct R as (L & Wl & R). split_and!; [done| |].
  - intros i req resp E. by apply (Wl i req resp).
  - by intros resp ->.
Qed.

(** With an executor that answers its calls, every request continues the
    conversation, and the run fails only because a call of the model did. *)
Lemma react_converses `{!ToolExecutorLaws W tools} (w : W) :
  let '(r, (_, log)) := ReAct_Execute ev inv (w, []) in
  (∀ i req resp, log !! i = Some (req, resp) →
     conversation (Invocation_Messages inv ++ [user_message (Invocation_Input inv)])
       (responses (take i log)) (ChatRequest_Messages req)) ∧
  ∀ f, r = Err f → (∃ err, f = Failed err) ∧ ∃ req, last log = Some (req, None).
Proof.
  pose proof (react_loop_ok (Z.to_nat (limit (Invocation_MaxTurns inv) 10)) 0 _ w [] tracks_start) as R.
  unfold ReAct_Execute. fold base. fold maxTokens. destruct (react_loop _ _ _ _ _ _ _) as [r [w' log]].
  destruct R as (L & Wl & R). split.
  - intros i req resp E. by apply (Wl i req resp).
  - intros f ->. by apply R.
Qed.
End react.

(** * Reflexion accepts a rejection *)

(** A critique that says UNSATISFACTORY in any case, and so asks for an
    improvement, contains the word that approves the response: the loop stops
    and the response stays as it was. *)
Lemma unsatisfactory_is_approved {W} (llm : Client W) (onEvent : option (StreamEvent → W → W))
    (n : nat) (inv : Invocation) (maxTokens iter : Z) (s : LoopState) (w w' : W) (resp : ChatResponse)
    (Budget : CheckBudget (ls_tracker s) maxTokens = None)
    (Reply : ∀ req, Chat req w = (Ok resp, w'))
    (Text : ChatResponse_Content resp = "Unsatisfactory.") :
  ls_output (@reflect_loop W llm onEvent ascii_runtime (S n) inv maxTokens iter s w).1 = ls_output s.
Proof. cbn [reflect_loop]. by rewrite Budget, Reply, Text. Qed.

(** * A model that calls a tool twice and then answers *)

Definition lookup_call (n : nat) : ToolCall := mkToolCall ("call-" +:+ pretty n) "lookup" [].

(** The world counts the calls of the model. *)
Definition two_rounds : Client nat := mkClient nat
  (λ _ n, (Ok (if (n <? 2)%nat
               then mkChatResponse "" [lookup_call n; lookup_call (10 + n)] "tool_use" (mkTokenUsage 30 5 0 0)
               else mkChatResponse "done" [] "end_turn" (mkTokenUsage 60 5 0 0)), S n))
  (λ _ n, (Err "no streams", n)).

Definition echo_tools : ToolExecutor nat := mkToolExecutor nat
  (λ calls n, ((λ c, mkToolResult (ToolCall_ID c) "ok" false) <$> calls, n))
  (λ _, Some [mkToolDefinition "lookup" "look it up" []]).

Definition ask_twice (budget : Z) : Invocation :=
  mkInvocation "helper" "m" "Be brief." "What is it?" [] ∅ 5 100 budget None false.

Definition logged_run (inv : Invocation) : result failure Response * (nat * Log) :=
  @ReAct_Execute _ (logged_client two_rounds) (logged_tools echo_tools) (logged_events None) inv (O, []).

Example budget_stops :
  length (logged_run (ask_twice 0)).2.2 = 3%nat ∧ length (logged_run (ask_twice 150)).2.2 = 2%nat.
Proof. by vm_compute. Qed.

(** A model that reports 2^63 - 1 tokens at a time: the sum with the maximum of
    the next request wraps around, and a budget of 1000 tokens stops nothing. *)
Definition huge_usage : Client nat := mkClient nat
  (λ _ n, (Ok (mkChatResponse "" [lookup_call n] "tool_use" (mkTokenUsage max_int 0 0 0)), S n))
  (λ _ n, (Err "no streams", n)).

Example budget_wraps :
  length (@ReAct_Execute _ (logged_client huge_usage) (logged_tools echo_tools) (logged_events None)
    (ask_twice 1000) (O, [])).2.2 = 5%nat.
Proof. by vm_compute. Qed.

Definition stern_critic : Client nat := mkClient nat
  (λ _ n, (Ok (mkChatResponse "Unsatisfactory." [] "end_turn" zero_tokens), S n))
  (λ _ n, (Err "no streams", n)).

Lemma unsatisfactory_is_approved_witness :
  ls_output (@reflect_loop nat stern_critic None ascii_runtime 3 (ask_twice 0) 100 0
    (mkLoopState [] [] "first try" (NewTokenTracker 0) 1) O).1 = "first try".
Proof.
  apply (unsatisfactory_is_approved stern_critic None 2 (ask_twice 0) 100 0
    (mkLoopState [] [] "first try" (NewTokenTracker 0) 1) O 1%nat
    (mkChatResponse "Unsatisfactory." [] "end_turn" zero_tokens)); by vm_compute.
Defined.
