(* ===== verification/Strategies.v ===== *)
(** Strategies built on the ReAct loop, and what filters and routes around it
    (internal/loop/router.go, map_reduce.go, delegation.go, guardrail.go).

    Regular expressions are Go's: [Regexp] gives for a pattern that compiles
    its FindString. The goroutines of the map phase of map-reduce share the
    model and the tools and interleave their calls; what each of them returns
    and the order in which they finish are arguments of the reduce phase. *)
From S2P Require Import Prelude GoStd Ir Loop.
Open Scope Z_scope.

(** * Guardrails *)

(** Violation records a guardrail trigger. *)
Record Violation := mkViolation {
  Violation_Guardrail : string;
  Violation_Mode : string;
  Violation_Match : string;
  Violation_Type : string;
}.

(** GuardrailConfig defines a guardrail's matching rules. *)
Record GuardrailConfig := mkGuardrailConfig {
  GuardrailConfig_Name : string;
  GuardrailConfig_Mode : string;
  GuardrailConfig_Keywords : list string;
  GuardrailConfig_Patterns : list string;
  GuardrailConfig_FallbackMsg : string;
}.

(** The variables of Check. *)
Record Filtering := mkFiltering {
  fl_violations : list Violation;
  fl_blocked : bool;
  fl_fallbackMsg : string;
}.

Section guardrails.
Context `{GoRuntime} (Regexp : string → option (string → string)).

(** A match: the violation, and the message when the guardrail blocks. *)
Definition add_violation (g : GuardrailConfig) (match_ type_ : string) (f : Filtering) : Filtering :=
  let violations :=
    fl_violations f ++ [mkViolation (GuardrailConfig_Name g) (GuardrailConfig_Mode g) match_ type_] in
  if String.eqb (GuardrailConfig_Mode g) "block"
  then mkFiltering violations true (GuardrailConfig_FallbackMsg g)
  else mkFiltering violations (fl_blocked f) (fl_fallbackMsg f).

Definition check_keyword (output : string) (g : GuardrailConfig) (f : Filtering) (kw : string) : Filtering :=
  if Contains (ToLower output) (ToLower kw) then add_violation g kw "keyword" f else f.

Definition check_pattern (output : string) (g : GuardrailConfig) (f : Filtering) (pat : string) : Filtering :=
  match Regexp pat with
  | None => f
  | Some FindString =>
      let match_ := FindString output in
      if String.eqb match_ "" then f else add_violation g match_ "pattern" f
  end.

Definition check_guardrail (output : string) (f : Filtering) (g : GuardrailConfig) : Filtering :=
  let f := foldl (check_keyword output g) f (GuardrailConfig_Keywords g) in
  foldl (check_pattern output g) f (GuardrailConfig_Patterns g).

(** GuardrailFilter.Check applies all guardrails to the output. *)
Definition Check_output (guardrails : list GuardrailConfig) (output : string) : string * list Violation :=
  let f := foldl (check_guardrail output) (mkFiltering [] false "") guardrails in
  if fl_blocked f && negb (String.eqb (fl_fallbackMsg f) "")
  then (fl_fallbackMsg f, fl_violations f)
  else (output, fl_violations f).
End guardrails.

(** * Delegation *)

(** DelegationRule describes when an agent should delegate to another agent. *)
Record DelegationRule := mkDelegationRule {
  DelegationRule_TargetAgent : string;
  DelegationRule_Condition : string;
}.

(** EvaluateResult; the confidence is 1 for a delegation, 0 otherwise. *)
Record EvaluateResult := mkEvaluateResult {
  EvaluateResult_ShouldDelegate : bool;
  EvaluateResult_TargetAgent : string;
  EvaluateResult_Confidence : Z;
}.

Definition no_delegation : EvaluateResult := mkEvaluateResult false "" 0.

Section strategies.
Context `{GoRuntime} {W : Type} `{!Client W} `{!ToolExecutor W}.
Context (onEvent : option (StreamEvent → W → W)).

(** The line of a rule in the prompt, numbered from one. *)
Definition rule_line (i : nat) (rule : DelegationRule) : string :=
  pretty (Z.of_nat i + 1) +:+ ". Agent " +:+ qt "`" +:+ DelegationRule_TargetAgent rule +:+ qt "` - when: `" +:+
  DelegationRule_Condition rule +:+ qt "`" +:+ nl.

Definition delegation_prompt (rules : list DelegationRule) (input : string) : string :=
  "Given the following user message, determine which agent (if any) should handle it." +:+ nl +:+ nl +:+
  "User message: " +:+ input +:+ nl +:+ nl +:+ "Available agents and their conditions:" +:+ nl +:+
  String.concat "" (imap rule_line rules) +:+ nl +:+
  qt "Respond with ONLY the agent name if a match is found, or `NONE` if no agent matches.".

(** The first rule whose agent the answer mentions. *)
Definition match_rule (answer : string) (rules : list DelegationRule) : option DelegationRule :=
  List.find (λ rule, Contains (ToLower answer) (ToLower (DelegationRule_TargetAgent rule))) rules.

(** DelegationRouter.Evaluate checks if the input matches any delegation rule. *)
Definition Evaluate_delegation (rules : list DelegationRule) (model input : string) (w : W) :
    result string EvaluateResult * W :=
  match rules with
  | [] => (Ok no_delegation, w)
  | _ =>
      match Chat (mkChatRequest model [user_message (delegation_prompt rules input)] "" [] 50 None) w with
      | (Err err, w) => (Err ("delegation evaluation: " +:+ err), w)
      | (Ok resp, w) =>
          let answer := TrimSpace (ChatResponse_Content resp) in
          (Ok (if String.eqb answer "NONE" || String.eqb answer "" then no_delegation
               else match match_rule answer rules with
                    | Some rule => mkEvaluateResult true (DelegationRule_TargetAgent rule) 1
                    | None => no_delegation
                    end), w)
      end
  end.

(** * Router *)

Definition classify_prompt (routes : gmap string string) (input : string) : string :=
  "Classify the following user message and determine which agent should handle it." +:+ nl +:+ nl +:+
  "User message: " +:+ input +:+ nl +:+ nl +:+ "Available agents:" +:+ nl +:+
  String.concat "" ((λ '(name, desc), "- " +:+ name +:+ ": " +:+ desc +:+ nl) <$> map_range routes) +:+
  nl +:+ "Respond with ONLY the agent name.".

(** The tokens of the classification and of the run. *)
Definition with_tokens (classify : TokenUsage) (resp : Response) : Response :=
  mkResponse (Response_Output resp) (Response_ToolCalls resp)
    (mkTokenUsage (TokenUsage_InputTokens classify + TokenUsage_InputTokens (Response_Tokens resp))
       (TokenUsage_OutputTokens classify + TokenUsage_OutputTokens (Response_Tokens resp)) 0 0)
    (Response_Turns resp) (Response_Error resp).

(** RouterStrategy.Execute classifies the input and routes to the appropriate
    agent. *)
Definition Router_Execute (routes : gmap string string)
    (AgentInvoker : option (string → Invocation → W → result failure Response * W))
    (inv : Invocation) (w : W) : result failure Response * W :=
  if (size routes =? 0)%nat then ReAct_Execute onEvent inv w
  else
    match Chat (prompt_request inv "" 50 (classify_prompt routes (Invocation_Input inv))) w with
    | (Err err, w) => (Err (Failed ("router classify: " +:+ err)), w)
    | (Ok classifyResp, w) =>
        let used := Usage (Add (NewTokenTracker (Invocation_TokenBudget inv)) (ChatResponse_Usage classifyResp)) in
        let agent := ChatResponse_Content classifyResp in
        let w := emit onEvent (text_event ("[Routing to: " +:+ agent +:+ "]" +:+ nl)) w in
        match AgentInvoker with
        | Some invoke =>
            match invoke agent inv w with
            | (Err (Failed err), w) => (Err (Failed ("router invoke " +:+ agent +:+ ": " +:+ err)), w)
            | (Err Panicked, w) => (Err Panicked, w)
            | (Ok routed, w) => (Ok (with_tokens used routed), w)
            end
        | None =>
            match ReAct_Execute onEvent inv w with
            | (Err err, w) => (Err err, w)
            | (Ok resp, w) => (Ok (with_tokens used resp), w)
            end
        end
    end.

(** * Map-reduce *)

(** The paragraphs that are not blank. *)
Definition paragraphs (input : string) : list string :=
  List.filter (λ p, negb (String.eqb p "")) (TrimSpace <$> Split input (nl +:+ nl)).

(** The loop [for i := 0; i < len(input); i += chunkSize]; [n] bounds the
    number of chunks. *)
Fixpoint chunk_input (n chunkSize : nat) (input : string) : list string :=
  match n, input with
  | S n, String _ _ => str_take chunkSize input :: chunk_input n chunkSize (str_drop chunkSize input)
  | _, _ => []
  end.

Definition splitInput (ChunkSize : Z) (input : string) : list string :=
  if ChunkSize <=? 0
  then match paragraphs input with [] => [input] | chunks => chunks end
  else chunk_input (String.length input) (Z.to_nat ChunkSize) input.

(** The first error among the results of the chunks, with its index. *)
Fixpoint chunk_error (i : nat) (results : list (result string Response)) : option string :=
  match results with
  | [] => None
  | Err err :: _ => Some ("map-reduce chunk " +:+ pretty (Z.of_nat i) +:+ ": " +:+ err)
  | Ok _ :: results => chunk_error (S i) results
  end.

Definition chunk_responses (results : list (result string Response)) : list Response :=
  omap (λ r, match r with Ok resp => Some resp | Err _ => None end) results.

Definition reduce_prompt (system : string) (outputs : list string) : string :=
  system +:+ nl +:+ nl +:+ "I processed the input in " +:+ pretty (Z.of_nat (length outputs)) +:+
  " parts. Here are the results:" +:+ nl +:+ nl +:+
  String.concat "" (imap (λ i output,
    "--- Part " +:+ pretty (Z.of_nat i + 1) +:+ " ---" +:+ nl +:+ output +:+ nl +:+ nl) outputs) +:+
  "Synthesize these results into a single coherent response.".

(** What follows the map phase: [results] are those of the chunks in order,
    [finished] the responses in the order in which the goroutines ended. *)
Definition reduce_phase (inv : Invocation) (results : list (result string Response))
    (finished : list Response) (w : W) : result failure Response * W :=
  match chunk_error 0 results with
  | Some err => (Err (Failed err), w)
  | None =>
      let resps := chunk_responses results in
      let tracker := foldl Add (NewTokenTracker (Invocation_TokenBudget inv)) (Response_Tokens <$> resps) in
      let prompt := reduce_prompt (Invocation_System inv) (Response_Output <$> resps) in
      match Chat (prompt_request inv "" (limit (Invocation_MaxTokens inv) 4096) prompt) w with
      | (Err err, w) => (Err (Failed ("map-reduce reduce: " +:+ err)), w)
      | (Ok reduceResp, w) =>
          (Ok (mkResponse (ChatResponse_Content reduceResp)
                 (concat (Response_ToolCalls <$> finished))
                 (Usage (Add tracker (ChatResponse_Usage reduceResp)))
                 (Z.of_nat (length results) + 2) ""), w)
      end
  end.
End strategies.

(** * The chunks of an input *)

Lemma str_drop_length n s : String.length (str_drop n s) = (String.length s - n)%nat.
Proof. revert s. induction n as [|n IH]; intros [|c s]; simpl; auto. Qed.

Lemma chunk_input_concat n size input : (0 < size)%nat → (String.length input ≤ n)%nat →
  String.concat "" (chunk_input n size input) = input ∧
  Forall (λ c, c ≠ "" ∧ (String.length c ≤ size)%nat) (chunk_input n size input).
Proof.
  intros P. revert input. induction n as [|n IH]; intros [|c input] L; simpl in L; try done; [lia|].
  cbn [chunk_input]. set (s := String c input) in *.
  destruct (IH (str_drop size s)) as [E F].
  { rewrite str_drop_length. unfold s. simpl. lia. }
  split.
  - transitivity (str_take size s +:+ String.concat "" (chunk_input n size (str_drop size s))).
    + simpl. destruct (chunk_input _ _ _); simpl; [by rewrite str_app_nil_r|done].
    + by rewrite E, str_take_drop.
  - constructor; [|done]. split.
    + unfold s. by destruct size; [lia|].
    + clearbody s. clear. revert s. induction size as [|size IH]; intros [|d s]; simpl; [lia..|].
      specialize (IH s). lia.
Qed.

(** With a chunk size the chunks are the input, cut in pieces of at most that
    many bytes. *)
Lemma splitInput_concat ChunkSize input : 0 < ChunkSize →
  String.concat "" (splitInput ChunkSize input) = input ∧
  Forall (λ c, c ≠ "" ∧ Z.of_nat (String.length c) <= ChunkSize) (splitInput ChunkSize input).
Proof.
  intros P. unfold splitInput. destruct (Z.leb_spec ChunkSize 0); [lia|].
  destruct (chunk_input_concat (String.length input) (Z.to_nat ChunkSize) input) as [E F]; [lia|done|].
  split; [done|]. eapply Forall_impl; [exact F|]. simpl. intros c [? ?]. split; [done|lia].
Qed.

(** * Guardrails block *)

Section guardrail_facts.
Context `{GoRuntime} (Regexp : string → option (string → string)).

(** The violations of one guardrail: its keywords, then its patterns. *)
Definition violations_of (output : string) (g : GuardrailConfig) : list Violation :=
  omap (λ kw, if Contains (ToLower output) (ToLower kw)
    then Some (mkViolation (GuardrailConfig_Name g) (GuardrailConfig_Mode g) kw "keyword") else None)
    (GuardrailConfig_Keywords g) ++
  omap (λ pat, match Regexp pat with
    | Some FindString => if String.eqb (FindString output) "" then None
        else Some (mkViolation (GuardrailConfig_Name g) (GuardrailConfig_Mode g) (FindString output) "pattern")
    | None => None
    end) (GuardrailConfig_Patterns g).

(** The guardrails that block the output. *)
Definition blocking (output : string) (gs : list GuardrailConfig) : list GuardrailConfig :=
  filter (λ g, GuardrailConfig_Mode g = "block" ∧ violations_of output g ≠ []) gs.

Definition add_violations (g : GuardrailConfig) (vs : list Violation) (f : Filtering) : Filtering :=
  if String.eqb (GuardrailConfig_Mode g) "block" && negb (bool_decide (vs = []))
  then mkFiltering (fl_violations f ++ vs) true (GuardrailConfig_FallbackMsg g)
  else mkFiltering (fl_violations f ++ vs) (fl_blocked f) (fl_fallbackMsg f).

Lemma add_violations_app g vs vs' f :
  add_violations g vs' (add_violations g vs f) = add_violations g (vs ++ vs') f.
Proof.
  unfold add_violations. destruct (String.eqb _ _), vs, vs'; simpl;
    rewrite ?app_nil_r, <- ?app_assoc; try done; by destruct f.
Qed.

Lemma add_violations_step {A} (g : GuardrailConfig) (step : Filtering → A → Filtering)
    (v : A → option Violation) l f :
  (∀ f x, step f x = add_violations g (match v x with Some e => [e] | None => [] end) f) →
  foldl step f l = add_violations g (omap v l) f.
Proof.
  intros S. revert f. induction l as [|x l IH]; intros f; simpl.
  { unfold add_violations. rewrite bool_decide_true, andb_false_r, app_nil_r by done. by destruct f. }
  rewrite IH, S, add_violations_app. by destruct (v x).
Qed.

Lemma check_guardrail_spec output f g :
  check_guardrail Regexp output f g = add_violations g (violations_of output g) f.
Proof.
  unfold check_guardrail, violations_of. rewrite <- add_violations_app.
  erewrite (add_violations_step g (check_keyword output g)).
  - erewrite (add_violations_step g (check_pattern Regexp output g)); [done|].
    intros f' pat. unfold check_pattern, add_violations, add_violation.
    destruct (Regexp pat) as [fs|]; [destruct (String.eqb (fs output) "")|];
      simpl; rewrite ?andb_true_r, ?andb_false_r, ?app_nil_r; try (by destruct f'); by destruct (String.eqb _ _).
  - intros f' kw. unfold check_keyword, add_violations, add_violation.
    destruct (Contains _ _); simpl; rewrite ?andb_true_r, ?andb_false_r, ?app_nil_r;
      [by destruct (String.eqb _ _)|by destruct f'].
Qed.

Lemma check_guardrails_spec output gs f :
  foldl (check_guardrail Regexp output) f gs =
  mkFiltering (fl_violations f ++ flat_map (violations_of output) gs)
    (fl_blocked f || negb (bool_decide (blocking output gs = [])))
    (match last (blocking output gs) with
     | Some g => GuardrailConfig_FallbackMsg g
     | None => fl_fallbackMsg f
     end).
Proof.
  revert f. induction gs as [|g gs IH]; intros f; simpl.
  { rewrite app_nil_r, orb_false_r. by destruct f. }
  rewrite check_guardrail_spec, IH. unfold blocking, add_violations. rewrite filter_cons.
  destruct (String.eqb_spec (GuardrailConfig_Mode g) "block") as [M|M]; simpl.
  - destruct (bool_decide_reflect (violations_of output g = [])) as [V|V]; simpl.
    + rewrite decide_False by naive_solver. by rewrite V, app_nil_r.
    + rewrite decide_True by done. rewrite <- app_assoc. f_equal.
      * simpl. by rewrite orb_true_r.
      * set (l := filter _ gs). destruct l as [|g' l]; [done|]. simpl.
        by destruct (last_is_Some (g' :: l)) as [_ [? ->]].
  - rewrite decide_False by naive_solver. by rewrite <- app_assoc.
Qed.

(** Check reports every violation, in the order of the guardrails, and replaces
    the output by the message of the last guardrail that blocks it; without a
    message, the output passes. *)
Lemma guardrail_check_exact (gs : list GuardrailConfig) (output : string) :
  Check_output Regexp gs output =
  (match last (blocking output gs) with
   | Some g => if String.eqb (GuardrailConfig_FallbackMsg g) "" then output else GuardrailConfig_FallbackMsg g
   | None => output
   end, flat_map (violations_of output) gs).
Proof.
  unfold Check_output. rewrite check_guardrails_spec. simpl.
  destruct (last (blocking output gs)) as [g|] eqn:L.
  - rewrite bool_decide_false by (intros E; by rewrite E in L). simpl. by destruct (String.eqb _ _).
  - apply last_None in L as ->. done.
Qed.
End guardrail_facts.
