(* ===== verification/Memory.v ===== *)
(** Conversation memory (internal/memory/lru.go, sliding.go, summary.go): the
    LRU tracker, the sliding window and the summarizing store.

    A method of a store is one or more sections under its mutex; a definition
    is one section, so that sections of different goroutines can be
    interleaved. Messages of a session are shared by nothing outside: Load
    copies them. *)
From S2P Require Import Prelude GoStd Ir Loop.
Open Scope Z_scope.

(** * LRU *)

(** LRU tracks session access order: a list of elements, front first, each a
    pointer with its value, and a map from values to elements. [next_elem] is
    the next fresh pointer. *)
Record LRU := mkLRU {
  LRU_order : list (nat * string);
  LRU_elements : gmap string nat;
  next_elem : nat;
}.

(** NewLRU creates a new LRU tracker. *)
Definition NewLRU : LRU := mkLRU [] ∅ 0.

(** [list.Remove] and [list.MoveToFront]: nothing, for an element that is not
    in the list. *)
Definition list_Remove (e : nat) (order : list (nat * string)) : list (nat * string) :=
  List.filter (λ '(e', _), negb (e' =? e)%nat) order.

Definition list_MoveToFront (e : nat) (order : list (nat * string)) : list (nat * string) :=
  match List.find (λ '(e', _), (e' =? e)%nat) order with
  | Some x => x :: list_Remove e order
  | None => order
  end.

(** Promote moves a session to the most-recently-used position. *)
Definition Promote (l : LRU) (sessionID : string) : LRU :=
  match LRU_elements l !! sessionID with
  | Some elem => mkLRU (list_MoveToFront elem (LRU_order l)) (LRU_elements l) (next_elem l)
  | None =>
      let elem := next_elem l in
      mkLRU ((elem, sessionID) :: LRU_order l) (<[sessionID := elem]> (LRU_elements l)) (S elem)
  end.

(** Evict removes and returns the least-recently-used session ID. *)
Definition Evict (l : LRU) : string * LRU :=
  match last (LRU_order l) with
  | None => ("", l)
  | Some (back, sessionID) =>
      (sessionID, mkLRU (list_Remove back (LRU_order l)) (delete sessionID (LRU_elements l)) (next_elem l))
  end.

(** Remove removes a specific session from the tracker. *)
Definition Remove (l : LRU) (sessionID : string) : LRU :=
  match LRU_elements l !! sessionID with
  | Some elem =>
      mkLRU (list_Remove elem (LRU_order l)) (delete sessionID (LRU_elements l)) (next_elem l)
  | None => l
  end.

(** Len returns the number of tracked sessions. *)
Definition Len (l : LRU) : Z := Z.of_nat (length (LRU_order l)).

(** * Sliding window *)

(** SlidingWindow implements a fixed-size message history with FIFO eviction. *)
Record SlidingWindow := mkSlidingWindow {
  SlidingWindow_maxMessages : Z;
  SlidingWindow_maxSessions : Z;
  SlidingWindow_sessions : gmap string (list Message);
  SlidingWindow_lru : LRU;
}.

Global Instance settable_SlidingWindow : Settable SlidingWindow := λ s,
  mkSlidingWindow (SlidingWindow_maxMessages s) (SlidingWindow_maxSessions s)
    (SlidingWindow_sessions s) (SlidingWindow_lru s).

(** WithMaxSessions sets the maximum number of concurrent sessions tracked. *)
Definition WithMaxSessions (n : Z) (s : SlidingWindow) : SlidingWindow :=
  if 0 <? n then s <| SlidingWindow_maxSessions := n |> else s.

(** NewSlidingWindow creates a sliding window memory store. *)
Definition NewSlidingWindow (maxMessages : Z) (opts : list (SlidingWindow → SlidingWindow)) : SlidingWindow :=
  let maxMessages := if maxMessages <=? 0 then 50 else maxMessages in
  foldl (λ s opt, opt s) (mkSlidingWindow maxMessages 10000 ∅ NewLRU) opts.

(** [s.sessions[sessionID]] *)
Definition session_messages (sessions : gmap string (list Message)) (sessionID : string) : list Message :=
  default [] (sessions !! sessionID).

(** The eviction loop: it stops at a victim with an empty name. [fuel] is the
    number of tracked sessions. *)
Fixpoint evict_loop (fuel : nat) (maxSessions : Z) (lru : LRU) (sessions : gmap string (list Message)) :
    LRU * gmap string (list Message) :=
  if Len lru <=? maxSessions then (lru, sessions)
  else
    match fuel with
    | O => (lru, sessions)
    | S fuel =>
        let '(victim, lru) := Evict lru in
        if String.eqb victim "" then (lru, sessions)
        else evict_loop fuel maxSessions lru (delete victim sessions)
    end.

Definition evict_sessions (maxSessions : Z) (lru : LRU) (sessions : gmap string (list Message)) :
    LRU * gmap string (list Message) :=
  evict_loop (length (LRU_order lru)) maxSessions lru sessions.

(** The two sections of Load: a copy of the history, then the promotion. *)
Definition SlidingWindow_Load_read (s : SlidingWindow) (sessionID : string) : list Message :=
  session_messages (SlidingWindow_sessions s) sessionID.

Definition SlidingWindow_Load_promote (s : SlidingWindow) (sessionID : string) : SlidingWindow :=
  s <| SlidingWindow_lru := Promote (SlidingWindow_lru s) sessionID |>.

(** Save appends messages and evicts oldest when the window is exceeded. *)
Definition SlidingWindow_Save (s : SlidingWindow) (sessionID : string) (messages : list Message) : SlidingWindow :=
  let existing := session_messages (SlidingWindow_sessions s) sessionID ++ messages in
  let existing :=
    if SlidingWindow_maxMessages s <? Z.of_nat (length existing)
    then drop (length existing - Z.to_nat (SlidingWindow_maxMessages s)) existing
    else existing in
  let '(lru, sessions) :=
    evict_sessions (SlidingWindow_maxSessions s) (Promote (SlidingWindow_lru s) sessionID)
      (<[sessionID := existing]> (SlidingWindow_sessions s)) in
  s <| SlidingWindow_lru := lru |> <| SlidingWindow_sessions := sessions |>.

(** Clear removes all messages for a session and removes it from the LRU
    tracker. *)
Definition SlidingWindow_Clear (s : SlidingWindow) (sessionID : string) : SlidingWindow :=
  s <| SlidingWindow_sessions := delete sessionID (SlidingWindow_sessions s) |>
    <| SlidingWindow_lru := Remove (SlidingWindow_lru s) sessionID |>.

(** * Summary *)

(** Summary implements conversation memory with LLM-based summarization; its
    client is an argument of Save. *)
Record Summary := mkSummary {
  Summary_threshold : Z;
  Summary_maxSessions : Z;
  Summary_sessions : gmap string (list Message);
  Summary_model : string;
  Summary_lru : LRU;
}.

Global Instance settable_Summary : Settable Summary := λ s,
  mkSummary (Summary_threshold s) (Summary_maxSessions s) (Summary_sessions s) (Summary_model s) (Summary_lru s).

(** WithSummaryMaxSessions sets the maximum number of sessions. *)
Definition WithSummaryMaxSessions (n : Z) (s : Summary) : Summary :=
  if 0 <? n then s <| Summary_maxSessions := n |> else s.

(** NewSummary creates a summarization memory store. *)
Definition NewSummary (threshold : Z) (model : string) (opts : list (Summary → Summary)) : Summary :=
  let threshold := if threshold <=? 0 then 20 else threshold in
  foldl (λ s opt, opt s) (mkSummary threshold 10000 ∅ model NewLRU) opts.

Definition Summary_Load_read (s : Summary) (sessionID : string) : list Message :=
  session_messages (Summary_sessions s) sessionID.

Definition Summary_Load_promote (s : Summary) (sessionID : string) : Summary :=
  s <| Summary_lru := Promote (Summary_lru s) sessionID |>.

(** The section of Save, and whether a summary is needed. *)
Definition Summary_Save_append (s : Summary) (sessionID : string) (messages : list Message) : Summary * bool :=
  let existing := session_messages (Summary_sessions s) sessionID ++ messages in
  let '(lru, sessions) :=
    evict_sessions (Summary_maxSessions s) (Promote (Summary_lru s) sessionID)
      (<[sessionID := existing]> (Summary_sessions s)) in
  (s <| Summary_lru := lru |> <| Summary_sessions := sessions |>,
   Summary_threshold s <? Z.of_nat (length existing)).

Definition Summary_Clear (s : Summary) (sessionID : string) : Summary :=
  s <| Summary_sessions := delete sessionID (Summary_sessions s) |>
    <| Summary_lru := Remove (Summary_lru s) sessionID |>.

(** The first section of summarize: what to summarize and what to keep. *)
Definition summarize_read (s : Summary) (sessionID : string) : option (list Message * list Message) :=
  let msgs := session_messages (Summary_sessions s) sessionID in
  if Z.of_nat (length msgs) <=? Summary_threshold s then None
  else
    let keepCount := Z.to_nat (Z.quot (Summary_threshold s) 2) in
    let n := (length msgs - keepCount)%nat in
    Some (take n msgs, drop n msgs).

(** Its last section. *)
Definition summarize_write (s : Summary) (sessionID summary : string) (toKeep : list Message) : Summary :=
  let summarized :=
    assistant_message ("[Previous conversation summary: " +:+ summary +:+ "]") [] :: toKeep in
  s <| Summary_sessions := <[sessionID := summarized]> (Summary_sessions s) |>.

Definition summary_request (s : Summary) (toSummarize : list Message) : ChatRequest :=
  mkChatRequest (Summary_model s)
    [user_message ("Summarize this conversation concisely, preserving key facts and decisions:" +:+ nl +:+ nl +:+
       String.concat "" ((λ m, Message_Role m +:+ ": " +:+ Message_Content m +:+ nl) <$> toSummarize))]
    "" [] 500 None.

(** Save, when no other call runs at the same time. *)
Definition Summary_Save {W} `{!Client W} (s : Summary) (sessionID : string) (messages : list Message) (w : W) :
    Summary * option string * W :=
  let '(s, needsSummary) := Summary_Save_append s sessionID messages in
  if negb needsSummary then (s, None, w)
  else
    match summarize_read s sessionID with
    | None => (s, None, w)
    | Some (toSummarize, toKeep) =>
        match Chat (summary_request s toSummarize) w with
        | (Err err, w) => (s, Some ("summarize memory: " +:+ err), w)
        | (Ok resp, w) => (summarize_write s sessionID (ChatResponse_Content resp) toKeep, None, w)
        end
    end.
