(* ===== verification/MemoryFacts.v ===== *)
(** The pointers of the LRU implement an order of recency; the sliding window
    refines a bounded cache of windows, whatever the interleaving of its
    sections, and stays within its bounds. *)
From S2P Require Import Prelude GoStd Ir Loop Memory.
Open Scope Z_scope.

(** * The LRU is a list of keys *)

(** The tracked sessions, most recent first. *)
Definition keys (l : LRU) : list string := (LRU_order l).*2.

Definition without (id : string) (ks : list string) : list string := filter (λ k, k ≠ id) ks.

Record lru_ok (l : LRU) : Prop := {
  lo_pointers : NoDup (LRU_order l).*1;
  lo_keys : NoDup (keys l);
  lo_elements : ∀ k e, LRU_elements l !! k = Some e ↔ (e, k) ∈ LRU_order l;
  lo_fresh : ∀ e k, (e, k) ∈ LRU_order l → (e < next_elem l)%nat;
}.

Lemma without_fresh id ks : id ∉ ks → without id ks = ks.
Proof.
  unfold without. induction ks as [|k ks IH]; intros N; [done|].
  rewrite filter_cons, decide_True by set_solver. rewrite IH; set_solver.
Qed.

Lemma without_split id ks1 ks2 : NoDup (ks1 ++ id :: ks2) → without id (ks1 ++ id :: ks2) = ks1 ++ ks2.
Proof.
  intros (N1 & D & N2)%NoDup_app. apply NoDup_cons in N2 as [N2 _].
  assert (id ∉ ks1) as N3 by (intros I; apply (D id I); left).
  unfold without. rewrite filter_app, filter_cons, decide_False by naive_solver.
  f_equal; by apply without_fresh.
Qed.

Lemma list_Remove_fresh e order : e ∉ order.*1 → list_Remove e order = order.
Proof.
  unfold list_Remove. induction order as [|[e' k'] order IH]; intros N; [done|]. simpl in *.
  destruct (Nat.eqb_spec e' e) as [->|]; simpl; [set_solver|]. rewrite IH; set_solver.
Qed.

Lemma list_Remove_split e k l1 l2 : NoDup (l1 ++ (e, k) :: l2).*1 →
  list_Remove e (l1 ++ (e, k) :: l2) = l1 ++ l2.
Proof.
  rewrite fmap_app. intros (N1 & D & N2)%NoDup_app. apply NoDup_cons in N2 as [N2 _].
  assert (e ∉ l1.*1) as N3 by (intros I; apply (D e I); left).
  unfold list_Remove. rewrite List.filter_app. simpl. rewrite Nat.eqb_refl. simpl.
  f_equal; by apply list_Remove_fresh.
Qed.

Lemma list_MoveToFront_split e k l1 l2 : NoDup (l1 ++ (e, k) :: l2).*1 →
  list_MoveToFront e (l1 ++ (e, k) :: l2) = (e, k) :: l1 ++ l2.
Proof.
  intros N. unfold list_MoveToFront. rewrite list_Remove_split by done.
  assert (List.find (λ '(e', _), (e' =? e)%nat) (l1 ++ (e, k) :: l2) = Some (e, k)) as ->; [|done].
  rewrite fmap_app in N. apply NoDup_app in N as (_ & D & _).
  induction l1 as [|[e' k'] l1 IH]; simpl; [by rewrite Nat.eqb_refl|].
  destruct (Nat.eqb_spec e' e) as [->|]; [|apply IH; set_solver].
  exfalso. apply (D e); [left|simpl; left].
Qed.

(** The state of a tracker in which the element [(e, k)] is singled out. *)
Lemma lru_split l id e : lru_ok l → LRU_elements l !! id = Some e → ∃ l1 l2,
  LRU_order l = l1 ++ (e, id) :: l2 ∧ keys l = l1.*2 ++ id :: l2.*2 ∧
  without id (keys l) = (l1 ++ l2).*2.
Proof.
  intros [Np Nk El Fr] E. apply El in E. apply list_elem_of_split in E as (l1 & l2 & E).
  exists l1, l2. unfold keys in *. rewrite E, !fmap_app in *. simpl in *.
  by rewrite without_split.
Qed.

Lemma lru_ok_new : lru_ok NewLRU.
Proof.
  constructor; unfold keys; simpl; try constructor.
  - intros E. by rewrite lookup_empty in E.
  - intros E. by apply not_elem_of_nil in E.
  - intros e k E. by apply not_elem_of_nil in E.
Qed.

(** An order with the same elements, and what becomes of the map. *)
Lemma lru_ok_perm l order : lru_ok l → order ≡ₚ LRU_order l →
  lru_ok (mkLRU order (LRU_elements l) (next_elem l)).
Proof.
  intros [Np Nk El Fr] P. constructor; unfold keys in *; simpl; try (by rewrite P).
  - intros k e. by rewrite El, P.
  - intros e k. rewrite P. apply Fr.
Qed.

Lemma lru_ok_delete l id l1 l2 e : lru_ok l → LRU_order l = l1 ++ (e, id) :: l2 →
  lru_ok (mkLRU (l1 ++ l2) (delete id (LRU_elements l)) (next_elem l)).
Proof.
  intros [Np Nk El Fr] E. unfold keys in *. rewrite E in *.
  assert (l1 ++ (e, id) :: l2 ≡ₚ (e, id) :: (l1 ++ l2)) as P by by rewrite Permutation_middle.
  rewrite P in Np, Nk. simpl in Np, Nk. apply NoDup_cons in Np as [Np1 Np], Nk as [Nk1 Nk].
  constructor; unfold keys; simpl; try done.
  - intros k e'. destruct (decide (k = id)) as [->|N].
    + rewrite lookup_delete_eq. split; [done|]. intros I. destruct Nk1.
      apply list_elem_of_fmap. by exists (e', id).
    + rewrite lookup_delete_ne, El, P, elem_of_cons by done. naive_solver.
  - intros e' k I. apply (Fr e' k). rewrite P. by right.
Qed.

Lemma Promote_spec l id : lru_ok l → lru_ok (Promote l id) ∧ keys (Promote l id) = id :: without id (keys l).
Proof.
  intros Ok. unfold Promote. destruct (LRU_elements l !! id) as [e|] eqn:E.
  - destruct (lru_split l id e Ok E) as (l1 & l2 & Eo & Ek & Ew). pose proof (lo_pointers _ Ok) as Np.
    rewrite Eo in *. rewrite list_MoveToFront_split by done. split.
    + apply lru_ok_perm; [done|]. by rewrite Eo, Permutation_middle.
    + by rewrite Ew.
  - destruct Ok as [Np Nk El Fr].
    assert (id ∉ keys l) as Ni.
    { intros ([e k] & -> & I)%list_elem_of_fmap. apply El in I. simpl in *. congruence. }
    rewrite without_fresh by done. split; [|done]. constructor; unfold keys in *; simpl.
    + constructor; [|done]. intros ([e k] & E' & I)%list_elem_of_fmap. simpl in E'. subst.
      apply Fr in I. lia.
    + by constructor.
    + intros k e. rewrite elem_of_cons. destruct (decide (k = id)) as [->|N].
      * rewrite lookup_insert_eq, <- El, E. naive_solver.
      * rewrite lookup_insert_ne, El by done. naive_solver.
    + intros e k [[= -> ->]|I]%elem_of_cons; [lia|]. apply Fr in I. lia.
Qed.

Lemma Remove_spec l id : lru_ok l → lru_ok (Remove l id) ∧ keys (Remove l id) = without id (keys l).
Proof.
  intros Ok. unfold Remove. destruct (LRU_elements l !! id) as [e|] eqn:E.
  - destruct (lru_split l id e Ok E) as (l1 & l2 & Eo & Ek & Ew). pose proof (lo_pointers _ Ok) as Np.
    rewrite Eo in Np |- *. rewrite list_Remove_split by done. split; [by eapply lru_ok_delete|]. by rewrite Ew.
  - split; [done|]. symmetry. apply without_fresh.
    intros ([e k] & -> & I)%list_elem_of_fmap. apply (lo_elements _ Ok) in I. simpl in *. congruence.
Qed.

Lemma Evict_spec l ks id : lru_ok l → keys l = ks ++ [id] →
  (Evict l).1 = id ∧ lru_ok (Evict l).2 ∧ keys (Evict l).2 = ks.
Proof.
  intros Ok E. unfold Evict. unfold keys in E. pose proof E as E'.
  apply fmap_app_inv in E' as (l1 & l2 & E1 & E2 & Eo).
  destruct l2 as [|[e k] [|]]; try done. injection E2 as E2. simpl in E2. subst k ks.
  rewrite Eo, last_snoc. simpl. pose proof (lo_pointers _ Ok) as Np. rewrite Eo in Np.
  rewrite list_Remove_split, app_nil_r by done. split; [done|].
  pose proof (lru_ok_delete l id l1 [] e Ok Eo) as D. rewrite app_nil_r in D. done.
Qed.

Lemma Len_keys l : Len l = Z.of_nat (length (keys l)).
Proof. unfold Len, keys. by rewrite length_fmap. Qed.

(** * The cache of windows

    The specification: sessions in order of recency, with their windows. *)

Abbreviation cache := (list (string * list Message)).

Definition drop_id (id : string) (c : cache) : cache := filter (λ '(k, _), k ≠ id) c.

Definition window (c : cache) (id : string) : list Message :=
  match List.find (λ '(k, _), String.eqb k id) c with Some (_, w) => w | None => [] end.

(** The last [n] elements. *)
Definition lastn {A} (n : nat) (l : list A) : list A := drop (length l - n) l.

Inductive MemOp :=
  | OpRead (id : string)
  | OpPromote (id : string)
  | OpSave (id : string) (messages : list Message)
  | OpClear (id : string).

Definition op_id (op : MemOp) : string :=
  match op with OpRead id | OpPromote id | OpSave id _ | OpClear id => id end.

(** What an operation shows, and what it makes of the cache, with windows of
    [m] messages and room for [n] sessions. *)
Definition cache_step (m n : nat) (c : cache) (op : MemOp) : option (list Message) * cache :=
  match op with
  | OpRead id => (Some (window c id), c)
  | OpPromote id => (None, (id, window c id) :: drop_id id c)
  | OpSave id ms => (None, take n ((id, lastn m (window c id ++ ms)) :: drop_id id c))
  | OpClear id => (None, drop_id id c)
  end.

Definition window_step (s : SlidingWindow) (op : MemOp) : option (list Message) * SlidingWindow :=
  match op with
  | OpRead id => (Some (SlidingWindow_Load_read s id), s)
  | OpPromote id => (None, SlidingWindow_Load_promote s id)
  | OpSave id ms => (None, SlidingWindow_Save s id ms)
  | OpClear id => (None, SlidingWindow_Clear s id)
  end.

(** The histories that a sequence of operations shows, and the last state. *)
Fixpoint run_ops {S} (step : S → MemOp → option (list Message) * S) (s : S) (ops : list MemOp) :
    list (option (list Message)) * S :=
  match ops with
  | [] => ([], s)
  | op :: ops => let '(o, s) := step s op in let '(os, s) := run_ops step s ops in (o :: os, s)
  end.

Lemma drop_id_keys id c : (drop_id id c).*1 = without id c.*1.
Proof.
  unfold drop_id, without. induction c as [|[k w] c IH]; [done|]. rewrite fmap_cons, !filter_cons.
  simpl. case_decide; [by rewrite fmap_cons, IH|done].
Qed.

Lemma window_cons id id' w c : window ((id', w) :: c) id = if decide (id' = id) then w else window c id.
Proof. unfold window. simpl. by destruct (String.eqb_spec id' id), (decide (id' = id)). Qed.

Lemma window_drop id id' c : window (drop_id id' c) id = if decide (id' = id) then [] else window c id.
Proof.
  induction c as [|[k w] c IH]; [by case_decide|]. unfold drop_id in *. rewrite filter_cons.
  rewrite window_cons. destruct (decide (k ≠ id')) as [N|N]; [rewrite window_cons, IH|rewrite IH];
    repeat case_decide; naive_solver.
Qed.

Lemma window_unknown c id : id ∉ c.*1 → window c id = [].
Proof.
  induction c as [|[k w] c IH]; intros N; [done|]. rewrite window_cons.
  rewrite decide_False by set_solver. apply IH. set_solver.
Qed.

Lemma window_take c n id : NoDup c.*1 → window (take n c) id = if decide (id ∈ take n c.*1) then window c id else [].
Proof.
  revert n. induction c as [|[k w] c IH]; intros [|n] N; simpl; [done..|].
  apply NoDup_cons in N as [Nk N]. rewrite !window_cons. destruct (decide (k = id)) as [->|Ne].
  - by rewrite decide_True by left.
  - rewrite IH by done. destruct (decide (id ∈ take n c.*1)).
    + by rewrite decide_True by by right.
    + by rewrite decide_False by (rewrite elem_of_cons; naive_solver).
Qed.

Lemma drop_id_fresh id id' c : id' ∉ c.*1 → id' ∉ (drop_id id c).*1.
Proof. rewrite drop_id_keys. unfold without. rewrite list_elem_of_filter. naive_solver. Qed.

Lemma drop_id_NoDup id w c : NoDup c.*1 → NoDup ((id, w) :: drop_id id c).*1.
Proof.
  intros N. rewrite fmap_cons, drop_id_keys. apply NoDup_cons. unfold without.
  rewrite list_elem_of_filter. split; [naive_solver|by apply NoDup_filter].
Qed.

(** * The refinement *)

Record represents (s : SlidingWindow) (c : cache) : Prop := {
  rp_lru : lru_ok (SlidingWindow_lru s);
  rp_keys : keys (SlidingWindow_lru s) = c.*1;
  rp_windows : ∀ id, session_messages (SlidingWindow_sessions s) id = window c id;
  rp_tracked : ∀ id, is_Some (SlidingWindow_sessions s !! id) → id ∈ c.*1;
  rp_names : "" ∉ c.*1;
}.

(** The eviction loop cuts the order, and forgets what it cuts. *)
Lemma evict_loop_spec fuel n lru sessions : lru_ok lru → "" ∉ keys lru →
  (length (keys lru) ≤ fuel + Z.to_nat n)%nat → 0 <= n →
  let '(lru', sessions') := evict_loop fuel n lru sessions in
  lru_ok lru' ∧ keys lru' = take (Z.to_nat n) (keys lru) ∧
  ∀ id, sessions' !! id = if decide (id ∈ drop (Z.to_nat n) (keys lru)) then None else sessions !! id.
Proof.
  revert lru sessions. induction fuel as [|fuel IH]; intros lru sessions Ok Ne L P; cbn [evict_loop];
    rewrite Len_keys; destruct (Z.leb_spec (Z.of_nat (length (keys lru))) n) as [Le|Lt];
    try (rewrite take_ge, drop_ge by lia; split_and!; [done..|]; intros id;
         by rewrite decide_False by apply not_elem_of_nil).
  assert (∃ ks id, keys lru = ks ++ [id]) as (ks & id & E).
  { destruct (keys lru) as [|k ks] using rev_ind; [simpl in Lt; lia|by eexists _, _]. }
  destruct (Evict_spec lru ks id Ok E) as (E1 & Ok' & K').
  destruct (Evict lru) as [victim lru']. simpl in *. subst victim.
  rewrite E in *. rewrite length_app in L, Lt. simpl in L, Lt.
  assert (Nid : id ≠ "") by (intros ->; apply Ne, elem_of_app; right; left).
  apply String.eqb_neq in Nid as ->.
  specialize (IH lru' (delete id sessions) Ok').
  destruct (evict_loop fuel n lru' (delete id sessions)) as [lru2 sessions2].
  rewrite K' in IH. destruct IH as (Ok2 & K2 & S2); [set_solver|lia|done|].
  split_and!; [done|by rewrite take_app_le by lia|]. intros id'. rewrite S2.
  rewrite drop_app_le by lia. pose proof (lo_keys _ Ok) as Nd. rewrite E in Nd.
  apply NoDup_app in Nd as (_ & D & _).
  destruct (decide (id' ∈ drop (Z.to_nat n) ks)) as [I|I].
  - by rewrite decide_True by set_solver.
  - destruct (decide (id' = id)) as [->|Ni].
    + rewrite decide_True by set_solver. by rewrite lookup_delete_eq.
    + rewrite decide_False by set_solver. by rewrite lookup_delete_ne.
Qed.

Lemma lastn_window (m : Z) (l : list Message) : 0 < m →
  (if m <? Z.of_nat (length l) then drop (length l - Z.to_nat m) l else l) = lastn (Z.to_nat m) l.
Proof.
  intros P. unfold lastn. destruct (Z.ltb_spec m (Z.of_nat (length l))); [done|].
  assert (length l - Z.to_nat m = 0)%nat as -> by lia. done.
Qed.

Lemma window_step_refines s c op : represents s c → op_id op ≠ "" →
  0 < SlidingWindow_maxMessages s → 0 < SlidingWindow_maxSessions s →
  let m := Z.to_nat (SlidingWindow_maxMessages s) in
  let n := Z.to_nat (SlidingWindow_maxSessions s) in
  (window_step s op).1 = (cache_step m n c op).1 ∧
  represents (window_step s op).2 (cache_step m n c op).2 ∧
  SlidingWindow_maxMessages (window_step s op).2 = SlidingWindow_maxMessages s ∧
  SlidingWindow_maxSessions (window_step s op).2 = SlidingWindow_maxSessions s.
Proof.
  intros [Ok K Wn Tr Nm] No Pm Pn m n. pose proof (lo_keys _ Ok) as Nd. rewrite K in Nd.
  destruct op as [id|id|id ms|id]; simpl in No |- *.
  - unfold SlidingWindow_Load_read. by rewrite Wn.
  - destruct (Promote_spec _ id Ok) as [Ok' K']. split_and!; try done. constructor; simpl; try done.
    + by rewrite K', K, drop_id_keys.
    + intros id'. rewrite window_cons, window_drop, Wn. case_decide; [by subst|done].
    + intros id' I%Tr. rewrite drop_id_keys. unfold without.
      rewrite elem_of_cons, list_elem_of_filter. destruct (decide (id' = id)); auto.
    + apply not_elem_of_cons. split; [done|]. by apply drop_id_fresh.
  - unfold SlidingWindow_Save, evict_sessions. rewrite lastn_window by done. fold m.
    destruct (Promote_spec _ id Ok) as [Ok' K']. rewrite K in K'.
    set (c1 := (id, lastn m (window c id ++ ms)) :: drop_id id c).
    assert (keys (Promote (SlidingWindow_lru s) id) = c1.*1) as Kc.
    { rewrite K'. unfold c1. simpl. by rewrite drop_id_keys. }
    pose proof (evict_loop_spec (length (LRU_order (Promote (SlidingWindow_lru s) id)))
      (SlidingWindow_maxSessions s) (Promote (SlidingWindow_lru s) id)
      (<[id := lastn m (session_messages (SlidingWindow_sessions s) id ++ ms)]> (SlidingWindow_sessions s)) Ok') as Ev.
    destruct (evict_loop _ _ _ _) as [lru sessions].
    destruct Ev as (Ok2 & K2 & S2).
    { rewrite Kc. apply not_elem_of_cons. split; [done|]. by apply drop_id_fresh. }
    { unfold keys. rewrite length_fmap. lia. }
    { lia. }
    rewrite Kc in K2, S2. fold n in K2, S2. pose proof (lo_keys _ Ok') as Nd1. rewrite Kc in Nd1.
    assert (∀ i, i ∈ take n c1.*1 → i ∉ drop n c1.*1) as Dj.
    { rewrite <- (take_drop n c1.*1) in Nd1. apply NoDup_app in Nd1. naive_solver. }
    assert (∀ i, i ∈ c1.*1 → i ∈ take n c1.*1 ∨ i ∈ drop n c1.*1) as Cov.
    { intros i I. rewrite <- (take_drop n c1.*1), elem_of_app in I. done. }
    assert (∀ i, is_Some (<[id := lastn m (session_messages (SlidingWindow_sessions s) id ++ ms)]>
      (SlidingWindow_sessions s) !! i) → i ∈ c1.*1) as Tr1.
    { intros i Hi. unfold c1. simpl. rewrite drop_id_keys. unfold without.
      rewrite elem_of_cons, list_elem_of_filter. destruct (decide (i = id)) as [|Ni]; [auto|right].
      rewrite lookup_insert_ne in Hi by done. auto. }
    split_and!; try done. constructor; simpl.
    + done.
    + by rewrite K2, fmap_take.
    + intros i. unfold session_messages. rewrite S2, window_take by done.
      destruct (decide (i ∈ drop n c1.*1)) as [I|I].
      * rewrite decide_False; [done|]. intros J. by eapply Dj.
      * destruct (decide (i ∈ take n c1.*1)) as [J|J].
        { unfold c1. rewrite window_cons, window_drop. destruct (decide (id = i)) as [->|Ni].
          - rewrite lookup_insert_eq. simpl. by rewrite Wn.
          - rewrite lookup_insert_ne by done. apply Wn. }
        { destruct (_ !! i) eqn:E; [|done]. exfalso.
          destruct (Cov i (Tr1 i ltac:(by rewrite E))); done. }
    + intros i [w E]. rewrite S2 in E. destruct (decide _) as [|I]; [done|].
      rewrite fmap_take. destruct (Cov i) as [J|J]; [apply Tr1; by eexists|done|done].
    + rewrite fmap_take. intros J%elem_of_take. destruct J as (i & J & _).
      apply list_elem_of_lookup_2 in J. apply elem_of_cons in J as [J|J]; [by destruct No|].
      by apply drop_id_fresh in J.
  - destruct (Remove_spec _ id Ok) as [Ok' K']. split_and!; try done. constructor; simpl; try done.
    + by rewrite K', K, drop_id_keys.
    + intros i. unfold session_messages. rewrite window_drop. destruct (decide (id = i)) as [->|N].
      * by rewrite lookup_delete_eq.
      * rewrite lookup_delete_ne by done. apply Wn.
    + intros i [w E]. rewrite drop_id_keys. unfold without. rewrite list_elem_of_filter.
      apply lookup_delete_Some in E as [N E]. split; [done|]. apply Tr. by eexists.
    + by apply drop_id_fresh.
Qed.

(** * Bounds *)

Record bounded (s : SlidingWindow) : Prop := {
  bd_sessions : Z.of_nat (size (SlidingWindow_sessions s)) <= SlidingWindow_maxSessions s;
  bd_messages id : Z.of_nat (length (session_messages (SlidingWindow_sessions s) id)) <= SlidingWindow_maxMessages s;
}.

Lemma size_tracked {A} (m : gmap string A) (ks : list string) :
  (∀ id, is_Some (m !! id) → id ∈ ks) → (size m ≤ length ks)%nat.
Proof.
  intros T. rewrite <- (length_map_to_list m), <- (length_fmap fst). apply submseteq_length, NoDup_submseteq.
  - apply NoDup_fst_map_to_list.
  - intros id ([k a] & -> & I)%list_elem_of_fmap. apply elem_of_map_to_list in I. apply T. by eexists.
Qed.

Lemma lastn_length {A} n (l : list A) : (length (lastn n l) ≤ n)%nat.
Proof. unfold lastn. rewrite length_drop. lia. Qed.

Lemma window_step_bounded s c op : represents s c → op_id op ≠ "" →
  0 < SlidingWindow_maxMessages s → 0 < SlidingWindow_maxSessions s → bounded s →
  bounded (window_step s op).2.
Proof.
  intros R No Pm Pn [Bs Bm]. destruct (window_step_refines s c op R No Pm Pn) as (_ & R' & Em & En).
  destruct op as [id|id|id ms|id]; try done; simpl in R', Em, En |- *.
  - constructor; rewrite ?Em, ?En.
    + pose proof (size_tracked _ _ (rp_tracked _ _ R')) as Sz. rewrite length_fmap, length_take in Sz. lia.
    + intros i. rewrite (rp_windows _ _ R'). specialize (Bm i). rewrite (rp_windows _ _ R) in Bm.
      pose proof (lo_keys _ (rp_lru _ _ R)) as Nd. rewrite (rp_keys _ _ R) in Nd.
      rewrite window_take.
      * destruct (decide _); simpl; [|lia]. rewrite window_cons, window_drop.
        destruct (decide (id = i)); [|done].
        pose proof (lastn_length (Z.to_nat (SlidingWindow_maxMessages s)) (window c id ++ ms)). lia.
      * by apply drop_id_NoDup.
  - constructor; simpl.
    + rewrite map_size_delete. destruct (_ !! id); simpl; lia.
    + intros i. specialize (Bm i). unfold session_messages in *. destruct (decide (id = i)) as [->|N].
      * rewrite lookup_delete_eq. simpl. lia.
      * by rewrite lookup_delete_ne.
Qed.

(** * Every run of a store *)

Section runs.
Context (maxMessages : Z) (limits : list Z) (ops : list MemOp).

Let store : SlidingWindow := NewSlidingWindow maxMessages (WithMaxSessions <$> limits).
Let m : nat := Z.to_nat (SlidingWindow_maxMessages store).
Let n : nat := Z.to_nat (SlidingWindow_maxSessions store).

Lemma new_store_limits :
  0 < SlidingWindow_maxMessages store ∧ 0 < SlidingWindow_maxSessions store ∧
  represents store [] ∧ bounded store.
Proof.
  unfold store, NewSlidingWindow.
  set (s0 := mkSlidingWindow (if maxMessages <=? 0 then 50 else maxMessages) 10000 ∅ NewLRU).
  assert (0 < SlidingWindow_maxMessages s0) as Pm by (simpl; destruct (Z.leb_spec maxMessages 0); lia).
  assert (0 < SlidingWindow_maxSessions s0) as Pn by done.
  assert (SlidingWindow_sessions s0 = ∅ ∧ SlidingWindow_lru s0 = NewLRU) as [S L] by done.
  clearbody s0. revert s0 Pm Pn S L. induction limits as [|k l IH]; intros s0 Pm Pn S L; simpl.
  - split_and!; [done|done|constructor|constructor]; rewrite ?S, ?L; unfold keys, session_messages; simpl;
      rewrite ?map_size_empty; try (done || lia).
    + apply lru_ok_new.
    + intros id [? Hk]. by rewrite lookup_empty in Hk.
    + by apply not_elem_of_nil.
    + intros id. rewrite lookup_empty. simpl. lia.
  - apply IH; unfold WithMaxSessions; destruct (Z.ltb_spec 0 k); simpl; done.
Qed.

Lemma run_refines s c ops' : Forall (λ op, op_id op ≠ "") ops' → represents s c → bounded s →
  SlidingWindow_maxMessages s = SlidingWindow_maxMessages store →
  SlidingWindow_maxSessions s = SlidingWindow_maxSessions store →
  let r := run_ops window_step s ops' in
  r.1 = (run_ops (cache_step m n) c ops').1 ∧
  represents r.2 (run_ops (cache_step m n) c ops').2 ∧ bounded r.2 ∧
  SlidingWindow_maxMessages r.2 = SlidingWindow_maxMessages store ∧
  SlidingWindow_maxSessions r.2 = SlidingWindow_maxSessions store.
Proof.
  destruct new_store_limits as (Pm & Pn & _). intros F. revert s c.
  induction F as [|op ops' No F IH]; intros s c R B Em En; [done|]. cbn [run_ops].
  destruct (window_step_refines s c op R No) as (O & R' & Em' & En'); [by rewrite Em|by rewrite En|].
  pose proof (window_step_bounded s c op R No) as B'. rewrite Em, En in B'. specialize (B' Pm Pn B).
  rewrite Em, En in O, R'. fold m n in O, R'. rewrite Em in Em'. rewrite En in En'.
  destruct (window_step s op) as [o s'], (cache_step m n c op) as [o' c']. simpl in *. subst o'.
  specialize (IH s' c' R' B' Em' En'). simpl in IH.
  destruct (run_ops window_step s' ops') as [os s2], (run_ops (cache_step m n) c' ops') as [os' c2].
  simpl in *. destruct IH as (-> & ?). done.
Qed.

(** C14. The sliding window behaves as a bounded cache: whatever the sections of
    concurrent calls and their order, with session names that are not empty,
    every Load shows the last messages saved for the session since it was
    cleared or evicted, and the sessions evicted are the least recently used. *)
Theorem sliding_window_refines (Names : Forall (λ op, op_id op ≠ "") ops) :
  (run_ops window_step store ops).1 = (run_ops (cache_step m n) [] ops).1.
Proof.
  destruct new_store_limits as (_ & _ & R & B). by destruct (run_refines store [] ops Names R B eq_refl eq_refl).
Qed.

(** In every state that a store reaches through such sections it holds at
    most maxSessions sessions, each with at most maxMessages messages. *)
Lemma sliding_window_bounded (Names : Forall (λ op, op_id op ≠ "") ops) :
  let s := (run_ops window_step store ops).2 in
  Z.of_nat (size (SlidingWindow_sessions s)) <= SlidingWindow_maxSessions store ∧
  ∀ id, Z.of_nat (length (SlidingWindow_Load_read s id)) <= SlidingWindow_maxMessages store.
Proof.
  destruct new_store_limits as (_ & _ & R & B).
  destruct (run_refines store [] ops Names R B eq_refl eq_refl) as (_ & _ & [Bs Bm] & Em & En).
  cbv zeta. rewrite <- Em, <- En. split; [exact Bs|exact Bm].
Qed.
End runs.

Definition hello (s : string) : Message := user_message s.

Definition three_sessions : list MemOp :=
  [OpSave "a" [hello "1"; hello "2"; hello "3"]; OpSave "b" [hello "4"]; OpRead "a"; OpPromote "a";
   OpSave "c" [hello "5"]; OpRead "a"; OpRead "b"; OpClear "a"; OpRead "a"].

Lemma sliding_window_refines_witness :
  let store := NewSlidingWindow 2 (WithMaxSessions <$> [2]) in
  (run_ops window_step store three_sessions).1 =
    [None; None; Some [hello "2"; hello "3"]; None; None; Some [hello "2"; hello "3"]; Some []; None; Some []] ∧
  (run_ops window_step store three_sessions).1 = (run_ops (cache_step 2 2) [] three_sessions).1.
Proof.
  split; [by vm_compute|]. apply (sliding_window_refines 2 [2] three_sessions). by repeat constructor.
Defined.

Lemma sliding_window_bounded_witness :
  let s := (run_ops window_step (NewSlidingWindow 2 (WithMaxSessions <$> [2])) three_sessions).2 in
  Z.of_nat (size (SlidingWindow_sessions s)) <= 2 ∧
  ∀ id, Z.of_nat (length (SlidingWindow_Load_read s id)) <= 2.
Proof. apply (sliding_window_bounded 2 [2] three_sessions). by repeat constructor. Defined.

(** Loading sessions that do not exist takes room: after two such loads, the
    next save evicts the only session of a store for two. *)
Lemma loads_evict_sessions :
  let s := NewSlidingWindow 2 [WithMaxSessions 2] in
  let s := SlidingWindow_Save s "a" [hello "kept?"] in
  let s := SlidingWindow_Load_promote (SlidingWindow_Load_promote s "x") "y" in
  let s := SlidingWindow_Save s "b" [hello "1"] in
  SlidingWindow_Load_read s "a" = [] ∧ size (SlidingWindow_sessions s) = 1%nat.
Proof. by vm_compute. Qed.

(** A session with an empty name ends the eviction loop without losing its
    messages: the store outgrows its bound. *)
Lemma empty_name_is_kept :
  let s := NewSlidingWindow 2 [WithMaxSessions 1] in
  let s := SlidingWindow_Save (SlidingWindow_Save s "" [hello "1"]) "b" [hello "2"] in
  size (SlidingWindow_sessions s) = 2%nat.
Proof. by vm_compute. Qed.

(** * Summaries *)

(** A summary that succeeds leaves at most as many messages as the threshold. *)
Lemma summarize_shortens s id toSummarize toKeep summary :
  0 < Summary_threshold s → summarize_read s id = Some (toSummarize, toKeep) →
  let s' := summarize_write s id summary toKeep in
  Z.of_nat (length (Summary_Load_read s' id)) <= Summary_threshold s.
Proof.
  unfold summarize_read, Summary_Load_read, summarize_write. intros P.
  destruct (Z.leb_spec (Z.of_nat (length (session_messages (Summary_sessions s) id))) (Summary_threshold s)); [done|].
  intros [= _ <-]. simpl. unfold session_messages at 1. rewrite lookup_insert_eq. simpl.
  rewrite length_drop.
  pose proof (Z.quot_div_nonneg (Summary_threshold s) 2 ltac:(lia) ltac:(lia)) as Q.
  pose proof (Z.div_lt (Summary_threshold s) 2 ltac:(lia) ltac:(lia)).
  assert (0 <= Summary_threshold s / 2) by (apply Z.div_pos; lia). lia.
Qed.

(** The model is called without the mutex: messages that another call
    saves in the meantime are dropped when the summary is written, whatever
    they are, although both calls of Save succeed. *)
Lemma summary_loses_concurrent_saves (s : Summary) (id summary : string)
    (toSummarize toKeep saved : list Message)
    (R : summarize_read s id = Some (toSummarize, toKeep)) :
  let s1 := (Summary_Save_append s id saved).1 in
  Summary_Load_read (summarize_write s1 id summary toKeep) id =
    Summary_Load_read (summarize_write s id summary toKeep) id.
Proof.
  cbv zeta. unfold Summary_Load_read, summarize_write, session_messages. simpl. by rewrite !lookup_insert_eq.
Qed.
