(* ===== verification/ControlFlow.v ===== *)
(** The executor of on-input blocks (internal/controlflow/context.go,
    executor.go, expr.EvalWithEnv): the control flow that lowering writes into
    the attributes of an agent, run at each invocation.

    Expressions are evaluated by a third-party library: [Eval] is its Eval, on
    the dynamic values of Go. Skills and agents are invoked through interfaces
    over a world [W]; contexts are left out. *)
From S2P Require Import Prelude GoStd Ir Ast Lower.
Open Scope Z_scope.

(** * Dynamic values

    The values of an interface{} at run time: those of the IR, nil, the typed
    slices that an expression can give, and any other value, with the name of
    its type and its text. *)
Inductive Dyn :=
  | DNil
  | DStr (s : string)
  | DBool (b : bool)
  | DInt (n : Z)
  | DFloat (f : float64)
  | DList (l : list Dyn)
  | DMap (m : list (string * Dyn))
  | DStrs (l : list string)
  | DInts (l : list Z)
  | DFloats (l : list float64)
  | DOther (type text : string).

(** The %T verb. *)
Definition fmt_T (v : Dyn) : string :=
  match v with
  | DNil => "<nil>" | DStr _ => "string" | DBool _ => "bool" | DInt _ => "int"
  | DFloat _ => "float64" | DList _ => "[]interface {}" | DMap _ => "map[string]interface {}"
  | DStrs _ => "[]string" | DInts _ => "[]int" | DFloats _ => "[]float64" | DOther t _ => t
  end.

Section text.
Context `{GoRuntime}.

(** The %v verb; the keys of a map are printed in order. *)
Fixpoint fmt_v (v : Dyn) : string :=
  let brackets (l : list string) := "[" +:+ Join l " " +:+ "]" in
  match v with
  | DNil => "<nil>"
  | DStr s => s
  | DBool b => if b then "true" else "false"
  | DInt n => pretty n
  | DFloat f => fmt_g f
  | DList l => brackets (map fmt_v l)
  | DMap m =>
      "map" +:+ brackets
        ((λ '(k, t), k +:+ ":" +:+ t) <$>
          insertion_sort (λ a b, str_ltb a.1 b.1) (map (λ '(k, x), (k, fmt_v x)) m))
  | DStrs l => brackets l
  | DInts l => brackets (pretty <$> l)
  | DFloats l => brackets (fmt_g <$> l)
  | DOther _ text => text
  end.
End text.

(** * The context *)

(** RuntimeContext holds the runtime variables available to control flow
    expressions. *)
Record RuntimeContext := mkRuntimeContext {
  RC_Input : Dyn;
  RC_Session : gmap string Dyn;
  RC_Steps : gmap string Dyn;
  RC_Config : gmap string Dyn;
  RC_Output : Dyn;
  RC_Variables : gmap string Dyn;
}.

Global Instance settable_RuntimeContext : Settable RuntimeContext := λ c,
  mkRuntimeContext (RC_Input c) (RC_Session c) (RC_Steps c) (RC_Config c) (RC_Output c) (RC_Variables c).

(** NewRuntimeContext; a nil map is taken for an empty one. *)
Definition NewRuntimeContext (input : Dyn) (session config : gmap string Dyn) : RuntimeContext :=
  mkRuntimeContext input session ∅ config DNil ∅.

Definition SetOutput (output : Dyn) (rc : RuntimeContext) : RuntimeContext := rc <| RC_Output := output |>.

Definition RecordStep (name : string) (output : Dyn) (rc : RuntimeContext) : RuntimeContext :=
  rc <| RC_Steps := <[name := output]> (RC_Steps rc) |>.

Definition SetVariable (name : string) (value : Dyn) (rc : RuntimeContext) : RuntimeContext :=
  rc <| RC_Variables := <[name := value]> (RC_Variables rc) |>.

Definition DeleteVariable (name : string) (rc : RuntimeContext) : RuntimeContext :=
  rc <| RC_Variables := delete name (RC_Variables rc) |>.

Definition dyn_map (m : gmap string Dyn) : Dyn := DMap (map_to_list m).

(** ToEnv merges the variables into the top-level namespace. *)
Definition ToEnv (rc : RuntimeContext) : gmap string Dyn :=
  RC_Variables rc ∪
  list_to_map [("input", RC_Input rc); ("session", dyn_map (RC_Session rc));
               ("steps", dyn_map (RC_Steps rc)); ("config", dyn_map (RC_Config rc));
               ("output", RC_Output rc)].

(** * Actions *)

(** Action represents the result of executing a control flow statement. *)
Record Action := mkAction {
  Action_Type : string;
  Action_SkillName : string;
  Action_AgentName : string;
  Action_Expression : string;
  Action_Params : option (gmap string string);
  Action_Result : Dyn;
}.

(** What a statement does to the block it is in: nothing, an action with its
    output, or the actions of a nested block and their output. *)
Inductive outcome :=
  | Skipped
  | Did (a : Action) (output : string)
  | Ran (actions : list Action) (output : string)
  | Failed (err : string).

(** The result of a block: actions, output, and an error. *)
Notation block_result := (list Action * string * option string)%type.

(** [m[k].(string)], with its zero value. *)
Definition str_attr (k : string) (m : Attrs) : string :=
  match attr k m with Some (VStr s) => s | _ => "" end.

(** toSlice converts an interface{} to a []interface{}. *)
Definition toSlice (v : Dyn) : result string (list Dyn) :=
  match v with
  | DList l => Ok l
  | DStrs l => Ok (DStr <$> l)
  | DInts l => Ok (DInt <$> l)
  | DFloats l => Ok (DFloat <$> l)
  | DNil => Ok []
  | v => Err ("cannot iterate over " +:+ fmt_T v)
  end.

Section executor.
Context `{GoRuntime} {W : Type}.
Context (Eval : string → gmap string Dyn → result string Dyn).
Context (InvokeSkill : option (string → option (gmap string string) → Dyn → W → result string string * W)).
Context (DelegateToAgent : option (string → Dyn → W → result string string * W)).

(** expr.EvalWithEnv *)
Definition EvalWithEnv (source : string) (env : gmap string Dyn) : result string Dyn :=
  match Eval source env with
  | Ok v => Ok v
  | Err err => Err ("expression eval error for " +:+ quote source +:+ ": " +:+ err)
  end.

Definition EvalBool (expression : string) (rc : RuntimeContext) : result string bool :=
  match EvalWithEnv expression (ToEnv rc) with
  | Err err => Err ("evaluating condition " +:+ quote expression +:+ ": " +:+ err)
  | Ok (DBool b) => Ok b
  | Ok v => Err ("condition " +:+ quote expression +:+ " returned " +:+ fmt_T v +:+ ", expected bool")
  end.

Definition EvalExpr (expression : string) (rc : RuntimeContext) : result string Dyn :=
  EvalWithEnv expression (ToEnv rc).

(** Statements and blocks, run in a context and a world. *)
Notation stmt := (RuntimeContext → W → outcome * RuntimeContext * W).
Notation block := (RuntimeContext → W → block_result * RuntimeContext * W).

(** The loop of ExecuteBlock over its statements. *)
Fixpoint run_block (stmts : list stmt) (actions : list Action) (output : string) : block :=
  λ rc w,
    match stmts with
    | [] => (actions, output, None, rc, w)
    | s :: stmts =>
        let '(o, rc, w) := s rc w in
        match o with
        | Skipped => run_block stmts actions output rc w
        | Did a out => run_block stmts (actions ++ [a]) out rc w
        | Ran as_ out => run_block stmts (actions ++ as_) (if String.eqb out "" then output else out) rc w
        | Failed err => (actions, output, Some err, rc, w)
        end
    end.

Definition executeUseSkill (skillName : string) (params : option (gmap string string)) : stmt :=
  λ rc w,
    if String.eqb skillName "" then (Failed "use_skill: missing skill name", rc, w)
    else
      match InvokeSkill with
      | None => (Failed "no skill invoker configured", rc, w)
      | Some invoke =>
          match invoke skillName params (RC_Input rc) w with
          | (Err err, w) => (Failed ("invoking skill " +:+ quote skillName +:+ ": " +:+ err), rc, w)
          | (Ok result, w) =>
              (Did (mkAction "use_skill" skillName "" "" params (DStr result)) result,
               SetOutput (DStr result) (RecordStep skillName (DStr result) rc), w)
          end
      end.

Definition executeDelegate (agentName : string) : stmt :=
  λ rc w,
    if String.eqb agentName "" then (Failed "delegate: missing agent name", rc, w)
    else
      match DelegateToAgent with
      | None => (Failed "no agent delegator configured", rc, w)
      | Some delegate =>
          match delegate agentName (RC_Input rc) w with
          | (Err err, w) => (Failed ("delegating to agent " +:+ quote agentName +:+ ": " +:+ err), rc, w)
          | (Ok result, w) =>
              (Did (mkAction "delegate" "" agentName "" None (DStr result)) result,
               SetOutput (DStr result) rc, w)
          end
      end.

(** An expression that does not evaluate is taken for a literal. *)
Definition executeRespond (expression : string) : stmt :=
  λ rc w,
    if String.eqb expression "" then (Failed "respond: missing expression", rc, w)
    else
      let '(result, output) :=
        match EvalExpr expression rc with
        | Err _ => (DStr expression, expression)
        | Ok v => (v, fmt_v v)
        end in
      (Did (mkAction "respond" "" "" expression None result) output, SetOutput (DStr output) rc, w).

(** The outcome of an if or for_each: its actions are dropped with its error. *)
Definition nested (r : block_result * RuntimeContext * W) : outcome * RuntimeContext * W :=
  let '(actions, output, err, rc, w) := r in
  (match err with Some err => Failed err | None => Ran actions output end, rc, w).

(** The loop over the else-if clauses, each a condition and a block, and then
    the else block. *)
Fixpoint executeElse (elseIfs : list (string * block)) (elseBody : option block) : stmt :=
  λ rc w,
    match elseIfs with
    | (eiCond, body) :: elseIfs =>
        if String.eqb eiCond "" then executeElse elseIfs elseBody rc w
        else
          match EvalBool eiCond rc with
          | Err err => (Failed ("else-if condition: " +:+ err), rc, w)
          | Ok true => nested (body rc w)
          | Ok false => executeElse elseIfs elseBody rc w
          end
    | [] => match elseBody with Some body => nested (body rc w) | None => (Ran [] "", rc, w) end
    end.

Definition executeIf (condition : string) (body : block) (elseIfs : list (string * block))
    (elseBody : option block) : stmt :=
  λ rc w,
    if String.eqb condition "" then (Failed "if: missing condition", rc, w)
    else
      match EvalBool condition rc with
      | Err err => (Failed ("if condition: " +:+ err), rc, w)
      | Ok true => nested (body rc w)
      | Ok false => executeElse elseIfs elseBody rc w
      end.

(** The loop over the items. *)
Fixpoint for_items (variable : string) (body : block) (items : list Dyn) (allActions : list Action)
    (lastOutput : string) : block :=
  λ rc w,
    match items with
    | [] => (allActions, lastOutput, None, DeleteVariable variable rc, w)
    | item :: items =>
        let '(actions, output, err, rc, w) := body (SetVariable variable item rc) w in
        match err with
        | Some err => (allActions, lastOutput, Some err, DeleteVariable variable rc, w)
        | None =>
            for_items variable body items (allActions ++ actions)
              (if String.eqb output "" then lastOutput else output) rc w
        end
    end.

Definition executeForEach (variable collection : string) (body : block) : stmt :=
  λ rc w,
    if String.eqb variable "" then (Failed "for_each: missing variable name", rc, w)
    else if String.eqb collection "" then (Failed "for_each: missing collection expression", rc, w)
    else
      match EvalExpr collection rc with
      | Err err => (Failed ("for_each collection: " +:+ err), rc, w)
      | Ok v =>
          match toSlice v with
          | Err err => (Failed ("for_each: collection is not iterable: " +:+ err), rc, w)
          | Ok items => nested (for_items variable body items [] "" rc w)
          end
      end.

(** The params of a use_skill statement: those that are strings, and empty
    strings for the others. *)
Definition skill_params (m : Attrs) : option (gmap string string) :=
  match attr "params" m with
  | Some (VMap p) => Some (list_to_map ((λ '(k, v), (k, match v with VStr s => s | _ => "" end)) <$> p))
  | _ => None
  end.

(** The block under a key, given the blocks of all fields of a map. *)
Fixpoint block_at (k : string) (blocks : list (string * option block)) : option block :=
  match blocks with
  | [] => None
  | (k', b) :: blocks => if String.eqb k k' then b else block_at k blocks
  end.

Definition body_at (k : string) (blocks : list (string * option block)) : block :=
  default (run_block [] [] "") (block_at k blocks).

(** One statement of the IR: the switch of ExecuteBlock on its type. The
    recursion is on the value: [blocks] are the fields that are lists, each as
    a block, and [clauses] those that are lists of maps, as else-if clauses. *)
Fixpoint exec_value (v : Value) : stmt :=
  let exec_block l := run_block (map exec_value l) [] "" in
  let field_block (v : Value) : option block :=
    match v with VList l => Some (exec_block l) | _ => None end in
  let clause (v : Value) : list (string * block) :=
    match v with
    | VMap m => [(str_attr "condition" m, body_at "body" (map (λ '(k, v), (k, field_block v)) m))]
    | _ => []
    end in
  match v with
  | VMap m =>
      let blocks := map (λ '(k, v), (k, field_block v)) m in
      let clauses := map (λ '(k, v), (k, match v with VList l => concat (map clause l) | _ => [] end)) m in
      let elseIfs := match List.find (λ kc, String.eqb "else_ifs" kc.1) clauses with
                     | Some (_, cs) => cs | None => [] end in
      let elseBody := match attr "else_body" m with
                      | Some (VList (_ :: _)) => block_at "else_body" blocks | _ => None end in
      let stmtType := str_attr "type" m in
      if String.eqb stmtType "use_skill" then executeUseSkill (str_attr "skill" m) (skill_params m)
      else if String.eqb stmtType "delegate" then executeDelegate (str_attr "agent" m)
      else if String.eqb stmtType "respond" then executeRespond (str_attr "expression" m)
      else if String.eqb stmtType "if" then
        executeIf (str_attr "condition" m) (body_at "body" blocks) elseIfs elseBody
      else if String.eqb stmtType "for_each" then
        executeForEach (str_attr "variable" m) (str_attr "collection" m) (body_at "body" blocks)
      else λ rc w, (Failed ("unknown control flow statement type: " +:+ quote stmtType), rc, w)
  | _ => λ rc w, (Skipped, rc, w)
  end.

(** ExecuteBlock executes an on_input block. *)
Definition ExecuteBlock (stmts : list Value) : block := run_block (map exec_value stmts) [] "".
End executor.

(** What lowering writes into the attributes of an agent is executed as the
    statements of its on-input block say; loop variables are the only ones a
    block touches. *)

Local Arguments run_block : simpl never.

Section meaning.
Context `{GoRuntime} {W : Type}.
Context (Eval : string → gmap string Dyn → result string Dyn).
Context (InvokeSkill : option (string → option (gmap string string) → Dyn → W → result string string * W)).
Context (DelegateToAgent : option (string → Dyn → W → result string string * W)).

Abbreviation stmt := (RuntimeContext → W → outcome * RuntimeContext * W).
Abbreviation block := (RuntimeContext → W → block_result * RuntimeContext * W).

(** The meaning of a statement of the source. *)
Fixpoint meaning (s : OnInputStmt) : stmt :=
  let meaning_block (body : list OnInputStmt) : block := run_block (map meaning body) [] "" in
  match s with
  | UseSkillStmt name params _ _ =>
      executeUseSkill InvokeSkill name (if decide (params = ∅) then None else Some params)
  | DelegateToStmt name _ _ => executeDelegate DelegateToAgent name
  | RespondStmt expression _ _ => executeRespond Eval expression
  | IfBlock condition body elseIfs elseBody _ _ =>
      executeIf Eval condition (meaning_block body)
        (map (λ '(mkElseIfClause c b _ _), (c, meaning_block b)) elseIfs)
        (match elseBody with [] => None | _ => Some (meaning_block elseBody) end)
  | ForEachBlock variable collection body _ _ =>
      executeForEach Eval variable collection (meaning_block body)
  end.

Definition meaning_block (stmts : list OnInputStmt) : block := run_block (map meaning stmts) [] "".

Lemma params_lowered (params : gmap string string) :
  (list_to_map ((λ '(k, v), (k, match v with VStr s => s | _ => "" end)) <$> strMapToInterface params)
    : gmap string string) = params.
Proof.
  unfold strMapToInterface. rewrite <- list_fmap_compose.
  assert ((λ '(k, v), (k, match v with VStr s => s | _ => "" end)) ∘ (λ '(k, v), (k, VStr v)) <$> map_range params
    = map_range params) as ->.
  { rewrite <- (list_fmap_id (map_range params)) at 2. by apply list_fmap_ext; intros i [k v] _. }
  pose proof (map_range_perm params) as P. etrans; [|apply (list_to_map_to_list params)].
  apply list_to_map_proper; [|done]. rewrite P. apply NoDup_fst_map_to_list.
Qed.

Lemma skill_params_lowered m params :
  attr "params" m = attr "params" (map_field "params" params) →
  skill_params m = if decide (params = ∅) then None else Some params.
Proof.
  intros A. unfold skill_params. rewrite A. unfold map_field, field.
  pose proof (map_range_perm params) as P. destruct (decide (params = ∅)) as [->|Ne].
  - rewrite map_to_list_empty in P. symmetry in P. by apply Permutation_nil in P as ->.
  - destruct (map_range params) as [|kv l] eqn:E.
    + by apply Permutation_nil, map_to_list_empty_iff in P.
    + simpl. f_equal. apply params_lowered.
Qed.

Abbreviation exec := (exec_value Eval InvokeSkill DelegateToAgent).

Lemma exec_lowered_all stmts : Forall (λ s, exec (lower_on_input_stmt s) = meaning s) stmts →
  map exec (map lower_on_input_stmt stmts) = map meaning stmts.
Proof. induction 1 as [|s l E F IH]; simpl; [done|]. by rewrite E, IH. Qed.

Lemma exec_lowered s : exec (lower_on_input_stmt s) = meaning s.
Proof.
  induction s as [n params sp ep|n sp ep|e sp ep|c body elseIfs elseBody sp ep Fb Fe Fl|v c body sp ep Fb]
    using OnInputStmt_nested_ind.
  - cbn [lower_on_input_stmt exec_value meaning]. rewrite (skill_params_lowered _ params) by done. done.
  - done.
  - done.
  - cbn [lower_on_input_stmt meaning]. rewrite <- (exec_lowered_all body), <- (exec_lowered_all elseBody) by done.
    assert (map (λ '(mkElseIfClause c b _ _), (c, run_block (map meaning b) [] "")) elseIfs =
      map (λ '(mkElseIfClause c b _ _), (c, run_block (map exec (map lower_on_input_stmt b)) [] "")) elseIfs) as ->.
    { induction Fe as [|[? b ? ?] l E Fe IH]; simpl; [done|]. by rewrite IH, (exec_lowered_all b). }
    destruct elseIfs as [|ei elseIfs], elseBody as [|eb elseBody]; simpl; try done;
      unfold str_attr, body_at; simpl; f_equal; try done;
      destruct ei as [ec eb' ? ?]; simpl; f_equal;
      (clear Fe; induction elseIfs as [|[? ? ? ?] l IH]; simpl; [done|by rewrite IH]).
  - cbn [lower_on_input_stmt meaning]. by rewrite <- (exec_lowered_all body).
Qed.

(** Lowering and the executor agree: executing the attribute on_input of
    an agent runs the statements of its block in order, the first branch whose
    condition holds, and the body of a loop once for each item, exactly as the
    source has them, for every evaluator, skills and agents. *)
Lemma on_input_executes (stmts : list OnInputStmt) (rc : RuntimeContext) (w : W) :
  match lowerOnInputStmts stmts with
  | VList values => ExecuteBlock Eval InvokeSkill DelegateToAgent values rc w = meaning_block stmts rc w
  | _ => False
  end.
Proof.
  unfold lowerOnInputStmts, ExecuteBlock, meaning_block. rewrite exec_lowered_all; [done|].
  apply Forall_true. apply exec_lowered.
Qed.

(** * What a block may change *)

(** The loop variables of a statement. *)
Fixpoint loop_vars (s : OnInputStmt) : list string :=
  match s with
  | IfBlock _ body elseIfs elseBody _ _ =>
      flat_map loop_vars body ++
      flat_map (λ '(mkElseIfClause _ b _ _), flat_map loop_vars b) elseIfs ++
      flat_map loop_vars elseBody
  | ForEachBlock v _ body _ _ => v :: flat_map loop_vars body
  | _ => []
  end.

(** [rc'] has the input, session and configuration of [rc], and its variables
    but for those of [vars]. *)
Definition frames (vars : list string) (rc rc' : RuntimeContext) : Prop :=
  RC_Input rc' = RC_Input rc ∧ RC_Session rc' = RC_Session rc ∧ RC_Config rc' = RC_Config rc ∧
  ∀ v, v ∉ vars → RC_Variables rc' !! v = RC_Variables rc !! v.

Lemma frames_refl vars rc : frames vars rc rc.
Proof. done. Qed.

Lemma frames_trans vars rc1 rc2 rc3 : frames vars rc1 rc2 → frames vars rc2 rc3 → frames vars rc1 rc3.
Proof.
  intros (I & S & C & V) (I' & S' & C' & V'). split_and!; try congruence. intros v N. by rewrite V', V.
Qed.

Lemma frames_incl vars vars' rc rc' : (∀ v, v ∈ vars → v ∈ vars') → frames vars rc rc' → frames vars' rc rc'.
Proof. intros I (? & ? & ? & V). split_and!; try done. intros v N. apply V. naive_solver. Qed.

Definition stmt_frames (vars : list string) (s : stmt) : Prop :=
  ∀ rc w, frames vars rc (s rc w).1.2.
Definition block_frames (vars : list string) (b : block) : Prop :=
  ∀ rc w, frames vars rc (b rc w).1.2.

Lemma run_block_cons (s : stmt) stmts actions output rc w :
  run_block (s :: stmts) actions output rc w =
  let '(o, rc, w) := s rc w in
  match o with
  | Skipped => run_block stmts actions output rc w
  | Did a out => run_block stmts (actions ++ [a]) out rc w
  | Ran as_ out => run_block stmts (actions ++ as_) (if String.eqb out "" then output else out) rc w
  | Failed err => (actions, output, Some err, rc, w)
  end.
Proof. done. Qed.

Lemma run_block_frames vars stmts : Forall (stmt_frames vars) stmts →
  ∀ actions output, block_frames vars (run_block stmts actions output).
Proof.
  induction 1 as [|s l Fs F IH]; intros actions output rc w; [apply frames_refl|].
  rewrite run_block_cons. specialize (Fs rc w). destruct (s rc w) as [[o rc1] w1]. simpl in Fs.
  destruct o; try done; (eapply frames_trans; [exact Fs|apply IH]).
Qed.

Lemma nested_frames vars r rc : frames vars rc r.1.2 → frames vars rc (nested (W := W) r).1.2.
Proof. by destruct r as [[[[? ?] []] ?] ?]. Qed.

Lemma executeElse_frames vars elseIfs elseBody :
  Forall (λ cb, block_frames vars cb.2) elseIfs →
  (∀ b, elseBody = Some b → block_frames vars b) →
  stmt_frames vars (executeElse Eval elseIfs elseBody).
Proof.
  intros F Fl rc w. induction F as [|[c b] l Fb F IH]; simpl.
  - destruct elseBody as [b|]; [|apply frames_refl]. apply nested_frames. by apply Fl.
  - destruct (String.eqb c ""); [done|]. destruct (EvalBool _ _ _) as [[|]|];
      [apply nested_frames, Fb|done|apply frames_refl].
Qed.

Lemma for_items_frames vars variable body items : block_frames vars body →
  ∀ actions output rc w,
    frames (variable :: vars) rc (for_items variable body items actions output rc w).1.2.
Proof.
  intros Fb. induction items as [|item items IH]; intros actions output rc w; cbn [for_items].
  - split_and!; try done. intros v N. simpl. rewrite lookup_delete_ne; [done|]. set_solver.
  - pose proof (Fb (SetVariable variable item rc) w) as B.
    destruct (body _ w) as [[[[as_ out] err] rc1] w1]. simpl in B.
    assert (frames (variable :: vars) rc rc1) as Fr.
    { eapply frames_trans; [|eapply frames_incl; [|exact B]; set_solver].
      split_and!; try done. intros v N. simpl. rewrite lookup_insert_ne; [done|]. set_solver. }
    destruct err as [err|]; [|eapply frames_trans; [exact Fr|apply IH]].
    eapply frames_trans; [exact Fr|]. split_and!; try done.
    intros v N. simpl. rewrite lookup_delete_ne; [done|]. set_solver.
Qed.

Lemma meaning_block_frames vars l :
  Forall (λ s, ∀ vars, (∀ v, v ∈ loop_vars s → v ∈ vars) → stmt_frames vars (meaning s)) l →
  (∀ v, v ∈ flat_map loop_vars l → v ∈ vars) → block_frames vars (run_block (map meaning l) [] "").
Proof.
  intros F I. apply run_block_frames, Forall_map.
  induction F as [|s l Fs F IH]; constructor; [apply Fs|apply IH]; set_solver.
Qed.

Lemma meaning_frames s : ∀ vars, (∀ v, v ∈ loop_vars s → v ∈ vars) → stmt_frames vars (meaning s).
Proof.
  induction s as [n params sp ep|n sp ep|e sp ep|c body elseIfs elseBody sp ep Fb Fe Fl|v c body sp ep Fb]
    using OnInputStmt_nested_ind; intros vars In rc w; cbn [meaning].
  - unfold executeUseSkill. destruct (String.eqb n ""); [done|]. destruct InvokeSkill as [f|]; [|done].
    by destruct (f n _ _ w) as [[r|err] w'].
  - unfold executeDelegate. destruct (String.eqb n ""); [done|]. destruct DelegateToAgent as [f|]; [|done].
    by destruct (f n _ w) as [[r|err] w'].
  - unfold executeRespond. destruct (String.eqb e ""); [done|]. by destruct (EvalExpr _ _ _).
  - pose proof (meaning_block_frames vars) as B.
    simpl in In. unfold executeIf. destruct (String.eqb c ""); [done|].
    destruct (EvalBool _ _ _) as [[|]|]; [apply nested_frames, B; [done|set_solver]| |done].
    apply executeElse_frames.
    + apply Forall_map. assert (∀ v, v ∈ flat_map (λ '(mkElseIfClause _ b _ _), flat_map loop_vars b) elseIfs → v ∈ vars)
        as Ie by set_solver. clear In.
      induction Fe as [|[? b ? ?] l Fb' Fe IH]; constructor; [apply B; [done|set_solver]|apply IH; set_solver].
    + intros b E. destruct elseBody as [|s0 l0]; [done|]. injection E as <-.
      apply (B (s0 :: l0)); [done|set_solver].
  - unfold executeForEach. destruct (String.eqb v ""); [done|]. destruct (String.eqb c ""); [done|].
    destruct (EvalExpr _ _ _) as [d|]; [|done]. destruct (toSlice d) as [items|]; [|done].
    apply nested_frames. simpl in In.
    eapply frames_incl; [|apply (for_items_frames (flat_map loop_vars body)), (meaning_block_frames _ body Fb); done].
    set_solver.
Qed.

(** A block leaves the input, the session and the configuration as they are,
    and of the variables it changes only those of its loops. *)
Lemma on_input_frames (stmts : list OnInputStmt) (rc : RuntimeContext) (w : W) :
  frames (flat_map loop_vars stmts) rc (meaning_block stmts rc w).1.2.
Proof.
  apply meaning_block_frames; [|done]. apply Forall_true. intros s vars I. by apply meaning_frames.
Qed.
End meaning.

(** Two nested loops over one variable: the inner loop deletes it, and the rest
    of the outer body does not see it any more. *)
Section shadowing.
Definition look_up (source : string) (env : gmap string Dyn) : result string Dyn :=
  match env !! source with Some v => Ok v | None => Err "unknown name" end.

Definition shadowed : list OnInputStmt :=
  [ForEachBlock "x" "input"
     [ForEachBlock "x" "input" [] (mkPos "" 1 1) (mkPos "" 1 1); RespondStmt "x" (mkPos "" 1 1) (mkPos "" 1 1)]
     (mkPos "" 1 1) (mkPos "" 1 1)].

Lemma inner_loop_deletes_outer_variable :
  (@meaning_block ascii_runtime unit look_up None None shadowed
     (NewRuntimeContext (DStrs ["a"; "b"]) ∅ ∅) tt).1.1.1.2 = "x".
Proof. by vm_compute. Qed.
End shadowing.
