(* ===== verification/OnInputRules.v ===== *)
(** What an on-input block does, as rules over its source: [exec_list] for a
    sequence of statements, [exec_stmt] for one and [exec_each] for the rounds of
    a loop. A configuration has the actions and the output so far, the context
    and the world; a run ends with an error or without. The executor of
    ControlFlow.v, on the statements that lowering leaves, does exactly this. *)
From S2P Require Import Prelude GoStd Ast Ir IrFacts Lower LowerFacts ControlFlow.
Open Scope Z_scope.

Section semantics.
Context `{GoRuntime} {W : Type}.
Context (Eval : string → gmap string Dyn → result string Dyn).
Context (InvokeSkill : option (string → option (gmap string string) → Dyn → W → result string string * W)).
Context (DelegateToAgent : option (string → Dyn → W → result string string * W)).

(** A name in an expression: a loop variable, or one of the five names. *)
Definition visible (rc : RuntimeContext) (name : string) : option Dyn :=
  match RC_Variables rc !! name with
  | Some v => Some v
  | None =>
      if String.eqb name "input" then Some (RC_Input rc)
      else if String.eqb name "session" then Some (DMap (map_to_list (RC_Session rc)))
      else if String.eqb name "steps" then Some (DMap (map_to_list (RC_Steps rc)))
      else if String.eqb name "config" then Some (DMap (map_to_list (RC_Config rc)))
      else if String.eqb name "output" then Some (RC_Output rc)
      else None
  end.

(** The value of an expression, where exactly the visible names are known. *)
Definition evaluates (rc : RuntimeContext) (source : string) (r : result string Dyn) : Prop :=
  ∃ env, (∀ name, env !! name = visible rc name) ∧
    r = match Eval source env with
        | Ok v => Ok v
        | Err err => Err ("expression eval error for " +:+ quote source +:+ ": " +:+ err)
        end.

(** A condition holds, does not, or cannot be told. *)
Inductive condition (rc : RuntimeContext) (source : string) : result string bool → Prop :=
  | condition_bool b : evaluates rc source (Ok (DBool b)) → condition rc source (Ok b)
  | condition_other v : evaluates rc source (Ok v) → (∀ b, v ≠ DBool b) →
      condition rc source (Err ("condition " +:+ quote source +:+ " returned " +:+ fmt_T v +:+ ", expected bool"))
  | condition_error err : evaluates rc source (Err err) →
      condition rc source (Err ("evaluating condition " +:+ quote source +:+ ": " +:+ err)).

(** The block of an if: that of the first condition that holds, or the last. An
    else-if without condition is passed over. *)
Inductive branch (rc : RuntimeContext) : list ElseIfClause → list OnInputStmt → result string (list OnInputStmt) → Prop :=
  | branch_else elseBody : branch rc [] elseBody (Ok elseBody)
  | branch_empty body sp ep clauses elseBody r :
      branch rc clauses elseBody r → branch rc (mkElseIfClause "" body sp ep :: clauses) elseBody r
  | branch_true c body sp ep clauses elseBody :
      c ≠ "" → condition rc c (Ok true) → branch rc (mkElseIfClause c body sp ep :: clauses) elseBody (Ok body)
  | branch_false c body sp ep clauses elseBody r :
      c ≠ "" → condition rc c (Ok false) → branch rc clauses elseBody r →
      branch rc (mkElseIfClause c body sp ep :: clauses) elseBody r
  | branch_error c body sp ep clauses elseBody err :
      c ≠ "" → condition rc c (Err err) →
      branch rc (mkElseIfClause c body sp ep :: clauses) elseBody (Err ("else-if condition: " +:+ err)).

Inductive selects (rc : RuntimeContext) (c : string) (body : list OnInputStmt) (clauses : list ElseIfClause)
    (elseBody : list OnInputStmt) : result string (list OnInputStmt) → Prop :=
  | selects_missing : c = "" → selects rc c body clauses elseBody (Err "if: missing condition")
  | selects_body : c ≠ "" → condition rc c (Ok true) → selects rc c body clauses elseBody (Ok body)
  | selects_other r : c ≠ "" → condition rc c (Ok false) → branch rc clauses elseBody r →
      selects rc c body clauses elseBody r
  | selects_error err : c ≠ "" → condition rc c (Err err) →
      selects rc c body clauses elseBody (Err ("if condition: " +:+ err)).

(** The items of a loop. *)
Inductive items_of (rc : RuntimeContext) (variable collection : string) : result string (list Dyn) → Prop :=
  | items_no_variable : variable = "" → items_of rc variable collection (Err "for_each: missing variable name")
  | items_no_collection : variable ≠ "" → collection = "" →
      items_of rc variable collection (Err "for_each: missing collection expression")
  | items_error err : variable ≠ "" → collection ≠ "" → evaluates rc collection (Err err) →
      items_of rc variable collection (Err ("for_each collection: " +:+ err))
  | items_list v items : variable ≠ "" → collection ≠ "" → evaluates rc collection (Ok v) →
      match v with
      | DList l => items = l
      | DStrs l => items = map DStr l
      | DInts l => items = map DInt l
      | DFloats l => items = map DFloat l
      | DNil => items = []
      | _ => False
      end → items_of rc variable collection (Ok items)
  | items_other v : variable ≠ "" → collection ≠ "" → evaluates rc collection (Ok v) →
      match v with DList _ | DStrs _ | DInts _ | DFloats _ | DNil => False | _ => True end →
      items_of rc variable collection (Err ("for_each: collection is not iterable: cannot iterate over " +:+ fmt_T v)).

(** What an expression to respond with becomes. *)
Inductive responds (rc : RuntimeContext) (e : string) : Dyn → string → Prop :=
  | responds_value v : evaluates rc e (Ok v) → responds rc e v (fmt_v v)
  | responds_literal err : evaluates rc e (Err err) → responds rc e (DStr e) e.

(** The parameters of a skill: none at all when there are none. *)
Definition given_params (params : gmap string string) : option (gmap string string) :=
  if decide (params = ∅) then None else Some params.

Abbreviation Config := (list Action * string * RuntimeContext * W)%type.

Inductive exec_list : list OnInputStmt → Config → Config → option string → Prop :=
  | exec_nil c : exec_list [] c c None
  | exec_cons s stmts c c1 c2 e :
      exec_stmt s c c1 None → exec_list stmts c1 c2 e → exec_list (s :: stmts) c c2 e
  | exec_stop s stmts c c1 err : exec_stmt s c c1 (Some err) → exec_list (s :: stmts) c c1 (Some err)
with exec_stmt : OnInputStmt → Config → Config → option string → Prop :=
  | exec_skill name params sp ep invoke result acts out rc w w' :
      name ≠ "" → InvokeSkill = Some invoke → invoke name (given_params params) (RC_Input rc) w = (Ok result, w') →
      exec_stmt (UseSkillStmt name params sp ep) (acts, out, rc, w)
        (acts ++ [mkAction "use_skill" name "" "" (given_params params) (DStr result)], result,
         rc <| RC_Steps := <[name := DStr result]> (RC_Steps rc) |> <| RC_Output := DStr result |>, w') None
  | exec_skill_error name params sp ep invoke err acts out rc w w' :
      name ≠ "" → InvokeSkill = Some invoke → invoke name (given_params params) (RC_Input rc) w = (Err err, w') →
      exec_stmt (UseSkillStmt name params sp ep) (acts, out, rc, w) (acts, out, rc, w')
        (Some ("invoking skill " +:+ quote name +:+ ": " +:+ err))
  | exec_skill_missing params sp ep c :
      exec_stmt (UseSkillStmt "" params sp ep) c c (Some "use_skill: missing skill name")
  | exec_skill_unable name params sp ep c : name ≠ "" → InvokeSkill = None →
      exec_stmt (UseSkillStmt name params sp ep) c c (Some "no skill invoker configured")
  | exec_delegate name sp ep delegate result acts out rc w w' :
      name ≠ "" → DelegateToAgent = Some delegate → delegate name (RC_Input rc) w = (Ok result, w') →
      exec_stmt (DelegateToStmt name sp ep) (acts, out, rc, w)
        (acts ++ [mkAction "delegate" "" name "" None (DStr result)], result,
         rc <| RC_Output := DStr result |>, w') None
  | exec_delegate_error name sp ep delegate err acts out rc w w' :
      name ≠ "" → DelegateToAgent = Some delegate → delegate name (RC_Input rc) w = (Err err, w') →
      exec_stmt (DelegateToStmt name sp ep) (acts, out, rc, w) (acts, out, rc, w')
        (Some ("delegating to agent " +:+ quote name +:+ ": " +:+ err))
  | exec_delegate_missing sp ep c :
      exec_stmt (DelegateToStmt "" sp ep) c c (Some "delegate: missing agent name")
  | exec_delegate_unable name sp ep c : name ≠ "" → DelegateToAgent = None →
      exec_stmt (DelegateToStmt name sp ep) c c (Some "no agent delegator configured")
  | exec_respond e sp ep v text acts out rc w :
      e ≠ "" → responds rc e v text →
      exec_stmt (RespondStmt e sp ep) (acts, out, rc, w)
        (acts ++ [mkAction "respond" "" "" e None v], text, rc <| RC_Output := DStr text |>, w) None
  | exec_respond_missing sp ep c : exec_stmt (RespondStmt "" sp ep) c c (Some "respond: missing expression")
  | exec_if cond body clauses elseBody sp ep chosen acts out rc w acts' out' rc' w' :
      selects rc cond body clauses elseBody (Ok chosen) →
      exec_list chosen ([], "", rc, w) (acts', out', rc', w') None →
      exec_stmt (IfBlock cond body clauses elseBody sp ep) (acts, out, rc, w)
        (acts ++ acts', if String.eqb out' "" then out else out', rc', w') None
  | exec_if_stop cond body clauses elseBody sp ep chosen acts out rc w acts' out' rc' w' err :
      selects rc cond body clauses elseBody (Ok chosen) →
      exec_list chosen ([], "", rc, w) (acts', out', rc', w') (Some err) →
      exec_stmt (IfBlock cond body clauses elseBody sp ep) (acts, out, rc, w) (acts, out, rc', w') (Some err)
  | exec_if_error cond body clauses elseBody sp ep acts out rc w err :
      selects rc cond body clauses elseBody (Err err) →
      exec_stmt (IfBlock cond body clauses elseBody sp ep) (acts, out, rc, w) (acts, out, rc, w) (Some err)
  | exec_for variable collection body sp ep items acts out rc w acts' out' rc' w' :
      items_of rc variable collection (Ok items) →
      exec_each variable body items ([], "", rc, w) (acts', out', rc', w') None →
      exec_stmt (ForEachBlock variable collection body sp ep) (acts, out, rc, w)
        (acts ++ acts', if String.eqb out' "" then out else out', rc', w') None
  | exec_for_stop variable collection body sp ep items acts out rc w acts' out' rc' w' err :
      items_of rc variable collection (Ok items) →
      exec_each variable body items ([], "", rc, w) (acts', out', rc', w') (Some err) →
      exec_stmt (ForEachBlock variable collection body sp ep) (acts, out, rc, w) (acts, out, rc', w') (Some err)
  | exec_for_error variable collection body sp ep acts out rc w err :
      items_of rc variable collection (Err err) →
      exec_stmt (ForEachBlock variable collection body sp ep) (acts, out, rc, w) (acts, out, rc, w) (Some err)
with exec_each : string → list OnInputStmt → list Dyn → Config → Config → option string → Prop :=
  | exec_no_more variable body acts out rc w :
      exec_each variable body [] (acts, out, rc, w)
        (acts, out, rc <| RC_Variables := delete variable (RC_Variables rc) |>, w) None
  | exec_round variable body item items acts out rc w acts' out' rc' w' c e :
      exec_list body ([], "", rc <| RC_Variables := <[variable := item]> (RC_Variables rc) |>, w)
        (acts', out', rc', w') None →
      exec_each variable body items (acts ++ acts', if String.eqb out' "" then out else out', rc', w') c e →
      exec_each variable body (item :: items) (acts, out, rc, w) c e
  | exec_round_stop variable body item items acts out rc w acts' out' rc' w' err :
      exec_list body ([], "", rc <| RC_Variables := <[variable := item]> (RC_Variables rc) |>, w)
        (acts', out', rc', w') (Some err) →
      exec_each variable body (item :: items) (acts, out, rc, w)
        (acts, out, rc' <| RC_Variables := delete variable (RC_Variables rc') |>, w') (Some err).

(** ** The executor follows the rules *)

Lemma visible_env rc name : ToEnv rc !! name = visible rc name.
Proof.
  unfold ToEnv, visible. rewrite lookup_union. destruct (RC_Variables rc !! name) as [v|] eqn:E.
  { destruct (list_to_map _ !! name); done. }
  rewrite (left_id_L None _). simpl.
  destruct (String.eqb_spec name "input") as [->|N1]; [by rewrite lookup_insert_eq|rewrite lookup_insert_ne by done].
  destruct (String.eqb_spec name "session") as [->|N2]; [by rewrite lookup_insert_eq|rewrite lookup_insert_ne by done].
  destruct (String.eqb_spec name "steps") as [->|N3]; [by rewrite lookup_insert_eq|rewrite lookup_insert_ne by done].
  destruct (String.eqb_spec name "config") as [->|N4]; [by rewrite lookup_insert_eq|rewrite lookup_insert_ne by done].
  destruct (String.eqb_spec name "output") as [->|N5]; [by rewrite lookup_insert_eq|rewrite lookup_insert_ne by done].
  done.
Qed.

Lemma evaluates_exact rc source r : evaluates rc source r ↔ EvalExpr Eval source rc = r.
Proof.
  unfold evaluates, EvalExpr, EvalWithEnv. split.
  - intros (env & V & ->). assert (env = ToEnv rc) as ->; [|done].
    apply map_eq. intros name. by rewrite V, visible_env.
  - intros <-. exists (ToEnv rc). split; [apply visible_env|done].
Qed.

Lemma condition_exact rc source r : condition rc source r ↔ EvalBool Eval source rc = r.
Proof.
  unfold EvalBool. fold (EvalExpr Eval source rc).
  assert (∀ v, (∀ b, v ≠ DBool b) → match v with DBool b => Ok b | _ => Err ("condition " +:+ quote source +:+ " returned " +:+
    fmt_T v +:+ ", expected bool") end = Err ("condition " +:+ quote source +:+ " returned " +:+ fmt_T v +:+ ", expected bool")) as O.
  { intros v N. destruct v as [| b | | | | | | | | |]; try done. by destruct (N b). }
  split.
  - intros [b E|v E N|err E]; apply evaluates_exact in E; rewrite E; [done| |done].
    destruct v as [| b | | | | | | | | |]; try done. by destruct (N b).
  - intros <-. destruct (EvalExpr Eval source rc) as [v|err] eqn:E; [|apply condition_error; by apply evaluates_exact].
    apply evaluates_exact in E. destruct v; (apply condition_bool, E) || by apply condition_other.
Qed.

Abbreviation meaning := (meaning Eval InvokeSkill DelegateToAgent).
Abbreviation meaning_block := (meaning_block Eval InvokeSkill DelegateToAgent).

(** The else-if clauses as blocks, and the else block. *)
Definition clause_blocks (clauses : list ElseIfClause) : list (string * (RuntimeContext → W → block_result * RuntimeContext * W)) :=
  map (λ '(mkElseIfClause c b _ _), (c, meaning_block b)) clauses.
Definition else_block (elseBody : list OnInputStmt) : option (RuntimeContext → W → block_result * RuntimeContext * W) :=
  match elseBody with [] => None | _ => Some (meaning_block elseBody) end.

Lemma executeElse_exact rc clauses elseBody r w : branch rc clauses elseBody r →
  executeElse Eval (clause_blocks clauses) (else_block elseBody) rc w =
  match r with Ok chosen => nested (meaning_block chosen rc w) | Err err => (Failed err, rc, w) end.
Proof.
  induction 1 as [elseBody|body sp ep l elseBody r B IH|c body sp ep l elseBody N C|c body sp ep l elseBody r N C B IH
    |c body sp ep l elseBody err N C]; simpl; [by destruct elseBody|done|..];
    apply String.eqb_neq in N; rewrite N; apply condition_exact in C; by rewrite C.
Qed.

Lemma executeIf_exact rc c body clauses elseBody r w : selects rc c body clauses elseBody r →
  executeIf Eval c (meaning_block body) (clause_blocks clauses) (else_block elseBody) rc w =
  match r with Ok chosen => nested (meaning_block chosen rc w) | Err err => (Failed err, rc, w) end.
Proof.
  unfold executeIf. intros [->|N C|r' N C B|err N C]; [done|..];
    apply String.eqb_neq in N; rewrite N; apply condition_exact in C; rewrite C; [done| |done].
  by apply executeElse_exact.
Qed.

Lemma branch_total rc clauses elseBody : ∃ r, branch rc clauses elseBody r.
Proof.
  induction clauses as [|[c body sp ep] l [r IH]]; [by eexists; constructor|].
  destruct (decide (c = "")) as [->|N]; [by eexists; apply branch_empty|].
  destruct (EvalBool Eval c rc) as [[|]|err] eqn:E; apply condition_exact in E; eexists;
    [by apply branch_true|by apply branch_false|by apply branch_error].
Qed.

Lemma selects_total rc c body clauses elseBody : ∃ r, selects rc c body clauses elseBody r.
Proof.
  destruct (decide (c = "")) as [->|N]; [by eexists; apply selects_missing|].
  destruct (EvalBool Eval c rc) as [[|]|err] eqn:E; apply condition_exact in E;
    [by eexists; apply selects_body| |by eexists; apply selects_error].
  destruct (branch_total rc clauses elseBody) as [r B]. eexists. by apply selects_other.
Qed.

Lemma executeForEach_exact rc variable collection (body : RuntimeContext → W → block_result * RuntimeContext * W) r w : items_of rc variable collection r →
  executeForEach Eval variable collection body rc w =
  match r with Ok items => nested (for_items variable body items [] "" rc w) | Err err => (Failed err, rc, w) end.
Proof.
  unfold executeForEach. intros [->|N ->|err N1 N2 E|v items N1 N2 E I|v N1 N2 E I];
    [done | by apply String.eqb_neq in N as -> |..];
    apply String.eqb_neq in N1, N2; rewrite N1, N2; apply evaluates_exact in E; rewrite E; [done|..];
    destruct v; try done; simpl; by subst.
Qed.

Lemma items_total rc variable collection : ∃ r, items_of rc variable collection r.
Proof.
  destruct (decide (variable = "")) as [->|N1]; [by eexists; apply items_no_variable|].
  destruct (decide (collection = "")) as [->|N2]; [by eexists; apply items_no_collection|].
  destruct (EvalExpr Eval collection rc) as [v|err] eqn:E; apply evaluates_exact in E;
    [|by eexists; apply items_error].
  destruct v as [|s|b|n|f|l|m|l|l|l|t x];
    try (eexists; by eapply items_other); eexists; by eapply items_list.
Qed.

(** *** What the executor does is allowed *)

Definition stmt_sound (s : OnInputStmt) : Prop := ∀ acts out rc w,
  let '(o, rc', w') := meaning s rc w in
  match o with
  | Skipped => False
  | Did a res => exec_stmt s (acts, out, rc, w) (acts ++ [a], res, rc', w') None
  | Ran as_ res => exec_stmt s (acts, out, rc, w) (acts ++ as_, if String.eqb res "" then out else res, rc', w') None
  | Failed err => exec_stmt s (acts, out, rc, w) (acts, out, rc', w') (Some err)
  end.

Lemma list_sound l : Forall stmt_sound l → ∀ acts out rc w,
  let '(acts', out', err, rc', w') := run_block (map meaning l) acts out rc w in
  exec_list l (acts, out, rc, w) (acts', out', rc', w') err.
Proof.
  induction 1 as [|s l S F IH]; intros acts out rc w; [apply exec_nil|]. cbn [map]. rewrite run_block_cons.
  specialize (S acts out rc w). destruct (meaning s rc w) as [[o rc1] w1].
  destruct o as [|a res|as_ res|err]; [done|..].
  - specialize (IH (acts ++ [a]) res rc1 w1).
    destruct (run_block _ _ _ rc1 w1) as [[[[acts' out'] e] rc'] w']. by eapply exec_cons.
  - specialize (IH (acts ++ as_) (if String.eqb res "" then out else res) rc1 w1).
    destruct (run_block _ _ _ rc1 w1) as [[[[acts' out'] e] rc'] w']. by eapply exec_cons.
  - by apply exec_stop.
Qed.

Lemma each_sound variable body items : Forall stmt_sound body → ∀ acts out rc w,
  let '(acts', out', err, rc', w') := for_items variable (meaning_block body) items acts out rc w in
  exec_each variable body items (acts, out, rc, w) (acts', out', rc', w') err.
Proof.
  intros F. induction items as [|item items IH]; intros acts out rc w; cbn [for_items]; [apply exec_no_more|].
  pose proof (list_sound body F [] "" (SetVariable variable item rc) w) as B.
  unfold meaning_block at 1. destruct (run_block _ [] "" _ w) as [[[[acts1 out1] e1] rc1] w1].
  destruct e1 as [err|]; [by eapply exec_round_stop|].
  specialize (IH (acts ++ acts1) (if String.eqb out1 "" then out else out1) rc1 w1).
  destruct (for_items _ _ items _ _ rc1 w1) as [[[[acts' out'] e] rc'] w']. by eapply exec_round.
Qed.

Lemma stmts_sound s : stmt_sound s.
Proof.
  induction s as [n params sp ep|n sp ep|e sp ep|c body elseIfs elseBody sp ep Fb Fe Fl|v c body sp ep Fb]
    using OnInputStmt_nested_ind; intros acts out rc w.
  - cbn [ControlFlow.meaning]. unfold executeUseSkill. destruct (String.eqb_spec n "") as [->|N]; [apply exec_skill_missing|].
    destruct InvokeSkill as [f|] eqn:I; [|by apply exec_skill_unable]. fold (given_params params).
    destruct (f n (given_params params) (RC_Input rc) w) as [[r|err] w1] eqn:R; [by eapply exec_skill|by eapply exec_skill_error].
  - cbn [ControlFlow.meaning]. unfold executeDelegate. destruct (String.eqb_spec n "") as [->|N]; [apply exec_delegate_missing|].
    destruct DelegateToAgent as [f|] eqn:I; [|by apply exec_delegate_unable].
    destruct (f n (RC_Input rc) w) as [[r|err] w1] eqn:R; [by eapply exec_delegate|by eapply exec_delegate_error].
  - cbn [ControlFlow.meaning]. unfold executeRespond. destruct (String.eqb_spec e "") as [->|N]; [apply exec_respond_missing|].
    destruct (EvalExpr Eval e rc) as [v|err] eqn:E; apply evaluates_exact in E; apply exec_respond; try done;
      [by apply responds_value|by eapply responds_literal].
  - change (meaning (IfBlock c body elseIfs elseBody sp ep)) with
      (executeIf Eval c (meaning_block body) (clause_blocks elseIfs) (else_block elseBody)).
    destruct (selects_total rc c body elseIfs elseBody) as [r S]. rewrite (executeIf_exact _ _ _ _ _ _ w S).
    destruct r as [chosen|err]; [|by apply exec_if_error].
    assert (Forall stmt_sound chosen) as Fc.
    { clear -S Fb Fe Fl. inversion S as [| |r' N C B|]; subst; [done|].
      clear -B Fe Fl. remember (Ok chosen) as r eqn:Er. induction B; simplify_eq; try done.
      - apply Forall_cons in Fe as [_ Fe]. by apply IHB.
      - by apply Forall_cons in Fe as [Fe _].
      - apply Forall_cons in Fe as [_ Fe]. by apply IHB. }
    pose proof (list_sound chosen Fc [] "" rc w) as B. unfold nested, meaning_block.
    destruct (run_block _ [] "" rc w) as [[[[acts1 out1] e1] rc1] w1].
    destruct e1 as [err|]; [by eapply exec_if_stop|by eapply exec_if].
  - change (meaning (ForEachBlock v c body sp ep)) with (executeForEach Eval v c (meaning_block body)).
    destruct (items_total rc v c) as [r I]. rewrite (executeForEach_exact _ _ _ _ _ w I).
    destruct r as [items|err]; [|by apply exec_for_error].
    pose proof (each_sound v body items Fb [] "" rc w) as B. unfold nested.
    destruct (for_items _ _ _ [] "" rc w) as [[[[acts1 out1] e1] rc1] w1].
    destruct e1 as [err|]; [by eapply exec_for_stop|by eapply exec_for].
Qed.

(** *** What is allowed is what the executor does *)

Scheme exec_list_mut := Minimality for exec_list Sort Prop
  with exec_stmt_mut := Minimality for exec_stmt Sort Prop
  with exec_each_mut := Minimality for exec_each Sort Prop.
Combined Scheme exec_mut from exec_list_mut, exec_stmt_mut, exec_each_mut.

Definition goes_on (o : outcome) (acts : list Action) (out : string) : option (list Action * string * option string) :=
  match o with
  | Skipped => None
  | Did a res => Some (acts ++ [a], res, None)
  | Ran as_ res => Some (acts ++ as_, if String.eqb res "" then out else res, None)
  | Failed err => Some (acts, out, Some err)
  end.

Definition block_done (r : block_result * RuntimeContext * W) (c : Config) (e : option string) : Prop :=
  let '(acts, out, rc, w) := c in r = (acts, out, e, rc, w).

Lemma exec_complete :
  (∀ l c c' e, exec_list l c c' e →
     let '(acts, out, rc, w) := c in block_done (run_block (map meaning l) acts out rc w) c' e) ∧
  (∀ s c c' e, exec_stmt s c c' e →
     let '(acts, out, rc, w) := c in let '(acts', out', rc', w') := c' in
     ∃ o, meaning s rc w = (o, rc', w') ∧ goes_on o acts out = Some (acts', out', e)) ∧
  (∀ v body items c c' e, exec_each v body items c c' e →
     let '(acts, out, rc, w) := c in block_done (for_items v (meaning_block body) items acts out rc w) c' e).
Proof.
  apply exec_mut.
  - by intros [[[acts out] rc] w].
  - intros s l [[[acts out] rc] w] [[[acts1 out1] rc1] w1] c2 e _ (o & M & G) _ IH. cbn [map]. rewrite run_block_cons, M.
    destruct o; simplify_eq/=; exact IH.
  - intros s l [[[acts out] rc] w] [[[acts1 out1] rc1] w1] err _ (o & M & G). cbn [map]. rewrite run_block_cons, M.
    by destruct o; simplify_eq/=.
  - intros name params sp ep invoke result acts out rc w w' N I R. eexists. cbn [ControlFlow.meaning]. unfold executeUseSkill.
    apply String.eqb_neq in N. rewrite N, I. unfold given_params in R. by rewrite R.
  - intros name params sp ep invoke err acts out rc w w' N I R. eexists. cbn [ControlFlow.meaning]. unfold executeUseSkill.
    apply String.eqb_neq in N. rewrite N, I. unfold given_params in R. by rewrite R.
  - intros params sp ep [[[acts out] rc] w]. by eexists.
  - intros name params sp ep [[[acts out] rc] w] N I. eexists. cbn [ControlFlow.meaning]. unfold executeUseSkill.
    apply String.eqb_neq in N. by rewrite N, I.
  - intros name sp ep delegate result acts out rc w w' N I R. eexists. cbn [ControlFlow.meaning]. unfold executeDelegate.
    apply String.eqb_neq in N. by rewrite N, I, R.
  - intros name sp ep delegate err acts out rc w w' N I R. eexists. cbn [ControlFlow.meaning]. unfold executeDelegate.
    apply String.eqb_neq in N. by rewrite N, I, R.
  - intros sp ep [[[acts out] rc] w]. by eexists.
  - intros name sp ep [[[acts out] rc] w] N I. eexists. cbn [ControlFlow.meaning]. unfold executeDelegate.
    apply String.eqb_neq in N. by rewrite N, I.
  - intros e sp ep v text acts out rc w N R. eexists. cbn [ControlFlow.meaning]. unfold executeRespond.
    apply String.eqb_neq in N. rewrite N. destruct R as [v E|err E]; apply evaluates_exact in E; by rewrite E.
  - intros sp ep [[[acts out] rc] w]. by eexists.
  - intros c body l elseBody sp ep chosen acts out rc w acts' out' rc' w' S _ B. unfold block_done in B.
    change (meaning (IfBlock c body l elseBody sp ep)) with
      (executeIf Eval c (meaning_block body) (clause_blocks l) (else_block elseBody)).
    rewrite (executeIf_exact _ _ _ _ _ _ w S). unfold meaning_block. rewrite B. by eexists.
  - intros c body l elseBody sp ep chosen acts out rc w acts' out' rc' w' err S _ B. unfold block_done in B.
    change (meaning (IfBlock c body l elseBody sp ep)) with
      (executeIf Eval c (meaning_block body) (clause_blocks l) (else_block elseBody)).
    rewrite (executeIf_exact _ _ _ _ _ _ w S). unfold meaning_block. rewrite B. by eexists.
  - intros c body l elseBody sp ep acts out rc w err S.
    change (meaning (IfBlock c body l elseBody sp ep)) with
      (executeIf Eval c (meaning_block body) (clause_blocks l) (else_block elseBody)).
    rewrite (executeIf_exact _ _ _ _ _ _ w S). by eexists.
  - intros v c body sp ep items acts out rc w acts' out' rc' w' I _ B. unfold block_done in B.
    change (meaning (ForEachBlock v c body sp ep)) with (executeForEach Eval v c (meaning_block body)).
    rewrite (executeForEach_exact _ _ _ _ _ w I), B. by eexists.
  - intros v c body sp ep items acts out rc w acts' out' rc' w' err I _ B. unfold block_done in B.
    change (meaning (ForEachBlock v c body sp ep)) with (executeForEach Eval v c (meaning_block body)).
    rewrite (executeForEach_exact _ _ _ _ _ w I), B. by eexists.
  - intros v c body sp ep acts out rc w err I.
    change (meaning (ForEachBlock v c body sp ep)) with (executeForEach Eval v c (meaning_block body)).
    rewrite (executeForEach_exact _ _ _ _ _ w I). by eexists.
  - done.
  - intros v body item items acts out rc w acts' out' rc' w' [[[acts2 out2] rc2] w2] e _ B _ IH. unfold block_done in B.
    cbn [for_items]. unfold meaning_block at 1, SetVariable. rewrite B. exact IH.
  - intros v body item items acts out rc w acts' out' rc' w' err _ B. unfold block_done in B.
    cbn [for_items]. unfold meaning_block at 1, SetVariable. by rewrite B.
Qed.

(** The statements of a block, run, are exactly the runs of the rules. *)
Lemma meaning_block_exec stmts rc w acts out err rc' w' :
  meaning_block stmts rc w = (acts, out, err, rc', w') ↔
  exec_list stmts ([], "", rc, w) (acts, out, rc', w') err.
Proof.
  split.
  - intros E. pose proof (list_sound stmts ltac:(apply Forall_true, stmts_sound) [] "" rc w) as S.
    unfold ControlFlow.meaning_block in E. by rewrite E in S.
  - intros X. by apply (proj1 exec_complete) in X.
Qed.
End semantics.
