(* ===== verification/RuntimeConfig.v ===== *)
(** The configuration of the runtime (internal/runtime/config.go,
    configresolver.go): what FromIR reads of a document, and the resolution of
    the parameters of an agent. *)
From S2P Require Import Prelude GoStd Ir ControlFlow.
Open Scope Z_scope.

(** * The configuration *)

Record ConfigParamDef := mkConfigParamDef {
  ConfigParamDef_Name : string;
  ConfigParamDef_Type : string;
  ConfigParamDef_Description : string;
  ConfigParamDef_Required : bool;
  ConfigParamDef_Secret : bool;
  ConfigParamDef_HasDefault : bool;
  ConfigParamDef_Default : string;
}.

Record ValidationRuleDef := mkValidationRuleDef {
  ValidationRuleDef_Name : string;
  ValidationRuleDef_Expression : string;
  ValidationRuleDef_Severity : string;
  ValidationRuleDef_Message : string;
  ValidationRuleDef_MaxRetries : Z;
}.

Record EvalCaseDef := mkEvalCaseDef {
  EvalCaseDef_Name : string;
  EvalCaseDef_Input : string;
  EvalCaseDef_Expected : string;
  EvalCaseDef_Scoring : string;
  EvalCaseDef_Threshold : float64;
  EvalCaseDef_Tags : list string;
}.

Record MemoryConfig := mkMemoryConfig {
  MemoryConfig_Strategy : string;
  MemoryConfig_MaxMessages : Z;
}.

Record DelegateConfig := mkDelegateConfig {
  DelegateConfig_Agent : string;
  DelegateConfig_Condition : string;
}.

(** AgentConfig holds the runtime configuration for a single agent. *)
Record AgentConfig := mkAgentConfig {
  AgentConfig_Name : string;
  AgentConfig_FQN : string;
  AgentConfig_Model : string;
  AgentConfig_System : string;
  AgentConfig_Skills : list string;
  AgentConfig_Strategy : string;
  AgentConfig_MaxTurns : Z;
  AgentConfig_Timeout : string;
  AgentConfig_TokenBudget : Z;
  AgentConfig_Temperature : option float64;
  AgentConfig_Stream : bool;
  AgentConfig_OnError : string;
  AgentConfig_MaxRetries : Z;
  AgentConfig_Fallback : string;
  AgentConfig_Memory : option MemoryConfig;
  AgentConfig_Delegates : list DelegateConfig;
  AgentConfig_ConfigParams : list ConfigParamDef;
  AgentConfig_ValidationRules : list ValidationRuleDef;
  AgentConfig_EvalCases : list EvalCaseDef;
  AgentConfig_OnInput : list Value;
}.

Global Instance settable_AgentConfig : Settable AgentConfig := λ a,
  mkAgentConfig (AgentConfig_Name a) (AgentConfig_FQN a) (AgentConfig_Model a) (AgentConfig_System a)
    (AgentConfig_Skills a) (AgentConfig_Strategy a) (AgentConfig_MaxTurns a) (AgentConfig_Timeout a)
    (AgentConfig_TokenBudget a) (AgentConfig_Temperature a) (AgentConfig_Stream a) (AgentConfig_OnError a)
    (AgentConfig_MaxRetries a) (AgentConfig_Fallback a) (AgentConfig_Memory a) (AgentConfig_Delegates a)
    (AgentConfig_ConfigParams a) (AgentConfig_ValidationRules a) (AgentConfig_EvalCases a)
    (AgentConfig_OnInput a).

Record SkillConfig := mkSkillConfig {
  SkillConfig_Name : string;
  SkillConfig_Description : string;
  SkillConfig_Tool : Attrs;
}.

Record ServerConfig := mkServerConfig {
  ServerConfig_Name : string;
  ServerConfig_Transport : string;
  ServerConfig_Command : string;
  ServerConfig_Args : list string;
}.

Record PipelineStepConfig := mkPipelineStepConfig {
  PipelineStepConfig_Name : string;
  PipelineStepConfig_AgentRef : string;
  PipelineStepConfig_Input : string;
  PipelineStepConfig_Output : string;
  PipelineStepConfig_DependsOn : list string;
}.

Record PipelineConfig := mkPipelineConfig {
  PipelineConfig_Name : string;
  PipelineConfig_Steps : list PipelineStepConfig;
}.

(** RuntimeConfig is the complete runtime configuration parsed from IR. *)
Record RuntimeConfig := mkRuntimeConfig {
  RuntimeConfig_PackageName : string;
  RuntimeConfig_Agents : list AgentConfig;
  RuntimeConfig_Skills : list SkillConfig;
  RuntimeConfig_MCPServers : list ServerConfig;
  RuntimeConfig_Prompts : gmap string string;
  RuntimeConfig_Pipelines : list PipelineConfig;
}.

Global Instance settable_RuntimeConfig : Settable RuntimeConfig := λ c,
  mkRuntimeConfig (RuntimeConfig_PackageName c) (RuntimeConfig_Agents c) (RuntimeConfig_Skills c)
    (RuntimeConfig_MCPServers c) (RuntimeConfig_Prompts c) (RuntimeConfig_Pipelines c).

(** * Reading attributes *)

(** [if s, ok := m[k].(string); ok { field = s }], over a default. *)
Definition str_or (k dflt : string) (m : Attrs) : string :=
  match attr k m with Some (VStr s) => s | _ => dflt end.

Definition bool_or (k : string) (dflt : bool) (m : Attrs) : bool :=
  match attr k m with Some (VBool b) => b | _ => dflt end.

(** [m[k].([]interface{})], and its elements of type string. *)
Definition list_attr (k : string) (m : Attrs) : list Value :=
  match attr k m with Some (VList l) => l | _ => [] end.

Definition strs_attr (k : string) (m : Attrs) : list string :=
  omap (λ v, match v with VStr s => Some s | _ => None end) (list_attr k m).

(** The elements of type map[string]interface{}. *)
Definition maps_attr (k : string) (m : Attrs) : list Attrs :=
  omap (λ v, match v with VMap m => Some m | _ => None end) (list_attr k m).

(** [int(f)]: truncation; out of range, what amd64 gives. *)
Definition int_of_float (f : float64) : Z :=
  match f with
  | SpecFloat.S754_finite neg m e =>
      let n := if 0 <=? e then Zpos m * 2 ^ e else Zpos m / 2 ^ (- e) in
      let n := if neg then - n else n in
      if (min_int <=? n) && (n <=? max_int) then n else min_int
  | SpecFloat.S754_zero _ => 0
  | _ => min_int
  end.

Definition toInt (v : Value) : Z :=
  match v with VInt n => n | VFloat f => int_of_float f | _ => 0 end.

Definition toFloat (v : Value) : float64 :=
  match v with VFloat f => f | VInt n => float_of_Z n | _ => float_zero end.

(** [if v, ok := m[k]; ok { field = toInt(v) }] *)
Definition int_or (k : string) (dflt : Z) (m : Attrs) : Z :=
  match attr k m with Some v => toInt v | None => dflt end.

Section config.
Context `{GoRuntime}.

(** The dynamic value of a value of the IR. *)
Fixpoint dyn_of (v : Value) : Dyn :=
  match v with
  | VStr s => DStr s
  | VBool b => DBool b
  | VInt n => DInt n
  | VFloat f => DFloat f
  | VList l => DList (map dyn_of l)
  | VMap m => DMap (map (λ '(k, v), (k, dyn_of v)) m)
  end.

Definition config_param (m : Attrs) : ConfigParamDef :=
  mkConfigParamDef (str_or "name" "" m) (str_or "type" "" m) (str_or "description" "" m)
    (bool_or "required" false m) (bool_or "secret" false m)
    (match attr "default" m with Some _ => true | None => false end)
    (match attr "default" m with Some d => fmt_v (dyn_of d) | None => "" end).

(** ExtractConfigParams extracts ConfigParamDef from IR agent attributes. *)
Definition ExtractConfigParams (attrs : Attrs) : list ConfigParamDef :=
  config_param <$> maps_attr "config_params" attrs.

Definition validation_rule (m : Attrs) : ValidationRuleDef :=
  mkValidationRuleDef (str_or "name" "" m) (str_or "expression" "" m) (str_or "severity" "error" m)
    (str_or "message" "" m) (int_or "max_retries" 3 m).

Definition eval_case (m : Attrs) : EvalCaseDef :=
  mkEvalCaseDef (str_or "name" "" m) (str_or "input" "" m) (str_or "expected" "" m)
    (str_or "scoring" "semantic" m)
    (match attr "threshold" m with Some t => toFloat t | None => float_of_ratio false 8 10 end)
    (strs_attr "tags" m).

(** The agent of a resource; its system prompt is resolved later. Memory and
    delegates are not read. *)
Definition agent_config (r : Resource) : AgentConfig :=
  let m := Resource_Attributes r in
  mkAgentConfig (Resource_Name r) (Resource_FQN r) (str_or "model" "" m) ""
    (strs_attr "skill_refs" m ++ strs_attr "skills" m)
    (str_or "strategy" "react" m) (int_or "max_turns" 10 m) (str_or "timeout" "" m)
    (int_or "token_budget" 0 m) (toFloat <$> attr "temperature" m) (bool_or "stream" true m)
    (str_or "on_error" "retry" m) (int_or "max_retries" 0 m) (str_or "fallback" "" m)
    None [] (ExtractConfigParams m) (validation_rule <$> maps_attr "validation_rules" m)
    (eval_case <$> maps_attr "eval_cases" m) (list_attr "on_input" m).

Definition skill_config (r : Resource) : SkillConfig :=
  let m := Resource_Attributes r in
  mkSkillConfig (Resource_Name r) (str_or "description" "" m)
    (match attr "tool" m with Some (VMap t) => t | _ => [] end).

Definition server_config (r : Resource) : ServerConfig :=
  let m := Resource_Attributes r in
  mkServerConfig (Resource_Name r) (str_or "transport" "" m) (str_or "command" "" m) (strs_attr "args" m).

Definition step_config (m : Attrs) : PipelineStepConfig :=
  mkPipelineStepConfig (str_or "name" "" m) (str_or "agent" "" m) (str_or "input" "" m)
    (str_or "output" "" m) (strs_attr "depends_on" m).

Definition pipeline_config (r : Resource) : PipelineConfig :=
  mkPipelineConfig (Resource_Name r) (step_config <$> maps_attr "steps" (Resource_Attributes r)).

(** The switch on the kind of a resource. *)
Definition add_resource (c : RuntimeConfig) (r : Resource) : RuntimeConfig :=
  let kind := Resource_Kind r in
  if String.eqb kind "Agent" then
    c <| RuntimeConfig_Agents := RuntimeConfig_Agents c ++ [agent_config r] |>
  else if String.eqb kind "Prompt" then
    match attr "content" (Resource_Attributes r) with
    | Some (VStr content) =>
        c <| RuntimeConfig_Prompts := <[Resource_Name r := content]> (RuntimeConfig_Prompts c) |>
    | _ => c
    end
  else if String.eqb kind "Skill" then
    c <| RuntimeConfig_Skills := RuntimeConfig_Skills c ++ [skill_config r] |>
  else if String.eqb kind "MCPServer" then
    c <| RuntimeConfig_MCPServers := RuntimeConfig_MCPServers c ++ [server_config r] |>
  else if String.eqb kind "Pipeline" then
    c <| RuntimeConfig_Pipelines := RuntimeConfig_Pipelines c ++ [pipeline_config r] |>
  else c.

(** A prompt appended to the system prompt, after a blank line. *)
Definition append_prompt (prompts : gmap string string) (system name : string) : string :=
  match prompts !! name with
  | Some content => (if String.eqb system "" then system else system +:+ nl +:+ nl) +:+ content
  | None => system
  end.

(** The prompts that a resource adds to the agent of its name. *)
Definition resource_prompts (prompts : gmap string string) (name system : string) (r : Resource) : string :=
  if String.eqb (Resource_Kind r) "Agent" && String.eqb (Resource_Name r) name then
    let m := Resource_Attributes r in
    let system := match attr "prompt" m with
                  | Some (VStr p) => append_prompt prompts system p | _ => system end in
    foldl (append_prompt prompts) system (strs_attr "prompt_refs" m)
  else system.

Definition resolve_prompts (resources : list Resource) (prompts : gmap string string) (a : AgentConfig) :
    AgentConfig :=
  a <| AgentConfig_System :=
    foldl (resource_prompts prompts (AgentConfig_Name a)) (AgentConfig_System a) resources |>.

(** FromIR converts an IR Document into a RuntimeConfig. *)
Definition FromIR (doc : Document) : result string RuntimeConfig :=
  let c := foldl add_resource
    (mkRuntimeConfig (Package_Name (Document_Package doc)) [] [] [] ∅ []) (Document_Resources doc) in
  let c := c <| RuntimeConfig_Agents :=
    resolve_prompts (Document_Resources doc) (RuntimeConfig_Prompts c) <$> RuntimeConfig_Agents c |> in
  match RuntimeConfig_Agents c with
  | [] => Err "no agents found in IR document"
  | _ => Ok c
  end.

(** * Parameters of an agent

    The environment and the parsed configuration file are arguments, and so
    are the float parser of strconv and the text of its errors. *)

Section resolver.
Context (LookupEnv : string → option string) (configFile : option (gmap string Dyn)).
Context (ParseFloat64 : string → result string float64) (NumError : string → string → string).

Definition ParseBool (s : string) : option bool :=
  if existsb (String.eqb s) ["1"; "t"; "T"; "true"; "TRUE"; "True"] then Some true
  else if existsb (String.eqb s) ["0"; "f"; "F"; "false"; "FALSE"; "False"] then Some false
  else None.

(** convertValue converts a string value to the declared type. *)
Definition convertValue (val typ : string) : result string Dyn :=
  let fail kind err := Err ("cannot convert " +:+ quote val +:+ " to " +:+ kind +:+ ": " +:+ err) in
  if String.eqb typ "int" then
    match Atoi val with Some n => Ok (DInt n) | None => fail "int" (NumError "Atoi" val) end
  else if String.eqb typ "float" then
    match ParseFloat64 val with Ok f => Ok (DFloat f) | Err err => fail "float" err end
  else if String.eqb typ "bool" then
    match ParseBool val with Some b => Ok (DBool b) | None => fail "bool" (NumError "ParseBool" val) end
  else Ok (DStr val).

(** configEnvKey generates the environment variable name for a config param. *)
Definition configEnvKey (agentName paramName : string) : string :=
  "AGENTSPEC_" +:+ ToUpper (ReplaceAll agentName "-" "_") +:+ "_" +:+ ToUpper (ReplaceAll paramName "-" "_").

(** resolveValue checks env var first, then config file. *)
Definition resolveValue (agentName paramName envKey : string) : option string :=
  match LookupEnv envKey with
  | Some val => Some val
  | None =>
      cfg ← configFile;
      match cfg !! agentName with
      | Some (DMap m) =>
          match List.find (λ kv, String.eqb kv.1 paramName) m with
          | Some (_, v) => Some (fmt_v v)
          | None => fmt_v <$> cfg !! paramName
          end
      | _ => fmt_v <$> cfg !! paramName
      end
  end.

(** The loop over the parameters, with the values and the missing ones so far. *)
Fixpoint resolve_params (agentName : string) (params : list ConfigParamDef)
    (values : gmap string Dyn) (missing : list string) : result string (gmap string Dyn * list string) :=
  match params with
  | [] => Ok (values, missing)
  | p :: params =>
      let name := ConfigParamDef_Name p in
      let envKey := configEnvKey agentName name in
      match resolveValue agentName name envKey with
      | Some val =>
          match convertValue val (ConfigParamDef_Type p) with
          | Ok typed => resolve_params agentName params (<[name := typed]> values) missing
          | Err err => Err ("config param " +:+ quote name +:+ " (" +:+ envKey +:+ "): " +:+ err)
          end
      | None =>
          if ConfigParamDef_HasDefault p then
            match convertValue (ConfigParamDef_Default p) (ConfigParamDef_Type p) with
            | Ok typed => resolve_params agentName params (<[name := typed]> values) missing
            | Err err => Err ("config param " +:+ quote name +:+ " default value: " +:+ err)
            end
          else
            resolve_params agentName params values
              (if ConfigParamDef_Required p
               then missing ++ [name +:+ " (env: " +:+ envKey +:+ ")"] else missing)
      end
  end.

(** Resolve resolves all declared config params for an agent. *)
Definition Resolve (agentName : string) (params : list ConfigParamDef) : result string (gmap string Dyn) :=
  match resolve_params agentName params ∅ [] with
  | Err err => Err err
  | Ok (values, []) => Ok values
  | Ok (_, missing) => Err ("missing required config params: " +:+ Join missing ", ")
  end.
End resolver.
End config.
