(* ===== verification/RuntimeRun.v ===== *)
(** What FromIR reads of a lowered agent: the fields of its declaration, one by
    one. *)
From S2P Require Import Prelude GoStd Ast Ir IrFacts Lower LowerFacts ControlFlow OnInputRules RuntimeConfig.
Open Scope Z_scope.

(** * Attributes *)

Lemma attr_cons k k' v m : attr k ((k', v) :: m) = if String.eqb k k' then Some v else attr k m.
Proof. done. Qed.

Lemma attr_field k c k' v : attr k (field c k' v) = if c then (if String.eqb k k' then Some v else None) else None.
Proof. by destruct c. Qed.

Lemma attr_opt_field {A} k k' (f : A → Value) o :
  attr k (opt_field k' f o) = match o with Some x => if String.eqb k k' then Some (f x) else None | None => None end.
Proof. by destruct o. Qed.

Lemma if_same {A} (c : bool) (x : A) : (if c then x else x) = x.
Proof. by destruct c. Qed.

Lemma match_same {A B} (o : option A) (x : B) : match o with Some _ => x | None => x end = x.
Proof. by destruct o. Qed.

Lemma match_eta {A} (o : option A) : match o with Some v => Some v | None => None end = o.
Proof. by destruct o. Qed.

(** Reads an attribute of a map that was built field by field. *)
Ltac read_attrs :=
  unfold str_field, int_field, list_field, true_field, map_field;
  repeat (rewrite ?attr_app, ?attr_cons, ?attr_field, ?attr_opt_field;
          cbn [attr String.eqb Ascii.eqb Bool.eqb andb]; rewrite ?if_same, ?match_same, ?match_eta).

Lemma omap_VStr (l : list string) : omap (λ v, match v with VStr s => Some s | _ => None end) (VStr <$> l) = l.
Proof. induction l as [|s l IH]; [done|]. csimpl. by rewrite IH. Qed.

Lemma omap_VMap {A} (f : A → Attrs) (l : list A) :
  omap (λ v, match v with VMap m => Some m | _ => None end) ((λ x, VMap (f x)) <$> l) = f <$> l.
Proof. induction l as [|s l IH]; [done|]. csimpl. by rewrite IH. Qed.

Section facts.
Context `{GoRuntime}.

(** * What the configuration of an agent should be *)

Definition expected_param (p : Ast.ConfigParam) : ConfigParamDef :=
  mkConfigParamDef (ConfigParam_Name p) (ConfigParam_Type p) (ConfigParam_Description p)
    (ConfigParam_Required p) (ConfigParam_Secret p) (ConfigParam_HasDefault p)
    (if ConfigParam_HasDefault p then ConfigParam_Default p else "").

Definition expected_rule (r : ValidationRule) : ValidationRuleDef :=
  mkValidationRuleDef (ValidationRule_Name r) (ValidationRule_Expression r) (ValidationRule_Severity r)
    (ValidationRule_Message r) (if 0 <? ValidationRule_MaxRetries r then ValidationRule_MaxRetries r else 3).

Definition expected_case (c : EvalCase) : EvalCaseDef :=
  let dflt := float_of_ratio false 8 10 in
  mkEvalCaseDef (EvalCase_Name c) (EvalCase_Input c) (EvalCase_Expected c)
    (if nonempty (EvalCase_Scoring c) then EvalCase_Scoring c else "semantic")
    (if float_eq (EvalCase_Threshold c) dflt then dflt else EvalCase_Threshold c)
    (EvalCase_Tags c).

Definition or_default (s dflt : string) : string := if nonempty s then s else dflt.
Definition int_default (n dflt : Z) : Z := if 0 <? n then n else dflt.

(** The statements of the on-input block of an agent. *)
Definition on_input_stmts (a : Agent) : list OnInputStmt :=
  match Agent_OnInput a with Some b => OnInputBlock_Statements b | None => [] end.

Definition expected_agent (pkgName system : string) (a : Agent) : AgentConfig :=
  mkAgentConfig (Agent_Name a) (fqn pkgName "Agent" (Agent_Name a)) (Agent_Model a) system
    (Ref_Name <$> Agent_Skills a) (or_default (Agent_Strategy a) "react")
    (int_default (Agent_MaxTurns a) 10) (Agent_Timeout a) (int_default (Agent_TokenBudget a) 0)
    (if Agent_HasTemp a then Some (Agent_Temperature a) else None)
    (default true (Agent_Stream a)) (or_default (Agent_OnError a) "retry")
    (int_default (Agent_MaxRetries a) 0) (Agent_Fallback a) None []
    (expected_param <$> Agent_ConfigParams a) (expected_rule <$> Agent_ValidationRules a)
    (expected_case <$> Agent_EvalCases a)
    (map lower_on_input_stmt (on_input_stmts a)).

Lemma nonempty_false s : nonempty s = false → s = "".
Proof. unfold nonempty. by destruct (String.eqb_spec s ""). Qed.

Lemma strs_attr_list k (l : list string) m : attr k m = (if some_of l then Some (strings l) else None) → strs_attr k m = l.
Proof. unfold strs_attr, list_attr, strings. intros ->. destruct l as [|s l]; [done|]. apply omap_VStr. Qed.

Lemma maps_attr_list {A} (f : A → Attrs) k (l : list A) m :
  attr k m = (if some_of l then Some (VList ((λ x, VMap (f x)) <$> l)) else None) →
  maps_attr k m = f <$> l.
Proof. unfold maps_attr, list_attr. intros ->. destruct l as [|x l]; [done|]. apply omap_VMap. Qed.

Lemma param_lowered p m : lower_param p = VMap m → config_param m = expected_param p.
Proof.
  intros [= <-]. unfold config_param, expected_param, str_or, bool_or. read_attrs.
  destruct (ConfigParam_HasDefault p), (ConfigParam_Required p), (ConfigParam_Secret p);
    (destruct (nonempty (ConfigParam_Description p)) eqn:E; [|apply nonempty_false in E as ->]); done.
Qed.

Lemma rule_lowered r m : lower_rule r = VMap m → validation_rule m = expected_rule r.
Proof.
  intros [= <-]. unfold validation_rule, expected_rule, str_or, int_or. read_attrs.
  destruct (0 <? ValidationRule_MaxRetries r);
    (destruct (nonempty (ValidationRule_Message r)) eqn:E; [|apply nonempty_false in E as ->]); done.
Qed.

Lemma case_lowered c m : lower_case c = VMap m → eval_case m = expected_case c.
Proof.
  intros [= <-]. unfold eval_case, expected_case.
  rewrite (strs_attr_list "tags" (EvalCase_Tags c)) by (read_attrs; done).
  unfold str_or. read_attrs.
  destruct (nonempty (EvalCase_Scoring c)); destruct (float_eq _ _); done.
Qed.

Lemma fmap_lowered {A B} (lower : A → Value) (parse : Attrs → B) (expect : A → B) (l : list A) m k :
  (∀ x, ∃ n, lower x = VMap n ∧ parse n = expect x) →
  attr k m = (if some_of l then Some (VList (lower <$> l)) else None) →
  parse <$> maps_attr k m = expect <$> l.
Proof.
  intros P E. unfold maps_attr, list_attr. rewrite E. destruct (some_of l) eqn:So.
  - clear E So. induction l as [|x l IH]; [done|]. csimpl. destruct (P x) as (n & -> & Ex).
    csimpl. by rewrite Ex, IH.
  - by destruct l.
Qed.

Lemma agent_config_lowered pkgName a :
  agent_config (lower_agent pkgName a) = expected_agent pkgName "" a.
Proof.
  unfold agent_config, expected_agent, ExtractConfigParams, lower_agent, resource. simpl Resource_Attributes.
  set (m := agent_attrs a).
  assert (config_param <$> maps_attr "config_params" m = expected_param <$> Agent_ConfigParams a) as ->.
  { apply (fmap_lowered lower_param); [intros x; eexists; split; [done|by eapply param_lowered]|].
    unfold m, agent_attrs. by read_attrs. }
  assert (validation_rule <$> maps_attr "validation_rules" m = expected_rule <$> Agent_ValidationRules a) as ->.
  { apply (fmap_lowered lower_rule); [intros x; eexists; split; [done|by eapply rule_lowered]|].
    unfold m, agent_attrs. by read_attrs. }
  assert (eval_case <$> maps_attr "eval_cases" m = expected_case <$> Agent_EvalCases a) as ->.
  { apply (fmap_lowered lower_case); [intros x; eexists; split; [done|by eapply case_lowered]|].
    unfold m, agent_attrs. by read_attrs. }
  rewrite (strs_attr_list "skills" (Ref_Name <$> Agent_Skills a)) by (unfold m, agent_attrs; by read_attrs).
  rewrite (strs_attr_list "skill_refs" []) by (unfold m, agent_attrs; by read_attrs).
  unfold str_or, int_or, bool_or, list_attr, or_default, int_default, on_input_stmts.
  repeat match goal with
  | |- context [attr ?k m] =>
      let A := fresh "A" in
      eassert (attr k m = _) as A by (unfold m, agent_attrs; read_attrs; reflexivity); rewrite A; clear A
  end.
  destruct (nonempty (Agent_Timeout a)) eqn:E1, (nonempty (Agent_Fallback a)) eqn:E2;
    repeat match goal with E : nonempty _ = false |- _ => apply nonempty_false in E; rewrite E end;
    destruct (nonempty (Agent_Strategy a)), (nonempty (Agent_OnError a)), (0 <? Agent_MaxTurns a),
      (0 <? Agent_TokenBudget a), (0 <? Agent_MaxRetries a), (Agent_HasTemp a), (Agent_Stream a), (Agent_OnInput a); done.
Qed.
End facts.

(** The runtime configuration of a lowered file is the file's: every agent with
    the fields of its declaration, its prompt, and its on-input block, which
    the executor runs as written; and nothing of what FromIR does not read. *)

Section facts.
Context `{GoRuntime}.

(** * Documents *)

(** The agents of a file, and the content of its first prompt with a name. *)
Definition agents_of (stmts : list Statement) : list Agent :=
  omap (λ s, match s with SAgent a => Some a | _ => None end) stmts.

Definition prompt_content (stmts : list Statement) (name : string) : option string :=
  head (omap (λ s, match s with
    | SPrompt p => if String.eqb (Prompt_Name p) name then Some (Prompt_Content p) else None
    | _ => None end) stmts).

(** The system prompt of an agent. *)
Definition system_of (stmts : list Statement) (a : Agent) : string :=
  match Agent_Prompt a with Some r => default "" (prompt_content stmts (Ref_Name r)) | None => "" end.

Definition ident (r : Resource) : string * string := (Resource_Kind r, Resource_Name r).

Lemma ident_inj rs r r' : NoDup (ident <$> rs) → r ∈ rs → r' ∈ rs → ident r = ident r' → r = r'.
Proof.
  intros N I I' E. apply list_elem_of_lookup in I as [i Ei], I' as [j Ej].
  assert (i = j) as ->; [|congruence]. eapply (NoDup_lookup (ident <$> rs)); [done|..];
    rewrite list_lookup_fmap; [by rewrite Ei|by rewrite Ej, E].
Qed.

Lemma add_resources_agents rs c :
  RuntimeConfig_Agents (foldl add_resource c rs) =
    RuntimeConfig_Agents c ++ (agent_config <$> filter (λ r, Resource_Kind r = "Agent") rs).
Proof.
  revert c. induction rs as [|r rs IH]; intros c; simpl; [by rewrite app_nil_r|].
  rewrite IH, filter_cons. unfold add_resource.
  destruct (String.eqb_spec (Resource_Kind r) "Agent") as [E|N].
  - rewrite decide_True by done. simpl. by rewrite <- app_assoc.
  - rewrite decide_False by done. repeat (destruct (String.eqb _ _); try done).
    by destruct (attr "content" _) as [[]|].
Qed.

Definition content_of (r : Resource) : option string :=
  match attr "content" (Resource_Attributes r) with Some (VStr s) => Some s | _ => None end.

Lemma add_resources_prompts rs c n : NoDup (ident <$> rs) →
  RuntimeConfig_Prompts (foldl add_resource c rs) !! n =
    match List.find (λ r, bool_decide (ident r = ("Prompt", n) ∧ is_Some (content_of r))) rs with
    | Some r => content_of r
    | None => RuntimeConfig_Prompts c !! n
    end.
Proof.
  revert c. induction rs as [|r rs IH]; intros c N; simpl; [done|].
  rewrite fmap_cons in N. apply NoDup_cons in N as [Nr N]. rewrite IH by done.
  set (f := λ r, bool_decide (ident r = ("Prompt", n) ∧ is_Some (content_of r))).
  destruct (bool_decide_reflect (ident r = ("Prompt", n) ∧ is_Some (content_of r))) as [[Ei [s Es]]|Nf].
  - destruct (List.find f rs) as [r'|] eqn:F.
    { apply List.find_some in F as [I [Er' _]%bool_decide_eq_true]. destruct Nr.
      apply list_elem_of_fmap. exists r'. split; [congruence|by apply list_elem_of_In]. }
    injection Ei as Ek En. unfold add_resource. rewrite Ek. simpl. unfold content_of in *.
    destruct (attr "content" _) as [[]|]; try done. simpl. by rewrite En, lookup_insert_eq.
  - destruct (List.find f rs); [done|]. unfold add_resource.
    destruct (String.eqb (Resource_Kind r) "Agent"); [done|].
    destruct (String.eqb_spec (Resource_Kind r) "Prompt") as [E|];
      [|by repeat (destruct (String.eqb _ _); try done)].
    destruct (attr "content" (Resource_Attributes r)) as [[s| | | | |]|] eqn:A; try done. simpl.
    rewrite lookup_insert_ne; [done|]. intros En. apply Nf. unfold ident, content_of. rewrite E, En, A. split; [done|by eexists].
Qed.

(** A fold in which only one element counts. *)
Lemma foldl_single {A B} (f : A → B → A) (P : B → Prop) x r rs :
  (∀ y r', ¬ P r' → f y r' = y) → NoDup rs → r ∈ rs → (∀ r', r' ∈ rs → P r' → r' = r) → foldl f x rs = f x r.
Proof.
  intros Nf N I U.
  assert (∀ y l, (∀ r', r' ∈ l → ¬ P r') → foldl f y l = y) as Id.
  { intros y l. revert y. induction l as [|r' l IH]; intros y Np; simpl; [done|].
    rewrite Nf by (apply Np; left). apply IH. intros; apply Np; by right. }
  apply list_elem_of_split in I as (l1 & l2 & ->). apply NoDup_app in N as (_ & D & N).
  apply NoDup_cons in N as [N _]. rewrite foldl_app. simpl. rewrite (Id x l1), (Id _ l2); [done|..].
  - intros r' J Pr. assert (r' = r) as -> by (apply U; [apply elem_of_app; right; by right|done]). done.
  - intros r' J Pr. assert (r' = r) as -> by (apply U; [apply elem_of_app; by left|done]). apply (D r J). left.
Qed.

(** * Lowered files *)

Section lowered.
Context (stmts : list Statement) (pkgName : string) (rs : list Resource).
Context (Hrs : rs ≡ₚ omap (lower_resource pkgName) stmts) (Nid : NoDup (ident <$> rs)).

Let prompts := RuntimeConfig_Prompts (foldl add_resource (mkRuntimeConfig pkgName [] [] [] ∅ []) rs).

Lemma in_resources r : r ∈ rs ↔ ∃ s, s ∈ stmts ∧ lower_resource pkgName s = Some r.
Proof. rewrite Hrs. apply list_elem_of_omap. Qed.

Lemma prompt_resource p : SPrompt p ∈ stmts → lower_prompt pkgName p ∈ rs.
Proof. intros I. apply in_resources. by exists (SPrompt p). Qed.

Lemma kind_prompt s r : lower_resource pkgName s = Some r → Resource_Kind r = "Prompt" →
  ∃ p, s = SPrompt p ∧ r = lower_prompt pkgName p.
Proof. destruct s; intros [= <-]; try done. intros _. by eexists. Qed.

Lemma kind_agent s r : lower_resource pkgName s = Some r → Resource_Kind r = "Agent" →
  ∃ a, s = SAgent a ∧ r = lower_agent pkgName a.
Proof. destruct s; intros [= <-]; try done. intros _. by eexists. Qed.

Lemma prompt_content_Some n content : prompt_content stmts n = Some content →
  ∃ p, SPrompt p ∈ stmts ∧ Prompt_Name p = n ∧ Prompt_Content p = content.
Proof.
  unfold prompt_content. intros E. apply head_Some_elem_of in E. apply list_elem_of_omap in E as (s & I & E).
  destruct s; try done. destruct (String.eqb_spec (Prompt_Name s) n) as [En|]; [|done].
  injection E as E. by exists s.
Qed.

Lemma prompt_content_None n : prompt_content stmts n = None →
  ∀ p, SPrompt p ∈ stmts → Prompt_Name p ≠ n.
Proof.
  unfold prompt_content. intros E p I En. apply head_None in E.
  assert (Prompt_Content p ∈ omap (λ s, match s with
    | SPrompt p => if String.eqb (Prompt_Name p) n then Some (Prompt_Content p) else None
    | _ => None end) stmts) as J.
  { apply list_elem_of_omap. exists (SPrompt p). split; [done|]. by rewrite En, String.eqb_refl. }
  rewrite E in J. by apply not_elem_of_nil in J.
Qed.

Lemma prompts_lookup n : prompts !! n = prompt_content stmts n.
Proof.
  unfold prompts. rewrite add_resources_prompts by done. simpl. rewrite lookup_empty.
  destruct (List.find _ rs) as [r|] eqn:F.
  - apply List.find_some in F as [I [Ei _]%bool_decide_eq_true].
    apply list_elem_of_In, in_resources in I as (s & Is & L).
    injection Ei as Ek En. destruct (kind_prompt s r L Ek) as (p & -> & ->).
    unfold content_of. simpl. simpl in En.
    destruct (prompt_content stmts n) as [content|] eqn:C.
    + apply prompt_content_Some in C as (p' & Ip & En' & <-).
      assert (lower_prompt pkgName p = lower_prompt pkgName p') as Ep.
      { apply (ident_inj rs); [done|by apply prompt_resource..|]. unfold ident. simpl. by rewrite En, En'. }
      apply (f_equal content_of) in Ep. unfold content_of in Ep. simpl in Ep. done.
    + by apply prompt_content_None with (p := p) in C.
  - destruct (prompt_content stmts n) as [content|] eqn:C; [|done]. exfalso.
    apply prompt_content_Some in C as (p & Ip & En & _).
    apply prompt_resource, list_elem_of_In in Ip. eapply List.find_none in F; [|exact Ip].
    apply bool_decide_eq_false in F. apply F. split; [unfold ident; simpl; by rewrite En|by eexists].
Qed.

Lemma resolve_lowered a : SAgent a ∈ stmts →
  resolve_prompts rs prompts (agent_config (lower_agent pkgName a)) =
    expected_agent pkgName (system_of stmts a) a.
Proof.
  intros I. rewrite agent_config_lowered. unfold resolve_prompts.
  assert (lower_agent pkgName a ∈ rs) as Ia by (apply in_resources; by exists (SAgent a)).
  cbn [AgentConfig_Name AgentConfig_System expected_agent].
  rewrite (foldl_single _ (λ r, ident r = ("Agent", Agent_Name a)) "" (lower_agent pkgName a)).
  - unfold resource_prompts. cbn [lower_agent resource Resource_Kind Resource_Name Resource_Attributes].
    rewrite !String.eqb_refl. simpl andb. cbv iota.
    assert (strs_attr "prompt_refs" (agent_attrs a) = []) as ->.
    { apply (strs_attr_list "prompt_refs" []). unfold agent_attrs. by read_attrs. }
    assert (attr "prompt" (agent_attrs a) = (λ r, VStr (Ref_Name r)) <$> Agent_Prompt a) as ->.
    { unfold agent_attrs. read_attrs. by destruct (Agent_Prompt a). }
    unfold system_of. destruct (Agent_Prompt a) as [r|]; simpl; [|done].
    unfold append_prompt. rewrite prompts_lookup. by destruct (prompt_content stmts (Ref_Name r)).
  - intros y r Np. unfold resource_prompts, ident in *.
    destruct (String.eqb_spec (Resource_Kind r) "Agent"); [|done].
    destruct (String.eqb_spec (Resource_Name r) (Agent_Name a)); [|done]. simpl. congruence.
  - apply (NoDup_fmap_1 ident). done.
  - done.
  - intros r Ir Er. by apply (ident_inj rs).
Qed.

Lemma lowered_agents :
  (λ r, resolve_prompts rs prompts (agent_config r)) <$>
    filter (λ r, Resource_Kind r = "Agent") (omap (lower_resource pkgName) stmts) =
  (λ a, expected_agent pkgName (system_of stmts a) a) <$> agents_of stmts.
Proof.
  assert (∀ l, (∀ s, s ∈ l → s ∈ stmts) →
    (λ r, resolve_prompts rs prompts (agent_config r)) <$>
      filter (λ r, Resource_Kind r = "Agent") (omap (lower_resource pkgName) l) =
    (λ a, expected_agent pkgName (system_of stmts a) a) <$> agents_of l) as A; [|by apply A].
  induction l as [|s l IH]; intros Sub; [done|]. unfold agents_of in *. csimpl.
  specialize (IH ltac:(intros; apply Sub; by right)).
  destruct (lower_resource pkgName s) as [r|] eqn:L.
  - rewrite filter_cons. destruct (decide (Resource_Kind r = "Agent")) as [Ek|Nk].
    + destruct (kind_agent s r L Ek) as (a & -> & ->). csimpl. rewrite IH. f_equal.
      apply resolve_lowered. apply Sub. left.
    + rewrite IH. destruct s; try done. injection L as <-. done.
  - rewrite IH. by destruct s.
Qed.
End lowered.

(** What FromIR makes of a document that is lowered from a file with different
    declarations. *)
Lemma FromIR_lowered LookupEnv fuel f doc : Lower LookupEnv fuel f = Some (Ok doc) →
  NoDup (omap decl_of (File_Statements f)) →
  ∃ pkg, File_Package f = Some pkg ∧
  match FromIR doc with
  | Ok cfg =>
      RuntimeConfig_Agents cfg ≡ₚ
        (λ a, expected_agent (Ast.Package_Name pkg) (system_of (File_Statements f) a) a) <$>
          agents_of (File_Statements f)
  | Err _ => agents_of (File_Statements f) = []
  end.
Proof.
  intros L N. destruct (Lower_resources _ _ _ _ L) as (pkg & P & R). exists pkg. split; [done|].
  set (rs := Document_Resources doc) in *.
  assert (rs ≡ₚ omap (lower_resource (Ast.Package_Name pkg)) (File_Statements f)) as Hrs.
  { rewrite R. apply SortResources_perm. }
  assert (NoDup (ident <$> rs)) as Nid.
  { rewrite Hrs. pose proof (lowered_fqns (Ast.Package_Name pkg) _ N) as Nf.
    assert (Resource_FQN <$> omap (lower_resource (Ast.Package_Name pkg)) (File_Statements f) =
      (λ kn, fqn (Ast.Package_Name pkg) kn.1 kn.2) <$>
        (ident <$> omap (lower_resource (Ast.Package_Name pkg)) (File_Statements f))) as E.
    { rewrite <- list_fmap_compose. apply list_fmap_ext. intros i r Ei.
      apply list_elem_of_lookup_2, list_elem_of_omap in Ei as (s & _ & Ls).
      by destruct (lower_resource_fqn _ _ _ Ls) as (_ & _ & -> & _). }
    rewrite E in Nf. by apply NoDup_fmap_1 in Nf. }
  unfold FromIR. fold rs. set (c0 := mkRuntimeConfig _ [] [] [] ∅ []).
  simpl RuntimeConfig_Agents. rewrite add_resources_agents. simpl app.
  rewrite <- list_fmap_compose.
  assert (RuntimeConfig_Prompts (foldl add_resource c0 rs) =
    RuntimeConfig_Prompts (foldl add_resource (mkRuntimeConfig (Ast.Package_Name pkg) [] [] [] ∅ []) rs)) as ->.
  { apply map_eq. intros n. by rewrite !add_resources_prompts. }
  pose proof (lowered_agents (File_Statements f) (Ast.Package_Name pkg) rs Hrs Nid) as A.
  set (p := RuntimeConfig_Prompts _) in *.
  assert (resolve_prompts rs p ∘ agent_config <$> filter (λ r, Resource_Kind r = "Agent") rs ≡ₚ
    (λ a, expected_agent (Ast.Package_Name pkg) (system_of (File_Statements f) a) a) <$>
      agents_of (File_Statements f)) as E.
  { rewrite <- A. apply fmap_Permutation. by rewrite Hrs. }
  destruct (resolve_prompts rs p ∘ agent_config <$> _) as [|c l] eqn:El; [|exact E].
  apply Permutation_nil in E. by apply fmap_nil_inv in E.
Qed.

(** C10. The agents of the runtime are the agents of the file, each with the
    fields of its declaration or their defaults, its skills, parameters, rules
    and cases, and the content of its prompt; there is a configuration exactly
    when the file declares an agent. The defaults are the strategy react, 10
    turns, streaming, retry on an error, and no retries; the memory and the
    delegates of the declaration are not among the fields, which FromIR leaves
    empty. Declarations of one kind have different names. *)
Theorem runtime_agents_exact LookupEnv fuel f doc
    (L : Lower LookupEnv fuel f = Some (Ok doc)) (N : NoDup (omap decl_of (File_Statements f))) :
  ∃ pkg, File_Package f = Some pkg ∧
  match FromIR doc with
  | Ok cfg =>
      RuntimeConfig_Agents cfg ≡ₚ
        (λ a, expected_agent (Ast.Package_Name pkg) (system_of (File_Statements f) a) a) <$>
          agents_of (File_Statements f)
  | Err _ => agents_of (File_Statements f) = []
  end.
Proof. by eapply FromIR_lowered. Qed.

(** C9. From source to execution: the executor, on what the runtime configuration
    of a lowered file has for an agent of the file, does what the rules say of the
    on-input block of its declaration, and nothing else: it uses skills and
    delegates in order, runs the first branch whose condition holds or the else
    block, and the body of a loop for each item, stops at the first error with
    what was done before, and returns the actions, output, context and world of
    the rules, for every evaluator of expressions and all skills and agents it
    may call. Declarations have different names. *)
Theorem runtime_runs_on_input LookupEnv fuel f doc cfg a
    (L : Lower LookupEnv fuel f = Some (Ok doc)) (N : NoDup (omap decl_of (File_Statements f)))
    (C : FromIR doc = Ok cfg) (A : SAgent a ∈ File_Statements f) :
  ∃ c, c ∈ RuntimeConfig_Agents cfg ∧ AgentConfig_Name c = Agent_Name a ∧
  ∀ W Eval (InvokeSkill : option (string → option (gmap string string) → Dyn → W → result string string * W))
    DelegateToAgent rc w acts out err rc' w',
    ExecuteBlock Eval InvokeSkill DelegateToAgent (AgentConfig_OnInput c) rc w = (acts, out, err, rc', w') ↔
    exec_list Eval InvokeSkill DelegateToAgent (on_input_stmts a) ([], "", rc, w) (acts, out, rc', w') err.
Proof.
  destruct (FromIR_lowered _ _ _ _ L N) as (pkg & P & E). rewrite C in E.
  exists (expected_agent (Ast.Package_Name pkg) (system_of (File_Statements f) a) a). split_and!.
  - rewrite E. apply (list_elem_of_fmap_2 (λ a, expected_agent _ (system_of _ a) a)).
    unfold agents_of. apply list_elem_of_omap. by exists (SAgent a).
  - done.
  - intros W Eval InvokeSkill DelegateToAgent rc w acts out err rc' w'.
    rewrite <- meaning_block_exec. simpl.
    pose proof (on_input_executes Eval InvokeSkill DelegateToAgent (on_input_stmts a) rc w) as X.
    unfold lowerOnInputStmts in X. by rewrite X.
Qed.

(** Memory, delegates, guardrails, budgets, models and client of an agent
    never reach the runtime: agents that differ only in them run with one and
    the same configuration. *)
Lemma runtime_ignores (pkgName : string) (a : Agent) memory delegates guardrails daily monthly models client :
  agent_config (lower_agent pkgName
    (a <| Agent_MemoryCfg := memory |> <| Agent_Delegates := delegates |>
       <| Agent_GuardrailRefs := guardrails |> <| Agent_BudgetDaily := daily |>
       <| Agent_BudgetMonthly := monthly |> <| Agent_Models := models |> <| Agent_Client := client |>)) =
  agent_config (lower_agent pkgName a).
Proof. by rewrite !agent_config_lowered. Qed.
End facts.


(** * A file with a prompt and an agent that answers *)

Definition answering_agent : Agent :=
  zero_Agent <| Agent_Name := "a" |> <| Agent_Model := "m" |>
    <| Agent_Prompt := Some (mkRef "prompt" "x" "" zero_Pos zero_Pos) |>
    <| Agent_OnInput := Some (mkOnInputBlock [RespondStmt "input" zero_Pos zero_Pos] zero_Pos zero_Pos) |>.

Definition answering_file : File :=
  mkFile "f" (Some (zero_Package <| Ast.Package_Name := "p" |>))
    [SPrompt (zero_Prompt <| Prompt_Name := "x" |> <| Prompt_Content := "hi" |>); SAgent answering_agent]
    zero_Pos zero_Pos.

Definition answering_document : Document :=
  match @Lower ascii_runtime (λ _, None) 1 answering_file with
  | Some (Ok doc) => doc
  | _ => mkDocument "" "" (Ir.mkPackage "" "" "") [] [] [] [] [] None
  end.

Definition answering_config : RuntimeConfig :=
  match @FromIR ascii_runtime answering_document with
  | Ok cfg => cfg
  | _ => mkRuntimeConfig "" [] [] [] ∅ []
  end.

Lemma runtime_agents_exact_witness :
  ∃ pkg, File_Package answering_file = Some pkg ∧
  RuntimeConfig_Agents answering_config ≡ₚ
    [@expected_agent ascii_runtime (Ast.Package_Name pkg) "hi" answering_agent].
Proof.
  apply (@runtime_agents_exact ascii_runtime (λ _, None) 1 answering_file answering_document);
    [by vm_compute | by apply (bool_decide_unpack _)].
Defined.

Lemma runtime_runs_on_input_witness :
  ∃ c, c ∈ RuntimeConfig_Agents answering_config ∧ AgentConfig_Name c = "a" ∧
  ∀ W Eval (InvokeSkill : option (string → option (gmap string string) → Dyn → W → result string string * W))
    DelegateToAgent rc w acts out err rc' w',
    @ExecuteBlock ascii_runtime W Eval InvokeSkill DelegateToAgent (AgentConfig_OnInput c) rc w =
      (acts, out, err, rc', w') ↔
    @exec_list ascii_runtime W Eval InvokeSkill DelegateToAgent [RespondStmt "input" zero_Pos zero_Pos]
      ([], "", rc, w) (acts, out, rc', w') err.
Proof.
  apply (@runtime_runs_on_input ascii_runtime (λ _, None) 1 answering_file answering_document
    answering_config answering_agent);
    [by vm_compute | by apply (bool_decide_unpack _) | by vm_compute | right; left].
Defined.
