(* ===== verification/ImportGraph.v ===== *)
(** The graph of imports (internal/imports/graph.go): its construction from
    resolved imports, the detection of cycles with Tarjan's algorithm, the
    topological order of the files and the chain of imports to a file.

    Recursive functions take fuel and return [None] without it; ImportGraphFacts
    proves that as many units as there are files in the graph, and one more, are
    enough. *)
From S2P Require Import Prelude GoStd Ast.
Open Scope Z_scope.

(** ResolvedImport holds the result of resolving a single import statement. *)
Record ResolvedImport := mkResolvedImport {
  ResolvedImport_Source : string;
  ResolvedImport_Kind : string;
  ResolvedImport_Alias : string;
  ResolvedImport_Version : string;
  ResolvedImport_Path : string;
  ResolvedImport_Hash : string;
  ResolvedImport_File : option File;
  ResolvedImport_Resources : list string;
}.

(** GraphNode represents a single file in the dependency graph. *)
Record GraphNode := mkGraphNode {
  GraphNode_Path : string;
  GraphNode_Hash : string;
  GraphNode_Imports : list string;
}.

(** Graph maps file paths to nodes. *)
Abbreviation Graph := (gmap string GraphNode).

Definition NewGraph : Graph := ∅.

(** AddNode adds a file to the dependency graph. *)
Definition AddNode (path hash : string) (imports : list string) (g : Graph) : Graph :=
  <[path := mkGraphNode path hash imports]> g.

(** The path of the first resolved import with a source. *)
Definition resolved_path (resolved : list ResolvedImport) (source : string) : option string :=
  ResolvedImport_Path <$> List.find (λ other, String.eqb (ResolvedImport_Source other) source) resolved.

(** The dependencies of a resolved import: those that its package lists. *)
Definition resolved_deps (resolved : list ResolvedImport) (ri : ResolvedImport) : list string :=
  match ResolvedImport_File ri with
  | Some f =>
      match File_Package f with
      | Some p => omap (λ imp, resolved_path resolved (Import_Path imp)) (Package_Imports p)
      | None => []
      end
  | None => []
  end.

Definition root_imports (resolved : list ResolvedImport) : list string :=
  omap (λ ri, match ResolvedImport_File ri with Some _ => Some (ResolvedImport_Path ri) | None => None end) resolved.

(** AddFromResolved populates the graph from resolved imports. *)
Definition AddFromResolved (rootPath : string) (resolved : list ResolvedImport) (g : Graph) : Graph :=
  foldl (λ g ri, AddNode (ResolvedImport_Path ri) (ResolvedImport_Hash ri) (resolved_deps resolved ri) g)
    (AddNode rootPath "" (root_imports resolved) g) resolved.

(** The imports of a path; a path without a node has none. *)
Definition imports_of (g : Graph) (v : string) : list string :=
  match g !! v with Some node => GraphNode_Imports node | None => [] end.

(** The paths of a graph: its nodes and what they import. *)
Definition paths_of (g : Graph) : gset string :=
  dom g ∪ list_to_set (flat_map (λ kn, GraphNode_Imports kn.2) (map_to_list g)).

(** * Tarjan's algorithm *)

(** The state of the algorithm; the top of the stack comes first. *)
Record tarjan := mkTarjan {
  t_index : Z;
  t_stack : list string;
  t_onStack : gmap string bool;
  t_indices : gmap string Z;
  t_lowlink : gmap string Z;
  t_sccs : list (list string);
}.

Global Instance settable_tarjan : Settable tarjan := λ t,
  mkTarjan (t_index t) (t_stack t) (t_onStack t) (t_indices t) (t_lowlink t) (t_sccs t).

Definition new_tarjan : tarjan := mkTarjan 0 [] ∅ ∅ ∅ [].

Definition indices_at (t : tarjan) (v : string) : Z := default 0 (t_indices t !! v).
Definition lowlink_at (t : tarjan) (v : string) : Z := default 0 (t_lowlink t !! v).
Definition on_stack (t : tarjan) (v : string) : bool := default false (t_onStack t !! v).
Definition is_visited (t : tarjan) (v : string) : bool := bool_decide (is_Some (t_indices t !! v)).

(** The assignments that number a new vertex and push it. *)
Definition enter (v : string) (t : tarjan) : tarjan :=
  mkTarjan (t_index t + 1) (v :: t_stack t) (<[v := true]> (t_onStack t))
    (<[v := t_index t]> (t_indices t)) (<[v := t_index t]> (t_lowlink t)) (t_sccs t).

(** [if n < t.lowlink[v] { t.lowlink[v] = n }] *)
Definition lower_link (v : string) (n : Z) (t : tarjan) : tarjan :=
  if n <? lowlink_at t v then t <| t_lowlink := <[v := n]> (t_lowlink t) |> else t.

(** One import [w] of [v]. *)
Definition visit_import (connect : string → tarjan → option tarjan) (v w : string) (t : tarjan) : option tarjan :=
  if negb (is_visited t w) then
    t ← connect w t;
    Some (lower_link v (lowlink_at t w) t)
  else if on_stack t w then Some (lower_link v (indices_at t w) t)
  else Some t.

(** The loop over the imports of [v]. *)
Fixpoint visit_imports (connect : string → tarjan → option tarjan) (v : string) (ws : list string)
    (t : tarjan) : option tarjan :=
  match ws with
  | [] => Some t
  | w :: ws => t ← visit_import connect v w t; visit_imports connect v ws t
  end.

(** The loop that pops a component up to [v]; an empty stack is an index out
    of range. *)
Fixpoint pop_scc (v : string) (stack : list string) (onStack : gmap string bool) (scc : list string) :
    option (list string * gmap string bool * list string) :=
  match stack with
  | [] => None
  | w :: stack =>
      let onStack := <[w := false]> onStack in
      let scc := scc ++ [w] in
      if String.eqb w v then Some (stack, onStack, scc) else pop_scc v stack onStack scc
  end.

Definition close_scc (v : string) (t : tarjan) : option tarjan :=
  '(stack, onStack, scc) ← pop_scc v (t_stack t) (t_onStack t) [];
  Some (t <| t_stack := stack |> <| t_onStack := onStack |> <| t_sccs := t_sccs t ++ [scc] |>).

Fixpoint strongconnect (n : nat) (g : Graph) (v : string) (t : tarjan) : option tarjan :=
  match n with
  | O => None
  | S n =>
      t ← visit_imports (strongconnect n g) v (imports_of g v) (enter v t);
      if lowlink_at t v =? indices_at t v then close_scc v t else Some t
  end.

(** The loop of DetectCycles over the nodes. *)
Fixpoint connect_all (n : nat) (g : Graph) (paths : list string) (t : tarjan) : option tarjan :=
  match paths with
  | [] => Some t
  | path :: paths =>
      t ← (if is_visited t path then Some t else strongconnect n g path t);
      connect_all n g paths t
  end.

(** The component is a cycle: it has several vertices, or one that imports
    itself. *)
Definition is_cycle (g : Graph) (scc : list string) : bool :=
  match scc with
  | [] => false
  | [v] => existsb (String.eqb v) (imports_of g v)
  | _ => true
  end.

Definition fuel_of (g : Graph) : nat := S (size (paths_of g)).

Section cycles.
Context `{GoRuntime}.

(** DetectCycles detects circular dependencies using Tarjan's SCC algorithm. *)
Definition DetectCycles (g : Graph) : option (list (list string)) :=
  t ← connect_all (fuel_of g) g (map fst (map_range g)) new_tarjan;
  Some (List.filter (is_cycle g) (t_sccs t)).

(** * The topological order *)

(** The state of the depth-first search: the paths being visited, those
    visited, and the result. *)
Record Sorting := mkSorting {
  s_visited : gset string;
  s_visiting : gset string;
  s_sorted : list string;
}.

(** The loop over the imports of a node; the inner result is the error of a
    visit. *)
Fixpoint visit_deps (visit : string → Sorting → option (result string Sorting)) (deps : list string)
    (s : Sorting) : option (result string Sorting) :=
  match deps with
  | [] => Some (Ok s)
  | dep :: deps =>
      r ← visit dep s;
      match r with
      | Ok s => visit_deps visit deps s
      | Err err => Some (Err err)
      end
  end.

Fixpoint visit (n : nat) (g : Graph) (path : string) (s : Sorting) : option (result string Sorting) :=
  if bool_decide (path ∈ s_visited s) then Some (Ok s)
  else if bool_decide (path ∈ s_visiting s) then Some (Err ("cycle detected at " +:+ path))
  else
    match n with
    | O => None
    | S n =>
        r ← visit_deps (visit n g) (imports_of g path)
              (mkSorting (s_visited s) ({[path]} ∪ s_visiting s) (s_sorted s));
        match r with
        | Err err => Some (Err err)
        | Ok s =>
            Some (Ok (mkSorting ({[path]} ∪ s_visited s) (s_visiting s ∖ {[path]}) (s_sorted s ++ [path])))
        end
    end.

(** The %v verb on a list of strings. *)
Definition fmt_strings (l : list string) : string := "[" +:+ Join l " " +:+ "]".

(** TopologicalSort returns nodes in dependency order, dependencies first. *)
Definition TopologicalSort (g : Graph) : option (result string (list string)) :=
  cycles ← DetectCycles g;
  match cycles with
  | cycle :: _ => Some (Err ("circular dependencies detected: " +:+ fmt_strings cycle))
  | [] =>
      r ← visit_deps (visit (fuel_of g) g) (sort_strings (map fst (map_range g))) (mkSorting ∅ ∅ []);
      match r with
      | Ok s => Some (Ok (s_sorted s))
      | Err err => Some (Err err)
      end
  end.
End cycles.

(** * Chains of dependencies *)

(** The loop over the imports of a node: whether one of them leads to the
    target, the visited paths and the chain. *)
Fixpoint try_deps (dfs : string → gset string → list string → option (bool * gset string * list string))
    (deps : list string) (visited : gset string) (chain : list string) :
    option (bool * gset string * list string) :=
  match deps with
  | [] => Some (false, visited, chain)
  | dep :: deps =>
      match dfs dep visited chain with
      | None => None
      | Some (true, visited, chain) => Some (true, visited, chain)
      | Some (false, visited, chain) => try_deps dfs deps visited chain
      end
  end.

Fixpoint dfs (n : nat) (g : Graph) (target current : string) (visited : gset string) (chain : list string) :
    option (bool * gset string * list string) :=
  if bool_decide (current ∈ visited) then Some (false, visited, chain)
  else
    match n with
    | O => None
    | S n =>
        let visited := {[current]} ∪ visited in
        let chain := chain ++ [current] in
        if String.eqb current target then Some (true, visited, chain)
        else
          match try_deps (dfs n g target) (imports_of g current) visited chain with
          | None => None
          | Some (true, visited, chain) => Some (true, visited, chain)
          | Some (false, visited, chain) => Some (false, visited, take (length chain - 1) chain)
          end
    end.

(** DependencyChain returns the chain of dependencies from root to target. *)
Definition DependencyChain (g : Graph) (root target : string) : option (list string) :=
  match dfs (S (fuel_of g)) g target root ∅ [] with
  | None => None
  | Some (_, _, chain) => Some chain
  end.
