(* ===== verification/ImportGraphFacts.v ===== *)
(** Tarjan's algorithm finds the strongly connected components of the graph of
    imports, so that DetectCycles reports the cycles and nothing else.

    The proof keeps an invariant of the state between calls, in which the gray
    vertices are those whose calls have not returned: the stack is sorted by
    index, each of its vertices reaches a gray one below it, each gray vertex
    reaches all above it, and the components closed so far are components of
    the graph that no edge leaves. *)
From S2P Require Import Prelude GoStd Ast Graphs ImportGraph.
From stdpp Require Import relations.
Open Scope Z_scope.

Section tarjan_facts.
Context (g : Graph).

(** * The graph *)

Definition edge (x y : string) : Prop := y ∈ imports_of g x.
Abbreviation reach := (rtc edge).

(** The vertices of one strongly connected component. *)
Definition mutual (x y : string) : Prop := reach x y ∧ reach y x.

Lemma edge_paths x y : edge x y → y ∈ paths_of g.
Proof.
  unfold edge, imports_of, paths_of. destruct (g !! x) as [node|] eqn:E; [|by intros ?%not_elem_of_nil].
  intros I. apply elem_of_union_r, elem_of_list_to_set, list_elem_of_In, in_flat_map.
  exists (x, node). split; [by apply list_elem_of_In, elem_of_map_to_list|by apply list_elem_of_In].
Qed.

Lemma edge_node x y : edge x y → x ∈ dom g.
Proof.
  unfold edge, imports_of. destruct (g !! x) as [node|] eqn:E; [|by intros ?%not_elem_of_nil].
  intros _. apply elem_of_dom. by exists node.
Qed.

Lemma paths_of_spec x : x ∈ paths_of g → x ∈ dom g ∨ ∃ k, edge k x.
Proof.
  unfold paths_of. intros [D|D]%elem_of_union; [by left|]. right.
  apply elem_of_list_to_set, list_elem_of_In, in_flat_map in D as ([k node] & I & Ix).
  apply list_elem_of_In, elem_of_map_to_list in I. apply list_elem_of_In in Ix.
  exists k. unfold edge, imports_of. by rewrite I.
Qed.

(** * The invariant *)

Abbreviation idx := indices_at.
Abbreviation low := lowlink_at.
Definition visited (t : tarjan) (v : string) : Prop := is_Some (t_indices t !! v).
Definition closed (t : tarjan) (v : string) : Prop := v ∈ concat (t_sccs t).

Record Inv (gray : list string) (t : tarjan) : Prop := {
  inv_pos : 0 ≤ t_index t;
  inv_index v : visited t v → 0 ≤ idx t v < t_index t;
  inv_inj v w : visited t v → visited t w → idx t v = idx t w → v = w;
  inv_sorted : StronglySorted (λ x y, idx t y < idx t x) (t_stack t);
  inv_on v : on_stack t v = bool_decide (v ∈ t_stack t);
  inv_part v : visited t v ↔ v ∈ t_stack t ∨ closed t v;
  inv_disj v : v ∈ t_stack t → ¬ closed t v;
  inv_nodup : NoDup (concat (t_sccs t));
  inv_gray v : v ∈ gray → v ∈ t_stack t;
  inv_up x : x ∈ t_stack t → ∃ y, y ∈ gray ∧ idx t y ≤ idx t x ∧ reach x y;
  inv_down x y : x ∈ gray → y ∈ t_stack t → idx t x ≤ idx t y → reach x y;
  inv_black x y : visited t x → x ∉ gray → edge x y → visited t y;
  inv_scc c x y : c ∈ t_sccs t → x ∈ c → (y ∈ c ↔ mutual x y);
  inv_closed x y : closed t x → edge x y → closed t y;
  inv_nonempty c : c ∈ t_sccs t → c ≠ [];
}.

(** What a call keeps of the state, and the indices it gives. *)
Definition extends (t t' : tarjan) : Prop :=
  (∀ v, visited t v → visited t' v ∧ idx t' v = idx t v ∧ low t' v = low t v) ∧
  (∀ v, ¬ visited t v → visited t' v → t_index t ≤ idx t' v) ∧
  t_index t ≤ t_index t'.

Lemma extends_visited t t' v : extends t t' → visited t v → visited t' v.
Proof. intros (E & _) V. by apply E. Qed.

Lemma extends_idx t t' v : extends t t' → visited t v → idx t' v = idx t v.
Proof. intros (E & _) V. by apply E. Qed.

Lemma extends_low t t' v : extends t t' → visited t v → low t' v = low t v.
Proof. intros (E & _) V. by apply E. Qed.

Lemma visited_dec t v : visited t v ∨ ¬ visited t v.
Proof. destruct (decide (is_Some (t_indices t !! v))); [by left|by right]. Qed.

Lemma extends_trans t1 t2 t3 : extends t1 t2 → extends t2 t3 → extends t1 t3.
Proof.
  intros (E1 & N1 & P1) (E2 & N2 & P2). split_and!; [|..|lia].
  - intros v V. destruct (E1 v V) as (V2 & I2 & L2), (E2 v V2) as (V3 & I3 & L3). split_and!; congruence.
  - intros v Nv V3. destruct (visited_dec t2 v) as [V2|N]; [|specialize (N2 v N V3); lia].
    destruct (E2 v V2) as (_ & -> & _). auto.
Qed.

Lemma sorted_unique (t : tarjan) x y l1 l2 :
  StronglySorted (λ x y, idx t y < idx t x) (l1 ++ x :: l2) → y ∈ l1 → idx t x < idx t y.
Proof.
  intros S I. induction l1 as [|z l1 IH]; [by apply not_elem_of_nil in I|]. simpl in S.
  apply StronglySorted_inv in S as [S F]. apply elem_of_cons in I as [-> | I]; [|by apply IH].
  rewrite Forall_forall in F. apply F. set_solver.
Qed.

Lemma sorted_NoDup (t : tarjan) l : StronglySorted (λ x y, idx t y < idx t x) l → NoDup l.
Proof.
  induction 1 as [|x l S IH F]; constructor; [|done]. intros I. rewrite Forall_forall in F.
  specialize (F x I). lia.
Qed.

(** The result of a call on [v]: its tree is on top of the stack, [L], and no
    edge of it goes below its low link, or it has been closed. *)
Definition Post (gray : list string) (v : string) (t t' : tarjan) : Prop :=
  Inv gray t' ∧ extends t t' ∧ visited t' v ∧ low t' v ≤ idx t' v ∧
  ∃ L, t_stack t' = L ++ t_stack t ∧ (∀ x, x ∈ L → ¬ visited t x) ∧
    (∀ x w, x ∈ L → edge x w → w ∈ t_stack t' → low t' v ≤ idx t' w) ∧
    ((v ∈ L ∧ ∃ y, y ∈ t_stack t ∧ idx t' y = low t' v ∧ reach v y) ∨ (L = [] ∧ low t' v = idx t' v)).

(** The state of the loop over the imports of [v], entered in [t0]. *)
Definition Loop (gray : list string) (v : string) (t0 : tarjan) (done : list string) (t : tarjan) : Prop :=
  Inv (v :: gray) t ∧ extends t0 t ∧ low t v ≤ idx t v ∧ ¬ visited t0 v ∧
  (∀ w, w ∈ done → visited t w ∧ (w ∈ t_stack t → low t v ≤ idx t w)) ∧
  (∃ y, y ∈ v :: t_stack t0 ∧ idx t y = low t v ∧ reach v y) ∧
  ∃ L, t_stack t = L ++ v :: t_stack t0 ∧ (∀ x, x ∈ L → ¬ visited t0 x) ∧
    (∀ x w, x ∈ L → edge x w → w ∈ t_stack t → low t v ≤ idx t w).

(** * Entering *)

Lemma idx_enter v t w : idx (enter v t) w = if decide (v = w) then t_index t else idx t w.
Proof. unfold indices_at. simpl. destruct (decide (v = w)) as [->|N]; [by rewrite lookup_insert_eq|by rewrite lookup_insert_ne]. Qed.

Lemma low_enter v t w : low (enter v t) w = if decide (v = w) then t_index t else low t w.
Proof. unfold lowlink_at. simpl. destruct (decide (v = w)) as [->|N]; [by rewrite lookup_insert_eq|by rewrite lookup_insert_ne]. Qed.

Lemma on_enter v t w : on_stack (enter v t) w = if decide (v = w) then true else on_stack t w.
Proof. unfold on_stack. simpl. destruct (decide (v = w)) as [->|N]; [by rewrite lookup_insert_eq|by rewrite lookup_insert_ne]. Qed.

Lemma visited_enter v t w : visited (enter v t) w ↔ v = w ∨ visited t w.
Proof. unfold visited. simpl. apply lookup_insert_is_Some'. Qed.

Lemma stack_visited gray t v : Inv gray t → v ∈ t_stack t → visited t v.
Proof. intros I S. apply (inv_part _ _ I). by left. Qed.

Lemma sorted_ext (l : list string) (f f' : string → Z) :
  (∀ x, x ∈ l → f' x = f x) →
  StronglySorted (λ x y, f y < f x) l → StronglySorted (λ x y, f' y < f' x) l.
Proof.
  intros E. induction 1 as [|x l S IH F]; constructor.
  - apply IH. intros y Iy. apply E. by right.
  - rewrite Forall_forall in F |- *. intros y Iy. rewrite (E x), (E y); [by apply F|by right|by left].
Qed.

Lemma enter_Inv gray v t : Inv gray t → ¬ visited t v → (∀ x, x ∈ gray → reach x v) →
  Inv (v :: gray) (enter v t).
Proof.
  intros I Nv R.
  assert (∀ w, visited t w → idx (enter v t) w = idx t w) as Ix.
  { intros w V. rewrite idx_enter, decide_False; [done|congruence]. }
  assert (idx (enter v t) v = t_index t) as Iv by (by rewrite idx_enter, decide_True).
  assert (∀ w, w ∈ t_stack t → visited t w) as Sv by (intros w; by apply (stack_visited gray)).
  assert (∀ w, w ∈ gray → visited t w) as Gv by (intros w ?; by apply Sv, (inv_gray _ _ I)).
  assert (∀ w, visited t w → 0 ≤ idx t w < t_index t) as B by apply (inv_index _ _ I).
  pose proof (inv_pos _ _ I) as P.
  split; simpl; try apply I.
  - lia.
  - intros w [<- | V]%visited_enter; [lia|]. rewrite Ix by done. specialize (B w V). lia.
  - intros w1 w2 [<- | V1]%visited_enter [<- | V2]%visited_enter; rewrite ?Iv, ?Ix by done; intros E;
      [done|specialize (B w2 V2); lia|specialize (B w1 V1); lia|by apply (inv_inj _ _ I)].
  - constructor.
    + eapply sorted_ext; [|apply (inv_sorted _ _ I)]. intros x Sx. by apply Ix, Sv.
    + apply Forall_forall. intros x Sx. rewrite Iv, Ix by auto. apply B. auto.
  - intros w. rewrite on_enter, (inv_on _ _ I). destruct (decide (v = w)) as [->|N].
    + symmetry. apply bool_decide_eq_true. by left.
    + apply bool_decide_ext. rewrite elem_of_cons. naive_solver.
  - intros w. rewrite visited_enter, elem_of_cons, (inv_part _ _ I). unfold closed. simpl. naive_solver.
  - intros w [-> | Sw]%elem_of_cons; [|by apply (inv_disj _ _ I)].
    intros C. apply Nv, (inv_part _ _ I). by right.
  - intros w [-> | Gw]%elem_of_cons; [by left|]. right. by apply (inv_gray _ _ I).
  - intros x [-> | Sx]%elem_of_cons; [exists v; split_and!; [by left|done|done]|].
    destruct (inv_up _ _ I x Sx) as (y & Gy & Le & Rxy). exists y. rewrite !Ix by auto.
    split_and!; [by right|done|done].
  - intros x y [-> | Gx]%elem_of_cons [-> | Sy]%elem_of_cons; rewrite ?Iv, ?Ix by auto; intros L;
      [done|specialize (B y (Sv y Sy)); lia|by apply R|by apply (inv_down _ _ I)].
  - intros x y [<- | V]%visited_enter Ng E; [by destruct Ng; left|].
    apply visited_enter. right. apply (inv_black _ _ I x y); [done| |done]. intros G. by destruct Ng; right.
Qed.

Lemma enter_Loop gray v t : Inv gray t → ¬ visited t v → (∀ x, x ∈ gray → reach x v) →
  Loop gray v t [] (enter v t).
Proof.
  intros I Nv R.
  assert (idx (enter v t) v = t_index t) as Iv by (by rewrite idx_enter, decide_True).
  assert (low (enter v t) v = t_index t) as Lv by (by rewrite low_enter, decide_True).
  split_and!; try done.
  - by apply enter_Inv.
  - split_and!; [|..|simpl; lia].
    + intros w V. assert (v ≠ w) by congruence. rewrite idx_enter, low_enter, !decide_False by done.
      split_and!; [apply visited_enter; by right|done|done].
    + intros w Nw [<- | V]%visited_enter; [lia|done].
  - rewrite Iv, Lv. lia.
  - intros w []%not_elem_of_nil.
  - exists v. rewrite Iv, Lv. split_and!; [by left|done|done].
  - exists []. split_and!; [done|by intros x ?%not_elem_of_nil|by intros x w ?%not_elem_of_nil].
Qed.

(** * One import *)

Lemma Inv_lower gray v n t : Inv gray t → Inv gray (lower_link v n t).
Proof. unfold lower_link. destruct (n <? low t v); [|done]. intros I. split; apply I. Qed.

Lemma low_lower v n t w : low (lower_link v n t) w = if decide (v = w) then Z.min (low t v) n else low t w.
Proof.
  unfold lower_link. destruct (Z.ltb_spec n (low t v)) as [L|L].
  - unfold lowlink_at at 1. simpl. destruct (decide (v = w)) as [->|N].
    + rewrite lookup_insert_eq. simpl. lia.
    + by rewrite lookup_insert_ne.
  - destruct (decide (v = w)) as [->|]; [lia|done].
Qed.

Lemma lower_same v n t : t_indices (lower_link v n t) = t_indices t ∧ t_stack (lower_link v n t) = t_stack t ∧
  t_index (lower_link v n t) = t_index t.
Proof. unfold lower_link. by destruct (n <? low t v). Qed.

Lemma idx_lower v n t w : idx (lower_link v n t) w = idx t w.
Proof. unfold indices_at. by destruct (lower_same v n t) as [-> _]. Qed.

Lemma visited_lower v n t w : visited (lower_link v n t) w ↔ visited t w.
Proof. unfold visited. by destruct (lower_same v n t) as [-> _]. Qed.

Lemma stack_lower v n t : t_stack (lower_link v n t) = t_stack t.
Proof. apply lower_same. Qed.

Section call.
Context (gray : list string) (v : string) (t0 : tarjan).
Context (I0 : Inv gray t0) (Nv : ¬ visited t0 v) (Rv : ∀ x, x ∈ gray → reach x v).

Lemma extends_lower n t : extends t0 t → extends t0 (lower_link v n t).
Proof.
  intros (E & N & P). split_and!.
  - intros w V. rewrite visited_lower, idx_lower, low_lower, decide_False; [by apply E|congruence].
  - intros w Nw. rewrite visited_lower, idx_lower. by apply N.
  - by destruct (lower_same v n t) as (_ & _ & ->).
Qed.

(** The vertices above [v] on the stack. *)
Lemma above_v done t L x : Loop gray v t0 done t → t_stack t = L ++ v :: t_stack t0 → x ∈ L →
  idx t v < idx t x ∧ visited t x ∧ x ∉ v :: gray.
Proof.
  intros (I & E & _) S Lx. pose proof (inv_sorted _ _ I) as So. rewrite S in So.
  pose proof (sorted_unique t v x L (t_stack t0) So Lx) as Lt. split_and!; [done|..].
  - apply (stack_visited (v :: gray)); [done|]. rewrite S. apply elem_of_app. by left.
  - apply sorted_NoDup, NoDup_app in So as (_ & D & _). specialize (D x Lx).
    intros [-> | G]%elem_of_cons; [lia|]. apply D. right. by apply (inv_gray _ _ I0).
Qed.

(** What is no deeper than the low link of [v] lies below it. *)
Lemma below_v done t y n : Loop gray v t0 done t → y ∈ t_stack t → idx t y = n → n < low t v →
  y ∈ v :: t_stack t0.
Proof.
  intros Lp Sy Ey Lt. pose proof Lp as (I & E & Lv & _ & _ & _ & L & S & _). rewrite S in Sy.
  apply elem_of_app in Sy as [Ly|Sy]; [|done].
  destruct (above_v done t L y Lp S Ly) as (A & _). lia.
Qed.

Lemma Loop_lower_stack done t w : Loop gray v t0 done t → edge v w → w ∈ t_stack t →
  Loop gray v t0 (done ++ [w]) (lower_link v (idx t w) t).
Proof.
  intros Lp Ew Sw. pose proof Lp as (I & E & Lv & _ & D & (y & Sy & Ey & Ry) & L & S & Nl & El).
  unfold Loop. rewrite stack_lower. split_and!.
  - by apply Inv_lower.
  - by apply extends_lower.
  - rewrite low_lower, decide_True, idx_lower by done. lia.
  - done.
  - intros x Dx. rewrite visited_lower, low_lower, decide_True, idx_lower by done.
    apply elem_of_app in Dx as [Dx| ->%list_elem_of_singleton].
    + destruct (D x Dx) as [V B]. split; [done|]. intros Sx. specialize (B Sx). lia.
    + split; [by apply (stack_visited (v :: gray))|lia].
  - destruct (Z.ltb_spec (idx t w) (low t v)) as [Lt|Ge].
    + exists w. rewrite low_lower, decide_True, idx_lower by done.
      split_and!; [by apply (below_v done t w (idx t w))|lia|by apply rtc_once].
    + exists y. rewrite low_lower, decide_True, idx_lower by done. split_and!; [done|lia|done].
  - exists L. split_and!; [done|done|]. intros x z Lx Ex Sz.
    rewrite low_lower, decide_True, idx_lower by done. specialize (El x z Lx Ex Sz). lia.
Qed.

Lemma Loop_skip done t w : Loop gray v t0 done t → visited t w → w ∉ t_stack t →
  Loop gray v t0 (done ++ [w]) t.
Proof.
  intros (I & E & Lv & N & D & Y & L) Vw Nw. unfold Loop. split_and!; try done.
  intros x [Dx| ->%list_elem_of_singleton]%elem_of_app; [by apply D|]. by split.
Qed.

Lemma Loop_called done t t1 w : Loop gray v t0 done t → edge v w → ¬ visited t w →
  Post (v :: gray) w t t1 → Loop gray v t0 (done ++ [w]) (lower_link v (low t1 w) t1).
Proof.
  intros Lp Ew Nw (I1 & E1 & V1 & B1 & L1 & S1 & N1 & El1 & C1).
  pose proof Lp as (I & E & Lv & _ & D & (y & Sy & Ey & Ry) & L & S & Nl & El).
  assert (visited t v) as Vv.
  { apply (stack_visited (v :: gray)); [done|]. apply (inv_gray _ _ I). by left. }
  assert (∀ x, x ∈ t_stack t → visited t x) as Vs by (intros x; by apply (stack_visited (v :: gray))).
  assert (∀ x, visited t x → x ∈ t_stack t1 → x ∈ t_stack t) as Old.
  { intros x Vx. rewrite S1, elem_of_app. intros [Lx|]; [by apply N1 in Lx|done]. }
  pose proof (extends_low _ _ v E1 Vv) as Lv1. pose proof (extends_idx _ _ v E1 Vv) as Iv1.
  unfold Loop. rewrite stack_lower. split_and!.
  - by apply Inv_lower.
  - apply extends_lower. by eapply extends_trans.
  - rewrite low_lower, decide_True, idx_lower by done. lia.
  - done.
  - intros x Dx. rewrite visited_lower, low_lower, decide_True, idx_lower by done.
    apply elem_of_app in Dx as [Dx| ->%list_elem_of_singleton]; [|split; [done|lia]].
    destruct (D x Dx) as [V B]. split; [by eapply extends_visited|]. intros Sx.
    specialize (B (Old x V Sx)). rewrite (extends_idx _ _ x E1 V). lia.
  - destruct (Z.ltb_spec (low t1 w) (low t v)) as [Lt|Ge].
    + destruct C1 as [(_ & z & Sz & Ez & Rz)|(_ & Eq)].
      * exists z. rewrite low_lower, decide_True, idx_lower by done.
        rewrite (extends_idx _ _ z E1) in Ez |- * by auto. split_and!.
        -- by apply (below_v done t z (low t1 w)).
        -- lia.
        -- by eapply rtc_l.
      * destruct E1 as (_ & Nx & _). specialize (Nx w Nw V1).
        pose proof (inv_index _ _ I v Vv). lia.
    + exists y. rewrite low_lower, decide_True, idx_lower by done.
      assert (y ∈ t_stack t) by (rewrite S; apply elem_of_app; by right).
      rewrite (extends_idx _ _ y E1) by auto. split_and!; [done|lia|done].
  - exists (L1 ++ L). split_and!.
    + by rewrite S1, S, <- app_assoc.
    + intros x [Lx|Lx]%elem_of_app; [|by apply Nl]. intros V. apply (N1 x Lx). by eapply extends_visited.
    + intros x z Lx Ex Sz. rewrite low_lower, decide_True, idx_lower by done.
      apply elem_of_app in Lx as [Lx|Lx]; [specialize (El1 x z Lx Ex Sz); lia|].
      destruct (above_v done t L x Lp S Lx) as (_ & Vx & Gx).
      pose proof (inv_black _ _ I x z Vx Gx Ex) as Vz.
      specialize (El x z Lx Ex (Old z Vz Sz)). rewrite (extends_idx _ _ z E1 Vz). lia.
Qed.

(** * Returning *)

Section return_.
Context (t : tarjan) (Lp : Loop gray v t0 (imports_of g v) t).

Lemma succ_visited x y : visited t x → x ∉ gray → edge x y → visited t y.
Proof.
  destruct Lp as (I & _ & _ & _ & D & _). intros V Ng E. destruct (decide (x = v)) as [->|N].
  - by apply D.
  - apply (inv_black _ _ I x y V); [|done]. by intros [?|?]%elem_of_cons.
Qed.

(** [v] stays on the stack: it reaches a vertex below it. *)
Lemma return_open : low t v < idx t v → Post gray v t0 t.
Proof.
  intros Lt. pose proof Lp as (I & E & Lv & _ & D & (y & Sy & Ey & Ry) & L & S & Nl & El).
  assert (y ∈ t_stack t0) as Sy0 by (apply elem_of_cons in Sy as [-> | ]; [lia|done]).
  assert (t_stack t = (L ++ [v]) ++ t_stack t0) as S' by (by rewrite <- app_assoc).
  assert (y ∈ t_stack t) as Syt by (rewrite S'; apply elem_of_app; by right).
  assert (∃ z, z ∈ gray ∧ idx t z < idx t v ∧ idx t z ≤ idx t y ∧ reach y z) as (z & Gz & Bz & Bzy & Rz).
  { destruct (inv_up _ _ I y Syt) as (z & [-> | Gz]%elem_of_cons & B & R); [lia|].
    exists z. split_and!; [done|lia|lia|done]. }
  unfold Post. split_and!; try done.
  - split; try apply I.
    + intros x Gx. apply (inv_gray _ _ I). by right.
    + intros x Sx. destruct (inv_up _ _ I x Sx) as (u & [-> | Gu]%elem_of_cons & B & R); [|by exists u].
      exists z. split_and!; [done|lia|]. by do 2 (etrans; [done|]).
    + intros x u Gx. apply (inv_down _ _ I). by right.
    + apply succ_visited.
  - apply (stack_visited (v :: gray)); [done|]. apply (inv_gray _ _ I). by left.
  - exists (L ++ [v]). split_and!; [done|..].
    + intros x [Lx| ->%list_elem_of_singleton]%elem_of_app; [by apply Nl|done].
    + intros x w [Lx| ->%list_elem_of_singleton]%elem_of_app Ex Sw; [by apply (El x)|by apply D].
    + left. split; [apply elem_of_app; right; by left|]. by exists y.
Qed.

Lemma pop_scc_spec L s0 on scc : v ∉ L → ∃ on',
  pop_scc v (L ++ v :: s0) on scc = Some (s0, on', scc ++ L ++ [v]) ∧
  ∀ x, on' !! x = if decide (x ∈ L ++ [v]) then Some false else on !! x.
Proof.
  revert on scc. induction L as [|w L IH]; intros on scc N; simpl.
  - rewrite String.eqb_refl. eexists. split; [done|]. intros x.
    destruct (decide (x ∈ [v])) as [->%list_elem_of_singleton|Nx]; [by rewrite lookup_insert_eq|].
    rewrite lookup_insert_ne; [done|]. intros ->. apply Nx. by left.
  - apply not_elem_of_cons in N as [Nw N]. destruct (String.eqb_spec w v) as [->|_]; [done|].
    destruct (IH (<[w := false]> on) (scc ++ [w]) N) as (on' & -> & Eon). exists on'.
    split; [by rewrite <- app_assoc|]. intros x. rewrite Eon.
    destruct (decide (x ∈ L ++ [v])) as [Ix|Nx].
    + rewrite decide_True; [done|by right].
    + destruct (decide (x = w)) as [->|Nxw].
      * rewrite lookup_insert_eq, decide_True; [done|by left].
      * rewrite lookup_insert_ne by done. rewrite decide_False; [done|]. by intros [?|?]%elem_of_cons.
Qed.

(** [v] and what is above it are a component. *)
Section component.
Context (L : list string) (S : t_stack t = L ++ v :: t_stack t0) (Eq : low t v = idx t v).
Abbreviation C := (L ++ [v]).

Lemma comp_stack x : x ∈ C → x ∈ t_stack t.
Proof. rewrite S. set_solver. Qed.

Lemma comp_NoDup : NoDup (C ++ t_stack t0).
Proof.
  destruct Lp as (I & _). pose proof (inv_sorted _ _ I) as So. rewrite S in So.
  apply sorted_NoDup in So. by rewrite <- app_assoc.
Qed.

Lemma comp_above x : x ∈ C → idx t v ≤ idx t x.
Proof.
  intros [Lx| ->%list_elem_of_singleton]%elem_of_app; [|done].
  pose proof (above_v _ t L x Lp S Lx) as (A & _). lia.
Qed.

Lemma below_comp x : x ∈ t_stack t0 → idx t x < idx t v.
Proof.
  destruct Lp as (I & _). intros Sx. apply list_elem_of_split in Sx as (l1 & l2 & E).
  apply (sorted_unique t x v (L ++ v :: l1) l2); [|set_solver].
  rewrite <- app_assoc. simpl. rewrite <- E, <- S. apply (inv_sorted _ _ I).
Qed.

Lemma comp_visited x : x ∈ C → visited t x ∧ (x = v ∨ x ∉ v :: gray).
Proof.
  intros Cx. destruct Lp as (I & _). split; [by apply (stack_visited (v :: gray)), comp_stack|].
  apply elem_of_app in Cx as [Lx| ->%list_elem_of_singleton]; [|by left].
  right. by apply (above_v _ t L x Lp S Lx).
Qed.

Lemma comp_edge x y : x ∈ C → edge x y → y ∈ C ∨ closed t y.
Proof.
  intros Cx E. pose proof Lp as (I & Ex & _ & _ & D & _ & L' & S' & _ & El).
  assert (L' = L) as ->.
  { rewrite S in S'. by apply app_inv_tail in S'. }
  assert (visited t y) as Vy.
  { destruct (comp_visited x Cx) as [V [-> | N]]; [by apply D|]. by apply (inv_black _ _ I x). }
  apply (inv_part _ _ I) in Vy as [Sy|]; [|by right]. left.
  rewrite S in Sy. apply elem_of_app in Sy as [Ly|[-> | Sy]%elem_of_cons]; [set_solver|set_solver|].
  exfalso. pose proof (below_comp y Sy) as B. assert (y ∈ t_stack t) as Syt by (rewrite S; set_solver).
  apply elem_of_app in Cx as [Lx| ->%list_elem_of_singleton].
  - specialize (El x y Lx E Syt). lia.
  - destruct (D y E) as [_ B']. specialize (B' Syt). lia.
Qed.

Lemma closed_reach x y : closed t x → reach x y → closed t y.
Proof. destruct Lp as (I & _). intros Cx. induction 1 as [|x z y E _ IH]; [done|]. by apply IH, (inv_closed _ _ I x). Qed.

Lemma comp_reach x y : x ∈ C → reach x y → y ∈ C ∨ closed t y.
Proof.
  intros Cx R. induction R as [|x z y E R IH]; [by left|].
  destruct (comp_edge x z Cx E) as [Cz|Cz]; [by apply IH|]. right. by eapply closed_reach.
Qed.

Lemma comp_root x : x ∈ C → reach x v ∧ reach v x.
Proof.
  intros Cx. destruct Lp as (I & _). split.
  - destruct (inv_up _ _ I x (comp_stack x Cx)) as (y & [-> | Gy]%elem_of_cons & _ & R); [done|].
    exfalso. pose proof (inv_gray _ _ I0 y Gy) as Sy.
    destruct (comp_reach x y Cx R) as [Cy|Cy].
    + pose proof comp_NoDup as N. apply NoDup_app in N as (_ & N & _). by apply (N y).
    + apply (inv_disj _ _ I y); [rewrite S; set_solver|done].
  - apply (inv_down _ _ I); [by left|by apply comp_stack|by apply comp_above].
Qed.

Lemma comp_mutual x y : x ∈ C → (y ∈ C ↔ mutual x y).
Proof.
  intros Cx. destruct Lp as (I & _). pose proof (comp_root x Cx) as [Rx Rx']. split.
  - intros Cy. pose proof (comp_root y Cy) as [Ry Ry']. split; by etrans.
  - intros [R R']. destruct (comp_reach x y Cx R) as [|Cy]; [done|].
    destruct (inv_disj _ _ I x (comp_stack x Cx)). by apply (closed_reach y).
Qed.

Lemma return_closed : ∃ t', close_scc v t = Some t' ∧ Post gray v t0 t'.
Proof.
  pose proof Lp as (I & E & _ & _ & D & _ & L' & S' & Nl & El). assert (L' = L) as ->.
  { rewrite S in S'. by apply app_inv_tail in S'. }
  pose proof comp_NoDup as Nd. pose proof Nd as (Nc & Dj & N0)%NoDup_app.
  destruct (pop_scc_spec L (t_stack t0) (t_onStack t) []) as (on' & Ep & Eon).
  { apply NoDup_app in Nc as (_ & N & _). intros Lv. by apply (N v Lv); left. }
  unfold close_scc. rewrite S, Ep. simpl. eexists. split; [done|]. simpl.
  assert (∀ x, closed t x → x ∉ C) as Dc.
  { intros x Cl Cx. by apply (inv_disj _ _ I x (comp_stack x Cx)). }
  set (t' := t <| t_stack := t_stack t0 |> <| t_onStack := on' |> <| t_sccs := t_sccs t ++ [C] |>).
  assert (∀ x, closed t' x ↔ closed t x ∨ x ∈ C) as Cl.
  { intros x. unfold closed, t'. simpl. rewrite concat_app, elem_of_app. simpl. by rewrite app_nil_r. }
  assert (∀ x, visited t x ↔ x ∈ t_stack t0 ∨ closed t' x) as Vp.
  { intros x. rewrite Cl, (inv_part _ _ I), S. set_solver. }
  unfold Post. split_and!.
  - split; try apply I.
    + pose proof (inv_sorted _ _ I) as So. rewrite S in So. change (L ++ v :: t_stack t0) with (L ++ [v] ++ t_stack t0) in So.
      rewrite app_assoc in So. by apply StronglySorted_app in So as (_ & _ & So).
    + intros x. unfold on_stack, t'. simpl. rewrite Eon. pose proof (inv_on _ _ I x) as On.
      destruct (decide (x ∈ C)) as [Cx|Ncx].
      * symmetry. apply bool_decide_eq_false. by apply Dj.
      * unfold on_stack in On. rewrite On, S. apply bool_decide_ext. set_solver.
    + exact Vp.
    + intros x Sx [Cx|Cx]%Cl; [|by apply (Dj x)]. apply (inv_disj _ _ I x); [rewrite S; set_solver|done].
    + unfold t'. simpl. rewrite concat_app. simpl. rewrite app_nil_r. apply NoDup_app.
      split_and!; [apply I|by apply Dc|done].
    + intros x. apply (inv_gray _ _ I0).
    + intros x Sx. assert (x ∈ t_stack t) as Sxt by (rewrite S; set_solver).
      destruct (inv_up _ _ I x Sxt) as (y & [-> | Gy]%elem_of_cons & B & R); [|by exists y].
      pose proof (below_comp x Sx). unfold indices_at in *. lia.
    + intros x y Gx Sy. apply (inv_down _ _ I); [by right|rewrite S; set_solver].
    + apply succ_visited.
    + intros c x y [Ic| ->%list_elem_of_singleton]%elem_of_app Cx; [by apply (inv_scc _ _ I c)|by apply comp_mutual].
    + intros x y [Cx|Cx]%Cl Ex; apply Cl; [left; by apply (inv_closed _ _ I x)|].
      destruct (comp_edge x y Cx Ex); [by right|by left].
    + intros c [Ic| ->%list_elem_of_singleton]%elem_of_app; [by apply (inv_nonempty _ _ I)|by destruct L].
  - exact E.
  - change (visited t v). apply (stack_visited (v :: gray)); [done|]. apply (inv_gray _ _ I). by left.
  - change (low t v ≤ idx t v). lia.
  - exists []. split_and!; [done|by intros x ?%not_elem_of_nil|by intros x w ?%not_elem_of_nil|by right].
Qed.
End component.
End return_.
End call.

(** * Calls *)

(** The paths without an index; there are fewer after each call. *)
Definition unvisited (t : tarjan) : gset string := paths_of g ∖ dom (t_indices t).

Lemma unvisited_keeps t t' : (∀ x, visited t x → visited t' x) → (size (unvisited t') ≤ size (unvisited t))%nat.
Proof.
  intros K. apply subseteq_size. intros x. unfold unvisited. rewrite !elem_of_difference, !elem_of_dom.
  intros [P N]. split; [done|]. intros V. by apply N, K.
Qed.

Lemma unvisited_enter v t : v ∈ paths_of g → ¬ visited t v → (size (unvisited (enter v t)) < size (unvisited t))%nat.
Proof.
  intros P N. apply subset_size, strict_spec_alt. unfold unvisited. simpl. rewrite dom_insert_L.
  split; [set_solver|]. intros E.
  assert (v ∈ paths_of g ∖ dom (t_indices t)) as I by (apply elem_of_difference; by rewrite elem_of_dom).
  rewrite <- E in I. set_solver.
Qed.

Definition connects (connect : string → tarjan → option tarjan) (n : nat) : Prop :=
  ∀ gray v t, Inv gray t → v ∈ paths_of g → ¬ visited t v → (∀ x, x ∈ gray → reach x v) →
    (size (unvisited t) < n)%nat → ∃ t', connect v t = Some t' ∧ Post gray v t t'.

Lemma visit_import_Loop connect n gray v t0 done t w : connects connect n → Inv gray t0 →
  (∀ x, x ∈ gray → reach x v) → Loop gray v t0 done t → edge v w → (size (unvisited t) < n)%nat →
  ∃ t', visit_import connect v w t = Some t' ∧ Loop gray v t0 (done ++ [w]) t' ∧
    ∀ x, visited t x → visited t' x.
Proof.
  intros Cn I0 Rv Lp E Sz. pose proof Lp as (I & _ & _ & Nv & _). unfold visit_import, is_visited.
  destruct (bool_decide_reflect (is_Some (t_indices t !! w))) as [V|N]; simpl.
  - rewrite (inv_on _ _ I). destruct (bool_decide_reflect (w ∈ t_stack t)) as [Sw|Nw]; eexists.
    + split_and!; [done|by apply Loop_lower_stack|]. intros x. by rewrite visited_lower.
    + split_and!; [done|by apply Loop_skip|done].
  - destruct (Cn (v :: gray) w t) as (t1 & -> & P); try done.
    { by apply (edge_paths v). }
    { intros x [-> | G]%elem_of_cons; [by apply rtc_once|]. eapply rtc_r; [by apply Rv|done]. }
    eexists. split_and!; [done|by apply (Loop_called gray v t0 I0 Nv done t)|].
    intros x V. apply visited_lower. destruct P as (_ & X & _). by apply (extends_visited t).
Qed.

Lemma visit_imports_Loop connect n gray v t0 todo : connects connect n → Inv gray t0 →
  (∀ x, x ∈ gray → reach x v) → (∀ w, w ∈ todo → edge v w) →
  ∀ done t, Loop gray v t0 done t → (size (unvisited t) < n)%nat →
  ∃ t', visit_imports connect v todo t = Some t' ∧ Loop gray v t0 (done ++ todo) t'.
Proof.
  intros Cn I0 Rv. induction todo as [|w todo IH]; intros E done t Lp Sz; simpl.
  - rewrite app_nil_r. by exists t.
  - destruct (visit_import_Loop connect n gray v t0 done t w) as (t1 & -> & L1 & K); try done.
    { apply E. by left. }
    simpl. destruct (IH ltac:(intros; apply E; by right) (done ++ [w]) t1 L1) as (t2 & -> & L2).
    + pose proof (unvisited_keeps t t1 K). lia.
    + exists t2. by rewrite <- app_assoc in L2.
Qed.

Lemma strongconnect_connects n : connects (strongconnect n g) n.
Proof.
  induction n as [|n IH]; intros gray v t I Pv Nv Rv Sz; [lia|]. cbn [strongconnect].
  pose proof (unvisited_enter v t Pv Nv) as Sz'.
  destruct (visit_imports_Loop (strongconnect n g) n gray v t (imports_of g v) IH I Rv
    ltac:(done) [] (enter v t)) as (t1 & -> & Lp).
  { by apply enter_Loop. }
  { lia. }
  simpl. simpl in Lp. pose proof Lp as (_ & _ & Le & _ & _ & _ & L & S & _).
  destruct (Z.eqb_spec (low t1 v) (idx t1 v)) as [Eq|Ne].
  - by apply (return_closed gray v t I Nv Rv t1 Lp L).
  - exists t1. split; [done|]. apply return_open; [done..|lia].
Qed.

(** * All nodes *)

Lemma new_Inv : Inv [] new_tarjan.
Proof.
  assert (∀ v, ¬ visited new_tarjan v) as N by (intros v [? [=]]).
  split; try done; try (intros; exfalso; by eapply N); try constructor; try by intros ? ?%not_elem_of_nil.
  all: try match goal with I : _ ∈ t_sccs new_tarjan |- _ => by apply not_elem_of_nil in I end.
  - intros V. exfalso. by eapply N.
  - by intros [?%not_elem_of_nil|?%not_elem_of_nil].
  - by intros ? ? ?%not_elem_of_nil.
  - by intros ? ? ?%not_elem_of_nil.
Qed.

Lemma connect_all_Inv n paths : (∀ v, v ∈ paths → v ∈ paths_of g) → ∀ t, Inv [] t → (size (unvisited t) < n)%nat →
  ∃ t', connect_all n g paths t = Some t' ∧ Inv [] t' ∧
    (∀ v, visited t v → visited t' v) ∧ ∀ v, v ∈ paths → visited t' v.
Proof.
  induction paths as [|v paths IH]; intros P t I Sz; simpl.
  { exists t. split_and!; try done. by intros v ?%not_elem_of_nil. }
  assert (∃ t1, (if is_visited t v then Some t else strongconnect n g v t) = Some t1 ∧ Inv [] t1 ∧
    (∀ w, visited t w → visited t1 w) ∧ visited t1 v) as (t1 & -> & I1 & K1 & V1).
  { unfold is_visited. destruct (bool_decide_reflect (is_Some (t_indices t !! v))) as [V|N].
    - by exists t.
    - destruct (strongconnect_connects n [] v t) as (t1 & -> & I1 & X & V1 & _); try done.
      { apply P. by left. } { by intros x ?%not_elem_of_nil. }
      exists t1. split_and!; try done. intros w. by apply extends_visited. }
  simpl. destruct (IH ltac:(intros; apply P; by right) t1 I1) as (t2 & -> & I2 & K2 & V2).
  { pose proof (unvisited_keeps t t1 K1). lia. }
  exists t2. split_and!; [done|done|auto|]. intros w [-> | Iw]%elem_of_cons; auto.
Qed.

Context `{GoRuntime}.

Lemma map_range_dom {V} (m : gmap string V) k : k ∈ map fst (map_range m) ↔ k ∈ dom m.
Proof.
  rewrite elem_of_dom. change (map fst (map_range m)) with (fst <$> map_range m). rewrite map_range_perm.
  rewrite list_elem_of_fmap. split.
  - intros ([k' x] & -> & I%elem_of_map_to_list). by eexists.
  - intros [x E]. exists (k, x). split; [done|]. by apply elem_of_map_to_list.
Qed.

(** The components that the algorithm closes are those of the graph. *)
Lemma connect_all_components : ∃ t,
  connect_all (fuel_of g) g (map fst (map_range g)) new_tarjan = Some t ∧
  NoDup (concat (t_sccs t)) ∧ (∀ c, c ∈ t_sccs t → c ≠ []) ∧
  (∀ c x y, c ∈ t_sccs t → x ∈ c → (y ∈ c ↔ mutual x y)) ∧
  ∀ x, x ∈ dom g → ∃ c, c ∈ t_sccs t ∧ x ∈ c.
Proof.
  destruct (connect_all_Inv (fuel_of g) (map fst (map_range g))) with (t := new_tarjan)
    as (t & E & I & _ & V).
  { intros v Iv%map_range_dom. apply elem_of_union_l, Iv. }
  { apply new_Inv. }
  { unfold fuel_of, unvisited. simpl. rewrite dom_empty_L, difference_empty_L. lia. }
  exists t. split_and!; [done|apply I|apply I|apply I|].
  intros x D. assert (visited t x) as Vx by (by apply V, map_range_dom).
  apply (inv_part _ _ I) in Vx as [Sx|Cx].
  - destruct (inv_up _ _ I x Sx) as (y & []%not_elem_of_nil & _).
  - unfold closed in Cx. apply list_elem_of_In, in_concat in Cx as (c & Ic & Ix).
    exists c. by rewrite !list_elem_of_In.
Qed.

Lemma is_cycle_spec c x : (∀ y, y ∈ c ↔ mutual x y) → NoDup c → x ∈ c → (is_cycle g c = true ↔ tc edge x x).
Proof.
  intros M Nd Ix. destruct c as [|u [|w c]]; [by apply not_elem_of_nil in Ix|..]; simpl.
  - apply list_elem_of_singleton in Ix as ->. rewrite existsb_exists. split.
    + intros (y & Iy & ->%String.eqb_eq). apply tc_once. by apply list_elem_of_In.
    + intros T. exists u. split; [|apply String.eqb_refl]. apply list_elem_of_In.
      apply tc_step in T as (y & E & R). assert (y ∈ [u]) as ->%list_elem_of_singleton; [|done].
      apply M. split; [by apply rtc_once|done].
  - split; [intros _|done].
    assert (∃ y, y ∈ u :: w :: c ∧ x ≠ y) as (y & Iy & N).
    { apply NoDup_cons in Nd as [N _]. destruct (decide (x = u)) as [->|Nx].
      - exists w. split; [right; by left|]. intros ->. apply N. by left.
      - exists u. split; [by left|done]. }
    apply M in Iy as [R R']. eapply tc_rtc_r; [|exact R'].
    by apply rtc_tc in R as [|].
Qed.

Lemma detect_cycles_spec : ∃ cycles,
  DetectCycles g = Some cycles ∧ (∀ c, c ∈ cycles → c ≠ []) ∧ NoDup (concat cycles) ∧
  (∀ c x y, c ∈ cycles → x ∈ c → (y ∈ c ↔ mutual x y)) ∧
  ∀ x, (∃ c, c ∈ cycles ∧ x ∈ c) ↔ tc edge x x.
Proof.
  destruct connect_all_components as (t & E & Nd & Ne & M & D). unfold DetectCycles. rewrite E. simpl.
  assert (∀ c, c ∈ List.filter (is_cycle g) (t_sccs t) ↔ c ∈ t_sccs t ∧ is_cycle g c = true) as F.
  { intros c. by rewrite !list_elem_of_In, filter_In. }
  eexists. split_and!; [done|..].
  - intros c [Ic _]%F. by apply Ne.
  - by apply NoDup_concat_filter.
  - intros c x y [Ic _]%F. by apply M.
  - intros x. split.
    + intros (c & [Ic Cy]%F & Ix). apply (is_cycle_spec c x); [by intros y; apply M|by eapply NoDup_concat_in|done..].
    + intros T. pose proof T as (y & E1 & _)%tc_step. destruct (D x) as (c & Ic & Ix).
      { by apply (edge_node x y). }
      exists c. split; [|done]. apply F. split; [done|].
      apply (is_cycle_spec c x); [by intros z; apply M|by eapply NoDup_concat_in|done..].
Qed.

(** C15. Detection of cycles returns for every graph, and its result is exact: the
    lists it reports are whole strongly connected components without
    repetition, and a path is in one of them if and only if it imports itself,
    directly or through other files. *)
Theorem detect_cycles_exact : ∃ cycles,
  DetectCycles g = Some cycles ∧ NoDup (concat cycles) ∧
  (∀ c x y, c ∈ cycles → x ∈ c → (y ∈ c ↔ mutual x y)) ∧
  ∀ x, (∃ c, c ∈ cycles ∧ x ∈ c) ↔ tc edge x x.
Proof. destruct detect_cycles_spec as (cycles & E & _ & N & M & X). by exists cycles. Qed.
End tarjan_facts.
