(* ===== verification/ImportOrder.v ===== *)
(** The order of the import graph and its chains: TopologicalSort fails exactly
    on cycles and otherwise puts every file after what it imports;
    DependencyChain finds a path when there is one. The graph that the compiler
    checks for cycles has none, whatever the files import. *)
From S2P Require Import Prelude GoStd Ast Graphs ParserCore Parser ParserSound ImportGraph ImportGraphFacts.
From stdpp Require Import relations.
Open Scope Z_scope.

Section order.
Context (g : Graph).
Abbreviation edge := (edge g).
Abbreviation reach := (rtc edge).

(** Every element of the list comes after those it imports. *)
Definition ordered (l : list string) : Prop :=
  ∀ i x y, l !! i = Some x → edge x y → ∃ j, (j < i)%nat ∧ l !! j = Some y.

Lemma ordered_app l x : ordered l → (∀ y, edge x y → y ∈ l) → ordered (l ++ [x]).
Proof.
  intros O D i z y E Ed. apply lookup_app_Some in E as [E|[Le E]].
  - destruct (O i z y E Ed) as (j & Lt & Ej). exists j. split; [done|]. by apply lookup_app_l_Some.
  - destruct (i - length l)%nat eqn:Ei; [|done]. injection E as <-.
    apply D, list_elem_of_lookup in Ed as [j Ej]. exists j. split.
    + apply lookup_lt_Some in Ej. lia.
    + by apply lookup_app_l_Some.
Qed.

(** A state of the search. *)
Record Sorted (s : Sorting) : Prop := {
  so_nodup : NoDup (s_sorted s);
  so_visited x : x ∈ s_visited s ↔ x ∈ s_sorted s;
  so_ordered : ordered (s_sorted s);
  so_visiting x : x ∈ s_visiting s → x ∉ s_visited s;
  so_paths x : x ∈ s_sorted s → x ∈ paths_of g;
}.

Lemma new_Sorted : Sorted (mkSorting ∅ ∅ []).
Proof. split; simpl; try set_solver; [constructor|]. intros i x y E. by rewrite lookup_nil in E. Qed.

(** The result of a visit. *)
Definition Visited (s s' : Sorting) : Prop :=
  Sorted s' ∧ s_visiting s' = s_visiting s ∧ s_visited s ⊆ s_visited s'.

Definition to_visit (s : Sorting) : gset string := paths_of g ∖ (s_visiting s ∪ s_visited s).

Context (Acyclic : ∀ x, ¬ tc edge x x).

Definition visits (f : string → Sorting → option (result string Sorting)) (n : nat) : Prop :=
  ∀ path s, Sorted s → path ∈ paths_of g → (∀ x, x ∈ s_visiting s → tc edge x path) →
    (size (to_visit s) ≤ n)%nat →
    ∃ s', f path s = Some (Ok s') ∧ Visited s s' ∧ path ∈ s_visited s'.

Lemma visit_deps_visits f n deps : visits f n → ∀ s, Sorted s →
  (∀ dep, dep ∈ deps → dep ∈ paths_of g ∧ ∀ x, x ∈ s_visiting s → tc edge x dep) →
  (size (to_visit s) ≤ n)%nat →
  ∃ s', visit_deps f deps s = Some (Ok s') ∧ Visited s s' ∧ ∀ dep, dep ∈ deps → dep ∈ s_visited s'.
Proof.
  intros F. induction deps as [|dep deps IH]; intros s So D Sz; simpl.
  { exists s. split_and!; try done. by intros dep ?%not_elem_of_nil. }
  destruct (D dep ltac:(by left)) as [Pd Rd].
  destruct (F dep s So Pd Rd Sz) as (s1 & -> & (So1 & V1 & K1) & I1). simpl.
  destruct (IH s1 So1) as (s2 & -> & (So2 & V2 & K2) & I2).
  - intros dep' Id. rewrite V1. apply D. by right.
  - etrans; [|exact Sz]. apply left_more. rewrite V1. set_solver.
  - exists s2. split_and!; [done|unfold Visited; split_and!; [done|congruence|set_solver]|].
    intros dep' [-> | Id]%elem_of_cons; [set_solver|by apply I2].
Qed.

Lemma visit_visits n : visits (visit n g) n.
Proof.
  induction n as [|n IH]; intros path s So Pp Rv Sz; simpl;
    (destruct (bool_decide_reflect (path ∈ s_visited s)) as [V|Nv]; [by exists s|]);
    (destruct (bool_decide_reflect (path ∈ s_visiting s)) as [C|Nc]; [by destruct (Acyclic path (Rv path C))|]).
  { destruct (left_none path _ (s_visiting s ∪ s_visited s) Pp); [clear -Nv Nc; set_solver|done]. }
  set (s1 := mkSorting (s_visited s) ({[path]} ∪ s_visiting s) (s_sorted s)).
  assert (Sorted s1) as So1.
  { destruct So. split; simpl; try done. intros x. rewrite elem_of_union, elem_of_singleton.
    intros [-> | I]; [done|by auto]. }
  destruct (visit_deps_visits (visit n g) n (imports_of g path) IH s1 So1) as (s2 & -> & (So2 & V2 & K2) & D2).
  - intros dep E. split; [by apply (edge_paths g path)|]. simpl. intros x.
    rewrite elem_of_union, elem_of_singleton. intros [-> | I]; [by apply tc_once|].
    eapply tc_r; [by apply Rv|done].
  - apply le_S_n. etrans; [|exact Sz]. unfold to_visit. simpl. rewrite <- (assoc_L (∪)).
    apply left_less; [done|]. clear -Nv Nc. set_solver.
  - simpl. eexists. split_and!; [done|..]; [|set_solver].
    assert (path ∉ s_visited s2) as N2.
    { apply (so_visiting _ So2). rewrite V2. simpl. set_solver. }
    unfold Visited. simpl. split_and!; [|rewrite V2; simpl; set_solver|set_solver].
    split; simpl.
    + apply NoDup_app. split_and!; [apply So2| |apply NoDup_singleton].
      intros x Ix ->%list_elem_of_singleton. by apply N2, (so_visited _ So2).
    + intros x. rewrite elem_of_app, elem_of_union, elem_of_singleton, list_elem_of_singleton, (so_visited _ So2). naive_solver.
    + apply ordered_app; [apply So2|]. intros y E. by apply (so_visited _ So2), D2.
    + intros x [I Nx]%elem_of_difference. pose proof (so_visiting _ So2 x I). set_solver.
    + intros x [I| ->%list_elem_of_singleton]%elem_of_app; [by apply (so_paths _ So2)|done].
Qed.
End order.

Section exact.
Context (g : Graph) `{GoRuntime}.

(** C22. The topological order is exact: TopologicalSort fails if and only if some
    file imports itself, directly or through others; otherwise its result holds
    every path of the graph once, each after all that it imports. It returns in
    both cases. *)
Theorem topological_sort_exact :
  match TopologicalSort g with
  | Some (Ok l) =>
      (∀ x, ¬ tc (edge g) x x) ∧ NoDup l ∧ (∀ x, x ∈ l ↔ x ∈ paths_of g) ∧ ordered g l
  | Some (Err _) => ∃ x, tc (edge g) x x
  | None => False
  end.
Proof.
  destruct (detect_cycles_spec g) as (cycles & E & Ne & _ & M & X). unfold TopologicalSort. rewrite E. cbn [mbind option_bind].
  destruct cycles as [|c cycles].
  - assert (∀ x, ¬ tc (edge g) x x) as A.
    { intros x T. apply X in T as (c & []%not_elem_of_nil & _). }
    destruct (visit_deps_visits g A (visit (fuel_of g) g) (fuel_of g)
      (sort_strings (map fst (map_range g))) (visit_visits g A _) (mkSorting ∅ ∅ []))
      as (s & -> & (So & _ & _) & D).
    + apply new_Sorted.
    + intros dep. rewrite elem_of_sort_strings, map_range_dom. intros Id. split; [by apply elem_of_union_l|].
      by intros x ?%not_elem_of_empty.
    + unfold fuel_of, to_visit. simpl. rewrite union_empty_l_L, difference_empty_L. lia.
    + cbn [mbind option_bind]. split_and!; [done|apply So| |apply So]. intros x. split; [apply (so_paths _ _ So)|].
      intros [Dx|[k Ek]]%paths_of_spec.
      * apply (so_visited _ _ So), D. by rewrite elem_of_sort_strings, map_range_dom.
      * assert (k ∈ s_sorted s) as Ik.
        { apply (so_visited _ _ So), D. rewrite elem_of_sort_strings, map_range_dom. by apply (edge_node g k x). }
        apply list_elem_of_lookup in Ik as [i Ei]. destruct (so_ordered _ _ So i k x Ei Ek) as (j & _ & Ej).
        by eapply list_elem_of_lookup_2.
  - destruct c as [|x c].
    + by destruct (Ne [] ltac:(by left)).
    + exists x. apply X. exists (x :: c). split; by left.
Qed.
End exact.

(** * Chains *)

Section chain.
Context (g : Graph) (target : string).

(** Consecutive elements of the list are imports. *)
Definition is_path (l : list string) : Prop :=
  ∀ i x y, l !! i = Some x → l !! S i = Some y → edge g x y.

Lemma is_path_cons x l : (∀ y, head l = Some y → edge g x y) → is_path l → is_path (x :: l).
Proof.
  intros H P [|i] y z Ey Ez; simpl in *; [|by apply (P i)].
  injection Ey as <-. apply H. by destruct l.
Qed.

Lemma path_reach l : is_path l → ∀ x y, head l = Some x → last l = Some y → rtc (edge g) x y.
Proof.
  induction l as [|z l IH]; intros P x y Hx Ly; [done|]. injection Hx as ->.
  destruct l as [|w l]; [by injection Ly as ->|]. rewrite last_cons_cons in Ly.
  apply (rtc_l _ _ w); [by apply (P 0%nat)|]. apply IH; [|done..]. intros i. by apply (P (S i)).
Qed.

(** Between calls: what is visited and not on the chain has visited imports, and
    the target has not been visited. *)
Definition explored (visited : gset string) (chain : list string) : Prop :=
  target ∉ visited ∧ (∀ x, x ∈ chain → x ∈ visited) ∧
  ∀ x y, x ∈ visited → x ∉ chain → edge g x y → y ∈ visited.

Definition searches (f : string → gset string → list string → option (bool * gset string * list string))
    (n : nat) : Prop :=
  ∀ current visited chain, explored visited chain → current ∈ paths_of g →
    (size (paths_of g ∖ visited) ≤ n)%nat →
    ∃ visited', visited ⊆ visited' ∧
      ((∃ p, f current visited chain = Some (true, visited', chain ++ p) ∧ is_path p ∧
          head p = Some current ∧ last p = Some target) ∨
       (f current visited chain = Some (false, visited', chain) ∧ explored visited' chain ∧
          current ∈ visited')).

Lemma try_deps_searches f n deps : searches f n → ∀ visited chain, explored visited chain →
  (∀ dep, dep ∈ deps → dep ∈ paths_of g) → (size (paths_of g ∖ visited) ≤ n)%nat →
  ∃ visited', visited ⊆ visited' ∧
    ((∃ p dep, dep ∈ deps ∧ try_deps f deps visited chain = Some (true, visited', chain ++ p) ∧ is_path p ∧
        head p = Some dep ∧ last p = Some target) ∨
     (try_deps f deps visited chain = Some (false, visited', chain) ∧ explored visited' chain ∧
        ∀ dep, dep ∈ deps → dep ∈ visited')).
Proof.
  intros F. induction deps as [|dep deps IH]; intros visited chain X P Sz; simpl.
  { exists visited. split; [done|]. right. split_and!; try done; try apply X. by intros dep ?%not_elem_of_nil. }
  destruct (F dep visited chain X (P dep ltac:(by left)) Sz) as (v1 & K1 & [(p & -> & Pp & Hp & Lp)|(-> & X1 & I1)]).
  { exists v1. split; [done|]. left. exists p, dep. split_and!; try done. by left. }
  destruct (IH v1 chain X1) as (v2 & K2 & D).
  { intros d Id. apply P. by right. }
  { etrans; [|exact Sz]. by apply left_more. }
  exists v2. split; [clear -K1 K2; set_solver|].
  destruct D as [(p & d & Id & -> & Pp & Hp & Lp)|(-> & X2 & I2)].
  - left. exists p, d. split_and!; try done. by right.
  - right. split_and!; try done; try apply X2. intros d [-> | Id]%elem_of_cons; [by apply K2|by apply I2].
Qed.

Lemma dfs_searches n : searches (dfs n g target) n.
Proof.
  induction n as [|n IH]; intros current visited chain X Pc Sz; simpl;
    (destruct (bool_decide_reflect (current ∈ visited)) as [V|Nv];
      [exists visited; split; [done|by right]|]).
  { by destruct (left_none _ _ _ Pc Nv). }
  destruct X as (Nt & Sub & Cl).
  destruct (String.eqb_spec current target) as [->|Ne].
  { exists ({[target]} ∪ visited). split; [clear; set_solver|]. left. exists [target].
    split_and!; [done| |done|done]. intros i x y _ E. by destruct i. }
  assert (explored ({[current]} ∪ visited) (chain ++ [current])) as X1.
  { split_and!.
    - intros [->%elem_of_singleton|]%elem_of_union; done.
    - intros x [I| ->%list_elem_of_singleton]%elem_of_app; apply elem_of_union; [right; by apply Sub|left; by apply elem_of_singleton].
    - intros x y [->%elem_of_singleton|Vx]%elem_of_union Nc E.
      + destruct Nc. apply elem_of_app. right. by left.
      + apply elem_of_union_r. apply (Cl x y Vx); [|done]. intros C. apply Nc, elem_of_app. by left. }
  destruct (try_deps_searches (dfs n g target) n (imports_of g current) IH _ _ X1) as (v' & K & D).
  { intros dep E. by apply (edge_paths g current). }
  { apply le_S_n. etrans; [|exact Sz]. by apply left_less. }
  exists v'. split; [clear -K; set_solver|].
  destruct D as [(p & dep & Id & -> & Pp & Hp & Lp)|(-> & (Nt' & Sub' & Cl') & I')].
  - left. exists (current :: p). rewrite <- app_assoc. split_and!; [done| |done|].
    + apply is_path_cons; [|done]. rewrite Hp. by intros y [= <-].
    + rewrite last_cons. by rewrite Lp.
  - right. rewrite length_app, Nat.add_sub, take_app_length. split_and!; [done|..].
    + split_and!; [done|intros x I; apply Sub', elem_of_app; by left|].
      intros x y Vx Nc E. destruct (decide (x = current)) as [->|Nx]; [by apply I'|].
      apply (Cl' x y Vx); [|done]. by intros [?|?%list_elem_of_singleton]%elem_of_app.
    + apply K, elem_of_union_l. by apply elem_of_singleton.
Qed.

Lemma dfs_outside n root visited chain : root ∉ paths_of g → root ∉ visited →
  dfs (S n) g target root visited chain =
    Some (String.eqb root target, {[root]} ∪ visited, if String.eqb root target then chain ++ [root] else chain).
Proof.
  intros Nr Nv. simpl. rewrite bool_decide_eq_false_2 by done. destruct (String.eqb root target); [done|].
  destruct (imports_of g root) as [|dep deps] eqn:E.
  - simpl. by rewrite length_app, Nat.add_sub, take_app_length.
  - destruct Nr. apply elem_of_union_l, (edge_node g root dep). unfold edge. rewrite E. by left.
Qed.

(** DependencyChain returns for every graph; its result is a path of imports
    from the root to the target when there is one, and empty otherwise. *)
Theorem dependency_chain_exact (root : string) : ∃ chain, DependencyChain g root target = Some chain ∧
  (rtc (edge g) root target → is_path chain ∧ head chain = Some root ∧ last chain = Some target) ∧
  (¬ rtc (edge g) root target → chain = []).
Proof.
  unfold DependencyChain. destruct (decide (root ∈ paths_of g)) as [P|N].
  - destruct (dfs_searches (S (fuel_of g)) root ∅ []) as (v & _ & [(p & -> & Pp & Hp & Lp)|(-> & (Nt & _ & Cl) & I)]).
    + split_and!; [done|by intros x ?%not_elem_of_nil|by intros x y ?%not_elem_of_empty].
    + done.
    + unfold fuel_of. rewrite difference_empty_L. lia.
    + exists p. split_and!; [done|done|]. intros Nr. destruct Nr. by apply (path_reach p).
    + exists []. split_and!; [done|intros R|done]. destruct Nt.
      clear P. induction R as [|x y z E R IH]; [done|]. apply IH; try done. apply (Cl x y I); [|done].
      by intros ?%not_elem_of_nil.
  - rewrite dfs_outside by (done || apply not_elem_of_empty). eexists. split_and!; [done|..].
    + intros R. destruct (String.eqb_spec root target) as [->|Ne].
      * split_and!; [intros i x y _ E; by destruct i|done|done].
      * destruct R as [|x y z E R]; [done|]. destruct N. apply elem_of_union_l. by apply (edge_node g x y).
    + intros Nr. destruct (String.eqb_spec root target) as [->|Ne]; [by destruct Nr|done].
Qed.
End chain.

(** * The cycles of a program *)

Section undetected.
Context `{GoRuntime}.

Lemma imports_add path hash l (g : Graph) v : imports_of (AddNode path hash l g) v = if decide (path = v) then l else imports_of g v.
Proof.
  unfold imports_of, AddNode. destruct (decide (path = v)) as [->|N]; [by rewrite lookup_insert_eq|by rewrite lookup_insert_ne].
Qed.

(** Without lists of imports in their packages, resolved files have no edges. *)
Lemma add_resolved_edges rootPath resolved g v :
  (∀ ri f p, ri ∈ resolved → ResolvedImport_File ri = Some f → File_Package f = Some p → Package_Imports p = []) →
  imports_of (AddFromResolved rootPath resolved g) v =
    if decide (v ∈ ResolvedImport_Path <$> resolved) then []
    else if decide (rootPath = v) then root_imports resolved else imports_of g v.
Proof.
  intros Ni. unfold AddFromResolved. set (deps := resolved_deps resolved).
  assert (∀ ri, ri ∈ resolved → deps ri = []) as D.
  { intros ri I. unfold deps, resolved_deps. destruct (ResolvedImport_File ri) as [f|] eqn:F; [|done].
    destruct (File_Package f) as [p|] eqn:P; [|done]. by rewrite (Ni ri f p). }
  rewrite <- (imports_add rootPath "" (root_imports resolved) g v).
  generalize (AddNode rootPath "" (root_imports resolved) g). clearbody deps.
  induction resolved as [|ri l IH]; intros g'; [done|]. cbn [foldl]. rewrite IH.
  - rewrite imports_add, (D ri) by (by left). rewrite fmap_cons.
    destruct (decide (v ∈ ResolvedImport_Path <$> l)) as [I|N].
    + rewrite decide_True; [done|by right].
    + destruct (decide (ResolvedImport_Path ri = v)) as [->|N'].
      * rewrite decide_True; [done|by left].
      * rewrite decide_False; [done|]. by intros [?|?]%elem_of_cons.
  - intros. eapply Ni; [by right|done..].
  - intros. apply D. by right.
Qed.

(** The compiler never sees a circular import: the parser keeps imports among
    the statements of a file and leaves the imports of its package empty, which
    are the only ones AddFromResolved reads. So for files that come from the
    parser, whatever they import, no cycle is found. *)
Lemma circular_imports_undetected (rootPath : string) (resolved : list ResolvedImport)
    (Parsed : ∀ ri f, ri ∈ resolved → ResolvedImport_File ri = Some f →
      ∃ input name errs, Parse input name = Some (Some f, errs)) :
  DetectCycles (AddFromResolved rootPath resolved NewGraph) = Some [].
Proof.
  assert (∀ ri f p, ri ∈ resolved → ResolvedImport_File ri = Some f → File_Package f = Some p →
    Package_Imports p = []) as Ni.
  { intros ri f p I F P. destruct (Parsed ri f I F) as (input & name & errs & E). by eapply parse_imports. }
  set (g := AddFromResolved rootPath resolved NewGraph).
  destruct (detect_cycles_spec g) as (cycles & -> & Ne & _ & _ & X). f_equal.
  destruct cycles as [|[|x c] cycles]; [done|by destruct (Ne [] ltac:(by left))|exfalso].
  assert (∀ x y, edge g x y → x = rootPath ∧ x ∉ ResolvedImport_Path <$> resolved ∧ y ∈ ResolvedImport_Path <$> resolved) as E.
  { intros u w. unfold edge, g. rewrite add_resolved_edges by done.
    destruct (decide (u ∈ _)); [by intros ?%not_elem_of_nil|].
    destruct (decide (rootPath = u)) as [->|]; [|by intros ?%not_elem_of_nil].
    intros I. split_and!; [done..|]. unfold root_imports in I.
    apply list_elem_of_omap in I as (ri & I & Ei). destruct (ResolvedImport_File ri); [|done].
    injection Ei as <-. by apply list_elem_of_fmap_2. }
  assert (tc (edge g) x x) as T by (apply X; exists (x :: c); split; by left).
  apply tc_step in T as (y & E1 & R). destruct (E x y E1) as (_ & Nx & Iy).
  destruct R as [|y z w E2 R]; [done|]. by destruct (E y z E2) as (_ & Ny & _).
Qed.
End undetected.

(** Two files that import each other. *)
Definition importing (path : string) : string :=
  qt "package `p` version `1` lang `2.0`" +:+ nl +:+ qt "import `" +:+ path +:+ qt "`" +:+ nl.

Definition resolved_import (source : string) (imported : string) : ResolvedImport :=
  mkResolvedImport source "local" "" "" source "" (@Parse ascii_runtime (importing imported) source ≫= fst) [].

Definition circular : list ResolvedImport := [resolved_import "./a.ias" "./b.ias"; resolved_import "./b.ias" "./a.ias"].

Example circular_files_import_each_other :
  omap (λ ri, f ← ResolvedImport_File ri;
    Some (omap (λ s, match s with SImport i => Some (Import_Path i) | _ => None end) (File_Statements f))) circular =
  [["./b.ias"]; ["./a.ias"]].
Proof. by vm_compute. Qed.

Lemma circular_imports_undetected_witness :
  @DetectCycles ascii_runtime (AddFromResolved "main.ias" circular NewGraph) = Some [].
Proof.
  apply (@circular_imports_undetected ascii_runtime).
  intros ri f [-> |[-> |[]%not_elem_of_nil]%elem_of_cons]%elem_of_cons E.
  - exists (importing "./b.ias"), "./a.ias", []. revert E. vm_compute. by intros [= <-].
  - exists (importing "./a.ias"), "./b.ias", []. revert E. vm_compute. by intros [= <-].
Defined.
