(* ===== verification/Resolver.v ===== *)
(** Import resolution (internal/imports/resolver.go, lock.go): the files that a
    program imports, directly and through others, their merging into the main
    file, and the lock file.

    The file system does not change during a resolution: it is the three
    functions of a [FileSystem]. The registry that resolves packages is a
    parameter. The recursion takes fuel; ResolverFacts proves that one unit more
    than there are readable files is enough. *)
From S2P Require Import Prelude GoStd Ast ParserCore Parser ImportGraph.
Open Scope Z_scope.

(** * path/filepath

    The parts of the package for the separator "/". *)

(** The loop of Clean over the elements of a path; [stack] is the result so far,
    in reverse. *)
Definition clean_step (rooted : bool) (stack : list string) (elem : string) : list string :=
  if String.eqb elem "" || String.eqb elem "." then stack
  else if String.eqb elem ".." then
    match stack with
    | top :: rest => if String.eqb top ".." then ".." :: stack else rest
    | [] => if rooted then [] else [".."]
    end
  else elem :: stack.

Definition Clean (path : string) : string :=
  let rooted := HasPrefix path "/" in
  let body := Join (rev (foldl (clean_step rooted) [] (Split path "/"))) "/" in
  if rooted then "/" +:+ body else if String.eqb body "" then "." else body.

(** filepath.Join: leading empty elements are left out. *)
Fixpoint path_Join (elems : list string) : string :=
  match elems with
  | [] => ""
  | e :: rest => if String.eqb e "" then path_Join rest else Clean (Join elems "/")
  end.

(** What is before the last separator, with it. *)
Definition before_last_slash (path : string) : string :=
  match rev (Split path "/") with
  | [] | [_] => ""
  | _ :: rest => Join (rev rest) "/" +:+ "/"
  end.

Definition path_Dir (path : string) : string := Clean (before_last_slash path).

(** * The file system *)

Record FileSystem := mkFileSystem {
  Stat : string → bool;                                     (** os.Stat succeeds *)
  ReadFile : string → result string string;
  ReadDir : string → result string (list (string * bool));  (** names, and whether a directory *)
}.

(** Resolver resolves import statements to parsed AST files. *)
Record Resolver := mkResolver {
  R_baseDir : string;
  R_cache : gmap string ResolvedImport;
  R_searchPaths : list string;
  R_visited : gset string;
}.

Global Instance settable_Resolver : Settable Resolver := λ r,
  mkResolver (R_baseDir r) (R_cache r) (R_searchPaths r) (R_visited r).

Definition NewResolver (baseDir : string) (searchPaths : list string) : Resolver :=
  mkResolver baseDir ∅ searchPaths ∅.

(** classifyImport determines whether an import is local or a package
    reference. *)
Definition classifyImport (path : string) : string :=
  if HasPrefix path "./" || HasPrefix path "../" then "local"
  else if HasSuffix path ".ias" then "local"
  else if Contains path "/" && Contains path "." then "package"
  else "local".

(** The import statements of a file, and those of its package. *)
Definition import_stmts (f : File) : list Import :=
  omap (λ s, match s with SImport i => Some i | _ => None end) (File_Statements f) ++
  match File_Package f with Some p => Package_Imports p | None => [] end.

(** The names of the resources that an import provides. *)
Definition provided (f : File) : list string :=
  omap (λ s, match s with
    | SPrompt p => Some ("Prompt/" +:+ Prompt_Name p)
    | SSkill s => Some ("Skill/" +:+ Skill_Name s)
    | SAgent a => Some ("Agent/" +:+ Agent_Name a)
    | _ => None end) (File_Statements f).

Section resolver.
Context `{GoRuntime} (fs : FileSystem).
Context (ResolvePackage : option (string → string → result string string)).
(** The %v verb on the errors of the parser. *)
Context (fmt_errors : list ParseError → string).

Definition computeContentHash (content : string) : string := "sha256:" +:+ sha256_hex content.

(** findEntryPoint finds the main .ias entry point in a package directory. *)
Definition findEntryPoint (pkgDir : string) : result string string :=
  match List.find (Stat fs) ((λ name, path_Join [pkgDir; name]) <$> ["main.ias"; "index.ias"]) with
  | Some path => Ok path
  | None =>
      match ReadDir fs pkgDir with
      | Err err => Err ("reading package dir: " +:+ err)
      | Ok entries =>
          match List.find (λ e : string * bool, negb e.2 && HasSuffix e.1 ".ias") entries with
          | Some (name, _) => Ok (path_Join [pkgDir; name])
          | None => Err ("no .ias files in " +:+ pkgDir)
          end
      end
  end.

(** resolveLocalPath resolves a relative import path to an absolute path. *)
Definition resolveLocalPath (importPath fromDir : string) : result string string :=
  let absPath := Clean (path_Join [fromDir; importPath]) in
  let withExt := absPath +:+ ".ias" in
  let relative := HasPrefix importPath "./" || HasPrefix importPath "../" in
  let indexPath := path_Join [absPath; "index.ias"] in
  let candidates :=
    (if HasSuffix absPath ".ias" then []
     else if relative then [withExt; indexPath] else [withExt]) ++ [absPath] in
  match List.find (Stat fs) candidates with
  | Some path => Ok path
  | None => Err ("import file not found: " +:+ absPath)
  end.

(** The places where a search directory may hold a package. *)
Definition package_candidates (importPath version searchDir : string) : list string :=
  let entries dir := [path_Join [dir; "main.ias"]; path_Join [dir; "index.ias"]] in
  if String.eqb version "" then entries (path_Join [searchDir; importPath])
  else entries (path_Join [searchDir; importPath +:+ "@" +:+ version]) ++ entries (path_Join [searchDir; importPath]).

(** resolvePackagePath resolves a versioned package import to an absolute path. *)
Definition resolvePackagePath (searchPaths : list string) (importPath version : string) : result string string :=
  match List.find (Stat fs) (flat_map (package_candidates importPath version) searchPaths) with
  | Some path => Ok path
  | None => Err ("package " +:+ quote importPath +:+ " (version " +:+ version +:+ ") not found in search paths")
  end.

Definition cache_key (imp : Import) : string :=
  if String.eqb (Import_Version imp) "" then Import_Path imp
  else Import_Path imp +:+ "@" +:+ Import_Version imp.

(** The switch of resolveImport on the kind of the import. *)
Definition find_import (r : Resolver) (imp : Import) (fromDir : string) : result string string :=
  let importPath := Import_Path imp in
  if String.eqb (classifyImport importPath) "local" then resolveLocalPath importPath fromDir
  else
    match ResolvePackage with
    | Some resolve =>
        match resolve importPath (Import_Version imp) with
        | Ok pkgDir =>
            match findEntryPoint pkgDir with
            | Ok path => Ok path
            | Err err => Err ("package " +:+ quote importPath +:+ " resolved but no entry point found: " +:+ err)
            end
        | Err _ => resolvePackagePath (R_searchPaths r) importPath (Import_Version imp)
        end
    | None => resolvePackagePath (R_searchPaths r) importPath (Import_Version imp)
    end.

(** resolveImport resolves a single import to a file on disk. [None] stands for
    a parser that does not return, which it always does. *)
Definition resolveImport (imp : Import) (fromDir : string) (r : Resolver) :
    option (result string ResolvedImport * Resolver) :=
  match R_cache r !! cache_key imp with
  | Some cached => Some (Ok cached, r)
  | None =>
      match find_import r imp fromDir with
      | Err err => Some (Err err, r)
      | Ok absPath =>
          match ReadFile fs absPath with
          | Err err => Some (Err ("reading " +:+ absPath +:+ ": " +:+ err), r)
          | Ok content =>
              '(f, parseErrs) ← Parse content absPath;
              match parseErrs, f with
              | [], Some f =>
                  let ri := mkResolvedImport (Import_Path imp) (classifyImport (Import_Path imp))
                    (Import_Alias imp) (Import_Version imp) absPath (computeContentHash content)
                    (Some f) (provided f) in
                  Some (Ok ri, r <| R_cache := <[cache_key imp := ri]> (R_cache r) |>)
              | _, _ => Some (Err ("parsing " +:+ absPath +:+ ": " +:+ fmt_errors parseErrs), r)
              end
          end
      end
  end.

(** The loop over import statements that ResolveAll and resolveTransitive
    share: each import is followed by what it imports. *)
Fixpoint resolve_stmts (transitive : ResolvedImport → Resolver →
      option (result string (list ResolvedImport) * Resolver))
    (wrap_import wrap_transitive : Import → string → string) (stmts : list Import) (fromDir : string)
    (resolved : list ResolvedImport) (r : Resolver) : option (result string (list ResolvedImport) * Resolver) :=
  match stmts with
  | [] => Some (Ok resolved, r)
  | imp :: stmts =>
      match resolveImport imp fromDir r with
      | None => None
      | Some (Err err, r) => Some (Err (wrap_import imp err), r)
      | Some (Ok ri, r) =>
          match transitive ri r with
          | None => None
          | Some (Err err, r) => Some (Err (wrap_transitive imp err), r)
          | Some (Ok more, r) =>
              resolve_stmts transitive wrap_import wrap_transitive stmts fromDir (resolved ++ [ri] ++ more) r
          end
      end
  end.

(** resolveTransitive resolves imports from an already-resolved import file. *)
Fixpoint resolveTransitive (n : nat) (ri : ResolvedImport) (r : Resolver) :
    option (result string (list ResolvedImport) * Resolver) :=
  match ResolvedImport_File ri with
  | None => Some (Ok [], r)
  | Some f =>
      if bool_decide (ResolvedImport_Path ri ∈ R_visited r) then Some (Ok [], r)
      else
        match n with
        | O => None
        | S n =>
            let r := r <| R_visited := {[ResolvedImport_Path ri]} ∪ R_visited r |> in
            resolve_stmts (resolveTransitive n)
              (λ imp err, "resolving " +:+ quote (Import_Path imp) +:+ " from " +:+
                quote (ResolvedImport_Source ri) +:+ ": " +:+ err)
              (λ _ err, err) (import_stmts f) (path_Dir (ResolvedImport_Path ri)) [] r
        end
  end.

(** ResolveAll resolves all imports from a parsed file, and their imports. *)
Definition ResolveAll (n : nat) (f : File) (r : Resolver) : option (result string (list ResolvedImport) * Resolver) :=
  resolve_stmts (resolveTransitive n)
    (λ imp err, "resolving import " +:+ quote (Import_Path imp) +:+ ": " +:+ err)
    (λ imp err, "resolving transitive imports from " +:+ quote (Import_Path imp) +:+ ": " +:+ err)
    (import_stmts f) (R_baseDir r) [] r.

(** * Merging *)

Definition is_import (s : Statement) : bool :=
  match s with SImport _ | SPackage _ => true | _ => false end.

(** The statements that an import adds to the main file. *)
Definition merged_stmts (ri : ResolvedImport) : list Statement :=
  match ResolvedImport_File ri with
  | Some f => List.filter (λ s, negb (is_import s)) (File_Statements f)
  | None => []
  end.

(** The loop of MergeImports; a file without AST would be a nil dereference,
    which resolution excludes. *)
Fixpoint merge_loop (seen : gset string) (resolved : list ResolvedImport) : list Statement :=
  match resolved with
  | [] => []
  | ri :: resolved =>
      if bool_decide (ResolvedImport_Path ri ∈ seen) then merge_loop seen resolved
      else merged_stmts ri ++ merge_loop ({[ResolvedImport_Path ri]} ∪ seen) resolved
  end.

(** MergeImports merges resources from resolved imports into the main file. *)
Definition MergeImports (mainFile : File) (resolved : list ResolvedImport) : File :=
  mainFile <| File_Statements := File_Statements mainFile ++ merge_loop ∅ resolved |>.

(** * The lock file *)

(** LockedDep records a single resolved dependency. *)
Record LockedDep := mkLockedDep {
  LockedDep_Source : string;
  LockedDep_Version : string;
  LockedDep_Hash : string;
  LockedDep_Path : string;
}.

(** LockFile records resolved versions and content hashes. *)
Record LockFile := mkLockFile {
  LockFile_Version : string;
  LockFile_Dependencies : list LockedDep;
}.

Definition locked_dep (ri : ResolvedImport) : LockedDep :=
  mkLockedDep (ResolvedImport_Source ri) (ResolvedImport_Version ri) (ResolvedImport_Hash ri) (ResolvedImport_Path ri).

(** The loop of GenerateLockFile: the first import of each source. *)
Fixpoint lock_deps (seen : gset string) (resolved : list ResolvedImport) : list LockedDep :=
  match resolved with
  | [] => []
  | ri :: resolved =>
      if bool_decide (ResolvedImport_Source ri ∈ seen) then lock_deps seen resolved
      else locked_dep ri :: lock_deps ({[ResolvedImport_Source ri]} ∪ seen) resolved
  end.

Definition GenerateLockFile (resolved : list ResolvedImport) : LockFile := mkLockFile "1" (lock_deps ∅ resolved).

(** The lookup table of ValidateLockFile: the last entry of each source. *)
Definition locked_by_source (deps : list LockedDep) : gmap string LockedDep :=
  foldl (λ m dep, <[LockedDep_Source dep := dep]> m) ∅ deps.

(** The mismatches of one resolved import. *)
Definition check_locked (locked : gmap string LockedDep) (ri : ResolvedImport) : list string :=
  match locked !! ResolvedImport_Source ri with
  | None => []
  | Some ld =>
      let mismatch what a b :=
        ResolvedImport_Source ri +:+ ": " +:+ what +:+ " mismatch (locked: " +:+ a +:+ ", resolved: " +:+ b +:+ ")" in
      (if negb (String.eqb (LockedDep_Hash ld) "") && negb (String.eqb (LockedDep_Hash ld) (ResolvedImport_Hash ri))
       then [mismatch "hash" (LockedDep_Hash ld) (ResolvedImport_Hash ri)] else []) ++
      (if negb (String.eqb (LockedDep_Version ld) "") && negb (String.eqb (ResolvedImport_Version ri) "") &&
          negb (String.eqb (LockedDep_Version ld) (ResolvedImport_Version ri))
       then [mismatch "version" (LockedDep_Version ld) (ResolvedImport_Version ri)] else [])
  end.

(** ValidateLockFile checks that all resolved imports match the lock file. *)
Definition ValidateLockFile (lf : option LockFile) (resolved : list ResolvedImport) : list string :=
  match lf with
  | None => []
  | Some lf => flat_map (check_locked (locked_by_source (LockFile_Dependencies lf))) resolved
  end.
End resolver.
