(* ===== verification/ResolverFacts.v ===== *)
(** Import resolution returns, even on files that import each other; the lock
    file that it gives accepts the same imports and rejects changed ones; the
    cache of the resolver takes a file for another one. *)
From S2P Require Import Prelude GoStd Ast ParserCore Parser ParserSound Graphs ImportGraph Resolver.
Open Scope Z_scope.

Section terminates.
Context `{GoRuntime} (fs : FileSystem).
Context (ResolvePackage : option (string → string → result string string)).
Context (fmt_errors : list ParseError → string).
Context (readable : gset string) (Readable : ∀ path content, ReadFile fs path = Ok content → path ∈ readable).

(** The files in the cache are readable. *)
Definition cached_readable (r : Resolver) : Prop :=
  ∀ key ri, R_cache r !! key = Some ri → ResolvedImport_Path ri ∈ readable.

Definition to_resolve (r : Resolver) : nat := size (readable ∖ R_visited r).

(** A step of the resolution: it keeps the cache readable, visits more, and
    leaves the paths of the resolver alone. *)
Definition resolves_to (r r' : Resolver) : Prop :=
  cached_readable r' ∧ R_visited r ⊆ R_visited r' ∧ (to_resolve r' ≤ to_resolve r)%nat.

Lemma resolves_refl r : cached_readable r → resolves_to r r.
Proof. done. Qed.

Lemma resolves_trans r1 r2 r3 : resolves_to r1 r2 → resolves_to r2 r3 → resolves_to r1 r3.
Proof. intros (_ & V & L) (C & V' & L'). split_and!; [done|set_solver|lia]. Qed.

Lemma resolveImport_returns imp fromDir r : cached_readable r →
  ∃ res r', resolveImport fs ResolvePackage fmt_errors imp fromDir r = Some (res, r') ∧ resolves_to r r' ∧
    ∀ ri, res = Ok ri → ResolvedImport_Path ri ∈ readable.
Proof.
  intros C. unfold resolveImport. destruct (R_cache r !! cache_key imp) as [cached|] eqn:E.
  { exists (Ok cached), r. split_and!; [done|by apply resolves_refl|]. intros ri [= <-]. by eapply C. }
  assert (∀ (err : string), ∃ res r', Some (Err err, r) = Some (res, r') ∧ resolves_to r r' ∧
    ∀ ri : ResolvedImport, res = Ok ri → ResolvedImport_Path ri ∈ readable) as Fail.
  { intros err. exists (Err err), r. split_and!; [done|by apply resolves_refl|done]. }
  destruct (find_import _ _ r imp fromDir) as [path|err]; [|apply Fail].
  destruct (ReadFile fs path) as [content|err] eqn:Rd; [|apply Fail].
  assert (∃ f errs, Parse content path = Some (f, errs)) as (f & errs & ->).
  { destruct (parse_cases content path) as [(err & _ & ->)|(ts & f & p & _ & _ & _ & _ & ->)]; by do 2 eexists. }
  simpl. destruct errs, f as [f|]; try apply Fail.
  eexists (Ok _), _. split; [done|]. split.
  - split_and!; [|done|done]. intros key ri. simpl. intros [[<- <-]|[_ E']]%lookup_insert_Some; [by eapply Readable|by eapply C].
  - intros ri [= <-]. by eapply Readable.
Qed.

Definition transits (f : ResolvedImport → Resolver → option (result string (list ResolvedImport) * Resolver))
    (n : nat) : Prop :=
  ∀ ri r, cached_readable r → ResolvedImport_Path ri ∈ readable → (to_resolve r ≤ n)%nat →
    ∃ res r', f ri r = Some (res, r') ∧ resolves_to r r'.

Lemma resolve_stmts_returns f n w1 w2 stmts fromDir : transits f n → ∀ resolved r,
  cached_readable r → (to_resolve r ≤ n)%nat →
  ∃ res r', resolve_stmts fs ResolvePackage fmt_errors f w1 w2 stmts fromDir resolved r = Some (res, r') ∧
    resolves_to r r'.
Proof.
  intros T. induction stmts as [|imp stmts IH]; intros resolved r C Sz; simpl; [by do 2 eexists|].
  destruct (resolveImport_returns imp fromDir r C) as (res & r1 & -> & S1 & P).
  destruct res as [ri|err]; [|by do 2 eexists]. pose proof S1 as (C1 & _ & L1).
  destruct (T ri r1 C1 (P ri eq_refl)) as (res & r2 & -> & S2); [lia|].
  pose proof (resolves_trans _ _ _ S1 S2) as S3. pose proof S3 as (C2 & _ & L2).
  destruct res as [more|err]; [|by do 2 eexists].
  destruct (IH (resolved ++ [ri] ++ more) r2 C2) as (res & r3 & E & S4); [lia|].
  exists res, r3. split; [done|]. by eapply resolves_trans.
Qed.

Lemma resolveTransitive_transits n : transits (resolveTransitive fs ResolvePackage fmt_errors n) n.
Proof.
  induction n as [|n IH]; intros ri r C P Sz; simpl;
    (destruct (ResolvedImport_File ri) as [f|]; [|by do 2 eexists]);
    (destruct (bool_decide_reflect (ResolvedImport_Path ri ∈ R_visited r)) as [V|N]; [by do 2 eexists|]).
  - by destruct (left_none _ _ _ P N).
  - set (r1 := r <| R_visited := {[ResolvedImport_Path ri]} ∪ R_visited r |>).
    assert (to_resolve r1 < to_resolve r)%nat as Lt.
    { by apply left_less. }
    destruct (resolve_stmts_returns (resolveTransitive fs ResolvePackage fmt_errors n) n
      (λ imp err, "resolving " +:+ quote (Import_Path imp) +:+ " from " +:+
        quote (ResolvedImport_Source ri) +:+ ": " +:+ err) (λ _ err, err)
      (import_stmts f) (path_Dir (ResolvedImport_Path ri)) IH [] r1) as (res & r2 & E & C2 & V2 & L2);
      [done|lia|].
    exists res, r2. split; [exact E|]. split_and!; [done|revert V2; unfold r1; simpl; set_solver|lia].
Qed.
End terminates.

(** Resolution always returns, also when files import each other: with one
    unit of fuel more than there are readable files, ResolveAll gives the
    resolved imports or an error. *)
Theorem resolve_all_returns `{GoRuntime} (fs : FileSystem) ResolvePackage fmt_errors (readable : gset string)
    (Readable : ∀ path content, ReadFile fs path = Ok content → path ∈ readable)
    (f : File) (baseDir : string) (searchPaths : list string) :
  is_Some (ResolveAll fs ResolvePackage fmt_errors (size readable) f (NewResolver baseDir searchPaths)).
Proof.
  destruct (resolve_stmts_returns fs ResolvePackage fmt_errors readable Readable
    (resolveTransitive fs ResolvePackage fmt_errors (size readable)) (size readable)
    (λ imp err, "resolving import " +:+ quote (Import_Path imp) +:+ ": " +:+ err)
    (λ imp err, "resolving transitive imports from " +:+ quote (Import_Path imp) +:+ ": " +:+ err)
    (import_stmts f) baseDir (resolveTransitive_transits _ _ _ _ Readable _)
    [] (NewResolver baseDir searchPaths)) as (res & r & E & _).
  - by intros key ri E.
  - unfold to_resolve, NewResolver. simpl. apply subseteq_size. set_solver.
  - unfold ResolveAll, NewResolver in *. simpl in *. rewrite E. by eexists.
Qed.

(** * The lock file *)

(** The first import of a source. *)
Definition first_import (rs : list ResolvedImport) (source : string) : option ResolvedImport :=
  List.find (λ ri, String.eqb (ResolvedImport_Source ri) source) rs.

Lemma locked_lookup rs seen (m : gmap string LockedDep) s :
  foldl (λ m dep, <[LockedDep_Source dep := dep]> m) m (lock_deps seen rs) !! s =
    if decide (s ∈ seen) then m !! s
    else match first_import rs s with Some ri => Some (locked_dep ri) | None => m !! s end.
Proof.
  revert seen m. induction rs as [|ri rs IH]; intros seen m; simpl; [by destruct (decide (s ∈ seen))|].
  destruct (bool_decide_reflect (ResolvedImport_Source ri ∈ seen)) as [I|N].
  - rewrite IH. destruct (decide (s ∈ seen)); [done|]. unfold first_import. simpl.
    destruct (String.eqb_spec (ResolvedImport_Source ri) s) as [E|_]; [by subst s|done].
  - simpl. rewrite IH. unfold first_import. simpl.
    destruct (String.eqb_spec (ResolvedImport_Source ri) s) as [E|Ne].
    + subst s. rewrite decide_True by set_solver. rewrite decide_False by done. by rewrite lookup_insert_eq.
    + destruct (decide (s ∈ seen)) as [I|Ns].
      * rewrite decide_True by set_solver. by rewrite lookup_insert_ne.
      * rewrite decide_False by set_solver. destruct (List.find _ rs); [done|]. by rewrite lookup_insert_ne.
Qed.

(** The import agrees with what was locked for its source. *)
Definition agrees (locked ri : ResolvedImport) : Prop :=
  (ResolvedImport_Hash locked = "" ∨ ResolvedImport_Hash locked = ResolvedImport_Hash ri) ∧
  (ResolvedImport_Version locked = "" ∨ ResolvedImport_Version ri = "" ∨
   ResolvedImport_Version locked = ResolvedImport_Version ri).

(** The lock file made from some imports accepts others exactly when each of
    them has the content hash and the version of the first locked import of its
    source; imports of new sources are accepted. *)
Theorem lock_file_exact (rs rs' : list ResolvedImport) :
  ValidateLockFile (Some (GenerateLockFile rs)) rs' = [] ↔
  ∀ ri locked, ri ∈ rs' → first_import rs (ResolvedImport_Source ri) = Some locked → agrees locked ri.
Proof.
  assert (∀ ri, check_locked (locked_by_source (lock_deps ∅ rs)) ri = [] ↔
    ∀ locked, first_import rs (ResolvedImport_Source ri) = Some locked → agrees locked ri) as C.
  { intros ri. unfold check_locked, locked_by_source. rewrite locked_lookup, decide_False, lookup_empty by set_solver.
    destruct (first_import _ _) as [ld|]; [|naive_solver]. unfold locked_dep, agrees. simpl.
    destruct (String.eqb_spec (ResolvedImport_Hash ld) ""), (String.eqb_spec (ResolvedImport_Hash ld) (ResolvedImport_Hash ri)),
      (String.eqb_spec (ResolvedImport_Version ld) ""), (String.eqb_spec (ResolvedImport_Version ri) ""),
      (String.eqb_spec (ResolvedImport_Version ld) (ResolvedImport_Version ri)); simpl;
      (split; [intros E; try done; intros ? [= <-]; tauto|intros A; try done; destruct (A ld eq_refl); tauto]). }
  unfold ValidateLockFile, GenerateLockFile. simpl. induction rs' as [|ri rs' IH]; simpl.
  - split; [|done]. by intros _ ri locked ?%not_elem_of_nil.
  - rewrite app_nil, C, IH. split.
    + intros [A B] r locked [-> | I]%elem_of_cons; auto.
    + intros A. split; intros; eapply A; [by left|done|by right|done].
Qed.

(** * The cache *)

(** A file system with the content of each file. *)
Definition files_system (files : list (string * string)) : FileSystem :=
  let content path := snd <$> List.find (λ f, String.eqb f.1 path) files in
  mkFileSystem (λ path, bool_decide (is_Some (content path)))
    (λ path, match content path with Some c => Ok c | None => Err "no such file" end)
    (λ _, Err "not a directory").

Definition file_text (imports : list string) : string :=
  qt "package `p` version `1` lang `2.0`" +:+ nl +:+
  String.concat "" ((λ path, qt "import `" +:+ path +:+ qt "`" +:+ nl) <$> imports).

(** Two directories with a file util.ias each. *)
Definition two_directories : FileSystem := files_system
  [("/p/a/x.ias", file_text ["./util.ias"]); ("/p/a/util.ias", file_text []);
   ("/p/b/x.ias", file_text ["./util.ias"]); ("/p/b/util.ias", file_text [])].

(** The cache is keyed by the text of an import, whatever the directory it is
    relative to: the import of b/x.ias is resolved to the file in a. *)
Example cache_ignores_directories :
  option_map (λ r : result string (list ResolvedImport) * Resolver,
      match r.1 with Ok l => ResolvedImport_Path <$> l | Err _ => [] end)
    (f ← (@Parse ascii_runtime (file_text ["./a/x.ias"; "./b/x.ias"]) "/p/main.ias") ≫= fst;
     @ResolveAll ascii_runtime two_directories None (λ _, "") 4 f (NewResolver "/p" [])) =
  Some ["/p/a/x.ias"; "/p/a/util.ias"; "/p/b/x.ias"; "/p/a/util.ias"].
Proof. by vm_compute. Qed.

Definition names_of_files (files : list (string * string)) : gset string := list_to_set (fst <$> files).

Lemma files_readable files path content : ReadFile (files_system files) path = Ok content →
  path ∈ names_of_files files.
Proof.
  unfold names_of_files, files_system. simpl.
  destruct (List.find (λ f, String.eqb f.1 path) files) as [f|] eqn:E; [|done]. intros _.
  apply List.find_some in E as [I <-%String.eqb_eq]. rewrite elem_of_list_to_set.
  by apply list_elem_of_fmap_2, list_elem_of_In.
Qed.

Definition two_files : list (string * string) := [("/p/a.ias", file_text ["./b.ias"]); ("/p/b.ias", file_text ["./a.ias"])].

Lemma resolve_all_returns_witness :
  is_Some (@ResolveAll ascii_runtime (files_system two_files) None (λ _, "") (size (names_of_files two_files))
    (mkFile "f" None [SImport (zero_Import <| Import_Path := "./a.ias" |>)] zero_Pos zero_Pos)
    (NewResolver "/p" [])).
Proof.
  apply (@resolve_all_returns ascii_runtime (files_system two_files) None (λ _, "") (names_of_files two_files)).
  apply files_readable.
Defined.
