(* ===== verification/Validation.v ===== *)
(** The validation of outputs (internal/validation/validator.go, retry.go): the
    rules of an agent are evaluated on its output, and the agent is invoked again
    with the failures until they pass or the retries are used up.

    [Eval] is the evaluator of a third-party library, as in ControlFlow; the
    agent is invoked through an interface over a world [W]. *)
From S2P Require Import Prelude GoStd Ir ControlFlow RuntimeConfig.
Open Scope Z_scope.

(** RuleDef describes a declared validation rule from the IR. *)
Record RuleDef := mkRuleDef {
  RuleDef_Name : string;
  RuleDef_Expression : string;
  RuleDef_Severity : string;
  RuleDef_Message : string;
  RuleDef_MaxRetries : Z;
}.

(** RuleResult is the outcome of evaluating a single validation rule. *)
Record RuleResult := mkRuleResult {
  RuleResult_RuleName : string;
  RuleResult_Passed : bool;
  RuleResult_Severity : string;
  RuleResult_Message : string;
  RuleResult_Expression : string;
  RuleResult_Error : string;
}.

(** ValidationResult is the outcome of evaluating all validation rules. *)
Record ValidationResult := mkValidationResult {
  ValidationResult_Passed : bool;
  ValidationResult_RulesChecked : Z;
  ValidationResult_Results : list RuleResult;
  ValidationResult_Warnings : list string;
  ValidationResult_Errors : list string;
}.

Global Instance settable_ValidationResult : Settable ValidationResult := λ r,
  mkValidationResult (ValidationResult_Passed r) (ValidationResult_RulesChecked r)
    (ValidationResult_Results r) (ValidationResult_Warnings r) (ValidationResult_Errors r).

(** expr.Context holds the runtime variables available to expressions. *)
Record Context := mkContext {
  Context_Input : Dyn;
  Context_Session : Dyn;
  Context_Steps : gmap string Dyn;
  Context_Config : gmap string Dyn;
  Context_Output : Dyn;
}.

(** ExtractValidationRules: max_retries is read when it is an int or a float. *)
Definition extract_rule (m : Attrs) : RuleDef :=
  mkRuleDef (str_or "name" "" m) (str_or "expression" "" m) (str_or "severity" "error" m)
    (str_or "message" "" m)
    (match attr "max_retries" m with
     | Some (VInt n) => n
     | Some (VFloat f) => int_of_float f
     | _ => 3
     end).

Definition ExtractValidationRules (attrs : Attrs) : list RuleDef := extract_rule <$> maps_attr "validation_rules" attrs.

Section validator.
Context `{GoRuntime}.
Context (Eval : string → gmap string Dyn → result string Dyn).

(** EvalString evaluates an expression source string against a context. *)
Definition EvalString (source : string) (ctx : Context) : result string Dyn :=
  EvalWithEnv Eval source (list_to_map [("input", Context_Input ctx); ("session", Context_Session ctx);
    ("steps", dyn_map (Context_Steps ctx)); ("config", dyn_map (Context_Config ctx));
    ("output", Context_Output ctx)]).

Definition evaluateRule (rule : RuleDef) (ctx : Context) : RuleResult :=
  let rr passed message error :=
    mkRuleResult (RuleDef_Name rule) passed (RuleDef_Severity rule) message (RuleDef_Expression rule) error in
  let named := "Rule " +:+ quote (RuleDef_Name rule) in
  match EvalString (RuleDef_Expression rule) ctx with
  | Err err => rr false (named +:+ ": expression evaluation failed: " +:+ err) err
  | Ok (DBool true) => rr true "" ""
  | Ok (DBool false) =>
      rr false (if String.eqb (RuleDef_Message rule) "" then named +:+ " failed" else RuleDef_Message rule) ""
  | Ok v =>
      rr false (named +:+ ": expression did not return a boolean")
        ("expression returned " +:+ fmt_T v +:+ ", expected bool")
  end.

(** One rule of the loop of Validate. *)
Definition add_rule (ctx : Context) (result : ValidationResult) (rule : RuleDef) : ValidationResult :=
  let rr := evaluateRule rule ctx in
  let result := result <| ValidationResult_Results := ValidationResult_Results result ++ [rr] |> in
  if RuleResult_Passed rr then result
  else if String.eqb (RuleDef_Severity rule) "error" then
    result <| ValidationResult_Passed := false |>
           <| ValidationResult_Errors := ValidationResult_Errors result ++ [RuleResult_Message rr] |>
  else if String.eqb (RuleDef_Severity rule) "warning" then
    result <| ValidationResult_Warnings := ValidationResult_Warnings result ++ [RuleResult_Message rr] |>
  else result.

(** Validate runs all rules against the given context. *)
Definition Validate (rules : list RuleDef) (ctx : Context) : ValidationResult :=
  foldl (add_rule ctx) (mkValidationResult true (Z.of_nat (length rules)) [] [] []) rules.

(** The first rule of a name. *)
Definition rule_named (rules : list RuleDef) (name : string) : option RuleDef :=
  List.find (λ rule, String.eqb (RuleDef_Name rule) name) rules.

(** FailedErrorRules returns rule definitions that failed with severity error. *)
Definition FailedErrorRules (rules : list RuleDef) (result : ValidationResult) : list RuleDef :=
  omap (λ rr, if negb (RuleResult_Passed rr) && String.eqb (RuleResult_Severity rr) "error"
              then rule_named rules (RuleResult_RuleName rr) else None)
    (ValidationResult_Results result).

(** The retries of a rule: its own, those of the configuration, or three. *)
Definition max_retries_of (cfg : Z) (rule : RuleDef) : Z :=
  if 0 <? RuleDef_MaxRetries rule then RuleDef_MaxRetries rule else if 0 <? cfg then cfg else 3.

(** The loop over the failed rules: the counts, and the feedback on the rules
    that have retries left. *)
Definition use_retry (cfg : Z) (s : gmap string Z * list string) (rule : RuleDef) : gmap string Z * list string :=
  let '(retryCount, feedback) := s in
  let count := default 0 (retryCount !! RuleDef_Name rule) in
  if count <? max_retries_of cfg rule then
    (<[RuleDef_Name rule := count + 1]> retryCount,
     feedback ++ ["- " +:+ RuleDef_Name rule +:+ ": " +:+ RuleDef_Message rule])
  else (retryCount, feedback).

Definition buildRetryPrompt (originalInput previousOutput : string) (failures : list string) : string :=
  "The previous response did not pass validation checks. " +:+
  "Please try again with the following feedback:" +:+ nl +:+ nl +:+
  "Original request: " +:+ originalInput +:+
  nl +:+ nl +:+ "Validation failures:" +:+ nl +:+
  String.concat "" ((λ f, f +:+ nl) <$> failures) +:+
  nl +:+ "Previous response (rejected):" +:+ nl +:+ previousOutput +:+
  nl +:+ nl +:+ "Please provide a corrected response.".

(** The context of an output. *)
Definition output_context (input output : string) : Context :=
  mkContext (DStr input) DNil ∅ ∅ (DStr output).

Section retry.
Context {W : Type} (Invoke : string → string → W → result string string * W).

(** The loop of RetryLoop: the output, its validation, and an error. *)
Fixpoint retry_loop (n : nat) (rules : list RuleDef) (agentName originalInput : string) (cfg : Z)
    (output : string) (retryCount : gmap string Z) (w : W) :
    option (string * ValidationResult * option string * W) :=
  match n with
  | O => None
  | S n =>
      let result := Validate rules (output_context originalInput output) in
      if ValidationResult_Passed result then Some (output, result, None, w)
      else
        let failedRules := FailedErrorRules rules result in
        match failedRules with
        | [] => Some (output, result, None, w)
        | _ =>
            let '(retryCount, feedback) := foldl (use_retry cfg) (retryCount, []) failedRules in
            match feedback with
            | [] =>
                Some (output, result,
                  Some ("validation failed after retries: " +:+ Join (ValidationResult_Errors result) "; "), w)
            | _ =>
                match Invoke agentName (buildRetryPrompt originalInput output feedback) w with
                | (Err err, w) => Some (output, result, Some ("retry invocation failed: " +:+ err), w)
                | (Ok newOutput, w) => retry_loop n rules agentName originalInput cfg newOutput retryCount w
                end
            end
        end
  end.

(** RetryLoop runs the validation-retry cycle. *)
Definition RetryLoop (n : nat) (rules : list RuleDef) (agentName originalInput initialOutput : string) (cfg : Z) (w : W) :
    option (string * ValidationResult * option string * W) :=
  retry_loop n rules agentName originalInput cfg initialOutput ∅ w.
End retry.
End validator.

(** Validation decides the error rules, and the retry loop ends for every agent:
    each round uses up a retry of some rule. *)

Section facts.
Context `{GoRuntime}.
Context (Eval : string → gmap string Dyn → result string Dyn).

(** The rule holds in a context. *)
Definition holds (ctx : Context) (rule : RuleDef) : Prop := EvalString Eval (RuleDef_Expression rule) ctx = Ok (DBool true).

(** Every rule of severity error holds. *)
Definition valid (rules : list RuleDef) (ctx : Context) : Prop :=
  ∀ rule, rule ∈ rules → RuleDef_Severity rule = "error" → holds ctx rule.

Lemma evaluateRule_passed rule ctx : RuleResult_Passed (evaluateRule Eval rule ctx) = true ↔ holds ctx rule.
Proof. unfold evaluateRule, holds. by destruct (EvalString _ _ _) as [[| |[]| | | | | | | |]|]. Qed.

Lemma evaluateRule_fields rule ctx :
  RuleResult_RuleName (evaluateRule Eval rule ctx) = RuleDef_Name rule ∧
  RuleResult_Severity (evaluateRule Eval rule ctx) = RuleDef_Severity rule.
Proof. unfold evaluateRule. by destruct (EvalString _ _ _) as [[| |[]| | | | | | | |]|]. Qed.

Lemma add_rule_spec ctx res rule :
  ValidationResult_Results (add_rule Eval ctx res rule) = ValidationResult_Results res ++ [evaluateRule Eval rule ctx] ∧
  (ValidationResult_Passed (add_rule Eval ctx res rule) = true ↔
    ValidationResult_Passed res = true ∧ (RuleDef_Severity rule = "error" → holds ctx rule)).
Proof.
  unfold add_rule. pose proof (evaluateRule_passed rule ctx) as P.
  destruct (RuleResult_Passed (evaluateRule Eval rule ctx)).
  - simpl. naive_solver.
  - assert (¬ holds ctx rule) as N by (by rewrite <- P).
    destruct (String.eqb_spec (RuleDef_Severity rule) "error") as [E|E]; simpl; [naive_solver|].
    destruct (String.eqb _ "warning"); simpl; naive_solver.
Qed.

Lemma Validate_spec rules ctx :
  ValidationResult_Results (Validate Eval rules ctx) = (λ rule, evaluateRule Eval rule ctx) <$> rules ∧
  (ValidationResult_Passed (Validate Eval rules ctx) = true ↔ valid rules ctx).
Proof.
  unfold Validate.
  assert (∀ res, ValidationResult_Results (foldl (add_rule Eval ctx) res rules) =
      ValidationResult_Results res ++ ((λ rule, evaluateRule Eval rule ctx) <$> rules) ∧
    (ValidationResult_Passed (foldl (add_rule Eval ctx) res rules) = true ↔
      ValidationResult_Passed res = true ∧ valid rules ctx)) as A.
  { induction rules as [|rule rules IH]; intros res; csimpl.
    - rewrite app_nil_r. split; [done|]. unfold valid. set_solver.
    - destruct (IH (add_rule Eval ctx res rule)) as [-> ->]. destruct (add_rule_spec ctx res rule) as [-> ->].
      rewrite <- app_assoc. split; [done|]. unfold valid. setoid_rewrite elem_of_cons. naive_solver. }
  destruct (A (mkValidationResult true (Z.of_nat (length rules)) [] [] [])) as [-> ->]. naive_solver.
Qed.

Lemma rule_named_first rules name r : rule_named rules name = Some r → r ∈ rules ∧ RuleDef_Name r = name.
Proof. unfold rule_named. intros [I E%String.eqb_eq]%List.find_some. by apply list_elem_of_In in I. Qed.

Lemma rule_named_in rules r : r ∈ rules → is_Some (rule_named rules (RuleDef_Name r)).
Proof.
  intros I. unfold rule_named. destruct (List.find _ rules) eqn:E; [by eexists|].
  apply list_elem_of_In in I. eapply List.find_none in E; [|exact I]. by rewrite String.eqb_refl in E.
Qed.

(** The rules to retry: each is the first of its name, and there is one unless
    the output is valid. *)
Lemma FailedErrorRules_spec rules ctx :
  (∀ r, r ∈ FailedErrorRules rules (Validate Eval rules ctx) → rule_named rules (RuleDef_Name r) = Some r) ∧
  (FailedErrorRules rules (Validate Eval rules ctx) = [] → valid rules ctx).
Proof.
  unfold FailedErrorRules. destruct (Validate_spec rules ctx) as [-> _]. split.
  - intros r (rr & _ & E)%list_elem_of_omap. destruct (_ && _); [|done].
    destruct (rule_named_first _ _ _ E) as [_ En]. by rewrite En.
  - intros E rule I Es. destruct (RuleResult_Passed (evaluateRule Eval rule ctx)) eqn:P; [by apply evaluateRule_passed|].
    destruct (evaluateRule_fields rule ctx) as [En Esv]. destruct (rule_named_in rules rule I) as [r' Er].
    assert (r' ∈ omap (λ rr, if negb (RuleResult_Passed rr) && String.eqb (RuleResult_Severity rr) "error"
        then rule_named rules (RuleResult_RuleName rr) else None)
      ((λ rule, evaluateRule Eval rule ctx) <$> rules)) as J; [|by rewrite E in J; apply not_elem_of_nil in J].
    apply list_elem_of_omap. exists (evaluateRule Eval rule ctx). split; [by apply (list_elem_of_fmap_2 (λ rule, evaluateRule Eval rule ctx))|].
    by rewrite P, Esv, Es, En.
Qed.

(** * The retries that are left *)

Section retries.
Context (cfg : Z) (rules : list RuleDef).

Definition limit_of (name : string) : Z :=
  match rule_named rules name with Some r => max_retries_of cfg r | None => 0 end.

Definition rule_names : list string := remove_dups (RuleDef_Name <$> rules).

Definition retries_left (counts : gmap string Z) : nat :=
  sum_list_with (λ name, Z.to_nat (limit_of name - default 0 (counts !! name))) rule_names.

(** The number of retries that the rules allow together. *)
Definition retry_budget : nat := retries_left ∅.

Lemma sum_list_with_insert (counts : gmap string Z) name (l : list string) :
  NoDup l → name ∈ l → default 0 (counts !! name) < limit_of name →
  S (sum_list_with (λ n, Z.to_nat (limit_of n - default 0 (<[name := default 0 (counts !! name) + 1]> counts !! n))) l) =
  sum_list_with (λ n, Z.to_nat (limit_of n - default 0 (counts !! n))) l.
Proof.
  intros Nd I Lt. induction l as [|x l IH]; [by apply not_elem_of_nil in I|]. simpl.
  apply NoDup_cons in Nd as [Nx Nd]. destruct (decide (x = name)) as [->|Ne].
  - rewrite lookup_insert_eq. simpl.
    assert (sum_list_with (λ n, Z.to_nat (limit_of n - default 0 (<[name := default 0 (counts !! name) + 1]> counts !! n))) l =
      sum_list_with (λ n, Z.to_nat (limit_of n - default 0 (counts !! n))) l) as ->; [|lia].
    clear IH I Nd. induction l as [|y l IH]; [done|]. simpl. apply not_elem_of_cons in Nx as [Ny Nx].
    rewrite lookup_insert_ne by done. by rewrite IH.
  - rewrite lookup_insert_ne by done. apply elem_of_cons in I as [->|I]; [done|]. rewrite <- IH by done. lia.
Qed.

Lemma use_retry_left failed counts feedback :
  (∀ r, r ∈ failed → rule_named rules (RuleDef_Name r) = Some r) →
  let '(counts', feedback') := foldl (use_retry cfg) (counts, feedback) failed in
  (retries_left counts' + length feedback' = retries_left counts + length feedback)%nat.
Proof.
  revert counts feedback. induction failed as [|r failed IH]; intros counts feedback F; simpl; [done|].
  assert (limit_of (RuleDef_Name r) = max_retries_of cfg r) as L by (unfold limit_of; by rewrite (F r) by left).
  specialize (IH (use_retry cfg (counts, feedback) r).1 (use_retry cfg (counts, feedback) r).2
    ltac:(intros; apply F; by right)).
  rewrite <- surjective_pairing in IH. destruct (foldl _ _ failed) as [counts' feedback']. rewrite IH. clear IH.
  unfold use_retry. destruct (Z.ltb_spec (default 0 (counts !! RuleDef_Name r)) (max_retries_of cfg r)) as [Lt|]; [|done].
  simpl. rewrite length_app. simpl. unfold retries_left. rewrite <- (sum_list_with_insert counts (RuleDef_Name r)); [lia|..].
  - apply NoDup_remove_dups.
  - apply elem_of_remove_dups. destruct (rule_named_first _ _ _ (F r ltac:(by left))) as [I _].
    by apply list_elem_of_fmap_2.
  - by rewrite L.
Qed.

Context {W : Type} (Invoke : string → string → W → result string string * W).
Context (calls : W → nat) (Counts : ∀ agent input w, calls (Invoke agent input w).2 = S (calls w)).

Lemma retry_loop_result agent input output counts w n : (retries_left counts < n)%nat →
  ∃ output' res err w', retry_loop Eval Invoke n rules agent input cfg output counts w = Some (output', res, err, w') ∧
    res = Validate Eval rules (output_context input output') ∧
    (err = None ↔ valid rules (output_context input output')) ∧
    (calls w' ≤ calls w + retries_left counts)%nat.
Proof.
  revert output counts w. induction n as [|n IH]; intros output counts w L; [lia|]. cbn [retry_loop].
  set (ctx := output_context input output). destruct (Validate_spec rules ctx) as [_ P].
  destruct (FailedErrorRules_spec rules ctx) as [F Fn].
  destruct (ValidationResult_Passed (Validate Eval rules ctx)) eqn:Ep.
  { exists output, (Validate Eval rules ctx), None, w. split_and!; [done|done|by split; [intros _; apply P|]|lia]. }
  assert (¬ valid rules ctx) as Nv by (by rewrite <- P).
  destruct (FailedErrorRules rules _) as [|r failed]; [by destruct Nv; apply Fn|].
  pose proof (use_retry_left (r :: failed) counts [] F) as U.
  destruct (foldl _ _ (r :: failed)) as [counts' feedback]. simpl in U. rewrite Nat.add_0_r in U.
  destruct feedback as [|f feedback].
  { do 4 eexists. split_and!; [reflexivity|done|by split; [|intros V; destruct Nv]|lia]. }
  simpl in U. pose proof (Counts agent (buildRetryPrompt input output (f :: feedback)) w) as C.
  destruct (Invoke _ _ w) as [[output'|err] w']; simpl in C.
  - destruct (IH output' counts' w') as (o & res & err & w2 & E & R); [lia|].
    exists o, res, err, w2. split; [done|]. destruct R as (? & ? & ?). split_and!; [done|done|lia].
  - do 4 eexists. split_and!; [reflexivity|done|by split; [|intros V; destruct Nv]|lia].
Qed.
End retries.

(** The validation loop ends for every agent and evaluator, after at most as
    many invocations as the rules allow retries, the retries of rules of one name
    counted once. It returns an output with its validation, and no error if and
    only if every rule of severity error holds on that output. *)
Theorem retry_loop_ends {W} (Invoke : string → string → W → result string string * W) (calls : W → nat)
    (Counts : ∀ agent input w, calls (Invoke agent input w).2 = S (calls w))
    (rules : list RuleDef) (cfg : Z) (agent input output : string) (w : W) :
  ∃ output' res err w',
    RetryLoop Eval Invoke (S (retry_budget cfg rules)) rules agent input output cfg w = Some (output', res, err, w') ∧
    res = Validate Eval rules (output_context input output') ∧
    (err = None ↔ valid rules (output_context input output')) ∧
    (calls w' ≤ calls w + retry_budget cfg rules)%nat.
Proof.
  apply (retry_loop_result cfg rules Invoke calls Counts agent input output ∅ w (S (retry_budget cfg rules))).
  unfold retry_budget. lia.
Qed.
End facts.

(** * An agent that corrects itself at the second attempt *)

(** The evaluator knows one expression, that the output is ok. *)
Definition ok_eval (source : string) (env : gmap string Dyn) : result string Dyn :=
  match env !! "output" with Some (DStr s) => Ok (DBool (String.eqb s "ok")) | _ => Err "no output" end.

Definition second_attempt (_ _ : string) (n : nat) : result string string * nat :=
  (Ok (if (n =? 1)%nat then "ok" else "still wrong"), S n).

Definition ok_rule : RuleDef := mkRuleDef "is-ok" "output == 'ok'" "error" "say ok" 0.

Lemma retry_loop_ends_witness :
  ∃ output' res err w',
    @RetryLoop ascii_runtime ok_eval nat second_attempt 4 [ok_rule] "a" "hello" "wrong" 0 0%nat =
      Some (output', res, err, w') ∧
    res = @Validate ascii_runtime ok_eval [ok_rule] (output_context "hello" output') ∧
    (err = None ↔ @valid ascii_runtime ok_eval [ok_rule] (output_context "hello" output')) ∧
    (w' ≤ 0 + retry_budget 0 [ok_rule])%nat.
Proof.
  apply (@retry_loop_ends ascii_runtime ok_eval nat second_attempt (λ n, n) (λ _ _ _, eq_refl)
    [ok_rule] 0 "a" "hello" "wrong" 0%nat).
Defined.

Example second_attempt_passes :
  option_map (λ '(o, _, err, n), (o, err, n))
    (@RetryLoop ascii_runtime ok_eval nat second_attempt 4 [ok_rule] "a" "hello" "wrong" 0 0%nat) =
  Some ("ok", None, 2%nat).
Proof. by vm_compute. Qed.
