(* ===== verification/Auth.v ===== *)
(** Authentication of requests (internal/auth/key.go, users.go, middleware.go and
    the part of ratelimit.go that counts failures): the middleware of the server
    over the table of failed attempts.

    Times are nanoseconds; every call that reads the clock is given its reading.
    The lock of the table makes each operation one step; the middleware is one
    step here, so what is proved of it is for requests that do not overlap. *)
From S2P Require Import Prelude GoStd.
Open Scope Z_scope.

Definition second : Z := 1000000000.
Definition minute : Z := 60 * second.

(** * Failed attempts *)

(** authBucket tracks failed authentication attempts per IP; the zero time of
    [blockedUntil] is [None]. *)
Record authBucket := mkAuthBucket {
  failures : Z;
  windowStart : Z;
  blockedUntil : option Z;
}.

Definition authMaxFailures : Z := 10.
Definition authWindowDur : Z := 1 * minute.
Definition authBlockDur : Z := 5 * minute.
Definition authEvictInterval : Z := 10 * minute.

Abbreviation Failures := (gmap string authBucket).

(** IsAuthBlocked checks if an IP is blocked due to too many failures; an
    expired block is deleted. *)
Definition IsAuthBlocked (now : Z) (ip : string) (m : Failures) : bool * Failures :=
  match m !! ip with
  | None => (false, m)
  | Some b =>
      match blockedUntil b with
      | Some u => if now <? u then (true, m) else (false, delete ip m)
      | None => (false, m)
      end
  end.

(** AuthBlockRetryAfter returns the number of seconds until the block expires:
    [int(remaining) + 1] for the remaining time in seconds. *)
Definition AuthBlockRetryAfter (now : Z) (ip : string) (m : Failures) : Z :=
  match m !! ip with
  | Some (mkAuthBucket _ _ (Some u)) => if u - now <=? 0 then 0 else (u - now) / second + 1
  | _ => 0
  end.

(** An entry that evictStaleAuthEntries deletes. *)
Definition is_stale (now : Z) (b : authBucket) : bool :=
  match blockedUntil b with
  | Some u => (u <? now) || (authEvictInterval <? now - windowStart b)
  | None => authEvictInterval <? now - windowStart b
  end.

Definition evictStaleAuthEntries (now : Z) (m : Failures) : Failures :=
  filter (λ kb, is_stale now kb.2 = false) m.

(** The bucket of an IP, new if there is none, its window started again when it
    is over. *)
Definition current_bucket (now : Z) (ip : string) (m : Failures) : authBucket :=
  let b := default (mkAuthBucket 0 now None) (m !! ip) in
  if authWindowDur <? now - windowStart b then mkAuthBucket 0 now (blockedUntil b) else b.

(** AuthFailure records a failed authentication attempt from an IP, and tells
    whether the IP is now blocked. *)
Definition AuthFailure (now : Z) (ip : string) (m : Failures) : bool * Failures :=
  let b := current_bucket now ip m in
  let n := failures b + 1 in
  if authMaxFailures <=? n then
    (true, <[ip := mkAuthBucket n (windowStart b) (Some (now + authBlockDur))]> m)
  else
    let m := <[ip := mkAuthBucket n (windowStart b) (blockedUntil b)]> m in
    (false, if (1000 <? size m)%nat then evictStaleAuthEntries now m else m).

(** AuthSuccess clears auth failure tracking for an IP. *)
Definition AuthSuccess (ip : string) (m : Failures) : Failures := delete ip m.

(** * Keys and users *)

(** ValidateKey: the constant-time comparison is equality. *)
Definition ValidateKey (provided expected : string) : bool :=
  if String.eqb expected "" then false else String.eqb provided expected.

(** User represents an authenticated user with agent access control. *)
Record User := mkUser {
  User_Name : string;
  User_Agents : list string;
  User_Role : string;
}.

(** UserDef holds a user definition with the resolved secret key value. *)
Record UserDef := mkUserDef {
  UserDef_Name : string;
  UserDef_KeyRef : string;
  UserDef_Agents : list string;
  UserDef_Role : string;
  UserDef_ResolvedKey : string;
}.

(** NewUserStore creates a UserStore from a list of user definitions. *)
Definition NewUserStore (defs : list UserDef) : gmap string User :=
  foldl (λ m d,
    if String.eqb (UserDef_ResolvedKey d) "" then m
    else <[UserDef_ResolvedKey d := mkUser (UserDef_Name d) (UserDef_Agents d) (UserDef_Role d)]> m) ∅ defs.

Definition Resolve_user (users : gmap string User) (apiKey : string) : option User := users !! apiKey.

(** IsAuthorized checks if the user is allowed to access the given agent. *)
Definition IsAuthorized (u : User) (agentName : string) : bool :=
  if String.eqb (User_Role u) "admin" then true
  else match User_Agents u with
       | [] => true
       | agents => existsb (String.eqb agentName) agents
       end.

(** * The middleware *)

(** What the middleware reads of a request. *)
Record Request := mkRequest {
  Request_Path : string;
  Request_RemoteAddr : string;
  Request_Forwarded : string;      (** the header X-Forwarded-For *)
  Request_Authorization : string;
}.

(** ClientIPKeyFunc extracts the client IP from the request. *)
Definition ClientIPKeyFunc (r : Request) : string :=
  if String.eqb (Request_Forwarded r) "" then Request_RemoteAddr r
  else TrimSpace (hd "" (SplitN2 (Request_Forwarded r) ",")).

(** How the middleware answers. *)
Inductive Answer :=
  | Served
  | TooMany (retryAfter : Z)
  | Unauthorized (message : string).

Record AuthConfig := mkAuthConfig {
  apiKey : string;
  noAuth : bool;
  skipPaths : list string;
}.

(** The request needs no key. *)
Definition skips_auth (c : AuthConfig) (r : Request) : bool :=
  noAuth c || bool_decide (Request_Path r ∈ skipPaths c) ||
  (HasPrefix (Request_Path r) "/static/" || String.eqb (Request_Path r) "/favicon.ico").

(** The error of the credentials of a request. *)
Definition check_credentials (c : AuthConfig) (r : Request) : option string :=
  let auth := Request_Authorization r in
  if String.eqb auth "" then Some "missing Authorization header"
  else if negb (HasPrefix auth "Bearer ") then Some "invalid Authorization format, expected 'Bearer <key>'"
  else if negb (ValidateKey (TrimPrefix auth "Bearer ") (apiKey c)) then Some "invalid API key"
  else None.

(** Middleware with a rate limiter: [now] is the reading of the clock of the
    first call, [later] that of the second. *)
Definition Middleware (c : AuthConfig) (r : Request) (now later : Z) (m : Failures) : Answer * Failures :=
  if skips_auth c r then (Served, m)
  else
    let clientIP := ClientIPKeyFunc r in
    let '(blocked, m) := IsAuthBlocked now clientIP m in
    if blocked then (TooMany (AuthBlockRetryAfter later clientIP m), m)
    else if String.eqb (apiKey c) "" then (Unauthorized "API key not configured", m)
    else
      match check_credentials c r with
      | Some err => (Unauthorized err, (AuthFailure later clientIP m).2)
      | None => (Served, AuthSuccess clientIP m)
      end.
