(* ===== verification/AuthFacts.v ===== *)
(** The middleware serves a request only with the key, and answers a client that
    guesses it at most 18 times in a minute; but who the client is, the client
    says. *)
From S2P Require Import Prelude GoStd Auth.
Open Scope Z_scope.

(** * Who is served *)

(** The credentials are those of the configured key. *)
Definition has_key (c : AuthConfig) (r : Request) : Prop :=
  apiKey c ≠ "" ∧ Request_Authorization r = "Bearer " +:+ apiKey c.

Lemma ValidateKey_spec provided expected : ValidateKey provided expected = true ↔ expected ≠ "" ∧ provided = expected.
Proof.
  unfold ValidateKey. destruct (String.eqb_spec expected ""); [by split; [|intros []]|].
  rewrite String.eqb_eq. naive_solver.
Qed.

Lemma check_credentials_spec c r : check_credentials c r = None ↔ has_key c r.
Proof.
  unfold check_credentials, has_key. set (auth := Request_Authorization r).
  destruct (String.eqb_spec auth "") as [->|N]; [by split; [|intros [_ ?]]|].
  destruct (HasPrefix auth "Bearer ") eqn:P; simpl.
  - unfold TrimPrefix. rewrite P. pose proof P as [key E]%HasPrefix_spec. rewrite E, str_drop_app.
    destruct (ValidateKey key (apiKey c)) eqn:V; simpl.
    + apply ValidateKey_spec in V as [Nk ->]. done.
    + split; [done|]. intros [Nk Ek%str_app_inj_l]. assert (ValidateKey key (apiKey c) = true) by (by apply ValidateKey_spec). congruence.
  - split; [done|]. intros [_ E]. rewrite E in P.
    assert (HasPrefix ("Bearer " +:+ apiKey c) "Bearer " = true) by (apply HasPrefix_spec; by eexists). congruence.
Qed.

(** A request that needs authentication is served exactly when its header is
    Bearer with the configured key, which is not empty, and its client is not
    blocked at that time. *)
Theorem middleware_serves_key c r now later m (Needs : skips_auth c r = false) :
  (Middleware c r now later m).1 = Served ↔
  has_key c r ∧ ∀ b u, m !! ClientIPKeyFunc r = Some b → blockedUntil b = Some u → u ≤ now.
Proof.
  unfold Middleware. rewrite Needs.
  assert ((IsAuthBlocked now (ClientIPKeyFunc r) m).1 = false ↔
    ∀ b u, m !! ClientIPKeyFunc r = Some b → blockedUntil b = Some u → u ≤ now) as B.
  { unfold IsAuthBlocked. destruct (m !! _) as [b|]; [|naive_solver]. destruct (blockedUntil b) as [u|] eqn:E.
    - destruct (Z.ltb_spec now u); simpl; (split; [|by intros B; specialize (B b u eq_refl E); try lia]);
        [done|]. intros _ b' u' [= <-] E'. rewrite E in E'. injection E' as <-. lia.
    - simpl. naive_solver congruence. }
  rewrite <- B. destruct (IsAuthBlocked _ _ _) as [[|] m']; simpl; [naive_solver|].
  destruct (String.eqb_spec (apiKey c) "") as [E|_]; [by split; [|intros [[? _] _]]|].
  pose proof (check_credentials_spec c r) as C. destruct (check_credentials c r) as [err|]; simpl; naive_solver.
Qed.

(** * Guesses *)

(** A request with the readings of the clock of its calls. *)
Record Event := mkEvent { ev_request : Request; ev_now : Z; ev_later : Z }.

(** The middleware on a sequence of requests: the answers and the table. *)
Fixpoint run (c : AuthConfig) (events : list Event) (m : Failures) : list Answer * Failures :=
  match events with
  | [] => ([], m)
  | e :: events =>
      let '(a, m) := Middleware c (ev_request e) (ev_now e) (ev_later e) m in
      let '(as_, m) := run c events m in (a :: as_, m)
  end.

(** The events happen one after the other, from time [t] on. *)
Fixpoint in_order (t : Z) (events : list Event) : Prop :=
  match events with
  | [] => True
  | e :: events => t ≤ ev_now e ≤ ev_later e ∧ in_order (ev_later e) events
  end.

(** The client [ip] made a guess that was answered. *)
Definition is_guess (ip : string) (e : Event) (a : Answer) : bool :=
  String.eqb (ClientIPKeyFunc (ev_request e)) ip && match a with Unauthorized _ => true | _ => false end.

Fixpoint guesses (ip : string) (events : list Event) (answers : list Answer) : Z :=
  match events, answers with
  | e :: events, a :: answers => (if is_guess ip e a then 1 else 0) + guesses ip events answers
  | _, _ => 0
  end.

(** What an entry looks like at time [t], when requests do not overlap. *)
Definition entry_ok (t : Z) (b : authBucket) : Prop :=
  1 ≤ failures b ∧ windowStart b ≤ t ∧
  match blockedUntil b with
  | None => failures b < authMaxFailures
  | Some u => u ≤ windowStart b + authWindowDur + authBlockDur
  end.

Definition table_ok (t : Z) (m : Failures) : Prop := map_Forall (λ _, entry_ok t) m.

Lemma entry_ok_later t t' b : t ≤ t' → entry_ok t b → entry_ok t' b.
Proof. unfold entry_ok. intros L (? & ? & ?). split_and!; [done|lia|done]. Qed.

Lemma table_ok_later t t' m : t ≤ t' → table_ok t m → table_ok t' m.
Proof. intros L T ip b E. eapply entry_ok_later; [done|by eapply T]. Qed.

Section bound.
Context (ip : string) (a : Z).

(** How many guesses of [ip] can still be answered until [a + minute]. *)
Definition room (m : Failures) : Z :=
  match m !! ip with
  | None => 10
  | Some b =>
      match blockedUntil b with
      | Some u => if u <=? a + minute then 10 else 0
      | None => if windowStart b <? a then 19 - failures b else 10 - failures b
      end
  end.

Lemma room_bounds t m : table_ok t m → 0 ≤ room m ≤ 18.
Proof.
  intros T. unfold room. destruct (m !! ip) as [b|] eqn:E; [|lia].
  destruct (T ip b E) as (F & _ & B). destruct (blockedUntil b) as [u|].
  - destruct (u <=? a + minute); lia.
  - unfold authMaxFailures in B. destruct (windowStart b <? a); lia.
Qed.

Lemma IsAuthBlocked_room t now i m : table_ok t m → t ≤ now ≤ a + minute →
  let '(blocked, m') := IsAuthBlocked now i m in
  table_ok now m' ∧ room m' ≤ room m ∧
  (blocked = false → ∀ b, m' !! i = Some b → blockedUntil b = None).
Proof.
  intros T L. pose proof (table_ok_later t now m ltac:(lia) T) as T'. unfold IsAuthBlocked.
  destruct (m !! i) as [b|] eqn:E; [|split_and!; [done|lia|congruence]].
  destruct (blockedUntil b) as [u|] eqn:Eb; [|split_and!; [done|lia|congruence]].
  destruct (Z.ltb_spec now u) as [|Lu]; [split_and!; [done|lia|done]|]. split_and!.
  - by apply map_Forall_delete.
  - unfold room. destruct (decide (i = ip)) as [->|N].
    + rewrite lookup_delete_eq, E, Eb. destruct (Z.leb_spec u (a + minute)); lia.
    + rewrite lookup_delete_ne by done. lia.
  - intros _ b'. by rewrite lookup_delete_eq.
Qed.

Lemma evict_room t m : table_ok t m → t ≤ a + minute → table_ok t (evictStaleAuthEntries t m) ∧
  room (evictStaleAuthEntries t m) ≤ room m.
Proof.
  intros T L. unfold evictStaleAuthEntries. split.
  - intros i b [E _]%map_lookup_filter_Some. by apply (T i).
  - unfold room. rewrite map_lookup_filter. destruct (m !! ip) as [b|] eqn:E; simpl; [|lia].
    destruct (T ip b E) as (F & W & B). case_guard as G; simpl; [lia|]. apply not_false_iff_true in G.
    unfold is_stale, authEvictInterval, authMaxFailures, authWindowDur, authBlockDur in *.
    destruct (blockedUntil b) as [u|].
    + apply orb_true_iff in G as [G%Z.ltb_lt|G%Z.ltb_lt]; destruct (Z.leb_spec u (a + minute)); unfold minute, second in *; lia.
    + apply Z.ltb_lt in G. destruct (Z.ltb_spec (windowStart b) a); unfold minute, second in *; lia.
Qed.

Lemma current_bucket_room t i m : table_ok t m → a ≤ t ≤ a + minute →
  (∀ b, m !! i = Some b → blockedUntil b = None) →
  let b := current_bucket t i m in
  blockedUntil b = None ∧ windowStart b ≤ t ≤ windowStart b + authWindowDur ∧
  0 ≤ failures b < authMaxFailures ∧
  (i = ip → (if windowStart b <? a then 19 - failures b else 10 - failures b) ≤ room m).
Proof.
  intros T L N. unfold current_bucket, room.
  destruct (m !! i) as [b|] eqn:E; cbn [default]; unfold id.
  - destruct (T i b E) as (F & W & B). pose proof (N b eq_refl) as Nb. rewrite Nb in B.
    destruct (Z.ltb_spec authWindowDur (t - windowStart b)) as [Over|In]; cbv zeta; cbn [windowStart blockedUntil failures];
      unfold authWindowDur, authMaxFailures, minute, second in *.
    + split_and!; [done|lia..|]. intros <-. rewrite E, Nb.
      destruct (Z.ltb_spec t a), (Z.ltb_spec (windowStart b) a); lia.
    + split_and!; [done|lia..|]. intros <-. rewrite E, Nb. destruct (windowStart b <? a); lia.
  - cbn [windowStart]. replace (t - t) with 0 by lia. unfold authWindowDur, authMaxFailures. simpl. split_and!; [done|unfold minute, second in *; lia..|].
    intros <-. rewrite E. destruct (Z.ltb_spec t a); lia.
Qed.

Lemma room_insert i m b : room (<[i := b]> m) = if decide (i = ip) then
    match blockedUntil b with
    | Some u => if u <=? a + minute then 10 else 0
    | None => if windowStart b <? a then 19 - failures b else 10 - failures b
    end else room m.
Proof.
  unfold room. destruct (decide (i = ip)) as [->|N]; [by rewrite lookup_insert_eq|by rewrite lookup_insert_ne].
Qed.

Lemma AuthFailure_room t i m : table_ok t m → a ≤ t ≤ a + minute →
  (∀ b, m !! i = Some b → blockedUntil b = None) →
  table_ok t (AuthFailure t i m).2 ∧
  room (AuthFailure t i m).2 + (if String.eqb i ip then 1 else 0) ≤ room m.
Proof.
  intros T L N. destruct (current_bucket_room t i m T L N) as (B & W & F & R). unfold AuthFailure.
  set (b := current_bucket t i m) in *. unfold authMaxFailures in *.
  destruct (Z.leb_spec 10 (failures b + 1)) as [Ge|Lt].
  - cbn [snd]. split.
    + apply map_Forall_insert_2; [|done]. split_and!; simpl; [lia|lia|]. unfold authBlockDur, authWindowDur in *. lia.
    + rewrite room_insert. destruct (String.eqb_spec i ip) as [->|Ne]; [rewrite decide_True by done|rewrite decide_False by done; lia].
      simpl. specialize (R eq_refl). destruct (Z.leb_spec (t + authBlockDur) (a + minute)).
      { unfold authBlockDur, minute, second in *. lia. }
      destruct (windowStart b <? a); lia.
  - set (m1 := <[i := mkAuthBucket (failures b + 1) (windowStart b) (blockedUntil b)]> m).
    assert (table_ok t m1 ∧ room m1 + (if String.eqb i ip then 1 else 0) ≤ room m) as [T1 R1].
    { split.
      - apply map_Forall_insert_2; [|done]. split_and!; simpl; [lia|lia|]. rewrite B. unfold authMaxFailures. lia.
      - unfold m1. rewrite room_insert, B. destruct (String.eqb_spec i ip) as [->|Ne];
          [rewrite decide_True by done|rewrite decide_False by done; lia].
        simpl. specialize (R eq_refl). destruct (windowStart b <? a); lia. }
    cbn [snd]. destruct (1000 <? size m1)%nat; [|done].
    destruct (evict_room t m1 T1) as [T2 R2]; [lia|]. split; [done|lia].
Qed.

(** One request in the minute. *)
Lemma Middleware_room c e t m : apiKey c ≠ "" → table_ok t m → a ≤ t → t ≤ ev_now e ≤ ev_later e →
  ev_later e ≤ a + minute →
  let '(ans, m') := Middleware c (ev_request e) (ev_now e) (ev_later e) m in
  (ClientIPKeyFunc (ev_request e) = ip → ¬ has_key c (ev_request e)) →
  table_ok (ev_later e) m' ∧ room m' + (if is_guess ip e ans then 1 else 0) ≤ room m.
Proof.
  intros K T La Lt Le. unfold Middleware, is_guess. destruct (skips_auth c (ev_request e)).
  { intros _. rewrite andb_false_r. split; [eapply table_ok_later; [|done]; lia|lia]. }
  set (i := ClientIPKeyFunc (ev_request e)).
  pose proof (IsAuthBlocked_room t (ev_now e) i m T ltac:(lia)) as Bk.
  destruct (IsAuthBlocked (ev_now e) i m) as [blocked m1]. destruct Bk as (T1 & R1 & N1).
  pose proof (table_ok_later (ev_now e) (ev_later e) m1 ltac:(lia) T1) as T2.
  destruct blocked; [rewrite andb_false_r; split; [done|lia]|].
  destruct (String.eqb_spec (apiKey c) "") as [|_]; [done|].
  pose proof (check_credentials_spec c (ev_request e)) as C.
  destruct (check_credentials c (ev_request e)) as [err|].
  - intros _. destruct (AuthFailure_room (ev_later e) i m1 T2) as [T3 R3]; [lia|by apply N1|].
    rewrite andb_true_r. split; [done|lia].
  - intros S. rewrite andb_false_r. split; [by apply map_Forall_delete|].
    destruct (decide (i = ip)) as [Ei|Ne]; [exfalso; by apply (S Ei), C|].
    unfold AuthSuccess, room in *. rewrite lookup_delete_ne by done. lia.
Qed.

Lemma run_room c events t m : apiKey c ≠ "" → table_ok t m → a ≤ t → in_order t events →
  Forall (λ e, ev_later e ≤ a + minute) events →
  Forall (λ e, ClientIPKeyFunc (ev_request e) = ip → ¬ has_key c (ev_request e)) events →
  guesses ip events (run c events m).1 ≤ room m.
Proof.
  intros K. revert t m. induction events as [|e events IH]; intros t m T La O Fl Fk.
  { pose proof (room_bounds t m T). simpl. lia. }
  apply Forall_cons in Fl as [Le Fl], Fk as [Nk Fk]. destruct O as [Lt O]. simpl.
  pose proof (Middleware_room c e t m K T La Lt Le) as M.
  destruct (Middleware _ _ _ _ m) as [ans m1]. destruct (M Nk) as [T1 R1].
  specialize (IH (ev_later e) m1 T1 ltac:(lia) O Fl Fk).
  destruct (run c events m1) as [answers m2]. simpl in *. lia.
Qed.
End bound.

(** The table is in order after any sequence of requests. *)
Lemma Middleware_ok c e t m : table_ok t m → t ≤ ev_now e ≤ ev_later e →
  table_ok (ev_later e) (Middleware c (ev_request e) (ev_now e) (ev_later e) m).2.
Proof.
  intros T L. unfold Middleware. destruct (skips_auth c (ev_request e)); [eapply table_ok_later; [|done]; simpl; lia|].
  set (i := ClientIPKeyFunc (ev_request e)).
  pose proof (IsAuthBlocked_room i (ev_now e) t (ev_now e) i m T ltac:(unfold minute, second; lia)) as Bk.
  destruct (IsAuthBlocked (ev_now e) i m) as [blocked m1]. destruct Bk as (T1 & _ & N1).
  pose proof (table_ok_later (ev_now e) (ev_later e) m1 ltac:(lia) T1) as T2.
  destruct blocked; [done|]. destruct (String.eqb (apiKey c) ""); [done|].
  destruct (check_credentials c (ev_request e)); simpl.
  - apply (AuthFailure_room i (ev_later e)); [done|unfold minute, second; lia|by apply N1].
  - by apply map_Forall_delete.
Qed.

Fixpoint end_of (t : Z) (events : list Event) : Z :=
  match events with [] => t | e :: events => end_of (ev_later e) events end.

Lemma run_ok c events t m : table_ok t m → in_order t events → table_ok (end_of t events) (run c events m).2.
Proof.
  revert t m. induction events as [|e events IH]; intros t m T O; [done|]. destruct O as [L O]. simpl.
  pose proof (Middleware_ok c e t m T L) as T1. destruct (Middleware _ _ _ _ m) as [ans m1]. simpl in T1.
  specialize (IH (ev_later e) m1 T1 O). by destruct (run c events m1).
Qed.

(** C18. Brute force is slow: a key is configured, requests are handled one after
    the other, and none that counts for a client within a minute has the key
    (one that has it clears the failures of the client). Then, whatever came
    before and whatever other clients do, the middleware answers at most 18
    guesses of that client within the minute, eight in a window that began
    before it and ten in the next; it refuses the others without looking at
    their key. A client is what
    ClientIPKeyFunc makes of the request, so one that forges X-Forwarded-For is
    many. *)
Theorem guesses_bounded (c : AuthConfig) (ip : string) (before minute_of : list Event) (t a : Z)
    (Key : apiKey c ≠ "") (Order : in_order t before) (Next : end_of t before ≤ a)
    (Order' : in_order a minute_of) (Within : Forall (λ e, ev_later e ≤ a + minute) minute_of)
    (Guess : Forall (λ e, ClientIPKeyFunc (ev_request e) = ip → ¬ has_key c (ev_request e)) minute_of) :
  guesses ip minute_of (run c minute_of (run c before ∅).2).1 ≤ 18.
Proof.
  assert (table_ok a (run c before ∅).2) as T.
  { eapply table_ok_later; [exact Next|]. apply run_ok; [apply map_Forall_empty|done]. }
  pose proof (run_room ip a c minute_of a _ Key T ltac:(lia) Order' Within Guess).
  pose proof (room_bounds ip a a _ T). lia.
Qed.

(** * Examples *)

Definition guess (addr forwarded : string) (at_time : Z) : Event :=
  mkEvent (mkRequest "/v1/invoke" addr forwarded "Bearer wrong") at_time at_time.

Definition key_config : AuthConfig := mkAuthConfig "secret" false ["/healthz"].

Lemma middleware_serves_key_witness :
  let r := mkRequest "/v1/invoke" "10.0.0.1:5" "" "Bearer secret" in
  (Middleware key_config r 0 0 ∅).1 = Served ↔
  has_key key_config r ∧ ∀ b u, (∅ : Failures) !! ClientIPKeyFunc r = Some b → blockedUntil b = Some u → u ≤ 0.
Proof.
  apply (middleware_serves_key key_config (mkRequest "/v1/invoke" "10.0.0.1:5" "" "Bearer secret") 0 0 ∅).
  by vm_compute.
Defined.

(** One failure starts a window; nine more follow at the end of it, and more in
    the next. *)
Definition early : list Event := [guess "10.0.0.1:5" "" 0].
Definition late : list Event :=
  ((λ n, guess "10.0.0.1:5" "" (59 * second + Z.of_nat n)) <$> seq 0 8) ++
  ((λ n, guess "10.0.0.1:5" "" (61 * second + Z.of_nat n)) <$> seq 0 40).

Lemma late_guesses_wrong : Forall (λ e, ClientIPKeyFunc (ev_request e) = "10.0.0.1:5" → ¬ has_key key_config (ev_request e)) late.
Proof. apply Forall_app; split; apply Forall_fmap, Forall_true; intros n _ [_ E]; discriminate E. Qed.

Lemma late_in_order : in_order (59 * second) late ∧ Forall (λ e, ev_later e ≤ 59 * second + minute) late.
Proof.
  split; [repeat (split; [done|]); exact I|].
  apply Forall_app; split; apply Forall_fmap, Forall_forall; intros n L%elem_of_seq; unfold minute, second; simpl; lia.
Qed.

Lemma guesses_bounded_witness :
  guesses "10.0.0.1:5" late (run key_config late (run key_config early ∅).2).1 ≤ 18.
Proof.
  apply (guesses_bounded key_config "10.0.0.1:5" early late 0 (59 * second));
    [discriminate|repeat split; done|done
    |apply late_in_order|apply late_in_order|apply late_guesses_wrong].
Defined.

(** The bound is met. *)
Example bound_is_met : guesses "10.0.0.1:5" late (run key_config late (run key_config early ∅).2).1 = 18.
Proof. by vm_compute. Qed.

(** A client that names another address in the header of each request is never
    blocked: its guesses count for the addresses it names. *)
Definition forged : list Event :=
  (λ n, guess "10.0.0.1:5" ("10.0.1." +:+ pretty (N.of_nat n)) (Z.of_nat n)) <$> seq 0 40.

Example forwarded_header_evades :
  (run key_config forged ∅).1 = repeat (Unauthorized "invalid API key") 40.
Proof. by vm_compute. Qed.
