(* ===== verification/GoMaps.v ===== *)
(** Facts on the iteration over maps in any order, shared by the components that
    range over them. *)
From S2P Require Import Prelude GoStd.

Section ranges.
Context `{GoRuntime} {A : Type}.
Implicit Types (m : gmap string A) (P : string * A → bool).

Lemma elem_of_map_range m k x : (k, x) ∈ map_range m ↔ m !! k = Some x.
Proof. by rewrite map_range_perm, elem_of_map_to_list. Qed.

Lemma NoDup_map_range m : NoDup (map_range m).
Proof. rewrite map_range_perm. apply NoDup_map_to_list. Qed.

Lemma elem_of_List_filter {B} (f : B → bool) l x : x ∈ List.filter f l ↔ x ∈ l ∧ f x = true.
Proof. by rewrite !list_elem_of_In, List.filter_In. Qed.

Lemma NoDup_List_filter {B} (f : B → bool) l : NoDup l → NoDup (List.filter f l).
Proof. rewrite !NoDup_ListNoDup. apply List.NoDup_filter. Qed.

(** Filtering the visited pairs is filtering the map. *)
Lemma filter_map_range P m : List.filter P (map_range m) ≡ₚ map_to_list (filter (λ kx, P kx = true) m).
Proof.
  apply NoDup_Permutation; [apply NoDup_List_filter, NoDup_map_range|apply NoDup_map_to_list|].
  intros [k x]. by rewrite elem_of_List_filter, elem_of_map_range, elem_of_map_to_list, map_lookup_filter_Some.
Qed.

(** The keys visited are the domain. *)
Lemma elem_of_keys m k : k ∈ (map_range m).*1 ↔ k ∈ dom m.
Proof.
  rewrite list_elem_of_fmap, elem_of_dom. split.
  - intros ([? x] & -> & I%elem_of_map_range). by exists x.
  - intros [x I]. exists (k, x). by rewrite elem_of_map_range.
Qed.
End ranges.

(** Facts on strings.Contains, Split and ReplaceAll, shared by the components
    that rewrite texts. *)

Definition occurs (sub s : string) : Prop := ∃ u v, s = u +:+ sub +:+ v.

Lemma Contains_spec s sub : Contains s sub = true ↔ occurs sub s.
Proof.
  unfold Contains. destruct (Index s sub) as [i|] eqn:E.
  - apply Index_Some in E as [(u & v & -> & _) _]. split; [intros _; by exists u, v|done].
  - split; [done|]. intros (u & v & ->). by destruct (Index_None _ _ E u v).
Qed.

Lemma not_Contains s sub : Contains s sub = false ↔ ¬ occurs sub s.
Proof. rewrite <- Contains_spec. by destruct (Contains s sub). Qed.

Lemma Contains_eq s1 s2 sub1 sub2 : (occurs sub1 s1 ↔ occurs sub2 s2) → Contains s1 sub1 = Contains s2 sub2.
Proof. intros E. rewrite <- !Contains_spec in E. destruct (Contains s1 sub1), (Contains s2 sub2); naive_solver. Qed.

Lemma occurs_trans s t u : occurs s t → occurs t u → occurs s u.
Proof. intros (a & b & ->) (c & d & ->). exists (c +:+ a), (b +:+ d). by rewrite !str_app_assoc. Qed.

Lemma occurs_app_l s u v : occurs s u → occurs s (u +:+ v).
Proof. intros (a & b & ->). exists a, (b +:+ v). by rewrite !str_app_assoc. Qed.

Lemma occurs_app_r s u v : occurs s v → occurs s (u +:+ v).
Proof. intros (a & b & ->). exists (u +:+ a), b. by rewrite !str_app_assoc. Qed.

Lemma str_app_eq_inv a b c d : a +:+ b = c +:+ d →
  (∃ k, a = c +:+ k ∧ d = k +:+ b) ∨ (∃ k, c = a +:+ k ∧ b = k +:+ d).
Proof.
  revert c. induction a as [|x a IH]; intros [|y c] E.
  - left. by exists "".
  - right. by exists (String y c).
  - left. by exists (String x a).
  - rewrite !str_app_cons in E. injection E as -> E. destruct (IH c E) as [(k & -> & ->)|(k & -> & ->)]; [left|right]; by exists k.
Qed.

(** A string without a character does not reach over that character. *)
Lemma occurs_over (c : Ascii.ascii) s u v : ¬ occurs (String c "") s →
  occurs s (u +:+ String c v) → occurs s u ∨ occurs s v.
Proof.
  intros N (a & b & E). symmetry in E. rewrite str_app_assoc in E. apply str_app_eq_inv in E as [(k & E1 & E2)|(k & -> & _)].
  - destruct k as [|d k].
    { rewrite str_app_nil_r in E1. left. exists a, "". by rewrite str_app_nil_r. }
    rewrite str_app_cons in E2. injection E2 as <- ->. apply str_app_eq_inv in E1 as [(k' & -> & E3)|(k' & -> & ->)].
    + destruct k' as [|e k']; [destruct N; exists "", k; exact (eq_sym E3)|].
      rewrite str_app_cons in E3. injection E3 as <- ->. right. exists k', b. by rewrite str_app_assoc.
    + destruct N. by exists k', k.
  - left. exists a, k. by rewrite str_app_assoc.
Qed.

(** ** Pieces *)

Lemma Join_cons2 p q ps sep : Join (p :: q :: ps) sep = p +:+ sep +:+ Join (q :: ps) sep.
Proof. done. Qed.

Lemma split_on_nonempty n s sep : ∃ p ps, split_on n s sep = p :: ps.
Proof. destruct n; simpl; [by eexists _, _|]. destruct (Index s sep); by eexists _, _. Qed.

Lemma split_on_spec n s sep : sep ≠ "" → (String.length s ≤ n)%nat →
  Join (split_on n s sep) sep = s ∧ Forall (λ p, ¬ occurs sep p) (split_on n s sep).
Proof.
  intros Ns. revert s. induction n as [|n IH]; intros s L; cbn [split_on].
  { destruct s; [|simpl in L; lia]. split; [done|]. constructor; [|done]. intros (u & v & E).
    destruct u; [destruct sep; [done|done]|done]. }
  destruct (Index s sep) as [i|] eqn:E.
  - apply Index_Some in E as [(u & v & -> & <-) M].
    assert (str_drop (String.length u + String.length sep) (u +:+ sep +:+ v) = v) as ->
      by (rewrite str_app_assoc, <- str_app_length; apply str_drop_app).
    rewrite str_take_app. destruct (IH v) as [J F].
    { rewrite !str_app_length in L. destruct sep; [done|simpl in *; lia]. }
    split; [|constructor; [|done]].
    + destruct (split_on_nonempty n v sep) as (p & ps & Ep). rewrite Ep in *. by rewrite Join_cons2, J.
    + intros (a & b & ->). specialize (M a (b +:+ sep +:+ v)). rewrite !str_app_assoc in M. specialize (M eq_refl).
      rewrite !str_app_length in M. destruct sep; [done|simpl in *; lia].
  - split; [done|]. constructor; [|done]. intros (u & v & ->). by eapply Index_None in E.
Qed.

Lemma Split_spec s sep : sep ≠ "" → Join (Split s sep) sep = s ∧ Forall (λ p, ¬ occurs sep p) (Split s sep).
Proof. intros N. by apply split_on_spec. Qed.

Lemma occurs_Join_piece p ps sep : p ∈ ps → occurs p (Join ps sep).
Proof.
  induction ps as [|q ps IH]; [by intros []%elem_of_nil|]. intros [-> |I]%elem_of_cons.
  - destruct ps; [exists "", ""; simpl; by rewrite str_app_nil_r|]. rewrite Join_cons2. apply occurs_app_l.
    exists "", "". simpl. by rewrite str_app_nil_r.
  - destruct ps; [by apply elem_of_nil in I|]. rewrite Join_cons2. by apply occurs_app_r, occurs_app_r, IH.
Qed.

(** A string that does not reach over the separator is in a piece or in the
    separator. *)
Lemma occurs_Join s ps sep : ps ≠ [] →
  (∀ u v, occurs s (u +:+ sep +:+ v) → occurs s u ∨ occurs s sep ∨ occurs s v) →
  occurs s (Join ps sep) → (∃ p, p ∈ ps ∧ occurs s p) ∨ occurs s sep.
Proof.
  intros N Over. induction ps as [|p [|q ps] IH]; [done|by left; exists p; split; [left|]|]. rewrite Join_cons2.
  intros [O|[O|O]]%Over; [left; exists p; by split; [left|]|by right|].
  destruct (IH ltac:(done) O) as [(r & I & O')|]; [left; exists r; by split; [right|]|by right].
Qed.

(** ** Replacing, from left to right *)

Lemma Index_prefix s sep : HasPrefix s sep = true → Index s sep = Some 0%nat.
Proof. intros E. destruct s; cbn [Index]; by rewrite E. Qed.

Lemma Index_cons c s sep : HasPrefix (String c s) sep = false → Index (String c s) sep = S <$> Index s sep.
Proof. intros E. cbn [Index]. by rewrite E. Qed.

Lemma split_on_fuel n m s sep : sep ≠ "" → (String.length s ≤ n)%nat → (String.length s ≤ m)%nat →
  split_on n s sep = split_on m s sep.
Proof.
  intros Ns. revert m s. induction n as [|n IH]; intros m s L1 L2.
  { destruct s; [|simpl in L1; lia]. destruct m; [done|]. simpl. by destruct sep. }
  destruct m as [|m]; [destruct s; [simpl; by destruct sep|simpl in L2; lia]|]. cbn [split_on].
  destruct (Index s sep) as [i|] eqn:E; [|done]. apply Index_Some in E as [(u & v & -> & <-) _]. f_equal.
  assert (str_drop (String.length u + String.length sep) (u +:+ sep +:+ v) = v) as ->
    by (rewrite str_app_assoc, <- str_app_length; apply str_drop_app).
  rewrite !str_app_length in *. destruct sep; [done|]. simpl in *. apply IH; lia.
Qed.

Lemma ReplaceAll_nil old new : old ≠ "" → ReplaceAll "" old new = "".
Proof. by destruct old. Qed.

Lemma ReplaceAll_prefix old new t : old ≠ "" → ReplaceAll (old +:+ t) old new = new +:+ ReplaceAll t old new.
Proof.
  intros N. unfold ReplaceAll, Split. destruct (String.length (old +:+ t)) as [|n] eqn:L.
  { destruct old; [done|]. simpl in L. lia. }
  cbn [split_on]. rewrite (Index_prefix (old +:+ t) old) by (apply HasPrefix_spec; by exists t).
  assert (str_drop (0 + String.length old) (old +:+ t) = t) as -> by apply str_drop_app.
  assert (str_take 0 (old +:+ t) = "") as -> by (by destruct old).
  rewrite (split_on_fuel n (String.length t)); [|done| |done].
  - destruct (split_on_nonempty (String.length t) t old) as (p & ps & ->). by rewrite Join_cons2.
  - rewrite str_app_length in L. destruct old; [done|]. simpl in L. lia.
Qed.

Lemma ReplaceAll_char c t old new : HasPrefix (String c t) old = false →
  ReplaceAll (String c t) old new = String c (ReplaceAll t old new).
Proof.
  intros P. assert (old ≠ "") as N by (intros ->; by destruct t). unfold ReplaceAll, Split.
  cbn [String.length split_on]. rewrite (Index_cons _ _ _ P).
  destruct (Index t old) as [i|] eqn:E; cbn [fmap option_fmap option_map].
  - cbn [str_take str_drop Nat.add]. pose proof E as E'. apply Index_Some in E' as [(u & v & -> & Lu) _].
    destruct (String.length (u +:+ old +:+ v)) as [|n] eqn:L.
    { rewrite !str_app_length in L. destruct old; [done|]. simpl in L. lia. }
    cbn [split_on]. rewrite E. set (w := str_drop (i + String.length old) (u +:+ old +:+ v)).
    assert (w = v) as Ew.
    { unfold w. rewrite <- Lu, str_app_assoc, <- str_app_length. apply str_drop_app. }
    assert (split_on (S n) w old = split_on n w old) as X.
    { apply split_on_fuel; [done|rewrite Ew; rewrite !str_app_length in L; destruct old; [done|]; simpl in L; lia..]. }
    cbn [split_on] in X. rewrite X.
    destruct (split_on_nonempty n w old) as (p & ps & ->). by rewrite !Join_cons2.
  - destruct (String.length t) as [|n]; cbn [split_on]; [done|]. by rewrite E.
Qed.

Lemma occurs_cons sub c s : occurs sub (String c s) ↔ HasPrefix (String c s) sub = true ∨ occurs sub s.
Proof.
  rewrite HasPrefix_spec. split.
  - intros (u & v & E). destruct u as [|d u]; [left; by exists v|]. rewrite str_app_cons in E. injection E as _ E.
    right. by exists u, v.
  - intros [[t E]|(u & v & ->)]; [exists "", t; done|by exists (String c u), v].
Qed.

(** ** Strings without common characters *)

Definition apart (sep sub : string) : bool :=
  negb (String.eqb sep "") && forallb (λ c, negb (Contains sub (String c ""))) (String.list_ascii_of_string sep).

Lemma occurs_over_apart sep sub u v : apart sep sub = true →
  occurs sub (u +:+ sep +:+ v) → occurs sub u ∨ occurs sub v.
Proof.
  unfold apart. rewrite andb_true_iff. intros [N A]. revert u N. induction sep as [|c sep IH]; intros u N O; [done|].
  simpl in A. apply andb_true_iff in A as [Ac A]. apply negb_true_iff, not_Contains in Ac.
  rewrite str_app_cons in O. apply occurs_over in O as [O|O]; [by left| |done].
  destruct (String.eqb_spec sep "") as [->|N']; [by right|]. destruct (IH A "" ) as [O'|O']; [by destruct sep|done| |by right].
  left. eapply occurs_trans; [exact O'|]. by exists "", u.
Qed.

Lemma occurs_Join_apart sep sub ps : apart sep sub = true → ps ≠ [] →
  occurs sub (Join ps sep) ↔ ∃ p, p ∈ ps ∧ occurs sub p.
Proof.
  intros A N. split.
  - induction ps as [|p [|q ps] IH]; [done|by intros O; exists p; split; [left|]|]. rewrite Join_cons2.
    intros [O|O]%(occurs_over_apart _ _ _ _ A); [exists p; by split; [left|]|].
    destruct (IH ltac:(done) O) as (r & I & O'). exists r. by split; [right|].
  - intros (p & I & O). eapply occurs_trans; [exact O|]. by apply occurs_Join_piece.
Qed.

(** A replacement does not matter to a string that has no character of it. *)
Lemma ReplaceAll_apart s old new sub : apart old sub = true → apart new sub = true →
  occurs sub (ReplaceAll s old new) ↔ occurs sub s.
Proof.
  intros A1 A2. assert (old ≠ "") as N by (intros ->; done). destruct (Split_spec s old N) as [J _]. unfold ReplaceAll.
  assert (Split s old ≠ []) as Ne by (destruct (split_on_nonempty (String.length s) s old) as (p & ps & E); unfold Split; by rewrite E).
  rewrite (occurs_Join_apart new) by done. rewrite <- (occurs_Join_apart old) by done. by rewrite J.
Qed.

Lemma occurs_nil sub : sub ≠ "" → ¬ occurs sub "".
Proof. intros N (u & v & E). destruct u; [by destruct sub|done]. Qed.
