(* ===== verification/Limits.v ===== *)
(** Limits on the use of agents: the token buckets of internal/auth/ratelimit.go
    with the eviction policy of internal/eviction/policy.go, and the cost budgets
    of internal/cost (pricing.go, tracker.go).

    Every call that reads the clock is given its reading, in nanoseconds since
    the epoch; a method that holds the lock twice is given two. The background
    goroutine of the limiter is the operation [evictStale]. *)
From S2P Require Import Prelude GoStd GoTime GoMaps.
Open Scope Z_scope.

(** * Eviction policies *)

Record EvictionPolicy := mkEvictionPolicy {
  MaxEntries : Z;
  TTL : Z;
  EvictionInterval : Z;
}.

Definition DefaultPolicy : EvictionPolicy :=
  mkEvictionPolicy 10000 (10 * 60 * ns_per_second) (5 * 60 * ns_per_second).

(** * Token buckets *)

(** RateLimitConfig holds rate limiting configuration. *)
Record RateLimitConfig := mkRateLimitConfig {
  RequestsPerSecond : float64;
  Burst : Z;
}.

Definition DefaultRateLimitConfig : RateLimitConfig := mkRateLimitConfig (float_of_Z 10) 20.

Record bucket := mkBucket {
  tokens : float64;
  lastRefill : Z;
  lastAccess : Z;
}.

(** RateLimiter implements per-client token bucket rate limiting. *)
Record RateLimiter := mkRateLimiter {
  RL_config : RateLimitConfig;
  RL_policy : EvictionPolicy;
  RL_buckets : gmap string bucket;
}.

Global Instance settable_RateLimiter : Settable RateLimiter := λ rl,
  mkRateLimiter (RL_config rl) (RL_policy rl) (RL_buckets rl).

(** NewRateLimiter: the zero policy stands for the default one. *)
Definition NewRateLimiter (config : RateLimitConfig) (policy : EvictionPolicy) : RateLimiter :=
  let zero := (MaxEntries policy =? 0) && (TTL policy =? 0) && (EvictionInterval policy =? 0) in
  mkRateLimiter config (if zero then DefaultPolicy else policy) ∅.

(** The format "rate:burst" of AGENTSPEC_RATE_LIMIT; strconv.ParseFloat is a
    parameter. *)
Definition RateLimitConfigFromEnv (ParseFloat : string → option float64) (val : string) : RateLimitConfig :=
  let cfg := DefaultRateLimitConfig in
  if String.eqb val "" then cfg
  else
    let parts := SplitN2 val ":" in
    let rate :=
      match ParseFloat (hd "" parts) with
      | Some rate => if float_lt float_zero rate then rate else RequestsPerSecond cfg
      | None => RequestsPerSecond cfg
      end in
    let burst :=
      match parts with
      | _ :: b :: _ =>
          match Atoi b with
          | Some burst => if 0 <? burst then burst else Burst cfg
          | None => Burst cfg
          end
      | _ => Burst cfg
      end in
    mkRateLimitConfig rate burst.

(** Validate checks that all fields have valid values; a duration is printed by
    [dur], the %v verb of time.Duration. *)
Definition Policy_Validate (dur : Z → string) (p : EvictionPolicy) : option string :=
  if MaxEntries p <=? 0 then Some ("eviction: MaxEntries must be > 0, got " +:+ pretty (MaxEntries p))
  else if TTL p <=? 0 then Some ("eviction: TTL must be > 0, got " +:+ dur (TTL p))
  else if EvictionInterval p <=? 0 then
    Some ("eviction: EvictionInterval must be > 0, got " +:+ dur (EvictionInterval p))
  else if TTL p <=? EvictionInterval p then
    Some ("eviction: EvictionInterval (" +:+ dur (EvictionInterval p) +:+ ") must be < TTL (" +:+
          dur (TTL p) +:+ ")")
  else None.

Section limiter.
Context `{GoRuntime}.

(** evictOldestLocked removes the n oldest buckets by last access. *)
Definition evictOldestLocked (n : Z) (buckets : gmap string bucket) : gmap string bucket :=
  if n <=? 0 then buckets
  else
    let entries := insertion_sort (λ a b, lastAccess a.2 <? lastAccess b.2) (map_range buckets) in
    foldl (λ m k, delete k m) buckets (map fst (take (Z.to_nat n) entries)).

(** The part of Allow that finds the bucket of a key or creates it. *)
Definition find_bucket (now : Z) (key : string) (rl : RateLimiter) : bucket * RateLimiter :=
  match RL_buckets rl !! key with
  | Some b => (b, rl)
  | None =>
      let b := mkBucket (float_of_Z (Burst (RL_config rl))) now now in
      let buckets := <[key := b]> (RL_buckets rl) in
      let over := Z.of_nat (size buckets) - MaxEntries (RL_policy rl) in
      (b, rl <| RL_buckets := if 0 <? over then evictOldestLocked over buckets else buckets |>)
  end.

Definition refill (config : RateLimitConfig) (now : Z) (b : bucket) : bucket :=
  let t := float_add (tokens b) (float_mul (Seconds (now - lastRefill b)) (RequestsPerSecond config)) in
  let burst := float_of_Z (Burst config) in
  mkBucket (if float_lt burst t then burst else t) now now.

(** Allow checks if a request from the given key is allowed. A bucket that was
    evicted as soon as it was created is not put back. *)
Definition Allow (now later : Z) (key : string) (rl : RateLimiter) : bool * RateLimiter :=
  let '(b, rl) := find_bucket now key rl in
  let b := refill (RL_config rl) later b in
  let allowed := negb (float_lt (tokens b) (float_of_Z 1)) in
  let b :=
    if allowed then mkBucket (float_sub (tokens b) (float_of_Z 1)) (lastRefill b) (lastAccess b) else b in
  (allowed,
   if bool_decide (key ∈ dom (RL_buckets rl)) then rl <| RL_buckets := <[key := b]> (RL_buckets rl) |>
   else rl).

(** The %.0f verb. *)
Definition fmt_f0 (f : float64) : string := hd "" (SplitN2 (fmt_fixed 0 f) ".").

(** The handler of Middleware: [None] when the next handler is called, the
    header Retry-After of the answer 429 otherwise. *)
Definition RateLimiter_Middleware (now later : Z) (key : string) (rl : RateLimiter)
    : option string * RateLimiter :=
  if String.eqb key "" then (None, rl)
  else
    let '(allowed, rl) := Allow now later key rl in
    (if allowed then None
     else Some (fmt_f0 (float_div (float_of_Z 1) (RequestsPerSecond (RL_config rl)))), rl).

(** evictStale removes buckets whose last access is older than the TTL. *)
Definition evictStale (now : Z) (rl : RateLimiter) : Z * RateLimiter :=
  let cutoff := now - TTL (RL_policy rl) in
  let kept := filter (λ kb, (lastAccess kb.2 <? cutoff) = false) (RL_buckets rl) in
  (Z.of_nat (size (RL_buckets rl)) - Z.of_nat (size kept), rl <| RL_buckets := kept |>).
End limiter.

(** * Prices *)

(** ModelPricing holds per-million-token costs for a model. *)
Record ModelPricing := mkModelPricing {
  InputPerMTok : float64;
  OutputPerMTok : float64;
}.

Definition defaultPricing : gmap string ModelPricing := list_to_map [
  ("claude-sonnet-4-20250514", mkModelPricing (decimal 30 1) (decimal 150 1));
  ("claude-haiku-4-5-20251001", mkModelPricing (decimal 80 2) (decimal 40 1));
  ("claude-opus-4-20250514", mkModelPricing (decimal 150 1) (decimal 750 1));
  ("gpt-4o", mkModelPricing (decimal 250 2) (decimal 100 1));
  ("gpt-4o-mini", mkModelPricing (decimal 15 2) (decimal 60 2));
  ("gpt-4.1", mkModelPricing (decimal 20 1) (decimal 80 1));
  ("gpt-4.1-mini", mkModelPricing (decimal 40 2) (decimal 160 2));
  ("gpt-4.1-nano", mkModelPricing (decimal 10 2) (decimal 40 2))].

(** LookupPrice returns zero values if the model is not found. *)
Definition LookupPrice (model : string) : float64 * float64 :=
  match defaultPricing !! model with
  | Some p => (InputPerMTok p, OutputPerMTok p)
  | None => (float_zero, float_zero)
  end.

(** * Budgets *)

(** BudgetEntry tracks spending for one agent in one period. *)
Record BudgetEntry := mkBudgetEntry {
  BudgetEntry_AgentName : string;
  BudgetEntry_Period : string;
  BudgetEntry_LimitDollars : float64;
  BudgetEntry_UsedDollars : float64;
  BudgetEntry_ResetAt : string;
  BudgetEntry_Paused : bool;
  BudgetEntry_WarnedAt : string;
}.

Global Instance settable_BudgetEntry : Settable BudgetEntry := λ e,
  mkBudgetEntry (BudgetEntry_AgentName e) (BudgetEntry_Period e) (BudgetEntry_LimitDollars e)
    (BudgetEntry_UsedDollars e) (BudgetEntry_ResetAt e) (BudgetEntry_Paused e) (BudgetEntry_WarnedAt e).

(** CostTracker accumulates per-agent costs and enforces budgets. *)
Record CostTracker := mkCostTracker {
  CT_costs : gmap string float64;
  CT_budgets : gmap string (list BudgetEntry);
}.

Global Instance settable_CostTracker : Settable CostTracker := λ ct,
  mkCostTracker (CT_costs ct) (CT_budgets ct).

(** New creates a CostTracker with the given budget entries. *)
Definition NewCostTracker (budgets : list BudgetEntry) : CostTracker :=
  mkCostTracker ∅
    (foldl (λ m b, <[BudgetEntry_AgentName b := default [] (m !! BudgetEntry_AgentName b) ++ [b]]> m) ∅ budgets).

Definition million : float64 := float_of_Z 1000000.

Definition usage_cost (model : string) (inputTokens outputTokens : Z) : float64 :=
  let '(inPrice, outPrice) := LookupPrice model in
  float_add (float_mul (float_div (float_of_Z inputTokens) million) inPrice)
    (float_mul (float_div (float_of_Z outputTokens) million) outPrice).

(** RecordUsage calculates cost from token counts and accumulates it. *)
Definition RecordUsage (agent model : string) (inputTokens outputTokens : Z) (ct : CostTracker)
    : float64 * CostTracker :=
  let cost := usage_cost model inputTokens outputTokens in
  let spend b := b <| BudgetEntry_UsedDollars := float_add (BudgetEntry_UsedDollars b) cost |> in
  (cost,
   mkCostTracker (<[agent := float_add (default float_zero (CT_costs ct !! agent)) cost]> (CT_costs ct))
     (alter (map spend) agent (CT_budgets ct))).

(** GetAgentCost returns the total accumulated cost for an agent. *)
Definition GetAgentCost (agent : string) (ct : CostTracker) : float64 :=
  default float_zero (CT_costs ct !! agent).

Definition nextReset (now : Z) (period : string) : Z :=
  let '(y, m, d) := civil_of_day (now / ns_per_day) in
  if String.eqb period "monthly" then Date y (m + 1) 1 else Date y m (d + 1).

(** The period of an entry is over. *)
Definition is_due (now : Z) (b : BudgetEntry) : bool :=
  match ParseRFC3339 (BudgetEntry_ResetAt b) with
  | Some resetAt => resetAt <? now
  | None => false
  end.

Definition reset_entry (now : Z) (b : BudgetEntry) : BudgetEntry :=
  b <| BudgetEntry_UsedDollars := float_zero |> <| BudgetEntry_Paused := false |>
    <| BudgetEntry_WarnedAt := "" |>
    <| BudgetEntry_ResetAt := FormatRFC3339 (nextReset now (BudgetEntry_Period b)) |>.

(** [b.Paused || b.UsedDollars >= b.LimitDollars] *)
Definition is_over (b : BudgetEntry) : bool :=
  BudgetEntry_Paused b || float_le (BudgetEntry_LimitDollars b) (BudgetEntry_UsedDollars b).

Definition budget_error (agent : string) (b : BudgetEntry) : string :=
  "agent '" +:+ agent +:+ "' " +:+ BudgetEntry_Period b +:+ " budget of $" +:+
  fmt_fixed 2 (BudgetEntry_LimitDollars b) +:+ " exceeded (used: $" +:+
  fmt_fixed 2 (BudgetEntry_UsedDollars b) +:+ "), resets at " +:+ BudgetEntry_ResetAt b.

(** The loop of CheckBudget over the entries of the agent. *)
Fixpoint check_entries (agent : string) (now : Z) (entries : list BudgetEntry)
    : option string * list BudgetEntry :=
  match entries with
  | [] => (None, [])
  | b :: rest =>
      if is_due now b then
        let '(err, rest) := check_entries agent now rest in (err, reset_entry now b :: rest)
      else if is_over b then (Some (budget_error agent b), b <| BudgetEntry_Paused := true |> :: rest)
      else let '(err, rest) := check_entries agent now rest in (err, b :: rest)
  end.

(** CheckBudget returns an error if any budget for the agent is exceeded. *)
Definition CostTracker_CheckBudget (now : Z) (agent : string) (ct : CostTracker)
    : option string * CostTracker :=
  match CT_budgets ct !! agent with
  | None => (None, ct)
  | Some entries =>
      let '(err, entries) := check_entries agent now entries in
      (err, ct <| CT_budgets := <[agent := entries]> (CT_budgets ct) |>)
  end.

(** The loop of CheckWarnings: the entry to warn of, and the entries after. *)
Fixpoint warn_entries (now : Z) (entries : list BudgetEntry) : option BudgetEntry * list BudgetEntry :=
  match entries with
  | [] => (None, [])
  | b :: rest =>
      let ratio := float_div (BudgetEntry_UsedDollars b) (BudgetEntry_LimitDollars b) in
      if float_le (decimal 8 1) ratio && String.eqb (BudgetEntry_WarnedAt b) "" &&
         negb (BudgetEntry_Paused b)
      then (Some b, b <| BudgetEntry_WarnedAt := FormatRFC3339 now |> :: rest)
      else let '(w, rest) := warn_entries now rest in (w, b :: rest)
  end.

(** CheckWarnings returns the budget entry at 80%+ usage, if any. *)
Definition CheckWarnings (now : Z) (agent : string) (ct : CostTracker)
    : option BudgetEntry * CostTracker :=
  match CT_budgets ct !! agent with
  | None => (None, ct)
  | Some entries =>
      let '(w, entries) := warn_entries now entries in
      (w, ct <| CT_budgets := <[agent := entries]> (CT_budgets ct) |>)
  end.

(** GetBudgets returns all budget entries. *)
Definition GetBudgets `{GoRuntime} (ct : CostTracker) : list BudgetEntry :=
  concat (map snd (map_range (CT_budgets ct))).

(** BudgetUsageRatio returns the usage ratio for an agent's budget period. *)
Definition BudgetUsageRatio (agent period : string) (ct : CostTracker) : float64 :=
  match List.find (λ b, String.eqb (BudgetEntry_Period b) period) (default [] (CT_budgets ct !! agent)) with
  | Some b =>
      if float_eq (BudgetEntry_LimitDollars b) float_zero then float_zero
      else float_div (BudgetEntry_UsedDollars b) (BudgetEntry_LimitDollars b)
  | None => float_zero
  end.

(** Reset clears all accumulated costs. *)
Definition ResetCosts (ct : CostTracker) : CostTracker := ct <| CT_costs := ∅ |>.

(** * Buckets *)

Section bucket_facts.
Context `{GoRuntime}.

Lemma size_foldl_delete {A} (ks : list string) (m : gmap string A) :
  NoDup ks → (∀ k, k ∈ ks → is_Some (m !! k)) →
  (size (foldl (λ m k, delete k m) m ks) + length ks = size m)%nat.
Proof.
  revert m. induction ks as [|k ks IH]; intros m D I; simpl; [lia|].
  apply NoDup_cons in D as [N D]. destruct (I k) as [x E]; [left|].
  assert (size m = S (size (delete k m))) as ->.
  { rewrite <- (insert_delete_id m k x E) at 1. by rewrite map_size_insert_None by apply lookup_delete_eq. }
  rewrite <- (IH (delete k m)); [lia | done |].
  intros k' J. rewrite lookup_delete_ne by (intros ->; done). apply I. by right.
Qed.

Lemma evictOldest_size n buckets :
  0 ≤ n ≤ Z.of_nat (size buckets) →
  Z.of_nat (size (evictOldestLocked n buckets)) = Z.of_nat (size buckets) - n.
Proof.
  intros B. unfold evictOldestLocked. destruct (Z.leb_spec n 0) as [L|L]; [lia|].
  set (entries := insertion_sort _ _).
  assert (entries ≡ₚ map_to_list buckets) as P.
  { unfold entries. by rewrite insertion_sort_perm, map_range_perm. }
  assert (length entries = size buckets) as Len by (rewrite P; apply length_map_to_list).
  pose proof (size_foldl_delete (map fst (take (Z.to_nat n) entries)) buckets) as S.
  rewrite length_map, length_take, Len in S. rewrite Nat.min_l in S by lia. rewrite <- S; [lia | |].
  - apply (sublist_NoDup _ (map fst entries)).
    + change (NoDup (entries.*1)). rewrite P. apply NoDup_fst_map_to_list.
    + apply fmap_sublist. apply sublist_take.
  - intros k ([k' b] & -> & I)%list_elem_of_fmap. exists b. simpl.
    apply elem_of_map_to_list. rewrite <- P. eapply subseteq_take, I.
Qed.

Definition within_policy (rl : RateLimiter) : Prop :=
  Z.of_nat (size (RL_buckets rl)) ≤ MaxEntries (RL_policy rl).

Lemma find_bucket_within now key rl :
  0 ≤ MaxEntries (RL_policy rl) → within_policy rl → within_policy (find_bucket now key rl).2.
Proof.
  unfold within_policy, find_bucket. intros M W. destruct (RL_buckets rl !! key) eqn:E; [done|]. simpl.
  set (buckets := <[_:=_]> _).
  assert (size buckets = S (size (RL_buckets rl))) as Sz by by apply map_size_insert_None.
  destruct (Z.ltb_spec 0 (Z.of_nat (size buckets) - MaxEntries (RL_policy rl))); [|lia].
  rewrite evictOldest_size; lia.
Qed.

(** The limiter never holds more buckets than its policy allows. *)
Lemma Allow_within now later key rl :
  0 ≤ MaxEntries (RL_policy rl) → within_policy rl → within_policy (Allow now later key rl).2.
Proof.
  intros M W. pose proof (find_bucket_within now key rl M W) as F. unfold Allow.
  destruct (find_bucket now key rl) as [b rl']. simpl in F |- *.
  destruct (bool_decide_reflect (key ∈ dom (RL_buckets rl'))) as [I|N]; [|done].
  unfold within_policy in *. simpl. apply elem_of_dom in I. by rewrite map_size_insert_Some.
Qed.

(** A request spends no tokens of other clients. *)
Lemma Allow_others now later key rl k b :
  k ≠ key → RL_buckets (Allow now later key rl).2 !! k = Some b → RL_buckets rl !! k = Some b.
Proof.
  intros N. unfold Allow. destruct (find_bucket now key rl) as [b' rl'] eqn:F. simpl.
  assert (RL_buckets rl' !! k = Some b → RL_buckets rl !! k = Some b) as K.
  { unfold find_bucket in F. destruct (RL_buckets rl !! key); injection F as <- <-; [done|]. simpl.
    assert (∀ ks (m : gmap string bucket), foldl (λ m k, delete k m) m ks !! k = Some b → m !! k = Some b) as D.
    { intros ks. induction ks as [|k' ks IH]; intros m I; simpl in I; [done|]. apply IH in I.
      by apply lookup_delete_Some in I as [_ I]. }
    unfold evictOldestLocked. repeat case_match; intros I; try apply D in I;
      by rewrite lookup_insert_ne in I by done. }
  destruct (bool_decide _); [|done]. simpl. rewrite lookup_insert_ne by done. exact K.
Qed.
End bucket_facts.

(** * Budgets *)

Lemma check_entries_pass agent now entries :
  (check_entries agent now entries).1 = None ↔ ∀ b, b ∈ entries → is_due now b = true ∨ is_over b = false.
Proof.
  induction entries as [|b rest IH]; simpl; [by split; [intros _ b I; inversion I|]|].
  destruct (check_entries agent now rest) as [err es]. simpl in IH.
  destruct (is_due now b) eqn:D; [|destruct (is_over b) eqn:O]; simpl.
  - rewrite IH. split; [intros A c [->|I]%elem_of_cons; auto | intros A c I; apply A; by right].
  - split; [done|]. intros A. destruct (A b); [left | congruence..].
  - rewrite IH. split; [intros A c [->|I]%elem_of_cons; auto | intros A c I; apply A; by right].
Qed.

(** The reset instant decides whether an entry is due. *)
Lemma is_due_same t b c : BudgetEntry_ResetAt b = BudgetEntry_ResetAt c → is_due t b = is_due t c.
Proof. unfold is_due. by intros ->. Qed.

(** [c] is [b] with other amounts and warnings. *)
Definition holds (c b : BudgetEntry) : Prop :=
  BudgetEntry_Paused c = true ∧ BudgetEntry_ResetAt c = BudgetEntry_ResetAt b.

Lemma check_entries_holds agent now entries b c :
  is_due now b = false → c ∈ entries → holds c b →
  is_Some (check_entries agent now entries).1 ∧ ∃ c', c' ∈ (check_entries agent now entries).2 ∧ holds c' b.
Proof.
  intros D I [P R]. induction entries as [|d rest IH]; [inversion I|]. simpl.
  destruct (check_entries agent now rest) as [err es]. simpl in IH.
  apply elem_of_cons in I as [<-|I].
  - rewrite (is_due_same now c b R), D. unfold is_over. rewrite P. simpl. split; [done|].
    exists (c <| BudgetEntry_Paused := true |>). by split; [left|].
  - destruct (IH I) as (S & c' & I' & H').
    destruct (is_due now d); [|destruct (is_over d)]; simpl.
    + split; [done|]. exists c'. split; [by right | done].
    + split; [done|]. exists c. split; [by right | done].
    + split; [done|]. exists c'. split; [by right | done].
Qed.

Lemma warn_entries_holds now entries b c :
  c ∈ entries → holds c b → ∃ c', c' ∈ (warn_entries now entries).2 ∧ holds c' b.
Proof.
  intros I H. induction entries as [|d rest IH]; [inversion I|]. simpl.
  destruct (_ && _); simpl.
  - apply elem_of_cons in I as [<-|I]; [eexists; split; [left | exact H]|].
    exists c. split; [by right | done].
  - destruct (warn_entries now rest) as [w es]. simpl in IH |- *.
    apply elem_of_cons in I as [<-|I]; [exists c; by split; [left|]|].
    destruct (IH I) as (c' & I' & H'). exists c'. split; [by right | done].
Qed.

(** * The calls of a tracker *)

Inductive CostOp :=
  | OpRecord (agent model : string) (inputTokens outputTokens : Z)
  | OpCheck (now : Z) (agent : string)
  | OpWarnings (now : Z) (agent : string)
  | OpReset.

Definition cost_step (ct : CostTracker) (op : CostOp) : CostTracker :=
  match op with
  | OpRecord agent model i o => (RecordUsage agent model i o ct).2
  | OpCheck now agent => (CostTracker_CheckBudget now agent ct).2
  | OpWarnings now agent => (CheckWarnings now agent ct).2
  | OpReset => ResetCosts ct
  end.

(** An entry of the agent is held like [b]. *)
Definition held (agent : string) (b : BudgetEntry) (ct : CostTracker) : Prop :=
  ∃ entries c, CT_budgets ct !! agent = Some entries ∧ c ∈ entries ∧ holds c b.

Lemma cost_step_held agent b ct op :
  (∀ now, op = OpCheck now agent → is_due now b = false) → held agent b ct → held agent b (cost_step ct op).
Proof.
  intros D (entries & c & E & I & Hc). destruct op as [a model i o|now a|now a|]; simpl.
  - destruct (decide (a = agent)) as [->|N].
    + eexists _, _. simpl. rewrite lookup_alter_eq, E. split; [done|].
      split; [apply list_elem_of_fmap_2, I | exact Hc].
    + exists entries, c. simpl. by rewrite lookup_alter_ne.
  - unfold CostTracker_CheckBudget. destruct (decide (a = agent)) as [->|N].
    + rewrite E. destruct (check_entries_holds agent now entries b c (D now eq_refl) I Hc) as [_ (c' & I' & H')].
      destruct (check_entries agent now entries) as [err es]. exists es, c'. simpl.
      by rewrite lookup_insert_eq.
    + destruct (CT_budgets ct !! a) as [es|]; [|by exists entries, c].
      destruct (check_entries a now es) as [err es']. exists entries, c. simpl. by rewrite lookup_insert_ne.
  - unfold CheckWarnings. destruct (decide (a = agent)) as [->|N].
    + rewrite E. destruct (warn_entries_holds now entries b c I Hc) as (c' & I' & H').
      destruct (warn_entries now entries) as [w es]. exists es, c'. simpl. by rewrite lookup_insert_eq.
    + destruct (CT_budgets ct !! a) as [es|]; [|by exists entries, c].
      destruct (warn_entries now es) as [w es']. exists entries, c. simpl. by rewrite lookup_insert_ne.
  - by exists entries, c.
Qed.

Lemma cost_run_held agent b ct ops :
  (∀ now, OpCheck now agent ∈ ops → is_due now b = false) → held agent b ct →
  held agent b (foldl cost_step ct ops).
Proof.
  revert ct. induction ops as [|op ops IH]; intros ct D Hd; [done|]. simpl. apply IH.
  - intros now I. apply D. by right.
  - apply cost_step_held; [|done]. intros now ->. apply D. left.
Qed.

Lemma held_rejected now agent b ct :
  held agent b ct → is_due now b = false → is_Some (CostTracker_CheckBudget now agent ct).1.
Proof.
  intros (entries & c & E & I & Hc) D. unfold CostTracker_CheckBudget. rewrite E.
  destruct (check_entries_holds agent now entries b c D I Hc) as [S _].
  by destruct (check_entries agent now entries).
Qed.

(** At the default rate a client that is turned away is told to wait 0 seconds. *)
Example default_retry_after : fmt_f0 (float_div (float_of_Z 1) (RequestsPerSecond DefaultRateLimitConfig)) = "0".
Proof. vm_compute. reflexivity. Qed.

(** * The next period *)

Lemma civil_year n y m d : 0 ≤ n ≤ 110000 → civil_of_day n = (y, m, d) → 0 ≤ y ≤ 9999.
Proof.
  intros B. destruct (civil_exists n) as (era & yoe & doy & [E Yb Db Cv]). rewrite Cv. cbv zeta.
  intros [= <- _ _]. assert (0 ≤ doy ≤ 366) by (revert Db; destruct (is_leap _); lia).
  assert (0 ≤ year_start yoe ≤ 146000) by (unfold year_start; clear Db Cv E; Z.to_euclidean_division_equations; lia).
  clear Db Cv. destruct (_ <=? 2); lia.
Qed.

(** The instants of a 64-bit time.Time.UnixNano, from 1970 on. *)
Definition in_range (now : Z) : Prop := 0 ≤ now < 2 ^ 63.

(** The reset of a period is a midnight after now, at most 31 days later. *)
Lemma nextReset_later now period :
  now < nextReset now period ∧ nextReset now period mod ns_per_day = 0 ∧
  nextReset now period / ns_per_day ≤ now / ns_per_day + 31.
Proof.
  unfold nextReset. destruct (civil_of_day (now / ns_per_day)) as [[y m] d] eqn:C.
  pose proof (civil_valid _ _ _ _ C) as [M _]. pose proof (day_of_parts _ _ _ _ C) as N.
  pose proof (next_month_later _ _ _ _ C) as L. pose proof (next_month_soon _ _ _ _ C) as U.
  assert (∀ day, now / ns_per_day < day → now < day * ns_per_day) as Up.
  { intros day. unfold ns_per_day, ns_per_second. Z.to_euclidean_division_equations. lia. }
  unfold Date. destruct (String.eqb period "monthly").
  - replace (m + 1 - 1) with m by lia. rewrite Z.mod_mul, Z.div_mul by done.
    split_and!; [by apply Up | done | exact U].
  - replace ((m - 1) / 12) with 0 by (Z.to_euclidean_division_equations; lia).
    rewrite (Z.mod_small (m - 1)) by lia. rewrite Z.add_0_r, Z.sub_add, Z.mod_mul, Z.div_mul by done.
    assert (day_of_civil y m (d + 1) = now / ns_per_day + 1) as -> by (unfold day_of_civil in *; lia).
    split_and!; [apply Up; lia | done | lia].
Qed.

(** The reset instant that is written is read back. *)
Lemma nextReset_read now period :
  in_range now → ParseRFC3339 (FormatRFC3339 (nextReset now period)) = Some (nextReset now period).
Proof.
  intros [L U]. destruct (nextReset_later now period) as (A & M & S).
  destruct (civil_of_day (nextReset now period / ns_per_day)) as [[y m] d] eqn:C.
  apply (Parse_Format _ _ _ _ C).
  - eapply civil_year; [|exact C].
    change (2 ^ 63) with 9223372036854775808 in U. unfold ns_per_day, ns_per_second in *.
    revert A M S. generalize (nextReset now period). intros r A M S.
    Z.to_euclidean_division_equations. lia.
  - revert M. generalize (nextReset now period). intros r. unfold ns_per_day, ns_per_second.
    Z.to_euclidean_division_equations. lia.
Qed.

Lemma check_budget_entries now agent ct :
  let r := check_entries agent now (default [] (CT_budgets ct !! agent)) in
  (CostTracker_CheckBudget now agent ct).1 = r.1 ∧
  default [] (CT_budgets (CostTracker_CheckBudget now agent ct).2 !! agent) = r.2.
Proof.
  unfold CostTracker_CheckBudget. destruct (CT_budgets ct !! agent) as [entries|] eqn:E; simpl; [|by rewrite E].
  destruct (check_entries agent now entries) as [err es]. simpl. split; [done|].
  by rewrite lookup_insert_eq.
Qed.

(** * What a budget promises *)

(** The reset instant of an entry has passed. *)
Definition overdue (now : Z) (b : BudgetEntry) : Prop :=
  ∃ t, ParseRFC3339 (BudgetEntry_ResetAt b) = Some t ∧ t < now.

(** The midnight that ends the day or the month of an instant. *)
Definition period_end (now : Z) (period : string) : Z :=
  let today := now / ns_per_day in
  let '(y, m, _) := civil_of_day today in
  (if String.eqb period "monthly" then day_of_civil (y + m / 12) (m mod 12 + 1) 1 else today + 1) * ns_per_day.

(** What an amount of tokens costs, at a price for a million. *)
Definition dollars (model : string) (inputTokens outputTokens : Z) : float64 :=
  float_add
    (float_mul (float_div (float_of_Z inputTokens) (float_of_Z 1000000)) (LookupPrice model).1)
    (float_mul (float_div (float_of_Z outputTokens) (float_of_Z 1000000)) (LookupPrice model).2).

(** What a check does to an entry that lets the agent pass. *)
Definition renewed (now : Z) (b b' : BudgetEntry) : Prop :=
  (overdue now b → b' = mkBudgetEntry (BudgetEntry_AgentName b) (BudgetEntry_Period b) (BudgetEntry_LimitDollars b)
     float_zero (FormatRFC3339 (period_end now (BudgetEntry_Period b))) false "") ∧
  (¬ overdue now b →
     BudgetEntry_Paused b = false ∧ float_le (BudgetEntry_LimitDollars b) (BudgetEntry_UsedDollars b) = false ∧ b' = b).

Lemma is_due_overdue now b : is_due now b = true ↔ overdue now b.
Proof.
  unfold is_due, overdue. destruct (ParseRFC3339 (BudgetEntry_ResetAt b)) as [t|].
  - rewrite Z.ltb_lt. split; [by exists t | by intros (t' & [= ->] & L)].
  - split; [done | by intros (t & [=] & _)].
Qed.

Lemma not_overdue now b : is_due now b = false ↔ ¬ overdue now b.
Proof. rewrite <- is_due_overdue. by destruct (is_due now b). Qed.

Lemma nextReset_end now period : nextReset now period = period_end now period.
Proof.
  unfold nextReset, period_end. destruct (civil_of_day (now / ns_per_day)) as [[y m] d] eqn:C.
  pose proof (civil_valid _ _ _ _ C) as [M _]. pose proof (day_of_parts _ _ _ _ C) as N. unfold Date.
  destruct (String.eqb period "monthly"); [by replace (m + 1 - 1) with m by lia|].
  replace ((m - 1) / 12) with 0 by (Z.to_euclidean_division_equations; lia).
  rewrite (Z.mod_small (m - 1)) by lia. rewrite Z.add_0_r, Z.sub_add. f_equal. unfold day_of_civil in *. lia.
Qed.

Lemma reset_renewed now b : is_due now b = true → renewed now b (reset_entry now b).
Proof.
  intros D. apply is_due_overdue in D. split; [|done]. intros _. unfold reset_entry. simpl. by rewrite nextReset_end.
Qed.

Lemma kept_renewed now b : is_due now b = false → is_over b = false → renewed now b b.
Proof.
  intros D%not_overdue O. split; [done|]. intros _. unfold is_over in O. apply orb_false_iff in O as [O1 O2]. done.
Qed.

(** A check stops at an entry, or renews them all. *)
Lemma check_entries_result agent now entries :
  (∃ entries', check_entries agent now entries = (None, entries') ∧ Forall2 (renewed now) entries entries') ∨
  (∃ pre pre' b post, entries = pre ++ b :: post ∧ Forall2 (renewed now) pre pre' ∧
     is_due now b = false ∧ is_over b = true ∧
     check_entries agent now entries =
       (Some (budget_error agent b), pre' ++ b <| BudgetEntry_Paused := true |> :: post)).
Proof.
  induction entries as [|b rest IH]; [left; by exists []|]. simpl.
  assert (∀ b', renewed now b b' →
    (∃ entries', (let '(err, es) := check_entries agent now rest in (err, b' :: es)) = (None, entries') ∧
       Forall2 (renewed now) (b :: rest) entries') ∨
    (∃ pre pre' c post, b :: rest = pre ++ c :: post ∧ Forall2 (renewed now) pre pre' ∧
       is_due now c = false ∧ is_over c = true ∧
       (let '(err, es) := check_entries agent now rest in (err, b' :: es)) =
         (Some (budget_error agent c), pre' ++ c <| BudgetEntry_Paused := true |> :: post))) as K.
  { intros b' R. destruct IH as [(es & -> & F)|(pre & pre' & c & post & -> & F & D & O & ->)].
    - left. exists (b' :: es). split; [done|]. by constructor.
    - right. exists (b :: pre), (b' :: pre'), c, post. split_and!; [done | by constructor | done..]. }
  destruct (is_due now b) eqn:D; [apply K, reset_renewed, D|].
  destruct (is_over b) eqn:O; [|by apply K, kept_renewed].
  right. exists [], [], b, rest. by split_and!.
Qed.

(** A usage is charged to the agent, and to each of its budgets. *)
Lemma RecordUsage_charges agent a model i o ct :
  let ct' := (RecordUsage a model i o ct).2 in
  GetAgentCost agent ct' =
    (if String.eqb a agent then float_add (GetAgentCost agent ct) (dollars model i o) else GetAgentCost agent ct) ∧
  default [] (CT_budgets ct' !! agent) =
    (if String.eqb a agent
     then map (λ b, mkBudgetEntry (BudgetEntry_AgentName b) (BudgetEntry_Period b) (BudgetEntry_LimitDollars b)
            (float_add (BudgetEntry_UsedDollars b) (dollars model i o)) (BudgetEntry_ResetAt b)
            (BudgetEntry_Paused b) (BudgetEntry_WarnedAt b)) (default [] (CT_budgets ct !! agent))
     else default [] (CT_budgets ct !! agent)).
Proof.
  cbv zeta. assert (usage_cost model i o = dollars model i o) as E.
  { unfold usage_cost, dollars. by destruct (LookupPrice model). }
  unfold RecordUsage, GetAgentCost. simpl. rewrite E. destruct (String.eqb_spec a agent) as [->|N].
  - rewrite lookup_insert_eq, lookup_alter_eq. split; [done|]. by destruct (CT_budgets ct !! agent).
  - by rewrite lookup_insert_ne, lookup_alter_ne.
Qed.

(** C32. A budget holds. A use of a model is charged, by the price of its tokens,
    to the total of the agent and to the amount used of each of its budgets, and
    to no other agent. CheckBudget lets an agent pass exactly when each of its
    entries is overdue for a reset, or neither paused nor used up to its limit;
    then the entries overdue start again from nothing, not paused, until the end
    of the day or month, and the others stay. Otherwise it reports the first
    entry that is used up, with its amounts, and pauses it; and from then on it
    rejects the agent at every check, whatever is recorded in between, until the
    reset instant of that entry has passed. *)
Theorem budget_exact now agent ct :
  let budgets ct := default [] (CT_budgets ct !! agent) in
  let err := (CostTracker_CheckBudget now agent ct).1 in
  let ct' := (CostTracker_CheckBudget now agent ct).2 in
  (∀ a model i o, let ct1 := (RecordUsage a model i o ct).2 in
     GetAgentCost agent ct1 =
       (if String.eqb a agent then float_add (GetAgentCost agent ct) (dollars model i o) else GetAgentCost agent ct) ∧
     budgets ct1 =
       (if String.eqb a agent
        then map (λ b, mkBudgetEntry (BudgetEntry_AgentName b) (BudgetEntry_Period b) (BudgetEntry_LimitDollars b)
               (float_add (BudgetEntry_UsedDollars b) (dollars model i o)) (BudgetEntry_ResetAt b)
               (BudgetEntry_Paused b) (BudgetEntry_WarnedAt b)) (budgets ct)
        else budgets ct)) ∧
  (err = None ↔ ∀ b, b ∈ budgets ct → overdue now b ∨
     (BudgetEntry_Paused b = false ∧ float_le (BudgetEntry_LimitDollars b) (BudgetEntry_UsedDollars b) = false)) ∧
  (err = None → Forall2 (renewed now) (budgets ct) (budgets ct')) ∧
  (is_Some err → ∃ pre pre' b post, budgets ct = pre ++ b :: post ∧ Forall2 (renewed now) pre pre' ∧
     ¬ overdue now b ∧
     (BudgetEntry_Paused b = true ∨ float_le (BudgetEntry_LimitDollars b) (BudgetEntry_UsedDollars b) = true) ∧
     err = Some ("agent '" +:+ agent +:+ "' " +:+ BudgetEntry_Period b +:+ " budget of $" +:+
       fmt_fixed 2 (BudgetEntry_LimitDollars b) +:+ " exceeded (used: $" +:+
       fmt_fixed 2 (BudgetEntry_UsedDollars b) +:+ "), resets at " +:+ BudgetEntry_ResetAt b) ∧
     budgets ct' = pre' ++ mkBudgetEntry (BudgetEntry_AgentName b) (BudgetEntry_Period b)
       (BudgetEntry_LimitDollars b) (BudgetEntry_UsedDollars b) (BudgetEntry_ResetAt b) true
       (BudgetEntry_WarnedAt b) :: post ∧
     ∀ ops later, (∀ t, OpCheck t agent ∈ ops → ¬ overdue t b) → ¬ overdue later b →
       is_Some (CostTracker_CheckBudget later agent (foldl cost_step ct' ops)).1) ∧
  (∀ b t, in_range now → BudgetEntry_ResetAt b = FormatRFC3339 (period_end now (BudgetEntry_Period b)) →
     now < period_end now (BudgetEntry_Period b) ∧ (overdue t b ↔ period_end now (BudgetEntry_Period b) < t)).
Proof.
  cbv zeta. split; [intros a model i o; apply RecordUsage_charges|].
  destruct (check_budget_entries now agent ct) as [-> Es].
  remember (default [] (CT_budgets ct !! agent)) as entries eqn:E.
  assert (∀ b, is_over b = false ↔ BudgetEntry_Paused b = false ∧
    float_le (BudgetEntry_LimitDollars b) (BudgetEntry_UsedDollars b) = false) as Ov.
  { intros b. unfold is_over. apply orb_false_iff. }
  split_and!.
  - rewrite check_entries_pass. by setoid_rewrite is_due_overdue; setoid_rewrite Ov.
  - rewrite Es. destruct (check_entries_result agent now entries)
      as [(es & -> & F)|(pre & pre' & b & post & _ & _ & _ & _ & ->)]; done.
  - rewrite Es. destruct (check_entries_result agent now entries)
      as [(es & -> & F)|(pre & pre' & b & post & Ep & F & D & O & Ec)]; [by intros [? [=]]|].
    intros _. exists pre, pre', b, post. rewrite Ec in Es |- *. split_and!; try done.
    + by apply not_overdue.
    + unfold is_over in O. by apply orb_true_iff in O.
    + intros ops later Ds Dl. apply (held_rejected later agent b); [|by apply not_overdue].
      apply cost_run_held; [intros t I; by apply not_overdue, Ds|].
      destruct (CT_budgets (CostTracker_CheckBudget now agent ct).2 !! agent) as [es|] eqn:Q; simpl in Es.
      * exists es, (b <| BudgetEntry_Paused := true |>). subst es.
        split_and!; [done | apply elem_of_app; right; left | by split].
      * by destruct pre'.
  - intros b t R Eb. pose proof (nextReset_read now (BudgetEntry_Period b) R) as P.
    rewrite nextReset_end, <- Eb in P. rewrite <- nextReset_end in P |- *. split; [apply nextReset_later|].
    unfold overdue. rewrite P. split; [by intros (t' & [= <-] & L)|]. intros L. by eexists.
Qed.

(** A budget of a dollar that is used up is rejected until it is reset. *)
Example budget_resets :
  let b := mkBudgetEntry "bot" "daily" (float_of_Z 1) (float_of_Z 2) "2024-03-01T00:00:00Z" false "" in
  let ct := NewCostTracker [b] in
  let noon := Date 2024 2 29 + 43200 * ns_per_second in
  let '(e1, ct1) := CostTracker_CheckBudget noon "bot" ct in
  let '(e2, ct2) := CostTracker_CheckBudget (noon + ns_per_day) "bot" ct1 in
  is_Some e1 ∧ e2 = None ∧
  BudgetEntry_ResetAt <$> default [] (CT_budgets ct2 !! "bot") = ["2024-03-02T00:00:00Z"].
Proof. vm_compute. split_and!; [eexists; reflexivity | reflexivity..]. Qed.
