(* ===== verification/Metrics.v ===== *)
(** The metrics of the runtime server (internal/telemetry/metrics.go): counters
    and histograms of invocations, and the page that exposes them.

    Each operation holds the lock of the metrics and is one step. Durations are
    nanoseconds; the counters are int64, whose sums wrap around. *)
From S2P Require Import Prelude GoStd GoTime GoMaps.
Open Scope Z_scope.

(** * Histograms *)

Record histogram := mkHistogram {
  H_counts : list Z;   (** one per bucket, and one for +Inf *)
  H_sum : float64;
  H_count : Z;
}.

Definition defaultBuckets : list float64 :=
  [decimal 1 1; decimal 25 2; decimal 5 1; float_of_Z 1; decimal 25 1; float_of_Z 5; float_of_Z 10;
   float_of_Z 30; float_of_Z 60].

Definition newHistogram : histogram :=
  mkHistogram (replicate (length defaultBuckets + 1) 0) float_zero 0.

(** The loop of observe over the buckets, and the last count. *)
Fixpoint observe_counts (value : float64) (buckets : list float64) (counts : list Z) : list Z :=
  match buckets, counts with
  | b :: buckets, c :: counts => (if float_le value b then wrap64 (c + 1) else c) :: observe_counts value buckets counts
  | [], c :: counts => wrap64 (c + 1) :: counts
  | _, [] => []
  end.

Definition observe (value : float64) (h : histogram) : histogram :=
  mkHistogram (observe_counts value defaultBuckets (H_counts h)) (float_add (H_sum h) value) (wrap64 (H_count h + 1)).

(** * Recording *)

(** Metrics collects Prometheus-style metrics for the runtime. *)
Record Metrics := mkMetrics {
  invocationsTotal : gmap string Z;         (** key: agent,status *)
  tokensTotal : gmap string Z;              (** key: agent,type *)
  toolCallsTotal : gmap string Z;           (** key: agent,tool,status *)
  costTotal : gmap string float64;          (** key: agent,model *)
  budgetUsage : gmap string float64;        (** key: agent,period *)
  fallbackTotal : gmap string Z;            (** key: agent,from_model,to_model *)
  guardrailViolations : gmap string Z;      (** key: agent,guardrail,mode *)
  invocationDurations : gmap string histogram;
}.

Global Instance settable_Metrics : Settable Metrics := λ m,
  mkMetrics (invocationsTotal m) (tokensTotal m) (toolCallsTotal m) (costTotal m) (budgetUsage m)
    (fallbackTotal m) (guardrailViolations m) (invocationDurations m).

Definition NewMetrics : Metrics := mkMetrics ∅ ∅ ∅ ∅ ∅ ∅ ∅ ∅.

(** [m[key] += n], on an int64 *)
Definition add_to (key : string) (n : Z) (m : gmap string Z) : gmap string Z :=
  <[key := wrap64 (default 0 (m !! key) + n)]> m.

Definition key2 (a b : string) : string := a +:+ "," +:+ b.
Definition key3 (a b c : string) : string := a +:+ "," +:+ b +:+ "," +:+ c.

(** RecordInvocation records a completed agent invocation. *)
Definition RecordInvocation (agent model status : string) (duration inputTokens outputTokens : Z)
    (m : Metrics) : Metrics :=
  let h := default newHistogram (invocationDurations m !! agent) in
  m <| invocationsTotal := add_to (key2 agent status) 1 (invocationsTotal m) |>
    <| invocationDurations := <[agent := observe (Seconds duration) h]> (invocationDurations m) |>
    <| tokensTotal :=
         add_to (key3 agent model "output") outputTokens
           (add_to (key3 agent model "input") inputTokens
             (add_to (key2 agent "output") outputTokens
               (add_to (key2 agent "input") inputTokens (tokensTotal m)))) |>.

(** RecordToolCall records a tool call. *)
Definition RecordToolCall (agent tool status : string) (m : Metrics) : Metrics :=
  m <| toolCallsTotal := add_to (key3 agent tool status) 1 (toolCallsTotal m) |>.

(** RecordCost increments the cost counter for an agent and model. *)
Definition RecordCost (agent model : string) (cost : float64) (m : Metrics) : Metrics :=
  let key := key2 agent model in
  m <| costTotal := <[key := float_add (default float_zero (costTotal m !! key)) cost]> (costTotal m) |>.

(** SetBudgetUsage sets the budget usage gauge for an agent and period. *)
Definition SetBudgetUsage (agent period : string) (ratio : float64) (m : Metrics) : Metrics :=
  m <| budgetUsage := <[key2 agent period := ratio]> (budgetUsage m) |>.

(** RecordFallback increments the fallback counter. *)
Definition RecordFallback (agent fromModel toModel : string) (m : Metrics) : Metrics :=
  m <| fallbackTotal := add_to (key3 agent fromModel toModel) 1 (fallbackTotal m) |>.

(** RecordGuardrailViolation increments the guardrail violations counter. *)
Definition RecordGuardrailViolation (agent guardrail mode : string) (m : Metrics) : Metrics :=
  m <| guardrailViolations := add_to (key3 agent guardrail mode) 1 (guardrailViolations m) |>.

(** * The page *)

Section page.
Context `{GoRuntime}.

(** strings.SplitN, for n >= 1 *)
Fixpoint SplitN (n : nat) (s sep : string) : list string :=
  match n with
  | S (S _ as n) =>
      match SplitN2 s sep with
      | [a; rest] => a :: SplitN n rest sep
      | l => l
      end
  | _ => [s]
  end.

(** sortedKeys, and sortedMapKeys *)
Definition sorted_keys {V} (m : gmap string V) : list string := sort_strings (map_range m).*1.

(** One line: the %q verb on each label. *)
Definition sample (metric : string) (labels : list (string * string)) (value : string) : string :=
  metric +:+ "{" +:+ Join ((λ '(k, v), k +:+ "=" +:+ quote v) <$> labels) "," +:+ "} " +:+ value +:+ nl.

Definition family (metric help type : string) : string :=
  "# HELP " +:+ metric +:+ " " +:+ help +:+ nl +:+ "# TYPE " +:+ metric +:+ " " +:+ type +:+ nl.

(** The line of a key: [None] for the panic of an index out of range. *)
Definition key_line {V} (metric : string) (names : list string) (print : V → string) (m : gmap string V)
    (key : string) : option string :=
  let parts := SplitN (length names) key "," in
  if (length parts <? length names)%nat then None
  else (λ v, sample metric (zip names parts) (print v)) <$> m !! key.

(** The lines of a counter or gauge, a line per key. *)
Definition key_lines {V} (metric : string) (names : list string) (print : V → string) (m : gmap string V) :
    option (list string) :=
  mapM (key_line metric names print m) (sorted_keys m).

(** The values of the buckets of a histogram: the running sum of its counts. *)
Fixpoint running (cumulative : Z) (counts : list Z) : list Z :=
  match counts with
  | [] => []
  | c :: counts => wrap64 (cumulative + c) :: running (wrap64 (cumulative + c)) counts
  end.

(** The lines of a histogram. The verbs %.3g and %g agree on the bounds. *)
Definition histogram_lines (agent : string) (h : histogram) : list string :=
  let metric := "agentspec_invocation_duration_seconds" in
  let bounds := (fmt_g <$> defaultBuckets) ++ ["+Inf"] in
  ((λ '(le, n), sample (metric +:+ "_bucket") [("agent", agent); ("le", le)] (pretty n)) <$>
    zip bounds (running 0 (H_counts h))) ++
  [sample (metric +:+ "_sum") [("agent", agent)] (fmt_fixed 6 (H_sum h));
   sample (metric +:+ "_count") [("agent", agent)] (pretty (H_count h))].

Definition all_histograms (m : Metrics) : list string :=
  concat ((λ agent, match invocationDurations m !! agent with
                    | Some h => histogram_lines agent h | None => [] end) <$>
    sorted_keys (invocationDurations m)).

(** The body that Handler writes. *)
Definition Metrics_Handler (m : Metrics) : option string :=
  let text := String.concat "" in
  invocations ← key_lines "agentspec_invocations_total" ["agent"; "status"] pretty (invocationsTotal m);
  tokens ← key_lines "agentspec_tokens_total" ["agent"; "type"] pretty (tokensTotal m);
  calls ← key_lines "agentspec_tool_calls_total" ["agent"; "tool"; "status"] pretty (toolCallsTotal m);
  costs ← key_lines "agentspec_cost_dollars_total" ["agent"; "model"] fmt_g (costTotal m);
  budgets ← key_lines "agentspec_budget_usage_ratio" ["agent"; "period"] fmt_g (budgetUsage m);
  fallbacks ← key_lines "agentspec_fallback_total" ["agent"; "from_model"; "to_model"] pretty (fallbackTotal m);
  violations ← key_lines "agentspec_guardrail_violations_total" ["agent"; "guardrail"; "mode"] pretty
    (guardrailViolations m);
  Some (
    family "agentspec_invocations_total" "Total agent invocations" "counter" +:+ text invocations +:+ nl +:+
    family "agentspec_invocation_duration_seconds" "Invocation duration" "histogram" +:+
      text (all_histograms m) +:+ nl +:+
    family "agentspec_tokens_total" "Tokens consumed" "counter" +:+ text tokens +:+ nl +:+
    family "agentspec_tool_calls_total" "Tool call count" "counter" +:+ text calls +:+ nl +:+
    family "agentspec_cost_dollars_total" "Total cost in dollars" "counter" +:+ text costs +:+ nl +:+
    family "agentspec_budget_usage_ratio" "Budget usage ratio" "gauge" +:+ text budgets +:+ nl +:+
    family "agentspec_fallback_total" "Total model fallbacks" "counter" +:+ text fallbacks +:+ nl +:+
    family "agentspec_guardrail_violations_total" "Total guardrail violations" "counter" +:+ text violations).
End page.

(** * Splitting keys *)

Fixpoint commas (s : string) : nat :=
  match s with
  | EmptyString => 0
  | String c s => (if Ascii.eqb c "," then 1 else 0) + commas s
  end.

Lemma commas_app s t : commas (s +:+ t) = (commas s + commas t)%nat.
Proof. induction s as [|c s IH]; simpl; [done|]. rewrite IH. lia. Qed.

Lemma no_comma s : commas s = 0%nat → ∀ u v, s ≠ u +:+ "," +:+ v.
Proof. intros N u v ->. rewrite !commas_app in N. simpl in N. lia. Qed.

Lemma SplitN2_first u v : commas u = 0%nat → SplitN2 (u +:+ "," +:+ v) "," = [u; v].
Proof.
  intros N. unfold SplitN2. assert (Index (u +:+ "," +:+ v) "," = Some (String.length u)) as ->.
  - apply Index_first. split; [by exists u, v|]. intros u' v' E.
    destruct (le_lt_dec (String.length u) (String.length u')) as [|L]; [done|]. exfalso.
    revert u' E L. induction u as [|c u IH]; intros [|c' u'] E L; simpl in L; try lia.
    + injection E as -> _. simpl in N. lia.
    + injection E as -> E. apply (IH ltac:(cbn [commas] in N; lia) u' E). lia.
  - clear N. induction u as [|c u IH]; [done|].
    simpl in IH |- *. injection IH as E1 E2. by rewrite E1, E2.
Qed.

Lemma SplitN2_no_comma s : commas s = 0%nat → SplitN2 s "," = [s].
Proof.
  intros N. unfold SplitN2. destruct (Index s ",") as [i|] eqn:I; [|done].
  apply Index_Some in I as [(u & v & E & _) _]. by destruct (no_comma s N u v).
Qed.

Lemma first_comma s : commas s = 0%nat ∨ ∃ u v, s = u +:+ "," +:+ v ∧ commas u = 0%nat.
Proof.
  induction s as [|c s IH]; [by left|]. cbn [commas]. destruct (Ascii.eqb_spec c ",") as [->|N].
  - right. by exists "", s.
  - destruct IH as [->|(u & v & -> & E)]; [by left|]. right. exists (String c u), v. split; [done|].
    cbn [commas]. by apply Ascii.eqb_neq in N as ->.
Qed.

Lemma length_SplitN n s : length (SplitN (S n) s ",") = Nat.min (S n) (S (commas s)).
Proof.
  revert s. induction n as [|n IH]; intros s; [simpl; lia|].
  change (SplitN (S (S n)) s ",") with
    (match SplitN2 s "," with [a; rest] => a :: SplitN (S n) rest "," | l => l end).
  destruct (first_comma s) as [N|(u & v & -> & N)].
  - rewrite SplitN2_no_comma, N by done. simpl. lia.
  - rewrite SplitN2_first by done. cbn [length]. rewrite IH, !commas_app, N. change (commas ",") with 1%nat. lia.
Qed.

Lemma SplitN_key2 a b : commas a = 0%nat → SplitN 2 (key2 a b) "," = [a; b].
Proof. intros N. unfold key2. cbn [SplitN]. by rewrite SplitN2_first. Qed.

Lemma SplitN_key3 a b c : commas a = 0%nat → commas b = 0%nat → SplitN 3 (key3 a b c) "," = [a; b; c].
Proof. intros Na Nb. unfold key3. cbn [SplitN]. by rewrite SplitN2_first, SplitN2_first. Qed.

(** * What is recorded *)

(** The calls that record. *)
Inductive Recorded :=
  | Invoked (agent model status : string) (duration inputTokens outputTokens : Z)
  | ToolCalled (agent tool status : string)
  | Costed (agent model : string) (cost : float64)
  | Budgeted (agent period : string) (ratio : float64)
  | FellBack (agent fromModel toModel : string)
  | Violated (agent guardrail mode : string).

Definition record (m : Metrics) (r : Recorded) : Metrics :=
  match r with
  | Invoked agent model status d i o => RecordInvocation agent model status d i o m
  | ToolCalled agent tool status => RecordToolCall agent tool status m
  | Costed agent model cost => RecordCost agent model cost m
  | Budgeted agent period ratio => SetBudgetUsage agent period ratio m
  | FellBack agent from to => RecordFallback agent from to m
  | Violated agent guardrail mode => RecordGuardrailViolation agent guardrail mode m
  end.

Definition records : list Recorded → Metrics := foldl record NewMetrics.

(** What a call adds to each counter. *)
Definition invocation_amounts (r : Recorded) : list (string * Z) :=
  match r with Invoked agent _ status _ _ _ => [(key2 agent status, 1)] | _ => [] end.
Definition token_amounts (r : Recorded) : list (string * Z) :=
  match r with
  | Invoked agent model _ _ i o =>
      [(key2 agent "input", i); (key2 agent "output", o); (key3 agent model "input", i);
       (key3 agent model "output", o)]
  | _ => []
  end.
Definition call_amounts (r : Recorded) : list (string * Z) :=
  match r with ToolCalled agent tool status => [(key3 agent tool status, 1)] | _ => [] end.
Definition fallback_amounts (r : Recorded) : list (string * Z) :=
  match r with FellBack agent from to => [(key3 agent from to, 1)] | _ => [] end.
Definition violation_amounts (r : Recorded) : list (string * Z) :=
  match r with Violated agent guardrail mode => [(key3 agent guardrail mode, 1)] | _ => [] end.

(** The sum of what is added under a key; [None] when nothing was. *)
Definition total (amounts : Recorded → list (string * Z)) (rs : list Recorded) (key : string) : option Z :=
  match List.filter (λ kn, String.eqb kn.1 key) (concat (map amounts rs)) with
  | [] => None
  | l => Some (foldr (λ kn acc, kn.2 + acc) 0 l)
  end.

(** The sum of the costs under a key, in the order they were recorded. *)
Definition cost_under (rs : list Recorded) (key : string) : option float64 :=
  match concat (map (λ r, match r with
    | Costed agent model c => if String.eqb (key2 agent model) key then [c] else []
    | _ => [] end) rs) with
  | [] => None
  | costs => Some (foldl float_add float_zero costs)
  end.

(** The last usage ratio that was set under a key. *)
Definition ratio_under (rs : list Recorded) (key : string) : option float64 :=
  last (concat (map (λ r, match r with
    | Budgeted agent period ratio => if String.eqb (key2 agent period) key then [ratio] else []
    | _ => [] end) rs)).

(** The durations recorded for an agent, in seconds. *)
Definition durations (agent : string) (rs : list Recorded) : list float64 :=
  concat (map (λ r, match r with
    | Invoked a _ _ d _ _ => if String.eqb a agent then [Seconds d] else []
    | _ => [] end) rs).

(** How many values are at most a bound. *)
Definition at_most (values : list float64) (b : float64) : Z :=
  Z.of_nat (length (List.filter (λ v, float_le v b) values)).

(** The histogram of some values. *)
Definition histogram_of (values : list float64) : histogram :=
  mkHistogram ((wrap64 ∘ at_most values <$> defaultBuckets) ++ [wrap64 (Z.of_nat (length values))])
    (foldl float_add float_zero values) (wrap64 (Z.of_nat (length values))).

Definition sum_Z : list Z → Z := foldr Z.add 0.

Definition add_all (l : list (string * Z)) (m : gmap string Z) : gmap string Z :=
  foldl (λ m kn, add_to kn.1 kn.2 m) m l.

Lemma add_all_app l1 l2 m : add_all (l1 ++ l2) m = add_all l2 (add_all l1 m).
Proof. apply foldl_app. Qed.

Lemma lookup_add_all l m key :
  add_all l m !! key =
  match List.filter (λ kn, String.eqb kn.1 key) l with
  | [] => m !! key
  | l' => Some (wrap64 (default 0 (m !! key) + foldr (λ kn acc, kn.2 + acc) 0 l'))
  end.
Proof.
  revert m. induction l as [|[k n] l IH]; intros m; [done|].
  change (add_all ((k, n) :: l) m) with (add_all l (add_to k n m)). rewrite IH. cbn [List.filter fst].
  unfold add_to. destruct (String.eqb_spec k key) as [->|N].
  - rewrite lookup_insert_eq. destruct (List.filter _ l) as [|x l']; simpl; f_equal.
    + by rewrite Z.add_0_r.
    + rewrite wrap64_add_l. f_equal. lia.
  - by rewrite lookup_insert_ne.
Qed.

(** A counter that each call adds its amounts to. *)
Lemma total_records (f : Metrics → gmap string Z) amounts rs key :
  f NewMetrics = ∅ → (∀ m r, f (record m r) = add_all (amounts r) (f m)) →
  f (records rs) !! key = wrap64 <$> total amounts rs key.
Proof.
  intros Z S. assert (∀ m, f (foldl record m rs) = add_all (concat (map amounts rs)) (f m)) as E.
  { induction rs as [|r rs IH]; intros m; [done|]. cbn [foldl map concat]. by rewrite IH, S, add_all_app. }
  unfold records, total. rewrite E, lookup_add_all, Z, lookup_empty. by destruct (List.filter _ _).
Qed.

(** * Histograms of what was recorded *)

Lemma observe_true_counts v values buckets n :
  observe_counts v buckets ((wrap64 ∘ at_most values <$> buckets) ++ [wrap64 n]) =
  (wrap64 ∘ at_most (values ++ [v]) <$> buckets) ++ [wrap64 (n + 1)].
Proof.
  induction buckets as [|b buckets IH]; [cbn; by rewrite wrap64_add_l|].
  cbn [fmap list_fmap app observe_counts]. rewrite IH. f_equal.
  unfold compose, at_most. rewrite List.filter_app, length_app. simpl.
  destruct (float_le v b); simpl; rewrite ?wrap64_add_l; f_equal; lia.
Qed.

Lemma observe_histogram v values : observe v (histogram_of values) = histogram_of (values ++ [v]).
Proof.
  unfold observe, histogram_of. cbn [H_counts H_sum H_count]. rewrite observe_true_counts, length_app, foldl_app.
  by rewrite wrap64_add_l, Nat2Z.inj_add.
Qed.

Lemma newHistogram_of : newHistogram = histogram_of [].
Proof. reflexivity. Qed.

Lemma durations_snoc agent rs r :
  durations agent (rs ++ [r]) = durations agent rs ++ durations agent [r].
Proof. unfold durations. by rewrite map_app, concat_app. Qed.

(** The histogram of an agent is that of the durations recorded for it. *)
Lemma lookup_durations agent rs :
  invocationDurations (records rs) !! agent =
  match durations agent rs with [] => None | ds => Some (histogram_of ds) end.
Proof.
  induction rs as [|r rs IH] using rev_ind; [done|].
  unfold records in *. rewrite foldl_snoc, durations_snoc.
  destruct r as [a model status d i o|a tool status|a model c|a p q|a x y|a x y]; cbn -[Seconds newHistogram];
    try (by rewrite app_nil_r, IH).
  destruct (String.eqb_spec a agent) as [->|N]; cbn -[Seconds newHistogram].
  - rewrite lookup_insert_eq, IH. destruct (durations agent rs) as [|v ds].
    + cbn -[Seconds newHistogram]. by rewrite newHistogram_of, observe_histogram.
    + simpl default. by rewrite observe_histogram.
  - by rewrite lookup_insert_ne, app_nil_r, IH by done.
Qed.

Lemma lookup_costs rs key : costTotal (records rs) !! key = cost_under rs key.
Proof.
  induction rs as [|r rs IH] using rev_ind; [done|].
  unfold records, cost_under in *. rewrite foldl_snoc, map_app, concat_app.
  destruct r as [a model status d i o|a tool status|a model c|a p q|a x y|a x y]; cbn [map concat app];
    try (by rewrite app_nil_r; exact IH).
  simpl costTotal. destruct (String.eqb_spec (key2 a model) key) as [E|N].
  - rewrite E. rewrite lookup_insert_eq, IH. destruct (concat _) as [|c0 cs]; [done|]. simpl default. cbn [app].
    by rewrite app_comm_cons, foldl_app.
  - rewrite lookup_insert_ne by done. rewrite !app_nil_r. exact IH.
Qed.

Lemma lookup_ratios rs key : budgetUsage (records rs) !! key = ratio_under rs key.
Proof.
  induction rs as [|r rs IH] using rev_ind; [done|].
  unfold records, ratio_under in *. rewrite foldl_snoc, map_app, concat_app.
  destruct r as [a model status d i o|a tool status|a model c|a p q|a x y|a x y]; cbn [map concat app];
    try (by rewrite app_nil_r; exact IH).
  simpl budgetUsage. destruct (String.eqb_spec (key2 a p) key) as [E|N].
  - rewrite E, lookup_insert_eq. cbn [app]. by rewrite last_snoc.
  - rewrite lookup_insert_ne by done. rewrite !app_nil_r. exact IH.
Qed.

(** The running value at an index is the sum up to it. *)
Lemma lookup_running c counts i : (i < length counts)%nat →
  running (wrap64 c) counts !! i = Some (wrap64 (c + sum_Z (take (S i) counts))).
Proof.
  revert c i. induction counts as [|n counts IH]; intros c i L; simpl in L; [lia|].
  cbn [running]. rewrite wrap64_add_l. destruct i as [|i]; simpl.
  - by rewrite Z.add_0_r.
  - rewrite IH by lia. f_equal. f_equal. change (sum_Z (n :: take (S i) counts)) with (n + sum_Z (take (S i) counts)). lia.
Qed.

Lemma sum_Z_app l1 l2 : sum_Z (l1 ++ l2) = sum_Z l1 + sum_Z l2.
Proof. induction l1 as [|x l1 IH]; simpl; [done|]. unfold sum_Z in *. simpl. lia. Qed.

(** Sums of int64s agree with the sums of what they are. *)
Lemma wrap64_sum c l : wrap64 (c + sum_Z (wrap64 <$> l)) = wrap64 (c + sum_Z l).
Proof.
  revert c. induction l as [|x l IH]; intros c; [done|]. simpl.
  change (sum_Z (wrap64 x :: _)) with (wrap64 x + sum_Z (wrap64 <$> l)). change (sum_Z (x :: l)) with (x + sum_Z l).
  rewrite !Z.add_assoc, IH, !(Z.add_comm _ (sum_Z l)), <- (wrap64_add_r (sum_Z l) (c + wrap64 x)).
  by rewrite (wrap64_add_r c x), wrap64_add_r.
Qed.

(** * The page never panics *)

Definition keyed {V} (n : nat) (m : gmap string V) : Prop := ∀ k, is_Some (m !! k) → (n ≤ commas k)%nat.

Lemma keyed_insert {V} n k (x : V) m : keyed n m → (n ≤ commas k)%nat → keyed n (<[k := x]> m).
Proof. intros K L k' [y E]. apply lookup_insert_Some in E as [[<- _]|[_ E]]; [done|]. by apply K. Qed.

Lemma commas_key2 a b : (1 ≤ commas (key2 a b))%nat.
Proof. unfold key2. rewrite !commas_app. simpl. lia. Qed.

Lemma commas_key3 a b c : (2 ≤ commas (key3 a b c))%nat.
Proof. unfold key3. rewrite !commas_app. simpl. lia. Qed.

Record page_wf (m : Metrics) : Prop := {
  wf_invocations : keyed 1 (invocationsTotal m);
  wf_tokens : keyed 1 (tokensTotal m);
  wf_calls : keyed 2 (toolCallsTotal m);
  wf_costs : keyed 1 (costTotal m);
  wf_budgets : keyed 1 (budgetUsage m);
  wf_fallbacks : keyed 2 (fallbackTotal m);
  wf_violations : keyed 2 (guardrailViolations m);
}.

Lemma records_wf rs : page_wf (records rs).
Proof.
  induction rs as [|r rs IH] using rev_ind; [split; by intros k [? ?]|].
  unfold records in *. rewrite foldl_snoc. destruct IH.
  destruct r; simpl; split; simpl; try done; unfold add_to; repeat apply keyed_insert;
    try done; eauto using commas_key2, commas_key3, Nat.le_trans.
  all: etransitivity; [|apply commas_key3]; lia.
Qed.

(** * Lines *)

(** A line of a text, after the first. *)
Definition has_line (page line : string) : Prop := ∃ u v, page = u +:+ nl +:+ line +:+ nl +:+ v.

Definition ends (s : string) : Prop := ∃ t, s = t +:+ nl.

Lemma ends_app s t : ends t → ends (s +:+ t).
Proof. intros [u ->]. exists (s +:+ u). by rewrite str_app_assoc. Qed.

Lemma ends_nl : ends nl.
Proof. by exists "". Qed.

Lemma has_line_r page more line : has_line page line → has_line (page +:+ more) line.
Proof. intros (u & v & ->). exists u, (v +:+ more). by rewrite <- !str_app_assoc. Qed.

Lemma has_line_l page before line : has_line page line → has_line (before +:+ page) line.
Proof. intros (u & v & ->). exists (before +:+ u), v. by rewrite !str_app_assoc. Qed.

Lemma concat_cons x l : String.concat "" (x :: l) = x +:+ String.concat "" l.
Proof. destruct l; simpl; [by rewrite str_app_nil_r|done]. Qed.

(** The lines that follow a line are lines of the text. *)
Lemma lines_here before lines after line : ends before → Forall ends lines → line +:+ nl ∈ lines →
  has_line (before +:+ String.concat "" lines +:+ after) line.
Proof.
  intros E F I. revert before E. induction F as [|x lines Ex F IH]; intros before E; [inversion I|].
  rewrite concat_cons, <- str_app_assoc. apply elem_of_cons in I as [<-|I].
  - destruct E as [t ->]. exists t, (String.concat "" lines +:+ after). by rewrite <- !str_app_assoc.
  - rewrite str_app_assoc. apply IH; [done|]. by apply ends_app.
Qed.

Lemma lines_last before lines line : ends before → Forall ends lines → line +:+ nl ∈ lines →
  has_line (before +:+ String.concat "" lines) line.
Proof. intros E F I. rewrite <- (str_app_nil_r (String.concat "" lines)). by apply lines_here. Qed.

Lemma family_ends metric help type : ends (family metric help type).
Proof. unfold family. repeat apply ends_app. apply ends_nl. Qed.

Lemma sample_ends `{GoRuntime} metric labels value : ends (sample metric labels value).
Proof. unfold sample. repeat apply ends_app. apply ends_nl. Qed.

Section page_facts.
Context `{GoRuntime}.

Lemma key_line_total {V} metric names (print : V → string) m key n :
  length names = S n → keyed n m → is_Some (m !! key) → is_Some (key_line metric names print m key).
Proof.
  intros L K S. unfold key_line. rewrite L, length_SplitN. specialize (K key S). destruct S as [v ->].
  destruct (Nat.ltb_spec (Nat.min (Datatypes.S n) (Datatypes.S (commas key))) (Datatypes.S n)); [lia|]. by eexists.
Qed.

Lemma elem_of_map_keys {V} (m : gmap string V) k : k ∈ sorted_keys m ↔ is_Some (m !! k).
Proof. unfold sorted_keys. by rewrite elem_of_sort_strings, elem_of_keys, elem_of_dom. Qed.

Lemma key_lines_total {V} metric names (print : V → string) m n :
  length names = S n → keyed n m → is_Some (key_lines metric names print m).
Proof.
  intros L K. unfold key_lines. apply mapM_is_Some, Forall_forall. intros k I.
  eapply key_line_total; [done..|]. by apply elem_of_map_keys.
Qed.

(** The line of a key is on the page. *)
Lemma key_lines_elem {V} metric names (print : V → string) m lines key v :
  key_lines metric names print m = Some lines → m !! key = Some v →
  length (SplitN (length names) key ",") = length names →
  sample metric (zip names (SplitN (length names) key ",")) (print v) ∈ lines.
Proof.
  intros E L N. unfold key_lines in E. apply mapM_Some in E.
  assert (key ∈ sorted_keys m) as I by by apply elem_of_map_keys.
  apply list_elem_of_lookup in I as [i I]. destruct (Forall2_lookup_l _ _ _ _ _ E I) as (line & J & K).
  apply list_elem_of_lookup. exists i. rewrite J. f_equal. unfold key_line in K. rewrite N, Nat.ltb_irrefl, L in K. by injection K as <-.
Qed.

Lemma key_lines_ends {V} metric names (print : V → string) m lines :
  key_lines metric names print m = Some lines → Forall ends lines.
Proof.
  intros E. unfold key_lines in E. apply mapM_Some in E. apply Forall_lookup. intros i l L.
  destruct (Forall2_lookup_r _ _ _ _ _ E L) as (key & _ & K). unfold key_line in K.
  destruct (_ <? _)%nat; [done|]. destruct (m !! key); [|done]. injection K as <-. apply sample_ends.
Qed.

Lemma histograms_end m : Forall ends (all_histograms m).
Proof.
  unfold all_histograms. apply Forall_concat, Forall_fmap, Forall_forall. intros agent _. simpl.
  destruct (invocationDurations m !! agent) as [h|]; [|done]. unfold histogram_lines. apply Forall_app. split.
  - apply Forall_fmap, Forall_forall. intros [le n] _. apply sample_ends.
  - repeat constructor; apply sample_ends.
Qed.

Lemma histogram_elem m agent h line : invocationDurations m !! agent = Some h →
  line ∈ histogram_lines agent h → line ∈ all_histograms m.
Proof.
  intros E I. unfold all_histograms. apply list_elem_of_In, in_concat. exists (histogram_lines agent h).
  split; [|by apply list_elem_of_In]. apply list_elem_of_In, list_elem_of_fmap. exists agent. rewrite E.
  split; [done|]. apply elem_of_map_keys. by rewrite E.
Qed.

Ltac lines_total :=
  match goal with |- context [key_lines ?metric ?names ?print ?m] =>
    let E := fresh in
    assert (is_Some (key_lines metric names print m)) as [? E]
      by (eapply key_lines_total; [reflexivity | eassumption]);
    rewrite E; clear E; cbn [mbind option_bind]
  end.

(** The lines of the page for what was recorded. A label is written for every
    name without a comma but the last. *)
Inductive exposed (rs : list Recorded) : string → Prop :=
  | exposed_invocations agent status n : commas agent = 0%nat →
      total invocation_amounts rs (key2 agent status) = Some n →
      exposed rs ("agentspec_invocations_total{agent=" +:+ quote agent +:+ ",status=" +:+ quote status +:+
        "} " +:+ pretty (wrap64 n))
  | exposed_bucket agent i bound : durations agent rs ≠ [] → defaultBuckets !! i = Some bound →
      exposed rs ("agentspec_invocation_duration_seconds_bucket{agent=" +:+ quote agent +:+ ",le=" +:+
        quote (fmt_g bound) +:+ "} " +:+
        pretty (wrap64 (sum_Z (at_most (durations agent rs) <$> take (S i) defaultBuckets))))
  | exposed_inf agent : durations agent rs ≠ [] →
      exposed rs ("agentspec_invocation_duration_seconds_bucket{agent=" +:+ quote agent +:+ ",le=" +:+
        quote "+Inf" +:+ "} " +:+
        pretty (wrap64 (sum_Z (at_most (durations agent rs) <$> defaultBuckets) +
          Z.of_nat (length (durations agent rs)))))
  | exposed_sum agent : durations agent rs ≠ [] →
      exposed rs ("agentspec_invocation_duration_seconds_sum{agent=" +:+ quote agent +:+ "} " +:+
        fmt_fixed 6 (foldl float_add float_zero (durations agent rs)))
  | exposed_count agent : durations agent rs ≠ [] →
      exposed rs ("agentspec_invocation_duration_seconds_count{agent=" +:+ quote agent +:+ "} " +:+
        pretty (wrap64 (Z.of_nat (length (durations agent rs)))))
  | exposed_tokens agent type n : commas agent = 0%nat →
      total token_amounts rs (key2 agent type) = Some n →
      exposed rs ("agentspec_tokens_total{agent=" +:+ quote agent +:+ ",type=" +:+ quote type +:+
        "} " +:+ pretty (wrap64 n))
  | exposed_calls agent tool status n : commas agent = 0%nat → commas tool = 0%nat →
      total call_amounts rs (key3 agent tool status) = Some n →
      exposed rs ("agentspec_tool_calls_total{agent=" +:+ quote agent +:+ ",tool=" +:+ quote tool +:+
        ",status=" +:+ quote status +:+ "} " +:+ pretty (wrap64 n))
  | exposed_cost agent model cost : commas agent = 0%nat → cost_under rs (key2 agent model) = Some cost →
      exposed rs ("agentspec_cost_dollars_total{agent=" +:+ quote agent +:+ ",model=" +:+ quote model +:+
        "} " +:+ fmt_g cost)
  | exposed_budget agent period ratio : commas agent = 0%nat → ratio_under rs (key2 agent period) = Some ratio →
      exposed rs ("agentspec_budget_usage_ratio{agent=" +:+ quote agent +:+ ",period=" +:+ quote period +:+
        "} " +:+ fmt_g ratio)
  | exposed_fallback agent from to n : commas agent = 0%nat → commas from = 0%nat →
      total fallback_amounts rs (key3 agent from to) = Some n →
      exposed rs ("agentspec_fallback_total{agent=" +:+ quote agent +:+ ",from_model=" +:+ quote from +:+
        ",to_model=" +:+ quote to +:+ "} " +:+ pretty (wrap64 n))
  | exposed_violations agent guardrail mode n : commas agent = 0%nat → commas guardrail = 0%nat →
      total violation_amounts rs (key3 agent guardrail mode) = Some n →
      exposed rs ("agentspec_guardrail_violations_total{agent=" +:+ quote agent +:+ ",guardrail=" +:+
        quote guardrail +:+ ",mode=" +:+ quote mode +:+ "} " +:+ pretty (wrap64 n)).

(** The counters hold what was recorded. *)
Lemma counters rs key : let m := records rs in
  invocationsTotal m !! key = wrap64 <$> total invocation_amounts rs key ∧
  tokensTotal m !! key = wrap64 <$> total token_amounts rs key ∧
  toolCallsTotal m !! key = wrap64 <$> total call_amounts rs key ∧
  fallbackTotal m !! key = wrap64 <$> total fallback_amounts rs key ∧
  guardrailViolations m !! key = wrap64 <$> total violation_amounts rs key.
Proof. split_and!; (apply total_records; [done|]); by intros m []. Qed.

(** The line of a key of two names, and of three. *)
Lemma line_of_two {V} metric a b (print : V → string) m lines x y v :
  key_lines metric [a; b] print m = Some lines → commas x = 0%nat → m !! key2 x y = Some v →
  (metric +:+ "{" +:+ a +:+ "=" +:+ quote x +:+ "," +:+ b +:+ "=" +:+ quote y +:+ "} " +:+ print v) +:+ nl ∈ lines.
Proof.
  intros E N L. pose proof (key_lines_elem _ [a; b] print m lines (key2 x y) v E L) as I.
  cbn [length] in I. rewrite (SplitN_key2 x y N) in I. specialize (I eq_refl).
  unfold sample in I. cbn -[quote nl] in I. repeat rewrite <- str_app_assoc in I. repeat rewrite <- str_app_assoc. exact I.
Qed.

Lemma line_of_three {V} metric a b c (print : V → string) m lines x y z v :
  key_lines metric [a; b; c] print m = Some lines → commas x = 0%nat → commas y = 0%nat →
  m !! key3 x y z = Some v →
  (metric +:+ "{" +:+ a +:+ "=" +:+ quote x +:+ "," +:+ b +:+ "=" +:+ quote y +:+ "," +:+ c +:+ "=" +:+ quote z +:+
    "} " +:+ print v) +:+ nl ∈ lines.
Proof.
  intros E N1 N2 L. pose proof (key_lines_elem _ [a; b; c] print m lines (key3 x y z) v E L) as I.
  cbn [length] in I. rewrite (SplitN_key3 x y z N1 N2) in I. specialize (I eq_refl).
  unfold sample in I. cbn -[quote nl] in I. repeat rewrite <- str_app_assoc in I. repeat rewrite <- str_app_assoc. exact I.
Qed.

Lemma line_of_one metric a x value line (lines : list string) :
  sample metric [(a, x)] value ∈ lines → line = metric +:+ "{" +:+ a +:+ "=" +:+ quote x +:+ "} " +:+ value →
  line +:+ nl ∈ lines.
Proof. intros I ->. unfold sample in I. cbn -[quote nl] in I. repeat rewrite <- str_app_assoc in I. repeat rewrite <- str_app_assoc. exact I. Qed.

Lemma durations_histogram rs agent : durations agent rs ≠ [] →
  invocationDurations (records rs) !! agent = Some (histogram_of (durations agent rs)).
Proof. intros N. rewrite lookup_durations. by destruct (durations agent rs). Qed.

(** The line of a bucket has the running sum of the counts. *)
Lemma bucket_line agent ds i label : ((fmt_g <$> defaultBuckets) ++ ["+Inf"]) !! i = Some label →
  ("agentspec_invocation_duration_seconds_bucket{agent=" +:+ quote agent +:+ ",le=" +:+ quote label +:+ "} " +:+
   pretty (wrap64 (sum_Z (take (S i) ((at_most ds <$> defaultBuckets) ++ [Z.of_nat (length ds)]))))) +:+ nl
  ∈ histogram_lines agent (histogram_of ds).
Proof.
  intros E. pose proof (lookup_lt_Some _ _ _ E) as L. unfold histogram_lines. apply elem_of_app. left.
  apply list_elem_of_fmap.
  eexists (label, wrap64 (sum_Z (take (S i) ((at_most ds <$> defaultBuckets) ++ [Z.of_nat (length ds)])))). split.
  - unfold sample. cbn -[quote nl sum_Z take defaultBuckets wrap64 pretty]. by rewrite <- !str_app_assoc.
  - apply list_elem_of_lookup. exists i. rewrite lookup_zip_with, E. cbn [mbind option_bind].
    assert (H_counts (histogram_of ds) = wrap64 <$> ((at_most ds <$> defaultBuckets) ++ [Z.of_nat (length ds)])) as ->.
    { unfold histogram_of. cbn [H_counts]. by rewrite fmap_app, <- list_fmap_compose. }
    change 0 with (wrap64 0) at 1. rewrite lookup_running; [|exact L].
    cbn [mbind option_bind]. by rewrite <- fmap_take, wrap64_sum.
Qed.

Lemma page_exposes rs : ∃ page, Metrics_Handler (records rs) = Some page ∧ ∀ line, exposed rs line → has_line page line.
Proof.
  destruct (records_wf rs) as [W1 W2 W3 W4 W5 W6 W7]. unfold Metrics_Handler.
  destruct (key_lines_total "agentspec_invocations_total" ["agent"; "status"] pretty _ 1 eq_refl W1) as [l1 E1].
  destruct (key_lines_total "agentspec_tokens_total" ["agent"; "type"] pretty _ 1 eq_refl W2) as [l2 E2].
  destruct (key_lines_total "agentspec_tool_calls_total" ["agent"; "tool"; "status"] pretty _ 2 eq_refl W3) as [l3 E3].
  destruct (key_lines_total "agentspec_cost_dollars_total" ["agent"; "model"] fmt_g _ 1 eq_refl W4) as [l4 E4].
  destruct (key_lines_total "agentspec_budget_usage_ratio" ["agent"; "period"] fmt_g _ 1 eq_refl W5) as [l5 E5].
  destruct (key_lines_total "agentspec_fallback_total" ["agent"; "from_model"; "to_model"] pretty _ 2 eq_refl W6) as [l6 E6].
  destruct (key_lines_total "agentspec_guardrail_violations_total" ["agent"; "guardrail"; "mode"] pretty _ 2 eq_refl W7)
    as [l7 E7].
  rewrite E1, E2, E3, E4, E5, E6, E7. cbn [mbind option_bind].
  eexists. split; [reflexivity|]. intros line [].
  - apply lines_here; [apply family_ends|by eapply key_lines_ends|].
    destruct (counters rs (key2 agent status)) as (C & _). rewrite H1 in C.
    exact (line_of_two _ _ _ _ _ _ _ _ _ E1 H0 C).
  - do 3 apply has_line_l. apply lines_here; [apply family_ends|apply histograms_end|].
    eapply histogram_elem; [by apply durations_histogram|].
    pose proof (bucket_line agent (durations agent rs) i (fmt_g bound)) as B.
    rewrite take_app_le in B by (rewrite length_fmap; by eapply lookup_lt_Some).
    rewrite <- fmap_take in B. apply B. apply lookup_app_l_Some. by rewrite list_lookup_fmap, H1.
  - do 3 apply has_line_l. apply lines_here; [apply family_ends|apply histograms_end|].
    eapply histogram_elem; [by apply durations_histogram|].
    pose proof (bucket_line agent (durations agent rs) 9 "+Inf" eq_refl) as B.
    rewrite take_ge, sum_Z_app in B by (rewrite length_app, length_fmap; simpl; lia).
    unfold sum_Z at 2 in B. cbn [foldr] in B. by rewrite Z.add_0_r in B.
  - do 3 apply has_line_l. apply lines_here; [apply family_ends|apply histograms_end|].
    eapply histogram_elem; [by apply durations_histogram|].
    eapply line_of_one; [unfold histogram_lines; apply elem_of_app; right; left|reflexivity].
  - do 3 apply has_line_l. apply lines_here; [apply family_ends|apply histograms_end|].
    eapply histogram_elem; [by apply durations_histogram|].
    eapply line_of_one; [unfold histogram_lines; apply elem_of_app; right; right; left|reflexivity].
  - do 6 apply has_line_l. apply lines_here; [apply family_ends|by eapply key_lines_ends|].
    destruct (counters rs (key2 agent type)) as (_ & C & _). rewrite H1 in C.
    exact (line_of_two _ _ _ _ _ _ _ _ _ E2 H0 C).
  - do 9 apply has_line_l. apply lines_here; [apply family_ends|by eapply key_lines_ends|].
    destruct (counters rs (key3 agent tool status)) as (_ & _ & C & _). rewrite H2 in C.
    exact (line_of_three _ _ _ _ _ _ _ _ _ _ _ E3 H0 H1 C).
  - do 12 apply has_line_l. apply lines_here; [apply family_ends|by eapply key_lines_ends|].
    rewrite <- lookup_costs in H1. exact (line_of_two _ _ _ _ _ _ _ _ _ E4 H0 H1).
  - do 15 apply has_line_l. apply lines_here; [apply family_ends|by eapply key_lines_ends|].
    rewrite <- lookup_ratios in H1. exact (line_of_two _ _ _ _ _ _ _ _ _ E5 H0 H1).
  - do 18 apply has_line_l. apply lines_here; [apply family_ends|by eapply key_lines_ends|].
    destruct (counters rs (key3 agent from to)) as (_ & _ & _ & C & _). rewrite H2 in C.
    exact (line_of_three _ _ _ _ _ _ _ _ _ _ _ E6 H0 H1 C).
  - do 21 apply has_line_l. apply lines_last; [apply family_ends|by eapply key_lines_ends|].
    destruct (counters rs (key3 agent guardrail mode)) as (_ & _ & _ & _ & C). rewrite H2 in C.
    exact (line_of_three _ _ _ _ _ _ _ _ _ _ _ E7 H0 H1 C).
Qed.

(** C33. What the metrics expose: after any calls each counter holds under each
    key the sum of what was recorded under it, as an int64, the costs the sum of
    the costs and a budget the last ratio that was set, and each agent has the
    histogram of its durations, each bucket counting the durations up to its
    bound; the page is always written, and holds a line for each of them under
    the names and labels of Prometheus, where the names before the last hold no
    comma. The page adds the counts of the buckets up once more: the line of a
    bound, and that of +Inf, counts a duration once for every bucket up to it. *)
Theorem metrics_exact rs :
  let m := records rs in
  (∀ key, invocationsTotal m !! key = wrap64 <$> total invocation_amounts rs key ∧
     tokensTotal m !! key = wrap64 <$> total token_amounts rs key ∧
     toolCallsTotal m !! key = wrap64 <$> total call_amounts rs key ∧
     fallbackTotal m !! key = wrap64 <$> total fallback_amounts rs key ∧
     guardrailViolations m !! key = wrap64 <$> total violation_amounts rs key ∧
     costTotal m !! key = cost_under rs key ∧
     budgetUsage m !! key = ratio_under rs key) ∧
  (∀ agent, invocationDurations m !! agent =
     match durations agent rs with [] => None | ds => Some (histogram_of ds) end) ∧
  ∃ page, Metrics_Handler m = Some page ∧ ∀ line, exposed rs line → has_line page line.
Proof.
  cbv zeta. pose proof (counters rs) as C. cbv zeta in C. split_and!.
  - intros key. destruct (C key) as (? & ? & ? & ? & ?). split_and!; auto using lookup_costs, lookup_ratios.
  - intros agent. apply lookup_durations.
  - by apply page_exposes.
Qed.
End page_facts.

(** One invocation of 50 ms: its +Inf bucket says 10. *)
Example fast_invocation :
  let m := records [Invoked "bot" "gpt-4o" "completed" 50000000 10 20] in
  (running 0 ∘ H_counts) <$> invocationDurations m !! "bot" = Some [1; 2; 3; 4; 5; 6; 7; 8; 9; 10] ∧
  H_count <$> invocationDurations m !! "bot" = Some 1.
Proof. vm_compute. done. Qed.
