(* ===== verification/Sessions.v ===== *)
(** Sessions (internal/session/store.go, memory_store.go, session.go): the
    in-memory store with idle expiry and the manager over a store and a
    conversation memory.

    A method of the store is one or two sections under its lock; a definition is
    one section, so that sections of different goroutines can be interleaved.
    Every call that reads the clock is given the reading, in nanoseconds; a
    section that reads it once per session is given a function. The objects that
    Get returns are shared with the store; here their fields at the return. *)
From S2P Require Import Prelude GoStd Loop Memory.
Open Scope Z_scope.

(** Session represents a stateful conversation with an agent. *)
Record Session := mkSession {
  Session_ID : string;
  Session_AgentName : string;
  Session_CreatedAt : Z;
  Session_LastActive : Z;
  Session_Metadata : gmap string string;
}.

Global Instance settable_Session : Settable Session := λ s,
  mkSession (Session_ID s) (Session_AgentName s) (Session_CreatedAt s) (Session_LastActive s) (Session_Metadata s).

(** MemoryStore is an in-memory session store with expiry support. *)
Record MemoryStore := mkMemoryStore {
  MS_sessions : gmap string Session;
  MS_expiry : Z;
  MS_evictionInterval : Z;
}.

Global Instance settable_MemoryStore : Settable MemoryStore := λ s,
  mkMemoryStore (MS_sessions s) (MS_expiry s) (MS_evictionInterval s).

Definition defaultEvictionInterval : Z := 5 * 60 * 1000000000.

Definition NewMemoryStore (expiry evictionInterval : Z) : MemoryStore :=
  mkMemoryStore ∅ expiry (if evictionInterval <=? 0 then defaultEvictionInterval else evictionInterval).

(** [s.expiry > 0 && time.Since(sess.LastActive) > s.expiry] *)
Definition is_expired (expiry now : Z) (sess : Session) : bool :=
  (0 <? expiry) && (expiry <? now - Session_LastActive sess).

Section store.
Context `{GoRuntime}.

Definition not_found (id : string) : string := "session " +:+ quote id +:+ " not found".

(** evict removes all expired sessions. *)
Definition evict (clock : string → Z) (s : MemoryStore) : MemoryStore :=
  s <| MS_sessions := filter (λ '(id, sess), is_expired (MS_expiry s) (clock id) sess = false) (MS_sessions s) |>.

(** Create creates a new session for the given agent; [id] is the random
    identifier drawn for it. *)
Definition Create (id : string) (now : Z) (agentName : string) (metadata : gmap string string) (s : MemoryStore) :
    Session * MemoryStore :=
  let sess := mkSession id agentName now now metadata in
  (sess, s <| MS_sessions := <[id := sess]> (MS_sessions s) |>).

(** The section of Get under the read lock: [None] when the session appears
    expired and the write lock is taken. *)
Definition Get_read (id : string) (now : Z) (s : MemoryStore) : option (result string Session) :=
  match MS_sessions s !! id with
  | None => Some (Err (not_found id))
  | Some sess => if is_expired (MS_expiry s) now sess then None else Some (Ok sess)
  end.

(** The section under the write lock. *)
Definition Get_write (id : string) (now : Z) (s : MemoryStore) : result string Session * MemoryStore :=
  match MS_sessions s !! id with
  | None => (Err (not_found id), s)
  | Some sess =>
      if is_expired (MS_expiry s) now sess
      then (Err ("session " +:+ quote id +:+ " expired"), s <| MS_sessions := delete id (MS_sessions s) |>)
      else (Ok sess, s)
  end.

(** Get, when no other call runs at the same time. *)
Definition Get_session (id : string) (now now' : Z) (s : MemoryStore) : result string Session * MemoryStore :=
  match Get_read id now s with
  | Some r => (r, s)
  | None => Get_write id now' s
  end.

(** Delete removes a session by ID. *)
Definition Delete_session (id : string) (s : MemoryStore) : MemoryStore :=
  s <| MS_sessions := delete id (MS_sessions s) |>.

(** The scan of List under the read lock: the sessions it returns and the
    identifiers of the expired ones. *)
Definition List_read (agentName : string) (clock : string → Z) (s : MemoryStore) : list Session * list string :=
  let expired '(id, sess) := is_expired (MS_expiry s) (clock id) sess in
  let wanted '(id, sess) := String.eqb agentName "" || String.eqb (Session_AgentName sess) agentName in
  let scan := map_range (MS_sessions s) in
  (snd <$> List.filter (λ x, negb (expired x) && wanted x) scan, fst <$> List.filter expired scan).

(** The removal of the expired sessions under the write lock. *)
Definition List_write (expiredIDs : list string) (clock : string → Z) (s : MemoryStore) : MemoryStore :=
  foldl (λ s id,
    match MS_sessions s !! id with
    | Some sess => if is_expired (MS_expiry s) (clock id) sess then Delete_session id s else s
    | None => s
    end) s expiredIDs.

(** Touch updates the last active timestamp. *)
Definition Touch (id : string) (now : Z) (s : MemoryStore) : option string * MemoryStore :=
  match MS_sessions s !! id with
  | None => (Some (not_found id), s)
  | Some sess => (None, s <| MS_sessions := <[id := sess <| Session_LastActive := now |>]> (MS_sessions s) |>)
  end.

(** * The manager

    Manager handles session lifecycle, over a store and the sliding window; its
    methods, when no other call runs at the same time. *)
Record Manager := mkManager { M_store : MemoryStore; M_memory : SlidingWindow }.

(** LoadMessages retrieves conversation history for a session. *)
Definition LoadMessages (sessionID : string) (now now' : Z) (m : Manager) : result string (list Message) * Manager :=
  let '(r, store) := Get_session sessionID now now' (M_store m) in
  match r with
  | Err err => (Err ("load session: " +:+ err), mkManager store (M_memory m))
  | Ok _ =>
      (Ok (SlidingWindow_Load_read (M_memory m) sessionID),
       mkManager store (SlidingWindow_Load_promote (M_memory m) sessionID))
  end.

(** SaveMessages appends messages to the session's conversation history. *)
Definition SaveMessages (sessionID : string) (now : Z) (messages : list Message) (m : Manager) :
    option string * Manager :=
  match Touch sessionID now (M_store m) with
  | (Some err, store) => (Some ("touch session: " +:+ err), mkManager store (M_memory m))
  | (None, store) => (None, mkManager store (SlidingWindow_Save (M_memory m) sessionID messages))
  end.

(** Close deletes a session and its conversation history. *)
Definition Close (sessionID : string) (m : Manager) : Manager :=
  mkManager (Delete_session sessionID (M_store m)) (SlidingWindow_Clear (M_memory m) sessionID).
End store.
