(* ===== verification/SessionsFacts.v ===== *)
(** The in-memory session store refines a store in which a session is visible
    until it was idle for longer than the expiry: the lazy and the background
    removals cannot be observed, whatever the interleaving of the calls. *)
From S2P Require Import Prelude GoStd GoMaps Loop Memory Sessions.
Open Scope Z_scope.

(** * Sections of calls *)

Inductive StoreOp :=
  | OpCreate (id : string) (now : Z) (agent : string) (metadata : gmap string string)
  | OpGetRead (id : string) (now : Z)
  | OpGetWrite (id : string) (now : Z)
  | OpDelete (id : string)
  | OpListRead (agent : string) (clock : string → Z)
  | OpListWrite (ids : list string) (clock : string → Z)
  | OpTouch (id : string) (now : Z)
  | OpEvict (clock : string → Z).

(** What a section tells its caller; [Silent] when the call goes on. *)
Inductive Answer :=
  | Created (sess : Session)
  | Found (sess : Session)
  | Missing
  | Listed (l : list Session)
  | Touched
  | Silent.

(** The readings of the clock of a section. *)
Definition reads (op : StoreOp) (r : Z) : Prop :=
  match op with
  | OpCreate _ now _ _ | OpGetRead _ now | OpGetWrite _ now | OpTouch _ now => r = now
  | OpListRead _ clock | OpListWrite _ clock | OpEvict clock => ∃ id, r = clock id
  | OpDelete _ => False
  end.

(** The sections follow one another, from time [t] on. *)
Fixpoint timely (t : Z) (ops : list StoreOp) : Prop :=
  match ops with
  | [] => True
  | op :: ops => ∃ t', t ≤ t' ∧ (∀ r, reads op r → t ≤ r ≤ t') ∧ timely t' ops
  end.

(** * The idle-expiry store *)

Section spec.
Context (expiry : Z).

Abbreviation Table := (gmap string Session).

(** The session exists and was not idle for too long. *)
Definition alive (now : Z) (sess : Session) : Prop := 0 < expiry → now - Session_LastActive sess ≤ expiry.

Global Instance alive_dec now sess : Decision (alive now sess).
Proof. unfold alive. apply _. Defined.

(** What a store with idle expiry may answer. No session is removed for being
    idle; one that was may or may not be revived by a Touch. *)
Inductive spec_step (t : Table) : StoreOp → Answer → Table → Prop :=
  | spec_create id now agent metadata :
      let sess := mkSession id agent now now metadata in
      spec_step t (OpCreate id now agent metadata) (Created sess) (<[id := sess]> t)
  | spec_read_found id now sess :
      t !! id = Some sess → alive now sess → spec_step t (OpGetRead id now) (Found sess) t
  | spec_read_missing id now :
      (∀ sess, t !! id = Some sess → ¬ alive now sess) → spec_step t (OpGetRead id now) Missing t
  | spec_read_later id now :
      (∀ sess, t !! id = Some sess → ¬ alive now sess) → spec_step t (OpGetRead id now) Silent t
  | spec_write_found id now sess :
      t !! id = Some sess → alive now sess → spec_step t (OpGetWrite id now) (Found sess) t
  | spec_write_missing id now :
      (∀ sess, t !! id = Some sess → ¬ alive now sess) → spec_step t (OpGetWrite id now) Missing t
  | spec_delete id : spec_step t (OpDelete id) Silent (delete id t)
  | spec_list agent clock l :
      l ≡ₚ (map_to_list (filter (λ '(id, sess),
        alive (clock id) sess ∧ (agent = "" ∨ Session_AgentName sess = agent)) t)).*2 →
      spec_step t (OpListRead agent clock) (Listed l) t
  | spec_list_write ids clock : spec_step t (OpListWrite ids clock) Silent t
  | spec_evict clock : spec_step t (OpEvict clock) Silent t
  | spec_touch id now sess :
      t !! id = Some sess →
      spec_step t (OpTouch id now) Touched (<[id := sess <| Session_LastActive := now |>]> t)
  | spec_touch_missing id now :
      (∀ sess, t !! id = Some sess → ¬ alive now sess) → spec_step t (OpTouch id now) Missing t.

Inductive spec_run : Table → list StoreOp → list Answer → Table → Prop :=
  | spec_nil t : spec_run t [] [] t
  | spec_cons t op a t1 ops answers t2 :
      spec_step t op a t1 → spec_run t1 ops answers t2 → spec_run t (op :: ops) (a :: answers) t2.
End spec.

(** * The store of the code *)

Section runs.
Context `{GoRuntime}.

Definition got (r : result string Session) : Answer :=
  match r with Ok sess => Found sess | Err _ => Missing end.

Definition store_step (s : MemoryStore) (op : StoreOp) : Answer * MemoryStore :=
  match op with
  | OpCreate id now agent metadata => let '(sess, s) := Create id now agent metadata s in (Created sess, s)
  | OpGetRead id now => (from_option got Silent (Get_read id now s), s)
  | OpGetWrite id now => let '(r, s) := Get_write id now s in (got r, s)
  | OpDelete id => (Silent, Delete_session id s)
  | OpListRead agent clock => (Listed (List_read agent clock s).1, s)
  | OpListWrite ids clock => (Silent, List_write ids clock s)
  | OpTouch id now =>
      let '(err, s) := Touch id now s in (if err is Some _ then Missing else Touched, s)
  | OpEvict clock => (Silent, evict clock s)
  end.

Fixpoint run_store (s : MemoryStore) (ops : list StoreOp) : list Answer * MemoryStore :=
  match ops with
  | [] => ([], s)
  | op :: ops =>
      let '(a, s) := store_step s op in
      let '(answers, s) := run_store s ops in (a :: answers, s)
  end.

(** At time [now] the store holds the sessions of the table, but for some that
    were idle for too long. *)
Record holds (now : Z) (s : MemoryStore) (t : gmap string Session) : Prop := {
  holds_some id sess : MS_sessions s !! id = Some sess → t !! id = Some sess;
  holds_none id sess : t !! id = Some sess → MS_sessions s !! id = None → ¬ alive (MS_expiry s) now sess;
}.

Lemma is_expired_spec expiry now sess : is_expired expiry now sess = true ↔ ¬ alive expiry now sess.
Proof. unfold is_expired, alive. rewrite andb_true_iff, !Z.ltb_lt. lia. Qed.

Lemma not_expired_spec expiry now sess : is_expired expiry now sess = false ↔ alive expiry now sess.
Proof. rewrite <- not_true_iff_false, is_expired_spec. split; [apply dec_stable|tauto]. Qed.

Lemma dead_later expiry now now' sess : now ≤ now' → ¬ alive expiry now sess → ¬ alive expiry now' sess.
Proof. unfold alive. lia. Qed.

Lemma holds_later now now' s t : now ≤ now' → holds now s t → holds now' s t.
Proof.
  intros L [S N]. split; [done|]. intros id sess E1 E2. eapply dead_later; [done|by eapply N].
Qed.

(** Removing sessions that are idle for too long keeps the relation. *)
Lemma holds_remove now s t m : holds now s t → m ⊆ MS_sessions s →
  (∀ id sess, MS_sessions s !! id = Some sess → m !! id = None → ¬ alive (MS_expiry s) now sess) →
  holds now (s <| MS_sessions := m |>) t.
Proof.
  intros [S N] Sub D. split; simpl; intros id sess E.
  - by eapply S, lookup_weaken.
  - intros E'. destruct (MS_sessions s !! id) as [sess'|] eqn:E2; [|by eapply N].
    pose proof (S _ _ E2) as E3. simplify_eq. by eapply D.
Qed.

Lemma holds_insert now s t id sess : holds now s t →
  holds now (s <| MS_sessions := <[id := sess]> (MS_sessions s) |>) (<[id := sess]> t).
Proof.
  intros [S N]. split; simpl; intros id' sess'; rewrite !lookup_insert; case_decide; simplify_eq; naive_solver.
Qed.

Lemma holds_missing now s t id : holds now s t → MS_sessions s !! id = None →
  ∀ sess, t !! id = Some sess → ¬ alive (MS_expiry s) now sess.
Proof. intros [_ N] E sess E'. by eapply N. Qed.

(** The sections that only remove. *)
Lemma evict_holds now now' clock s t : holds now s t → (∀ id, now ≤ clock id ≤ now') → holds now' (evict clock s) t.
Proof.
  intros R C. assert (now ≤ now') as L by (specialize (C ""); lia).
  apply holds_remove; [by eapply holds_later|apply map_filter_subseteq|].
  intros id sess E [E'|D]%map_lookup_filter_None; [congruence|]. specialize (D _ E).
  apply not_false_iff_true, is_expired_spec in D. eapply dead_later; [|done]. apply C.
Qed.

Lemma Delete_expired_holds now now' r s t id sess : holds now s t → now ≤ r ≤ now' →
  MS_sessions s !! id = Some sess → is_expired (MS_expiry s) r sess = true → holds now' (Delete_session id s) t.
Proof.
  intros R L E D%is_expired_spec. apply holds_remove; [eapply holds_later; [|done]; lia|apply delete_subseteq|].
  intros id' sess' E'. rewrite lookup_delete. case_decide; [|congruence]. simplify_eq. intros _.
  eapply dead_later; [|done]. lia.
Qed.

Lemma List_write_holds now now' clock ids s t : holds now s t → now ≤ now' → (∀ id, now ≤ clock id ≤ now') →
  holds now' (List_write ids clock s) t ∧ MS_expiry (List_write ids clock s) = MS_expiry s.
Proof.
  intros R L C. unfold List_write. assert (holds now' s t) as R' by (by eapply holds_later). clear R.
  revert s R'. induction ids as [|id ids IH]; intros s R; [done|]. simpl.
  destruct (MS_sessions s !! id) as [sess|] eqn:E; [|by apply IH].
  destruct (is_expired _ _ _) eqn:X; [|by apply IH]. apply (IH (Delete_session id s)).
  eapply (Delete_expired_holds now' now' now'); [done|lia|done|]. apply is_expired_spec.
  apply is_expired_spec in X. eapply dead_later; [|done]. apply C.
Qed.

(** The sessions that List returns. *)
Lemma List_read_spec now agent clock s t : holds now s t → (∀ id, now ≤ clock id) →
  (List_read agent clock s).1 ≡ₚ (map_to_list (filter (λ '(id, sess),
    alive (MS_expiry s) (clock id) sess ∧ (agent = "" ∨ Session_AgentName sess = agent)) t)).*2.
Proof.
  intros R C. unfold List_read. cbn [fst]. rewrite filter_map_range. apply fmap_Permutation.
  eapply reflexive_eq. f_equal. apply map_eq. intros id. apply option_eq. intros sess.
  rewrite !map_lookup_filter_Some, andb_true_iff, negb_true_iff, not_expired_spec, orb_true_iff, !String.eqb_eq.
  split; intros (E & A & W); (split; [|done]).
  - by eapply holds_some.
  - destruct (MS_sessions s !! id) as [sess'|] eqn:E'; [by rewrite (holds_some _ _ _ R _ _ E') in E; simplify_eq|].
    destruct (holds_none _ _ _ R _ _ E E'). unfold alive in *. intros P. specialize (A P). specialize (C id). lia.
Qed.
Lemma store_step_refines now now' s t op : holds now s t → now ≤ now' → (∀ r, reads op r → now ≤ r ≤ now') →
  ∃ t', spec_step (MS_expiry s) t op (store_step s op).1 t' ∧ holds now' (store_step s op).2 t' ∧
    MS_expiry (store_step s op).2 = MS_expiry s.
Proof.
  intros R L C. pose proof (holds_later now now' s t L R) as R'.
  assert (∀ r id, reads op r → now ≤ r → MS_sessions s !! id = None →
    ∀ sess, t !! id = Some sess → ¬ alive (MS_expiry s) r sess) as M.
  { intros r id _ Lr E sess E'. eapply dead_later; [exact Lr|]. by eapply holds_missing. }
  destruct op as [id r agent metadata|id r|id r|id|agent clock|ids clock|id r|clock]; simpl in *.
  - eexists. split_and!; [constructor|by apply holds_insert|done].
  - specialize (C r eq_refl). exists t. unfold Get_read. destruct (MS_sessions s !! id) as [sess|] eqn:E; simpl.
    + destruct (is_expired _ _ _) eqn:X; (split_and!; [|done|done]).
      * apply is_expired_spec in X. constructor. intros sess' E'. rewrite (holds_some _ _ _ R _ _ E) in E'. by simplify_eq.
      * apply not_expired_spec in X. constructor; [by eapply holds_some|done].
    + split_and!; [|done|done]. constructor. apply (M r); [done|lia|done].
  - specialize (C r eq_refl). exists t. unfold Get_write. destruct (MS_sessions s !! id) as [sess|] eqn:E; simpl.
    + destruct (is_expired _ _ _) eqn:X; simpl.
      * split_and!; [|by eapply (Delete_expired_holds now now' r)|done]. apply is_expired_spec in X. constructor.
        intros sess' E'. rewrite (holds_some _ _ _ R _ _ E) in E'. by simplify_eq.
      * apply not_expired_spec in X. split_and!; [|done|done]. constructor; [by eapply holds_some|done].
    + split_and!; [|done|done]. constructor. apply (M r); [done|lia|done].
  - exists (delete id t). split_and!; [constructor| |done]. destruct R' as [S N]. split; simpl; intros id' sess.
    + rewrite !lookup_delete. case_decide; [done|]. apply S.
    + rewrite !lookup_delete. case_decide; [done|]. apply N.
  - assert (∀ id, now ≤ clock id ≤ now') as C' by (intros id; exact (C _ (ex_intro _ id eq_refl))).
    exists t. split_and!; [|done|done]. constructor. eapply (List_read_spec now); [done|]. intros id. exact (proj1 (C' id)).
  - assert (∀ id, now ≤ clock id ≤ now') as C' by (intros id; exact (C _ (ex_intro _ id eq_refl))).
    exists t. destruct (List_write_holds now now' clock ids s t R L C') as [H1 H2]. split_and!; [constructor|done|done].
  - specialize (C r eq_refl). unfold Touch. destruct (MS_sessions s !! id) as [sess|] eqn:E; simpl.
    + eexists. split_and!; [constructor; by eapply holds_some|by apply holds_insert|done].
    + exists t. split_and!; [|done|done]. apply spec_touch_missing. apply (M r); [done|lia|done].
  - assert (∀ id, now ≤ clock id ≤ now') as C' by (intros id; exact (C _ (ex_intro _ id eq_refl))).
    exists t. split_and!; [apply spec_evict|exact (evict_holds now now' clock s t R C')|done].
Qed.

Lemma run_store_refines ops now s t : holds now s t → timely now ops →
  ∃ t', spec_run (MS_expiry s) t ops (run_store s ops).1 t'.
Proof.
  revert now s t. induction ops as [|op ops IH]; intros now s t R O; [eexists; constructor|].
  destruct O as (now' & L & C & O). destruct (store_step_refines now now' s t op R L C) as (t1 & S1 & R1 & X1).
  simpl. destruct (store_step s op) as [a s1]. simpl in *. destruct (IH now' s1 t1 R1 O) as [t2 S2].
  destruct (run_store s1 ops) as [answers s2]. exists t2. econstructor; [done|]. by rewrite <- X1.
Qed.

(** C16. The in-memory store is a store with idle expiry: whatever sections of
    concurrent calls happen, in whatever order, at times that do not go back, the
    answers are those of a store that forgets nothing by itself and shows a
    session, to Get and to List, exactly while it was created or touched within
    the expiry; Get and List do not refresh it. The
    background eviction and the removals of Get and List are not observable; only
    a Touch of a session that was idle for too long may depend on them. *)
Theorem session_store_refines (expiry interval start : Z) (ops : list StoreOp) (Timely : timely start ops) :
  ∃ table, spec_run expiry ∅ ops (run_store (NewMemoryStore expiry interval) ops).1 table.
Proof.
  apply (run_store_refines ops start (NewMemoryStore expiry interval) ∅ ltac:(by split) Timely).
Qed.
End runs.

(** * Examples *)

Definition idle_session : list StoreOp :=
  [OpCreate "s1" 0 "greeter" ∅; OpGetRead "s1" 10; OpTouch "s1" 10; OpGetRead "s1" 20; OpGetRead "s1" 21;
   OpListRead "greeter" (λ _, 22); OpGetWrite "s1" 23; OpTouch "s1" 24].

Lemma session_store_refines_witness :
  (run_store (H := ascii_runtime) (NewMemoryStore 10 0) idle_session).1 =
    [Created (mkSession "s1" "greeter" 0 0 ∅); Found (mkSession "s1" "greeter" 0 0 ∅); Touched;
     Found (mkSession "s1" "greeter" 0 10 ∅); Silent; Listed []; Missing; Missing] ∧
  ∃ table, spec_run 10 ∅ idle_session (run_store (H := ascii_runtime) (NewMemoryStore 10 0) idle_session).1 table.
Proof.
  split; [by vm_compute|]. apply (session_store_refines (H := ascii_runtime) 10 0 0 idle_session).
  unfold idle_session, timely, reads.
  exists 0; split; [lia|]; split; [lia|]. do 2 (exists 10; split; [lia|]; split; [lia|]).
  exists 20; split; [lia|]; split; [lia|]. exists 21; split; [lia|]; split; [lia|].
  exists 22; split; [lia|]; split; [intros r [_ ->]; lia|]. exists 23; split; [lia|]; split; [lia|].
  exists 24; split; [lia|]; split; [lia|]. exact I.
Defined.

(** A Touch revives a session that was idle for too long, if it comes before the
    removal: the same session is found again after it was not. *)
Example touch_revives_expired_session :
  (run_store (H := ascii_runtime) (NewMemoryStore 10 0)
    [OpCreate "s1" 0 "greeter" ∅; OpListRead "" (λ _, 50); OpTouch "s1" 51; OpGetRead "s1" 52]).1 =
  [Created (mkSession "s1" "greeter" 0 0 ∅); Listed []; Touched; Found (mkSession "s1" "greeter" 0 51 ∅)].
Proof. by vm_compute. Qed.

(** The messages of a session that expired stay in memory: the manager clears
    them only when the session is closed. *)
Example expired_messages_stay :
  let m := mkManager (Create "s1" 0 "greeter" ∅ (NewMemoryStore 10 0)).2 (NewSlidingWindow 50 []) in
  let m := (SaveMessages (H := ascii_runtime) "s1" 1 [user_message "hello"] m).2 in
  let '(r, m) := LoadMessages (H := ascii_runtime) "s1" 100 100 m in
  is_ok r = false ∧ MS_sessions (M_store m) = ∅ ∧ SlidingWindow_Load_read (M_memory m) "s1" = [user_message "hello"].
Proof. by vm_compute. Qed.
