(* ===== verification/PolicyMerge.v ===== *)
(** Policies of the operator (internal/api/v1alpha1/policy_types.go,
    internal/operator/controller/policy_controller.go, policy_merge.go): their
    validation and the merging of several policies into one.

    The conversions between strings and floats are parameters; the label selector
    of a policy, which merging leaves out, is not modelled. *)
From S2P Require Import Prelude GoStd.
From Stdlib Require Import SpecFloat.
Open Scope Z_scope.

(** CostBudget defines cost budget constraints for an agent. *)
Record CostBudget := mkCostBudget { MaxDailyCost : string; Currency : string }.

(** RateLimits defines rate limiting constraints (an int32 and an int64). *)
Record RateLimits := mkRateLimits { RequestsPerMinute : Z; TokensPerMinute : Z }.

(** ContentFilter defines a content filtering rule. *)
Record ContentFilter := mkContentFilter { ContentFilter_Type : string; ContentFilter_Pattern : string }.

Global Instance ContentFilter_eq_dec : EqDecision ContentFilter.
Proof. solve_decision. Defined.

Global Instance ContentFilter_countable : Countable ContentFilter.
Proof.
  by apply (inj_countable' (λ f, (ContentFilter_Type f, ContentFilter_Pattern f)) (λ x, mkContentFilter x.1 x.2)); intros [].
Defined.

(** ToolRestrictions defines which tools are allowed or denied. *)
Record ToolRestrictions := mkToolRestrictions { AllowedTools : list string; DeniedTools : list string }.

(** PolicySpecFields contains the shared spec fields used by both Policy and
    ClusterPolicy. *)
Record PolicySpecFields := mkPolicySpecFields {
  Policy_CostBudget : option CostBudget;
  Policy_AllowedModels : list string;
  Policy_DeniedModels : list string;
  Policy_RateLimits : option RateLimits;
  Policy_ContentFilters : list ContentFilter;
  Policy_ToolRestrictions : option ToolRestrictions;
}.

Definition empty_policy : PolicySpecFields := mkPolicySpecFields None [] [] None [] None.

Section merge.
Context `{GoRuntime}.
(** strconv.ParseFloat and its errors, and strconv.FormatFloat with the format
    'f' and as many digits as needed. *)
Context (parse_float : string → result string float64) (format_float : float64 → string).

(** * Validation *)

(** The first of the second list that is in the first one. *)
Definition overlap (allowed denied : list string) : option string :=
  List.find (λ m, bool_decide (m ∈ allowed)) denied.

Definition check_cost (b : CostBudget) : option string :=
  if String.eqb (MaxDailyCost b) "" then Some "costBudget.maxDailyCost is required when costBudget is set"
  else
    match parse_float (MaxDailyCost b) with
    | Err err => Some ("costBudget.maxDailyCost must be a valid number: " +:+ err)
    | Ok val =>
        if SFleb val float_zero then Some "costBudget.maxDailyCost must be positive" else None
    end.

Definition check_limits (r : RateLimits) : option string :=
  if RequestsPerMinute r <? 0 then Some "rateLimits.requestsPerMinute must be non-negative"
  else if TokensPerMinute r <? 0 then Some "rateLimits.tokensPerMinute must be non-negative"
  else None.

Fixpoint check_filters (i : Z) (fs : list ContentFilter) : option string :=
  match fs with
  | [] => None
  | f :: fs =>
      if String.eqb (ContentFilter_Type f) "" then Some ("contentFilters[" +:+ pretty i +:+ "].type is required")
      else if String.eqb (ContentFilter_Pattern f) "" then
        Some ("contentFilters[" +:+ pretty i +:+ "].pattern is required")
      else check_filters (i + 1) fs
  end.

(** An error for an element of both lists; an empty list has no overlap. *)
Definition check_overlap (what allowedName deniedName : string) (allowed denied : list string) : option string :=
  (λ m, what +:+ " " +:+ quote m +:+ " appears in both " +:+ allowedName +:+ " and " +:+ deniedName) <$>
    overlap allowed denied.

(** validatePolicySpec validates the fields of a PolicySpecFields: the first
    error. *)
Definition validatePolicySpec (spec : PolicySpecFields) : option string :=
  match from_option check_cost None (Policy_CostBudget spec) with
  | Some err => Some err
  | None =>
  match from_option check_limits None (Policy_RateLimits spec) with
  | Some err => Some err
  | None =>
  match check_filters 0 (Policy_ContentFilters spec) with
  | Some err => Some err
  | None =>
  match check_overlap "model" "allowedModels" "deniedModels" (Policy_AllowedModels spec) (Policy_DeniedModels spec) with
  | Some err => Some err
  | None =>
      from_option (λ t, check_overlap "tool" "allowedTools" "deniedTools" (AllowedTools t) (DeniedTools t))
        None (Policy_ToolRestrictions spec)
  end end end end.

(** * Merging *)

(** The loop of mergeCostBudgets: the lowest cost so far and its currency. *)
Definition lower_cost (lowest : option (float64 * string)) (p : PolicySpecFields) : option (float64 * string) :=
  match Policy_CostBudget p with
  | None => lowest
  | Some b =>
      match parse_float (MaxDailyCost b) with
      | Err _ => lowest
      | Ok val =>
          match lowest with
          | Some (lowestCost, _) => if float_lt val lowestCost then Some (val, Currency b) else lowest
          | None => Some (val, Currency b)
          end
      end
  end.

(** mergeCostBudgets takes the lowest maxDailyCost across all policies. *)
Definition mergeCostBudgets (policies : list PolicySpecFields) : option CostBudget :=
  match foldl lower_cost None policies with
  | None => None
  | Some (lowestCost, lowestCurrency) => Some (mkCostBudget (format_float lowestCost) lowestCurrency)
  end.

(** A Go set: a map to booleans. *)
Definition set_of (l : list string) : gmap string bool := foldl (λ s m, <[m := true]> s) ∅ l.

(** [for k := range intersection { if !s[k] { delete(intersection, k) } }] *)
Definition intersect (intersection s : gmap string bool) : gmap string bool :=
  filter (λ kv, default false (s !! kv.1) = true) intersection.

(** The keys in the order in which range visits them. *)
Definition keys_of (s : gmap string bool) : list string := (map_range s).*1.

(** The intersection of the lists that are not empty, if there is one. *)
Definition intersection_of (lists : list (list string)) : option (list string) :=
  match set_of <$> List.filter (λ l, negb (bool_decide (l = []))) lists with
  | [] => None
  | s :: sets => Some (keys_of (foldl intersect s sets))
  end.

(** The union of lists. *)
Definition union_of (lists : list (list string)) : list string := keys_of (set_of (concat lists)).

(** mergeAllowedModels computes the intersection of allowed models; nil and the
    empty slice are the same to every reader. *)
Definition mergeAllowedModels (policies : list PolicySpecFields) : list string :=
  default [] (intersection_of (Policy_AllowedModels <$> policies)).

(** mergeDeniedModels computes the union of denied models. *)
Definition mergeDeniedModels (policies : list PolicySpecFields) : list string :=
  union_of (Policy_DeniedModels <$> policies).

(** The lowest positive value. *)
Definition lower_limit (min : option Z) (n : Z) : option Z :=
  if 0 <? n then
    match min with
    | Some m => if n <? m then Some n else min
    | None => Some n
    end
  else min.

(** mergeRateLimits takes the lowest rate limit values. *)
Definition mergeRateLimits (policies : list PolicySpecFields) : option RateLimits :=
  let limits := omap Policy_RateLimits policies in
  let rpm := foldl lower_limit None (RequestsPerMinute <$> limits) in
  let tpm := foldl lower_limit None (TokensPerMinute <$> limits) in
  match rpm, tpm with
  | None, None => None
  | _, _ => Some (mkRateLimits (default 0 rpm) (default 0 tpm))
  end.

(** The loop of mergeContentFilters: the first filter of each type and
    pattern. *)
Fixpoint new_filters (seen : gset ContentFilter) (fs : list ContentFilter) : list ContentFilter :=
  match fs with
  | [] => []
  | f :: fs => if bool_decide (f ∈ seen) then new_filters seen fs else f :: new_filters ({[f]} ∪ seen) fs
  end.

(** mergeContentFilters computes the union of all content filters. *)
Definition mergeContentFilters (policies : list PolicySpecFields) : list ContentFilter :=
  new_filters ∅ (flat_map Policy_ContentFilters policies).

(** mergeToolRestrictions computes intersection of allowed tools, union of
    denied tools. *)
Definition mergeToolRestrictions (policies : list PolicySpecFields) : option ToolRestrictions :=
  match omap Policy_ToolRestrictions policies with
  | [] => None
  | restrictions =>
      Some (mkToolRestrictions (default [] (intersection_of (AllowedTools <$> restrictions)))
        (union_of (DeniedTools <$> restrictions)))
  end.

(** MergePolicies merges multiple PolicySpecFields using a
    most-restrictive-wins strategy. *)
Definition MergePolicies (policies : list PolicySpecFields) : PolicySpecFields :=
  match policies with
  | [] => empty_policy
  | [p] => p
  | _ =>
      mkPolicySpecFields (mergeCostBudgets policies) (mergeAllowedModels policies) (mergeDeniedModels policies)
        (mergeRateLimits policies) (mergeContentFilters policies) (mergeToolRestrictions policies)
  end.
End merge.
