(* ===== verification/PolicyMergeFacts.v ===== *)
(** Merging is the most restrictive policy: what the merged policy permits is
    what all the policies permit, except when their lists of what is allowed have
    nothing in common. *)
From S2P Require Import Prelude GoStd GoMaps PolicyMerge.
From Stdlib Require Import SpecFloat.
Open Scope Z_scope.

(** * The order of floats *)

(** What is not below [w] and below [c] puts [w] below [c]. *)
Lemma float_lt_split v w c : w ≠ S754_nan → float_lt v c = true → float_lt v w = false → float_lt w c = true.
Proof.
  intros N. unfold float_lt, SFltb, SFcompare.
  destruct v as [[]|[]| |[] m1 e1], w as [[]|[]| |[] m2 e2], c as [[]|[]| |[] m3 e3]; try done;
    repeat match goal with
    | |- context [?a ?= ?b] => destruct (Z.compare_spec a b); subst
    | |- context [Pos.compare_cont Eq ?a ?b] => change (Pos.compare_cont Eq a b) with (Pos.compare a b)
    | |- context [Pos.compare ?a ?b] => destruct (Pos.compare_spec a b); subst
    end; simpl; try done; try lia.
Qed.

Lemma float_lt_asym v w : float_lt v w = true → float_lt w v = false.
Proof.
  unfold float_lt, SFltb, SFcompare.
  destruct v as [[]|[]| |[] m1 e1], w as [[]|[]| |[] m2 e2]; try done;
    rewrite (Z.compare_antisym e1 e2); destruct (e1 ?= e2); try done;
    change (Pos.compare_cont Eq m1 m2) with (Pos.compare m1 m2);
    change (Pos.compare_cont Eq m2 m1) with (Pos.compare m2 m1);
    rewrite (Pos.compare_antisym m1 m2); by destruct (Pos.compare m1 m2).
Qed.

Lemma float_lt_trans v w c : float_lt v w = true → float_lt w c = true → float_lt v c = true.
Proof.
  intros L1 L2. destruct (float_lt v c) eqn:E; [done|].
  pose proof (float_lt_split v c w) as S. rewrite L1, E in S.
  rewrite (float_lt_asym w c L2) in S. apply S; [|done|done]. intros ->. by destruct w as [[]|[]| |[]].
Qed.

Section facts.
Context `{GoRuntime}.

(** * Lists of names *)

Lemma set_of_snoc l x : set_of (l ++ [x]) = <[x := true]> (set_of l).
Proof. unfold set_of. by rewrite foldl_app. Qed.

Lemma set_of_lookup l x b : set_of l !! x = Some b ↔ x ∈ l ∧ b = true.
Proof.
  induction l as [|y l IH] using rev_ind; [by split; [|intros [[]%elem_of_nil _]]|].
  rewrite set_of_snoc, lookup_insert, elem_of_app, list_elem_of_singleton. case_decide; [naive_solver|].
  rewrite IH. naive_solver.
Qed.

Lemma elem_of_keys_of s x : x ∈ keys_of s ↔ is_Some (s !! x).
Proof. unfold keys_of. by rewrite elem_of_keys, elem_of_dom. Qed.

Lemma elem_of_union_of lists x : x ∈ union_of lists ↔ ∃ l, l ∈ lists ∧ x ∈ l.
Proof.
  unfold union_of. rewrite elem_of_keys_of. split.
  - intros [b [I _]%set_of_lookup]. apply list_elem_of_In, in_concat in I as (l & I1 & I2).
    exists l. by rewrite !list_elem_of_In.
  - intros (l & I1 & I2). exists true. apply set_of_lookup. split; [|done].
    apply list_elem_of_In, in_concat. exists l. by rewrite <- !list_elem_of_In.
Qed.

Lemma foldl_intersect_lookup sets s x :
  is_Some (foldl intersect s sets !! x) ↔ is_Some (s !! x) ∧ ∀ s', s' ∈ sets → s' !! x = Some true.
Proof.
  revert s. induction sets as [|s' sets IH]; intros s; simpl; [split; [intros ?; split; [done|intros ? []%elem_of_nil]|by intros []]|].
  rewrite IH. unfold intersect at 1. setoid_rewrite elem_of_cons. split.
  - intros [[b (E & D)%map_lookup_filter_Some] A]. split; [by exists b|]. intros t [->|I]; [|by apply A].
    simpl in D. by destruct (s' !! x) as [[]|].
  - intros [[b E] A]. split; [|intros t I; apply A; by right]. exists b. apply map_lookup_filter_Some.
    split; [done|]. simpl. by rewrite (A s') by (by left).
Qed.

(** The name is in every list that says something. *)
Definition allowed_by (lists : list (list string)) (x : string) : Prop := ∀ l, l ∈ lists → l = [] ∨ x ∈ l.

Lemma intersection_of_spec lists :
  match intersection_of lists with
  | None => ∀ x, allowed_by lists x
  | Some l => ∀ x, x ∈ l ↔ allowed_by lists x
  end.
Proof.
  unfold intersection_of.
  assert (∀ l, l ∈ List.filter (λ l : list string, negb (bool_decide (l = []))) lists ↔ l ∈ lists ∧ l ≠ []) as F.
  { intros l. rewrite elem_of_List_filter, negb_true_iff, bool_decide_eq_false. done. }
  destruct (List.filter _ lists) as [|l1 ls]; simpl.
  - intros x l I. destruct (decide (l = [])) as [|N]; [by left|]. by pose proof (proj2 (F l) (conj I N)) as []%elem_of_nil.
  - intros x. rewrite elem_of_keys_of, foldl_intersect_lookup. split.
    + intros [[b [I _]%set_of_lookup] A] l Il. destruct (decide (l = [])) as [|N]; [by left|right].
      pose proof (proj2 (F l) (conj Il N)) as [-> | I']%elem_of_cons; [done|].
      destruct (proj1 (set_of_lookup l x true) (A (set_of l) (list_elem_of_fmap_2 _ _ _ I'))) as [? _]. done.
    + intros A. assert (∀ l, l ∈ l1 :: ls → x ∈ l) as A' by (intros l [I N]%F; by destruct (A l I)).
      split; [exists true; apply set_of_lookup; split; [apply A'; left|done]|].
      intros s' (l & -> & I)%list_elem_of_fmap. apply set_of_lookup. split; [apply A'; by right|done].
Qed.

(** What the intersection permits, an empty result permitting everything. *)
Lemma merged_allowed lists x : (∃ y, allowed_by lists y) →
  (default [] (intersection_of lists) = [] ∨ x ∈ default [] (intersection_of lists)) ↔ allowed_by lists x.
Proof.
  intros [y Y]. pose proof (intersection_of_spec lists) as S. destruct (intersection_of lists) as [l|]; simpl.
  - rewrite <- S. split; [|by right]. intros [-> |?]; [|done]. apply S in Y. by apply elem_of_nil in Y.
  - split; [done|by left].
Qed.

(** * What a policy permits *)

Context (parse_float : string → result string float64) (format_float : float64 → string).
Abbreviation merge := (MergePolicies parse_float format_float).

(** A name, given what is allowed and what is denied; no list of what is allowed
    is no restriction. *)
Definition permits (allowed denied : list string) (x : string) : Prop := (allowed = [] ∨ x ∈ allowed) ∧ x ∉ denied.

Definition permits_model (p : PolicySpecFields) : string → Prop := permits (Policy_AllowedModels p) (Policy_DeniedModels p).

Definition permits_tool (p : PolicySpecFields) (x : string) : Prop :=
  from_option (λ t, permits (AllowedTools t) (DeniedTools t) x) True (Policy_ToolRestrictions p).

(** A number of requests and of tokens per minute; a limit that is not positive
    is no limit. *)
Definition within (limit n : Z) : Prop := 0 < limit → n ≤ limit.

Definition permits_rate (p : PolicySpecFields) (requests tokens : Z) : Prop :=
  from_option (λ r, within (RequestsPerMinute r) requests ∧ within (TokensPerMinute r) tokens)
    True (Policy_RateLimits p).

(** A daily cost; a budget that is not a number is no budget. *)
Definition permits_cost (p : PolicySpecFields) (c : float64) : Prop :=
  from_option (λ b, match parse_float (MaxDailyCost b) with Ok v => float_lt v c = false | Err _ => True end)
    True (Policy_CostBudget p).

(** The lists of what is allowed have something in common. *)
Definition compatible (policies : list PolicySpecFields) : Prop :=
  (∃ x, allowed_by (Policy_AllowedModels <$> policies) x) ∧
  (∃ x, allowed_by (AllowedTools <$> omap Policy_ToolRestrictions policies) x).

Lemma merged_models ps x : (∃ y, allowed_by (Policy_AllowedModels <$> ps) y) →
  permits (mergeAllowedModels ps) (mergeDeniedModels ps) x ↔ ∀ p, p ∈ ps → permits_model p x.
Proof.
  intros C. unfold permits, mergeAllowedModels, mergeDeniedModels, permits_model. rewrite merged_allowed by done.
  rewrite elem_of_union_of. unfold allowed_by. setoid_rewrite list_elem_of_fmap. split.
  - intros [A D] p I. split; [by apply A; exists p|]. intros I'. apply D. exists (Policy_DeniedModels p). split; [by exists p|done].
  - intros P. split.
    + intros l (p & -> & I). by destruct (P p I).
    + intros (l & (p & -> & I) & I'). by destruct (P p I).
Qed.

Lemma merged_tools ps x : (∃ y, allowed_by (AllowedTools <$> omap Policy_ToolRestrictions ps) y) →
  from_option (λ t, permits (AllowedTools t) (DeniedTools t) x) True (mergeToolRestrictions ps) ↔
  ∀ p, p ∈ ps → permits_tool p x.
Proof.
  intros C. unfold mergeToolRestrictions, permits_tool.
  assert ((∀ p, p ∈ ps → from_option (λ t, permits (AllowedTools t) (DeniedTools t) x) True (Policy_ToolRestrictions p)) ↔
    ∀ t, t ∈ omap Policy_ToolRestrictions ps → permits (AllowedTools t) (DeniedTools t) x) as ->.
  { setoid_rewrite list_elem_of_omap. split.
    - intros P t (p & I & E). specialize (P p I). by rewrite E in P.
    - intros P p I. destruct (Policy_ToolRestrictions p) as [t|] eqn:E; [|done]. simpl. apply P. by exists p. }
  destruct (omap Policy_ToolRestrictions ps) as [|t0 ts] eqn:E; [by split; [intros _ t []%elem_of_nil|]|].
  rewrite <- E in *. clear E t0 ts. set (ts := omap _ ps) in *. cbn [from_option AllowedTools DeniedTools].
  unfold permits. rewrite merged_allowed by done. rewrite elem_of_union_of. unfold allowed_by.
  setoid_rewrite list_elem_of_fmap. split.
  - intros [A D] t I. split; [by apply A; exists t|]. intros I'. apply D. exists (DeniedTools t). split; [by exists t|done].
  - intros P. split.
    + intros l (t & -> & I). by destruct (P t I).
    + intros (l & (t & -> & I) & I'). by destruct (P t I).
Qed.

Lemma lower_limit_spec ns n : within (default 0 (foldl lower_limit None ns)) n ↔ ∀ m, m ∈ ns → within m n.
Proof.
  assert (∀ min : option Z, from_option (λ m, 0 < m) True min →
    from_option (λ m, 0 < m) True (foldl lower_limit min ns) ∧
    (within (default 0 (foldl lower_limit min ns)) n ↔ within (default 0 min) n ∧ ∀ m, m ∈ ns → within m n)) as G.
  { induction ns as [|m ns IH]; intros min P; simpl.
    { split; [done|]. split; [intros ?; split; [done|intros ? []%elem_of_nil]|by intros []]. }
    assert (from_option (λ m, 0 < m) True (lower_limit min m) ∧
      (within (default 0 (lower_limit min m)) n ↔ within (default 0 min) n ∧ within m n)) as [P' W].
    { unfold lower_limit, within. destruct (Z.ltb_spec 0 m); [|split; [done|lia]].
      destruct min as [k|]; simpl in *; [destruct (Z.ltb_spec m k); simpl; lia|lia]. }
    destruct (IH _ P') as [P2 ->]. split; [done|]. rewrite W. setoid_rewrite elem_of_cons. naive_solver. }
  destruct (G None I) as [_ ->]. unfold within at 1. simpl. naive_solver lia.
Qed.

Lemma merged_rate ps requests tokens :
  from_option (λ r, within (RequestsPerMinute r) requests ∧ within (TokensPerMinute r) tokens) True (mergeRateLimits ps) ↔
  ∀ p, p ∈ ps → permits_rate p requests tokens.
Proof.
  unfold mergeRateLimits, permits_rate. set (rs := omap Policy_RateLimits ps).
  assert ((∀ p, p ∈ ps → from_option (λ r, within (RequestsPerMinute r) requests ∧ within (TokensPerMinute r) tokens)
      True (Policy_RateLimits p)) ↔
    (∀ m, m ∈ RequestsPerMinute <$> rs → within m requests) ∧ (∀ m, m ∈ TokensPerMinute <$> rs → within m tokens)) as ->.
  { setoid_rewrite list_elem_of_fmap. unfold rs. setoid_rewrite list_elem_of_omap. split.
    - intros P. split; intros m (r & -> & p & I & E); specialize (P p I); rewrite E in P; apply P.
    - intros [P1 P2] p I. destruct (Policy_RateLimits p) as [r|] eqn:E; [|done]. simpl.
      split; [apply P1|apply P2]; exists r; (split; [done|]); by exists p. }
  rewrite <- !lower_limit_spec.
  destruct (foldl lower_limit None (RequestsPerMinute <$> rs)), (foldl lower_limit None (TokensPerMinute <$> rs)); simpl; done.
Qed.

(** The cost of a policy, when it has a budget that parses. *)
Definition cost_of (p : PolicySpecFields) : option float64 :=
  match Policy_CostBudget p with
  | Some b => match parse_float (MaxDailyCost b) with Ok v => Some v | Err _ => None end
  | None => None
  end.

Lemma permits_cost_of p c : permits_cost p c ↔ from_option (λ v, float_lt v c = false) True (cost_of p).
Proof. unfold permits_cost, cost_of. destruct (Policy_CostBudget p); [|done]. simpl. by destruct (parse_float _). Qed.

(** A comparison with NaN is false. *)
Lemma float_lt_nan v c : v = S754_nan → float_lt v c = false.
Proof. by intros ->. Qed.

Lemma lower_cost_step lowest p : ∃ cur, lower_cost parse_float lowest p =
  match cost_of p, lowest with
  | None, _ => lowest
  | Some v, None => Some (v, cur)
  | Some v, Some (w, _) => if float_lt v w then Some (v, cur) else lowest
  end.
Proof.
  unfold lower_cost, cost_of. destruct (Policy_CostBudget p) as [b|]; [|by exists ""]. exists (Currency b).
  destruct (parse_float _); [|done]. by destruct lowest as [[w cur]|].
Qed.

Lemma lower_cost_nan ps cur : ∃ cur', foldl (lower_cost parse_float) (Some (S754_nan, cur)) ps = Some (S754_nan, cur').
Proof.
  induction ps as [|p ps IH]; simpl; [by eexists|]. destruct (lower_cost_step (Some (S754_nan, cur)) p) as [cur' ->].
  destruct (cost_of p) as [v|]; [|done]. assert (float_lt v S754_nan = false) as ->; [|done].
  by destruct v as [[]|[]| |[]].
Qed.

(** The lowest budget; [w] is what the loop has so far. *)
Lemma lower_cost_spec ps c w cur s : w ≠ S754_nan → parse_float s = Ok w → ∃ v cur' s',
  foldl (lower_cost parse_float) (Some (w, cur)) ps = Some (v, cur') ∧ parse_float s' = Ok v ∧
  (float_lt v c = false ↔ float_lt w c = false ∧ ∀ p, p ∈ ps → permits_cost p c).
Proof.
  revert w cur s. induction ps as [|p ps IH]; intros w cur s N E; simpl.
  { exists w, cur, s. split_and!; [done..|]. split; [intros ?; split; [done|intros ? []%elem_of_nil]|by intros []]. }
  destruct (lower_cost_step (Some (w, cur)) p) as [cur' ->].
  assert (permits_cost p c ↔ from_option (λ v, float_lt v c = false) True (cost_of p)) as P by apply permits_cost_of.
  setoid_rewrite elem_of_cons. unfold cost_of in *.
  assert (∀ v s', v ≠ S754_nan → parse_float s' = Ok v →
    (float_lt v c = false ↔ float_lt w c = false ∧ permits_cost p c) → ∃ v' cur2 s2,
    foldl (lower_cost parse_float) (Some (v, cur')) ps = Some (v', cur2) ∧ parse_float s2 = Ok v' ∧
    (float_lt v' c = false ↔ float_lt w c = false ∧ ∀ q, q = p ∨ q ∈ ps → permits_cost q c)) as K.
  { intros v s' Nv Ev L. destruct (IH v cur' s' Nv Ev) as (v' & cur2 & s2 & F & E2 & R).
    exists v', cur2, s2. split_and!; [done..|]. rewrite R, L. naive_solver. }
  assert (permits_cost p c → ∃ v' cur2 s2,
    foldl (lower_cost parse_float) (Some (w, cur)) ps = Some (v', cur2) ∧ parse_float s2 = Ok v' ∧
    (float_lt v' c = false ↔ float_lt w c = false ∧ ∀ q, q = p ∨ q ∈ ps → permits_cost q c)) as Same.
  { intros Pc. destruct (IH w cur s N E) as (v' & cur2 & s2 & F & E2 & R).
    exists v', cur2, s2. split_and!; [done..|]. rewrite R. naive_solver. }
  destruct (Policy_CostBudget p) as [b|] eqn:Eb; [|by apply Same, P].
  destruct (parse_float (MaxDailyCost b)) as [v|err] eqn:Ev; [|by apply Same, P]. simpl in P.
  destruct (float_lt v w) eqn:Lt.
  - apply (K v (MaxDailyCost b)); [by intros ->|done|]. rewrite P. split; [|by intros []]. intros V. split; [|done].
    destruct (float_lt w c) eqn:Wc; [|done]. by rewrite (float_lt_trans v w c) in V.
  - destruct (IH w cur s N E) as (v' & cur2 & s2 & F & E2 & R). exists v', cur2, s2. split_and!; [done..|]. rewrite R.
    assert (float_lt w c = false → permits_cost p c) as Pw; [|naive_solver]. intros V. apply P.
    destruct (float_lt v c) eqn:Vc; [|done]. by rewrite (float_lt_split v w c) in V.
Qed.

(** The merged budget, when not the first of all is NaN. *)
Lemma merged_cost ps c : (∀ s v, parse_float s = Ok v → parse_float (format_float v) = Ok v) →
  from_option (λ b, match parse_float (MaxDailyCost b) with Ok v => float_lt v c = false | Err _ => True end)
    True (mergeCostBudgets parse_float format_float ps) ↔
  (∀ p, p ∈ ps → permits_cost p c) ∨ head (omap cost_of ps) = Some S754_nan.
Proof.
  intros Round. unfold mergeCostBudgets.
  induction ps as [|p ps IH]; simpl; [split; [intros _; left; intros ? []%elem_of_nil|done]|].
  destruct (lower_cost_step None p) as [cur ->]. setoid_rewrite elem_of_cons.
  pose proof (permits_cost_of p c) as P. destruct (cost_of p) as [w|] eqn:Ec; simpl in *.
  2: { etransitivity; [exact IH|]. naive_solver. }
  assert (∃ s, parse_float s = Ok w) as [s Es].
  { unfold cost_of in Ec. destruct (Policy_CostBudget p) as [b|]; [|done]. exists (MaxDailyCost b).
    by destruct (parse_float _); simplify_eq. }
  assert (w = S754_nan ∨ w ≠ S754_nan) as [->|N] by (destruct w; auto).
  - destruct (lower_cost_nan ps cur) as [cur' ->]. simpl. rewrite (Round s) by done. naive_solver.
  - destruct (lower_cost_spec ps c w cur s N Es) as (v & cur' & s' & -> & Ev & R). simpl.
    rewrite (Round s' v Ev), R, <- P. split; [intros [? ?]; left; naive_solver|]. intros [A|[= E]]; [|by destruct N].
    split; [apply A; by left|]. intros q I. apply A. by right.
Qed.

Lemma new_filters_spec fs seen f : f ∈ new_filters seen fs ↔ f ∈ fs ∧ f ∉ seen.
Proof.
  revert seen. induction fs as [|f' fs IH]; intros seen; simpl; [set_solver|].
  case_bool_decide; rewrite ?elem_of_cons, IH; destruct (decide (f = f')); set_solver.
Qed.

(** C17. Most restrictive wins: when the lists of allowed models and of allowed
    tools that the policies give have something in common, and the text of a
    float parses back to it, as strconv documents, the merged policy permits a
    model, a tool or a rate exactly when every policy permits it, and filters what
    one of them filters; and it permits a daily cost exactly when every policy
    permits it, or when the first budget that parses is NaN, with which nothing
    compares as lower. Without the first hypothesis the merged lists are empty,
    which permits everything. *)
Theorem merge_most_restrictive (policies : list PolicySpecFields)
    (Common : compatible policies)
    (Round : ∀ s v, parse_float s = Ok v → parse_float (format_float v) = Ok v) :
  let p := merge policies in
  (∀ m, permits_model p m ↔ ∀ q, q ∈ policies → permits_model q m) ∧
  (∀ t, permits_tool p t ↔ ∀ q, q ∈ policies → permits_tool q t) ∧
  (∀ requests tokens, permits_rate p requests tokens ↔ ∀ q, q ∈ policies → permits_rate q requests tokens) ∧
  (∀ c, permits_cost p c ↔
     (∀ q, q ∈ policies → permits_cost q c) ∨ head (omap cost_of policies) = Some S754_nan) ∧
  (∀ f, f ∈ Policy_ContentFilters p ↔ ∃ q, q ∈ policies ∧ f ∈ Policy_ContentFilters q).
Proof.
  destruct Common as [Models Tools]. destruct policies as [|p1 [|p2 ps]]; cbv zeta.
  - assert (∀ P : PolicySpecFields → Prop, (∀ q, q ∈ [] → P q) ↔ True) as E by (split; [done|intros _ q []%elem_of_nil]).
    setoid_rewrite E. unfold permits_model, permits. simpl. split_and!; try done; [set_solver|naive_solver|set_solver].
  - assert (∀ P : PolicySpecFields → Prop, (∀ q, q ∈ [p1] → P q) ↔ P p1) as E by (set_solver). setoid_rewrite E.
    split_and!; try done; [|set_solver]. intros c. split; [by left|]. intros [?|Nn]; [done|].
    apply permits_cost_of. simpl in Nn |- *. destruct (cost_of p1) as [v|]; [|done]. injection Nn as ->. done.
  - unfold merge. set (policies := p1 :: p2 :: ps) in *. cbn [MergePolicies]. fold policies. clearbody policies. split_and!.
    + intros m. by apply merged_models.
    + intros t. by apply merged_tools.
    + apply merged_rate.
    + intros c. by apply merged_cost.
    + intros f. simpl. unfold mergeContentFilters. rewrite new_filters_spec, list_elem_of_In, in_flat_map.
      setoid_rewrite <- list_elem_of_In. set_solver.
Qed.
End facts.

(** * Examples *)

(** A table of two spellings. *)
Definition parse_two (s : string) : result string float64 :=
  if String.eqb s "5" then Ok (float_of_Z 5) else if String.eqb s "10" then Ok (float_of_Z 10) else Err "invalid syntax".

Definition format_two (f : float64) : string := if float_eq f (float_of_Z 5) then "5" else "10".

Definition policy (cost : string) (allowed denied : list string) (rpm : Z) : PolicySpecFields :=
  mkPolicySpecFields (Some (mkCostBudget cost "USD")) allowed denied (Some (mkRateLimits rpm 0)) [] None.

Definition two_policies : list PolicySpecFields :=
  [policy "10" ["gpt-4o"; "claude"] [] 60; policy "5" ["claude"; "llama"] ["gpt-4o"] 0].

Lemma merge_most_restrictive_witness :
  let p := MergePolicies (H := ascii_runtime) parse_two format_two two_policies in
  p = policy "5" ["claude"] ["gpt-4o"] 60 ∧
  (∀ m, permits_model p m ↔ ∀ q, q ∈ two_policies → permits_model q m) ∧
  (∀ t, permits_tool p t ↔ ∀ q, q ∈ two_policies → permits_tool q t) ∧
  (∀ requests tokens, permits_rate p requests tokens ↔ ∀ q, q ∈ two_policies → permits_rate q requests tokens) ∧
  (∀ c, permits_cost parse_two p c ↔
     (∀ q, q ∈ two_policies → permits_cost parse_two q c) ∨
     head (omap (cost_of parse_two) two_policies) = Some S754_nan) ∧
  (∀ f, f ∈ Policy_ContentFilters p ↔ ∃ q, q ∈ two_policies ∧ f ∈ Policy_ContentFilters q).
Proof.
  split; [by vm_compute|]. apply (merge_most_restrictive (H := ascii_runtime) parse_two format_two two_policies).
  - split; exists "claude"; intros l I; cbn in I; [|by apply elem_of_nil in I].
    apply elem_of_cons in I as [-> | [-> | []%elem_of_nil]%elem_of_cons]; right; set_solver.
  - intros s v. unfold parse_two. destruct (String.eqb s "5"), (String.eqb s "10"); intros [= <-]; by vm_compute.
Defined.

(** Two policies that allow different models: the merged policy has no list of
    allowed models, and permits every model. *)
Example disjoint_policies_permit_everything (H : GoRuntime) parse_float format_float :
  let p := MergePolicies parse_float format_float
    [policy "5" ["claude"] [] 0; policy "5" ["llama"] [] 0] in
  Policy_AllowedModels p = [] ∧ ∀ m, permits_model p m.
Proof.
  assert (Policy_AllowedModels (MergePolicies parse_float format_float
    [policy "5" ["claude"] [] 0; policy "5" ["llama"] [] 0]) = []) as E.
  { simpl. unfold mergeAllowedModels, intersection_of. simpl. unfold keys_of.
    destruct (map_range _) as [|[k b] l] eqn:E; [done|]. exfalso.
    assert ((k, b) ∈ map_range (intersect (set_of ["claude"]) (set_of ["llama"]))) as I by (rewrite E; left).
    apply elem_of_map_range in I. by vm_compute in I. }
  split; [exact E|]. intros m. unfold permits_model, permits. split; [by left|]. simpl. unfold mergeDeniedModels.
  intros (l & I & I')%elem_of_union_of. cbn in I.
  apply elem_of_cons in I as [-> | [-> | []%elem_of_nil]%elem_of_cons]; by apply elem_of_nil in I'.
Qed.

(** A budget that is not a number, which validation accepts, wins over every
    other budget. *)
Example nan_budget_wins (H : GoRuntime) :
  let parse_float s := if String.eqb s "nan" then Ok S754_nan else parse_two s in
  let format_float f := match f with S754_nan => "NaN" | _ => format_two f end in
  validatePolicySpec parse_float (policy "nan" [] [] 0) = None ∧
  Policy_CostBudget (MergePolicies parse_float format_float [policy "nan" [] [] 0; policy "5" [] [] 0]) =
    Some (mkCostBudget "NaN" "USD").
Proof. by vm_compute. Qed.
