(* ===== verification/Tools.v ===== *)
(** Tools (internal/tools/registry.go, allowlist.go, env.go, ssrf.go and parts of
    http.go, inline.go): the registry that runs tool calls concurrently, and what
    guards the execution of commands and requests.

    Executors are sequences of accesses to a world [W]; running processes and
    requests, resolving names and the environment of the process are parameters. *)
From S2P Require Import Prelude GoStd Ir Loop.
Open Scope Z_scope.

(** * The registry *)

Section registry.
Context {W : Type}.

(** What an executor does, step by step: it returns, or accesses the world,
    which other goroutines may have changed since its last step. *)
Inductive ToolRun :=
  | Returns (output : result string string)
  | Access (next : W → W * ToolRun).

(** Executor executes a tool call and returns the result as a string. *)
Definition Executor : Type := Attrs → ToolRun.

(** Registry manages tool executors and dispatches tool calls. *)
Record Registry := mkRegistry {
  Registry_executors : gmap string Executor;
  Registry_tools : gmap string ToolDefinition;
}.

Definition NewRegistry : Registry := mkRegistry ∅ ∅.

(** Register adds a tool executor to the registry. *)
Definition Register (name : string) (def : ToolDefinition) (executor : Executor) (r : Registry) : Registry :=
  mkRegistry (<[name := executor]> (Registry_executors r)) (<[name := def]> (Registry_tools r)).

Context `{GoRuntime}.

(** Execute dispatches a tool call to its registered executor. *)
Definition Registry_Execute (r : Registry) (call : ToolCall) : ToolRun :=
  match Registry_executors r !! ToolCall_Name call with
  | None => Returns (Err ("tool " +:+ quote (ToolCall_Name call) +:+ " not registered"))
  | Some executor => executor (ToolCall_Input call)
  end.

(** The result of a call. *)
Definition tool_result (call : ToolCall) (r : result string string) : ToolResult :=
  match r with
  | Err err => mkToolResult (ToolCall_ID call) err true
  | Ok output => mkToolResult (ToolCall_ID call) output false
  end.

(** A goroutine of ExecuteConcurrent, with its arguments: before its first step,
    in the executor, with the deferred wg.Done left, and ended. *)
Inductive Goroutine :=
  | Started (idx : nat) (tc : ToolCall)
  | Running (idx : nat) (tc : ToolCall) (e : ToolRun)
  | Deferred
  | Ended.

(** What the goroutines share: the loop variable of the caller, the counter of
    the WaitGroup, the slice of results and the world. *)
Record Pool := mkPool {
  p_next : nat;
  p_wg : nat;
  p_results : list ToolResult;
  p_goroutines : list Goroutine;
  p_world : W;
}.

(** The caller starts the next goroutine. *)
Definition spawn (calls : list ToolCall) (p : Pool) : option Pool :=
  (λ tc, mkPool (S (p_next p)) (S (p_wg p)) (p_results p) (p_goroutines p ++ [Started (p_next p) tc]) (p_world p))
    <$> calls !! p_next p.

(** One step of the goroutine that was started as number [i]. *)
Definition run_call (r : Registry) (i : nat) (p : Pool) : option Pool :=
  let become g := <[i := g]> (p_goroutines p) in
  match p_goroutines p !! i with
  | Some (Started idx tc) =>
      Some (mkPool (p_next p) (p_wg p) (p_results p) (become (Running idx tc (Registry_Execute r tc))) (p_world p))
  | Some (Running idx tc (Access next)) =>
      let '(w, e) := next (p_world p) in
      Some (mkPool (p_next p) (p_wg p) (p_results p) (become (Running idx tc e)) w)
  | Some (Running idx tc (Returns output)) =>
      Some (mkPool (p_next p) (p_wg p) (<[idx := tool_result tc output]> (p_results p)) (become Deferred) (p_world p))
  | Some Deferred => Some (mkPool (p_next p) (pred (p_wg p)) (p_results p) (become Ended) (p_world p))
  | Some Ended | None => None
  end.

(** A step of the caller or of a goroutine. *)
Definition pool_step (r : Registry) (calls : list ToolCall) (c : option nat) (p : Pool) : option Pool :=
  match c with
  | None => spawn calls p
  | Some i => run_call r i p
  end.

Definition start_pool (calls : list ToolCall) (w : W) : Pool :=
  mkPool 0 0 (replicate (length calls) (mkToolResult "" "" false)) [] w.

(** The caller is past its loop and wg.Wait. *)
Definition pool_done (calls : list ToolCall) (p : Pool) : Prop :=
  p_next p = length calls ∧ p_wg p = 0%nat.

(** The steps of a schedule that can be taken. *)
Definition run_schedule (r : Registry) (calls : list ToolCall) (schedule : list (option nat)) (p : Pool) : Pool :=
  foldl (λ p c, default p (pool_step r calls c p)) p schedule.

(** The rest of a goroutine without interruption. *)
Fixpoint finish_execution (e : ToolRun) (w : W) : result string string * W :=
  match e with
  | Returns output => (output, w)
  | Access next => let '(w, e) := next w in finish_execution e w
  end.

Definition finish_goroutine (r : Registry) (i : nat) (p : Pool) : Pool :=
  let finish idx tc e :=
    let '(output, w) := finish_execution e (p_world p) in
    mkPool (p_next p) (pred (p_wg p)) (<[idx := tool_result tc output]> (p_results p))
      (<[i := Ended]> (p_goroutines p)) w in
  match p_goroutines p !! i with
  | Some (Started idx tc) => finish idx tc (Registry_Execute r tc)
  | Some (Running idx tc e) => finish idx tc e
  | Some Deferred => mkPool (p_next p) (pred (p_wg p)) (p_results p) (<[i := Ended]> (p_goroutines p)) (p_world p)
  | _ => p
  end.

(** ExecuteConcurrent dispatches multiple tool calls concurrently and returns
    results. The steps are taken in the order of [schedule]; what it leaves is
    started and finished one after the other. *)
Definition Registry_ExecuteConcurrent (schedule : list (option nat)) (r : Registry) (calls : list ToolCall) (w : W) :
    list ToolResult * W :=
  let p := run_schedule r calls schedule (start_pool calls w) in
  let p := run_schedule r calls (replicate (length calls) None) p in
  let p := foldl (λ p i, finish_goroutine r i p) p (seq 0 (length calls)) in
  (p_results p, p_world p).

(** Definitions returns all registered tool definitions. *)
Definition Registry_Definitions (r : Registry) : list ToolDefinition := (map_range (Registry_tools r)).*2.

(** The registry as the tool executor of the agent loop; [schedule] chooses the
    order of the steps of each call. *)
Definition registry_executor (schedule : list ToolCall → W → list (option nat)) (r : Registry) : ToolExecutor W :=
  mkToolExecutor W (λ calls w, Registry_ExecuteConcurrent (schedule calls w) r calls w)
    (λ _, Some (Registry_Definitions r)).
End registry.
Global Arguments Registry : clear implicits.
Global Arguments Executor : clear implicits.
Global Arguments ToolRun : clear implicits.
Global Arguments Goroutine : clear implicits.
Global Arguments Pool : clear implicits.

(** * Commands *)

(** filepath.Base: the last element of a path. *)
Fixpoint trim_slashes (rev_path : list Ascii.ascii) : list Ascii.ascii :=
  match rev_path with
  | c :: rest => if Ascii.eqb c "/" then trim_slashes rest else rev_path
  | [] => []
  end.

Definition Base (path : string) : string :=
  if String.eqb path "" then "."
  else
    let trimmed := String.string_of_list_ascii (rev (trim_slashes (rev (String.list_ascii_of_string path)))) in
    if String.eqb trimmed "" then "/" else default trimmed (last (Split trimmed "/")).

(** The errors of ValidateBinary. *)
Inductive AllowError :=
  | ErrBinaryNotAllowed (binary : string)
  | ErrBinaryNotFound (binary : string)
  | ErrNoAllowlist.

Section commands.
Context `{GoRuntime}.
(** exec.LookPath finds the binary; os.Getenv; the home directory of the user. *)
Context (LookPath : string → bool) (Getenv : string → string) (user_home : option string).

Definition AllowError_Error (e : AllowError) : string :=
  match e with
  | ErrBinaryNotAllowed b => "binary " +:+ quote b +:+ " not in allowlist"
  | ErrBinaryNotFound b => "binary " +:+ quote b +:+ " not found on system"
  | ErrNoAllowlist => "command tool execution blocked: no allowlist configured. Configure allowed_commands in agent or server config."
  end.

(** ValidateBinary checks if a binary name is permitted by the allowlist. *)
Definition ValidateBinary (binary : string) (allowlist : list string) : option AllowError :=
  match allowlist with
  | [] => Some ErrNoAllowlist
  | _ =>
      let baseName := Base binary in
      if negb (existsb (String.eqb baseName) allowlist) then Some (ErrBinaryNotAllowed baseName)
      else if LookPath binary then None else Some (ErrBinaryNotFound baseName)
  end.

(** SafeEnv returns a minimal environment for tool execution. *)
Definition SafeEnv (secrets : gmap string string) : list string :=
  let pathVal := if String.eqb (Getenv "PATH") "" then "/usr/local/bin:/usr/bin:/bin" else Getenv "PATH" in
  let homeVal := if String.eqb (Getenv "HOME") "" then default "" user_home else Getenv "HOME" in
  ["PATH=" +:+ pathVal] ++ (if String.eqb homeVal "" then [] else ["HOME=" +:+ homeVal]) ++
  ((λ '(k, v), k +:+ "=" +:+ v) <$> map_range secrets).

(** The interpreter and the file extension of a language. *)
Definition interpreterForLanguage (lang : string) : result string (string * string) :=
  if bool_decide (lang ∈ ["python"; "python3"]) then Ok ("python3", ".py")
  else if bool_decide (lang ∈ ["javascript"; "node"]) then Ok ("node", ".js")
  else if bool_decide (lang ∈ ["bash"; "sh"]) then Ok ("bash", ".sh")
  else if bool_decide (lang ∈ ["ruby"]) then Ok ("ruby", ".rb")
  else Err ("inline tool: unsupported language " +:+ quote lang).
End commands.

(** * Requests *)

(** A net.IP: four or sixteen bytes. *)
Abbreviation IP := (list Z).

Definition IPv6loopback : IP := replicate 15 0 ++ [1].

(** To4: the four bytes of an IPv4 address, which may be written as sixteen. *)
Definition To4 (ip : IP) : option IP :=
  if (length ip =? 4)%nat then Some ip
  else if (length ip =? 16)%nat && bool_decide (take 12 ip = replicate 10 0 ++ [0xff; 0xff]) then Some (drop 12 ip)
  else None.

(** A network: its number, and the length of its prefix. *)
Record IPNet := mkIPNet { IPNet_IP : IP; IPNet_ones : Z }.

(** net.CIDRMask *)
Definition mask_byte (ones : Z) (i : nat) : Z :=
  256 - 2 ^ (8 - Z.min 8 (Z.max 0 (ones - 8 * Z.of_nat i))).

(** The bytes agree under the mask. *)
Fixpoint masked_eq (ones : Z) (i : nat) (number ip : IP) : bool :=
  match number, ip with
  | n :: number, b :: ip =>
      (Z.land n (mask_byte ones i) =? Z.land b (mask_byte ones i)) && masked_eq ones (S i) number ip
  | _, _ => true
  end.

Definition IPNet_Contains (n : IPNet) (ip : IP) : bool :=
  let ip := default ip (To4 ip) in
  (length ip =? length (IPNet_IP n))%nat && masked_eq (IPNet_ones n) 0 (IPNet_IP n) ip.

(** The methods of net.IP that the check uses. *)
Definition IsLoopback (ip : IP) : bool :=
  match To4 ip with
  | Some ip4 => nth 0 ip4 0 =? 127
  | None => bool_decide (ip = IPv6loopback)
  end.

Definition IsLinkLocalUnicast (ip : IP) : bool :=
  match To4 ip with
  | Some ip4 => (nth 0 ip4 0 =? 169) && (nth 1 ip4 0 =? 254)
  | None => (length ip =? 16)%nat && (nth 0 ip 0 =? 0xfe) && (Z.land (nth 1 ip 0) 0xc0 =? 0x80)
  end.

Definition IsLinkLocalMulticast (ip : IP) : bool :=
  match To4 ip with
  | Some ip4 => (nth 0 ip4 0 =? 224) && (nth 1 ip4 0 =? 0) && (nth 2 ip4 0 =? 0)
  | None => (length ip =? 16)%nat && (nth 0 ip 0 =? 0xff) && (Z.land (nth 1 ip 0) 0x0f =? 0x02)
  end.

Definition privateRanges : list IPNet :=
  [mkIPNet [10; 0; 0; 0] 8; mkIPNet [172; 16; 0; 0] 12; mkIPNet [192; 168; 0; 0] 16; mkIPNet [169; 254; 0; 0] 16;
   mkIPNet [127; 0; 0; 0] 8; mkIPNet IPv6loopback 128; mkIPNet (0xfc :: replicate 15 0) 7;
   mkIPNet ([0xfe; 0x80] ++ replicate 14 0) 10].

(** IsPrivateIP checks if an IP address is in a private/internal range. *)
Definition IsPrivateIP (ip : IP) : bool :=
  existsb (λ r, IPNet_Contains r ip) privateRanges ||
  (IsLoopback ip || IsLinkLocalUnicast ip || IsLinkLocalMulticast ip).

(** What DialContext does with an address; the index out of range on an empty
    list of addresses is a panic. *)
Inductive Dialed :=
  | Refused (err : string)
  | Connects (ip : IP) (port : string)
  | DialPanics.

Section dial.
Context `{GoRuntime}.
(** net.SplitHostPort, LookupIPAddr and IP.String. *)
Context (SplitHostPort : string → result string (string * string)) (LookupIPAddr : string → result string (list IP))
  (IP_String : IP → string).

(** The dial function of NewSafeTransport. *)
Definition DialContext (addr : string) : Dialed :=
  match SplitHostPort addr with
  | Err err => Refused ("SSRF: invalid address " +:+ quote addr +:+ ": " +:+ err)
  | Ok (host, port) =>
      match LookupIPAddr host with
      | Err err => Refused ("SSRF: DNS resolution failed for " +:+ quote host +:+ ": " +:+ err)
      | Ok ips =>
          match List.find IsPrivateIP ips, ips with
          | Some ip, _ =>
              Refused ("SSRF: private network access denied for " +:+ host +:+ " (" +:+ IP_String ip +:+ ")")
          | None, ip :: _ => Connects ip port
          | None, [] => DialPanics
          end
      end
  end.
End dial.

Definition defaultMaxResponseSize : Z := 10 * 1024 * 1024.

(** ReadBody reads the response body with a size limit, one byte more to detect
    truncation; [body] is what the reader holds, without its errors. *)
Definition ReadBody (body : string) (limit : Z) : string * bool :=
  let limit := if limit <=? 0 then defaultMaxResponseSize else limit in
  let data := str_take (Z.to_nat (limit + 1)) body in
  if limit <? Z.of_nat (String.length data) then (str_take (Z.to_nat limit) data, true) else (data, false).

(** SafeBodyString converts an HTTP response body to a safe string
    representation. *)
Definition SafeBodyString (body contentType : string) : string :=
  let s := ReplaceAll body "{{" "{ {" in
  let s := ReplaceAll s "}}" "} }" in
  if Contains contentType "text/html" then ReplaceAll (ReplaceAll s "<" "&lt;") ">" "&gt;" else s.
