(* ===== verification/ToolsFacts.v ===== *)
(** What guards the tools: concurrent calls get their own results however their
    steps interleave, and so the loop of an agent with the registry keeps a
    conversation in order; requests go to no private address; the delimiters that sanitizing
    leaves. *)
From S2P Require Import Prelude GoStd GoMaps Ir Loop LoopFacts Tools.
Open Scope Z_scope.

(** * Concurrent calls *)

(** The steps of an execution that found the world as the first component of
    each pair and left the second, and what it returned. *)
Inductive outcome {W} : ToolRun W → list (W * W) → result string string → Prop :=
  | outcome_returns output : outcome (Returns output) [] output
  | outcome_access next w tr output :
      outcome (next w).2 tr output → outcome (Access next) ((w, (next w).1) :: tr) output.

(** Accesses of calls, each by its index, that lead from one world to another. *)
Fixpoint chained {W} (w : W) (tr : list (nat * (W * W))) (w' : W) : Prop :=
  match tr with
  | [] => w' = w
  | (_, (before, after)) :: tr => before = w ∧ chained after tr w'
  end.

Lemma chained_snoc {W} (w w' w'' : W) tr i : chained w tr w' → chained w (tr ++ [(i, (w', w''))]) w''.
Proof. revert w. induction tr as [|[j [a b]] tr IH]; intros w; simpl; [by intros ->|]. intros [-> C]. split; [done|by apply IH]. Qed.

(** The accesses of one call. *)
Definition accesses {W} (i : nat) (tr : list (nat * (W * W))) : list (W * W) :=
  snd <$> filter (λ e, e.1 = i) tr.

Lemma accesses_snoc {W} i j (x : W * W) tr :
  accesses i (tr ++ [(j, x)]) = accesses i tr ++ (if decide (j = i) then [x] else []).
Proof.
  unfold accesses. rewrite filter_app, fmap_app. f_equal.
  destruct (decide (j = i)) as [->|N]; [by rewrite filter_cons_True|by rewrite filter_cons_False].
Qed.

(** The steps of the goroutines that are not over. *)
Definition alive {W} (g : Goroutine W) : bool := match g with Ended => false | _ => true end.

Definition count_alive {W} (gs : list (Goroutine W)) : nat := length (List.filter alive gs).

Lemma count_alive_app {W} (gs gs' : list (Goroutine W)) : count_alive (gs ++ gs') = (count_alive gs + count_alive gs')%nat.
Proof. unfold count_alive. by rewrite List.filter_app, length_app. Qed.

Lemma count_alive_insert {W} (gs : list (Goroutine W)) i g g' : gs !! i = Some g → alive g = true →
  count_alive (<[i := g']> gs) = (if alive g' then count_alive gs else pred (count_alive gs)).
Proof.
  intros E A. rewrite (insert_take_drop gs i g') by by eapply lookup_lt_Some.
  pose proof (f_equal count_alive (take_drop_middle gs i g E)) as C. revert C.
  rewrite !count_alive_app. unfold count_alive. simpl. rewrite A. simpl. intros <-.
  destruct (alive g'); simpl; lia.
Qed.

Section registry.
Context {W : Type} `{GoRuntime}.
Context (r : Registry W) (calls : list ToolCall).

(** What a goroutine has made of its call and of its place in the results. *)
Definition progress (results : list ToolResult) (tr : list (nat * (W * W))) (i : nat) (tc : ToolCall)
    (g : Goroutine W) : Prop :=
  match g with
  | Started idx tc' => idx = i ∧ tc' = tc ∧ accesses i tr = []
  | Running idx tc' e => idx = i ∧ tc' = tc ∧
      ∀ rest output, outcome e rest output → outcome (Registry_Execute r tc) (accesses i tr ++ rest) output
  | _ => ∃ output, outcome (Registry_Execute r tc) (accesses i tr) output ∧ results !! i = Some (tool_result tc output)
  end.

Record pool_wf (w0 : W) (p : Pool W) (tr : list (nat * (W * W))) : Prop := {
  pw_world : chained w0 tr (p_world p);
  pw_results : length (p_results p) = length calls;
  pw_next : (p_next p ≤ length calls)%nat;
  pw_goroutines : length (p_goroutines p) = p_next p;
  pw_wg : p_wg p = count_alive (p_goroutines p);
  pw_later i : (p_next p ≤ i)%nat → accesses i tr = [];
  pw_progress i g tc : p_goroutines p !! i = Some g → calls !! i = Some tc → progress (p_results p) tr i tc g;
}.

Lemma start_pool_wf w : pool_wf w (start_pool calls w) [].
Proof. split; simpl; try done; [by rewrite length_replicate|lia]. Qed.

Lemma spawn_wf w0 p q tr : pool_wf w0 p tr → spawn calls p = Some q → pool_wf w0 q tr.
Proof.
  intros Wf. unfold spawn. destruct (calls !! p_next p) as [tc|] eqn:E; [|done]. intros [= <-].
  pose proof (lookup_lt_Some _ _ _ E) as Lt. split; simpl; try apply Wf.
  - lia.
  - rewrite length_app, (pw_goroutines _ _ _ Wf). simpl. lia.
  - rewrite count_alive_app, (pw_wg _ _ _ Wf). unfold count_alive. simpl. lia.
  - intros i L. apply (pw_later _ _ _ Wf). lia.
  - intros i g tc' [G|[L G]]%lookup_app_Some Ec; [by eapply pw_progress|].
    rewrite (pw_goroutines _ _ _ Wf) in L, G. apply list_lookup_singleton_Some in G as [G <-].
    assert (i = p_next p) as -> by lia. simplify_eq. simpl. split_and!; [done..|]. by apply (pw_later _ _ _ Wf).
Qed.

(** What a goroutine does keeps the others as they are. *)
Lemma become_wf w0 p tr i g g' tr' results' w' wg' :
  pool_wf w0 p tr → p_goroutines p !! i = Some g → alive g = true →
  chained w0 tr' w' → length results' = length calls →
  (∀ j, j ≠ i → accesses j tr' = accesses j tr ∧ results' !! j = p_results p !! j) →
  wg' = (if alive g' then p_wg p else pred (p_wg p)) →
  (∀ tc, calls !! i = Some tc → progress (p_results p) tr i tc g → progress results' tr' i tc g') →
  pool_wf w0 (mkPool (p_next p) wg' results' (<[i := g']> (p_goroutines p)) w') tr'.
Proof.
  intros Wf G A C L O -> P. pose proof (lookup_lt_Some _ _ _ G) as Lt. rewrite (pw_goroutines _ _ _ Wf) in Lt.
  split; simpl; try done.
  - apply Wf.
  - by rewrite length_insert, (pw_goroutines _ _ _ Wf).
  - by rewrite (count_alive_insert _ _ _ _ G A), (pw_wg _ _ _ Wf).
  - intros j Lj. destruct (O j) as [-> _]; [lia|]. by apply (pw_later _ _ _ Wf).
  - intros j h tc Ej Ec. destruct (decide (j = i)) as [->|N].
    + rewrite list_lookup_insert_eq in Ej by by eapply lookup_lt_Some. injection Ej as <-.
      apply P; [done|]. by eapply pw_progress.
    + rewrite list_lookup_insert_ne in Ej by done. pose proof (pw_progress _ _ _ Wf _ _ _ Ej Ec) as Pj.
      destruct (O j N) as [Ea Er]. unfold progress in *. by rewrite Ea, Er.
Qed.

Lemma run_call_wf w0 p q tr i : pool_wf w0 p tr → run_call r i p = Some q → ∃ tr', pool_wf w0 q tr'.
Proof.
  intros Wf. unfold run_call. destruct (p_goroutines p !! i) as [g|] eqn:G; [|done].
  pose proof (lookup_lt_Some _ _ _ G) as Lt. rewrite (pw_goroutines _ _ _ Wf) in Lt.
  pose proof (pw_next _ _ _ Wf) as Ln. destruct (lookup_lt_is_Some_2 calls i ltac:(lia)) as [tc Ec].
  pose proof (pw_progress _ _ _ Wf _ _ _ G Ec) as P.
  destruct g as [idx tc'|idx tc' [output|next]| |]; simpl in P; [| | | |done].
  - intros [= <-]. destruct P as (-> & -> & Ea). exists tr.
    eapply become_wf; eauto using pw_world, pw_results. intros tc2 E2 _. simplify_eq. simpl. split_and!; [done..|].
    intros rest output O. by rewrite Ea.
  - intros [= <-]. destruct P as (-> & -> & O). exists tr. eapply become_wf; eauto using pw_world.
    + rewrite length_insert. apply Wf.
    + intros j N. by rewrite list_lookup_insert_ne.
    + intros tc2 E2 _. simplify_eq. simpl. exists output. split.
      * specialize (O [] output (outcome_returns output)). by rewrite app_nil_r in O.
      * apply list_lookup_insert_eq. rewrite (pw_results _ _ _ Wf). lia.
  - destruct (next (p_world p)) as [w e] eqn:N. intros [= <-]. destruct P as (-> & -> & O).
    exists (tr ++ [(i, (p_world p, w))]). eapply become_wf; eauto using pw_results.
    + apply chained_snoc, Wf.
    + intros j Nj. rewrite accesses_snoc. rewrite decide_False by done. by rewrite app_nil_r.
    + intros tc2 E2 _. simplify_eq. simpl. split_and!; [done..|]. intros rest output Oe.
      rewrite accesses_snoc, decide_True by done. rewrite <- app_assoc. apply O. simpl.
      pose proof (outcome_access next (p_world p) rest output) as A. rewrite N in A. by apply A.
  - intros [= <-]. exists tr. eapply become_wf; eauto using pw_world, pw_results.
Qed.

Abbreviation step := (λ p q, ∃ c, pool_step r calls c p = Some q).

Lemma step_wf w0 p q tr : pool_wf w0 p tr → step p q → ∃ tr', pool_wf w0 q tr'.
Proof. intros Wf [[i|] E]; [by eapply run_call_wf|]. exists tr. by eapply spawn_wf. Qed.

Lemma steps_wf w0 p q : rtc step p q → (∃ tr, pool_wf w0 p tr) → ∃ tr, pool_wf w0 q tr.
Proof. induction 1 as [|p p' q S _ IH]; [done|]. intros [tr Wf]. by eapply IH, step_wf. Qed.

(** When the WaitGroup is at zero every goroutine has ended. *)
Lemma all_ended w0 p tr i g : pool_wf w0 p tr → p_wg p = 0%nat → p_goroutines p !! i = Some g → alive g = false.
Proof.
  intros Wf Z G. rewrite (pw_wg _ _ _ Wf) in Z. unfold count_alive in Z.
  destruct (alive g) eqn:A; [|done]. exfalso.
  assert (In g (List.filter alive (p_goroutines p))) as I.
  { apply filter_In. split; [|done]. by eapply list_elem_of_In, list_elem_of_lookup_2. }
  by destruct (List.filter alive (p_goroutines p)).
Qed.

(** No deadlock: what is not done can go on. *)
Lemma pool_progress w0 p tr : pool_wf w0 p tr → ¬ pool_done calls p → ∃ q, step p q.
Proof.
  intros Wf N. destruct (decide (p_next p = length calls)) as [E|Ne].
  - assert (∃ i g, p_goroutines p !! i = Some g ∧ alive g = true) as (i & g & G & A).
    { assert (count_alive (p_goroutines p) ≠ 0%nat) as Nz by (rewrite <- (pw_wg _ _ _ Wf); by intros Z; apply N).
      clear -Nz. unfold count_alive in Nz. destruct (List.filter alive (p_goroutines p)) as [|g gs] eqn:F; [done|].
      assert (In g (List.filter alive (p_goroutines p))) as I by (rewrite F; by left).
      apply filter_In in I as [I A]. apply list_elem_of_In, list_elem_of_lookup in I as [i I]. by exists i, g. }
    unfold pool_step. enough (is_Some (run_call r i p)) as [q Q] by by exists q, (Some i).
    unfold run_call. rewrite G. destruct g as [|? ? [|next]| |]; try done. by destruct (next _).
  - pose proof (pw_next _ _ _ Wf). destruct (lookup_lt_is_Some_2 calls (p_next p) ltac:(lia)) as [tc Ec].
    eexists _, None. simpl. unfold spawn. by rewrite Ec.
Qed.

(** * Every run ends *)

(** What a goroutine can become. *)
Inductive goroutine_step : Goroutine W → Goroutine W → Prop :=
  | gs_started idx tc : goroutine_step (Running idx tc (Registry_Execute r tc)) (Started idx tc)
  | gs_access idx tc next w : goroutine_step (Running idx tc (next w).2) (Running idx tc (Access next))
  | gs_returns idx tc output : goroutine_step Deferred (Running idx tc (Returns output))
  | gs_deferred : goroutine_step Ended Deferred.

Lemma goroutine_ends g : Acc goroutine_step g.
Proof.
  assert (Acc goroutine_step Deferred) as D.
  { constructor. intros g' S. inversion S; subst. constructor. intros g'' S'. inversion S'. }
  assert (∀ idx tc e, Acc goroutine_step (Running idx tc e)) as R.
  { intros idx tc. fix IH 1. intros [output|next]; constructor; intros g' S; inversion S as [|? ? ? w| |]; subst; [exact D|].
    destruct (next w) as [w' e]. apply IH. }
  destruct g as [idx tc|idx tc e| |]; [|apply R|exact D|].
  - constructor. intros g' S. inversion S; subst. apply R.
  - constructor. intros g' S. inversion S.
Qed.

(** One element of a list is replaced by a smaller one. *)
Definition one_step {A} (R : A → A → Prop) (l' l : list A) : Prop :=
  ∃ i x y, l !! i = Some x ∧ R y x ∧ l' = <[i:=y]> l.

Lemma one_step_ends {A} (R : A → A → Prop) (l : list A) : (∀ x, Acc R x) → Acc (one_step R) l.
Proof.
  intros Wf. induction l as [|x l IH]; [constructor; by intros l' (i & x & y & E & _)|].
  revert l IH. induction (Wf x) as [x _ IHx]. intros l IHl. induction IHl as [l Al IHl].
  constructor. intros l' ([|i] & z & y & E & S & ->); simpl in *; simplify_eq.
  - apply IHx; [done|]. by constructor.
  - apply IHl. by exists i, z, y.
Qed.

Lemma pool_ends p : Acc (λ q p, ∃ c, pool_step r calls c p = Some q) p.
Proof.
  remember (length calls - p_next p)%nat as n eqn:En. revert p En.
  induction n as [n IHn] using lt_wf_ind. intros p En.
  remember (p_goroutines p) as gs eqn:Eg. revert p En Eg.
  induction (one_step_ends goroutine_step gs goroutine_ends) as [gs _ IHg]. intros p -> Eg.
  constructor. intros q [[i|] S]; simpl in S.
  - unfold run_call in S. rewrite <- Eg in S. destruct (gs !! i) as [g|] eqn:G; [|done].
    assert (∀ g' wg results w, goroutine_step g' g → q = mkPool (p_next p) wg results (<[i:=g']> gs) w →
      Acc (λ q p, ∃ c, pool_step r calls c p = Some q) q) as K.
    { intros g' wg results w St ->. apply (IHg (<[i:=g']> gs)); [by exists i, g, g'|done|done]. }
    destruct g as [idx tc|idx tc [output|next]| |]; [| | | |done].
    + injection S as <-. eapply K; [constructor|done].
    + injection S as <-. eapply K; [constructor|done].
    + pose proof (gs_access idx tc next (p_world p)) as St. destruct (next (p_world p)) as [w e]. injection S as <-.
      eapply K; [exact St|done].
    + injection S as <-. eapply K; [constructor|done].
  - unfold spawn in S. destruct (calls !! p_next p) as [tc|] eqn:E; [|done]. injection S as <-.
    pose proof (lookup_lt_Some _ _ _ E). eapply IHn; [|reflexivity]. simpl. lia.
Qed.

(** C20. Tool calls run concurrently, in whatever way the steps of their
    goroutines interleave on the world that they share: no state is a deadlock,
    no run is infinite, and when the caller is past wg.Wait there are as many
    results as calls, the one at an index being that of the call at that index,
    under its identifier: what the registered executor returned on the worlds
    that its own accesses found, one after the other among those of the other
    calls, or an error, without an access, when no executor has its name. *)
Theorem concurrent_calls_exact (w : W) (p : Pool W) (Steps : rtc step (start_pool calls w) p) :
  Acc (λ q p, ∃ c, pool_step r calls c p = Some q) p ∧
  (¬ pool_done calls p → ∃ q, step p q) ∧
  (pool_done calls p →
   ∃ tr, chained w tr (p_world p) ∧ length (p_results p) = length calls ∧
     (∀ i, (length calls ≤ i)%nat → accesses i tr = []) ∧
     ∀ i tc, calls !! i = Some tc →
       match Registry_executors r !! ToolCall_Name tc with
       | Some executor => ∃ output, outcome (executor (ToolCall_Input tc)) (accesses i tr) output ∧
           p_results p !! i = Some (match output with
             | Ok text => mkToolResult (ToolCall_ID tc) text false
             | Err text => mkToolResult (ToolCall_ID tc) text true
             end)
       | None => accesses i tr = [] ∧
           p_results p !! i = Some (mkToolResult (ToolCall_ID tc)
             ("tool " +:+ quote (ToolCall_Name tc) +:+ " not registered") true)
       end).
Proof.
  destruct (steps_wf w _ _ Steps) as [tr Wf]; [exists []; apply start_pool_wf|].
  split_and!; [apply pool_ends | by eapply pool_progress|].
  intros [Dn Dw]. exists tr. split_and!; [apply Wf..| |].
  { intros i L. apply (pw_later _ _ _ Wf). by rewrite Dn. }
  intros i tc Ec. pose proof (lookup_lt_Some _ _ _ Ec) as Lt.
  destruct (lookup_lt_is_Some_2 (p_goroutines p) i) as [g G]; [rewrite (pw_goroutines _ _ _ Wf); lia|].
  assert (alive g = false) as A by by eapply all_ended.
  pose proof (pw_progress _ _ _ Wf _ _ _ G Ec) as P. destruct g; try done. destruct P as (output & O & E).
  unfold Registry_Execute in O. destruct (Registry_executors r !! ToolCall_Name tc) as [executor|].
  - exists output. split; [done|]. by destruct output.
  - inversion O; subst. by split.
Qed.

(** * The executor of the loop *)

(** A goroutine that is finished at once. *)
Lemma finish_steps i p : rtc step p (finish_goroutine r i p).
Proof.
  assert (∀ q q', p_goroutines q !! i = Some Deferred →
    q' = mkPool (p_next q) (pred (p_wg q)) (p_results q) (<[i := Ended]> (p_goroutines q)) (p_world q) → step q q') as D.
  { intros q q' G ->. exists (Some i). simpl. unfold run_call. by rewrite G. }
  assert (∀ e idx tc q, p_goroutines q !! i = Some (Running idx tc e) →
    rtc step q (let '(output, w) := finish_execution e (p_world q) in
      mkPool (p_next q) (pred (p_wg q)) (<[idx := tool_result tc output]> (p_results q))
        (<[i := Ended]> (p_goroutines q)) w)) as R.
  { fix IH 1. intros [output|next] idx tc q G; pose proof (lookup_lt_Some _ _ _ G) as Lt; cbn [finish_execution].
    - eapply rtc_l; [exists (Some i); simpl; unfold run_call; by rewrite G|]. eapply rtc_once, D; simpl.
      + by apply list_lookup_insert_eq.
      + by rewrite list_insert_insert_eq.
    - destruct (next (p_world q)) as [w e] eqn:N.
      eapply rtc_l; [exists (Some i); simpl; unfold run_call; by rewrite G, N|].
      pose proof (IH e idx tc (mkPool (p_next q) (p_wg q) (p_results q) (<[i := Running idx tc e]> (p_goroutines q)) w)) as X.
      cbn [p_goroutines p_world p_next p_wg p_results] in X.
      destruct (finish_execution e w) as [output w']. rewrite list_insert_insert_eq in X. apply X. by apply list_lookup_insert_eq. }
  unfold finish_goroutine. destruct (p_goroutines p !! i) as [[idx tc|idx tc e| |]|] eqn:G; try reflexivity.
  - pose proof (lookup_lt_Some _ _ _ G) as Lt.
    eapply rtc_l; [exists (Some i); simpl; unfold run_call; by rewrite G|].
    pose proof (R (Registry_Execute r tc) idx tc
      (mkPool (p_next p) (p_wg p) (p_results p) (<[i := Running idx tc (Registry_Execute r tc)]> (p_goroutines p)) (p_world p))) as X.
    cbn [p_goroutines p_world p_next p_wg p_results] in X.
    destruct (finish_execution _ _) as [output w']. rewrite list_insert_insert_eq in X. apply X. by apply list_lookup_insert_eq.
  - by apply R.
  - by apply rtc_once, D.
Qed.

Lemma schedule_steps schedule p : rtc step p (run_schedule r calls schedule p).
Proof.
  revert p. induction schedule as [|c schedule IH]; intros p; [reflexivity|]. simpl.
  destruct (pool_step r calls c p) as [q|] eqn:E; simpl; [|apply IH]. eapply rtc_l; [by exists c|apply IH].
Qed.

(** The caller starts all goroutines. *)
Lemma spawn_all n w0 p tr : pool_wf w0 p tr → (length calls - p_next p ≤ n)%nat →
  p_next (run_schedule r calls (replicate n None) p) = length calls.
Proof.
  revert p tr. induction n as [|n IH]; intros p tr Wf L; simpl; pose proof (pw_next _ _ _ Wf); [lia|].
  destruct (spawn calls p) as [q|] eqn:S; simpl.
  - eapply IH; [by eapply spawn_wf|]. unfold spawn in S.
    destruct (calls !! p_next p); [|done]. injection S as <-. simpl. lia.
  - eapply IH; [done|]. unfold spawn in S. destruct (calls !! p_next p) eqn:E; [done|].
    apply lookup_ge_None in E. lia.
Qed.

Lemma finish_goroutines i p :
  p_next (finish_goroutine r i p) = p_next p ∧
  length (p_goroutines (finish_goroutine r i p)) = length (p_goroutines p) ∧
  ∀ j g, p_goroutines (finish_goroutine r i p) !! j = Some g → alive g = true → j ≠ i ∧ p_goroutines p !! j = Some g.
Proof.
  assert (∀ p', p_next p' = p_next p → p_goroutines p' = <[i := Ended]> (p_goroutines p) →
    p_next p' = p_next p ∧ length (p_goroutines p') = length (p_goroutines p) ∧
    ∀ j g, p_goroutines p' !! j = Some g → alive g = true → j ≠ i ∧ p_goroutines p !! j = Some g) as K.
  { intros p' -> ->. split_and!; [done|by rewrite length_insert|]. intros j g G A.
    apply list_lookup_insert_Some in G as [(-> & <- & _)|[N G]]; [done|by split]. }
  unfold finish_goroutine. destruct (p_goroutines p !! i) as [[idx tc|idx tc e| |]|] eqn:G;
    try (destruct (finish_execution _ _)); try (apply K; done).
  - split_and!; [done..|]. intros j g E A. split; [|done]. intros ->. rewrite G in E. by injection E as <-.
  - split_and!; [done..|]. intros j g E A. split; [|done]. intros ->. by rewrite G in E.
Qed.

Lemma finish_all ids p : let q := foldl (λ p i, finish_goroutine r i p) p ids in
  rtc step p q ∧ p_next q = p_next p ∧ length (p_goroutines q) = length (p_goroutines p) ∧
  ∀ j g, p_goroutines q !! j = Some g → alive g = true → j ∉ ids.
Proof.
  cbv zeta. revert p. induction ids as [|i ids IH] using rev_ind; intros p.
  { split_and!; [reflexivity|done..|]. intros j g _ _ I. inversion I. }
  rewrite foldl_snoc. destruct (IH p) as (S & Nx & L & A). set (q := foldl _ p ids) in *.
  destruct (finish_goroutines i q) as (Nx' & L' & A'). split_and!; [|congruence..|].
  - etransitivity; [exact S|apply finish_steps].
  - intros j g G Ag. destruct (A' j g G Ag) as [N G']. specialize (A j g G' Ag). set_solver.
Qed.

(** ExecuteConcurrent is a run of the goroutines that is over. *)
Lemma ExecuteConcurrent_run schedule w : ∃ p, rtc step (start_pool calls w) p ∧ pool_done calls p ∧
  Registry_ExecuteConcurrent schedule r calls w = (p_results p, p_world p).
Proof.
  unfold Registry_ExecuteConcurrent. set (p1 := run_schedule r calls schedule _).
  assert (rtc step (start_pool calls w) p1) as S1 by apply schedule_steps.
  destruct (steps_wf w _ _ S1) as [tr1 W1]; [exists []; apply start_pool_wf|].
  set (p2 := run_schedule r calls (replicate _ _) p1).
  assert (p_next p2 = length calls) as N2 by (eapply spawn_all; [exact W1|lia]).
  assert (rtc step (start_pool calls w) p2) as S2 by (etransitivity; [exact S1|apply schedule_steps]).
  destruct (finish_all (seq 0 (length calls)) p2) as (S3 & N3 & L3 & A3). set (p3 := foldl _ p2 _) in *.
  assert (rtc step (start_pool calls w) p3) as S by by etransitivity.
  exists p3. split_and!; [done| |done]. split; [congruence|].
  destruct (steps_wf w _ _ S) as [tr Wf]; [exists []; apply start_pool_wf|].
  rewrite (pw_wg _ _ _ Wf). unfold count_alive. destruct (List.filter alive (p_goroutines p3)) as [|g gs] eqn:F; [done|].
  assert (In g (List.filter alive (p_goroutines p3))) as I by (rewrite F; by left).
  apply filter_In in I as [I A]. apply list_elem_of_In, list_elem_of_lookup in I as [i I].
  destruct (A3 i g I A). apply elem_of_seq. apply lookup_lt_Some in I.
  rewrite (pw_goroutines _ _ _ Wf), N3, N2 in I. lia.
Qed.

Lemma tool_result_id tc output : ToolResult_ToolUseID (tool_result tc output) = ToolCall_ID tc.
Proof. by destruct output. Qed.

Lemma ExecuteConcurrent_ids schedule w :
  ToolResult_ToolUseID <$> (Registry_ExecuteConcurrent schedule r calls w).1 = ToolCall_ID <$> calls.
Proof.
  destruct (ExecuteConcurrent_run schedule w) as (p & S & [Dn Dw] & ->). simpl.
  destruct (steps_wf w _ _ S) as [tr Wf]; [exists []; apply start_pool_wf|].
  apply list_eq. intros i. rewrite !list_lookup_fmap. destruct (calls !! i) as [tc|] eqn:Ec; simpl.
  - pose proof (lookup_lt_Some _ _ _ Ec) as Lt.
    destruct (lookup_lt_is_Some_2 (p_goroutines p) i) as [g G]; [rewrite (pw_goroutines _ _ _ Wf); lia|].
    assert (alive g = false) as A by by eapply all_ended.
    pose proof (pw_progress _ _ _ Wf _ _ _ G Ec) as P. destruct g; try done. destruct P as (output & _ & ->).
    simpl. by rewrite tool_result_id.
  - rewrite lookup_ge_None_2; [done|]. rewrite (pw_results _ _ _ Wf). by apply lookup_ge_None.
Qed.
End registry.

(** The registry answers the calls that it is given. *)
Global Instance registry_laws {W : Type} `{GoRuntime} (schedule : list ToolCall → W → list (option nat)) (r : Registry W) :
  ToolExecutorLaws W (registry_executor schedule r).
Proof. constructor. intros calls w. apply ExecuteConcurrent_ids. Qed.

(** C13. Every request of a ReAct run with the registry of tools, the executor
    of the runtime, whatever the order of the steps of its goroutines, continues
    the conversation of the invocation by the earlier responses, each followed by
    exactly one result for each tool it called, under its identifier and in
    order; the run never panics, and it fails only because a call of the model
    did. *)
Theorem react_conversation {W : Type} `{GoRuntime} (llm : Client W) (r : Registry W)
    (schedule : list ToolCall → W → list (option nat)) (onEvent : option (StreamEvent → W → W))
    (inv : Invocation) (w : W) :
  let '(res, (_, log)) := @ReAct_Execute _ (logged_client llm) (logged_tools (registry_executor schedule r))
    (logged_events onEvent) inv (w, []) in
  (∀ i req resp, log !! i = Some (req, resp) →
     conversation (Invocation_Messages inv ++ [user_message (Invocation_Input inv)])
       (responses (take i log)) (ChatRequest_Messages req)) ∧
  ∀ f, res = Err f → (∃ err, f = Failed err) ∧ ∃ req, last log = Some (req, None).
Proof. exact (react_converses llm (registry_executor schedule r) onEvent inv w). Qed.

(** * Addresses *)

(** A property of bytes, by looking at all of them. *)
Lemma bytes_check (P : Z → bool) : forallb (λ n, P (Z.of_nat n)) (seq 0 256) = true → ∀ b, 0 ≤ b < 256 → P b = true.
Proof.
  intros F b B. rewrite forallb_forall in F. rewrite <- (Z2Nat.id b) by lia. apply F, in_seq. lia.
Qed.

Ltac by_bytes P := intros b B; apply eqb_prop; revert b B; apply (bytes_check P); by vm_compute.

Lemma land_255 b : 0 ≤ b < 256 → Z.land b 255 = b.
Proof. intros B. apply Z.eqb_eq. revert b B. apply (bytes_check (λ b, Z.land b 255 =? b)). by vm_compute. Qed.

Lemma land_240 : ∀ b, 0 ≤ b < 256 → (16 =? Z.land b 240) = (16 <=? b) && (b <? 32).
Proof. by_bytes (λ b, Bool.eqb (16 =? Z.land b 240) ((16 <=? b) && (b <? 32))). Qed.

Lemma land_254 : ∀ b, 0 ≤ b < 256 → (252 =? Z.land b 254) = (252 <=? b) && (b <? 254).
Proof. by_bytes (λ b, Bool.eqb (252 =? Z.land b 254) ((252 <=? b) && (b <? 254))). Qed.

Lemma land_192 : ∀ b, 0 ≤ b < 256 → (128 =? Z.land b 192) = (128 <=? b) && (b <? 192).
Proof. by_bytes (λ b, Bool.eqb (128 =? Z.land b 192) ((128 <=? b) && (b <? 192))). Qed.

Definition is_byte (b : Z) : Prop := 0 ≤ b < 256.

(** The private addresses: those of the documented ranges, and the local
    multicast groups. *)
Definition private4 (a b c d : Z) : Prop :=
  a = 10 ∨ (a = 172 ∧ 16 ≤ b < 32) ∨ (a = 192 ∧ b = 168) ∨ (a = 169 ∧ b = 254) ∨ a = 127 ∨
  (a = 224 ∧ b = 0 ∧ c = 0).

Definition private16 (ip : IP) : Prop :=
  ip = IPv6loopback ∨ 252 ≤ nth 0 ip 0 < 254 ∨ (nth 0 ip 0 = 254 ∧ 128 ≤ nth 1 ip 0 < 192) ∨
  (nth 0 ip 0 = 255 ∧ Z.land (nth 1 ip 0) 15 = 2).

Local Arguments Z.eqb : simpl never.
Local Arguments Z.land : simpl never.
Local Arguments mask_byte : simpl never.

(** Evaluates the masks of the ranges and turns the test into a proposition. *)
Ltac masks :=
  repeat match goal with |- context [mask_byte ?n ?i] => let m := eval vm_compute in (mask_byte n i) in change (mask_byte n i) with m end;
  repeat match goal with |- context [Z.land (Zpos ?p) ?m] => let v := eval vm_compute in (Z.land (Zpos p) m) in change (Z.land (Zpos p) m) with v end;
  rewrite ?Z.land_0_l, ?Z.land_0_r, ?land_255, ?land_240, ?land_254, ?land_192 by done.

Lemma IsPrivateIP_4 a b c d : is_byte a → is_byte b → is_byte c → is_byte d →
  IsPrivateIP [a; b; c; d] = true ↔ private4 a b c d.
Proof.
  intros A B C D. unfold IsPrivateIP, privateRanges, private4.
  unfold IsLoopback, IsLinkLocalUnicast, IsLinkLocalMulticast, IPNet_Contains, To4. simpl. masks.
  rewrite ?orb_true_iff, ?andb_true_iff, ?Z.eqb_eq, ?Z.leb_le, ?Z.ltb_lt. unfold is_byte in *. intuition lia.
Qed.

Lemma masked_eq_full ones number ip i : length number = length ip → Forall is_byte number → Forall is_byte ip →
  8 * (Z.of_nat i + Z.of_nat (length number)) ≤ ones → masked_eq ones i number ip = true ↔ ip = number.
Proof.
  revert ip i. induction number as [|n number IH]; intros [|b ip] i L F1 F2 O; simpl in *; try done.
  apply Forall_cons in F1 as [Bn F1], F2 as [Bb F2].
  assert (mask_byte ones i = 255) as -> by (unfold mask_byte; rewrite Z.max_r, Z.min_l by lia; done).
  rewrite !land_255 by done. rewrite andb_true_iff, Z.eqb_eq, IH by (done || lia).
  split; [by intros [-> ->]|by intros [= -> ->]].
Qed.

Lemma masked_eq_rest ones i number ip : ones ≤ 8 * Z.of_nat i → masked_eq ones i number ip = true.
Proof.
  revert ip i. induction number as [|n number IH]; intros [|b ip] i L; simpl; try done.
  assert (mask_byte ones i = 0) as -> by (unfold mask_byte; rewrite Z.max_l by lia; done).
  rewrite !Z.land_0_r. simpl. apply IH. lia.
Qed.

(** The bytes of an address. *)
Definition ip_ok (ip : IP) : Prop := Forall is_byte ip ∧ (length ip = 4%nat ∨ length ip = 16%nat).

(** The numbers of a private address, however it is written. *)
Definition private (ip : IP) : Prop :=
  match To4 ip with
  | Some [a; b; c; d] => private4 a b c d
  | Some _ => False
  | None => private16 ip
  end.

Lemma To4_length ip ip4 : To4 ip = Some ip4 → length ip4 = 4%nat.
Proof.
  unfold To4. destruct (Nat.eqb_spec (length ip) 4); [by intros [= ->]|].
  destruct (Nat.eqb_spec (length ip) 16); [|done]. simpl. case_bool_decide; [|done]. intros [= <-].
  rewrite length_drop. lia.
Qed.

Lemma To4_bytes ip ip4 : Forall is_byte ip → To4 ip = Some ip4 → Forall is_byte ip4.
Proof.
  unfold To4. intros F. destruct (length ip =? 4)%nat; [by intros [= ->]|]. case_match; [|done]. intros [= <-]. by apply Forall_drop.
Qed.

Lemma To4_idem ip ip4 : To4 ip = Some ip4 → To4 ip4 = Some ip4.
Proof. intros L%To4_length. unfold To4. by rewrite L. Qed.

Lemma IsPrivateIP_mapped ip ip4 : To4 ip = Some ip4 → IsPrivateIP ip = IsPrivateIP ip4.
Proof.
  intros E. pose proof (To4_idem _ _ E) as E'.
  unfold IsPrivateIP, IPNet_Contains, IsLoopback, IsLinkLocalUnicast, IsLinkLocalMulticast. by rewrite E, E'.
Qed.

Lemma IsPrivateIP_16 ip : Forall is_byte ip → length ip = 16%nat → To4 ip = None → IsPrivateIP ip = true ↔ private16 ip.
Proof.
  intros F L N. unfold IsPrivateIP, private16, IsLoopback, IsLinkLocalUnicast, IsLinkLocalMulticast.
  unfold privateRanges, IPNet_Contains. cbn [existsb IPNet_IP IPNet_ones]. rewrite N. change (default ip None) with ip. rewrite L.
  assert (masked_eq 128 0 IPv6loopback ip = true ↔ ip = IPv6loopback) as M.
  { apply masked_eq_full; [by rewrite L|by repeat constructor|done|done]. }
  assert (∃ b0 b1 rest, ip = b0 :: b1 :: rest ∧ is_byte b0 ∧ is_byte b1) as (b0 & b1 & rest & -> & B0 & B1).
  { destruct ip as [|b0 [|b1 rest]]; [done..|]. apply Forall_cons in F as [B0 [B1 F]%Forall_cons]. by exists b0, b1, rest. }
  assert (masked_eq 7 0 (252 :: replicate 15 0) (b0 :: b1 :: rest) = (252 <=? b0) && (b0 <? 254)) as ->.
  { cbn [masked_eq]. rewrite masked_eq_rest by done. masks. by rewrite andb_true_r. }
  assert (masked_eq 10 0 ([254; 128] ++ replicate 14 0) (b0 :: b1 :: rest) = (254 =? b0) && ((128 <=? b1) && (b1 <? 192))) as ->.
  { cbn [masked_eq app]. rewrite masked_eq_rest by done. masks. by rewrite andb_true_r. }
  cbn [length Nat.eqb IPv6loopback replicate app andb nth]. fold IPv6loopback in M |- *.
  change [0; 0; 0; 0; 0; 0; 0; 0; 0; 0; 0; 0; 0; 0; 0; 1] with IPv6loopback.
  rewrite !(orb_true_iff), M, ?andb_true_iff, ?bool_decide_eq_true, ?land_192, ?Z.eqb_eq, ?Z.leb_le, ?Z.ltb_lt by done.
  assert (Z.land b1 192 = 128 ↔ 128 ≤ b1 < 192) as ->.
  { rewrite <- Z.eqb_eq, Z.eqb_sym, land_192, andb_true_iff, Z.leb_le, Z.ltb_lt by done. done. }
  assert (254 = b0 ↔ b0 = 254) as -> by lia. intuition discriminate.
Qed.

Lemma IsPrivateIP_spec ip : ip_ok ip → IsPrivateIP ip = true ↔ private ip.
Proof.
  intros [F L]. unfold private. destruct (To4 ip) as [ip4|] eqn:E.
  - rewrite (IsPrivateIP_mapped _ _ E). pose proof (To4_length _ _ E) as L4. pose proof (To4_bytes _ _ F E) as F4.
    destruct ip4 as [|a [|b [|c [|d [|]]]]]; try done. repeat (apply Forall_cons in F4 as [? F4]). by apply IsPrivateIP_4.
  - apply IsPrivateIP_16; [done| |done]. destruct L as [L|L]; [|done]. unfold To4 in E. by rewrite L in E.
Qed.

Section dial.
Context `{GoRuntime} (SplitHostPort : string → result string (string * string))
  (LookupIPAddr : string → result string (list IP)) (IP_String : IP → string).

(** C19. Tools reach public addresses only: the transport connects to an address
    exactly when the name resolves to a list that starts with it and holds no
    address of 10/8, 172.16/12, 192.168/16, 169.254/16, 127/8, 224.0.0/24, nor
    ::1, fc00::/7, fe80::/10 or ffx2::/16, whether an IPv4 address is written with
    four bytes or sixteen; the address connected to is the one that was checked. *)
Theorem dial_public_only (addr host port port' : string) (ip : IP) (ips : list IP)
    (Host : SplitHostPort addr = Ok (host, port)) (Resolved : LookupIPAddr host = Ok ips)
    (Bytes : Forall ip_ok ips) :
  DialContext SplitHostPort LookupIPAddr IP_String addr = Connects ip port' ↔
  port' = port ∧ head ips = Some ip ∧ Forall (λ ip, ¬ private ip) ips.
Proof.
  unfold DialContext. rewrite Host, Resolved.
  assert (List.find IsPrivateIP ips = None ↔ Forall (λ ip, ¬ private ip) ips) as F.
  { clear Resolved. induction ips as [|x ips IH]; [done|]. apply Forall_cons in Bytes as [Bx Bytes]. specialize (IH Bytes).
    simpl. rewrite Forall_cons, <- IH, <- (IsPrivateIP_spec x Bx). destruct (IsPrivateIP x); naive_solver. }
  rewrite <- F. destruct (List.find IsPrivateIP ips); [naive_solver|]. destruct ips; naive_solver.
Qed.
End dial.

(** The unspecified address, which connects to the machine itself, is not among
    the private addresses. *)
Example unspecified_address_is_dialed :
  DialContext (H := ascii_runtime) (λ addr, Ok (addr, "80")) (λ _, Ok [[0; 0; 0; 0]]) (λ _, "0.0.0.0") "zero.example" =
    Connects [0; 0; 0; 0] "80".
Proof. by vm_compute. Qed.

Lemma dial_public_only_witness :
  let ips := [[93; 184; 216; 34]; replicate 10 0 ++ [0xff; 0xff; 10; 0; 0; 1]] in
  DialContext (H := ascii_runtime) (λ addr, Ok (addr, "80")) (λ _, Ok ips) (λ _, "ip") "mixed.example" =
    Connects [93; 184; 216; 34] "80" ↔
  "80" = "80" ∧ head ips = Some [93; 184; 216; 34] ∧ Forall (λ ip, ¬ private ip) ips.
Proof.
  apply (dial_public_only (H := ascii_runtime) (λ addr, Ok (addr, "80"))
    (λ _, Ok [[93; 184; 216; 34]; replicate 10 0 ++ [0xff; 0xff; 10; 0; 0; 1]]) (λ _, "ip") "mixed.example" "mixed.example" "80" "80").
  - reflexivity.
  - reflexivity.
  - apply Forall_cons; split; [split; [repeat constructor; lia|by left]|].
    apply Forall_cons; split; [split; [repeat constructor; lia|by right]|constructor].
Defined.

(** * Bodies *)

Lemma ReadBody_spec body limit : let m := if limit <=? 0 then defaultMaxResponseSize else limit in
  (ReadBody body limit).2 = (m <? Z.of_nat (String.length body)) ∧
  Z.of_nat (String.length (ReadBody body limit).1) ≤ m ∧ HasPrefix body (ReadBody body limit).1 = true.
Proof.
  cbv zeta. unfold ReadBody. set (m := if limit <=? 0 then _ else _).
  assert (0 < m) as P by (unfold m, defaultMaxResponseSize; destruct (Z.leb_spec limit 0); lia).
  destruct (Z.ltb_spec m (Z.of_nat (String.length body))) as [Lt|Ge].
  - assert (String.length (str_take (Z.to_nat (m + 1)) body) = Z.to_nat (m + 1)) as L by (apply str_take_length; lia).
    rewrite L. destruct (Z.ltb_spec m (Z.of_nat (Z.to_nat (m + 1)))); [|lia]. cbn [fst snd]. split_and!; [done| |].
    + rewrite str_take_length by lia. lia.
    + apply HasPrefix_spec. exists (str_drop (Z.to_nat m) (str_take (Z.to_nat (m + 1)) body) +:+ str_drop (Z.to_nat (m + 1)) body).
      by rewrite str_app_assoc, !str_take_drop.
  - assert (str_take (Z.to_nat (m + 1)) body = body) as ->.
    { clear -Ge. assert (String.length body ≤ Z.to_nat (m + 1))%nat as L by lia. revert L. generalize (Z.to_nat (m + 1)).
      induction body as [|c body IH]; intros [|k] L; simpl in *; try done; [lia|]. rewrite IH; [done|lia|lia]. }
    destruct (Z.ltb_spec m (Z.of_nat (String.length body))); [lia|]. cbn [fst snd]. split_and!; [done|lia|].
    apply HasPrefix_spec. exists "". by rewrite str_app_nil_r.
Qed.

Section braces.
Context (c : Ascii.ascii) (Nc : c ≠ " "%char).
Let one : string := String c "".
Let two : string := String c one.
Let three : string := String c two.
Let spaced : string := one +:+ " " +:+ one.

(** After the replacement of pairs, a pair is left exactly where there were
    three in a row. *)
Lemma pairs_left n s : (String.length s ≤ n)%nat →
  (occurs two (ReplaceAll s two spaced) ↔ occurs three s) ∧
  HasPrefix (ReplaceAll s two spaced) one = HasPrefix s one.
Proof.
  assert (∀ d t, HasPrefix (String d t) one = Ascii.eqb c d) as P1.
  { intros d t. unfold HasPrefix, one. simpl. destruct (Ascii.ascii_dec c d), (Ascii.eqb_spec c d); try congruence. by destruct t. }
  assert (∀ d t, HasPrefix (String d t) two = Ascii.eqb c d && HasPrefix t one) as P2.
  { intros d t. unfold HasPrefix, two. simpl. destruct (Ascii.ascii_dec c d), (Ascii.eqb_spec c d); try congruence; done. }
  assert (∀ d t, HasPrefix (String d t) three = Ascii.eqb c d && HasPrefix t two) as P3.
  { intros d t. unfold HasPrefix, three. simpl. destruct (Ascii.ascii_dec c d), (Ascii.eqb_spec c d); try congruence; done. }
  assert ((occurs two (ReplaceAll "" two spaced) ↔ occurs three "") ∧ HasPrefix (ReplaceAll "" two spaced) one = HasPrefix "" one) as E0.
  { rewrite ReplaceAll_nil by done. split; [|done]. by split; intros []%occurs_nil. }
  revert s. induction n as [|n IH]; intros s L.
  { destruct s; [done|simpl in L; lia]. }
  destruct s as [|d t]; [done|]. destruct (HasPrefix (String d t) two) eqn:E.
  - pose proof E as [rest Er]%HasPrefix_spec. rewrite Er. rewrite ReplaceAll_prefix by done.
    destruct (IH rest) as [I1 I2].
    { pose proof (f_equal String.length Er) as Len. rewrite str_app_length in Len. simpl in *. lia. }
    split; [|unfold spaced, one, two; rewrite !str_app_cons; by rewrite !P1].
    change (spaced +:+ ReplaceAll rest two spaced) with (String c (String " " (String c (ReplaceAll rest two spaced)))).
    change (two +:+ rest) with (String c (String c rest)).
    rewrite !(occurs_cons two), !(occurs_cons three), !P3, !P2, !P1, I1, I2, Ascii.eqb_refl.
    assert (Ascii.eqb c " " = false) as -> by (by apply Ascii.eqb_neq). simpl.
    destruct rest as [|e rest]; [change (HasPrefix EmptyString one) with false; change (HasPrefix EmptyString two) with false; intuition discriminate|].
    rewrite P2, P1. destruct (Ascii.eqb c e); simpl; intuition discriminate.
  - rewrite ReplaceAll_char by done. destruct (IH t) as [I1 I2]; [simpl in L; lia|]. split; [|by rewrite !P1].
    rewrite !(occurs_cons two), !(occurs_cons three), P2, I2, I1, P3. rewrite P2 in E. rewrite E.
    destruct t as [|e t]; [by rewrite andb_false_r|]. rewrite P2. rewrite P1 in E. by destruct (Ascii.eqb c d), (Ascii.eqb c e).
Qed.
End braces.

(** Sanitizing a body leaves a template delimiter exactly where there were
    three braces in a row: such a body is not made safe. *)
Theorem safe_body_exact (body contentType : string) :
  Contains (SafeBodyString body contentType) "{{" = Contains body "{{{" ∧
  Contains (SafeBodyString body contentType) "}}" = Contains body "}}}".
Proof.
  pose proof (pairs_left "{"%char ltac:(done) (String.length body) body ltac:(done)) as [L _].
  pose proof (pairs_left "}"%char ltac:(done) _ (ReplaceAll body "{{" "{ {") ltac:(done)) as [R _].
  unfold SafeBodyString. split; apply Contains_eq.
  - transitivity (occurs "{{" (ReplaceAll (ReplaceAll body "{{" "{ {") "}}" "} }")).
    + destruct (Contains contentType "text/html"); [|reflexivity]. by rewrite !ReplaceAll_apart by done.
    + by rewrite ReplaceAll_apart by done.
  - transitivity (occurs "}}" (ReplaceAll (ReplaceAll body "{{" "{ {") "}}" "} }")).
    + destruct (Contains contentType "text/html"); [|reflexivity]. by rewrite !ReplaceAll_apart by done.
    + etransitivity; [exact R|]. by rewrite ReplaceAll_apart by done.
Qed.

Example three_braces_pass : SafeBodyString "{{{.Secret}}}" "text/plain" = "{ {{.Secret} }}".
Proof. by vm_compute. Qed.

(** A tool that reads the world and then writes one more, and a call of it twice
    at the same time: one of the updates is lost. *)
Definition counting : Registry Z :=
  Register "add" (mkToolDefinition "add" "" [])
    (λ _, Access (λ n, (n, Access (λ _, (n + 1, Returns (Ok (pretty n))))))) NewRegistry.

Definition three_calls : list ToolCall := [mkToolCall "c1" "add" []; mkToolCall "c2" "sub" []; mkToolCall "c3" "add" []].

Definition overlapping : list (option nat) :=
  [None; Some 0; Some 0; None; None; Some 2; Some 2; Some 0; Some 0; Some 2; Some 1; Some 1; Some 2; Some 0;
   Some 1; Some 2]%nat.

Lemma concurrent_calls_exact_witness :
  let p := run_schedule (H := ascii_runtime) counting three_calls overlapping (start_pool three_calls 7) in
  (p_results p = [mkToolResult "c1" "7" false; mkToolResult "c2" ("tool " +:+ qt "`sub`" +:+ " not registered") true;
                  mkToolResult "c3" "7" false] ∧ p_world p = 8 ∧ pool_done three_calls p) ∧
  ∃ tr, chained 7 tr (p_world p) ∧ length (p_results p) = length three_calls.
Proof.
  cbv zeta.
  destruct (concurrent_calls_exact (H := ascii_runtime) counting three_calls 7
    (run_schedule (H := ascii_runtime) counting three_calls overlapping (start_pool three_calls 7))
    (schedule_steps (H := ascii_runtime) counting three_calls overlapping (start_pool three_calls 7))) as (_ & _ & D).
  split; [by vm_compute|]. destruct D as (tr & C & L & _); [by vm_compute|]. by exists tr.
Defined.
