(* ===== verification/Redact.v ===== *)
(** Redaction of secrets in logs (internal/secrets/redact.go).

    The inner handler is what receives the records; a value of another kind than
    a string (a number, an error, a group of attributes) is kept as its text. *)
From S2P Require Import Prelude GoStd.

(** The value of a slog.Attr: a string, or something else that is printed as a
    text. *)
Inductive LogValue :=
  | KindString (s : string)
  | KindOther (text : string).

Abbreviation Attr := (string * LogValue)%type.

(** A slog.Record. *)
Record LogRecord := mkLogRecord { Record_Message : string; Record_Attrs : list Attr }.

(** RedactFilter wraps a slog handler to scrub resolved secret values from log
    output; [inner_attrs] are the attributes given to the inner handler. *)
Record RedactFilter := mkRedactFilter { RF_secrets : gmap string bool; inner_attrs : list Attr }.

Definition NewRedactFilter : RedactFilter := mkRedactFilter ∅ [].

(** AddSecret registers a value to be redacted from log output. *)
Definition AddSecret (value : string) (f : RedactFilter) : RedactFilter :=
  if String.eqb value "" then f else mkRedactFilter (<[value := true]> (RF_secrets f)) (inner_attrs f).

(** WithAttrs delegates to the inner handler. *)
Definition WithAttrs (attrs : list Attr) (f : RedactFilter) : RedactFilter :=
  mkRedactFilter (RF_secrets f) (inner_attrs f ++ attrs).

Definition placeholder : string := "***REDACTED***".

(** The loop over the secrets. *)
Definition redact (secrets : list string) (s : string) : string :=
  foldl (λ s secret, ReplaceAll s secret placeholder) s secrets.

Definition redactAttr (a : Attr) (secrets : list string) : Attr :=
  match a.2 with
  | KindString s => (a.1, KindString (redact secrets s))
  | _ => a
  end.

Section filter.
Context `{GoRuntime}.

(** Handle redacts secret values from log record attributes: the record that the
    inner handler gets. *)
Definition Handle (f : RedactFilter) (record : LogRecord) : LogRecord :=
  match (map_range (RF_secrets f)).*1 with
  | [] => record
  | secrets =>
      mkLogRecord (redact secrets (Record_Message record))
        ((λ a, redactAttr a secrets) <$> Record_Attrs record)
  end.

(** RedactString replaces any known secret values in a string with a
    placeholder. *)
Definition RedactString (f : RedactFilter) (s : string) : string := redact (map_range (RF_secrets f)).*1 s.
End filter.
