(* ===== verification/RedactFacts.v ===== *)
(** What redaction hides: no registered secret is left in a message or in a
    string attribute, in whatever order the secrets are replaced. *)
From S2P Require Import Prelude GoStd GoMaps Redact.

(** A secret that the placeholder cannot make: without its stars, and no part of
    its word. *)
Definition plain_secret (s : string) : Prop :=
  s ≠ "" ∧ ¬ occurs "*" s ∧ ¬ occurs s "REDACTED".

Lemma occurs_placeholder s u v : plain_secret s →
  occurs s (u +:+ placeholder +:+ v) → occurs s u ∨ occurs s v.
Proof.
  intros (Ns & Stars & Word).
  assert (∀ w, occurs s (String "*" w) → occurs s w) as Star.
  { intros w O. change (String "*" w) with ("" +:+ String "*" w) in O.
    by destruct (occurs_over _ _ _ _ Stars O) as [?%occurs_nil|?]. }
  intros O. apply (occurs_over "*" s u ("**REDACTED***" +:+ v) Stars) in O as [O|O]; [by left|right].
  do 2 apply Star in O. apply (occurs_over "*" s "REDACTED" ("**" +:+ v) Stars) in O as [O|O]; [done|].
  by do 2 apply Star in O.
Qed.

Lemma occurs_Join_placeholder s ps : plain_secret s → ps ≠ [] →
  occurs s (Join ps placeholder) → ∃ p, p ∈ ps ∧ occurs s p.
Proof.
  intros P N. induction ps as [|p [|q ps] IH]; [done|by intros O; exists p; split; [left|]|]. rewrite Join_cons2.
  intros [O|O]%(occurs_placeholder _ _ _ P); [exists p; by split; [left|]|].
  destruct (IH ltac:(done) O) as (r & I & O'). exists r. by split; [right|].
Qed.

(** A replacement shows no secret that was not there, and hides its own. *)
Lemma replace_hides secret s text : plain_secret s → secret ≠ "" →
  occurs s (ReplaceAll text secret placeholder) → occurs s text ∧ s ≠ secret.
Proof.
  intros P N O. destruct (Split_spec text secret N) as [J F].
  assert (Split text secret ≠ []) as Ne.
  { destruct (split_on_nonempty (String.length text) text secret) as (p & ps & E). unfold Split. by rewrite E. }
  destruct (occurs_Join_placeholder s _ P Ne O) as (p & I & Op). split.
  - rewrite <- J. eapply occurs_trans; [exact Op|]. by apply occurs_Join_piece.
  - intros ->. rewrite Forall_forall in F. by destruct (F p I).
Qed.

Lemma redact_hides secrets s text : plain_secret s → Forall (λ x, x ≠ "") secrets →
  occurs s (redact secrets text) → occurs s text ∧ s ∉ secrets.
Proof.
  intros P. revert text. induction secrets as [|x secrets IH]; intros text F O; [split; [done|apply not_elem_of_nil]|].
  apply Forall_cons in F as [Nx F]. simpl in O. destruct (IH _ F O) as [O' N].
  destruct (replace_hides x s text P Nx O') as [O2 N2]. split; [done|]. by apply not_elem_of_cons.
Qed.

Section filter.
Context `{GoRuntime}.

(** The filter that registered some secrets. *)
Definition filter_with (secrets : list string) : RedactFilter := foldl (λ f s, AddSecret s f) NewRedactFilter secrets.

Lemma filter_with_secrets secrets s : s ∈ (map_range (RF_secrets (filter_with secrets))).*1 ↔ s ∈ secrets ∧ s ≠ "".
Proof.
  rewrite elem_of_keys. unfold filter_with. induction secrets as [|x secrets IH] using rev_ind; [by set_solver|].
  rewrite foldl_app. cbn [foldl]. unfold AddSecret at 1. destruct (String.eqb_spec x "") as [->|N]; simpl; set_solver.
Qed.

Definition in_string (s : string) (v : LogValue) : Prop := match v with KindString t => occurs s t | KindOther _ => False end.

(** C21. Of the secrets that were registered, in any order of the replacements,
    none is left in the message or in a string attribute of a record that the
    inner handler gets, provided it has no star and is no part of REDACTED; and
    the attributes keep their keys and their order. *)
Theorem records_hide_secrets (secrets : list string) (record : LogRecord) (secret : string)
    (Registered : secret ∈ secrets) (Plain : plain_secret secret) :
  let out := Handle (filter_with secrets) record in
  ¬ occurs secret (Record_Message out) ∧
  Forall (λ a, ¬ in_string secret a.2) (Record_Attrs out) ∧
  (Record_Attrs out).*1 = (Record_Attrs record).*1.
Proof.
  pose proof (filter_with_secrets secrets) as S. unfold Handle. cbv zeta.
  assert (∀ text, ¬ occurs secret (redact (map_range (RF_secrets (filter_with secrets))).*1 text)) as R.
  { intros text O. assert (Forall (λ x, x ≠ "") (map_range (RF_secrets (filter_with secrets))).*1) as F.
    { apply Forall_forall. intros x I. by apply S in I as [_ ?]. }
    destruct (redact_hides _ secret text Plain F O) as [_ N]. apply N, S. split; [done|apply Plain]. }
  assert (secret ∈ (map_range (RF_secrets (filter_with secrets))).*1) as I by (apply S; split; [done|apply Plain]).
  destruct (map_range (RF_secrets (filter_with secrets))).*1 as [|x xs] eqn:E; [by apply elem_of_nil in I|]. simpl.
  split_and!; [apply R| |].
  - apply Forall_fmap, Forall_true. intros [k [t|t]]; simpl; [apply R|tauto].
  - rewrite <- list_fmap_compose. apply list_fmap_ext. intros i [k [t|t]] _; done.
Qed.
End filter.

Lemma records_hide_secrets_witness :
  let out := Handle (H := ascii_runtime) (filter_with ["hunter2"; "hunter22"])
    (mkLogRecord "login with hunter2" [("password", KindString "xhunter22x"); ("n", KindOther "1")]) in
  ¬ occurs "hunter2" (Record_Message out) ∧
  Forall (λ a, ¬ in_string "hunter2" a.2) (Record_Attrs out) ∧ (Record_Attrs out).*1 = ["password"; "n"].
Proof.
  apply (records_hide_secrets (H := ascii_runtime) ["hunter2"; "hunter22"]
    (mkLogRecord "login with hunter2" [("password", KindString "xhunter22x"); ("n", KindOther "1")]) "hunter2").
  - left.
  - split_and!; [done|apply not_Contains; by vm_compute|apply not_Contains; by vm_compute].
Defined.

(** The attributes of WithAttrs and the values that are not strings are logged as
    they are. *)
Example other_values_are_not_redacted :
  let f := WithAttrs [("token", KindString "hunter2")] (filter_with ["hunter2"]) in
  inner_attrs f = [("token", KindString "hunter2")] ∧
  Record_Attrs (Handle (H := ascii_runtime) f (mkLogRecord "" [("err", KindOther "bad key hunter2")])) =
    [("err", KindOther "bad key hunter2")].
Proof. by vm_compute. Qed.

(** A part of a secret may be left: secrets that overlap are replaced one after
    the other. *)
Example overlapping_secrets_leave_a_part :
  redact ["hunter2"; "ter2secret"] "hunter2secret" = "***REDACTED***secret".
Proof. by vm_compute. Qed.
