(* ===== verification/Formatter.v ===== *)
(** The canonical formatter (internal/formatter/formatter.go): the source text
    of a syntax tree.

    Every function of the code appends to a strings.Builder and reads nothing
    from it: a definition here is what its function appends. What is appended
    is written with the verbs of fmt, the operations of the class [Sink]:
    [put s] is WriteString or the literal part of a format, [put_s], [put_q],
    [put_d] and [put_g] the verbs %s, %q, %d and %g, [+++] one write after the
    other, [silent] a branch that writes nothing. The instance [text_sink] is
    the builder of the code, and [Format] the text it ends with; FormatText.v
    gives the other instance, the tokens of that text. *)
From S2P Require Import Prelude GoStd Ast Parser.
Open Scope Z_scope.

Class Sink (W : Type) := {
  put : string → W;
  put_s : string → W;
  put_q : string → W;
  put_d : Z → W;
  put_g : float64 → W;
  silent : W;
  and_then : W → W → W;
}.
Infix "+++" := and_then (at level 60, right associativity).

(** strings.Builder. *)
Global Instance text_sink `{GoRuntime} : Sink string := {|
  put s := s;
  put_s s := s;
  put_q := quote;
  put_d n := pretty n;
  put_g := fmt_g;
  silent := "";
  and_then s t := s +:+ t;
|}.

Section formatter.
Context `{GoRuntime} {W : Type} `{!Sink W}.

(** [if b { sb.WriteString(s) }] *)
Definition guarded (b : bool) (s : W) : W := if b then s else silent.
Definition nonempty (s : string) : bool := negb (String.eqb s "").
Fixpoint text_of {A} (f : A → W) (l : list A) : W :=
  match l with
  | [] => silent
  | x :: l => f x +++ text_of f l
  end.

(** [for i, x := range l { if i > 0 { sb.WriteString(", ") }; ... }] *)
Fixpoint separated (l : list W) : W :=
  match l with
  | [] => silent
  | [x] => x
  | x :: l => x +++ put ", " +++ separated l
  end.

(** [if s != "" { fmt.Fprintf(sb, "<before>%q\n", s) }] *)
Definition line_q (before s : string) : W :=
  guarded (nonempty s) (put before +++ put_q s +++ put nl).
(** [if n > 0 { fmt.Fprintf(sb, "<before>%d\n", n) }] *)
Definition line_d (before : string) (n : Z) : W :=
  guarded (0 <? n) (put before +++ put_d n +++ put nl).

(** ["[%q, ...]"] *)
Definition bracketed (l : list string) : W := put "[" +++ separated (map put_q l) +++ put "]".
(** [if len(l) > 0 { "<before>[...]\n" }] *)
Definition line_list (before : string) (l : list string) : W :=
  match l with
  | [] => silent
  | _ => put before +++ bracketed l +++ put nl
  end.

Definition sortedKeys (m : gmap string string) : list string :=
  sort_strings (map fst (map_range m)).

(** [for _, k := range sortedKeys(m) { "<indent>%s %q\n", k, m[k] }] *)
Definition entries (indent : string) (m : gmap string string) : W :=
  text_of (λ k, put indent +++ put_s k +++ put " " +++ put_q (default "" (m !! k)) +++ put nl)
    (sortedKeys m).

(** [if len(m) > 0 { "<indent><name> {\n"; entries; "<indent>}\n" }] *)
Definition entry_block (indent name : string) (m : gmap string string) : W :=
  guarded (negb (Nat.eqb (size m) 0))
    (put indent +++ put_s name +++ put " {" +++ put nl +++
     entries (indent +:+ "  ") m +++ put indent +++ put "}" +++ put nl).

Definition formatMetadata (m : gmap string string) : W := entry_block "  " "metadata" m.

Definition formatPackage (pkg : Package) : W :=
  put "package " +++ put_q (Package_Name pkg) +++
  guarded (nonempty (Package_Version pkg)) (put " version " +++ put_q (Package_Version pkg)) +++
  guarded (nonempty (Package_LangVersion pkg)) (put " lang " +++
  put_q (Package_LangVersion pkg)) +++
  put nl.

Definition formatPrompt (p : Prompt) : W :=
  put "prompt " +++ put_q (Prompt_Name p) +++ put " {" +++ put nl +++
  line_q "  content " (Prompt_Content p) +++
  line_q "  version " (Prompt_Version p) +++
  match Prompt_Variables p with
  | [] => silent
  | vars =>
      put "  variables {" +++ put nl +++
      text_of (λ v,
        put "    " +++ put_s (VariableDecl_Name v) +++ put " " +++ put_s (VariableDecl_Type v) +++
        guarded (VariableDecl_Required v) (put " required") +++
        guarded (nonempty (VariableDecl_Default v))
          (put " default " +++ put_q (VariableDecl_Default v)) +++ put nl) vars +++
      put "  }" +++ put nl
  end +++
  formatMetadata (Prompt_Metadata p) +++
  put "}" +++ put nl.

Definition formatToolConfig (tc : ToolConfig) : W :=
  let typ := ToolConfig_Type tc in
  if String.eqb typ "mcp" then put "  tool mcp " +++ put_q (ToolConfig_ServerTool tc) +++ put nl
  else if String.eqb typ "http" then
    put "  tool http {" +++ put nl +++
    line_q "    method " (ToolConfig_Method tc) +++
    line_q "    url " (ToolConfig_URL tc) +++
    entry_block "    " "headers" (ToolConfig_Headers tc) +++
    line_q "    body_template " (ToolConfig_BodyTemplate tc) +++
    line_q "    timeout " (ToolConfig_Timeout tc) +++
    put "  }" +++ put nl
  else if String.eqb typ "command" then
    put "  tool command {" +++ put nl +++
    line_q "    binary " (ToolConfig_Binary tc) +++
    line_list "    args " (ToolConfig_Args tc) +++
    line_q "    timeout " (ToolConfig_Timeout tc) +++
    entry_block "    " "env" (ToolConfig_Env tc) +++
    entry_block "    " "secrets" (ToolConfig_Secrets tc) +++
    put "  }" +++ put nl
  else if String.eqb typ "inline" then
    put "  tool inline {" +++ put nl +++
    line_q "    language " (ToolConfig_Language tc) +++
    line_q "    code " (ToolConfig_Code tc) +++
    line_q "    timeout " (ToolConfig_Timeout tc) +++
    line_q "    memory " (ToolConfig_MemoryLimit tc) +++
    put "  }" +++ put nl
  else silent.

(** The input and output blocks of a skill. *)
Definition field_block (name : string) (fields : list Field) : W :=
  match fields with
  | [] => silent
  | _ =>
      put "  " +++ put_s name +++ put " {" +++ put nl +++
      text_of (λ f,
        put "    " +++ put_s (Field_Name f) +++ put " " +++ put_s (Field_Type f) +++
        guarded (Field_Required f) (put " required") +++ put nl) fields +++
      put "  }" +++ put nl
  end.

Definition formatSkill (s : Skill) : W :=
  put "skill " +++ put_q (Skill_Name s) +++ put " {" +++ put nl +++
  line_q "  description " (Skill_Description s) +++
  field_block "input" (Skill_Input s) +++
  field_block "output" (Skill_Output s) +++
  match Skill_Execution s with
  | Some e =>
      put "  execution " +++ put_s (Execution_Type e) +++ put " " +++
      put_q (Execution_Value e) +++ put nl
  | None => silent
  end +++
  match Skill_ToolConfig s with
  | Some tc => formatToolConfig tc
  | None => silent
  end +++
  formatMetadata (Skill_Metadata s) +++
  put "}" +++ put nl.

(** * The blocks of an agent *)

Definition formatConfigBlock (params : list ConfigParam) (indent : string) : W :=
  put indent +++ put "config {" +++ put nl +++
  text_of (λ p,
    put indent +++ put "  " +++ put_s (ConfigParam_Name p) +++ put " " +++
    put_s (ConfigParam_Type p) +++
    guarded (ConfigParam_Required p) (put " required") +++
    guarded (ConfigParam_Secret p) (put " secret") +++
    guarded (ConfigParam_HasDefault p) (put " default " +++ put_q (ConfigParam_Default p)) +++
    put nl +++
    line_q (indent +:+ "    ") (ConfigParam_Description p)) params +++
  put indent +++ put "}" +++ put nl.

Definition formatValidateBlock (rules : list ValidationRule) (indent : string) : W :=
  put indent +++ put "validate {" +++ put nl +++
  text_of (λ r,
    put indent +++ put "  rule " +++ put_s (ValidationRule_Name r) +++ put " " +++
    put_s (ValidationRule_Severity r) +++
    guarded (0 <? ValidationRule_MaxRetries r)
      (put " max_retries " +++ put_d (ValidationRule_MaxRetries r)) +++ put nl +++
    line_q (indent +:+ "    ") (ValidationRule_Message r) +++
    guarded (nonempty (ValidationRule_Expression r))
      (put indent +++ put "    when " +++ put_s (ValidationRule_Expression r) +++ put nl)) rules +++
  put indent +++ put "}" +++ put nl.

Definition formatEvalBlock (cases : list EvalCase) (indent : string) : W :=
  put indent +++ put "eval {" +++ put nl +++
  text_of (λ c,
    put indent +++ put "  case " +++ put_s (EvalCase_Name c) +++ put nl +++
    put indent +++ put "    input " +++ put_q (EvalCase_Input c) +++ put nl +++
    put indent +++ put "    expect " +++ put_q (EvalCase_Expected c) +++ put nl +++
    guarded (nonempty (EvalCase_Scoring c))
      (put indent +++ put "    scoring " +++ put_s (EvalCase_Scoring c) +++
       guarded (negb (float_eq (EvalCase_Threshold c) default_threshold))
         (put " threshold " +++ put_g (EvalCase_Threshold c)) +++ put nl) +++
    line_list (indent +:+ "    tags ") (EvalCase_Tags c)) cases +++
  put indent +++ put "}" +++ put nl.

(** ["%sif %s {\n"; body; indent "}"; else-ifs; else; "\n"], [body] being the
    statements of a block, formatted two spaces deeper. *)
Definition formatIfBlock (body : list OnInputStmt → W) (elseIf : ElseIfClause → W)
    (condition : string) (stmts : list OnInputStmt) (elseIfs : list ElseIfClause)
    (elseBody : list OnInputStmt) (indent : string) : W :=
  put indent +++ put "if " +++ put_s condition +++ put " {" +++ put nl +++ body stmts +++
  put indent +++ put "}" +++
  text_of elseIf elseIfs +++
  match elseBody with
  | [] => silent
  | _ => put " else {" +++ put nl +++ body elseBody +++ put indent +++ put "}"
  end +++ put nl.

Definition formatForEachBlock (body : list OnInputStmt → W)
    (variable collection : string) (stmts : list OnInputStmt) (indent : string) : W :=
  put indent +++ put "for each " +++ put_s variable +++ put " in " +++ put_s collection +++
  put " {" +++ put nl +++
  body stmts +++ put indent +++ put "}" +++ put nl.

(** The parameters of a use-skill statement, sorted by name. *)
Definition format_params (params : gmap string string) : W :=
  guarded (negb (Nat.eqb (size params) 0))
    (put " with { " +++
     separated (map (λ k, put_s k +++ put ": " +++ put_s (default "" (params !! k)))
       (sortedKeys params)) +++ put " }").

Fixpoint formatOnInputStmt (stmt : OnInputStmt) (indent : string) : W :=
  match stmt with
  | UseSkillStmt name params _ _ =>
      put indent +++ put "use skill " +++ put_s name +++ format_params params +++ put nl
  | DelegateToStmt agent _ _ => put indent +++ put "delegate to " +++ put_s agent +++ put nl
  | RespondStmt expression _ _ => put indent +++ put "respond " +++ put_q expression +++ put nl
  | IfBlock condition body elseIfs elseBody _ _ =>
      formatIfBlock (text_of (λ s, formatOnInputStmt s (indent +:+ "  ")))
        (λ c, format_else_if c indent) condition body elseIfs elseBody indent
  | ForEachBlock variable collection body _ _ =>
      formatForEachBlock (text_of (λ s, formatOnInputStmt s (indent +:+ "  ")))
        variable collection body indent
  end
with format_else_if (clause : ElseIfClause) (indent : string) : W :=
  match clause with
  | mkElseIfClause condition body _ _ =>
      put " else if " +++ put_s condition +++ put " {" +++ put nl +++
      text_of (λ s, formatOnInputStmt s (indent +:+ "  ")) body +++ put indent +++ put "}"
  end.

Definition formatOnInputBlock (block : OnInputBlock) (indent : string) : W :=
  put indent +++ put "on input {" +++ put nl +++
  text_of (λ s, formatOnInputStmt s (indent +:+ "  ")) (OnInputBlock_Statements block) +++
  put indent +++ put "}" +++ put nl.

(** [fmt.Fprintf(sb, "%t", b)] *)
Definition fmt_t (b : bool) : W := if b then put "true" else put "false".

(** A block that is written when the list is not empty. *)
Definition some_block {A} (f : list A → string → W) (l : list A) : W :=
  match l with
  | [] => silent
  | _ => f l "  "
  end.

Definition formatAgent (a : Agent) : W :=
  put "agent " +++ put_q (Agent_Name a) +++ put " {" +++ put nl +++
  match Agent_Prompt a with
  | Some r => put "  uses prompt " +++ put_q (Ref_Name r) +++ put nl
  | None => silent
  end +++
  text_of (λ skill, put "  uses skill " +++ put_q (Ref_Name skill) +++ put nl) (Agent_Skills a) +++
  line_q "  model " (Agent_Model a) +++
  line_list "  models " (Agent_Models a) +++
  guarded (float_lt float_zero (Agent_BudgetDaily a))
    (put "  budget daily " +++ put_g (Agent_BudgetDaily a) +++ put nl) +++
  guarded (float_lt float_zero (Agent_BudgetMonthly a))
    (put "  budget monthly " +++ put_g (Agent_BudgetMonthly a) +++ put nl) +++
  text_of (λ gr, put "  uses guardrail " +++ put_q gr +++ put nl) (Agent_GuardrailRefs a) +++
  match Agent_Client a with
  | Some r => put "  connects to client " +++ put_q (Ref_Name r) +++ put nl
  | None => silent
  end +++
  line_q "  strategy " (Agent_Strategy a) +++
  line_d "  max_turns " (Agent_MaxTurns a) +++
  line_q "  timeout " (Agent_Timeout a) +++
  line_d "  token_budget " (Agent_TokenBudget a) +++
  guarded (Agent_HasTemp a) (put "  temperature " +++ put_g (Agent_Temperature a) +++ put nl) +++
  match Agent_Stream a with
  | Some b => put "  stream " +++ fmt_t b +++ put nl
  | None => silent
  end +++
  line_q "  on_error " (Agent_OnError a) +++
  line_d "  max_retries " (Agent_MaxRetries a) +++
  line_q "  fallback " (Agent_Fallback a) +++
  match Agent_MemoryCfg a with
  | Some mc =>
      put "  memory {" +++ put nl +++
      line_q "    strategy " (MemoryConfig_Strategy mc) +++
      line_d "    max_messages " (MemoryConfig_MaxMessages mc) +++
      put "  }" +++ put nl
  | None => silent
  end +++
  text_of (λ d, put "  delegate to agent " +++ put_q (Delegate_AgentRef d) +++
                put " when " +++ put_q (Delegate_Condition d) +++ put nl) (Agent_Delegates a) +++
  some_block formatConfigBlock (Agent_ConfigParams a) +++
  some_block formatValidateBlock (Agent_ValidationRules a) +++
  some_block formatEvalBlock (Agent_EvalCases a) +++
  match Agent_OnInput a with
  | Some b => formatOnInputBlock b "  "
  | None => silent
  end +++
  formatMetadata (Agent_Metadata a) +++
  put "}" +++ put nl.

(** * The other statements *)

Definition formatBinding (b : Binding) : W :=
  put "binding " +++ put_q (Binding_Name b) +++
  guarded (nonempty (Binding_Adapter b)) (put " adapter " +++ put_q (Binding_Adapter b)) +++
  put " {" +++ put nl +++
  guarded (Binding_Default b) (put "  default true" +++ put nl) +++
  entries "  " (Binding_Config b) +++
  put "}" +++ put nl.

Definition formatSecret (s : Secret) : W :=
  put "secret " +++ put_q (Secret_Name s) +++ put " {" +++ put nl +++
  (if String.eqb (Secret_Source s) "env"
   then put "  env(" +++ put_s (Secret_Key s) +++ put ")" +++ put nl
   else if String.eqb (Secret_Source s) "store"
   then put "  store(" +++ put_s (Secret_Key s) +++ put ")" +++ put nl
   else silent) +++
  put "}" +++ put nl.

(** The overrides grouped by resource, and the resources in the order of
    their first override. *)
Definition group_override (st : gmap string (list Override) * list string) (o : Override)
    : gmap string (list Override) * list string :=
  let '(groups, order) := st in
  let res := Override_Resource o in
  let order := if decide (is_Some (groups !! res)) then order else order ++ [res] in
  (<[res := default [] (groups !! res) ++ [o]]> groups, order).

Definition group_overrides (os : list Override) : gmap string (list Override) * list string :=
  fold_left group_override os (∅, []).

Definition format_group (groups : gmap string (list Override)) (res : string) : W :=
  match SplitN2 res "/" with
  | [kind; name] => put "  " +++ put_s kind +++ put " " +++ put_q name +++ put " {" +++ put nl
  | _ => put "  " +++ put_s res +++ put " {" +++ put nl
  end +++
  text_of (λ o, put "    " +++ put_s (Override_Attribute o) +++ put " " +++
                put_q (Override_Value o) +++ put nl)
    (default [] (groups !! res)) +++
  put "  }" +++ put nl.

Definition formatEnvironment (e : Environment) : W :=
  let '(groups, order) := group_overrides (Environment_Overrides e) in
  put "environment " +++ put_q (Environment_Name e) +++ put " {" +++ put nl +++
  text_of (format_group groups) order +++
  put "}" +++ put nl.

Definition formatPolicy (p : Policy) : W :=
  put "policy " +++ put_q (Policy_Name p) +++ put " {" +++ put nl +++
  text_of (λ r,
    put "  " +++ put_s (Rule_Action r) +++ put " " +++ put_s (Rule_Resource r) +++
    guarded (nonempty (Rule_Subject r)) (put " " +++ put_s (Rule_Subject r)) +++ put nl)
    (Policy_Rules p) +++
  put "}" +++ put nl.

Definition formatPlugin (p : Plugin) : W :=
  put "plugin " +++ put_q (Plugin_Name p) +++
  guarded (nonempty (Plugin_Version p)) (put " version " +++ put_q (Plugin_Version p)) +++ put nl.

Definition formatMCPServer (s : MCPServer) : W :=
  put "server " +++ put_q (MCPServer_Name s) +++ put " {" +++ put nl +++
  line_q "  transport " (MCPServer_Transport s) +++
  line_q "  command " (MCPServer_Command s) +++
  line_list "  args " (MCPServer_Args s) +++
  line_q "  url " (MCPServer_URL s) +++
  match MCPServer_Auth s with
  | Some r => put "  auth " +++ put_q (Ref_Name r) +++ put nl
  | None => silent
  end +++
  text_of (λ skill, put "  exposes skill " +++ put_q (Ref_Name skill) +++ put nl)
    (MCPServer_Skills s) +++
  entry_block "  " "env" (MCPServer_Env s) +++
  formatMetadata (MCPServer_Metadata s) +++
  put "}" +++ put nl.

Definition formatMCPClient (c : MCPClient) : W :=
  put "client " +++ put_q (MCPClient_Name c) +++ put " {" +++ put nl +++
  text_of (λ server, put "  connects to server " +++ put_q (Ref_Name server) +++ put nl)
    (MCPClient_Servers c) +++
  formatMetadata (MCPClient_Metadata c) +++
  put "}" +++ put nl.

Definition formatPluginRef (p : PluginRef) : W :=
  put "plugin " +++ put_q (PluginRef_Name p) +++
  guarded (nonempty (PluginRef_Version p)) (put " version " +++ put_q (PluginRef_Version p)) +++
  put nl.

Definition formatDeployTarget (d : DeployTarget) : W :=
  put "deploy " +++ put_q (DeployTarget_Name d) +++
  put " target " +++ put_q (DeployTarget_Target d) +++ put " {" +++ put nl +++
  line_d "  port " (DeployTarget_Port d) +++
  guarded (DeployTarget_Default d) (put "  default true" +++ put nl) +++
  line_q "  namespace " (DeployTarget_Namespace d) +++
  line_d "  replicas " (DeployTarget_Replicas d) +++
  line_q "  image " (DeployTarget_Image d) +++
  match DeployTarget_Resources d with
  | Some r =>
      put "  resources {" +++ put nl +++
      line_q "    cpu " (ResourceLimits_CPU r) +++
      line_q "    memory " (ResourceLimits_Memory r) +++
      put "  }" +++ put nl
  | None => silent
  end +++
  match DeployTarget_Health d with
  | Some h =>
      put "  health {" +++ put nl +++
      line_q "    path " (HealthConfig_Path h) +++
      line_q "    interval " (HealthConfig_Interval h) +++
      line_q "    timeout " (HealthConfig_Timeout h) +++
      put "  }" +++ put nl
  | None => silent
  end +++
  match DeployTarget_Autoscale d with
  | Some s =>
      put "  autoscale {" +++ put nl +++
      line_d "    min " (AutoscaleConfig_MinReplicas s) +++
      line_d "    max " (AutoscaleConfig_MaxReplicas s) +++
      line_q "    metric " (AutoscaleConfig_Metric s) +++
      line_d "    target " (AutoscaleConfig_Target s) +++
      put "  }" +++ put nl
  | None => silent
  end +++
  entry_block "  " "env" (DeployTarget_Env d) +++
  entry_block "  " "secrets" (DeployTarget_Secrets d) +++
  put "}" +++ put nl.

Definition formatTypeDef (t : TypeDef) : W :=
  match TypeDef_EnumVals t with
  | _ :: _ =>
      put "type " +++ put_q (TypeDef_Name t) +++ put " enum " +++
      bracketed (TypeDef_EnumVals t) +++ put nl
  | [] =>
      if nonempty (TypeDef_ListOf t) then
        put "type " +++ put_q (TypeDef_Name t) +++ put " list " +++
        put_s (TypeDef_ListOf t) +++ put nl
      else
        put "type " +++ put_q (TypeDef_Name t) +++ put " {" +++ put nl +++
        text_of (λ f,
          put "  " +++ put_s (TypeField_Name f) +++ put " " +++ put_s (TypeField_Type f) +++
          guarded (TypeField_Required f) (put " required") +++
          guarded (nonempty (TypeField_Default f))
            (put " default " +++ put_q (TypeField_Default f)) +++ put nl) (TypeDef_Fields t) +++
        put "}" +++ put nl
  end.

Definition formatPipeline (p : Pipeline) : W :=
  put "pipeline " +++ put_q (Pipeline_Name p) +++ put " {" +++ put nl +++
  text_of (λ step,
    put "  step " +++ put_q (PipelineStep_Name step) +++ put " {" +++ put nl +++
    line_q "    agent " (PipelineStep_Agent step) +++
    line_q "    input " (PipelineStep_Input step) +++
    line_q "    output " (PipelineStep_Output step) +++
    line_list "    depends_on " (PipelineStep_DependsOn step) +++
    guarded (PipelineStep_Parallel step) (put "    parallel true" +++ put nl) +++
    line_q "    when " (PipelineStep_When step) +++
    put "  }" +++ put nl) (Pipeline_Steps p) +++
  put "}" +++ put nl.

Definition formatImport (imp : Import) : W :=
  put "import " +++ put_q (Import_Path imp) +++
  guarded (nonempty (Import_Version imp)) (put " version " +++ put_q (Import_Version imp)) +++
  guarded (nonempty (Import_Alias imp)) (put " as " +++ put_s (Import_Alias imp)) +++ put nl.

Definition formatUser (u : User) : W :=
  put "user " +++ put_q (User_Name u) +++ put " {" +++ put nl +++
  guarded (nonempty (User_KeyRef u)) (put "  key secret(" +++ put_q (User_KeyRef u) +++
    put ")" +++ put nl) +++
  line_list "  agents " (User_Agents u) +++
  line_q "  role " (User_Role u) +++
  put "}" +++ put nl.

Definition formatGuardrail (g : Guardrail) : W :=
  put "guardrail " +++ put_q (Guardrail_Name g) +++ put " {" +++ put nl +++
  line_q "  mode " (Guardrail_Mode g) +++
  line_list "  keywords " (Guardrail_Keywords g) +++
  line_list "  patterns " (Guardrail_Patterns g) +++
  line_q "  fallback " (Guardrail_FallbackMsg g) +++
  put "}" +++ put nl.

Definition formatStateConfig (s : StateConfig) : W :=
  (if nonempty (StateConfig_Name s)
   then put "state " +++ put_q (StateConfig_Name s) +++ put " {" +++ put nl
   else put "state {" +++ put nl) +++
  put "  type " +++ put_q (StateConfig_Type s) +++ put nl +++
  entries "  " (StateConfig_Properties s) +++
  put "}" +++ put nl.

(** The switch has no case for a package declaration. *)
Definition formatStatement (stmt : Statement) : W :=
  match stmt with
  | SPrompt s => formatPrompt s
  | SSkill s => formatSkill s
  | SAgent s => formatAgent s
  | SBinding s => formatBinding s
  | SSecret s => formatSecret s
  | SEnvironment s => formatEnvironment s
  | SPolicy s => formatPolicy s
  | SPlugin s => formatPlugin s
  | SMCPServer s => formatMCPServer s
  | SMCPClient s => formatMCPClient s
  | SDeployTarget s => formatDeployTarget s
  | SPluginRef s => formatPluginRef s
  | STypeDef s => formatTypeDef s
  | SPipeline s => formatPipeline s
  | SImport s => formatImport s
  | SUser s => formatUser s
  | SGuardrail s => formatGuardrail s
  | SStateConfig s => formatStateConfig s
  | SPackage _ => silent
  end.

Definition write_file (f : File) : W :=
  match File_Package f with
  | Some pkg => formatPackage pkg
  | None => silent
  end +++
  text_of (λ stmt, put nl +++ formatStatement stmt) (File_Statements f).
End formatter.

(** Format formats an AST File back to canonical source. *)
Definition Format `{GoRuntime} (f : File) : string := write_file f.

