(* ===== verification/LexText.v ===== *)
(** The lexer against Go's string quoting: the formatter writes every string
    of a file with the %q verb, and the lexer reads it back unchanged when it
    is made of printable ASCII characters, newlines and tabs. *)
From S2P Require Import Prelude GoStd Token Lexer LexerFacts.
Open Scope Z_scope.

(** Printable ASCII, newline and tab. *)
Definition plain_byte (c : ascii) : bool :=
  let b := byte_of c in
  ((32 <=? b) && (b <=? 126)) || (b =? 9) || (b =? 10).

Fixpoint plain_string (s : string) : bool :=
  match s with
  | EmptyString => true
  | String c s => plain_byte c && plain_string s
  end.

Definition dquote : string := String "034" EmptyString.

(** A plain character is quoted as itself, and then the scanner copies it, or
    as a two-character escape, which the scanner turns back. *)
Definition quoted_as (esc : string) (c : ascii) : Prop :=
  (esc = String c EmptyString ∧ byte_of c < 128 ∧ byte_of c ≠ 34 ∧ byte_of c ≠ 92 ∧
   byte_of c ≠ 10 ∧ encode_rune (byte_of c) = String c EmptyString) ∨
  (∃ e, esc = String "\" (String e EmptyString) ∧ byte_of e < 128 ∧
        unescape (byte_of e) = String c EmptyString).

Section quote.
Context `{GoRuntime}.

Lemma plain_byte_ascii c : plain_byte c = true → byte_of c < 128.
Proof. unfold plain_byte. lia. Qed.

Lemma escaped_plain c :
  plain_byte c = true → quoted_as (escaped_rune "034" (byte_of c)) c.
Proof.
  unfold quoted_as.
  destruct c as [[] [] [] [] [] [] [] []]; intros E;
    (discriminate E || clear E);
    (left; by vm_compute) ||
    (right; first [by exists "n"%char | by exists "t"%char | by exists "\"%char
                  | by exists "034"%char]).
Qed.

Lemma DecodeRune_ascii c s : byte_of c < 128 → DecodeRune (String c s) = (byte_of c, 1%nat).
Proof. intros E. unfold DecodeRune. destruct (byte_of c <? 128) eqn:Q; [done|lia]. Qed.

Lemma byte_of_nonneg c : 0 <= byte_of c.
Proof. unfold byte_of. lia. Qed.

Lemma quote_runes_cons n c s :
  plain_byte c = true →
  quote_runes (S n) (String c s) = escaped_rune "034" (byte_of c) +:+ quote_runes n s.
Proof.
  intros P. pose proof (plain_byte_ascii c P). cbn [quote_runes].
  rewrite DecodeRune_ascii by done. 
  destruct ((byte_of c =? RuneError) && _ && _) eqn:Q; [|done].
  unfold RuneError in Q. lia.
Qed.

(** * Reading a known character *)

Lemma str_drop_S n c s t : str_drop n s = String c t → str_drop (S n) s = t.
Proof.
  revert s. induction n as [|n IH]; intros s.
  - simpl. by intros ->.
  - destruct s as [|c' s]; [done|]. simpl. apply IH.
Qed.

Lemma unread_cons l c s :
  unread l = String c s → at_eof l = false ∧ (byte_of c < 128 → peek l = byte_of c).
Proof.
  intros U. assert (at_eof l = false) as E.
  { apply at_eof_false. apply (f_equal String.length) in U. unfold unread in U.
    rewrite length_str_drop in U. simpl in U. lia. }
  split; [done|]. intros A. unfold peek. by rewrite E, U, DecodeRune_ascii.
Qed.

Lemma unread_advance l c s :
  unread l = String c s → byte_of c < 128 → unread (advance l) = s.
Proof.
  intros U A. destruct (unread_cons l c s U) as [E _].
  unfold advance. rewrite E, U, DecodeRune_ascii by done.
  unfold unread in *. pose proof (str_drop_S _ _ _ _ U) as D.
  rewrite Nat.add_1_r. by destruct (byte_of c =? 10).
Qed.

Lemma unread_bytes_unread l : unread_bytes l = String.length (unread l).
Proof. unfold unread, unread_bytes. by rewrite length_str_drop. Qed.

(** * The round trip *)

Lemma scanString_quoted s k n l sb rest :
  plain_string s = true → (String.length s ≤ k)%nat →
  unread l = quote_runes k s +:+ dquote +:+ rest → (unread_bytes l < n)%nat →
  ∃ l', scanString_loop n l sb = Some (Ok (makeToken l TokenString (sb +:+ s), l')) ∧
        reads l l' ∧ unread l' = rest.
Proof.
  revert k n l sb. induction s as [|c s IH]; intros k n l sb P K U Hn.
  - assert (unread l = String "034" rest) as U' by (destruct k; exact U).
    destruct (unread_cons _ _ _ U') as [E PK]. destruct n as [|n]; [lia|].
    cbn [scanString_loop]. rewrite E, PK by done.
    exists (advance l). rewrite str_app_nil_r.
    split_and!; [done | apply advance_reads | by eapply unread_advance].
  - simpl in P. apply andb_true_iff in P as [Pc Ps].
    destruct k as [|k]; [simpl in K; lia|]. destruct n as [|n]; [lia|].
    rewrite quote_runes_cons, <- str_app_assoc in U by done.
    assert (∀ l1, reads l l1 → unread l1 = quote_runes k s +:+ dquote +:+ rest →
      (unread_bytes l1 < unread_bytes l)%nat →
      ∃ l', scanString_loop n l1 (sb +:+ String c "") =
            Some (Ok (makeToken l TokenString (sb +:+ String c s), l')) ∧
        reads l l' ∧ unread l' = rest) as STEP.
    { intros l1 R U1 B. simpl in K.
      destruct (IH k n l1 (sb +:+ String c "") Ps ltac:(lia) U1 ltac:(lia)) as (l' & -> & R' & U').
      exists l'. rewrite <- str_app_assoc. split_and!; [|by eapply reads_trans|done].
      do 2 f_equal. destruct R as [_ F _ _ S]. unfold makeToken. injection S as -> ->.
      by rewrite F. }
    cbn [scanString_loop].
    destruct (escaped_plain c Pc) as [(Q & A & N1 & N2 & N3 & EN)|(e & Q & A & UN)];
      rewrite Q in U; rewrite !str_app_cons in U.
    + destruct (unread_cons _ _ _ U) as [E PK]. rewrite E, PK by done.
      rewrite (proj2 (Z.eqb_neq _ _) N1), (proj2 (Z.eqb_neq _ _) N2), (proj2 (Z.eqb_neq _ _) N3), EN.
      apply STEP; [apply advance_reads | by eapply unread_advance | by apply advance_unread].
    + destruct (unread_cons _ _ _ U) as [E PK]. rewrite E, PK by done.
      change (byte_of "\" =? 34) with false. change (byte_of "\" =? 92) with true. cbn iota.
      pose proof (unread_advance _ _ _ U eq_refl) as U1.
      destruct (unread_cons _ _ _ U1) as [E1 PK1]. rewrite E1, PK1, UN by done.
      apply STEP; [eapply reads_trans; apply advance_reads | by eapply unread_advance |].
      pose proof (advance_unread _ E). pose proof (advance_unread _ E1). lia.
Qed.
End quote.

(** fmt's %q writes a string the lexer reads back: for every string of
    printable ASCII characters, newlines and tabs, tokenizing its quoted form
    yields exactly one String token holding the string, then EOF. *)
Theorem lex_quote_roundtrip `{GoRuntime} (s f : string) (P : plain_string s = true) :
  Tokenize (NewLexer (quote s) f) =
    Some (Ok [mkToken TokenString s f 1 1; mkToken TokenEOF "" f 1 1]).
Proof.
  set (l := NewLexer (quote s) f).
  assert (unread l = String "034" (quote_runes (String.length s) s +:+ dquote)) as U by done.
  destruct (unread_cons _ _ _ U) as [E PK]. specialize (PK eq_refl).
  assert (skipWhitespaceAndComments l = Some l) as SK.
  { unfold skipWhitespaceAndComments, fuel. cbn [skip_loop]. unfold at_comment.
    by rewrite E, PK. }
  set (l1 := l <| start := pos l |> <| startLn := line l |> <| startCl := col l |>).
  assert (unread (advance l1) = quote_runes (String.length s) s +:+ dquote) as U1.
  { apply (unread_advance l1 "034"%char); done. }
  destruct (scanString_quoted s (String.length s) (fuel (advance l1)) (advance l1) "" "" P)
    as (l2 & SC & R & U2); [lia | done | unfold fuel, unread_bytes; lia |].
  assert (nextToken l = Some (Ok (makeToken l1 TokenString s, l2))) as N1.
  { unfold nextToken. rewrite SK. cbn [mbind option_bind]. rewrite E.
    change (peek (l <| start := _ |> <| startLn := _ |> <| startCl := _ |>)) with (peek l).
    rewrite PK. change (single_char (byte_of "034")) with (@None (TokenType * string)).
    change (byte_of "034" =? 34) with true. cbn iota. unfold scanString. fold l1. by rewrite SC. }
  assert (at_eof l2 = true) as E2.
  { destruct (at_eof l2) eqn:Q; [done|]. apply at_eof_false in Q.
    apply (f_equal String.length) in U2. rewrite <- unread_bytes_unread in U2.
    unfold unread_bytes in U2. simpl in U2. lia. }
  unfold Tokenize, fuel. cbn [tokenize_loop]. rewrite N1. cbn.
  destruct (String.length (quote s) - 0)%nat eqn:LQ; [done|]. cbn [tokenize_loop].
  unfold nextToken.
  set (l3 := l2 <| lex_tokens := _ |>).
  assert (skipWhitespaceAndComments l3 = Some l3) as ->.
  { unfold skipWhitespaceAndComments, fuel. cbn [skip_loop].
    change (at_eof l3) with (at_eof l2). by rewrite E2. }
  cbn [mbind option_bind]. change (at_eof l3) with (at_eof l2). rewrite E2.
  pose proof (reads_trans _ _ _ (advance_reads l1) R) as [_ F T _ S _ _ _].
  unfold l3, makeToken. injection S as E3 E4. simpl. by rewrite F, T, E3, E4.
Qed.

Lemma lex_quote_roundtrip_witness :
  @Tokenize ascii_runtime (NewLexer (@quote ascii_runtime "say \hi") "f") =
    Some (Ok [mkToken TokenString "say \hi" "f" 1 1; mkToken TokenEOF "" "f" 1 1]).
Proof. exact (@lex_quote_roundtrip ascii_runtime "say \hi" "f" eq_refl). Defined.

(** The quoting is wider than the lexer's escapes: a carriage return is
    quoted as a backslash and an r, which the lexer keeps as these two
    characters, so the string that comes back differs. *)
Lemma lex_quote_cr_lost `{GoRuntime} (f : string) :
  ∃ literal,
    Tokenize (NewLexer (quote (String "013" EmptyString)) f) =
      Some (Ok [mkToken TokenString literal f 1 1; mkToken TokenEOF "" f 1 1]) ∧
    literal = "\r" ∧ literal ≠ String "013" EmptyString.
Proof. exists "\r". split_and!; [by vm_compute | done | done]. Qed.

(** The lexer as a function of the text that is left: [Lex s ts] says that
    from every state whose unread input is [s] the lexer ends without an error
    and the types and literals of the tokens it adds are [ts]. The rules
    [Lex_*] read one lexical element off the front of a text, so that the
    tokens of a text are found from those of its end; [Lex_lit] reads a whole
    literal text at once, by computation. *)

(** A token without its position. *)
Definition tk : Type := TokenType * string.
Definition tok_tk (t : Token) : tk := (Token_Type t, Token_Literal t).

Section lex.
Context `{GoRuntime}.

Definition Lex (s : string) (ts : list tk) : Prop :=
  ∀ l n, unread l = s → (String.length s < n)%nat →
  ∃ toks, tokenize_loop n l = Some (Ok (lex_tokens l ++ toks)) ∧ map tok_tk toks = ts.

Lemma unread_length l : String.length (unread l) = (String.length (input l) - pos l)%nat.
Proof. unfold unread. apply length_str_drop. Qed.

Lemma unread_nil l : unread l = "" → at_eof l = true.
Proof.
  intros U. apply (f_equal String.length) in U. rewrite unread_length in U. simpl in U.
  unfold at_eof. apply Nat.leb_le. lia.
Qed.

Lemma fuel_unread l : fuel l = S (String.length (unread l)).
Proof. by rewrite unread_length. Qed.

(** The end of the text. *)
Lemma Lex_eof : Lex "" [(TokenEOF, "")].
Proof.
  intros l n U L. destruct n as [|n]; [simpl in L; lia|]. cbn [tokenize_loop].
  pose proof (unread_nil l U) as E. unfold nextToken, skipWhitespaceAndComments, fuel.
  cbn [skip_loop]. rewrite E. cbn [mbind option_bind]. rewrite E.
  simpl. exists [makeToken l TokenEOF ""]. by split.
Qed.

(** White space other than a newline. *)
Lemma Lex_blank c s ts : is_blank (byte_of c) = true → Lex s ts → Lex (String c s) ts.
Proof.
  intros B Ls l n U L. assert (byte_of c < 128) as A by (unfold is_blank in B; lia).
  destruct (unread_cons _ _ _ U) as [E PK]. specialize (PK A).
  pose proof (unread_advance _ _ _ U A) as U1.
  destruct (Ls (advance l) n U1) as (toks & T & M); [simpl in L; lia|].
  exists toks. split; [|done]. rewrite (reads_tokens _ _ (advance_reads l)) in T. rewrite <- T.
  destruct n as [|n]; [simpl in L; lia|]. cbn [tokenize_loop].
  assert (nextToken l = nextToken (advance l)) as ->; [|done].
  unfold nextToken at 1. unfold skipWhitespaceAndComments at 1.
  rewrite fuel_unread, U. cbn [skip_loop]. rewrite E, PK, B.
  unfold nextToken at 1, skipWhitespaceAndComments. by rewrite fuel_unread, U1.
Qed.

(** Neither white space nor a character a comment can start with. *)
Definition token_start (c : ascii) : bool :=
  (byte_of c <? 128) && negb (is_blank (byte_of c)) && negb (byte_of c =? 35) &&
  negb (byte_of c =? 47).

(** The state in which nextToken starts a token. *)
Definition started (l : Lexer) : Lexer :=
  l <| start := pos l |> <| startLn := line l |> <| startCl := col l |>.

Lemma started_reads l l' : reads (started l) l' → lex_tokens l' = lex_tokens l.
Proof. intros R. apply (reads_tokens _ _ R). Qed.

Lemma skip_none l c s :
  unread l = String c s → token_start c = true → skipWhitespaceAndComments l = Some l.
Proof.
  intros U T. unfold token_start in T. rewrite !andb_true_iff, !negb_true_iff in T.
  destruct T as [[[A B] C1] C2]. destruct (unread_cons _ _ _ U) as [E PK]. specialize (PK ltac:(lia)).
  unfold skipWhitespaceAndComments, fuel. cbn [skip_loop]. unfold at_comment.
  by rewrite E, PK, B, C1, C2.
Qed.

(** A token that starts with [c] and leaves [s']. *)
Definition token_read (l : Lexer) (t : tk) (s' : string) : Prop :=
  ∃ tok l', nextToken l = Some (Ok (tok, l')) ∧ tok_tk tok = t ∧ unread l' = s' ∧
            lex_tokens l' = lex_tokens l.

Lemma Lex_token s t s' ts :
  t.1 ≠ TokenEOF → (String.length s' < String.length s)%nat →
  (∀ l, unread l = s → token_read l t s') → Lex s' ts → Lex s (t :: ts).
Proof.
  intros NE SH TR Ls l n U L. destruct (TR l U) as (tok & l' & N & <- & U' & K).
  destruct n as [|n]; [lia|]. cbn [tokenize_loop]. rewrite N. cbn [mbind option_bind].
  destruct (token_eqb (Token_Type tok) TokenEOF) eqn:Q; [by apply token_eqb_eq in Q|].
  lazymatch goal with |- context [tokenize_loop n ?l1] => destruct (Ls l1 n U') as (toks & T & <-) end;
    [lia|].
  exists (tok :: toks). split; [|done]. rewrite T. simpl. by rewrite K, <- app_assoc.
Qed.

(** What nextToken does at a character that starts a token. *)
Lemma nextToken_at l c s :
  unread l = String c s → token_start c = true →
  nextToken l =
    match single_char (byte_of c) with
    | Some (typ, literal) => Some (Ok (makeToken (started l) typ literal, advance (started l)))
    | None =>
        if byte_of c =? 34 then scanString (started l)
        else if isDigit (byte_of c) then scanNumber (started l)
        else if byte_of c =? 58
        then Some (Ok (makeToken (started l) TokenColon ":", advance (started l)))
        else if isIdentStart (byte_of c) then scanIdentOrKeyword (started l)
        else nextToken l
    end.
Proof.
  intros U T. unfold nextToken at 1. rewrite (skip_none _ _ _ U T). cbn [mbind option_bind].
  assert (byte_of c < 128) as A by (unfold token_start in T; lia).
  destruct (unread_cons _ _ _ U) as [E PK]. specialize (PK A).
  rewrite E. fold (started l). change (peek (started l)) with (peek l). rewrite PK.
  destruct (single_char (byte_of c)) as [[typ literal]|] eqn:SC; [done|].
  destruct (byte_of c =? 34) eqn:C1; [done|].
  destruct (isDigit (byte_of c)) eqn:C2; [done|].
  destruct (byte_of c =? 58) eqn:C3.
  { apply Z.eqb_eq in C3. by rewrite C3. }
  destruct (isIdentStart (byte_of c)) eqn:C4.
  - assert (byte_of c ≠ 45 ∧ byte_of c ≠ 61 ∧ byte_of c ≠ 33 ∧ byte_of c ≠ 62 ∧ byte_of c ≠ 60) as NN.
    { split_and!; intros X; rewrite X in C4; discriminate C4. }
    destruct NN as (N1 & N2 & N3 & N4 & N5).
    rewrite (proj2 (Z.eqb_neq _ _) N1), (proj2 (Z.eqb_neq _ _) N2), (proj2 (Z.eqb_neq _ _) N3),
      (proj2 (Z.eqb_neq _ _) N4), (proj2 (Z.eqb_neq _ _) N5). done.
  - unfold nextToken. rewrite (skip_none _ _ _ U T). cbn [mbind option_bind].
    rewrite E. fold (started l). change (peek (started l)) with (peek l).
    by rewrite PK, SC, C1, C2, C3, C4.
Qed.

(** A token of one character. *)
Lemma Lex_char c s ts typ literal :
  token_start c = true → single_char (byte_of c) = Some (typ, literal) → Lex s ts →
  Lex (String c s) ((typ, literal) :: ts).
Proof.
  intros T SC. apply Lex_token; [by apply (single_char_not_EOF _ _ SC) | simpl; lia |].
  intros l U. pose proof (nextToken_at l c s U T) as N. rewrite SC in N.
  do 2 eexists. split_and!; [exact N | done | | by apply started_reads, advance_reads].
  apply (unread_advance (started l) c); [done|]. unfold token_start in T. lia.
Qed.

Lemma Lex_colon s ts : Lex s ts → Lex (":" +:+ s) ((TokenColon, ":") :: ts).
Proof.
  apply Lex_token; [done | rewrite str_app_length; simpl; lia |]. intros l U.
  pose proof (nextToken_at l ":"%char s U eq_refl) as N.
  do 2 eexists. split_and!; [exact N | done | | by apply started_reads, advance_reads].
  by apply (unread_advance (started l) ":"%char).
Qed.

(** * Words and numbers *)

(** Every character of [w] is ASCII and satisfies [p]. *)
Fixpoint all_bytes (p : Z → bool) (w : string) : bool :=
  match w with
  | EmptyString => true
  | String c w => (byte_of c <? 128) && p (byte_of c) && all_bytes p w
  end.

(** The text [s] does not go on with a character of [p]. *)
Definition stops (p : Z → bool) (s : string) : bool :=
  match s with
  | EmptyString => true
  | String c _ => (byte_of c <? 128) && negb (p (byte_of c))
  end.

Lemma advance_while_run p w s l n :
  all_bytes p w = true → stops p s = true → unread l = w +:+ s →
  (String.length w < n)%nat →
  ∃ l', advance_while n p l = Some l' ∧ reads l l' ∧ unread l' = s ∧
        pos l' = (pos l + String.length w)%nat.
Proof.
  revert l n. induction w as [|c w IH]; intros l n W D U Ln.
  - destruct n as [|n]; [simpl in Ln; lia|]. cbn [advance_while]. exists l.
    split_and!; [|apply reads_refl|done|simpl; lia].
    destruct s as [|c s]; [by rewrite (unread_nil l U)|]. simpl in D.
    apply andb_true_iff in D as [A D]. apply negb_true_iff in D.
    destruct (unread_cons _ _ _ U) as [E PK]. by rewrite E, PK, D by lia.
  - simpl in W. rewrite !andb_true_iff in W. destruct W as [[A P] W].
    destruct n as [|n]; [simpl in Ln; lia|]. cbn [advance_while].
    rewrite str_app_cons in U. destruct (unread_cons _ _ _ U) as [E PK].
    rewrite E, PK, P by lia. simpl.
    destruct (IH (advance l) n) as (l' & -> & R & U' & PS);
      [done | done | apply (unread_advance l c); [done | lia] | simpl in Ln; lia |].
    exists l'. split_and!; [done | by eapply reads_trans, R; apply advance_reads | done |].
    rewrite PS. unfold advance. rewrite E, U, DecodeRune_ascii by lia.
    simpl. destruct (_ =? 10); simpl; lia.
Qed.

Lemma lexeme_run l l' w s :
  reads l l' → start l = pos l → unread l = w +:+ s →
  pos l' = (pos l + String.length w)%nat → lexeme l' = w.
Proof.
  intros R S U P. unfold lexeme. rewrite (reads_start _ _ R), (reads_input _ _ R), S, P.
  replace (pos l + String.length w - pos l)%nat with (String.length w) by lia.
  unfold unread in U. rewrite U. apply str_take_app.
Qed.

Definition is_word (w : string) : bool :=
  match w with
  | EmptyString => false
  | String c _ => (byte_of c <? 128) && isIdentStart (byte_of c) && all_bytes isIdentPart w
  end.

Lemma isIdentStart_token c :
  byte_of c < 128 → isIdentStart (byte_of c) = true →
  token_start c = true ∧ single_char (byte_of c) = None ∧ byte_of c ≠ 34 ∧
  isDigit (byte_of c) = false ∧ byte_of c ≠ 58.
Proof.
  intros A. unfold isIdentStart. rewrite (proj2 (Z.ltb_lt _ _) A).
  destruct c as [[] [] [] [] [] [] [] []]; intros E; (discriminate E || discriminate A || done).
Qed.

Lemma Lex_word w s ts :
  is_word w = true → stops isIdentPart s = true → Lex s ts →
  Lex (w +:+ s) ((LookupKeyword w, w) :: ts).
Proof.
  intros W D. destruct w as [|c w]; [done|]. unfold is_word in W.
  rewrite !andb_true_iff in W. destruct W as [[A I] W].
  apply Lex_token; [apply LookupKeyword_not_EOF | rewrite str_app_length; simpl; lia |].
  intros l U. destruct (isIdentStart_token c) as (T & SC & N1 & N2 & N3); [lia | done |].
  rewrite str_app_cons in U.
  pose proof (nextToken_at l c _ U T) as N.
  rewrite SC, N2, I, (proj2 (Z.eqb_neq _ _) N1), (proj2 (Z.eqb_neq _ _) N3) in N.
  unfold scanIdentOrKeyword in N.
  destruct (advance_while_run isIdentPart (String c w) s (started l) (fuel (started l)) W D)
    as (l' & E & R & U' & P).
  { exact U. }
  { change (fuel (started l)) with (fuel l). rewrite fuel_unread, U. simpl.
    rewrite str_app_length. lia. }
  rewrite E in N. cbn [mbind option_bind] in N.
  rewrite (lexeme_run _ _ (String c w) s R eq_refl U P) in N.
  do 2 eexists. split_and!; [exact N | done | done | by apply started_reads].
Qed.

Definition is_number (w : string) : bool :=
  match w with
  | EmptyString => false
  | String c _ => isDigit (byte_of c) && all_bytes is_number_char w
  end.

Lemma Lex_number w s ts :
  is_number w = true → stops is_number_char s = true → Lex s ts →
  Lex (w +:+ s) ((TokenNumber, w) :: ts).
Proof.
  intros W D. destruct w as [|c w]; [done|]. unfold is_number in W.
  apply andb_true_iff in W as [I W].
  apply Lex_token; [done | rewrite str_app_length; simpl; lia |].
  intros l U. rewrite str_app_cons in U.
  assert (token_start c = true ∧ single_char (byte_of c) = None ∧ byte_of c ≠ 34) as (T & SC & N1).
  { clear -I. destruct c as [[] [] [] [] [] [] [] []]; (discriminate I || done). }
  pose proof (nextToken_at l c _ U T) as N.
  rewrite SC, I, (proj2 (Z.eqb_neq _ _) N1) in N. unfold scanNumber in N.
  destruct (advance_while_run is_number_char (String c w) s (started l) (fuel (started l)) W D)
    as (l' & E & R & U' & P).
  { exact U. }
  { change (fuel (started l)) with (fuel l). rewrite fuel_unread, U. simpl.
    rewrite str_app_length. lia. }
  rewrite E in N. cbn [mbind option_bind] in N.
  rewrite (lexeme_run _ _ (String c w) s R eq_refl U P) in N.
  do 2 eexists. split_and!; [exact N | done | done | by apply started_reads].
Qed.

(** * Quoted strings *)

Lemma Lex_quote q s ts :
  plain_string q = true → Lex s ts → Lex (quote q +:+ s) ((TokenString, q) :: ts).
Proof.
  intros P. apply Lex_token; [done | rewrite str_app_length; simpl; lia |].
  intros l U. unfold quote in U. rewrite str_app_cons in U.
  pose proof (nextToken_at l "034"%char _ U eq_refl) as N.
  change (nextToken l = scanString (started l)) in N. unfold scanString in N.
  pose proof (unread_advance (started l) "034"%char _ U eq_refl) as U1.
  rewrite <- str_app_assoc in U1.
  destruct (scanString_quoted q (String.length q) (fuel (advance (started l)))
    (advance (started l)) "" s P) as (l' & E & R & U'); [lia | exact U1 | |].
  { rewrite fuel_unread, <- unread_bytes_unread. lia. }
  rewrite E in N. do 2 eexists. split_and!; [exact N | done | done |].
  apply started_reads. eapply reads_trans; [apply advance_reads | exact R].
Qed.

(** * Literal text *)

(** The ASCII characters of a word. *)
Definition word_byte (b : Z) : bool :=
  ((65 <=? b) && (b <=? 90)) || ((97 <=? b) && (b <=? 122)) || (b =? 95) || (b =? 45) ||
  ((48 <=? b) && (b <=? 57)).

Lemma isIdentPart_byte b : b < 128 → isIdentPart b = word_byte b.
Proof.
  intros A. unfold isIdentPart, isIdentStart, word_byte, isDigit.
  rewrite (proj2 (Z.ltb_lt b 0x80) A).
  repeat match goal with |- context [?x <=? ?y] => destruct (x <=? y) end;
    destruct (b =? 95), (b =? 45); done.
Qed.

(** A word that starts with a letter or an underscore. *)
Definition plain_word (w : string) : bool :=
  match w with
  | EmptyString => false
  | String c _ =>
      negb (isDigit (byte_of c)) && negb (byte_of c =? 45) && all_bytes word_byte w
  end.

Lemma all_bytes_impl (p q : Z → bool) w :
  (∀ b, b < 128 → p b = true → q b = true) → all_bytes p w = true → all_bytes q w = true.
Proof.
  intros I. induction w as [|c w IH]; [done|]. simpl. rewrite !andb_true_iff.
  intros [[A P] W]. split_and!; [done | apply I; [lia | done] | auto].
Qed.

Lemma plain_word_is_word w : plain_word w = true → is_word w = true.
Proof.
  destruct w as [|c w]; [done|]. intros W. unfold plain_word in W.
  rewrite !andb_true_iff, !negb_true_iff in W. destruct W as [[D N] W].
  assert (byte_of c <? 128 = true) as A by (simpl in W; lia).
  unfold is_word. rewrite A. rewrite (all_bytes_impl word_byte isIdentPart _) by
    (done || (intros b B; by rewrite isIdentPart_byte)).
  rewrite andb_true_r. simpl in W. rewrite !andb_true_iff in W. destruct W as [[_ W] _].
  rewrite <- isIdentPart_byte in W by lia. unfold isIdentPart in W. rewrite A, D, N in W.
  by rewrite !orb_false_r in W.
Qed.

Definition word (w : string) : list tk := [(LookupKeyword w, w)].

(** The tokens of a literal text, [w] being the word that is being read. *)
Fixpoint text_tks_from (w s : string) : option (list tk) :=
  match s with
  | EmptyString => if String.eqb w "" then Some [] else if plain_word w then Some (word w) else None
  | String c s =>
      if word_byte (byte_of c) then text_tks_from (w +:+ String c "") s
      else
        before ← (if String.eqb w "" then Some []
                  else if plain_word w then Some (word w) else None);
        after ← text_tks_from "" s;
        match single_char (byte_of c) with
        | Some t => Some (before ++ t :: after)
        | None => if is_blank (byte_of c) then Some (before ++ after) else None
        end
  end.

Definition text_tks (s : string) : list tk := default [] (text_tks_from "" s).

(** The text does not end inside a word. *)
Fixpoint closed_text (s : string) : bool :=
  match s with
  | EmptyString => true
  | String c EmptyString => negb (word_byte (byte_of c))
  | String _ s => closed_text s
  end.

Lemma Lex_pending w before s ts :
  (if String.eqb w "" then Some [] else if plain_word w then Some (word w) else None) = Some before →
  (w = "" ∨ stops isIdentPart s = true) → Lex s ts → Lex (w +:+ s) (before ++ ts).
Proof.
  intros E D Ls. destruct (String.eqb_spec w "") as [->|N].
  - by injection E as <-.
  - destruct (plain_word w) eqn:W; [|done]. injection E as <-.
    destruct D as [|D]; [done|]. by apply Lex_word; [apply plain_word_is_word| |].
Qed.

Lemma Lex_text_from w s us rest ts :
  text_tks_from w s = Some us →
  (closed_text s = true ∧ (s = "" → w = "")) ∨ stops isIdentPart rest = true →
  Lex rest ts → Lex (w +:+ s +:+ rest) (us ++ ts).
Proof.
  intros E C Ls. revert w us E C. induction s as [|c s IH]; intros w us E C; simpl in E.
  - change ("" +:+ rest) with rest. apply Lex_pending; [done | | done]. naive_solver.
  - destruct (word_byte (byte_of c)) eqn:B.
    { specialize (IH _ _ E). rewrite <- str_app_assoc in IH. apply IH.
      destruct C as [[C _]|C]; [|by right]. left. destruct s as [|d s]; [|by split].
      simpl in C. by rewrite B in C. }
    destruct (if String.eqb w "" then _ else _) as [before|] eqn:P; [|done].
    destruct (text_tks_from "" s) as [after|] eqn:L; [|done]. simpl in E.
    assert (Lex (s +:+ rest) (after ++ ts)) as Ls1.
    { apply (IH "" after L). destruct C as [[C _]|C]; [left | by right].
      split; [|done]. by destruct s. }
    rewrite str_app_cons.
    destruct (single_char (byte_of c)) as [[typ literal]|] eqn:SC.
    + injection E as <-. rewrite <- app_assoc. 
      assert (token_start c = true) as T.
      { clear -SC. destruct c as [[] [] [] [] [] [] [] []]; (discriminate SC || done). }
      apply Lex_pending; [done | | by apply Lex_char]. right. simpl.
      rewrite isIdentPart_byte by (unfold token_start in T; lia). rewrite B.
      unfold token_start in T. lia.
    + destruct (is_blank (byte_of c)) eqn:BL; [|done]. injection E as <-. rewrite <- app_assoc.
      apply Lex_pending; [done | | by apply Lex_blank]. right. simpl.
      rewrite isIdentPart_byte by (unfold is_blank in BL; lia). rewrite B.
      unfold is_blank in BL. lia.
Qed.

(** A literal text that can be read on its own. *)
Definition readable (s : string) : bool := bool_decide (is_Some (text_tks_from "" s)).

Lemma Lex_lit s rest ts :
  readable s = true → closed_text s = true → Lex rest ts → Lex (s +:+ rest) (text_tks s ++ ts).
Proof.
  intros R C. apply bool_decide_eq_true in R as [us E]. unfold text_tks. rewrite E.
  apply (Lex_text_from "" s); [done|]. left. by split.
Qed.

Lemma Lex_lit_open s rest ts :
  readable s = true → stops isIdentPart rest = true → Lex rest ts →
  Lex (s +:+ rest) (text_tks s ++ ts).
Proof.
  intros R C. apply bool_decide_eq_true in R as [us E]. unfold text_tks. rewrite E.
  apply (Lex_text_from "" s); [done|]. by right.
Qed.
End lex.

(** * Decimal numbers *)

Lemma pretty_N_char_digit (d : N) :
  (d < 10)%N →
  digit_of (pretty_N_char d) = Some (Z.of_N d) ∧ byte_of (pretty_N_char d) = 48 + Z.of_N d.
Proof.
  intros D. assert (d = 0 ∨ d = 1 ∨ d = 2 ∨ d = 3 ∨ d = 4 ∨ d = 5 ∨ d = 6 ∨ d = 7 ∨ d = 8 ∨ d = 9)%N
    as C by lia.
  by destruct_or! C; subst d.
Qed.

Lemma digits_pretty_go (x : N) s :
  digits_value 0 (pretty_N_go x s) = digits_value (Z.of_N x) s ∧
  all_bytes isDigit (pretty_N_go x s) = all_bytes isDigit s ∧
  (x ≠ 0%N ∨ s ≠ "" → pretty_N_go x s ≠ "").
Proof.
  revert s. induction (N.lt_wf_0 x) as [x _ IH]. intros s.
  destruct (decide (x = 0)%N) as [->|NZ]; [split_and!; [done | done | by intros [?|?]]|].
  rewrite pretty_N_go_step by lia.
  assert (x `div` 10 < x)%N as LT by (apply N.div_lt; lia).
  destruct (IH _ LT (String (pretty_N_char (x `mod` 10)) s)) as (-> & -> & NE).
  pose proof (N.div_mod x 10 ltac:(lia)) as DM. pose proof (N.mod_lt x 10 ltac:(lia)) as ML.
  revert DM ML NE. generalize (x `div` 10)%N (x `mod` 10)%N. intros q d DM ML NE.
  destruct (pretty_N_char_digit d) as [D B]; [lia|].
  split_and!; [| | by intros _; apply NE; right].
  - cbn [digits_value]. rewrite D. cbn [mbind option_bind]. f_equal. lia.
  - cbn [all_bytes]. rewrite B. unfold isDigit.
    destruct (48 + Z.of_N d <? 128) eqn:?, (48 <=? 48 + Z.of_N d) eqn:?,
      (48 + Z.of_N d <=? 57) eqn:?; simpl; (done || lia).
Qed.

(** The decimal form of a non-negative number: digits, with the number as
    their value. *)
Lemma pretty_digits (n : Z) :
  0 <= n →
  ∃ c w, pretty n = String c w ∧ all_bytes isDigit (pretty n) = true ∧
         digits_value 0 (pretty n) = Some n.
Proof.
  intros N. destruct n as [|p|p]; [by exists "0"%char, EmptyString | | lia].
  change (pretty (Z.pos p)) with (pretty (N.pos p)). unfold pretty, pretty_N.
  rewrite decide_False by done.
  destruct (digits_pretty_go (N.pos p) "") as (D & A & NE).
  destruct (pretty_N_go (N.pos p) "") as [|c w] eqn:E; [naive_solver|].
  exists c, w. split_and!; [done | done |]. by rewrite D.
Qed.

Lemma Atoi_pretty n : 0 <= n <= max_int → Atoi (pretty n) = Some n.
Proof.
  intros [N M]. destruct (pretty_digits n N) as (c & w & E & A & V).
  assert (split_sign (pretty n) = (false, pretty n)) as S.
  { rewrite E in *. simpl in A. rewrite !andb_true_iff in A. destruct A as [[_ A] _].
    clear -A. destruct c as [[] [] [] [] [] [] [] []]; (discriminate A || done). }
  unfold Atoi. rewrite S, V. rewrite E. cbn [mbind option_bind].
  assert (min_int <=? n = true) as -> by (unfold min_int; lia).
  by rewrite (proj2 (Z.leb_le _ _) M).
Qed.

Lemma is_number_pretty n : 0 <= n → is_number (pretty n) = true.
Proof.
  intros N. destruct (pretty_digits n N) as (c & w & E & A & _).
  assert (all_bytes is_number_char (pretty n) = true) as A1.
  { apply (all_bytes_impl isDigit); [|done]. intros b _ D. unfold is_number_char. by rewrite D. }
  rewrite E in *. unfold is_number. rewrite A1. simpl in A. by destruct (isDigit (byte_of c)), (_ <? _).
Qed.
