(* ===== verification/ParserWp.v ===== *)
(** Executing the parser on known tokens: [wp m Q ts ns] says that from every
    state whose remaining tokens are [ts] (types and literals; the positions do
    not matter) and whose registered names are [ns], the method [m] returns
    without reporting an error, and [Q] holds of its result and of the tokens
    and names it leaves.

    The rules [wp_*] run a method token by token; the tactic [wp] applies them
    as long as the next step is decided by the tokens at hand. *)
From S2P Require Import Prelude GoStd Ast Token LexText ParserCore Parser.
Open Scope Z_scope.

Definition names : Type := gmap string (gset string).

Definition upcoming (p : Parser) : list tk := map tok_tk (drop (p_pos p) (p_tokens p)).

Definition post (A : Type) : Type := A → list tk → names → Prop.

Definition wp {A} (m : P A) (Q : post A) (ts : list tk) (ns : names) : Prop :=
  ∀ p, upcoming p = ts → p_names p = ns →
  ∃ a p', m p = Some (a, p') ∧ p_errors p' = p_errors p ∧ Q a (upcoming p') (p_names p').

(** * Structural rules *)

Lemma wp_ret {A} (a : A) (Q : post A) ts ns : Q a ts ns → wp (mret a) Q ts ns.
Proof. intros q p <- <-. by exists a, p. Qed.

Lemma wp_bind {A B} (m : P A) (k : A → P B) (Q : post B) ts ns :
  wp m (λ a, wp (k a) Q) ts ns → wp (m ≫= k) Q ts ns.
Proof.
  intros Hm p U N. destruct (Hm p U N) as (a & p1 & E1 & R1 & Hk).
  destruct (Hk p1 eq_refl eq_refl) as (b & p2 & E2 & R2 & q).
  exists b, p2. unfold mbind, P_bind. rewrite E1. split_and!; [done | congruence | done].
Qed.

Lemma wp_mono {A} (m : P A) (Q Q' : post A) ts ns :
  wp m Q ts ns → (∀ a ts ns, Q a ts ns → Q' a ts ns) → wp m Q' ts ns.
Proof.
  intros Hm I p U N. destruct (Hm p U N) as (a & p' & E & R & q). exists a, p'.
  split_and!; [done | done | auto].
Qed.

(** A condition on the state that the tokens decide. *)
Definition decides (c : Parser → bool) (b : bool) (ts : list tk) : Prop :=
  ∀ p, upcoming p = ts → c p = b.

Lemma wp_ifelse {A} c b (m1 m2 : P A) Q ts ns :
  decides c b ts → wp (if b then m1 else m2) Q ts ns → wp (ifelse c m1 m2) Q ts ns.
Proof. intros D Hm p U N. unfold ifelse. rewrite (D p U). destruct b; by apply Hm. Qed.

Lemma wp_when c b (m : P unit) Q ts ns :
  decides c b ts → wp (if b then m else mret tt) Q ts ns → wp (when c m) Q ts ns.
Proof. intros D Hm p U N. unfold when. rewrite (D p U). destruct b; by apply Hm. Qed.

Lemma wp_switch_nil {A} (d : P A) Q ts ns : wp d Q ts ns → wp (switch [] d) Q ts ns.
Proof. done. Qed.

Lemma wp_switch_cons {A} c b (m : P A) arms d Q ts ns :
  decides c b ts → wp (if b then m else switch arms d) Q ts ns →
  wp (switch ((c, m) :: arms) d) Q ts ns.
Proof. intros D Hm p U N. simpl. rewrite (D p U). destruct b; by apply Hm. Qed.

(** * The token at hand *)

Lemma upcoming_cons p t ts :
  upcoming p = t :: ts →
  tok_tk (current_tok p) = t ∧ (p_pos p < length (p_tokens p))%nat ∧
  upcoming (p <| p_pos := S (p_pos p) |>) = ts.
Proof.
  unfold upcoming, current_tok. intros U.
  destruct (drop (p_pos p) (p_tokens p)) as [|tok l] eqn:D; [done|].
  injection U as <- <-.
  assert (p_tokens p !! p_pos p = Some tok) as L.
  { by rewrite <- (Nat.add_0_r (p_pos p)), <- lookup_drop, D. }
  rewrite L. split_and!; [done | by eapply lookup_lt_Some |].
  simpl. erewrite drop_S in D by done. by injection D as <-.
Qed.

Lemma current_upcoming p T s ts :
  upcoming p = (T, s) :: ts →
  Token_Type (current_tok p) = T ∧ Token_Literal (current_tok p) = s.
Proof. intros U. apply upcoming_cons in U as [E _]. by injection E as -> ->. Qed.

(** The type of the token at hand: EOF when there is none left. *)
Definition hd_type (ts : list tk) : TokenType :=
  match ts with
  | (T, _) :: _ => T
  | [] => TokenEOF
  end.

Lemma current_hd p : Token_Type (current_tok p) = hd_type (upcoming p).
Proof.
  destruct (upcoming p) as [|[T s] ts] eqn:U; [|by destruct (current_upcoming _ _ _ _ U)].
  unfold upcoming in U. apply map_eq_nil in U. unfold current_tok.
  replace (p_tokens p !! p_pos p) with (@None Token); [done|].
  rewrite <- (Nat.add_0_r (p_pos p)), <- lookup_drop. by rewrite U.
Qed.

Lemma is_tok_hd t p : is_tok t p = token_eqb (hd_type (upcoming p)) t.
Proof. unfold is_tok. by rewrite current_hd. Qed.

Lemma is_lit_upcoming p T s ts x :
  upcoming p = (T, s) :: ts → is_lit x p = String.eqb s x.
Proof. intros U. unfold is_lit. by destruct (current_upcoming _ _ _ _ U) as [_ ->]. Qed.

(** A token expectStringOrIdent accepts. *)
Definition name_like (T : TokenType) : bool :=
  token_eqb T TokenString || token_eqb T TokenIdent || (token_ord TokenPackage <=? token_ord T).

Lemma is_name_tok_hd p : is_name_tok p = name_like (hd_type (upcoming p)).
Proof. unfold is_name_tok. by rewrite !is_tok_hd, current_hd. Qed.

Lemma remaining_upcoming p : remaining p = length (upcoming p).
Proof. unfold remaining, upcoming. by rewrite length_map, length_drop. Qed.

(** A word is never a token of another kind. *)
Definition name_type (T : TokenType) : bool :=
  token_eqb T TokenIdent || (token_ord TokenPackage <=? token_ord T) && (token_ord T <? 129).

Lemma LookupKeyword_name w : name_type (LookupKeyword w) = true.
Proof.
  unfold LookupKeyword, assoc_string.
  destruct (List.find _ _) as [[k t]|] eqn:F; [|done]. apply List.find_some in F as [I _].
  assert (forallb (λ e, name_type e.2) keywords = true) as A by done.
  rewrite forallb_forall in A. exact (A _ I).
Qed.

Lemma LookupKeyword_not w t : name_type t = false → token_eqb (LookupKeyword w) t = false.
Proof.
  intros N. destruct (token_eqb _ t) eqn:E; [|done]. apply token_eqb_eq in E.
  by rewrite <- E, LookupKeyword_name in N.
Qed.

(** The keyword [kw] is the only word of type [t]. *)
Lemma LookupKeyword_only kw t w :
  forallb (λ e, implb (token_eqb e.2 t) (String.eqb e.1 kw)) keywords = true →
  token_eqb TokenIdent t = false → String.eqb w kw = false →
  token_eqb (LookupKeyword w) t = false.
Proof.
  intros F I N. unfold LookupKeyword, assoc_string.
  destruct (List.find _ _) as [[k t']|] eqn:E; [|done]. simpl.
  apply List.find_some in E as [Ik Ek]. rewrite forallb_forall in F. specialize (F _ Ik).
  simpl in *. destruct (token_eqb t' t); [|done]. simpl in F.
  apply String.eqb_eq in F, Ek. subst. by rewrite String.eqb_refl in N.
Qed.

Lemma LookupKeyword_name_like w : name_like (LookupKeyword w) = true.
Proof.
  unfold name_like.
  pose proof (LookupKeyword_name w) as N. unfold name_type in N.
  destruct (token_eqb (LookupKeyword w) TokenIdent), (_ <=? _); simpl in *;
    by rewrite ?orb_true_r.
Qed.

(** * Primitive methods *)

Lemma wp_reads {A} (f : Parser → A) Q ts ns :
  (∀ p, upcoming p = ts → Q (f p) ts ns) → wp (reads_state f) Q ts ns.
Proof. intros q p U <-. exists (f p), p. split_and!; [done | done |]. rewrite U. by apply q. Qed.

Lemma wp_currentPos (Q : post Pos) ts ns : (∀ pos, Q pos ts ns) → wp currentPos Q ts ns.
Proof. intros q. apply wp_reads. auto. Qed.

Lemma wp_lit (Q : post string) T s ts ns :
  Q s ((T, s) :: ts) ns → wp lit Q ((T, s) :: ts) ns.
Proof.
  intros q. apply wp_reads. intros p U. by destruct (current_upcoming _ _ _ _ U) as [_ ->].
Qed.

Lemma wp_advance (Q : post Token) T s ts ns :
  (∀ t, Token_Type t = T → Token_Literal t = s → Q t ts ns) → wp advance Q ((T, s) :: ts) ns.
Proof.
  intros q p U <-. destruct (upcoming_cons _ _ _ U) as (E & L & U').
  unfold advance. apply Nat.ltb_lt in L. rewrite L. do 2 eexists. split_and!; [done | done |].
  rewrite U'. injection E as E1 E2. by apply q.
Qed.

Lemma wp_next (Q : post unit) t ts ns : Q tt ts ns → wp next Q (t :: ts) ns.
Proof. destruct t. intros q. apply wp_bind, wp_advance. intros. by apply wp_ret. Qed.

Lemma wp_advance_lit (Q : post string) T s ts ns :
  Q s ts ns → wp advance_lit Q ((T, s) :: ts) ns.
Proof. intros q. apply wp_bind, wp_advance. intros t _ ->. by apply wp_ret. Qed.

Lemma wp_skip (Q : post unit) ts ns : Q tt ts ns → wp skip Q ts ns.
Proof. apply wp_ret. Qed.

Lemma wp_expect (Q : post Token) T s ts ns :
  (∀ t, Q t ts ns) → wp (expect T) Q ((T, s) :: ts) ns.
Proof.
  intros q. apply wp_bind, (wp_when _ false).
  - intros p U. by rewrite is_tok_hd, U, token_eqb_refl.
  - apply wp_ret, wp_advance. auto.
Qed.

Lemma wp_expectString c (Q : post string) s ts ns :
  Q s ts ns → wp (expectString c) Q ((TokenString, s) :: ts) ns.
Proof.
  intros q. apply (wp_ifelse _ true); [|by apply wp_advance_lit].
  intros p U. by rewrite is_tok_hd, U.
Qed.

Lemma wp_expectStringOrIdent c (Q : post string) T s ts ns :
  name_like T = true →
  Q s ts ns → wp (expectStringOrIdent c) Q ((T, s) :: ts) ns.
Proof.
  intros N q. apply (wp_ifelse _ true); [|by apply wp_advance_lit].
  intros p U. by rewrite is_name_tok_hd, U.
Qed.

(** * Loops *)

Lemma while_fuel_mono {A} n m cond (body : A → P (ctl A)) acc p r :
  while_fuel n cond body acc p = Some r → (n ≤ m)%nat → while_fuel m cond body acc p = Some r.
Proof.
  revert m acc p. induction n as [|n IH]; intros m acc p E L; [done|].
  destruct m as [|m]; [lia|]. cbn [while_fuel] in *. destruct (cond p); [|done].
  destruct (body acc p) as [[[acc'|acc'] p']|]; [|done|done]. apply IH; [done|lia].
Qed.

Lemma wp_while_stop {A} cond (body : A → P (ctl A)) acc (Q : post A) ts ns :
  decides cond false ts → Q acc ts ns → wp (while cond body acc) Q ts ns.
Proof.
  intros D q p U <-. unfold while. cbn [while_fuel]. rewrite (D p U). exists acc, p.
  by rewrite U.
Qed.

(** One round: it ends with [break], or uses up a token and goes on. *)
Lemma wp_while_step {A} cond (body : A → P (ctl A)) acc (Q : post A) ts ns :
  decides cond true ts →
  wp (body acc) (λ r ts' ns',
    match r with
    | Continue acc' => (length ts' < length ts)%nat ∧ wp (while cond body acc') Q ts' ns'
    | Break acc' => Q acc' ts' ns'
    end) ts ns →
  wp (while cond body acc) Q ts ns.
Proof.
  intros D Hb p U N. destruct (Hb p U N) as (r & p1 & E & R & q). unfold while.
  cbn [while_fuel]. rewrite (D p U), E. destruct r as [acc'|acc'].
  - destruct q as [L q]. destruct (q p1 eq_refl eq_refl) as (a & p2 & E2 & R2 & q2).
    exists a, p2. split_and!; [|congruence|done].
    unfold while in E2. eapply while_fuel_mono; [exact E2|]. rewrite !remaining_upcoming, U. lia.
  - exists acc', p1. by split_and!.
Qed.

(** * Newlines and blocks *)

Fixpoint drop_nl (ts : list tk) : list tk :=
  match ts with
  | (T, _) :: ts' => if token_eqb T TokenNewline then drop_nl ts' else ts
  | [] => []
  end.

(** The tokens do not start with a newline. *)
Definition no_nl (ts : list tk) : bool := negb (token_eqb (hd_type ts) TokenNewline).

Lemma drop_nl_id ts : no_nl ts = true → drop_nl ts = ts.
Proof. destruct ts as [|[T s] ts]; [done|]. unfold no_nl. simpl. by destruct (token_eqb T _). Qed.

Lemma length_drop_nl ts : (length (drop_nl ts) ≤ length ts)%nat.
Proof. induction ts as [|[T s] ts IH]; simpl; [lia|]. destruct (token_eqb T _); simpl; lia. Qed.

Lemma wp_skipNewlines (Q : post unit) ts ns : Q tt (drop_nl ts) ns → wp skipNewlines Q ts ns.
Proof.
  induction ts as [|[T s] ts IH]; intros q.
  - apply wp_while_stop; [|done]. intros p U. by rewrite is_tok_hd, U.
  - simpl in q. destruct (token_eqb T TokenNewline) eqn:E.
    + apply wp_while_step; [intros p U; by rewrite is_tok_hd, U|].
      apply wp_bind, wp_next, wp_ret. split; [simpl; lia|]. by apply IH.
    + apply wp_while_stop; [|done]. intros p U. by rewrite is_tok_hd, U.
Qed.

Lemma wp_expectToken (Q : post unit) T s ts ts' ns :
  drop_nl ts = (T, s) :: ts' → Q tt ts' ns → wp (expectToken T) Q ts ns.
Proof.
  intros D q. apply wp_bind, wp_skipNewlines. rewrite D. apply (wp_ifelse _ true).
  - intros p U. by rewrite is_tok_hd, U; simpl; rewrite token_eqb_refl.
  - by apply wp_next.
Qed.

Lemma in_block_hd p :
  in_block p = negb (token_eqb (hd_type (upcoming p)) TokenRBrace) &&
               negb (token_eqb (hd_type (upcoming p)) TokenEOF).
Proof. unfold in_block, at_end. by rewrite !is_tok_hd. Qed.

(** The token at hand starts an item of a block. *)
Definition item_start (ts : list tk) : bool :=
  negb (token_eqb (hd_type ts) TokenRBrace) && negb (token_eqb (hd_type ts) TokenEOF) &&
  no_nl ts.

Lemma wp_block_loop_done {A} (body : A → P (ctl A)) acc (Q : post A) ts ns :
  hd_type ts = TokenRBrace → Q acc ts ns → wp (block_loop body acc) Q ts ns.
Proof.
  intros E q. apply wp_while_stop; [|done]. intros p U. by rewrite in_block_hd, U, E.
Qed.

Lemma wp_block_loop_next {A} (body : A → P (ctl A)) acc (Q : post A) ts ns :
  item_start ts = true →
  wp (body acc) (λ r ts' ns',
    match r with
    | Continue acc' => (length ts' < length ts)%nat ∧ wp (block_loop body acc') Q ts' ns'
    | Break acc' => Q acc' ts' ns'
    end) ts ns →
  wp (block_loop body acc) Q ts ns.
Proof.
  unfold item_start. rewrite !andb_true_iff, !negb_true_iff. intros [[R E] N] Hb.
  apply wp_while_step.
  - intros p U. by rewrite in_block_hd, U, R, E.
  - apply wp_bind, wp_skipNewlines. rewrite (drop_nl_id _ N). apply (wp_ifelse _ false).
    + intros p U. by rewrite is_tok_hd, U.
    + exact Hb.
Qed.

Lemma wp_items_done {A} (body : A → P A) acc (Q : post A) ts ns :
  hd_type ts = TokenRBrace → Q acc ts ns → wp (items body acc) Q ts ns.
Proof. apply wp_block_loop_done. Qed.

(** One item, which ends at the end of its line. *)
Lemma wp_items_next {A} (body : A → P A) acc (Q : post A) ts ns :
  item_start ts = true →
  wp (body acc) (λ acc' ts' ns',
    ∃ rest, ts' = (TokenNewline, nl) :: rest ∧ no_nl rest = true ∧
            (length rest < length ts)%nat ∧ wp (items body acc') Q rest ns') ts ns →
  wp (items body acc) Q ts ns.
Proof.
  intros S Hb. apply wp_block_loop_next; [done|]. apply wp_bind.
  eapply wp_mono; [exact Hb|]. intros acc' ts' ns' (rest & -> & N & L & W).
  apply wp_bind, wp_skipNewlines, wp_ret. change (drop_nl ((TokenNewline, nl) :: rest)) with (drop_nl rest).
  by rewrite (drop_nl_id _ N).
Qed.

Lemma wp_braces {A} (inner : P A) (Q : post A) s ts ns :
  wp inner (λ a ts' ns', ∃ s' rest, ts' = (TokenRBrace, s') :: rest ∧ Q a rest ns')
    (drop_nl ts) ns →
  wp (braces inner) Q ((TokenLBrace, s) :: ts) ns.
Proof.
  intros Hi. apply wp_bind, (wp_expectToken _ _ s _ ts); [done|]. apply wp_bind, wp_skipNewlines, wp_bind.
  eapply wp_mono; [exact Hi|]. intros a ts' ns' (s' & rest & -> & q).
  apply wp_bind, (wp_expectToken _ _ s' _ rest); [done|]. by apply wp_ret.
Qed.

(** * Values *)

Section values.
Context `{GoRuntime}.

Lemma wp_expectInt c n (Q : post Z) ts ns :
  0 <= n <= max_int → Q n ts ns → wp (expectInt c) Q ((TokenNumber, pretty n) :: ts) ns.
Proof.
  intros N q. apply (wp_ifelse _ true); [intros p U; by rewrite is_tok_hd, U|].
  apply wp_bind, wp_advance_lit. rewrite Atoi_pretty by done. by apply wp_ret.
Qed.

Lemma wp_expectFloat c w f (Q : post float64) ts ns :
  ParseFloat w = Some f → Q f ts ns → wp (expectFloat c) Q ((TokenNumber, w) :: ts) ns.
Proof.
  intros E q. apply (wp_ifelse _ true); [intros p U; by rewrite is_tok_hd, U|].
  apply wp_bind, wp_advance_lit. rewrite E. by apply wp_ret.
Qed.

Definition bool_tk (b : bool) : tk := if b then (TokenTrue, "true") else (TokenFalse, "false").

Lemma wp_expectBool c b (Q : post bool) ts ns :
  Q b ts ns → wp (expectBool c) Q (bool_tk b :: ts) ns.
Proof.
  intros q. unfold expectBool. destruct b.
  - apply (wp_switch_cons _ true); [intros p U; by rewrite is_tok_hd, U|].
    by apply wp_bind, wp_next, wp_ret.
  - apply (wp_switch_cons _ false); [intros p U; by rewrite is_tok_hd, U|].
    apply (wp_switch_cons _ true); [intros p U; by rewrite is_tok_hd, U|].
    by apply wp_bind, wp_next, wp_ret.
Qed.

(** registerName of a name that is new among those of its kind. *)
Definition add_name (kind name : string) (ns : names) : names :=
  <[kind := {[name]} ∪ default ∅ (ns !! kind)]> ns.

Lemma wp_registerName kind name pos (Q : post unit) ts ns :
  name ∉ default ∅ (ns !! kind) → Q tt ts (add_name kind name ns) →
  wp (registerName kind name pos) Q ts ns.
Proof.
  intros N q. apply wp_bind. intros p U E. unfold when.
  rewrite bool_decide_eq_false_2 by (unfold names_of; by rewrite E).
  exists tt, p. split_and!; [done | done |]. rewrite U, E. clear p U E.
  intros p U E. do 2 eexists. split_and!; [done | done |]. simpl.
  unfold names_of. rewrite E. unfold upcoming in *. simpl. by rewrite U.
Qed.
End values.
