(* ===== verification/FormatText.v ===== *)
(** The tokens of a formatted text. The instance [token_sink] of the
    formatter's output writes tokens instead of characters; the rules below
    show, write by write, that the lexer reads the first from the second. *)
From S2P Require Import Prelude GoStd Ast Token Lexer LexText Parser Formatter.
Open Scope Z_scope.

Global Instance token_sink `{GoRuntime} : Sink (list tk) := {|
  put := text_tks;
  put_s := text_tks;
  put_q s := [(TokenString, s)];
  put_d n := [(TokenNumber, pretty n)];
  put_g f := [(TokenNumber, fmt_g f)];
  silent := [];
  and_then ts us := ts ++ us;
|}.

Global Instance float_eq_dec : EqDecision float64.
Proof. solve_decision. Defined.

Definition opt_ok {A} (f : A → bool) (o : option A) : bool :=
  match o with Some x => f x | None => true end.

(** A text after which a word and a number have ended. *)
Definition delim (s : string) : bool :=
  match s with
  | EmptyString => true
  | String c _ => (byte_of c <? 128) && negb (word_byte (byte_of c)) && negb (byte_of c =? 46)
  end.

(** Strings the formatter writes so that they come back. *)
Abbreviation plain := plain_string.
Abbreviation plains l := (forallb plain_string l).

Section text.
Context `{GoRuntime}.

Lemma delim_word s : delim s = true → stops isIdentPart s = true.
Proof.
  destruct s as [|c s]; [done|]. simpl. rewrite !andb_true_iff. intros [[A W] _].
  rewrite A, isIdentPart_byte by lia. done.
Qed.

Lemma delim_number s : delim s = true → stops is_number_char s = true.
Proof.
  destruct s as [|c s]; [done|]. unfold delim, stops, word_byte, is_number_char, isDigit. lia.
Qed.

Lemma Lex_then x y tx ty r ts :
  Lex (x +:+ y +:+ r) (tx ++ ty ++ ts) → Lex ((x +++ y) +:+ r) ((tx +++ ty) ++ ts).
Proof. simpl. by rewrite str_app_assoc, app_assoc. Qed.

Lemma Lex_put s r ts :
  readable s = true → closed_text s = true → Lex r ts → Lex (put s +:+ r) (put s ++ ts).
Proof. apply Lex_lit. Qed.

Lemma Lex_put_open s r ts :
  readable s = true → delim r = true → Lex r ts → Lex (put s +:+ r) (put s ++ ts).
Proof. intros R D. apply Lex_lit_open; [done | by apply delim_word]. Qed.

Lemma Lex_put_s s r ts :
  readable s = true → delim r = true → Lex r ts → Lex (put_s s +:+ r) (put_s s ++ ts).
Proof. apply Lex_put_open. Qed.

Lemma Lex_put_q s r ts :
  plain_string s = true → Lex r ts → Lex (put_q s +:+ r) (put_q s ++ ts).
Proof. apply Lex_quote. Qed.

Lemma Lex_put_d n r ts :
  0 <= n → delim r = true → Lex r ts → Lex (put_d n +:+ r) (put_d n ++ ts).
Proof. intros N D. apply Lex_number; [by apply is_number_pretty | by apply delim_number]. Qed.

(** A float whose %g form is a number token of the language, with the float as
    its value: fmt writes some floats with an exponent, which is none. *)
Definition float_prints (f : float64) : bool :=
  is_number (fmt_g f) && bool_decide (ParseFloat (fmt_g f) = Some f).

Lemma Lex_put_g f r ts :
  float_prints f = true → delim r = true → Lex r ts → Lex (put_g f +:+ r) (put_g f ++ ts).
Proof.
  unfold float_prints. rewrite andb_true_iff. intros [N _] D.
  apply Lex_number; [done | by apply delim_number].
Qed.

Lemma Lex_silent r ts : Lex r ts → Lex (silent +:+ r) (silent ++ ts).
Proof. done. Qed.

Lemma Lex_guarded b (x : string) tx r ts :
  (b = true → Lex r ts → Lex (x +:+ r) (tx ++ ts)) → Lex r ts →
  Lex (guarded b x +:+ r) (guarded b tx ++ ts).
Proof. intros Hx Hr. destruct b; [by apply Hx | done]. Qed.

Lemma Lex_text_of {A} (f : A → string) (g : A → list tk) l r ts :
  (∀ x r ts, x ∈ l → Lex r ts → Lex (f x +:+ r) (g x ++ ts)) → Lex r ts →
  Lex (text_of f l +:+ r) (text_of g l ++ ts).
Proof.
  intros Hf Hr. induction l as [|x l IH]; [done|]. apply Lex_then.
  apply Hf; [left|]. apply IH. intros. apply Hf; [by right | done].
Qed.

Lemma Lex_separated l r ts :
  plains l = true → Lex r ts →
  Lex (separated (map put_q l) +:+ r) (separated (map put_q l) ++ ts).
Proof.
  intros P Hr. induction l as [|x l IH]; [done|]. simpl in P. apply andb_true_iff in P as [Px P].
  destruct l as [|y l]; [by apply Lex_put_q|].
  apply Lex_then, Lex_put_q; [done|]. apply Lex_then, Lex_put; [done | done|]. by apply IH.
Qed.

Lemma Lex_bracketed l r ts :
  plains l = true → Lex r ts → Lex (bracketed l +:+ r) (bracketed l ++ ts).
Proof.
  intros P Hr. apply Lex_then, Lex_put; [done | done|].
  by apply Lex_then, Lex_separated, Lex_put.
Qed.

Lemma Lex_line_q before s r ts :
  readable before = true → closed_text before = true → plain s = true → Lex r ts →
  Lex (line_q before s +:+ r) (line_q before s ++ ts).
Proof.
  intros R C P. apply Lex_guarded. intros _ Hr.
  by apply Lex_then, Lex_put, Lex_then, Lex_put_q, Lex_put.
Qed.

Lemma Lex_line_d before n r ts :
  readable before = true → closed_text before = true → Lex r ts →
  Lex (line_d before n +:+ r) (line_d before n ++ ts).
Proof.
  intros R C. apply Lex_guarded. intros N Hr.
  apply Lex_then, Lex_put, Lex_then, Lex_put_d; [done | done | lia | done | by apply Lex_put].
Qed.

Lemma Lex_line_list before l r ts :
  readable before = true → closed_text before = true → plains l = true → Lex r ts →
  Lex (line_list before l +:+ r) (line_list before l ++ ts).
Proof.
  intros R C P Hr. destruct l as [|x l]; [done|].
  by apply Lex_then, Lex_put, Lex_then, Lex_bracketed, Lex_put.
Qed.

(** * Maps *)

(** A map whose keys are words and whose values are plain. *)
Definition plain_map (m : gmap string string) : bool :=
  forallb (λ kv, plain_word kv.1 && plain kv.2) (map_to_list m).

Lemma plain_map_lookup m k v :
  plain_map m = true → m !! k = Some v → plain_word k = true ∧ plain v = true.
Proof.
  unfold plain_map. rewrite forallb_forall. intros F E.
  specialize (F (k, v)). rewrite <- list_elem_of_In, elem_of_map_to_list in F.
  specialize (F E). by apply andb_true_iff in F.
Qed.

Lemma elem_of_sortedKeys m k : k ∈ sortedKeys m ↔ is_Some (m !! k).
Proof.
  unfold sortedKeys. rewrite elem_of_sort_strings, map_range_perm.
  rewrite list_elem_of_fmap. split.
  - intros ([k' v] & -> & E). apply elem_of_map_to_list in E. by exists v.
  - intros [v E]. exists (k, v). split; [done|]. by apply elem_of_map_to_list.
Qed.

Lemma readable_word w : plain_word w = true → readable w = true ∧ text_tks w = word w.
Proof.
  intros W. assert (∀ u s, all_bytes word_byte s = true →
    text_tks_from u s = text_tks_from (u +:+ s) "") as A.
  { intros u s. revert u. induction s as [|c s IH]; intros u B; [by rewrite str_app_nil_r|].
    simpl in B. rewrite !andb_true_iff in B. destruct B as [[_ B] Bs]. simpl. rewrite B, IH by done.
    by rewrite <- str_app_assoc. }
  assert (text_tks_from "" w = Some (word w)) as E.
  { rewrite A by (destruct w; [done|]; unfold plain_word in W; rewrite !andb_true_iff in W; tauto).
    change ("" +:+ w) with w. cbn [text_tks_from]. rewrite W. by destruct w. }
  unfold readable, text_tks. by rewrite E.
Qed.

Lemma Lex_word_s w r ts :
  plain_word w = true → delim r = true → Lex r ts → Lex (put_s w +:+ r) (put_s w ++ ts).
Proof. intros W. apply Lex_put_s. by apply readable_word. Qed.

Lemma Lex_entries indent m r ts :
  readable indent = true → closed_text indent = true → plain_map m = true → Lex r ts →
  Lex (entries indent m +:+ r) (entries indent m ++ ts).
Proof.
  intros R C P. apply Lex_text_of. intros k r' ts' K Hr.
  apply elem_of_sortedKeys in K as [v E]. destruct (plain_map_lookup _ _ _ P E) as [Pk Pv].
  rewrite E. apply Lex_then, Lex_put, Lex_then, Lex_word_s; [done..|].
  by apply Lex_then, Lex_put, Lex_then, Lex_put_q, Lex_put.
Qed.

Lemma Lex_entry_block indent name m r ts :
  readable indent = true → closed_text indent = true →
  readable (indent +:+ "  ") = true → closed_text (indent +:+ "  ") = true →
  plain_word name = true → plain_map m = true → Lex r ts →
  Lex (entry_block indent name m +:+ r) (entry_block indent name m ++ ts).
Proof.
  intros R C R' C' N P. apply Lex_guarded. intros _ Hr.
  apply Lex_then, Lex_put, Lex_then, Lex_word_s; [done..|].
  apply Lex_then, Lex_put, Lex_then, Lex_put, Lex_then, Lex_entries; [done..|].
  by apply Lex_then, Lex_put, Lex_then, Lex_put, Lex_put.
Qed.
End text.

(** * Automation *)

(** The text after a word or a number starts with a delimiter. *)
Ltac delims :=
  first [ reflexivity
        | unfold guarded, line_q, line_d, line_list; repeat first [reflexivity | case_match] ].

(** Split the hypotheses [b1 && b2 = true]. *)
Ltac split_wf :=
  repeat match goal with
    | W : _ && _ = true |- _ => apply andb_true_iff in W as [? W]
    end.

Create HintDb writes discriminated.
Lemma readable_plain_word w : plain_word w = true → readable w = true.
Proof. apply readable_word. Qed.
#[export] Hint Resolve readable_plain_word : writes.
#[export] Hint Extern 1 (plain_word _ = true) => reflexivity : writes.

Ltac wf :=
  lazymatch goal with
  | H : ?P |- ?P => exact H
  | |- _ => solve [reflexivity | eauto 2 with writes nocore]
  end.

(** A part of the text that a test of the tree selects: what follows it is
    read once, before the cases. *)
Lemma Lex_rest `{GoRuntime} (x : string) tx r ts :
  Lex r ts → (Lex r ts → Lex (x +:+ r) (tx ++ ts)) → Lex (x +:+ r) (tx ++ ts).
Proof. auto. Qed.

Lemma forallb_elem {A} (f : A → bool) l x : forallb f l = true → x ∈ l → f x = true.
Proof. rewrite forallb_forall. intros F I. apply F. by apply list_elem_of_In. Qed.

(** The well-formedness of an element of a list, of a part that is present. *)
Ltac head_of t := lazymatch t with ?f _ => head_of f | _ => t end.
Ltac open_wf W :=
  cbv beta in W;
  lazymatch type of W with
  | ?b = true => let f := head_of b in try unfold f in W
  end;
  split_wf.
Ltac element_wf :=
  repeat match goal with
    | I : ?x ∈ ?l, F : forallb ?f ?l = true |- _ =>
        let W := fresh "W" in pose proof (forallb_elem _ _ _ F I) as W; clear I; open_wf W
    end.
Ltac case_wf x :=
  let E := fresh "E" in
  destruct x eqn:E;
  repeat match goal with
    | W : context [x] |- _ => lazymatch W with E => fail | _ => rewrite E in W end
    end;
  repeat match goal with
    | W : opt_ok _ (Some _) = true |- _ =>
        simpl opt_ok in W; let W' := fresh "W" in pose proof W as W'; open_wf W'
    end.

Ltac writes_step :=
  lazymatch goal with
  | L : ?P |- ?P => exact L
  | |- Lex ((_ +++ _) +:+ _) _ => apply Lex_then
  | |- Lex (put _ +:+ _) _ =>
      first [ apply Lex_put; [reflexivity | reflexivity |]
            | apply Lex_put_open; [reflexivity | solve [delims] |] ]
  | |- Lex (put_s _ +:+ _) _ => apply Lex_put_s; [wf | solve [delims] |]
  | |- Lex (put_q _ +:+ _) _ => apply Lex_put_q; [wf |]
  | |- Lex (put_d _ +:+ _) _ => apply Lex_put_d; [wf | solve [delims] |]
  | |- Lex (put_g _ +:+ _) _ => apply Lex_put_g; [wf | solve [delims] |]
  | |- Lex (guarded _ _ +:+ _) _ => apply Lex_guarded; [intros ? ?|]
  | |- Lex (line_q _ _ +:+ _) _ => apply Lex_line_q; [reflexivity | reflexivity | wf |]
  | |- Lex (line_d _ _ +:+ _) _ => apply Lex_line_d; [reflexivity | reflexivity |]
  | |- Lex (line_list _ _ +:+ _) _ => apply Lex_line_list; [reflexivity | reflexivity | wf |]
  | |- Lex (bracketed _ +:+ _) _ => apply Lex_bracketed; [wf |]
  | |- Lex (entries _ _ +:+ _) _ => apply Lex_entries; [reflexivity | reflexivity | wf |]
  | |- Lex (entry_block _ _ _ +:+ _) _ =>
      apply Lex_entry_block; [reflexivity .. | wf |]
  | |- Lex (text_of _ _ +:+ _) _ => apply Lex_text_of; [intros ? ? ? ? ?; element_wf|]
  | |- Lex (silent +:+ _) _ => apply Lex_silent
  | |- Lex (match ?x with _ => _ end +:+ _) _ => apply Lex_rest; [|intros ?; case_wf x]
  | |- Lex (_ +:+ _) _ => apply Lex_rest; [| intros ?; solve [eauto 4 with writes nocore]]
  end.
Ltac writes := repeat writes_step.

