(* ===== verification/FormatWf.v ===== *)
(** The files the formatter writes back: [wf_*] lists, for each part of a
    syntax tree, what its formatted text can express. Names are words of the
    language, strings are printable, a field that is written only when it is
    positive is not negative, and a field that the formatter does not write has
    its zero value. The lemmas [writes_*] show that such a part is written as
    its tokens. *)
From S2P Require Import Prelude GoStd Ast Token Lexer LexText Parser ParserWp Formatter FormatText.
Open Scope Z_scope.

Definition is_empty {A} (l : list A) : bool := match l with [] => true | _ => false end.
Definition empty_map (m : gmap string string) : bool := is_empty (map_to_list m).
Definition empty_string (s : string) : bool := String.eqb s "".
Definition an_int (n : Z) : bool := (0 <=? n) && (n <=? max_int).

Global Instance Pos_eq_dec : EqDecision Pos.
Proof. solve_decision. Defined.
Global Instance Override_eq_dec : EqDecision Override.
Proof. solve_decision. Defined.

Section wf.
Context `{GoRuntime}.

Definition wf_Package (p : Package) : bool :=
  plain (Package_Name p) && plain (Package_Version p) && plain (Package_LangVersion p) &&
  negb (String.eqb (Package_LangVersion p) "1.0") && empty_string (Package_Description p) &&
  is_empty (Package_Imports p) && is_empty (Package_Plugins p).

Definition wf_Variable (v : VariableDecl) : bool :=
  plain_word (VariableDecl_Name v) && plain_word (VariableDecl_Type v) &&
  plain (VariableDecl_Default v).

Definition wf_Prompt (p : Prompt) : bool :=
  plain (Prompt_Name p) && plain (Prompt_Content p) && plain (Prompt_Version p) &&
  forallb wf_Variable (Prompt_Variables p) && plain_map (Prompt_Metadata p).

Definition wf_Field (f : Field) : bool :=
  plain_word (Field_Name f) && plain_word (Field_Type f).

Definition wf_Execution (e : Execution) : bool :=
  plain_word (Execution_Type e) && plain (Execution_Value e) && is_empty (Execution_Args e).

(** The fields of the other kinds of tool are empty. *)
Definition wf_ToolConfig (tc : ToolConfig) : bool :=
  let typ := ToolConfig_Type tc in
  let only (k : string) (b : bool) := String.eqb typ k || b in
  (String.eqb typ "mcp" || String.eqb typ "http" || String.eqb typ "command" ||
   String.eqb typ "inline") &&
  plain (ToolConfig_ServerTool tc) && plain (ToolConfig_Method tc) && plain (ToolConfig_URL tc) &&
  plain_map (ToolConfig_Headers tc) && plain (ToolConfig_BodyTemplate tc) &&
  plain (ToolConfig_Binary tc) && plains (ToolConfig_Args tc) && plain (ToolConfig_Timeout tc) &&
  plain_map (ToolConfig_Env tc) && plain_map (ToolConfig_Secrets tc) &&
  plain (ToolConfig_Language tc) && plain (ToolConfig_Code tc) &&
  plain (ToolConfig_MemoryLimit tc) &&
  only "mcp" (empty_string (ToolConfig_ServerTool tc)) &&
  only "http" (empty_string (ToolConfig_Method tc) && empty_string (ToolConfig_URL tc) &&
               empty_map (ToolConfig_Headers tc) && empty_string (ToolConfig_BodyTemplate tc)) &&
  only "command" (empty_string (ToolConfig_Binary tc) && is_empty (ToolConfig_Args tc) &&
                  empty_map (ToolConfig_Env tc) && empty_map (ToolConfig_Secrets tc)) &&
  only "inline" (empty_string (ToolConfig_Language tc) && empty_string (ToolConfig_Code tc) &&
                 empty_string (ToolConfig_MemoryLimit tc)) &&
  (negb (String.eqb typ "mcp") || empty_string (ToolConfig_Timeout tc)).

Definition wf_Skill (s : Skill) : bool :=
  plain (Skill_Name s) && plain (Skill_Description s) && forallb wf_Field (Skill_Input s) &&
  forallb wf_Field (Skill_Output s) && opt_ok wf_Execution (Skill_Execution s) &&
  opt_ok wf_ToolConfig (Skill_ToolConfig s) && plain_map (Skill_Metadata s).

Definition wf_Ref (kind : string) (r : Ref) : bool :=
  String.eqb (Ref_Kind r) kind && plain (Ref_Name r) && empty_string (Ref_Package r).

Definition wf_Binding (b : Binding) : bool :=
  plain (Binding_Name b) && plain (Binding_Adapter b) && plain_map (Binding_Config b) &&
  forallb (λ kv, negb (String.eqb kv.1 "default") && negb (String.eqb kv.1 "adapter"))
    (map_to_list (Binding_Config b)).

Definition wf_Secret (s : Secret) : bool :=
  plain (Secret_Name s) && plain_word (Secret_Key s) &&
  (String.eqb (Secret_Source s) "env" || String.eqb (Secret_Source s) "store").

(** The words of a rule's subject, which the parser joins with spaces. *)
Definition wf_subject (s : string) : bool :=
  readable s && String.eqb (Join (map snd (text_tks s)) " ") s &&
  forallb (λ t, name_type t.1) (text_tks s).

Definition wf_Rule (r : Rule) : bool :=
  (String.eqb (Rule_Action r) "deny" || String.eqb (Rule_Action r) "allow" ||
   String.eqb (Rule_Action r) "require") &&
  plain_word (Rule_Resource r) && wf_subject (Rule_Subject r).

Definition wf_Policy (p : Policy) : bool :=
  plain (Policy_Name p) && forallb wf_Rule (Policy_Rules p).

Definition wf_Plugin (p : Plugin) : bool := plain (Plugin_Name p) && plain (Plugin_Version p).

Definition wf_MCPServer (s : MCPServer) : bool :=
  plain (MCPServer_Name s) && plain (MCPServer_Transport s) && plain (MCPServer_Command s) &&
  plains (MCPServer_Args s) && plain (MCPServer_URL s) &&
  opt_ok (wf_Ref "secret") (MCPServer_Auth s) && forallb (wf_Ref "skill") (MCPServer_Skills s) &&
  plain_map (MCPServer_Env s) && plain_map (MCPServer_Metadata s).

Definition wf_MCPClient (c : MCPClient) : bool :=
  plain (MCPClient_Name c) && forallb (wf_Ref "server") (MCPClient_Servers c) &&
  plain_map (MCPClient_Metadata c).

Definition wf_Autoscale (a : AutoscaleConfig) : bool :=
  an_int (AutoscaleConfig_MinReplicas a) && an_int (AutoscaleConfig_MaxReplicas a) &&
  plain (AutoscaleConfig_Metric a) && an_int (AutoscaleConfig_Target a).

Definition wf_DeployTarget (d : DeployTarget) : bool :=
  plain (DeployTarget_Name d) && plain (DeployTarget_Target d) && an_int (DeployTarget_Port d) &&
  plain (DeployTarget_Namespace d) && an_int (DeployTarget_Replicas d) &&
  plain (DeployTarget_Image d) &&
  opt_ok (λ r, plain (ResourceLimits_CPU r) && plain (ResourceLimits_Memory r))
    (DeployTarget_Resources d) &&
  opt_ok (λ h, plain (HealthConfig_Path h) && plain (HealthConfig_Interval h) &&
               plain (HealthConfig_Timeout h)) (DeployTarget_Health d) &&
  opt_ok wf_Autoscale (DeployTarget_Autoscale d) &&
  plain_map (DeployTarget_Env d) && plain_map (DeployTarget_Secrets d).

Definition wf_TypeField (f : TypeField) : bool :=
  plain_word (TypeField_Name f) && plain_word (TypeField_Type f) && plain (TypeField_Default f).

Definition wf_TypeDef (t : TypeDef) : bool :=
  plain (TypeDef_Name t) && plains (TypeDef_EnumVals t) && forallb wf_TypeField (TypeDef_Fields t) &&
  (empty_string (TypeDef_ListOf t) || plain_word (TypeDef_ListOf t)) &&
  (is_empty (TypeDef_EnumVals t) || empty_string (TypeDef_ListOf t)) &&
  ((is_empty (TypeDef_EnumVals t) && empty_string (TypeDef_ListOf t)) ||
   is_empty (TypeDef_Fields t)).

Definition wf_PipelineStep (s : PipelineStep) : bool :=
  plain (PipelineStep_Name s) && plain (PipelineStep_Agent s) && plain (PipelineStep_Input s) &&
  plain (PipelineStep_Output s) && plains (PipelineStep_DependsOn s) && plain (PipelineStep_When s).

Definition wf_Pipeline (p : Pipeline) : bool :=
  plain (Pipeline_Name p) && forallb wf_PipelineStep (Pipeline_Steps p).

Definition wf_Import (i : Import) : bool :=
  plain (Import_Path i) && plain (Import_Version i) && empty_string (Import_SHA i) &&
  (empty_string (Import_Alias i) || plain_word (Import_Alias i)).

Definition wf_User (u : User) : bool :=
  plain (User_Name u) && plain (User_KeyRef u) && plains (User_Agents u) && plain (User_Role u).

Definition wf_Guardrail (g : Guardrail) : bool :=
  plain (Guardrail_Name g) && plain (Guardrail_Mode g) && plains (Guardrail_Keywords g) &&
  plains (Guardrail_Patterns g) && plain (Guardrail_FallbackMsg g).

Definition wf_StateConfig (s : StateConfig) : bool :=
  plain (StateConfig_Name s) && plain (StateConfig_Type s) && plain_map (StateConfig_Properties s) &&
  forallb (λ kv, negb (String.eqb kv.1 "type")) (map_to_list (StateConfig_Properties s)).

(** An override, and the overrides of an environment: those of a resource
    stand together, as the formatter writes them. *)
Definition wf_Override (o : Override) : bool :=
  plain_word (Override_Attribute o) && plain (Override_Value o).

Definition wf_resource (res : string) : bool :=
  match SplitN2 res "/" with
  | [kind; name] => plain_word kind && plain name && String.eqb (kind +:+ "/" +:+ name) res
  | _ => false
  end.

Definition overrides_of (groups : gmap string (list Override)) (res : string) : list Override :=
  default [] (groups !! res).

Definition wf_Environment (e : Environment) : bool :=
  let '(groups, order) := group_overrides (Environment_Overrides e) in
  plain (Environment_Name e) && forallb wf_Override (Environment_Overrides e) &&
  forallb wf_resource order &&
  bool_decide (mjoin (map (overrides_of groups) order) = Environment_Overrides e).

(** The blocks of an agent. *)
Definition wf_ConfigParam (p : ConfigParam) : bool :=
  plain_word (ConfigParam_Name p) && plain_word (ConfigParam_Type p) &&
  plain (ConfigParam_Description p) && plain (ConfigParam_Default p) &&
  (ConfigParam_HasDefault p || empty_string (ConfigParam_Default p)).

(** The token does not end the expression of a validation rule. *)
Definition in_expression (t : tk) : bool :=
  negb (token_eqb t.1 TokenRule) && negb (token_eqb t.1 TokenRBrace) &&
  negb (token_eqb t.1 TokenEOF) && negb (token_eqb t.1 TokenNewline).

(** collectExpressionUntil rebuilds the expression from its tokens. *)
Definition collected (ts : list tk) : string :=
  TrimSpace (Join (fold_left (λ parts t, collect_part (mkToken t.1 t.2 "" 0 0) parts) ts []) " ").

Definition wf_expression (s : string) : bool :=
  readable s && forallb in_expression (text_tks s) && String.eqb (collected (text_tks s)) s.

Definition wf_ValidationRule (r : ValidationRule) : bool :=
  plain_word (ValidationRule_Name r) && plain_word (ValidationRule_Severity r) &&
  an_int (ValidationRule_MaxRetries r) && plain (ValidationRule_Message r) &&
  wf_expression (ValidationRule_Expression r).

(** The threshold is written only next to a scoring method, and only when it
    is not the default. *)
Definition wf_EvalCase (c : EvalCase) : bool :=
  plain_word (EvalCase_Name c) && plain (EvalCase_Input c) && plain (EvalCase_Expected c) &&
  (empty_string (EvalCase_Scoring c) || plain_word (EvalCase_Scoring c)) &&
  plains (EvalCase_Tags c) &&
  (bool_decide (EvalCase_Threshold c = default_threshold) ||
   negb (empty_string (EvalCase_Scoring c)) &&
   negb (float_eq (EvalCase_Threshold c) default_threshold) && float_prints (EvalCase_Threshold c)).

Definition wf_MemoryConfig (m : MemoryConfig) : bool :=
  plain (MemoryConfig_Strategy m) && an_int (MemoryConfig_MaxMessages m).

Definition wf_Delegate (d : Delegate) : bool :=
  plain (Delegate_AgentRef d) && plain (Delegate_Condition d).

(** A budget is written when it is positive. *)
Definition wf_budget (b : float64) : bool :=
  bool_decide (b = float_zero) || float_lt float_zero b && float_prints b.

(** An agent without an on-input block. *)
Definition wf_Agent (a : Agent) : bool :=
  plain (Agent_Name a) && opt_ok (wf_Ref "prompt") (Agent_Prompt a) &&
  forallb (wf_Ref "skill") (Agent_Skills a) && plain (Agent_Model a) && plains (Agent_Models a) &&
  empty_map (Agent_Parameters a) && opt_ok (wf_Ref "client") (Agent_Client a) &&
  plain_map (Agent_Metadata a) && plain (Agent_Strategy a) && an_int (Agent_MaxTurns a) &&
  plain (Agent_Timeout a) && an_int (Agent_TokenBudget a) &&
  (if Agent_HasTemp a then float_prints (Agent_Temperature a)
   else bool_decide (Agent_Temperature a = float_zero)) &&
  plain (Agent_OnError a) && an_int (Agent_MaxRetries a) && plain (Agent_Fallback a) &&
  opt_ok wf_MemoryConfig (Agent_MemoryCfg a) && forallb wf_Delegate (Agent_Delegates a) &&
  wf_budget (Agent_BudgetDaily a) && wf_budget (Agent_BudgetMonthly a) &&
  plains (Agent_GuardrailRefs a) && forallb wf_ConfigParam (Agent_ConfigParams a) &&
  forallb wf_ValidationRule (Agent_ValidationRules a) && forallb wf_EvalCase (Agent_EvalCases a) &&
  match Agent_OnInput a with None => true | Some _ => false end.

(** * Each statement is written as its tokens *)

Ltac writes_part def wf_def :=
  let W := fresh "W" in intros W ?; unfold wf_def in W; split_wf; unfold def; writes.

Lemma writes_Package p r ts :
  wf_Package p = true → Lex r ts → Lex (formatPackage p +:+ r) (formatPackage p ++ ts).
Proof. writes_part (@formatPackage) (@wf_Package). Qed.

Lemma writes_Metadata m r ts :
  plain_map m = true → Lex r ts → Lex (formatMetadata m +:+ r) (formatMetadata m ++ ts).
Proof. intros. by apply Lex_entry_block. Qed.
#[local] Hint Resolve writes_Metadata : writes.

Lemma writes_Prompt p r ts :
  wf_Prompt p = true → Lex r ts → Lex (formatPrompt p +:+ r) (formatPrompt p ++ ts).
Proof. writes_part (@formatPrompt) (@wf_Prompt). Qed.

Lemma writes_ToolConfig tc r ts :
  wf_ToolConfig tc = true → Lex r ts → Lex (formatToolConfig tc +:+ r) (formatToolConfig tc ++ ts).
Proof. writes_part (@formatToolConfig) (@wf_ToolConfig). Qed.
#[local] Hint Resolve writes_ToolConfig : writes.

Lemma writes_field_block name fs r ts :
  plain_word name = true → forallb wf_Field fs = true → Lex r ts →
  Lex (field_block name fs +:+ r) (field_block name fs ++ ts).
Proof. intros. unfold field_block. writes. Qed.
#[local] Hint Resolve writes_field_block : writes.

Lemma writes_Skill s r ts :
  wf_Skill s = true → Lex r ts → Lex (formatSkill s +:+ r) (formatSkill s ++ ts).
Proof. writes_part (@formatSkill) (@wf_Skill). Qed.

Lemma writes_Binding b r ts :
  wf_Binding b = true → Lex r ts → Lex (formatBinding b +:+ r) (formatBinding b ++ ts).
Proof. writes_part (@formatBinding) (@wf_Binding). Qed.

Lemma writes_Secret s r ts :
  wf_Secret s = true → Lex r ts → Lex (formatSecret s +:+ r) (formatSecret s ++ ts).
Proof. writes_part (@formatSecret) (@wf_Secret). Qed.

Lemma readable_action s :
  String.eqb s "deny" || String.eqb s "allow" || String.eqb s "require" = true → readable s = true.
Proof.
  rewrite !orb_true_iff, !String.eqb_eq. by intros [[->| ->]| ->].
Qed.

Lemma readable_subject s : wf_subject s = true → readable s = true.
Proof. unfold wf_subject. by destruct (readable s). Qed.

Lemma readable_optional s : empty_string s || plain_word s = true → readable s = true.
Proof.
  unfold empty_string. destruct (String.eqb_spec s "") as [->|_]; [done|]. apply readable_word.
Qed.
#[local] Hint Resolve readable_action readable_subject readable_optional : writes.

Lemma writes_Policy p r ts :
  wf_Policy p = true → Lex r ts → Lex (formatPolicy p +:+ r) (formatPolicy p ++ ts).
Proof. writes_part (@formatPolicy) (@wf_Policy). Qed.

Lemma writes_Plugin p r ts :
  wf_Plugin p = true → Lex r ts → Lex (formatPlugin p +:+ r) (formatPlugin p ++ ts).
Proof. writes_part (@formatPlugin) (@wf_Plugin). Qed.

Lemma writes_MCPServer s r ts :
  wf_MCPServer s = true → Lex r ts → Lex (formatMCPServer s +:+ r) (formatMCPServer s ++ ts).
Proof. writes_part (@formatMCPServer) (@wf_MCPServer). Qed.

Lemma writes_MCPClient c r ts :
  wf_MCPClient c = true → Lex r ts → Lex (formatMCPClient c +:+ r) (formatMCPClient c ++ ts).
Proof. writes_part (@formatMCPClient) (@wf_MCPClient). Qed.

Lemma writes_DeployTarget d r ts :
  wf_DeployTarget d = true → Lex r ts →
  Lex (formatDeployTarget d +:+ r) (formatDeployTarget d ++ ts).
Proof. writes_part (@formatDeployTarget) (@wf_DeployTarget). Qed.

Lemma writes_TypeDef t r ts :
  wf_TypeDef t = true → Lex r ts → Lex (formatTypeDef t +:+ r) (formatTypeDef t ++ ts).
Proof. writes_part (@formatTypeDef) (@wf_TypeDef). Qed.

Lemma writes_Pipeline p r ts :
  wf_Pipeline p = true → Lex r ts → Lex (formatPipeline p +:+ r) (formatPipeline p ++ ts).
Proof. writes_part (@formatPipeline) (@wf_Pipeline). Qed.

Lemma writes_Import i r ts :
  wf_Import i = true → Lex r ts → Lex (formatImport i +:+ r) (formatImport i ++ ts).
Proof. writes_part (@formatImport) (@wf_Import). Qed.

Lemma writes_User u r ts :
  wf_User u = true → Lex r ts → Lex (formatUser u +:+ r) (formatUser u ++ ts).
Proof. writes_part (@formatUser) (@wf_User). Qed.

Lemma writes_Guardrail g r ts :
  wf_Guardrail g = true → Lex r ts → Lex (formatGuardrail g +:+ r) (formatGuardrail g ++ ts).
Proof. writes_part (@formatGuardrail) (@wf_Guardrail). Qed.

Lemma writes_StateConfig s r ts :
  wf_StateConfig s = true → Lex r ts → Lex (formatStateConfig s +:+ r) (formatStateConfig s ++ ts).
Proof. writes_part (@formatStateConfig) (@wf_StateConfig). Qed.

(** The groups hold the overrides of the environment, each under its resource. *)
Lemma group_overrides_spec os groups order :
  group_overrides os = (groups, order) →
  ∀ res o, o ∈ overrides_of groups res → o ∈ os ∧ Override_Resource o = res.
Proof.
  unfold group_overrides.
  assert (∀ os st, (∀ res o, o ∈ overrides_of st.1 res → Override_Resource o = res) →
    ∀ res o, o ∈ overrides_of (fold_left group_override os st).1 res →
    (o ∈ overrides_of st.1 res ∨ o ∈ os) ∧ Override_Resource o = res) as G.
  { clear os groups order. induction os as [|o1 os IH]; intros [groups order] I res o Io; simpl in *.
    - split; [by left | by apply I].
    - assert (∀ res o, o ∈ overrides_of (group_override (groups, order) o1).1 res →
        (o ∈ overrides_of groups res ∨ o = o1) ∧ Override_Resource o = res) as G1.
      { clear res o Io. intros res o. simpl. unfold overrides_of.
        destruct (decide (Override_Resource o1 = res)) as [<-|N].
        - rewrite lookup_insert_eq. simpl. rewrite elem_of_app, list_elem_of_singleton.
          intros [Io| ->]; [|by auto]. split; [by left | by apply I].
        - rewrite lookup_insert_ne by done. intros Io. split; [by left | by apply I]. }
      apply IH in Io as [[Io|Io] R]; [| split; [right; by right | done] | naive_solver].
      apply G1 in Io as [[Io| ->] _]; split; [by left | done | right; left | done]. }
  intros E res o Io. specialize (G os (∅, [])). rewrite E in G.
  destruct (G ltac:(intros ? ?; simpl; unfold overrides_of; rewrite lookup_empty; intros X; inversion X)
              res o Io) as [[X|X] R]; [|done].
  simpl in X. unfold overrides_of in X. rewrite lookup_empty in X. inversion X.
Qed.

Lemma writes_group groups res r ts :
  wf_resource res = true → forallb wf_Override (overrides_of groups res) = true → Lex r ts →
  Lex (format_group groups res +:+ r) (format_group groups res ++ ts).
Proof.
  unfold wf_resource, overrides_of, format_group. intros W Wo Hr.
  destruct (SplitN2 res "/") as [|kind [|name [|]]]; try done. split_wf. writes.
Qed.

Lemma writes_Environment e r ts :
  wf_Environment e = true → Lex r ts →
  Lex (formatEnvironment e +:+ r) (formatEnvironment e ++ ts).
Proof.
  unfold wf_Environment, formatEnvironment. intros W Hr.
  destruct (group_overrides _) as [groups order] eqn:G. split_wf.
  assert (∀ res, forallb wf_Override (overrides_of groups res) = true).
  { intros res. apply forallb_forall. intros o I. apply list_elem_of_In in I.
    apply (group_overrides_spec _ _ _ G) in I as [I _]. by apply (forallb_elem wf_Override _ _ H1). }
  writes_step. writes_step. do 6 writes_step. apply Lex_then.
  apply Lex_text_of; [|writes]. intros res r0 ts0 I Hr0.
  apply writes_group; [by eapply forallb_elem | done | done].
Qed.

(** * Agents *)

Lemma writes_ConfigBlock l r ts :
  forallb wf_ConfigParam l = true → Lex r ts →
  Lex (formatConfigBlock l "  " +:+ r) (formatConfigBlock l "  " ++ ts).
Proof. intros. unfold formatConfigBlock. writes. Qed.

Lemma readable_expression s : wf_expression s = true → readable s = true.
Proof. unfold wf_expression. by destruct (readable s). Qed.
#[local] Hint Resolve readable_expression : writes.

Lemma an_int_nonneg n : an_int n = true → 0 <= n.
Proof. unfold an_int. lia. Qed.
#[local] Hint Resolve an_int_nonneg : writes.

Lemma writes_ValidateBlock l r ts :
  forallb wf_ValidationRule l = true → Lex r ts →
  Lex (formatValidateBlock l "  " +:+ r) (formatValidateBlock l "  " ++ ts).
Proof. intros. unfold formatValidateBlock. writes. Qed.

(** The floats that are written are those the conditions make printable. *)
Lemma prints_threshold f b :
  bool_decide (f = default_threshold) ||
    b && negb (float_eq f default_threshold) && float_prints f = true →
  negb (float_eq f default_threshold) = true → float_prints f = true.
Proof.
  destruct (bool_decide_reflect (f = default_threshold)) as [->|_]; [done|]. simpl.
  intros W _. by split_wf.
Qed.

Lemma prints_budget f : wf_budget f = true → float_lt float_zero f = true → float_prints f = true.
Proof.
  unfold wf_budget. destruct (bool_decide_reflect (f = float_zero)) as [->|_]; [done|].
  simpl. intros W _. by split_wf.
Qed.

Lemma prints_temperature (b : bool) x y : (if b then x else y) = true → b = true → x = true.
Proof. by intros W ->. Qed.
#[local] Hint Resolve prints_threshold prints_budget prints_temperature : writes.

Lemma writes_EvalBlock l r ts :
  forallb wf_EvalCase l = true → Lex r ts →
  Lex (formatEvalBlock l "  " +:+ r) (formatEvalBlock l "  " ++ ts).
Proof. intros. unfold formatEvalBlock. writes. Qed.

Lemma writes_some_block {A} (f : list A → string → string) g (wf : A → bool) l r ts :
  (∀ l r ts, forallb wf l = true → Lex r ts → Lex (f l "  " +:+ r) (g l "  " ++ ts)) →
  forallb wf l = true → Lex r ts → Lex (some_block f l +:+ r) (some_block g l ++ ts).
Proof. intros Hf W Hr. destruct l; [done | by apply Hf]. Qed.

Lemma writes_config l r ts :
  forallb wf_ConfigParam l = true → Lex r ts →
  Lex (some_block formatConfigBlock l +:+ r) (some_block formatConfigBlock l ++ ts).
Proof. apply writes_some_block, writes_ConfigBlock. Qed.

Lemma writes_validate l r ts :
  forallb wf_ValidationRule l = true → Lex r ts →
  Lex (some_block formatValidateBlock l +:+ r) (some_block formatValidateBlock l ++ ts).
Proof. apply writes_some_block, writes_ValidateBlock. Qed.

Lemma writes_eval l r ts :
  forallb wf_EvalCase l = true → Lex r ts →
  Lex (some_block formatEvalBlock l +:+ r) (some_block formatEvalBlock l ++ ts).
Proof. apply writes_some_block, writes_EvalBlock. Qed.

Lemma writes_bool b r ts : delim r = true → Lex r ts → Lex (fmt_t b +:+ r) (fmt_t b ++ ts).
Proof. intros. destruct b; by apply Lex_put_open. Qed.
#[local] Hint Resolve writes_config writes_validate writes_eval writes_bool : writes.
#[local] Hint Extern 1 (delim _ = true) => delims : writes.

Lemma writes_Agent a r ts :
  wf_Agent a = true → Lex r ts → Lex (formatAgent a +:+ r) (formatAgent a ++ ts).
Proof. writes_part (@formatAgent) (@wf_Agent). done. Qed.

(** * Files *)

(** A plugin reference is read back as a plugin; a package declaration is no
    statement the formatter writes. *)
Definition wf_Statement (s : Statement) : bool :=
  match s with
  | SPrompt x => wf_Prompt x
  | SSkill x => wf_Skill x
  | SAgent x => wf_Agent x
  | SBinding x => wf_Binding x
  | SSecret x => wf_Secret x
  | SEnvironment x => wf_Environment x
  | SPolicy x => wf_Policy x
  | SPlugin x => wf_Plugin x
  | SMCPServer x => wf_MCPServer x
  | SMCPClient x => wf_MCPClient x
  | SDeployTarget x => wf_DeployTarget x
  | STypeDef x => wf_TypeDef x
  | SPipeline x => wf_Pipeline x
  | SImport x => wf_Import x
  | SUser x => wf_User x
  | SGuardrail x => wf_Guardrail x
  | SStateConfig x => wf_StateConfig x
  | SPackage _ | SPluginRef _ => false
  end.

#[local] Hint Resolve writes_Prompt writes_Skill writes_Agent writes_Binding writes_Secret
  writes_Environment writes_Policy writes_Plugin writes_MCPServer writes_MCPClient
  writes_DeployTarget writes_TypeDef writes_Pipeline writes_Import writes_User writes_Guardrail
  writes_StateConfig : writes.

Lemma writes_Statement s r ts :
  wf_Statement s = true → Lex r ts → Lex (formatStatement s +:+ r) (formatStatement s ++ ts).
Proof.
  destruct s; cbn [wf_Statement formatStatement]; intros W; try discriminate W; auto with writes.
Qed.

(** The kind and the name under which the parser registers a statement. *)
Definition registered (s : Statement) : option (string * string) :=
  match s with
  | SPrompt x => Some ("Prompt", Prompt_Name x)
  | SSkill x => Some ("Skill", Skill_Name x)
  | SAgent x => Some ("Agent", Agent_Name x)
  | SBinding x => Some ("Binding", Binding_Name x)
  | SSecret x => Some ("Secret", Secret_Name x)
  | SEnvironment x => Some ("Environment", Environment_Name x)
  | SPolicy x => Some ("Policy", Policy_Name x)
  | SMCPServer x => Some ("MCPServer", MCPServer_Name x)
  | SMCPClient x => Some ("MCPClient", MCPClient_Name x)
  | SDeployTarget x => Some ("DeployTarget", DeployTarget_Name x)
  | STypeDef x => Some ("Type", TypeDef_Name x)
  | SPipeline x => Some ("Pipeline", Pipeline_Name x)
  | SUser x => Some ("User", User_Name x)
  | SGuardrail x => Some ("Guardrail", Guardrail_Name x)
  | SPlugin _ | SImport _ | SStateConfig _ | SPackage _ | SPluginRef _ => None
  end.

(** A file that its formatted text expresses: it has a package declaration,
    its statements are well formed, and no two have the same kind and name. *)
Definition formattable (f : File) : bool :=
  match File_Package f with Some pkg => wf_Package pkg | None => false end &&
  forallb wf_Statement (File_Statements f) &&
  bool_decide (NoDup (omap registered (File_Statements f))).

(** The tokens of a formatted file are those the formatter writes. *)
Lemma tokens_formatted f path :
  formattable f = true →
  ∃ toks, Tokenize (NewLexer (Format f) path) = Some (Ok toks) ∧
          map tok_tk toks = write_file f ++ [(TokenEOF, "")].
Proof.
  unfold formattable. intros W. split_wf.
  destruct (File_Package f) as [pkg|] eqn:P; [|done].
  assert (Lex (Format f +:+ "") (write_file f ++ [(TokenEOF, "")])) as L.
  { unfold Format, write_file. rewrite P. pose proof Lex_eof.
    apply Lex_then, writes_Package; [done|]. apply Lex_text_of; [|done].
    intros s r ts I Hr. apply Lex_then, Lex_put; [done | done |].
    apply writes_Statement; [by eapply forallb_elem | done]. }
  rewrite str_app_nil_r in L.
  destruct (L (NewLexer (Format f) path) (fuel (NewLexer (Format f) path))) as (toks & T & M).
  { done. }
  { unfold fuel. simpl. lia. }
  by exists toks.
Qed.
End wf.
