(* ===== verification/FormatParse.v ===== *)
(** The parser reads the tokens of a formatted statement back: the result is
    the statement, up to source positions. [unplaced] forgets the positions;
    a lemma [parses_*] runs the parse method of a part on the tokens the
    formatter writes for it. *)
From S2P Require Import Prelude GoStd Ast Token Lexer LexText ParserCore Parser ParserWp Formatter FormatText FormatWf.
Open Scope Z_scope.

(** * Forgetting the positions *)

Class Placed (A : Type) := unplaced : A → A.

Global Instance placed_list {A} `{Placed A} : Placed (list A) := map unplaced.
Global Instance placed_option {A} `{Placed A} : Placed (option A) := option_map unplaced.

Abbreviation forget s e x := (x <| s := zero_Pos |> <| e := zero_Pos |>) (only parsing).

Global Instance placed_Ref : Placed Ref := λ r, forget Ref_StartPos Ref_EndPos r.
Global Instance placed_Package : Placed Package := λ p,
  forget Package_StartPos Package_EndPos p.
Global Instance placed_Import : Placed Import := λ i, forget Import_StartPos Import_EndPos i.
Global Instance placed_Plugin : Placed Plugin := λ p, forget Plugin_StartPos Plugin_EndPos p.
Global Instance placed_PluginRef : Placed PluginRef := λ p,
  forget PluginRef_StartPos PluginRef_EndPos p.
Global Instance placed_Variable : Placed VariableDecl := λ v,
  forget VariableDecl_StartPos VariableDecl_EndPos v.
Global Instance placed_Prompt : Placed Prompt := λ p,
  forget Prompt_StartPos Prompt_EndPos p <| Prompt_Variables := unplaced (Prompt_Variables p) |>.
Global Instance placed_Field : Placed Field := λ f, forget Field_StartPos Field_EndPos f.
Global Instance placed_Execution : Placed Execution := λ e,
  forget Execution_StartPos Execution_EndPos e.
Global Instance placed_ToolConfig : Placed ToolConfig := λ t,
  forget ToolConfig_StartPos ToolConfig_EndPos t.
Global Instance placed_Skill : Placed Skill := λ s,
  forget Skill_StartPos Skill_EndPos s
    <| Skill_Input := unplaced (Skill_Input s) |> <| Skill_Output := unplaced (Skill_Output s) |>
    <| Skill_Execution := unplaced (Skill_Execution s) |>
    <| Skill_ToolConfig := unplaced (Skill_ToolConfig s) |>.
Global Instance placed_Binding : Placed Binding := λ b, forget Binding_StartPos Binding_EndPos b.
Global Instance placed_Secret : Placed Secret := λ s, forget Secret_StartPos Secret_EndPos s.
Global Instance placed_Override : Placed Override := λ o,
  forget Override_StartPos Override_EndPos o.
Global Instance placed_Environment : Placed Environment := λ e,
  forget Environment_StartPos Environment_EndPos e
    <| Environment_Overrides := unplaced (Environment_Overrides e) |>.
Global Instance placed_Rule : Placed Rule := λ r, forget Rule_StartPos Rule_EndPos r.
Global Instance placed_Policy : Placed Policy := λ p,
  forget Policy_StartPos Policy_EndPos p <| Policy_Rules := unplaced (Policy_Rules p) |>.
Global Instance placed_MCPServer : Placed MCPServer := λ s,
  forget MCPServer_StartPos MCPServer_EndPos s
    <| MCPServer_Auth := unplaced (MCPServer_Auth s) |>
    <| MCPServer_Skills := unplaced (MCPServer_Skills s) |>.
Global Instance placed_MCPClient : Placed MCPClient := λ c,
  forget MCPClient_StartPos MCPClient_EndPos c
    <| MCPClient_Servers := unplaced (MCPClient_Servers c) |>.
Global Instance placed_Resources : Placed ResourceLimits := λ r,
  forget ResourceLimits_StartPos ResourceLimits_EndPos r.
Global Instance placed_Health : Placed HealthConfig := λ h,
  forget HealthConfig_StartPos HealthConfig_EndPos h.
Global Instance placed_Autoscale : Placed AutoscaleConfig := λ a,
  forget AutoscaleConfig_StartPos AutoscaleConfig_EndPos a.
Global Instance placed_DeployTarget : Placed DeployTarget := λ d,
  forget DeployTarget_StartPos DeployTarget_EndPos d
    <| DeployTarget_Resources := unplaced (DeployTarget_Resources d) |>
    <| DeployTarget_Health := unplaced (DeployTarget_Health d) |>
    <| DeployTarget_Autoscale := unplaced (DeployTarget_Autoscale d) |>.
Global Instance placed_TypeField : Placed TypeField := λ f,
  forget TypeField_StartPos TypeField_EndPos f.
Global Instance placed_TypeDef : Placed TypeDef := λ t,
  forget TypeDef_StartPos TypeDef_EndPos t <| TypeDef_Fields := unplaced (TypeDef_Fields t) |>.
Global Instance placed_Step : Placed PipelineStep := λ s,
  forget PipelineStep_StartPos PipelineStep_EndPos s.
Global Instance placed_Pipeline : Placed Pipeline := λ p,
  forget Pipeline_StartPos Pipeline_EndPos p <| Pipeline_Steps := unplaced (Pipeline_Steps p) |>.
Global Instance placed_User : Placed User := λ u, forget User_StartPos User_EndPos u.
Global Instance placed_Guardrail : Placed Guardrail := λ g,
  forget Guardrail_StartPos Guardrail_EndPos g.
Global Instance placed_StateConfig : Placed StateConfig := λ s,
  forget StateConfig_StartPos StateConfig_EndPos s.
Global Instance placed_MemoryConfig : Placed MemoryConfig := λ m,
  forget MemoryConfig_StartPos MemoryConfig_EndPos m.
Global Instance placed_Delegate : Placed Delegate := λ d,
  forget Delegate_StartPos Delegate_EndPos d.
Global Instance placed_ConfigParam : Placed ConfigParam := λ c,
  forget ConfigParam_StartPos ConfigParam_EndPos c.
Global Instance placed_ValidationRule : Placed ValidationRule := λ r,
  forget ValidationRule_StartPos ValidationRule_EndPos r.
Global Instance placed_EvalCase : Placed EvalCase := λ c,
  forget EvalCase_StartPos EvalCase_EndPos c.
(** The statements of an on-input block keep their positions. *)
Global Instance placed_OnInput : Placed OnInputBlock := λ b,
  forget OnInputBlock_StartPos OnInputBlock_EndPos b.
Global Instance placed_Agent : Placed Agent := λ a,
  forget Agent_StartPos Agent_EndPos a
    <| Agent_Prompt := unplaced (Agent_Prompt a) |> <| Agent_Skills := unplaced (Agent_Skills a) |>
    <| Agent_Client := unplaced (Agent_Client a) |>
    <| Agent_MemoryCfg := unplaced (Agent_MemoryCfg a) |>
    <| Agent_Delegates := unplaced (Agent_Delegates a) |>
    <| Agent_ConfigParams := unplaced (Agent_ConfigParams a) |>
    <| Agent_ValidationRules := unplaced (Agent_ValidationRules a) |>
    <| Agent_EvalCases := unplaced (Agent_EvalCases a) |>
    <| Agent_OnInput := unplaced (Agent_OnInput a) |>.

Global Instance placed_Statement : Placed Statement := λ s,
  match s with
  | SPackage x => SPackage (unplaced x)
  | SImport x => SImport (unplaced x)
  | SPluginRef x => SPluginRef (unplaced x)
  | SAgent x => SAgent (unplaced x)
  | SPrompt x => SPrompt (unplaced x)
  | SSkill x => SSkill (unplaced x)
  | SMCPServer x => SMCPServer (unplaced x)
  | SMCPClient x => SMCPClient (unplaced x)
  | SEnvironment x => SEnvironment (unplaced x)
  | SSecret x => SSecret (unplaced x)
  | SPolicy x => SPolicy (unplaced x)
  | SBinding x => SBinding (unplaced x)
  | SPlugin x => SPlugin (unplaced x)
  | SDeployTarget x => SDeployTarget (unplaced x)
  | SUser x => SUser (unplaced x)
  | SGuardrail x => SGuardrail (unplaced x)
  | SStateConfig x => SStateConfig (unplaced x)
  | STypeDef x => STypeDef (unplaced x)
  | SPipeline x => SPipeline (unplaced x)
  end.

Global Instance placed_File : Placed File := λ f,
  forget File_StartPos File_EndPos f
    <| File_Package := unplaced (File_Package f) |>
    <| File_Statements := unplaced (File_Statements f) |>.

(** * Running a method on written tokens *)

Section tokens.
Context `{GoRuntime}.

Lemma tk_then (a b ts : list tk) : (a +++ b) ++ ts = a ++ b ++ ts.
Proof. simpl. by rewrite <- app_assoc. Qed.

Lemma tk_silent (ts : list tk) : silent ++ ts = ts.
Proof. done. Qed.

Lemma tk_word w ts : plain_word w = true → put_s w ++ ts = (LookupKeyword w, w) :: ts.
Proof. intros W. unfold put_s. simpl. by destruct (readable_word w W) as [_ ->]. Qed.

Lemma optional_word w :
  empty_string w || plain_word w = true → nonempty w = true → plain_word w = true.
Proof. unfold empty_string, nonempty. by destruct (String.eqb w ""). Qed.

Lemma tk_text_of_cons {A} (f : A → list tk) x l ts :
  text_of f (x :: l) ++ ts = f x ++ text_of f l ++ ts.
Proof. apply tk_then. Qed.
End tokens.

Create HintDb no_nl discriminated.
Create HintDb words discriminated.

Lemma action_word s :
  String.eqb s "deny" || String.eqb s "allow" || String.eqb s "require" = true → plain_word s = true.
Proof. rewrite !orb_true_iff, !String.eqb_eq. by intros [[->| ->]| ->]. Qed.
#[export] Hint Resolve optional_word action_word : words.

(** A name that is a word of the language. *)
Ltac is_word := solve [reflexivity | assumption | eauto 2 with words nocore].

Lemma an_int_range n : an_int n = true → 0 <= n <= max_int.
Proof. unfold an_int. lia. Qed.

Lemma wp_expectFloat_prints `{GoRuntime} c f (Q : post float64) ts ns :
  float_prints f = true → Q f ts ns → wp (expectFloat c) Q ((TokenNumber, fmt_g f) :: ts) ns.
Proof.
  unfold float_prints. rewrite andb_true_iff, bool_decide_eq_true. intros [_ E].
  by apply wp_expectFloat.
Qed.

(** Bring the first token of the text to the head of the list. *)
Ltac tk_head :=
  repeat lazymatch goal with
    | |- wp _ _ ((_ +++ _) ++ _) _ => rewrite tk_then
    | |- wp _ _ (silent ++ _) _ => rewrite tk_silent
    | |- wp _ _ (guarded true ?x ++ ?ts) _ => change (guarded true x ++ ts) with (x ++ ts)
    | |- wp _ _ (guarded false ?x ++ ?ts) _ => change (guarded false x ++ ts) with ts
    | |- wp _ _ (put ?s ++ ?ts) _ =>
        let v := eval vm_compute in (text_tks s) in
        change (put s ++ ts) with (v ++ ts); cbn [app]
    | |- wp _ _ (put_s (String ?c ?w) ++ ?ts) _ =>
        let v := eval vm_compute in (text_tks (String c w)) in
        change (put_s (String c w) ++ ts) with (v ++ ts); cbn [app]
    | |- wp _ _ (put_s ?s ++ ?ts) _ => rewrite (tk_word s) by is_word
    | |- wp _ _ (put_q ?s ++ ?ts) _ => change (put_q s ++ ts) with ((TokenString, s) :: ts)
    | |- wp _ _ (put_d ?n ++ ?ts) _ => change (put_d n ++ ts) with ((TokenNumber, pretty n) :: ts)
    | |- wp _ _ (put_g ?f ++ ?ts) _ => change (put_g f ++ ts) with ((TokenNumber, fmt_g f) :: ts)
    | |- wp _ _ ([] ++ _) _ => cbn [app]
    | |- wp _ _ ((_ :: _) ++ _) _ => cbn [app]
    end.

(** A condition of the parser, evaluated at the token at hand. *)
Ltac decide_c :=
  let p := fresh "p" in
  let U := fresh "U" in
  intros p U; cbv beta; unfold in_block, at_end;
  rewrite ?is_tok_hd, ?(is_lit_upcoming _ _ _ _ _ U), ?is_name_tok_hd, ?U; cbn [hd_type];
  rewrite ?LookupKeyword_not, ?LookupKeyword_name_like by reflexivity;
  repeat match goal with
    | E : token_eqb (LookupKeyword ?k) ?t = _ |- context [token_eqb (LookupKeyword ?k) ?t] =>
        rewrite E
    end;
  lazymatch goal with
  | |- context [LookupKeyword] => fail
  | |- _ => reflexivity
  end.

(** A round of a loop leaves fewer tokens. *)
Ltac shorter := solve [cbn [length app]; rewrite ?length_app; cbn [length]; lia].

Ltac wp_step :=
  tk_head;
  lazymatch goal with
  | |- wp (mret _) _ _ _ => apply wp_ret; cbv beta iota
  | |- (_ < _)%nat ∧ wp _ _ _ _ => split; [shorter |]
  | |- wp (while _ _ _) _ (_ :: _) _ =>
      first [ apply wp_while_stop; [solve [decide_c] |]
            | apply wp_while_step; [solve [decide_c] |] ]
  | |- wp skip _ _ _ => apply wp_skip
  | |- wp (_ ≫= _) _ _ _ => apply wp_bind
  | |- wp currentPos _ _ _ => apply wp_currentPos; intros ?
  | |- wp next _ (_ :: _) _ => apply wp_next
  | |- wp lit _ (_ :: _) _ => apply wp_lit
  | |- wp advance_lit _ (_ :: _) _ => apply wp_advance_lit
  | |- wp (expect _) _ (_ :: _) _ => apply wp_expect; intros ?
  | |- wp (expectString _) _ (_ :: _) _ => apply wp_expectString
  | |- wp (expectStringOrIdent _) _ (_ :: _) _ =>
      apply wp_expectStringOrIdent; [first [apply LookupKeyword_name_like | reflexivity] |]
  | |- wp (expectInt _) _ (_ :: _) _ => apply wp_expectInt; [apply an_int_range; assumption |]
  | |- wp (expectFloat _) _ (_ :: _) _ => apply wp_expectFloat_prints; [assumption |]
  | |- wp (expectBool _) _ (_ :: _) _ =>
      first [ apply (wp_expectBool _ true) | apply (wp_expectBool _ false) ]
  | |- wp (expectToken _) _ (_ :: _) _ => eapply wp_expectToken; [reflexivity |]
  | |- wp (ifelse _ _ _) _ (_ :: _) _ =>
      first [ apply (wp_ifelse _ true); [solve [decide_c] |]
            | apply (wp_ifelse _ false); [solve [decide_c] |] ]; cbn iota
  | |- wp (when _ _) _ (_ :: _) _ =>
      first [ apply (wp_when _ true); [solve [decide_c] |]
            | apply (wp_when _ false); [solve [decide_c] |] ]; cbn iota
  | |- wp (switch (_ :: _) _) _ (_ :: _) _ =>
      first [ apply (wp_switch_cons _ true); [solve [decide_c] |]
            | apply (wp_switch_cons _ false); [solve [decide_c] |] ]; cbn iota
  | |- wp (switch [] _) _ _ _ => apply wp_switch_nil
  end.

Ltac wp_more := fail.
Ltac wp := repeat (tk_head; first [wp_step | wp_more]).

(** The same, taking the cases of the parts of a line that may be absent. *)
Ltac wp_line :=
  wp; tk_head;
  lazymatch goal with
  | |- wp (items _ _) _ _ _ => idtac
  | |- wp _ _ (guarded ?b _ ++ _) _ => destruct b eqn:?; wp_line
  | |- _ => idtac
  end.

Lemma no_text s : nonempty s = false → s = "".
Proof. unfold nonempty. by destruct (String.eqb_spec s ""). Qed.

Lemma empty_string_true s : empty_string s = true → s = "".
Proof. apply String.eqb_eq. Qed.

Lemma empty_list_true {A} (l : list A) : is_empty l = true → l = [].
Proof. by destruct l. Qed.

Lemma empty_map_true m : empty_map m = true → m = ∅.
Proof. intros E. by apply map_to_list_empty_iff, empty_list_true. Qed.

Lemma not_positive n : an_int n = true → (0 <? n) = false → n = 0.
Proof. unfold an_int. lia. Qed.

(** Close a goal [unplaced x' = unplaced x] when the fields agree. *)
Ltac placed x :=
  destruct x; simpl in *;
  repeat match goal with
    | E : nonempty _ = false |- _ => apply no_text in E
    | E : empty_string _ = true |- _ => apply empty_string_true in E
    | E : is_empty _ = true |- _ => apply empty_list_true in E
    | E : empty_map _ = true |- _ => apply empty_map_true in E
    | E : String.eqb _ _ = true |- _ => apply String.eqb_eq in E
    | I : an_int ?n = true, E : (0 <? ?n) = false |- _ => apply (not_positive n I) in E
    end;
  subst;
  first
    [ reflexivity
    | unfold unplaced;
      lazymatch goal with |- ?f _ = ?f _ => unfold f end; simpl;
      repeat match goal with E : unplaced _ = _ |- _ => rewrite E; clear E end;
      reflexivity
    | idtac ].

(** * Blocks, line by line *)

Lemma no_nl_app a b : no_nl a = true → no_nl b = true → no_nl (a ++ b) = true.
Proof. by destruct a. Qed.

Section blocks.
Context `{GoRuntime}.

Lemma no_nl_then (a b : list tk) : no_nl a = true → no_nl b = true → no_nl (a +++ b) = true.
Proof. apply no_nl_app. Qed.

Lemma no_nl_then_app (a b ts : list tk) :
  no_nl a = true → no_nl (b ++ ts) = true → no_nl ((a +++ b) ++ ts) = true.
Proof. intros. rewrite tk_then. by apply no_nl_app. Qed.

Lemma no_nl_guarded b (x : list tk) : no_nl x = true → no_nl (guarded b x) = true.
Proof. by destruct b. Qed.

Lemma no_nl_text_of {A} (f : A → list tk) l :
  (∀ x, x ∈ l → no_nl (f x) = true) → no_nl (text_of f l) = true.
Proof.
  intros Hf. induction l as [|x l IH]; [done|]. apply no_nl_then; [apply Hf; left|].
  apply IH. intros. apply Hf. by right.
Qed.

Lemma no_nl_word w : plain_word w = true → no_nl (put_s w) = true.
Proof.
  intros W. rewrite <- (app_nil_r (put_s w)), tk_word by done. unfold no_nl. cbn [hd_type].
  by rewrite LookupKeyword_not.
Qed.

Lemma item_start_word indent w (x : list tk) :
  text_tks indent = [] → plain_word w = true →
  item_start (put indent +++ put_s w +++ x) = true.
Proof.
  intros I W. change (item_start (text_tks indent ++ (put_s w +++ x)) = true). rewrite I.
  change (item_start (put_s w ++ x) = true). rewrite tk_word by done.
  unfold item_start, no_nl. cbn [hd_type]. by rewrite !LookupKeyword_not.
Qed.

Lemma no_nl_word_line indent w (x : list tk) :
  text_tks indent = [] → plain_word w = true →
  no_nl (put indent +++ put_s w +++ x) = true.
Proof.
  intros I W. pose proof (item_start_word indent w x I W) as S. unfold item_start in S.
  by apply andb_true_iff in S as [_ S].
Qed.

Lemma no_nl_line_q before s :
  no_nl (text_tks before) = true → no_nl (line_q before s : list tk) = true.
Proof. intros. by apply no_nl_guarded, no_nl_then. Qed.

Lemma no_nl_line_d before n :
  no_nl (text_tks before) = true → no_nl (line_d before n : list tk) = true.
Proof. intros. by apply no_nl_guarded, no_nl_then. Qed.

Lemma no_nl_line_list before l :
  no_nl (text_tks before) = true → no_nl (line_list before l : list tk) = true.
Proof. intros. destruct l; [done|]. by apply no_nl_then. Qed.

Lemma no_nl_entries indent m :
  text_tks indent = [] → plain_map m = true → no_nl (entries indent m : list tk) = true.
Proof.
  intros I P. apply no_nl_text_of. intros k K. apply elem_of_sortedKeys in K as [v E].
  apply no_nl_then; [simpl; by rewrite I|]. apply no_nl_then; [|done].
  apply no_nl_word. by destruct (plain_map_lookup _ _ _ P E).
Qed.

Lemma no_nl_entry_block indent name m :
  text_tks indent = [] → plain_word name = true →
  no_nl (entry_block indent name m : list tk) = true.
Proof.
  intros I N. apply no_nl_guarded, no_nl_then; [simpl; by rewrite I|].
  apply no_nl_then; [by apply no_nl_word | done].
Qed.

(** * Items of a block *)

Lemma shorter_app {X} (x : X) l r : (length r < length ((x :: l) ++ r))%nat.
Proof. simpl. rewrite length_app. lia. Qed.

(** The tokens [line], up to the end of a line, take the block from [acc] to
    [acc']. *)
Definition item {A} (body : A → P A) (acc acc' : A) (line : list tk) : Prop :=
  item_start line = true ∧
  ∀ (Q : post A) rest ns,
    Q acc' ((TokenNewline, nl) :: rest) ns → wp (body acc) Q (line ++ rest) ns.

Lemma wp_item {A} (body : A → P A) acc acc' line (Q : post A) rest ns :
  item body acc acc' line → no_nl rest = true → wp (items body acc') Q rest ns →
  wp (items body acc) Q (line ++ rest) ns.
Proof.
  intros [S B] N W. apply wp_items_next.
  - destruct line as [|[T s] l]; [done|]. exact S.
  - apply B. exists rest. split_and!; [done | done | | done].
    destruct line; [done|]. apply shorter_app.
Qed.

(** A line that may be absent: then nothing changes. *)
Lemma wp_item_guarded {A} (body : A → P A) acc acc' b (line : list tk) (Q : post A) rest ns :
  (b = true → item body acc acc' line) → (b = false → acc' = acc) →
  no_nl rest = true → wp (items body acc') Q rest ns →
  wp (items body acc) Q (guarded b line ++ rest) ns.
Proof.
  intros Hi He N W. destruct b; [by eapply wp_item; [apply Hi | |]|].
  by rewrite <- (He eq_refl).
Qed.

Lemma wp_item_q {A} (body : A → P A) acc acc' before s (Q : post A) rest ns :
  item body acc acc' (put before +++ put_q s +++ put nl) →
  (s = "" → acc' = acc) → no_nl rest = true → wp (items body acc') Q rest ns →
  wp (items body acc) Q (line_q before s ++ rest) ns.
Proof. intros Hi He. apply wp_item_guarded; [done|]. intros E. by apply He, no_text. Qed.

Lemma wp_item_d {A} (body : A → P A) acc acc' before n (Q : post A) rest ns :
  item body acc acc' (put before +++ put_d n +++ put nl) →
  0 <= n → (n = 0 → acc' = acc) → no_nl rest = true → wp (items body acc') Q rest ns →
  wp (items body acc) Q (line_d before n ++ rest) ns.
Proof. intros Hi Hn He. apply wp_item_guarded; [done|]. intros E. apply He. lia. Qed.

Lemma wp_item_list {A} (body : A → P A) acc acc' before l (Q : post A) rest ns :
  item body acc acc' (put before +++ bracketed l +++ put nl) →
  (l = [] → acc' = acc) → no_nl rest = true → wp (items body acc') Q rest ns →
  wp (items body acc) Q (line_list before l ++ rest) ns.
Proof.
  intros Hi He N W. destruct l as [|x l].
  - by rewrite <- He.
  - by eapply wp_item; [exact Hi | |].
Qed.

(** The items of a list: [Inv pre r] relates the elements read so far to the
    state of the block. *)
Lemma wp_items_text {R X} (body : R → P R) (line : X → list tk) (Inv : list X → R → Prop)
    l r (Q : post R) rest ns :
  (∀ x, x ∈ l → item_start (line x) = true) →
  (∀ x pre r (Q : post R) rest ns, x ∈ l → Inv pre r →
    (∀ r', Inv (pre ++ [x]) r' → Q r' ((TokenNewline, nl) :: rest) ns) →
    wp (body r) Q (line x ++ rest) ns) →
  no_nl rest = true → Inv [] r → (∀ r', Inv l r' → wp (items body r') Q rest ns) →
  wp (items body r) Q (text_of line l ++ rest) ns.
Proof.
  intros S B N I W. change l with ([] ++ l) in W. revert I W. generalize (@nil X) as pre.
  revert r S B. induction l as [|x l IH]; intros r S B pre I W.
  - apply W. by rewrite app_nil_r.
  - assert (no_nl (text_of line l) = true) as NL.
    { apply no_nl_text_of. intros y Iy. specialize (S y ltac:(by right)).
      unfold item_start in S. rewrite !andb_true_iff in S. tauto. }
    specialize (S x ltac:(left)) as Sx. rewrite tk_text_of_cons. apply wp_items_next.
    { destruct (line x) as [|[T s] ts]; [discriminate Sx | exact Sx]. }
    eapply B; [left | exact I |]. intros r' I'. eexists.
    split_and!; [done | by apply no_nl_app | |].
    { destruct (line x); [discriminate Sx|]. apply shorter_app. }
    eapply IH; [intros; apply S; by right | intros; eapply B; [by right | done..] | exact I' |].
    intros r'' I''. apply W. by rewrite <- app_assoc in I''.
Qed.

Lemma unplaced_app {A} `{Placed A} (l l' : list A) : unplaced (l ++ l') = unplaced l ++ unplaced l'.
Proof. apply map_app. Qed.

Lemma unplaced_one {A} `{Placed A} (x : A) : unplaced [x] = [unplaced x].
Proof. done. Qed.

(** The items of a list, which the block appends one by one. *)
Lemma wp_item_each {R A} `{Placed A} (body : R → P R) (mk : list A → R) (line : A → list tk) l d
    (Q : post R) rest ns :
  (∀ x, x ∈ l → item_start (line x) = true) →
  (∀ x d (Q : post R) rest ns, x ∈ l →
    (∀ a, unplaced a = unplaced x → Q (mk (d ++ [a])) ((TokenNewline, nl) :: rest) ns) →
    wp (body (mk d)) Q (line x ++ rest) ns) →
  no_nl rest = true →
  (∀ d', unplaced d' = unplaced d ++ unplaced l → wp (items body (mk d')) Q rest ns) →
  wp (items body (mk d)) Q (text_of line l ++ rest) ns.
Proof.
  intros S B N W.
  apply (wp_items_text _ _
    (λ pre r, ∃ d', r = mk d' ∧ unplaced d' = unplaced d ++ unplaced pre)); [done | | done | |].
  - intros x pre r Q' rest' ns' I (d' & -> & E) q. apply B; [done|]. intros a Ea. apply q.
    exists (d' ++ [a]). split; [done|]. by rewrite !unplaced_app, E, unplaced_one, Ea, app_assoc.
  - exists d. by rewrite app_nil_r.
  - intros r (d' & -> & E). by apply W.
Qed.

(** The item of a part that may be absent. *)
Lemma wp_item_option {R A} `{Placed A} (body : R → P R) (mk : option A → R) (line : A → list tk) o
    (Q : post R) rest ns :
  (∀ x, o = Some x → item_start (line x) = true) →
  (∀ x (Q : post R) rest ns, o = Some x →
    (∀ a, unplaced a = unplaced x → Q (mk (Some a)) ((TokenNewline, nl) :: rest) ns) →
    wp (body (mk None)) Q (line x ++ rest) ns) →
  no_nl rest = true →
  (∀ o', unplaced o' = unplaced o → wp (items body (mk o')) Q rest ns) →
  wp (items body (mk None)) Q (match o with Some x => line x | None => silent end ++ rest) ns.
Proof.
  intros S B N W. destruct o as [x|]; [|by apply (W None)]. specialize (S x eq_refl).
  apply wp_items_next.
  { destruct (line x) as [|[T s] ts]; [discriminate S | exact S]. }
  apply B; [done|]. intros a E. eexists. split_and!; [done | done | |].
  { destruct (line x); [discriminate S|]. apply shorter_app. }
  apply W. change (Some (unplaced a) = Some (unplaced x)). by rewrite E.
Qed.

(** The same for a part that has no position. *)
Lemma wp_item_some {R A} (body : R → P R) (mk : option A → R) (line : A → list tk) o
    (Q : post R) rest ns :
  (∀ x, item body (mk None) (mk (Some x)) (line x)) →
  no_nl rest = true → wp (items body (mk o)) Q rest ns →
  wp (items body (mk None)) Q (match o with Some x => line x | None => silent end ++ rest) ns.
Proof. intros I N W. destruct o as [x|]; [|exact W]. by eapply wp_item; [apply I | |]. Qed.

(** The item of a list that is read as a block of its own. *)
Lemma wp_item_block {R A} `{Placed A} (body : R → P R) (mk : list A → R)
    (line : A → list A → list tk) (l : list A) (Q : post R) rest ns :
  (∀ x l', item_start (line x l') = true) →
  (∀ x l' (Q : post R) rest ns, l = x :: l' →
    (∀ r, unplaced r = unplaced (x :: l') → Q (mk r) ((TokenNewline, nl) :: rest) ns) →
    wp (body (mk [])) Q (line x l' ++ rest) ns) →
  no_nl rest = true →
  (∀ r, unplaced r = unplaced l → wp (items body (mk r)) Q rest ns) →
  wp (items body (mk [])) Q (match l with [] => silent | x :: l' => line x l' end ++ rest) ns.
Proof.
  intros S B N W. destruct l as [|x l]; [by apply (W [])|]. specialize (S x l).
  apply wp_items_next.
  { destruct (line x l) as [|[T s] ts]; [done | exact S]. }
  apply B; [done|]. intros r E. eexists. split_and!; [done | done | |by apply W].
  destruct (line x l); [done|]. apply shorter_app.
Qed.
End blocks.

(** The tokens at hand do not start with a newline. *)
Ltac tk_no_nl :=
  lazymatch goal with
  | |- no_nl ((put _ +++ _) ++ _) = true =>
      first [ reflexivity | apply no_nl_then_app; tk_no_nl ]
  | |- no_nl (put _ +++ put_s _ +++ _) = true =>
      first [ reflexivity | apply no_nl_word_line; [reflexivity | is_word] ]
  | |- no_nl (put _ +++ _) = true => first [ reflexivity | apply no_nl_then; tk_no_nl ]
  | |- no_nl ((_ +++ _) ++ _) = true => apply no_nl_then_app; tk_no_nl
  | |- no_nl (_ +++ _) = true => apply no_nl_then; tk_no_nl
  | |- no_nl (put _ ++ _) = true => reflexivity
  | |- no_nl (put _) = true => reflexivity
  | |- no_nl (_ ++ _) = true => apply no_nl_app; tk_no_nl
  | |- no_nl (match ?x with _ => _ end) = true => destruct x; tk_no_nl
  | |- no_nl (guarded _ _) = true => apply no_nl_guarded; tk_no_nl
  | |- no_nl (text_of _ _) = true => apply no_nl_text_of; intros; element_wf; cbv beta; tk_no_nl
  | |- no_nl (line_q _ _) = true => apply no_nl_line_q; reflexivity
  | |- no_nl (line_d _ _) = true => apply no_nl_line_d; reflexivity
  | |- no_nl (line_list _ _) = true => apply no_nl_line_list; reflexivity
  | |- no_nl (put_s _) = true => apply no_nl_word; is_word
  | |- no_nl (entries _ _) = true => apply no_nl_entries; [reflexivity | assumption]
  | |- no_nl (entry_block _ _ _) = true => apply no_nl_entry_block; reflexivity
  | |- no_nl ?x = true => first [ assumption | reflexivity | solve [eauto with no_nl nocore] ]
  end.

(** * Lists and maps *)

Section values.
Context `{GoRuntime}.

Lemma wp_braces_line {A} (inner : P A) (Q : post A) s (x ts : list tk) ns :
  no_nl (x ++ ts) = true →
  wp inner (λ a ts' ns', ∃ s' rest, ts' = (TokenRBrace, s') :: rest ∧ Q a rest ns')
    (x ++ ts) ns →
  wp (braces inner) Q ((TokenLBrace, s) :: (put nl +++ x) ++ ts) ns.
Proof.
  intros N W. apply wp_braces. rewrite tk_then. simpl. by rewrite (drop_nl_id _ N).
Qed.

Lemma wp_skip_none (Q : post unit) ts ns :
  no_nl ts = true → Q tt ts ns → wp skipNewlines Q ts ns.
Proof. intros N q. apply wp_skipNewlines. by rewrite (drop_nl_id _ N). Qed.

Lemma wp_skip_eol (Q : post unit) ts ns :
  no_nl ts = true → Q tt ts ns → wp skipNewlines Q ((TokenNewline, nl) :: ts) ns.
Proof. intros N q. apply wp_skipNewlines. simpl. by rewrite (drop_nl_id _ N). Qed.

Lemma wp_loop_close {A} (body : A → P (ctl A)) acc (Q : post A) s ts ns :
  Q acc ts ns →
  wp (block_loop body acc)
    (λ a ts' ns', ∃ s' rest, ts' = (TokenRBrace, s') :: rest ∧ Q a rest ns')
    ((TokenRBrace, s) :: ts) ns.
Proof. intros q. apply wp_block_loop_done; [done|]. by exists s, ts. Qed.

Lemma wp_items_close {A} (body : A → P A) acc (Q : post A) s ts ns :
  Q acc ts ns →
  wp (items body acc) (λ a ts' ns', ∃ s' rest, ts' = (TokenRBrace, s') :: rest ∧ Q a rest ns')
    ((TokenRBrace, s) :: ts) ns.
Proof. apply wp_loop_close. Qed.

Lemma wp_parseStringList l (Q : post (list string)) ts ns :
  Q l ts ns → wp parseStringList Q (bracketed l ++ ts) ns.
Proof.
  intros q. unfold bracketed, parseStringList. do 4 wp_step.
  assert (∀ l d, (∀ Q' : post (list string), Q' (d ++ l) ((TokenRBracket, "]") :: ts) ns →
    wp (while (λ p, negb (is_tok TokenRBracket p) && negb (at_end p))
          (λ items, ifelse (is_tok TokenComma) (next;; mret (Continue items))
                      (s ← expectString "list item"; mret (Continue (items ++ [s])))) d) Q'
      (separated (map put_q l) ++ (TokenRBracket, "]") :: ts) ns)) as L.
  { clear q. induction l0 as [|x l0 IH]; intros d Q' q.
    - rewrite app_nil_r in q. simpl map. unfold separated. wp. exact q.
    - destruct l0 as [|y l0].
      + simpl map. unfold separated. wp. exact q.
      + change (separated (map put_q (x :: y :: l0))) with
          (put_q x +++ put ", " +++ separated (map (put_q (W := list tk)) (y :: l0))).
        wp. apply IH. by rewrite <- app_assoc. }
  apply (L l []). cbn [app]. wp. exact q.
Qed.

Lemma sortedKeys_insert m :
  fold_left (λ d k, <[k := default "" (m !! k)]> d) (sortedKeys m) ∅ = m.
Proof.
  assert (∀ ks (d : gmap string string) k, fold_left (λ d k, <[k := default "" (m !! k)]> d) ks d !! k =
    if decide (k ∈ ks) then Some (default "" (m !! k)) else d !! k) as F.
  { induction ks as [|k1 ks IH]; intros d k; simpl.
    - done.
    - rewrite IH. destruct (decide (k ∈ ks)) as [I|NI]; destruct (decide (k ∈ k1 :: ks)) as [I'|NI'];
        try done.
      + destruct NI'. by right.
      + apply elem_of_cons in I' as [->|]; [by rewrite lookup_insert_eq | done].
      + rewrite lookup_insert_ne; [done|]. intros ->. destruct NI'. left. }
  apply map_eq. intros k. rewrite F. destruct (decide _) as [I|NI].
  - apply elem_of_sortedKeys in I as [v ->]. done.
  - rewrite lookup_empty. symmetry. apply eq_None_not_Some. by rewrite <- elem_of_sortedKeys.
Qed.

(** The entries of a map, which the block inserts one by one. *)
Lemma wp_item_entries {R} (body : R → P R) (mk : gmap string string → R) indent m
    (Q : post R) rest ns :
  text_tks indent = [] → plain_map m = true →
  (∀ k v d, m !! k = Some v →
    item body (mk d) (mk (<[k := v]> d)) (word k ++ [(TokenString, v); (TokenNewline, nl)])) →
  no_nl rest = true → wp (items body (mk m)) Q rest ns →
  wp (items body (mk ∅)) Q (entries indent m ++ rest) ns.
Proof.
  intros I P B N W. unfold entries. rewrite <- (sortedKeys_insert m) in W. revert W.
  assert (∀ k, k ∈ sortedKeys m → is_Some (m !! k)) as K by (intros; by apply elem_of_sortedKeys).
  revert K. generalize (∅ : gmap string string) as d.
  induction (sortedKeys m) as [|k ks IH]; intros d K W; [exact W|].
  destruct (K k) as [v E]; [left|]. rewrite tk_text_of_cons, E. simpl default.
  destruct (plain_map_lookup _ _ _ P E) as [Pk Pv].
  change (put indent +++ put_s k +++ put " " +++ put_q v +++ put nl)
    with (text_tks indent ++ text_tks k ++ [(TokenString, v); (TokenNewline, nl)]).
  rewrite I, (proj2 (readable_word k Pk)). cbn [app].
  eapply wp_item; [by apply B | | ].
  - apply no_nl_app; [|done]. apply no_nl_text_of. intros k' K'.
    destruct (K k') as [v' E']; [by right|]. apply no_nl_then; [simpl; by rewrite I|].
    apply no_nl_then; [|done]. apply no_nl_word. by destruct (plain_map_lookup _ _ _ P E').
  - apply IH; [intros; apply K; by right|]. simpl in W. by rewrite E in W.
Qed.

Lemma wp_parseMetadataBlock indent indent' m (Q : post (gmap string string)) s ts ns :
  text_tks indent = [] → text_tks indent' = [] → plain_map m = true →
  Q m ((TokenNewline, nl) :: ts) ns →
  wp (parseMetadataBlock ∅) Q
    ((TokenLBrace, s) :: (put nl +++ entries indent m +++ put indent' +++ put "}" +++ put nl) ++ ts)
    ns.
Proof.
  intros I I' P q. apply (wp_ifelse _ false); [intros p U; by rewrite is_tok_hd, U|].
  apply wp_braces_line.
  { apply no_nl_then_app; [by apply no_nl_entries|]. simpl. by rewrite I'. }
  rewrite tk_then. apply (wp_item_entries _ (λ d, d)); [done | done | | |].
  - intros k v d E. destruct (plain_map_lookup _ _ _ P E) as [Pk _]. split.
    + unfold item_start, no_nl. simpl. by rewrite !LookupKeyword_not.
    + intros Q' ? ? q'. unfold word. cbn [app]. wp. exact q'.
  - simpl. by rewrite I'.
  - simpl. rewrite I'. by apply wp_items_close.
Qed.

(** The same block as a line of another one. *)
Lemma wp_item_entry_block {A} (body : A → P A) acc acc' indent name m (Q : post A) rest ns :
  item body acc acc'
    (put indent +++ put_s name +++ put " {" +++ put nl +++ entries (indent +:+ "  ") m +++
     put indent +++ put "}" +++ put nl) →
  (m = ∅ → acc' = acc) → no_nl rest = true → wp (items body acc') Q rest ns →
  wp (items body acc) Q (entry_block indent name m ++ rest) ns.
Proof.
  intros Hi He. apply wp_item_guarded; [done|]. intros E. apply He, map_size_empty_iff.
  by destruct (size m).
Qed.
End values.

Ltac wp_more ::=
  lazymatch goal with
  | |- wp (block _ _) _ ((TokenLBrace, _) :: (_ +++ _) ++ _) _ =>
      apply wp_braces_line; [tk_no_nl |]
  | |- wp (block _ _) _ ((TokenLBrace, _) :: put nl ++ ?x ++ ?ts) _ =>
      rewrite <- (tk_then (put nl) x ts)
  | |- wp (braces _) _ ((TokenLBrace, _) :: (_ +++ _) ++ _) _ =>
      apply wp_braces_line; [tk_no_nl |]
  | |- wp (items _ _) _ ((TokenRBrace, _) :: _) _ => apply wp_items_close
  | |- wp (block_loop _ _) _ ((TokenRBrace, _) :: _) _ => apply wp_loop_close
  | |- wp parseStringList _ (bracketed _ ++ _) _ => apply wp_parseStringList
  | |- wp (parseMetadataBlock _) _ _ _ =>
      eapply wp_parseMetadataBlock; [reflexivity | reflexivity | assumption |]
  | |- wp skipNewlines _ _ _ =>
      first [apply wp_skip_eol; [tk_no_nl |] | apply wp_skip_none; [tk_no_nl |]]
  | |- wp (registerName _ _ _) _ _ _ => apply wp_registerName; [assumption |]
  end.


(** Run the body of an item on its tokens. *)
Ltac item :=
  split; [reflexivity |];
  let Q := fresh "Q" in
  let q := fresh "q" in
  intros Q ? ? q; wp; exact q.

(** The line of an empty field changes nothing. *)
Ltac same_acc :=
  let E := fresh "E" in
  intros E; try apply no_text in E; rewrite ?E; vm_compute; reflexivity.

(** The lines of a block, one after the other. *)
Ltac wp_items :=
  tk_head;
  lazymatch goal with
  | |- wp (items _ _) _ (line_q _ _ ++ _) _ =>
      eapply wp_item_q; [item | same_acc | tk_no_nl | wp_items]
  | |- wp (items _ _) _ (line_d _ _ ++ _) _ =>
      eapply wp_item_d; [item | apply an_int_nonneg; assumption | same_acc | tk_no_nl | wp_items]
  | |- wp (items _ _) _ (line_list _ _ ++ _) _ =>
      eapply wp_item_list; [item | same_acc | tk_no_nl | wp_items]
  | |- wp (items _ _) _ (entry_block _ _ _ ++ _) _ =>
      eapply wp_item_entry_block; [item | same_acc | tk_no_nl | wp_items]
  | |- wp (items _ _) _ ((TokenRBrace, _) :: _) _ => apply wp_items_close; wp
  | |- _ => idtac
  end.

(** The items of a list, appended to the field [field] of the block's record. *)
Ltac wp_each field :=
  tk_head;
  lazymatch goal with
  | |- wp (items ?body ?acc) ?Q (text_of ?line ?l ++ ?ts) ?ns =>
      change (wp (items body ((λ d, set_field field (λ _, d) acc) [])) Q
                (text_of line l ++ ts) ns);
      apply (wp_item_each body (λ d, set_field field (λ _, d) acc) line l []);
      [ intros ? ?; reflexivity
      | let x := fresh "x" in
        let Q' := fresh "Q" in
        let q := fresh "q" in
        intros x ? Q' ? ? ? q; revert q; generalize acc; intros ? q;
        element_wf; wp_line; try (apply q; placed x)
      | tk_no_nl
      | intros ? ?; cbv beta ]
  end.

(** The items of a list that the block itself gathers. *)
Ltac wp_gather :=
  tk_head;
  lazymatch goal with
  | |- wp (items ?body ?acc) ?Q (text_of ?line ?l ++ ?ts) ?ns =>
      apply (wp_item_each body (λ d, d) line l acc);
      [ intros ? ?; first [ reflexivity
                          | element_wf; apply item_start_word; [reflexivity | is_word] ]
      | let x := fresh "x" in
        let Q' := fresh "Q" in
        let q := fresh "q" in
        intros x ? Q' ? ? ? q; element_wf; wp_line; try (apply q; placed x)
      | tk_no_nl
      | intros ? ?; cbv beta ]
  end.

(** The item of a list in a block of its own, kept in the field [field]. *)
Ltac wp_block_field field :=
  tk_head;
  lazymatch goal with
  | |- wp (items ?body ?acc) ?Q (match ?l with [] => silent | x :: l' => @?line x l' end ++ ?ts)
         ?ns =>
      change (wp (items body ((λ d, set_field field (λ _, d) acc) [])) Q
                (match l with [] => silent | x :: l' => line x l' end ++ ts) ns);
      apply (wp_item_block body (λ d, set_field field (λ _, d) acc) line l);
      [ intros ? ?; reflexivity
      | let Q' := fresh "Q" in
        let E := fresh "E" in
        let q := fresh "q" in
        intros ? ? Q' ? ? E q; revert q; generalize acc; intros ? q; rewrite <- E in *; cbv beta;
         wp; wp_gather; wp; try (eapply q; eassumption)
      | tk_no_nl
      | intros ? ?; cbv beta ]
  end.

(** The item of an optional part, kept in the field [field]. *)
Ltac wp_option field :=
  tk_head;
  lazymatch goal with
  | |- wp (items ?body ?acc) ?Q (match ?o with Some x => @?line x | None => silent end ++ ?ts) ?ns =>
      change (wp (items body ((λ d, set_field field (λ _, d) acc) None)) Q
                (match o with Some x => line x | None => silent end ++ ts) ns);
      apply (wp_item_option body (λ d, set_field field (λ _, d) acc) line o);
      [ let E := fresh "E" in
        intros ? E; rewrite E in *; simpl opt_ok in *;
        first [reflexivity | solve [eauto 2 with no_nl nocore]]
      | let x := fresh "x" in
        let Q' := fresh "Q" in
        let E := fresh "E" in
        let q := fresh "q" in
        intros x Q' ? ? E q; revert q; generalize acc; intros ? q; cbv beta; rewrite ?E in *;
        repeat match goal with
          | W : opt_ok _ (Some _) = true |- _ =>
              simpl opt_ok in W; let W' := fresh "W" in pose proof W as W'; open_wf W'
          end;
        wp_line; try (apply q; placed x)
      | tk_no_nl
      | intros ? ?; cbv beta ]
  end.

(** A line that is present when the flag of the field [field] is set. *)
Ltac wp_flag field :=
  tk_head;
  lazymatch goal with
  | |- wp (items ?body ?acc) _ (guarded ?b _ ++ _) _ =>
      eapply (wp_item_guarded body acc (set_field field (λ _, b) acc));
      [ let E := fresh "E" in intros E; rewrite ?E; item
      | let E := fresh "E" in intros E; rewrite ?E; reflexivity
      | tk_no_nl
      | ]
  end.

(** The entries of the map in the field [field]. *)
Ltac wp_entries field :=
  tk_head;
  lazymatch goal with
  | |- wp (items ?body ?acc) ?Q (entries ?i ?m ++ ?ts) ?ns =>
      change (wp (items body ((λ d, set_field field (λ _, d) acc) ∅)) Q (entries i m ++ ts) ns);
      apply (wp_item_entries body (λ d, set_field field (λ _, d) acc) i m);
      [ reflexivity | assumption | | tk_no_nl | cbv beta ]
  end.

Lemma item_word {A} `{GoRuntime} (body : A → P A) acc acc' k v :
  (∀ (Q : post A) rest ns, Q acc' ((TokenNewline, nl) :: rest) ns →
    wp (body acc) Q
      ((LookupKeyword k, k) :: (TokenString, v) :: (TokenNewline, nl) :: rest) ns) →
  item body acc acc' (word k ++ [(TokenString, v); (TokenNewline, nl)]).
Proof.
  intros B. split; [|exact B]. unfold item_start, no_nl. simpl. by rewrite !LookupKeyword_not.
Qed.

Section statements.
Context `{GoRuntime}.

(** The rest of the line on which a statement ends. *)
Abbreviation eol ts := ((TokenNewline, nl) :: ts).

Lemma parses_Plugin p (Q : post Plugin) ts ns :
  (∀ p', unplaced p' = unplaced p → Q p' (eol ts) ns) →
  wp parsePlugin Q (formatPlugin p ++ ts) ns.
Proof. intros q. unfold formatPlugin, parsePlugin. wp_line; apply q; placed p. Qed.

Lemma parses_Import i (Q : post Import) ts ns :
  wf_Import i = true →
  (∀ i', unplaced i' = unplaced i → Q i' (eol ts) ns) →
  wp parseImportAsStmt Q (formatImport i ++ ts) ns.
Proof.
  intros W q. unfold wf_Import in W. split_wf. unfold formatImport, parseImportAsStmt.
  wp_line; apply q; placed i.
Qed.

Lemma parses_Package p (Q : post Package) ts ns :
  wf_Package p = true →
  (∀ p', unplaced p' = unplaced p → Q p' (eol ts) ns) →
  wp parsePackage Q (formatPackage p ++ ts) ns.
Proof.
  intros W q. unfold wf_Package in W. split_wf. unfold formatPackage, parsePackage.
  assert (∀ m (Q : post unit) ts ns, Q tt ts ns →
    wp (when (λ _, String.eqb (Package_LangVersion p) "1.0") m) Q ts ns) as V2.
  { intros m Q' ts' ns' q'. apply (wp_when _ false); [|by apply wp_ret].
    intros ? _. by apply negb_true_iff. }
  wp_line; try (apply V2; wp); apply q; placed p.
Qed.

Lemma parses_User u (Q : post User) ts ns :
  User_Name u ∉ default ∅ (ns !! "User") →
  (∀ u', unplaced u' = unplaced u → Q u' (eol ts) (add_name "User" (User_Name u) ns)) →
  wp parseUser Q (formatUser u ++ ts) ns.
Proof.
  intros N q. unfold formatUser, parseUser. wp; tk_head.
  eapply wp_item_guarded; [intros ?; item | same_acc | tk_no_nl |].
  wp_items. apply q. placed u.
Qed.

Lemma parses_Guardrail g (Q : post Guardrail) ts ns :
  Guardrail_Name g ∉ default ∅ (ns !! "Guardrail") →
  (∀ g', unplaced g' = unplaced g → Q g' (eol ts) (add_name "Guardrail" (Guardrail_Name g) ns)) →
  wp parseGuardrail Q (formatGuardrail g ++ ts) ns.
Proof.
  intros N q. unfold formatGuardrail, parseGuardrail. wp. wp_items. apply q. placed g.
Qed.

Lemma parses_MCPClient c (Q : post MCPClient) ts ns :
  wf_MCPClient c = true → MCPClient_Name c ∉ default ∅ (ns !! "MCPClient") →
  (∀ c', unplaced c' = unplaced c → Q c' (eol ts) (add_name "MCPClient" (MCPClient_Name c) ns)) →
  wp parseMCPClient Q (formatMCPClient c ++ ts) ns.
Proof.
  intros W N q. unfold wf_MCPClient in W. split_wf. unfold formatMCPClient, formatMetadata, parseMCPClient, parse_connects, parse_ref. wp.
  wp_each MCPClient_Servers.
  wp_items. apply q. placed c.
Qed.

Lemma parses_MCPServer s (Q : post MCPServer) ts ns :
  wf_MCPServer s = true → MCPServer_Name s ∉ default ∅ (ns !! "MCPServer") →
  (∀ s', unplaced s' = unplaced s → Q s' (eol ts) (add_name "MCPServer" (MCPServer_Name s) ns)) →
  wp parseMCPServer Q (formatMCPServer s ++ ts) ns.
Proof.
  intros W N q. unfold wf_MCPServer in W. split_wf.
  unfold formatMCPServer, formatMetadata, parseMCPServer, parse_ref. wp. wp_items.
  wp_option MCPServer_Auth. wp_each MCPServer_Skills. wp_items. apply q. placed s.
Qed.

Lemma parses_Secret s (Q : post Secret) ts ns :
  wf_Secret s = true → Secret_Name s ∉ default ∅ (ns !! "Secret") →
  (∀ s', unplaced s' = unplaced s → Q s' (eol ts) (add_name "Secret" (Secret_Name s) ns)) →
  wp parseSecret Q (formatSecret s ++ ts) ns.
Proof.
  intros W N q. unfold wf_Secret in W. split_wf. unfold formatSecret, parseSecret, parse_secret_key.
  wp. tk_head.
  destruct (String.eqb (Secret_Source s) "env") eqn:E; [|simpl in W; rewrite W];
    (eapply wp_item; [item | tk_no_nl | wp_items]); apply q; placed s.
Qed.

Lemma parses_Binding b (Q : post Binding) ts ns :
  wf_Binding b = true → Binding_Name b ∉ default ∅ (ns !! "Binding") →
  (∀ b', unplaced b' = unplaced b → Q b' (eol ts) (add_name "Binding" (Binding_Name b) ns)) →
  wp parseBinding Q (formatBinding b ++ ts) ns.
Proof.
  intros W N q. unfold wf_Binding in W. split_wf. unfold formatBinding, parseBinding.
  wp_line; (wp_flag Binding_Default; wp_entries Binding_Config;
    [|wp_items; apply q; placed b]);
    intros k v d E; apply item_word; intros Q' ? ? q';
    pose proof (forallb_elem _ _ (k, v) W ltac:(by apply elem_of_map_to_list)) as K;
    rewrite andb_true_iff, !negb_true_iff in K; destruct K as [K1 K2];
    pose proof (LookupKeyword_only "default" TokenDefault k eq_refl eq_refl K1);
    pose proof (LookupKeyword_only "adapter" TokenAdapter k eq_refl eq_refl K2);
    wp; exact q'.
Qed.
End statements.
