(* ===== verification/FormatStmts.v ===== *)
(** The statements of a formatted file, apart from agents, are parsed back:
    a lemma [parses_*] for each kind of statement not in FormatParse.v. *)
From S2P Require Import Prelude GoStd Ast Token Lexer LexText ParserCore Parser ParserWp Formatter FormatText FormatWf FormatParse.
Open Scope Z_scope.

Section statements.
Context `{GoRuntime}.

(** The rest of the line on which a statement ends. *)
Abbreviation eol ts := ((TokenNewline, nl) :: ts).

(** The first three writes of a sequence as one line. *)
Lemma tk_line (a b c d ts : list tk) :
  (a +++ b +++ c +++ d) ++ ts = (a +++ b +++ c) ++ d ++ ts.
Proof. rewrite !tk_then. done. Qed.

Lemma parses_StateConfig s (Q : post StateConfig) ts ns :
  wf_StateConfig s = true →
  (∀ s', unplaced s' = unplaced s → Q s' (eol ts) ns) →
  wp parseState Q (formatStateConfig s ++ ts) ns.
Proof.
  intros W q. unfold wf_StateConfig in W. split_wf. unfold formatStateConfig, parseState.
  destruct (nonempty (StateConfig_Name s)) eqn:E;
    wp; rewrite tk_line;
    (eapply wp_item; [item | tk_no_nl |];
     wp_entries StateConfig_Properties; [|wp_items; apply q; placed s]);
    intros k v d Ek; apply item_word; intros Q' ? ? q';
    pose proof (forallb_elem _ _ (k, v) W ltac:(by apply elem_of_map_to_list)) as K;
    apply negb_true_iff in K;
    pose proof (LookupKeyword_only "type" TokenTypeKw k eq_refl eq_refl K);
    wp; exact q'.
Qed.
Lemma parses_Prompt p (Q : post Prompt) ts ns :
  wf_Prompt p = true → Prompt_Name p ∉ default ∅ (ns !! "Prompt") →
  (∀ p', unplaced p' = unplaced p → Q p' (eol ts) (add_name "Prompt" (Prompt_Name p) ns)) →
  wp parsePrompt Q (formatPrompt p ++ ts) ns.
Proof.
  intros W N q. unfold wf_Prompt in W. split_wf.
  unfold formatPrompt, formatMetadata, parsePrompt, parseVariablesBlock, parse_modifiers.
  wp. wp_items. wp_block_field Prompt_Variables. wp_items. apply q. placed p.
Qed.

(** The tool line or block of a skill. *)
Lemma no_nl_ToolConfig tc : no_nl (formatToolConfig tc : list tk) = true.
Proof. unfold formatToolConfig. by repeat case_match. Qed.
#[local] Hint Resolve no_nl_ToolConfig : no_nl.

Lemma ToolConfig_tokens tc :
  wf_ToolConfig tc = true → ∃ l, (formatToolConfig tc : list tk) = ((TokenTool, "tool") : tk) :: l.
Proof.
  intros W. unfold wf_ToolConfig in W. split_wf. unfold formatToolConfig.
  repeat match goal with
    | |- context [String.eqb ?x ?y] => destruct (String.eqb x y); [by eexists|]
    end.
  done.
Qed.

Lemma item_start_ToolConfig tc :
  wf_ToolConfig tc = true → item_start (formatToolConfig tc : list tk) = true.
Proof. intros W. by destruct (ToolConfig_tokens tc W) as [l ->]. Qed.
#[local] Hint Resolve item_start_ToolConfig : no_nl.

(** What [wf_ToolConfig] says of a tool of the kind [E]. *)
Ltac tool_kind E :=
  repeat match goal with
    | W : context [String.eqb (ToolConfig_Type _) _] |- _ =>
        rewrite E in W; cbn [String.eqb Ascii.eqb Bool.eqb] in W
    | W : context [negb true || _] |- _ => change (negb true) with false in W
    | W : context [false || _] |- _ => rewrite orb_false_l in W
    end;
  split_wf.

Lemma parses_ToolConfig {A} tc (k : ToolConfig → P A) (Q : post A) ts ns :
  wf_ToolConfig tc = true →
  (∀ tc', unplaced tc' = unplaced tc → wp (k tc') Q (eol ts) ns) →
  wp (next;; tc ← parseToolConfig; k tc) Q (formatToolConfig tc ++ ts) ns.
Proof.
  intros W q. unfold wf_ToolConfig in W. split_wf.
  unfold formatToolConfig, parseToolConfig, parse_tool_http, parse_tool_command, parse_tool_inline.
  destruct (String.eqb_spec (ToolConfig_Type tc) "mcp") as [E|].
  { tool_kind E. wp. apply q. placed tc. }
  destruct (String.eqb_spec (ToolConfig_Type tc) "http") as [E|].
  { tool_kind E. wp. wp_items. apply q. placed tc. }
  destruct (String.eqb_spec (ToolConfig_Type tc) "command") as [E|].
  { tool_kind E. wp. wp_items. apply q. placed tc. }
  destruct (String.eqb_spec (ToolConfig_Type tc) "inline") as [E|]; [|done].
  { tool_kind E. wp. wp_items. apply q. placed tc. }
Qed.

Lemma parses_Skill s (Q : post Skill) ts ns :
  wf_Skill s = true → Skill_Name s ∉ default ∅ (ns !! "Skill") →
  (∀ s', unplaced s' = unplaced s → Q s' (eol ts) (add_name "Skill" (Skill_Name s) ns)) →
  wp parseSkill Q (formatSkill s ++ ts) ns.
Proof.
  intros W N q. unfold wf_Skill in W. split_wf.
  unfold formatSkill, formatMetadata, field_block, parseSkill, parseFieldBlock, parseExecution.
  wp. wp_items. 
  wp_block_field Skill_Input. wp_block_field Skill_Output.
  wp_option Skill_Execution.
  wp_option Skill_ToolConfig.
  { destruct (ToolConfig_tokens x H0) as [l El]. unfold tk in *. rewrite El. cbn [app]. do 5 wp_step.
    change ((TokenTool, "tool") :: l ++ rest) with (((TokenTool, "tool") :: l) ++ rest).
    rewrite <- El. apply parses_ToolConfig; [done|]. intros tc' E'. wp. by apply q0. }
  wp_items. apply q. placed s.
Qed.
(** The rounds of a loop whose rounds end before a token that [ok] accepts. *)
Lemma wp_loop_each {A} `{Placed A} (ok : list tk → Prop) (body : list A → P (ctl (list A)))
    (line : A → list tk) l d (Q : post (list A)) rest ns :
  (∀ x, x ∈ l → item_start (line x) = true) → (∀ x r, x ∈ l → ok (line x ++ r)) →
  (∀ x d (Q : post (ctl (list A))) rest ns, x ∈ l → ok rest →
    (∀ a, unplaced a = unplaced x → Q (Continue (d ++ [a])) rest ns) →
    wp (body d) Q (line x ++ rest) ns) →
  ok rest →
  (∀ d', unplaced d' = unplaced d ++ unplaced l → wp (block_loop body d') Q rest ns) →
  wp (block_loop body d) Q (text_of line l ++ rest) ns.
Proof.
  revert d. induction l as [|x l IH]; intros d S O B N W.
  - apply W. by rewrite app_nil_r.
  - specialize (S x ltac:(left)) as Sx. rewrite tk_text_of_cons.
    apply wp_block_loop_next.
    { destruct (line x) as [|[T s] ts]; [discriminate Sx | exact Sx]. }
    apply B; [left | |].
    { destruct l as [|y l]; [done|]. rewrite tk_text_of_cons. apply O. right. left. }
    intros a E. split.
    { destruct (line x); [discriminate Sx|]. apply shorter_app. }
    apply IH; [intros; apply S; by right | intros; apply O; by right |
               intros; apply B; [by right | done..] | done |].
    intros d' E'. apply W. rewrite E'.
    by rewrite unplaced_app, unplaced_one, E, <- app_assoc.
Qed.

Lemma wp_rule_parts l (Q : post (list string)) ts ns :
  forallb (λ t, name_type t.1) l = true → Q (map snd l) (eol ts) ns →
  wp parse_rule_parts Q (l ++ eol ts) ns.
Proof.
  unfold parse_rule_parts. intros W q. change (map snd l) with ([] ++ map snd l) in q.
  revert q. match goal with |- context [while _ ?b _] => set (body := b) end.
  generalize (@nil string) as d. induction l as [|[T s] l IH]; intros d q.
  - rewrite app_nil_r in q. wp. exact q.
  - simpl in W. apply andb_true_iff in W as [T1 W]. cbn [app].
    assert (∀ t, name_type t = false → token_eqb T t = false) as NT.
    { intros t Nt. destruct (token_eqb T t) eqn:E; [|done]. apply token_eqb_eq in E.
      by rewrite <- E, T1 in Nt. }
    apply wp_while_step.
    { intros p U. unfold at_end. by rewrite !is_tok_hd, U; cbn [hd_type]; rewrite !NT. }
    unfold body. wp. apply IH; [done|]. by rewrite <- app_assoc.
Qed.

(** The tokens of a rule. *)
Abbreviation rule_line r :=
  (put "  " +++ put_s (Rule_Action r) +++ put " " +++ put_s (Rule_Resource r) +++
   guarded (nonempty (Rule_Subject r)) (put " " +++ put_s (Rule_Subject r)) +++ put nl).

Lemma rule_tokens r (ts : list tk) :
  wf_Rule r = true →
  ∃ l : list tk, @app tk (rule_line r) ts =
         (LookupKeyword (Rule_Action r), Rule_Action r) ::
         ((LookupKeyword (Rule_Resource r), Rule_Resource r) :: l) ++ eol ts ∧
       forallb (λ t, name_type t.1) l = true ∧ Join (map snd l) " " = Rule_Subject r.
Proof.
  unfold wf_Rule, wf_subject. intros W. split_wf.
  exists (text_tks (Rule_Subject r)). split_and!; [|done|by apply String.eqb_eq].
  rewrite !tk_then. change (put "  " ++ ?x) with x. change (put " " ++ ?x) with x.
  rewrite !tk_word by is_word. cbn [app]. do 2 f_equal.
  unfold guarded, nonempty. destruct (String.eqb_spec (Rule_Subject r) "") as [->|]; [done|].
  cbn [negb]. by rewrite tk_then.
Qed.

Ltac keyword :=
  lazymatch goal with
  | |- context [LookupKeyword (String ?c ?w)] =>
      let T := eval vm_compute in (LookupKeyword (String c w)) in
      change (LookupKeyword (String c w)) with T
  end.

Lemma parses_Policy p (Q : post Policy) ts ns :
  wf_Policy p = true → Policy_Name p ∉ default ∅ (ns !! "Policy") →
  (∀ p', unplaced p' = unplaced p → Q p' (eol ts) (add_name "Policy" (Policy_Name p) ns)) →
  wp parsePolicy Q (formatPolicy p ++ ts) ns.
Proof.
  intros W N q. unfold wf_Policy in W. split_wf. unfold formatPolicy, parsePolicy.
  wp. tk_head. apply (wp_loop_each (λ r, no_nl r = true)).
  - intros r I. element_wf. apply item_start_word; [done | is_word].
  - intros r ts' I. pose proof (forallb_elem _ _ _ W I) as Wr.
    destruct (rule_tokens r ts' Wr) as (l & E & _). unfold tk in *. rewrite E. unfold no_nl. cbn [hd_type].
    by rewrite LookupKeyword_not.
  - intros r d Q' rest ns' I N' q'. pose proof (forallb_elem _ _ _ W I) as Wr.
    destruct (rule_tokens r rest Wr) as (l & E & Wl & J). unfold tk in *. rewrite E. unfold wf_Rule in Wr. split_wf.
    rewrite !orb_true_iff, !String.eqb_eq in H2.
    destruct H2 as [[Ea|Ea]|Ea]; rewrite Ea;
      keyword; wp; apply (wp_rule_parts (_ :: l)); try (by cbn [forallb fst]; rewrite LookupKeyword_name);
      cbn [map snd head tail default]; wp; apply q'; rewrite J; placed r.
  - done.
  - intros d' E. wp. apply q. placed p.
Qed.
Lemma parses_TypeDef t (Q : post TypeDef) ts ns :
  wf_TypeDef t = true → TypeDef_Name t ∉ default ∅ (ns !! "Type") →
  (∀ t', unplaced t' = unplaced t → Q t' (eol ts) (add_name "Type" (TypeDef_Name t) ns)) →
  wp parseTypeDef Q (formatTypeDef t ++ ts) ns.
Proof.
  intros W N q. unfold wf_TypeDef in W. split_wf.
  unfold formatTypeDef, parseTypeDef, parse_modifiers.
  destruct (TypeDef_EnumVals t) eqn:E.
  - destruct (nonempty (TypeDef_ListOf t)) eqn:L.
    + pose proof (optional_word _ H1 L). unfold nonempty in L. unfold empty_string in W.
      apply negb_true_iff in L. rewrite L in W. cbn [is_empty andb orb] in W.
      wp. apply q. placed t.
    + wp. wp_gather. wp. apply q. apply no_text in L. placed t.
  - simpl in H0. simpl in W. wp. apply q. placed t.
Qed.

Lemma parses_Pipeline p (Q : post Pipeline) ts ns :
  wf_Pipeline p = true → Pipeline_Name p ∉ default ∅ (ns !! "Pipeline") →
  (∀ p', unplaced p' = unplaced p → Q p' (eol ts) (add_name "Pipeline" (Pipeline_Name p) ns)) →
  wp parsePipeline Q (formatPipeline p ++ ts) ns.
Proof.
  intros W N q. unfold wf_Pipeline in W. split_wf.
  unfold formatPipeline, parsePipeline, parsePipelineStep.
  wp. wp_gather.
  - wp_items. wp_flag PipelineStep_Parallel. wp_items. apply q0. placed x.
  - wp. apply q. placed p.
Qed.

Lemma parses_DeployTarget d (Q : post DeployTarget) ts ns :
  wf_DeployTarget d = true → DeployTarget_Name d ∉ default ∅ (ns !! "DeployTarget") →
  (∀ d', unplaced d' = unplaced d →
     Q d' (eol ts) (add_name "DeployTarget" (DeployTarget_Name d) ns)) →
  wp parseDeployTarget Q (formatDeployTarget d ++ ts) ns.
Proof.
  intros W N q. unfold wf_DeployTarget in W. split_wf.
  unfold formatDeployTarget, parseDeployTarget, parseResourceLimits, parseHealthConfig,
    parseAutoscaleConfig.
  wp. wp_items. wp_flag DeployTarget_Default. wp_items.
  wp_option DeployTarget_Resources.
  { wp_items. apply q0. placed x. }
  wp_option DeployTarget_Health.
  { wp_items. apply q0. placed x. }
  wp_option DeployTarget_Autoscale.
  { wp_items. apply q0. placed x. }
  wp_items. apply q. placed d.
Qed.
(** The group of a resource adds its overrides. *)
Lemma group_resource groups order os res o :
  group_overrides os = (groups, order) → o ∈ overrides_of groups res → Override_Resource o = res.
Proof. intros G I. by apply (group_overrides_spec _ _ _ G) in I as [_ E]. Qed.

Lemma wf_resource_split res :
  wf_resource res = true →
  ∃ kind name, SplitN2 res "/" = [kind; name] ∧ plain_word kind = true ∧
               kind +:+ "/" +:+ name = res.
Proof.
  unfold wf_resource. destruct (SplitN2 res "/") as [|kind [|name [|]]]; try done.
  intros W. split_wf. exists kind, name. split_and!; [done | done | by apply String.eqb_eq].
Qed.

Lemma item_start_then (a b : list tk) : item_start a = true → item_start (a +++ b) = true.
Proof. by destruct a as [|[T s] a]. Qed.

Lemma item_start_group groups res :
  wf_resource res = true → item_start (format_group groups res : list tk) = true.
Proof.
  intros W. destruct (wf_resource_split res W) as (kind & name & S & K & _).
  unfold format_group. rewrite S. by apply item_start_then, item_start_word.
Qed.

Lemma parses_Environment e (Q : post Environment) ts ns :
  wf_Environment e = true → Environment_Name e ∉ default ∅ (ns !! "Environment") →
  (∀ e', unplaced e' = unplaced e →
     Q e' (eol ts) (add_name "Environment" (Environment_Name e) ns)) →
  wp parseEnvironment Q (formatEnvironment e ++ ts) ns.
Proof.
  intros W N q. unfold wf_Environment in W. unfold formatEnvironment, parseEnvironment.
  destruct (group_overrides _) as [groups order] eqn:G. split_wf. apply bool_decide_eq_true_1 in W.
  assert (∀ res, res ∈ order → item_start (format_group groups res : list tk) = true) as S.
  { intros res I. apply item_start_group. by eapply forallb_elem. }
  wp. apply wp_braces_line.
  { apply no_nl_then_app; [|done]. apply no_nl_text_of. intros res I. specialize (S res I).
    unfold item_start in S. by apply andb_true_iff in S as [_ S]. }
  tk_head. apply (wp_items_text _ _
    (λ pre os, unplaced os = unplaced (mjoin (map (overrides_of groups) pre)))); [done | | done.. |].
  - intros res pre os Q' rest ns' I E q'.
    destruct (wf_resource_split res (forallb_elem _ _ _ H0 I)) as (kind & name & Sp & K & R).
    unfold format_group. rewrite Sp.
    assert (forallb wf_Override (overrides_of groups res) = true) as Wo.
    { apply forallb_forall. intros o Io. apply list_elem_of_In in Io.
      apply (group_overrides_spec _ _ _ G) in Io as [Io _]. by apply (forallb_elem _ _ _ H1). }
    change (default [] (groups !! res)) with (overrides_of groups res). wp. tk_head.
    apply (wp_item_each _ (λ d, d)).
    + intros o Io. element_wf. apply item_start_word; [done | is_word].
    + intros o d Q2 ? ? Io q2. pose proof (group_resource _ _ _ _ _ G Io) as Ro. element_wf.
      wp. apply q2. rewrite R, <- Ro. by destruct o.
    + done.
    + intros os' E'. wp. apply q'. rewrite E', E, map_app, <- unplaced_app. f_equal.
      by rewrite join_app; simpl; rewrite app_nil_r.
  - intros os E. wp. apply q. destruct e. simpl in W. rewrite W in E. unfold unplaced, placed_Environment. simpl. by rewrite E.
Qed.
End statements.
