(* ===== verification/FormatAgent.v ===== *)
(** A formatted agent is parsed back, block by block. *)
From S2P Require Import Prelude GoStd Ast Token Lexer LexText ParserCore Parser ParserWp Formatter FormatText FormatWf FormatParse FormatStmts.
Open Scope Z_scope.

Section agents.
Context `{GoRuntime}.

Abbreviation eol ts := ((TokenNewline, nl) :: ts).

(** * Configuration *)

Definition no_string (ts : list tk) : Prop :=
  no_nl ts = true ∧ token_eqb (hd_type ts) TokenString = false.

Lemma config_line i j w (x : list tk) :
  text_tks i = [] → text_tks j = [] → plain_word w = true →
  (put i +++ put j +++ put_s w +++ x : list tk) = ((LookupKeyword w, w) : tk) :: x.
Proof.
  intros I J W. change (text_tks i ++ text_tks j ++ (put_s w ++ x) =
    ((LookupKeyword w, w) : tk) :: x). by rewrite I, J, tk_word.
Qed.

(** The line of a string that may be empty, in front of a line that does not
    start with a string. *)
Lemma wp_maybe_string {A} i s (m1 m2 : P A) (Q : post A) rest ns :
  text_tks i = [] → no_string rest →
  (nonempty s = true → wp m1 Q ((TokenString, s) :: eol rest) ns) →
  (nonempty s = false → wp m2 Q rest ns) →
  wp (ifelse (is_tok TokenString) m1 m2) Q (line_q i s ++ rest) ns.
Proof.
  intros I [_ S] W1 W2. unfold line_q. destruct (nonempty s).
  - change (wp (ifelse (is_tok TokenString) m1 m2) Q
      ((text_tks i ++ (TokenString, s) :: [(TokenNewline, nl)]) ++ rest) ns). rewrite I.
    apply (wp_ifelse _ true); [intros p U; by rewrite is_tok_hd, U | by apply W1].
  - apply (wp_ifelse _ false); [|by apply W2]. intros p U. change (upcoming p = rest) in U.
    by rewrite is_tok_hd, U, S.
Qed.

Lemma parses_config {A} l (k : list ConfigParam → P A) (Q : post A) ts ns :
  forallb wf_ConfigParam l = true →
  (∀ l', unplaced l' = unplaced l → wp (k l') Q (eol ts) ns) →
  wp (next;; l ← parseConfigBlock; k l) Q (formatConfigBlock l "  " ++ ts) ns.
Proof.
  intros W q. unfold formatConfigBlock, parseConfigBlock. wp.
  unfold items. tk_head. apply (wp_loop_each no_string).
  - intros p I. element_wf. rewrite config_line by done. unfold item_start, no_nl.
    cbn [hd_type]. by rewrite !LookupKeyword_not.
  - intros p r I. element_wf. rewrite config_line by done. unfold no_string, no_nl.
    cbn [app hd_type]. by rewrite !LookupKeyword_not.
  - intros p d Q' rest ns' I [N S] q'. element_wf.
    wp_line; (apply wp_maybe_string; [done | done | |]; intros D; wp; apply q'; placed p).
  - split; done.
  - intros l' E. wp. by apply q.
Qed.

(** * Validation *)

(** The expression of a rule, up to the next rule or the end of the block. *)
Definition rule_end (ts : list tk) : Prop :=
  hd_type ts = TokenRule ∨ hd_type ts = TokenRBrace.

Lemma rule_end_no_string ts : rule_end ts → no_string ts.
Proof. unfold rule_end, no_string, no_nl. by intros [-> | ->]. Qed.

Lemma collect_part_tk tok parts :
  collect_part tok parts = collect_part (mkToken (Token_Type tok) (Token_Literal tok) "" 0 0) parts.
Proof. done. Qed.

Lemma wp_collectExpression l (Q : post string) rest ns :
  forallb in_expression l = true → rule_end rest →
  Q (collected l) rest ns →
  wp (collectExpressionUntil [TokenRule; TokenRBrace]) Q (l ++ eol rest) ns.
Proof.
  intros W R q. unfold collectExpressionUntil, collected in *. apply wp_bind.
  set (body := λ parts, ifelse (is_tok TokenNewline) (next;; mret (Continue parts)) _).
  set (Q1 := λ a : list string, wp (mret (TrimSpace (Join a " "))) Q).
  assert (∀ d, Q1 (fold_left (λ parts t, collect_part (mkToken t.1 t.2 "" 0 0) parts) l d) rest ns →
    wp (while (λ p, negb (at_end p) && negb (isStopToken [TokenRule; TokenRBrace] p)) body d) Q1
      (l ++ eol rest) ns) as L.
  { clear q. induction l as [|[T s] l IH]; intros d q.
    - apply wp_while_step.
      { intros p U. unfold at_end, isStopToken. simpl. by rewrite !is_tok_hd, U. }
      unfold body. wp. apply wp_while_stop; [|done].
      intros p U. unfold at_end, isStopToken. simpl. rewrite !is_tok_hd, U.
      by destruct R as [-> | ->].
    - simpl in W. apply andb_true_iff in W as [T1 W].
      unfold in_expression in T1. cbn [fst] in T1. rewrite !andb_true_iff, !negb_true_iff in T1.
      destruct T1 as [[[T1 T2] T3] T4].
      cbn [app]. apply wp_while_step.
      { intros p U. unfold at_end, isStopToken. simpl. rewrite !is_tok_hd, U. cbn [hd_type].
        by rewrite T1, T2, T3. }
      unfold body. apply (wp_ifelse _ false).
      { intros p U. by rewrite is_tok_hd, U. }
      apply wp_bind, wp_reads. intros p U.
      destruct (current_upcoming _ _ _ _ U) as [E1 E2].
      wp. apply IH; [done|]. rewrite collect_part_tk, E1, E2. exact q. }
  apply L. by apply wp_ret.
Qed.

(** The line of the expression, when there is one. *)
Abbreviation when_line s :=
  (guarded (nonempty s) (put "  " +++ put "    when " +++ put_s s +++ put nl)).

Lemma no_string_when s ts : rule_end ts → no_string (when_line s ++ ts).
Proof. intros R. destruct (nonempty s); [done | by apply rule_end_no_string]. Qed.

Lemma wp_expression s (Q : post string) rest ns :
  wf_expression s = true → rule_end rest → Q s rest ns →
  wp (ifelse (is_tok TokenWhen) (next;; collectExpressionUntil [TokenRule; TokenRBrace]) (mret ""))
    Q (when_line s ++ rest) ns.
Proof.
  intros W R q. unfold wf_expression in W. split_wf. apply String.eqb_eq in W.
  destruct (nonempty s) eqn:E.
  - wp. rewrite tk_then. change (put_s s ++ put nl ++ rest) with (text_tks s ++ eol rest).
    apply wp_collectExpression; [done | done | by rewrite W].
  - apply no_text in E as ->. apply (wp_ifelse _ false); [|by apply wp_ret].
    intros p U. change (upcoming p = rest) in U. rewrite is_tok_hd, U. by destruct R as [-> | ->].
Qed.

Lemma parses_validate {A} l (k : list ValidationRule → P A) (Q : post A) ts ns :
  forallb wf_ValidationRule l = true →
  (∀ l', unplaced l' = unplaced l → wp (k l') Q (eol ts) ns) →
  wp (next;; l ← parseValidateBlock; k l) Q (formatValidateBlock l "  " ++ ts) ns.
Proof.
  intros W q. unfold formatValidateBlock, parseValidateBlock. wp. tk_head.
  apply (wp_loop_each rule_end).
  - done.
  - intros r ts' I. by left.
  - intros r d Q' rest ns' I R q'. pose proof (rule_end_no_string _ R) as [N _]. element_wf.
    wp_line; (apply wp_maybe_string; [done | by apply no_string_when | |]; intros M; wp;
      (apply wp_expression; [done | done |]); wp; apply q'; placed r).
  - by right.
  - intros l' E. wp. by apply q.
Qed.
(** * Evaluation *)

(** The token after a case. *)
Definition case_end (ts : list tk) : Prop :=
  hd_type ts = TokenCase ∨ hd_type ts = TokenRBrace.

Lemma case_end_no_nl ts : case_end ts → no_nl ts = true.
Proof. unfold case_end, no_nl. by intros [-> | ->]. Qed.

Lemma eval_stop ec (Q : post EvalCase) ts ns :
  case_end ts → Q ec ts ns → wp (parse_eval_case ec) Q ts ns.
Proof.
  intros R q. apply wp_while_stop; [|done]. intros p U. unfold at_end.
  rewrite !is_tok_hd, U. by destruct R as [-> | ->].
Qed.

Lemma eval_tags ec tags (Q : post EvalCase) ts ns :
  EvalCase_Tags ec = [] → case_end ts → Q (ec <| EvalCase_Tags := tags |>) ts ns →
  wp (parse_eval_case ec) Q (line_list ("  " +:+ "    tags ") tags ++ ts) ns.
Proof.
  intros T R q. pose proof (case_end_no_nl _ R) as N. destruct tags as [|t tags].
  - apply eval_stop; [done|]. destruct ec. simpl in *. by subst.
  - unfold line_list, parse_eval_case. wp. by apply eval_stop.
Qed.

(** A threshold is the default, or it is written. *)
Lemma threshold_cases c :
  bool_decide (EvalCase_Threshold c = default_threshold)
  || negb (empty_string (EvalCase_Scoring c)) &&
     negb (float_eq (EvalCase_Threshold c) default_threshold) &&
     float_prints (EvalCase_Threshold c) = true →
  EvalCase_Threshold c = default_threshold ∧
    negb (float_eq (EvalCase_Threshold c) default_threshold) = false ∨
  nonempty (EvalCase_Scoring c) = true ∧
    negb (float_eq (EvalCase_Threshold c) default_threshold) = true ∧
    float_prints (EvalCase_Threshold c) = true.
Proof.
  destruct (bool_decide_reflect (EvalCase_Threshold c = default_threshold)) as [->|_].
  - by left.
  - cbn [orb]. intros W. split_wf. by right.
Qed.

Lemma parses_eval {A} l (k : list EvalCase → P A) (Q : post A) ts ns :
  forallb wf_EvalCase l = true →
  (∀ l', unplaced l' = unplaced l → wp (k l') Q (eol ts) ns) →
  wp (next;; l ← parseEvalBlock; k l) Q (formatEvalBlock l "  " ++ ts) ns.
Proof.
  intros W q. unfold formatEvalBlock, parseEvalBlock, parse_eval_case. wp. tk_head.
  apply (wp_loop_each case_end).
  - done.
  - intros r ts' I. by left.
  - intros c d Q' rest ns' I R q'. pose proof (case_end_no_nl _ R) as N. element_wf.
    destruct (threshold_cases c W0) as [[T F]|(E & F & P)].
    + rewrite F. destruct (nonempty (EvalCase_Scoring c)) eqn:E; wp;
        (apply eval_tags; [done | done |]); wp; apply q'; placed c.
    + rewrite E, F. wp. apply eval_tags; [done | done |]. wp. apply q'. placed c.
  - by right.
  - intros l' E. wp. by apply q.
Qed.
(** * Agents *)

Lemma budget_cases b :
  wf_budget b = true →
  (float_lt float_zero b = true → float_prints b = true) ∧
  (float_lt float_zero b = false → b = float_zero).
Proof.
  intros W. split; [by apply prints_budget|]. unfold wf_budget in W. intros L. rewrite L in W.
  cbn [andb] in W. rewrite orb_false_r in W. by apply bool_decide_eq_true_1 in W.
Qed.

(** The case of the switch that the first token of a line selects. *)
Ltac wp_arm :=
  repeat first
    [ apply (wp_switch_cons _ true); [solve [intros p U; rewrite is_tok_hd, U; reflexivity] |]
    | apply (wp_switch_cons _ false); [solve [intros p U; rewrite is_tok_hd, U; reflexivity] |] ];
  cbn iota.

(** A block of the agent, kept in the field [field]. *)
Ltac wp_some_block field parses :=
  tk_head;
  lazymatch goal with
  | |- wp (items ?body ?acc) ?Q (match ?l with [] => silent | _ :: _ => ?line end ++ ?ts) ?ns =>
      change (wp (items body ((λ d, set_field field (λ _, d) acc) [])) Q
                (match l with [] => silent | _ :: _ => line end ++ ts) ns);
      apply (wp_item_block body (λ d, set_field field (λ _, d) acc) (λ _ _, line) l);
      [ intros ? ?; reflexivity
      | let E := fresh "E" in
        let q := fresh "q" in
        intros ? ? ? ? ? E q; revert q; generalize acc; intros ? q; cbv beta;
        unfold parse_agent_item; wp_arm;
        apply parses; [assumption |]; intros ? ?; wp; apply q; rewrite <- E; assumption
      | tk_no_nl
      | intros ? ?; cbv beta ]
  end.

(** The line of a positive budget, kept in the field [field]. *)
Ltac wp_float field cases :=
  tk_head;
  lazymatch goal with
  | |- wp (items ?body ?acc) _ (guarded (float_lt _ ?f) _ ++ _) _ =>
      let P := fresh "P" in
      let Z := fresh "Z" in
      let E := fresh "E" in
      destruct cases as [P Z];
      eapply (wp_item_guarded body acc (set_field field (λ _, f) acc));
      [ intros E; specialize (P E); item
      | intros E; rewrite (Z E); vm_compute; reflexivity
      | tk_no_nl
      | ]
  end.

(** The items of a list of strings, appended to the field [field]. *)
Ltac wp_strings field :=
  tk_head;
  lazymatch goal with
  | |- wp (items ?body ?acc) ?Q (text_of ?line ?l ++ ?ts) ?ns =>
      change (wp (items body ((λ d, set_field field (λ _, d) acc) [])) Q
                (text_of line l ++ ts) ns);
      apply (wp_items_text body line (λ pre r, r = (λ d, set_field field (λ _, d) acc) pre));
      [ intros ? ?; reflexivity
      | let q := fresh "q" in
        intros ? ? ? ? ? ? ? -> q; cbv beta; revert q; generalize acc; intros [] q; wp; apply q; reflexivity
      | tk_no_nl
      | reflexivity
      | intros ? ->; cbv beta ]
  end.

(** The line of an optional flag, kept in the field [field]. *)
Ltac wp_some_flag field :=
  tk_head;
  lazymatch goal with
  | |- wp (items ?body ?acc) ?Q (match ?o with Some x => @?line x | None => silent end ++ ?ts) ?ns =>
      change (wp (items body ((λ d, set_field field (λ _, d) acc) None)) Q
                (match o with Some x => line x | None => silent end ++ ts) ns);
      apply (wp_item_some body (λ d, set_field field (λ _, d) acc) line o);
      [ generalize acc; intros ? []; cbv beta iota; item | tk_no_nl | cbv beta ]
  end.

(** A line that depends on a flag: [f] is what it does to the record. *)
Ltac wp_guarded f :=
  tk_head;
  lazymatch goal with
  | |- wp (items ?body ?acc) _ (guarded _ _ ++ _) _ =>
      eapply (wp_item_guarded body acc (f acc)); [ | | tk_no_nl |]; cbv beta
  end.

Lemma parses_Agent a (Q : post Agent) ts ns :
  wf_Agent a = true → Agent_Name a ∉ default ∅ (ns !! "Agent") →
  (∀ a', unplaced a' = unplaced a → Q a' (eol ts) (add_name "Agent" (Agent_Name a) ns)) →
  wp parseAgent Q (formatAgent a ++ ts) ns.
Proof.
  intros W N q. unfold wf_Agent in W. split_wf.
  destruct (Agent_OnInput a) eqn:OI; [done|].
  unfold formatAgent, formatMetadata, some_block, parseAgent, parse_agent_item, parse_uses,
    parse_budget, parse_connects, parse_ref, fmt_t, parseMemoryConfig, parseDelegate. rewrite OI.
  wp. wp_option Agent_Prompt. wp_each Agent_Skills. wp_items.
  wp_float Agent_BudgetDaily (budget_cases _ H5).
  wp_float Agent_BudgetMonthly (budget_cases _ H4).
  wp_strings Agent_GuardrailRefs. wp_option Agent_Client. wp_items.
  wp_guarded (λ r, r <| Agent_Temperature := Agent_Temperature a |> <| Agent_HasTemp := Agent_HasTemp a |>).
  { intros E. rewrite E in *. item. }
  { intros E. rewrite E in *. apply bool_decide_eq_true_1 in H11. rewrite H11. by vm_compute. }
  wp_some_flag Agent_Stream. wp_items. wp_option Agent_MemoryCfg.
  { wp_items. apply q0. placed x. }
  wp_each Agent_Delegates.
  wp_some_block Agent_ConfigParams (@parses_config).
  wp_some_block Agent_ValidationRules (@parses_validate).
  wp_some_block Agent_EvalCases (@parses_eval).
  wp_items. apply q. placed a.
Qed.
End agents.
