(* ===== verification/FormatRoundtrip.v ===== *)
(** The text of a file does not depend on the source positions of its parts. *)
From S2P Require Import Prelude GoStd Ast Formatter FormatParse Token Lexer LexText ParserCore Parser ParserWp FormatText FormatWf FormatStmts FormatAgent.
Open Scope Z_scope.

Section stable.
Context `{GoRuntime} {W : Type} `{!Sink W}.

Lemma text_of_unplaced {A} `{Placed A} (g : A → W) l :
  (∀ x, g (unplaced x) = g x) → text_of g (unplaced l) = text_of g l.
Proof.
  intros E. induction l as [|x l IH]; [done|].
  change (unplaced (x :: l)) with (unplaced x :: unplaced l). simpl. by rewrite E, IH.
Qed.

Lemma some_block_unplaced {A} `{Placed A} (g : list A → string → W) l :
  (∀ l, g (unplaced l) "  " = g l "  ") → some_block g (unplaced l) = some_block g l.
Proof. intros E. destruct l as [|x l]; [done | exact (E (x :: l))]. Qed.

Lemma option_unplaced {A} `{Placed A} (g : A → W) o :
  (∀ x, g (unplaced x) = g x) →
  match unplaced o with Some x => g x | None => silent end =
  match o with Some x => g x | None => silent end.
Proof. intros E. destruct o; [apply E | done]. Qed.

(** * The groups of an environment *)

Definition unplaced_groups (st : gmap string (list Override) * list string)
    : gmap string (list Override) * list string :=
  (unplaced <$> st.1, st.2).

Lemma group_override_unplaced st o :
  group_override (unplaced_groups st) (unplaced o) = unplaced_groups (group_override st o).
Proof.
  destruct st as [groups order], o as [res attr val sp ep]. unfold unplaced_groups. simpl.
  change (unplaced (mkOverride res attr val sp ep)) with (mkOverride res attr val zero_Pos zero_Pos).
  rewrite lookup_fmap, fmap_insert. simpl. f_equal.
  - f_equal. destruct (groups !! res) as [l|]; simpl; [|done]. by rewrite unplaced_app.
  - destruct (groups !! res) eqn:E; simpl; done.
Qed.

Lemma group_overrides_unplaced os :
  group_overrides (unplaced os) = unplaced_groups (group_overrides os).
Proof.
  unfold group_overrides.
  assert (∀ st, fold_left group_override (unplaced os) (unplaced_groups st) =
    unplaced_groups (fold_left group_override os st)) as G.
  { induction os as [|o os IH]; intros st; [done|].
    change (unplaced (o :: os)) with (unplaced o :: unplaced os). cbn [fold_left].
    by rewrite group_override_unplaced, IH. }
  rewrite <- G. unfold unplaced_groups. simpl. by rewrite fmap_empty.
Qed.

Lemma group_unplaced (groups : gmap string (list Override)) res :
  format_group (unplaced <$> groups) res = format_group groups res.
Proof.
  unfold format_group. f_equal. rewrite lookup_fmap. f_equal.
  destruct (groups !! res) as [l|]; simpl; [|done]. apply text_of_unplaced. by intros [].
Qed.

(** * Statements *)

#[local] Arguments unplaced {_ _} _ : simpl never.

(** The same writes, one after the other. *)
Ltac same :=
  simpl;
  repeat lazymatch goal with
    | |- ?x = ?x => reflexivity
    | |- (_ +++ _) = (_ +++ _) => apply (f_equal2 and_then)
    | |- text_of _ (unplaced _) = _ => apply text_of_unplaced; intros []; reflexivity
    | |- text_of _ (unplaced ?x :: unplaced ?l) = _ =>
        apply (text_of_unplaced _ (x :: l)); intros []; reflexivity
    | |- match unplaced ?o with Some x => _ | None => _ end = _ =>
        apply option_unplaced; intros []; reflexivity
    | |- some_block _ (unplaced _) = _ => apply some_block_unplaced; intros
    | |- match unplaced ?l with _ => _ end = _ =>
        destruct l;
        [ reflexivity
        | change (unplaced (?x :: ?l)) with (unplaced x :: unplaced l); cbv beta iota ]
    | |- _ => reflexivity
    end.

Lemma formatEnvironment_unplaced e : formatEnvironment (unplaced e) = formatEnvironment e.
Proof.
  unfold formatEnvironment.
  change (Environment_Overrides (unplaced e)) with (unplaced (Environment_Overrides e)).
  rewrite group_overrides_unplaced. unfold unplaced_groups.
  destruct (group_overrides _) as [groups order]. simpl. do 5 f_equal.
  induction order as [|res order IH]; [done|]. simpl. by rewrite group_unplaced, IH.
Qed.

Lemma formatAgent_unplaced a : formatAgent (unplaced a) = formatAgent a.
Proof. unfold formatAgent, unplaced at 1, placed_Agent. same; unfold formatConfigBlock, formatValidateBlock, formatEvalBlock; same. Qed.

Lemma formatPrompt_unplaced p : formatPrompt (unplaced p) = formatPrompt p.
Proof. unfold formatPrompt, unplaced at 1, placed_Prompt. same. Qed.

Lemma formatSkill_unplaced s : formatSkill (unplaced s) = formatSkill s.
Proof. unfold formatSkill, unplaced at 1, placed_Skill. unfold field_block. same. Qed.

Lemma formatMCPServer_unplaced s : formatMCPServer (unplaced s) = formatMCPServer s.
Proof. unfold formatMCPServer, unplaced at 1, placed_MCPServer. same. Qed.

Lemma formatMCPClient_unplaced c : formatMCPClient (unplaced c) = formatMCPClient c.
Proof. unfold formatMCPClient, unplaced at 1, placed_MCPClient. same. Qed.

Lemma formatPolicy_unplaced p : formatPolicy (unplaced p) = formatPolicy p.
Proof. unfold formatPolicy, unplaced at 1, placed_Policy. same. Qed.

Lemma formatDeployTarget_unplaced d : formatDeployTarget (unplaced d) = formatDeployTarget d.
Proof. unfold formatDeployTarget, unplaced at 1, placed_DeployTarget. same. Qed.

Lemma formatTypeDef_unplaced t : formatTypeDef (unplaced t) = formatTypeDef t.
Proof.
  unfold formatTypeDef, unplaced at 1, placed_TypeDef. simpl.
  destruct (TypeDef_EnumVals t); [destruct (nonempty _)|]; same.
Qed.

Lemma formatPipeline_unplaced p : formatPipeline (unplaced p) = formatPipeline p.
Proof. unfold formatPipeline, unplaced at 1, placed_Pipeline. same. Qed.

Lemma formatStatement_unplaced (s : Statement) :
  formatStatement (unplaced s) = formatStatement s.
Proof.
  destruct s as [x|x|x|x|x|x|x|x|x|x|x|x|x|x|x|x|x|x|x]; try (destruct x; reflexivity).
  - apply formatAgent_unplaced.
  - apply formatPrompt_unplaced.
  - apply formatSkill_unplaced.
  - apply formatMCPServer_unplaced.
  - apply formatMCPClient_unplaced.
  - apply formatEnvironment_unplaced.
  - apply formatPolicy_unplaced.
  - apply formatDeployTarget_unplaced.
  - apply formatTypeDef_unplaced.
  - apply formatPipeline_unplaced.
Qed.

Lemma write_file_unplaced f : write_file (unplaced f) = write_file f.
Proof.
  unfold write_file, unplaced at 1, placed_File. simpl. f_equal.
  - by destruct (File_Package f).
  - apply text_of_unplaced. intros s. by rewrite formatStatement_unplaced.
Qed.
End stable.

Lemma Format_unplaced `{GoRuntime} f f' : unplaced f' = unplaced f → Format f' = Format f.
Proof.
  intros E. unfold Format. by rewrite <- (write_file_unplaced f'), E, write_file_unplaced.
Qed.

(** Formatting and parsing are inverse to each other: the parser reads the text
    of a formattable file back without an error, as the same file up to source
    positions. *)

Section roundtrip.
Context `{GoRuntime}.

Abbreviation eol ts := ((TokenNewline, nl) :: ts).

(** * One statement *)

(** The keyword of a statement. *)
Definition keyword_of (s : Statement) : TokenType :=
  match s with
  | SPackage _ => TokenPackage
  | SImport _ => TokenImport
  | SPluginRef _ | SPlugin _ => TokenPlugin
  | SAgent _ => TokenAgent
  | SPrompt _ => TokenPrompt
  | SSkill _ => TokenSkill
  | SMCPServer _ => TokenServer
  | SMCPClient _ => TokenClient
  | SEnvironment _ => TokenEnvironment
  | SSecret _ => TokenSecret
  | SPolicy _ => TokenPolicy
  | SBinding _ => TokenBinding
  | SDeployTarget _ => TokenDeploy
  | SUser _ => TokenUser
  | SGuardrail _ => TokenGuardrail
  | SStateConfig _ => TokenState
  | STypeDef _ => TokenTypeKw
  | SPipeline _ => TokenPipeline
  end.

Lemma keyword_Statement s (ts : list tk) :
  wf_Statement s = true → hd_type (formatStatement s ++ ts) = keyword_of s.
Proof.
  destruct s; try done; intros _; cbn [formatStatement keyword_of].
  - unfold formatEnvironment. by destruct (group_overrides _).
  - unfold formatStateConfig. by destruct (nonempty _).
  - unfold formatTypeDef. repeat case_match; done.
Qed.

(** The names registered after a statement, and that its name is new. *)
Definition register (s : Statement) (ns : names) : names :=
  match registered s with
  | Some (kind, name) => add_name kind name ns
  | None => ns
  end.

Definition fresh_name (ns : names) (kn : string * string) : Prop :=
  kn.2 ∉ default ∅ (ns !! kn.1).

(** The arm of the switch over declarations that the keyword selects. *)
Ltac wp_keyword T :=
  unfold parse_declaration;
  repeat first
    [ apply (wp_switch_cons _ true); [solve [intros p U; rewrite (T _ _ U); reflexivity] |]
    | apply (wp_switch_cons _ false); [solve [intros p U; rewrite (T _ _ U); reflexivity] |] ];
  cbn iota; apply wp_bind.

(** The statement of constructor [C], which the lemma [parses] reads. *)
Ltac reads parses C W F q :=
  apply parses; first [exact W | exact (F _ eq_refl) | idtac];
  let E := fresh "E" in
  intros ? E; apply wp_ret, q; exact (f_equal C E).

Lemma parses_Statement s (Q : post (option Statement)) (ts : list tk) ns :
  wf_Statement s = true → (∀ kn, registered s = Some kn → fresh_name ns kn) →
  (∀ s', unplaced s' = unplaced s → Q (Some s') (eol ts) (register s ns)) →
  wp parse_declaration Q (formatStatement s ++ ts) ns.
Proof.
  intros W F q. pose proof (keyword_Statement s ts W) as K.
  assert (∀ t p, upcoming p = formatStatement s ++ ts → is_tok t p = token_eqb (keyword_of s) t) as T.
  { intros t p U. unfold tk in *. by rewrite is_tok_hd, U, K. }
  destruct s; try discriminate W; cbn [keyword_of] in T; wp_keyword T.
  - reads parses_Import SImport W F q.
  - reads parses_Agent SAgent W F q.
  - reads parses_Prompt SPrompt W F q.
  - reads parses_Skill SSkill W F q.
  - reads parses_MCPServer SMCPServer W F q.
  - reads parses_MCPClient SMCPClient W F q.
  - reads parses_Environment SEnvironment W F q.
  - reads parses_Secret SSecret W F q.
  - reads parses_Policy SPolicy W F q.
  - reads parses_Binding SBinding W F q.
  - reads parses_Plugin SPlugin W F q.
  - reads parses_DeployTarget SDeployTarget W F q.
  - reads parses_User SUser W F q.
  - reads parses_Guardrail SGuardrail W F q.
  - reads parses_StateConfig SStateConfig W F q.
  - reads parses_TypeDef STypeDef W F q.
  - reads parses_Pipeline SPipeline W F q.
Qed.
(** * The statements of a file *)

Abbreviation eof := ([(TokenEOF, "")] : list tk).

Lemma fresh_register s ns kn :
  fresh_name ns kn → registered s ≠ Some kn → fresh_name (register s ns) kn.
Proof.
  unfold fresh_name, register. intros F N. destruct (registered s) as [[k n]|]; [|done].
  unfold add_name, names in *. destruct kn as [k' n']; simpl fst in *; simpl snd in *. destruct (decide (k = k')) as [->|].
  - rewrite lookup_insert_eq. simpl. intros [->%elem_of_singleton|]%elem_of_union; [|done].
    by destruct N.
  - by rewrite lookup_insert_ne.
Qed.

Lemma keyword_no_nl s : token_eqb (keyword_of s) TokenNewline = false.
Proof. by destruct s. Qed.

Lemma keyword_no_eof s : token_eqb (keyword_of s) TokenEOF = false.
Proof. by destruct s. Qed.

Lemma parses_statements l d (Q : post (list Statement)) ns :
  forallb wf_Statement l = true → NoDup (omap registered l) →
  Forall (fresh_name ns) (omap registered l) →
  (∀ d' ns', unplaced d' = unplaced d ++ unplaced l → Q d' eof ns') →
  wp (while (λ p, negb (at_end p)) parse_statement_item d) Q
    (eol (text_of (λ stmt, put nl +++ formatStatement stmt) l ++ eof)) ns.
Proof.
  revert d ns. induction l as [|s l IH]; intros d ns W D F q.
  - apply wp_while_step; [intros p U; unfold at_end; by rewrite is_tok_hd, U|].
    unfold parse_statement_item. apply wp_bind, wp_skipNewlines.
    apply (wp_ifelse _ true); [intros p U; unfold at_end; by rewrite is_tok_hd, U|].
    apply wp_ret, q. by rewrite app_nil_r.
  - simpl in W. apply andb_true_iff in W as [Ws W]. rewrite tk_text_of_cons, tk_then.
    apply wp_while_step; [intros p U; unfold at_end; by rewrite is_tok_hd, U|].
    set (rest := text_of _ l ++ eof). set (line := formatStatement s ++ rest : list tk).
    assert (hd_type line = keyword_of s) as K by by apply keyword_Statement.
    assert (drop_nl line = line) as N.
    { apply drop_nl_id. unfold no_nl. by rewrite K, keyword_no_nl. }
    assert (decides at_end false line) as NE.
    { intros p U. unfold at_end. by rewrite is_tok_hd, U, K, keyword_no_eof. }
    apply wp_bind, wp_skipNewlines. change (drop_nl (eol (put nl ++ line))) with (drop_nl line).
    rewrite N. apply (wp_ifelse _ false); [done|]. unfold parseStatement.
    do 2 apply wp_bind. apply wp_skipNewlines. rewrite N. apply (wp_ifelse _ false); [done|].
    apply parses_Statement; [done | |].
    { intros kn R. simpl in F. rewrite R in F. by apply Forall_cons in F as [F _]. }
    intros s' E. apply wp_ret. split.
    { unfold line. cbn [length app]. rewrite !length_app. simpl. lia. }
    apply IH; [done | | |].
    + simpl in D. destruct (registered s); [by apply NoDup_cons in D as [_ D] | done].
    + apply Forall_forall. intros kn I. rewrite Forall_forall in F. simpl in D, F.
      destruct (registered s) as [kn'|] eqn:R; apply fresh_register; try congruence.
      * apply F. by right.
      * apply NoDup_cons in D as [D _]. rewrite R. by intros [= ->].
      * by apply F.
    + intros d' ns' E'. apply q. rewrite E', unplaced_app. simpl option_list.
      by rewrite unplaced_one, E, <- app_assoc.
Qed.
(** * Files *)

Lemma Parse_formatted f :
  formattable f = true →
  ∃ f', Parse (Format f) (File_Path f) = Some (Some f', []) ∧ unplaced f' = unplaced f.
Proof.
  intros W. destruct (tokens_formatted f (File_Path f) W) as (toks & T & M).
  unfold formattable in W. split_wf. apply bool_decide_eq_true_1 in W.
  destruct (File_Package f) as [pkg|] eqn:P; [|done].
  unfold Parse. rewrite T. simpl mbind.
  set (p := new_parser toks (File_Path f)).
  assert (upcoming p = write_file f ++ eof) as U by done.
  unfold parseFile.
  match goal with |- context [reads_state p_file ≫= ?k] => set (rest := k) end.
  assert (wp (rest (File_Path f)) (λ f' _ _, unplaced f' = unplaced f) (write_file f ++ eof) ∅) as R.
  { subst rest. unfold write_file. rewrite P, tk_then. cbv beta.
    apply wp_bind, wp_currentPos. intros startPos. apply wp_bind, wp_skip_none; [done|].
    apply wp_bind, (wp_ifelse _ true); [intros p' U'; by rewrite is_tok_hd, U'|]. cbn iota.
    apply wp_bind, parses_Package; [done|]. intros pkg' E. apply wp_ret. apply wp_bind.
    apply parses_statements; [done | done | |].
    { apply Forall_forall. intros kn _. unfold fresh_name, names. by rewrite lookup_empty. }
    intros stmts ns' Es. apply wp_bind, wp_currentPos. intros endPos. apply wp_ret.
    clear -P E Es. assert (unplaced (Some pkg') = unplaced (Some pkg)) as Ep by exact (f_equal Some E).
    destruct f. simpl in P. subst.
    lazymatch goal with |- unplaced ?x = unplaced ?y => change (placed_File x = placed_File y) end.
    unfold placed_File. simpl. by rewrite Ep, Es. }
  destruct (R p U eq_refl) as (f' & p' & Ep & Er & q). exists f'. split; [|done].
  change ((reads_state p_file ≫= rest) p) with (rest (File_Path f) p). rewrite Ep. simpl.
  by rewrite Er.
Qed.
End roundtrip.

(** C25. Formatting loses nothing: the parser reads the text that Format writes
    for a formattable file back without an error, as that file up to source
    positions, and formatting the result again gives the same text. *)
Theorem format_roundtrip `{GoRuntime} f :
  formattable f = true →
  ∃ f', Parse (Format f) (File_Path f) = Some (Some f', []) ∧
        unplaced f' = unplaced f ∧ Format f' = Format f.
Proof.
  intros W. destruct (Parse_formatted f W) as (f' & P & E). exists f'.
  split_and!; [done | done | by apply Format_unplaced].
Qed.

(** A file with most kinds of lines, and some text that needs escapes. *)
Definition example_file : File :=
  let ref kind name := mkRef kind name "" zero_Pos zero_Pos in
  mkFile "a.ias"
    (Some (zero_Package <| Package_Name := "demo" |> <| Package_Version := "0.1.0" |>
             <| Package_LangVersion := "3.0" |>))
    [SPrompt (zero_Prompt <| Prompt_Name := "greet" |>
       <| Prompt_Content := "Say {{word}}" +:+ nl +:+ qt "in `quotes`\." |>
       <| Prompt_Variables := [zero_VariableDecl <| VariableDecl_Name := "word" |>
            <| VariableDecl_Type := "string" |> <| VariableDecl_Required := true |>
            <| VariableDecl_Default := "hi" |>] |>
       <| Prompt_Metadata := <["owner" := "team"]> (<["env" := "dev"]> ∅) |>);
     SAgent (zero_Agent <| Agent_Name := "bot" |> <| Agent_Prompt := Some (ref "prompt" "greet") |>
       <| Agent_Skills := [ref "skill" "find"; ref "skill" "tell"] |>
       <| Agent_Models := ["a"; "b"] |> <| Agent_MaxTurns := 7 |> <| Agent_Stream := Some false |>
       <| Agent_MemoryCfg := Some (zero_MemoryConfig <| MemoryConfig_Strategy := "window" |>
            <| MemoryConfig_MaxMessages := 20 |>) |>
       <| Agent_ValidationRules :=
            [mkValidationRule "short" "error" 2 "too long" "output.short and ready" zero_Pos zero_Pos] |>
       <| Agent_EvalCases := [zero_EvalCase <| EvalCase_Name := "one" |>
            <| EvalCase_Input := "x" |> <| EvalCase_Expected := "y" |>
            <| EvalCase_Threshold := default_threshold |> <| EvalCase_Tags := ["smoke"] |>] |>);
     SPolicy (mkPolicy "safe"
       [mkRule "deny" "model" "any other" zero_Pos zero_Pos;
        mkRule "require" "secret" "" zero_Pos zero_Pos] zero_Pos zero_Pos);
     SEnvironment (mkEnvironment "prod"
       [mkOverride "agent/bot" "model" "big" zero_Pos zero_Pos;
        mkOverride "agent/bot" "timeout" "5s" zero_Pos zero_Pos] zero_Pos zero_Pos);
     SSecret (zero_Secret <| Secret_Name := "key" |> <| Secret_Source := "env" |>
       <| Secret_Key := "API_KEY" |>)]
    zero_Pos zero_Pos.

Lemma format_roundtrip_witness :
  @formattable ascii_runtime example_file = true ∧
  ∃ f', @Parse ascii_runtime (@Format ascii_runtime example_file) "a.ias" = Some (Some f', []) ∧
        unplaced f' = unplaced example_file ∧
        @Format ascii_runtime f' = @Format ascii_runtime example_file.
Proof.
  assert (@formattable ascii_runtime example_file = true) as W by (vm_compute; reflexivity).
  split; [exact W | exact (@format_roundtrip ascii_runtime example_file W)].
Defined.
