(* ===== verification/Graph.v ===== *)
(** The dependency graph of a set of files (internal/graph/model.go and
    extract.go): nodes for the declared entities, edges for the references
    between them, and the steps of the graph command
    (cmd/agentspec/graph.go).

    The Go functions append to a Graph and to a set of node IDs through
    pointers; here they take the pair of both and return it. A nil Attributes
    map is the empty map: the code only reads it. *)
From S2P Require Import Prelude GoStd Ast.
Open Scope Z_scope.

(** * The model *)

Record GraphNode := mkGraphNode {
  GraphNode_ID : string;
  GraphNode_Type : string;
  GraphNode_Name : string;
  GraphNode_File : string;
  GraphNode_Line : Z;
  GraphNode_Attributes : gmap string string;
}.

Record GraphEdge := mkGraphEdge {
  GraphEdge_Source : string;
  GraphEdge_Target : string;
  GraphEdge_Label : string;
  GraphEdge_Style : string;
}.

Record PackageInfo := mkPackageInfo {
  PackageInfo_Name : string;
  PackageInfo_Version : string;
  PackageInfo_Description : string;
}.

Record GraphStats := mkGraphStats {
  GraphStats_NodeCount : Z;
  GraphStats_EdgeCount : Z;
  GraphStats_FileCount : Z;
  GraphStats_TypeCounts : gmap string Z;
}.

Record Graph := mkGraph {
  Graph_Nodes : list GraphNode;
  Graph_Edges : list GraphEdge;
  Graph_Package : PackageInfo;
  Graph_Files : list string;
  Graph_Stats : GraphStats;
  Graph_Errors : list string;
}.

Global Instance settable_Graph : Settable Graph := λ g,
  mkGraph (Graph_Nodes g) (Graph_Edges g) (Graph_Package g) (Graph_Files g) (Graph_Stats g)
    (Graph_Errors g).

Definition node_ids (g : Graph) : list string := map GraphNode_ID (Graph_Nodes g).

(** [&Graph{...}] and the empty nodeSet. *)
Definition empty_graph : Graph :=
  mkGraph [] [] (mkPackageInfo "" "" "") [] (mkGraphStats 0 0 0 ∅) [].

(** The arguments [g] and [nodeSet] of the extractors. *)
Definition Extraction : Type := Graph * gset string.

Definition addNode (st : Extraction) (node : GraphNode) : Extraction :=
  (st.1 <| Graph_Nodes := Graph_Nodes st.1 ++ [node] |>, {[GraphNode_ID node]} ∪ st.2).

Definition addEdge (source target label style : string) (st : Extraction) : Extraction :=
  let style := if String.eqb style "" then "solid" else style in
  (st.1 <| Graph_Edges := Graph_Edges st.1 ++ [mkGraphEdge source target label style] |>, st.2).

Definition nodeID (typ name : string) : string := typ +:+ ":" +:+ name.

(** [if b { attrs[k] = v }] *)
Definition set_attr (b : bool) (k v : string) (attrs : gmap string string) : gmap string string :=
  if b then <[k := v]> attrs else attrs.

(** [if v != "" { attrs[k] = v }] *)
Definition set_text (k v : string) : gmap string string → gmap string string :=
  set_attr (negb (String.eqb v "")) k v.

(** [if len(l) > 0 { attrs[k] = strings.Join(l, ", ") }] *)
Definition set_list (k : string) (l : list string) : gmap string string → gmap string string :=
  set_attr (negb (Nat.eqb (length l) 0)) k (Join l ", ").

(** [if n > 0 { attrs[k] = strconv.Itoa(n) }] *)
Definition set_int (k : string) (n : Z) : gmap string string → gmap string string :=
  set_attr (0 <? n) k (pretty n).

(** [for _, x := range l { step(x) }] *)
Definition for_each {A S} (l : list A) (step : A → S → S) (st : S) : S :=
  foldl (λ st x, step x st) st l.

(** [if b { step }] *)
Definition if_ {S} (b : bool) (step : S → S) (st : S) : S := if b then step st else st.

Notation "st ▶ f" := (f st) (at level 66, left associativity, only parsing).

Section extract.
Context `{GoRuntime}.

(** * Entities *)

Definition agent_attributes (a : Agent) : gmap string string :=
  ∅ ▶ set_text "model" (Agent_Model a)
    ▶ set_list "models" (Agent_Models a)
    ▶ set_text "strategy" (Agent_Strategy a)
    ▶ set_int "max_turns" (Agent_MaxTurns a)
    ▶ set_text "timeout" (Agent_Timeout a)
    ▶ set_int "token_budget" (Agent_TokenBudget a)
    ▶ set_attr (Agent_HasTemp a) "temperature" (float_f (Agent_Temperature a))
    ▶ set_text "on_error" (Agent_OnError a)
    ▶ set_attr (float_lt float_zero (Agent_BudgetDaily a)) "budget_daily"
         (fmt_fixed 2 (Agent_BudgetDaily a))
    ▶ set_attr (float_lt float_zero (Agent_BudgetMonthly a)) "budget_monthly"
         (fmt_fixed 2 (Agent_BudgetMonthly a)).

Definition extractAgent (a : Agent) (file : string) (st : Extraction) : Extraction :=
  let id := nodeID "agent" (Agent_Name a) in
  addNode st (mkGraphNode id "agent" (Agent_Name a) file (Pos_Line (Agent_StartPos a))
                (agent_attributes a))
  ▶ match Agent_Prompt a with
     | Some r => addEdge id (nodeID "prompt" (Ref_Name r)) "uses prompt" "solid"
     | None => λ st, st
     end
  ▶ for_each (Agent_Skills a) (λ sk, addEdge id (nodeID "skill" (Ref_Name sk)) "uses skill" "solid")
  ▶ for_each (Agent_GuardrailRefs a)
       (λ gr, addEdge id (nodeID "guardrail" gr) "uses guardrail" "solid")
  ▶ match Agent_Client a with
     | Some r => addEdge id (nodeID "mcp_client" (Ref_Name r)) "uses client" "solid"
     | None => λ st, st
     end
  ▶ for_each (Agent_Delegates a)
       (λ d, addEdge id (nodeID "agent" (Delegate_AgentRef d)) "delegates to" "dashed")
  ▶ if_ (negb (String.eqb (Agent_Fallback a) ""))
       (addEdge id (nodeID "agent" (Agent_Fallback a)) "fallback" "dashed").

Definition extractPrompt (p : Prompt) (file : string) (st : Extraction) : Extraction :=
  let content := Prompt_Content p in
  let preview :=
    if (200 <? String.length content)%nat then str_take 200 content +:+ "..." else content in
  let attrs :=
    ∅ ▶ set_attr (negb (String.eqb content "")) "content_preview" preview
      ▶ set_text "version" (Prompt_Version p)
      ▶ set_list "variables" (map VariableDecl_Name (Prompt_Variables p)) in
  addNode st (mkGraphNode (nodeID "prompt" (Prompt_Name p)) "prompt" (Prompt_Name p) file
                (Pos_Line (Prompt_StartPos p)) attrs).

Definition field_names (fields : list Field) : list string :=
  map (λ f, Field_Name f +:+ ":" +:+ Field_Type f) fields.

Definition extractSkill (s : Skill) (file : string) (st : Extraction) : Extraction :=
  let id := nodeID "skill" (Skill_Name s) in
  let attrs :=
    ∅ ▶ set_text "description" (Skill_Description s)
      ▶ match Skill_ToolConfig s with
         | Some tc => λ attrs,
             <["tool_type" := ToolConfig_Type tc]> attrs
             ▶ set_text "server_tool" (ToolConfig_ServerTool tc)
         | None => λ attrs, attrs
         end
      ▶ set_list "input" (field_names (Skill_Input s))
      ▶ set_list "output" (field_names (Skill_Output s)) in
  addNode st (mkGraphNode id "skill" (Skill_Name s) file (Pos_Line (Skill_StartPos s)) attrs)
  ▶ match Skill_ToolConfig s with
     | Some tc =>
         if_ (negb (String.eqb (ToolConfig_ServerTool tc) ""))
           (addEdge id
              (nodeID "mcp_server" (default "" (head (SplitN2 (ToolConfig_ServerTool tc) "/"))))
              "uses tool" "solid")
     | None => λ st, st
     end.

Definition extractMCPServer (m : MCPServer) (file : string) (st : Extraction) : Extraction :=
  let attrs :=
    ∅ ▶ set_text "transport" (MCPServer_Transport m)
      ▶ set_text "command" (MCPServer_Command m)
      ▶ set_text "url" (MCPServer_URL m) in
  addNode st (mkGraphNode (nodeID "mcp_server" (MCPServer_Name m)) "mcp_server" (MCPServer_Name m)
                file (Pos_Line (MCPServer_StartPos m)) attrs).

Definition extractMCPClient (m : MCPClient) (file : string) (st : Extraction) : Extraction :=
  let id := nodeID "mcp_client" (MCPClient_Name m) in
  addNode st (mkGraphNode id "mcp_client" (MCPClient_Name m) file (Pos_Line (MCPClient_StartPos m))
                ∅)
  ▶ for_each (MCPClient_Servers m)
       (λ srv, addEdge id (nodeID "mcp_server" (Ref_Name srv)) "connects to" "solid").

Definition extract_step (p : Pipeline) (file : string) (step : PipelineStep) (st : Extraction)
    : Extraction :=
  let stepID := nodeID "step" (Pipeline_Name p +:+ "." +:+ PipelineStep_Name step) in
  let attrs :=
    ∅ ▶ set_text "agent" (PipelineStep_Agent step)
      ▶ set_attr (PipelineStep_Parallel step) "parallel" "true"
      ▶ set_text "when" (PipelineStep_When step) in
  addNode st (mkGraphNode stepID "step" (PipelineStep_Name step) file
                (Pos_Line (PipelineStep_StartPos step)) attrs)
  ▶ addEdge (nodeID "pipeline" (Pipeline_Name p)) stepID "contains" "solid"
  ▶ if_ (negb (String.eqb (PipelineStep_Agent step) ""))
       (addEdge stepID (nodeID "agent" (PipelineStep_Agent step)) "invokes" "solid")
  ▶ for_each (PipelineStep_DependsOn step)
       (λ dep, addEdge stepID (nodeID "step" (Pipeline_Name p +:+ "." +:+ dep)) "depends on" "solid").

Definition extractPipeline (p : Pipeline) (file : string) (st : Extraction) : Extraction :=
  addNode st (mkGraphNode (nodeID "pipeline" (Pipeline_Name p)) "pipeline" (Pipeline_Name p) file
                (Pos_Line (Pipeline_StartPos p)) ∅)
  ▶ for_each (Pipeline_Steps p) (extract_step p file).

Definition extractSecret (s : Secret) (file : string) (st : Extraction) : Extraction :=
  addNode st (mkGraphNode (nodeID "secret" (Secret_Name s)) "secret" (Secret_Name s) file
                (Pos_Line (Secret_StartPos s)) (∅ ▶ set_text "source" (Secret_Source s))).

Definition extractPolicy (p : Policy) (file : string) (st : Extraction) : Extraction :=
  let id := nodeID "policy" (Policy_Name p) in
  addNode st (mkGraphNode id "policy" (Policy_Name p) file (Pos_Line (Policy_StartPos p))
                (∅ ▶ set_int "rule_count" (Z.of_nat (length (Policy_Rules p)))))
  ▶ for_each (Policy_Rules p) (λ rule,
       if_ (negb (String.eqb (Rule_Resource rule) ""))
         (addEdge id (nodeID "policy_target" (Rule_Resource rule)) "governs" "solid")).

Definition extractGuardrail (gr : Guardrail) (file : string) (st : Extraction) : Extraction :=
  let attrs :=
    ∅ ▶ set_text "mode" (Guardrail_Mode gr)
      ▶ set_list "keywords" (Guardrail_Keywords gr)
      ▶ set_text "fallback_msg" (Guardrail_FallbackMsg gr) in
  addNode st (mkGraphNode (nodeID "guardrail" (Guardrail_Name gr)) "guardrail" (Guardrail_Name gr)
                file (Pos_Line (Guardrail_StartPos gr)) attrs).

Definition extractUser (u : User) (file : string) (st : Extraction) : Extraction :=
  let id := nodeID "user" (User_Name u) in
  addNode st (mkGraphNode id "user" (User_Name u) file (Pos_Line (User_StartPos u))
                (∅ ▶ set_text "role" (User_Role u)))
  ▶ for_each (User_Agents u) (λ agent, addEdge id (nodeID "agent" agent) "can access" "solid").

Definition extractBinding (b : Binding) (file : string) (st : Extraction) : Extraction :=
  let attrs :=
    ∅ ▶ set_text "adapter" (Binding_Adapter b)
      ▶ set_attr (Binding_Default b) "default" "true" in
  addNode st (mkGraphNode (nodeID "binding" (Binding_Name b)) "binding" (Binding_Name b) file
                (Pos_Line (Binding_StartPos b)) attrs).

Definition extractDeployTarget (d : DeployTarget) (file : string) (st : Extraction) : Extraction :=
  let attrs :=
    ∅ ▶ set_text "target" (DeployTarget_Target d)
      ▶ set_attr (DeployTarget_Default d) "default" "true"
      ▶ set_int "port" (DeployTarget_Port d)
      ▶ set_text "namespace" (DeployTarget_Namespace d)
      ▶ set_int "replicas" (DeployTarget_Replicas d)
      ▶ set_text "image" (DeployTarget_Image d) in
  addNode st (mkGraphNode (nodeID "deploy" (DeployTarget_Name d)) "deploy" (DeployTarget_Name d)
                file (Pos_Line (DeployTarget_StartPos d)) attrs).

(** The name of a state block: its type when it has none. *)
Definition state_name (s : StateConfig) : string :=
  if String.eqb (StateConfig_Name s) "" then StateConfig_Type s else StateConfig_Name s.

(** The loop over the properties overwrites: a property wins over backend_type. *)
Definition extractStateConfig (s : StateConfig) (file : string) (st : Extraction) : Extraction :=
  let attrs := StateConfig_Properties s ∪ (∅ ▶ set_text "backend_type" (StateConfig_Type s)) in
  addNode st (mkGraphNode (nodeID "state" (state_name s)) "state" (state_name s) file
                (Pos_Line (StateConfig_StartPos s)) attrs).

Definition extractEnvironment (e : Environment) (file : string) (st : Extraction) : Extraction :=
  let id := nodeID "env" (Environment_Name e) in
  addNode st (mkGraphNode id "env" (Environment_Name e) file (Pos_Line (Environment_StartPos e))
                (∅ ▶ set_int "override_count" (Z.of_nat (length (Environment_Overrides e)))))
  ▶ for_each (Environment_Overrides e) (λ ov,
       if_ (negb (String.eqb (Override_Resource ov) ""))
         (addEdge id (nodeID "env_target" (Override_Resource ov)) "overrides" "dashed")).

Definition extractTypeDef (t : TypeDef) (file : string) (st : Extraction) : Extraction :=
  let attrs :=
    ∅ ▶ set_list "fields"
           (map (λ f, TypeField_Name f +:+ ":" +:+ TypeField_Type f) (TypeDef_Fields t))
      ▶ set_list "enum_values" (TypeDef_EnumVals t)
      ▶ set_text "list_of" (TypeDef_ListOf t) in
  addNode st (mkGraphNode (nodeID "type" (TypeDef_Name t)) "type" (TypeDef_Name t) file
                (Pos_Line (TypeDef_StartPos t)) attrs).

Definition extractPlugins (pkg : Package) (file : string) (st : Extraction) : Extraction :=
  for_each (Package_Plugins pkg) (λ p st,
    addNode st (mkGraphNode (nodeID "plugin" (PluginRef_Name p)) "plugin" (PluginRef_Name p) file
                  (Pos_Line (PluginRef_StartPos p))
                  (∅ ▶ set_text "version" (PluginRef_Version p)))) st.

(** The switch has no case for imports and for plugin statements. *)
Definition extractStatement (file : string) (stmt : Statement) (st : Extraction) : Extraction :=
  match stmt with
  | SAgent s => extractAgent s file st
  | SPrompt s => extractPrompt s file st
  | SSkill s => extractSkill s file st
  | SMCPServer s => extractMCPServer s file st
  | SMCPClient s => extractMCPClient s file st
  | SPipeline s => extractPipeline s file st
  | SSecret s => extractSecret s file st
  | SPolicy s => extractPolicy s file st
  | SGuardrail s => extractGuardrail s file st
  | SUser s => extractUser s file st
  | SBinding s => extractBinding s file st
  | SDeployTarget s => extractDeployTarget s file st
  | SStateConfig s => extractStateConfig s file st
  | SEnvironment s => extractEnvironment s file st
  | STypeDef s => extractTypeDef s file st
  | SPackage s => extractPlugins s file st
  | SImport _ | SPluginRef _ | SPlugin _ => st
  end.

(** * The whole graph *)

(** The placeholder for an edge target that no file declares. *)
Definition missing_node (target : string) : GraphNode :=
  let '(typ, name) :=
    match SplitN2 target ":" with
    | [typ; name] => (typ, name)
    | _ => ("unknown", target)
    end in
  mkGraphNode target typ name "" 0 {["missing" := "true"]}.

(** One round of the loop of resolveUnresolved. *)
Definition resolve_edge (edge : GraphEdge) (st : Extraction) : Extraction :=
  let target := GraphEdge_Target edge in
  if_ (bool_decide (target ∉ st.2)) (λ st, addNode st (missing_node target)) st.

(** resolveUnresolved creates placeholder nodes for edge targets that don't exist. *)
Definition resolveUnresolved (st : Extraction) : Extraction :=
  for_each (Graph_Edges st.1) resolve_edge st.

Definition type_counts (nodes : list GraphNode) : gmap string Z :=
  for_each nodes (λ n m, <[GraphNode_Type n := default 0 (m !! GraphNode_Type n) + 1]> m) ∅.

(** ComputeStats populates the Stats field of the graph. *)
Definition ComputeStats (g : Graph) : Graph :=
  g <| Graph_Stats := mkGraphStats (Z.of_nat (length (Graph_Nodes g)))
                        (Z.of_nat (length (Graph_Edges g))) (Z.of_nat (length (Graph_Files g)))
                        (type_counts (Graph_Nodes g)) |>.

(** One file of the loop of Extract. *)
Definition extract_file (f : option File) (st : Extraction) : Extraction :=
  match f with
  | None => st
  | Some f =>
      let '(g, nodeSet) := st in
      let g := if_ (negb (String.eqb (File_Path f) ""))
                 (λ g, g <| Graph_Files := Graph_Files g ++ [File_Path f] |>) g in
      let st :=
        match File_Package f with
        | Some pkg =>
            extractPlugins pkg (File_Path f)
              (if_ (String.eqb (PackageInfo_Name (Graph_Package g)) "")
                 (λ g, g <| Graph_Package :=
                    mkPackageInfo (Package_Name pkg) (Package_Version pkg)
                      (Package_Description pkg) |>) g, nodeSet)
        | None => (g, nodeSet)
        end in
      for_each (File_Statements f) (extractStatement (File_Path f)) st
  end.

(** Extract walks AST files and builds a Graph with nodes and edges. *)
Definition Extract (files : list (option File)) : Graph :=
  ComputeStats (resolveUnresolved (for_each files extract_file (empty_graph, ∅))).1.

(** * Files and filters *)

Definition filterNodes (keep : GraphNode → bool) (g : Graph) : Graph :=
  let removed : gset string :=
    list_to_set (map GraphNode_ID (List.filter (λ n, negb (keep n)) (Graph_Nodes g))) in
  ComputeStats
    (g <| Graph_Nodes := List.filter keep (Graph_Nodes g) |>
       <| Graph_Edges := List.filter (λ e, bool_decide (GraphEdge_Source e ∉ removed) &&
                                           bool_decide (GraphEdge_Target e ∉ removed))
                           (Graph_Edges g) |>).

(** FilterFiles removes file-type nodes and their edges. *)
Definition FilterFiles (g : Graph) : Graph :=
  filterNodes (λ n, negb (String.eqb (GraphNode_Type n) "file")) g.

(** FilterOrphans removes nodes with zero edges. *)
Definition FilterOrphans (g : Graph) : Graph :=
  let connected : gset string :=
    list_to_set (map GraphEdge_Source (Graph_Edges g)) ∪
    list_to_set (map GraphEdge_Target (Graph_Edges g)) in
  filterNodes (λ n, bool_decide (GraphNode_ID n ∈ connected)) g.

Definition stmtNodeID (stmt : Statement) : string :=
  match stmt with
  | SAgent s => nodeID "agent" (Agent_Name s)
  | SPrompt s => nodeID "prompt" (Prompt_Name s)
  | SSkill s => nodeID "skill" (Skill_Name s)
  | SMCPServer s => nodeID "mcp_server" (MCPServer_Name s)
  | SMCPClient s => nodeID "mcp_client" (MCPClient_Name s)
  | SPipeline s => nodeID "pipeline" (Pipeline_Name s)
  | SSecret s => nodeID "secret" (Secret_Name s)
  | SPolicy s => nodeID "policy" (Policy_Name s)
  | SGuardrail s => nodeID "guardrail" (Guardrail_Name s)
  | SUser s => nodeID "user" (User_Name s)
  | SBinding s => nodeID "binding" (Binding_Name s)
  | SDeployTarget s => nodeID "deploy" (DeployTarget_Name s)
  | SStateConfig s => nodeID "state" (state_name s)
  | SEnvironment s => nodeID "env" (Environment_Name s)
  | STypeDef s => nodeID "type" (TypeDef_Name s)
  | SPackage _ | SImport _ | SPluginRef _ | SPlugin _ => ""
  end.

(** The synthetic node of a file. *)
Definition file_node (path : string) : GraphNode :=
  mkGraphNode (nodeID "file" path) "file" path path 1 ∅.

(** The edge to an entity that the file declares. *)
Definition add_define (path : string) (stmt : Statement) (st : Extraction) : Extraction :=
  if_ (negb (String.eqb (stmtNodeID stmt) "") && bool_decide (stmtNodeID stmt ∈ st.2))
    (addEdge (nodeID "file" path) (stmtNodeID stmt) "defines" "solid") st.

(** The edge to an imported file, whose node is added when it is new. *)
Definition add_import (path : string) (imp : Import) (st : Extraction) : Extraction :=
  if_ (bool_decide (nodeID "file" (Import_Path imp) ∉ st.2))
    (λ st, addNode st (file_node (Import_Path imp))) st
  ▶ addEdge (nodeID "file" path) (nodeID "file" (Import_Path imp)) "imports" "solid".

(** What a file adds when it is not skipped. *)
Definition add_file (f : File) (st : Extraction) : Extraction :=
  addNode st (file_node (File_Path f))
  ▶ for_each (File_Statements f) (add_define (File_Path f))
  ▶ match File_Package f with
     | Some pkg => for_each (Package_Imports pkg) (add_import (File_Path f))
     | None => λ st, st
     end.

(** One file of the loop of AddFileNodes; [fileSet] holds the files seen. *)
Definition add_file_node (f : option File) (st : Extraction * gset string)
    : Extraction * gset string :=
  match f with
  | None => st
  | Some f =>
      let fid := nodeID "file" (File_Path f) in
      if String.eqb (File_Path f) "" || bool_decide (fid ∈ st.2) then st
      else (add_file f st.1, {[fid]} ∪ st.2)
  end.

(** AddFileNodes creates synthetic file nodes and defines/imports edges. *)
Definition AddFileNodes (g : Graph) (files : list (option File)) : Graph :=
  ComputeStats (for_each files add_file_node ((g, list_to_set (node_ids g)), ∅)).1.1.

(** The graph command between parsing and rendering; the files are those that
    parsed. *)
Definition command_graph (astFiles : list File) (parseErrors : list string) (noFiles noOrph : bool)
    : Graph :=
  let files := map Some astFiles in
  let g := (Extract files) <| Graph_Errors := parseErrors |> in
  let g := if_ (1 <? length astFiles)%nat (λ g, AddFileNodes g files) g in
  ComputeStats (if_ noOrph FilterOrphans (if_ noFiles FilterFiles g)).
End extract.
