(* ===== verification/GraphFacts.v ===== *)
(** The graph shows what the files declare: its nodes and edges are those of two
    relations on the syntax, it is closed (every edge joins two of its nodes),
    and the statistics are its sizes. *)
From S2P Require Import Prelude GoStd Ast Graph GoMaps.
Open Scope Z_scope.

(** * Extractions

    [ext P st st'] relates the states before and after an extractor: nodes are
    only added, the set of IDs stays that of the nodes, and [P] holds of the
    edges that are new. *)

Definition has_node (g : Graph) (id : string) : Prop := id ∈ node_ids g.

Definition known_source (g : Graph) (e : GraphEdge) : Prop := has_node g (GraphEdge_Source e).
Definition known_ends (g : Graph) (e : GraphEdge) : Prop :=
  has_node g (GraphEdge_Source e) ∧ has_node g (GraphEdge_Target e).

Definition edges_ok (P : Graph → GraphEdge → Prop) (g : Graph) : Prop :=
  ∀ e, e ∈ Graph_Edges g → P g e.

Definition tracks (st : Extraction) : Prop := ∀ id, id ∈ st.2 ↔ has_node st.1 id.

Definition more_nodes (g g' : Graph) : Prop := Graph_Nodes g ⊆ Graph_Nodes g'.

Lemma elem_of_has_node g id : has_node g id ↔ ∃ n, id = GraphNode_ID n ∧ n ∈ Graph_Nodes g.
Proof. unfold has_node, node_ids. apply list_elem_of_fmap. Qed.

Lemma more_has_node g g' id : more_nodes g g' → has_node g id → has_node g' id.
Proof. rewrite !elem_of_has_node. intros M (n & -> & I). exists n. split; [done | by apply M]. Qed.

Lemma for_each_middle {A S} (l1 l2 : list A) x (f : A → S → S) st :
  for_each (l1 ++ x :: l2) f st = for_each l2 f (f x (for_each l1 f st)).
Proof. unfold for_each. by rewrite foldl_app. Qed.

Section extension.
Context (P : Graph → GraphEdge → Prop) (P_mono : ∀ g g' e, more_nodes g g' → P g e → P g' e).

Record ext (st st' : Extraction) : Prop := {
  ext_tracks : tracks st → tracks st';
  ext_nodes : more_nodes st.1 st'.1;
  ext_edges : edges_ok P st.1 → edges_ok P st'.1;
}.

Lemma grows_refl st : ext st st.
Proof. split; [done | by unfold more_nodes | done]. Qed.

Lemma grows_trans st1 st2 st3 : ext st1 st2 → ext st2 st3 → ext st1 st3.
Proof. intros [T N E] [T' N' E']. split; [auto | | auto]. unfold more_nodes in *. by etrans. Qed.

Lemma node_ids_add g n :
  node_ids (g <| Graph_Nodes := Graph_Nodes g ++ [n] |>) = node_ids g ++ [GraphNode_ID n].
Proof. unfold node_ids. simpl. by rewrite map_app. Qed.

Lemma has_node_add st n id :
  has_node (addNode st n).1 id ↔ has_node st.1 id ∨ id = GraphNode_ID n.
Proof. unfold has_node, addNode. simpl. by rewrite node_ids_add, elem_of_app, list_elem_of_singleton. Qed.

Lemma ext_addNode st n : ext st (addNode st n).
Proof.
  assert (more_nodes st.1 (addNode st n).1) as M by (intros n' I; simpl; apply elem_of_app; by left).
  split; [|done|].
  - intros T id. rewrite has_node_add, <- (T id). simpl. clear -id. set_solver.
  - intros E e I. by eapply P_mono, E.
Qed.

Lemma ext_addEdge s t l y st :
  (∀ style, P st.1 (mkGraphEdge s t l style)) → ext st (addEdge s t l y st).
Proof.
  intros Hs. assert (more_nodes st.1 (addEdge s t l y st).1) as M by by unfold more_nodes.
  split; [intros T id; exact (T id) | done |].
  intros E e. simpl. rewrite elem_of_app, list_elem_of_singleton.
  intros [I| ->]; apply (P_mono st.1); [done | by apply E | done | apply Hs].
Qed.

(** [f] extends a state that has the node [id]. *)
Definition keeps (id : string) (f : Extraction → Extraction) : Prop :=
  ∀ st, has_node st.1 id → ext st (f st).

Lemma keeps_id id : keeps id (λ st, st).
Proof. intros st _. apply grows_refl. Qed.

Lemma keeps_if id b f : keeps id f → keeps id (if_ b f).
Proof. intros K. destruct b; [exact K | apply keeps_id]. Qed.

Lemma keeps_for_each {A} id (l : list A) f : (∀ x, x ∈ l → keeps id (f x)) → keeps id (for_each l f).
Proof.
  intros K. unfold for_each. induction l as [|x l IH]; intros st N; [apply grows_refl|]. simpl.
  assert (ext st (f x st)) as E by (apply K; [left | done]).
  eapply grows_trans; [exact E|]. apply IH; [intros; apply K; by right | by eapply more_has_node, N; apply (ext_nodes _ _ E)].
Qed.

(** A state that extends [st] and has the node [n]. *)
Definition reach (n : GraphNode) (st st' : Extraction) : Prop :=
  ext st st' ∧ n ∈ Graph_Nodes st'.1.

Lemma reach_addNode st n : reach n st (addNode st n).
Proof. split; [apply ext_addNode|]. simpl. apply elem_of_app. right. by left. Qed.

(** A step that needs a node which is there from the start. *)
Lemma reach_from other n st st' f :
  keeps other f → has_node st.1 other → reach n st st' → reach n st (f st').
Proof.
  intros K O [E N]. assert (ext st' (f st')) as E' by (apply K; eapply more_has_node, O; apply (ext_nodes _ _ E)).
  split; [by eapply grows_trans | by apply (ext_nodes _ _ E')].
Qed.

Lemma reach_step n st st' f : keeps (GraphNode_ID n) f → reach n st st' → reach n st (f st').
Proof.
  intros K [E N]. assert (ext st' (f st')) as E' by (apply K, elem_of_has_node; by exists n).
  split; [by eapply grows_trans | by apply (ext_nodes _ _ E')].
Qed.

Lemma ext_for_each {A} (l : list A) f st : (∀ x st, x ∈ l → ext st (f x st)) → ext st (for_each l f st).
Proof.
  intros K. unfold for_each. revert st. induction l as [|x l IH]; intros st; [apply grows_refl|]. simpl.
  eapply grows_trans; [apply K; left | apply IH; intros; apply K; by right].
Qed.
End extension.

Lemma known_source_mono g g' e : more_nodes g g' → known_source g e → known_source g' e.
Proof. apply more_has_node. Qed.

Lemma known_ends_mono g g' e : more_nodes g g' → known_ends g e → known_ends g' e.
Proof. intros M [S T]. split; by eapply more_has_node. Qed.

(** * Extractors *)

Abbreviation sext := (ext known_source).
Abbreviation skeeps := (keeps known_source).
Abbreviation sreach := (reach known_source).

Lemma keeps_addEdge id t l y : skeeps id (addEdge id t l y).
Proof. intros st N. apply ext_addEdge; [exact known_source_mono | done]. Qed.

Ltac keeps :=
  repeat first
    [ apply keeps_addEdge
    | apply keeps_if
    | apply keeps_for_each; [exact known_source_mono.. |]; intros
    | apply keeps_for_each; intros
    | apply keeps_id
    | match goal with |- keeps _ _ (match ?x with _ => _ end) => destruct x end ].

Ltac reaches :=
  repeat first
    [ exact (reach_addNode _ known_source_mono _ _)
    | apply reach_step; [keeps |] ].

Section extract.
Context `{GoRuntime}.

Lemma extract_step_keeps p file step :
  skeeps (nodeID "pipeline" (Pipeline_Name p)) (extract_step p file step).
Proof.
  intros st N. unfold extract_step.
  match goal with |- context [addNode _ ?n] => apply (reach_step known_source n) end; [keeps|].
  apply reach_step; [keeps|]. eapply reach_from; [keeps | exact N |]. reaches.
Qed.

(** [n] is the node of the entity that a statement of [file] declares. *)
Definition declares (s : Statement) (file : string) (n : GraphNode) : Prop :=
  GraphNode_ID n = stmtNodeID s ∧ GraphNode_File n = file ∧ GraphNode_Type n ≠ "file".

Lemma extractStatement_reaches file s st :
  stmtNodeID s ≠ "" → ∃ n, declares s file n ∧ sreach n st (extractStatement file s st).
Proof.
  destruct s; simpl; intros D; try done.
  all: unfold extractAgent, extractPrompt, extractSkill, extractMCPServer, extractMCPClient,
    extractPipeline, extractSecret, extractPolicy, extractGuardrail, extractUser, extractBinding,
    extractDeployTarget, extractStateConfig, extractEnvironment, extractTypeDef.
  all: match goal with |- context [addNode _ ?n] => exists n end; split; [by split_and! | reaches].
  apply extract_step_keeps.
Qed.

Lemma extractStatement_ext file s st : sext st (extractStatement file s st).
Proof.
  destruct (decide (stmtNodeID s = "")) as [E|N].
  - destruct s; try (simpl; apply grows_refl); try discriminate E.
    apply ext_for_each. intros p st' _. apply ext_addNode, known_source_mono.
  - by destruct (extractStatement_reaches file s st N) as (n & _ & ? & _).
Qed.

Lemma ext_same (g g' : Graph) ns :
  Graph_Nodes g' = Graph_Nodes g → Graph_Edges g' = Graph_Edges g → sext (g, ns) (g', ns).
Proof.
  intros N E.
  assert (∀ id, has_node g' id ↔ has_node g id) as I by (intros id; unfold has_node, node_ids; by rewrite N).
  split.
  - intros T id. rewrite (T id). symmetry. apply I.
  - unfold more_nodes. simpl. by rewrite N.
  - intros K e. simpl. rewrite E. intros Ie. by apply I, K.
Qed.

Lemma extractPlugins_ext pkg file st : sext st (extractPlugins pkg file st).
Proof. apply ext_for_each. intros p st' _. apply ext_addNode, known_source_mono. Qed.

Lemma extract_file_ext f st : sext st (extract_file f st).
Proof.
  destruct f as [f|]; [|apply grows_refl]. unfold extract_file. destruct st as [g nodeSet].
  eapply grows_trans; [|apply ext_for_each; intros; apply extractStatement_ext].
  destruct (File_Package f).
  - eapply grows_trans; [|apply extractPlugins_ext].
    apply ext_same; by destruct (String.eqb (File_Path f) ""), (String.eqb _ "").
  - apply ext_same; by destruct (String.eqb (File_Path f) "").
Qed.

(** * Placeholders *)

(** [st'] has the nodes of [st] and then placeholders, one for each other ID
    in [targets]. *)
Record filled (targets : list string) (st st' : Extraction) : Prop := {
  filled_tracks : tracks st';
  filled_edges : Graph_Edges st'.1 = Graph_Edges st.1;
  filled_files : Graph_Files st'.1 = Graph_Files st.1;
  filled_nodes : ∃ ids, Graph_Nodes st'.1 = Graph_Nodes st.1 ++ map missing_node ids ∧ NoDup ids ∧
    ∀ id, id ∈ ids ↔ id ∈ targets ∧ ¬ has_node st.1 id;
}.

Lemma missing_node_ID target : GraphNode_ID (missing_node target) = target.
Proof. unfold missing_node. by destruct (SplitN2 target ":") as [|? [|? [|]]]. Qed.

Lemma node_ids_filled g g' ids :
  Graph_Nodes g' = Graph_Nodes g ++ map missing_node ids → node_ids g' = node_ids g ++ ids.
Proof.
  unfold node_ids. intros ->. rewrite map_app, map_map. f_equal.
  rewrite <- (map_id ids) at 2. apply map_ext, missing_node_ID.
Qed.

Lemma resolve_edge_filled targets st0 st e :
  filled targets st0 st → filled (targets ++ [GraphEdge_Target e]) st0 (resolve_edge e st).
Proof.
  intros [T E F (ids & N & D & M)]. unfold resolve_edge, if_. set (t := GraphEdge_Target e).
  assert (∀ id, has_node st.1 id ↔ has_node st0.1 id ∨ id ∈ ids) as I.
  { intros id. unfold has_node. by rewrite (node_ids_filled _ _ _ N), elem_of_app. }
  destruct (bool_decide_reflect (t ∉ st.2)) as [A|A].
  - rewrite (T t), (I t) in A. split; [| done | done |].
    + by apply (ext_tracks _ _ _ (ext_addNode _ known_source_mono st (missing_node t))).
    + exists (ids ++ [t]). split_and!.
      * simpl. by rewrite N, map_app, app_assoc.
      * apply NoDup_app. split_and!; [done | | apply NoDup_singleton].
        intros x Ix. rewrite list_elem_of_singleton. intros ->. tauto.
      * intros id. rewrite !elem_of_app, !list_elem_of_singleton, M. naive_solver.
  - apply dec_stable in A. rewrite (T t), (I t) in A. split; [done | done | done |].
    exists ids. split_and!; [done | done |]. intros id. rewrite elem_of_app, list_elem_of_singleton.
    specialize (M id). naive_solver.
Qed.

Lemma resolveUnresolved_filled st :
  tracks st → filled (map GraphEdge_Target (Graph_Edges st.1)) st (resolveUnresolved st).
Proof.
  intros T. unfold resolveUnresolved, for_each.
  assert (∀ es targets st', filled targets st st' →
    filled (targets ++ map GraphEdge_Target es) st (foldl (λ st e, resolve_edge e st) st' es)) as L.
  { induction es as [|e es IH]; intros targets st' F; [by rewrite app_nil_r|]. simpl.
    rewrite cons_middle, app_assoc. by apply IH, resolve_edge_filled. }
  apply (L _ []). split; [done | done | done |]. exists [].
  split_and!; [by rewrite app_nil_r | constructor | set_solver].
Qed.

(** * Statistics *)

Definition count_type (t : string) (nodes : list GraphNode) : Z :=
  Z.of_nat (length (List.filter (λ n, String.eqb (GraphNode_Type n) t) nodes)).

Definition stats_exact (g : Graph) : Prop :=
  let s := Graph_Stats g in
  GraphStats_NodeCount s = Z.of_nat (length (Graph_Nodes g)) ∧
  GraphStats_EdgeCount s = Z.of_nat (length (Graph_Edges g)) ∧
  GraphStats_FileCount s = Z.of_nat (length (Graph_Files g)) ∧
  ∀ t, default 0 (GraphStats_TypeCounts s !! t) = count_type t (Graph_Nodes g).

Lemma type_counts_exact nodes t : default 0 (type_counts nodes !! t) = count_type t nodes.
Proof.
  unfold type_counts, for_each.
  assert (∀ m : gmap string Z, default 0 (foldl (λ m n, <[GraphNode_Type n := default 0 (m !! GraphNode_Type n) + 1]> m)
    m nodes !! t) = default 0 (m !! t) + count_type t nodes) as L.
  { induction nodes as [|n nodes IH]; intros m; simpl; [unfold count_type; simpl; lia|].
    rewrite IH. unfold count_type. simpl. destruct (String.eqb_spec (GraphNode_Type n) t) as [->|N].
    - rewrite lookup_insert_eq. simpl. lia.
    - by rewrite lookup_insert_ne. }
  by rewrite L, lookup_empty.
Qed.

Lemma ComputeStats_exact g : stats_exact (ComputeStats g).
Proof. split_and!; [done | done | done |]. apply type_counts_exact. Qed.

(** * The whole graph *)

Definition closed (g : Graph) : Prop := edges_ok known_ends g.

Lemma ComputeStats_closed g : closed g → closed (ComputeStats g).
Proof. done. Qed.

(** The extraction before placeholders are added. *)
Definition declared (files : list (option File)) : Extraction :=
  for_each files extract_file (empty_graph, ∅).

Lemma declared_ext files : sext (empty_graph, ∅) (declared files).
Proof. apply ext_for_each. intros f st _. apply extract_file_ext. Qed.

Lemma declared_tracks files : tracks (declared files).
Proof. apply (ext_tracks _ _ _ (declared_ext files)). intros id. unfold has_node. simpl. set_solver. Qed.

Definition resolved (files : list (option File)) : Extraction := resolveUnresolved (declared files).

Lemma resolved_filled files :
  filled (map GraphEdge_Target (Graph_Edges (declared files).1)) (declared files) (resolved files).
Proof. apply resolveUnresolved_filled, declared_tracks. Qed.

(** The placeholders are the nodes of the targets that no statement declares. *)
Definition unresolved (files : list (option File)) (n : GraphNode) : Prop :=
  ∃ e, e ∈ Graph_Edges (declared files).1 ∧ n = missing_node (GraphEdge_Target e) ∧
    ¬ has_node (declared files).1 (GraphEdge_Target e).

Lemma resolved_nodes files n :
  n ∈ Graph_Nodes (resolved files).1 ↔ n ∈ Graph_Nodes (declared files).1 ∨ unresolved files n.
Proof.
  destruct (resolved_filled files) as [_ _ _ (ids & -> & _ & M)]. rewrite elem_of_app.
  enough (n ∈ map missing_node ids ↔ unresolved files n) as -> by done.
  split.
  - intros (id & -> & ((e & -> & Ie)%list_elem_of_fmap & N)%M)%list_elem_of_fmap. exists e. split_and!; [exact Ie | reflexivity | exact N].
  - intros (e & Ie & -> & N). apply list_elem_of_fmap_2, M. split; [by apply list_elem_of_fmap_2 | done].
Qed.

Lemma resolved_closed files : closed (resolved files).1.
Proof.
  intros e Ie. rewrite (filled_edges _ _ _ (resolved_filled files)) in Ie.
  assert (∀ id, has_node (declared files).1 id → has_node (resolved files).1 id) as Up.
  { intros id. apply more_has_node. intros n I. apply resolved_nodes. left. exact I. }
  assert (has_node (declared files).1 (GraphEdge_Source e)) as S.
  { apply (ext_edges _ _ _ (declared_ext files)); [intros e' Ie'; inversion Ie' | exact Ie]. }
  split; [by apply Up|].
  destruct (decide (GraphEdge_Target e ∈ node_ids (declared files).1)) as [?|O]; [by apply Up|].
  apply elem_of_has_node. exists (missing_node (GraphEdge_Target e)). split; [by rewrite missing_node_ID|].
  apply resolved_nodes. right. by exists e.
Qed.

(** Every statement with a name of its own has its node. *)
Lemma declared_statement files f s :
  Some f ∈ files → s ∈ File_Statements f → stmtNodeID s ≠ "" →
  ∃ n, n ∈ Graph_Nodes (declared files).1 ∧ declares s (File_Path f) n.
Proof.
  intros If Is N. unfold declared.
  apply list_elem_of_split in If as (l1 & l2 & ->). rewrite for_each_middle.
  set (st := for_each l1 _ _).
  assert (∃ n, declares s (File_Path f) n ∧ n ∈ Graph_Nodes (extract_file (Some f) st).1) as (n & D & I).
  { unfold extract_file. destruct st as [g nodeSet].
    apply list_elem_of_split in Is as (s1 & s2 & ->). rewrite for_each_middle.
    match goal with |- context [extractStatement _ s ?st] =>
      destruct (extractStatement_reaches (File_Path f) s st N) as (n & D & _ & I) end.
    exists n. split; [done|]. revert I. apply (ext_nodes _ _ _ (ext_for_each known_source s2
      (extractStatement (File_Path f)) _ (λ x st _, extractStatement_ext (File_Path f) x st))). }
  exists n. split; [|done]. revert I.
  apply (ext_nodes _ _ _ (ext_for_each known_source l2 extract_file _ (λ f st _, extract_file_ext f st))).
Qed.
End extract.

(** * What a file shows

    The entities and the references of a statement, as relations on the syntax:
    the extractors add exactly these. *)

(** The declarations of a file; its package declares plugins. *)
Definition declarations (f : File) : list Statement :=
  (match File_Package f with Some pkg => [SPackage pkg] | None => [] end) ++ File_Statements f.

(** The type, the name and the position of the entity that a statement declares. *)
Inductive entity : Statement → string → string → Pos → Prop :=
  | agent_entity a : entity (SAgent a) "agent" (Agent_Name a) (Agent_StartPos a)
  | prompt_entity p : entity (SPrompt p) "prompt" (Prompt_Name p) (Prompt_StartPos p)
  | skill_entity s : entity (SSkill s) "skill" (Skill_Name s) (Skill_StartPos s)
  | server_entity m : entity (SMCPServer m) "mcp_server" (MCPServer_Name m) (MCPServer_StartPos m)
  | client_entity m : entity (SMCPClient m) "mcp_client" (MCPClient_Name m) (MCPClient_StartPos m)
  | pipeline_entity p : entity (SPipeline p) "pipeline" (Pipeline_Name p) (Pipeline_StartPos p)
  | secret_entity s : entity (SSecret s) "secret" (Secret_Name s) (Secret_StartPos s)
  | policy_entity p : entity (SPolicy p) "policy" (Policy_Name p) (Policy_StartPos p)
  | guardrail_entity g : entity (SGuardrail g) "guardrail" (Guardrail_Name g) (Guardrail_StartPos g)
  | user_entity u : entity (SUser u) "user" (User_Name u) (User_StartPos u)
  | binding_entity b : entity (SBinding b) "binding" (Binding_Name b) (Binding_StartPos b)
  | deploy_entity d : entity (SDeployTarget d) "deploy" (DeployTarget_Name d) (DeployTarget_StartPos d)
  | state_entity s : entity (SStateConfig s) "state"
      (if String.eqb (StateConfig_Name s) "" then StateConfig_Type s else StateConfig_Name s) (StateConfig_StartPos s)
  | env_entity e : entity (SEnvironment e) "env" (Environment_Name e) (Environment_StartPos e)
  | type_entity t : entity (STypeDef t) "type" (TypeDef_Name t) (TypeDef_StartPos t).

(** A node without its attributes. *)
Definition plain (n : GraphNode) : GraphNode :=
  mkGraphNode (GraphNode_ID n) (GraphNode_Type n) (GraphNode_Name n) (GraphNode_File n) (GraphNode_Line n) ∅.

(** What is shown for a declaration: a node for its entity, and for the steps of
    a pipeline and the plugins of a package. The attributes are left open. *)
Inductive shows (file : string) : Statement → GraphNode → Prop :=
  | shows_entity s typ name pos :
      entity s typ name pos → shows file s (mkGraphNode (typ +:+ ":" +:+ name) typ name file (Pos_Line pos) ∅)
  | shows_step p step :
      step ∈ Pipeline_Steps p →
      shows file (SPipeline p) (mkGraphNode ("step:" +:+ Pipeline_Name p +:+ "." +:+ PipelineStep_Name step)
        "step" (PipelineStep_Name step) file (Pos_Line (PipelineStep_StartPos step)) ∅)
  | shows_plugin pkg p :
      p ∈ Package_Plugins pkg →
      shows file (SPackage pkg) (mkGraphNode ("plugin:" +:+ PluginRef_Name p)
        "plugin" (PluginRef_Name p) file (Pos_Line (PluginRef_StartPos p)) ∅).

Definition solid (source target label : string) : GraphEdge := mkGraphEdge source target label "solid".
Definition dashed (source target label : string) : GraphEdge := mkGraphEdge source target label "dashed".

(** The references of a declaration. *)
Inductive draws : Statement → GraphEdge → Prop :=
  | draws_prompt a r : Agent_Prompt a = Some r →
      draws (SAgent a) (solid ("agent:" +:+ Agent_Name a) ("prompt:" +:+ Ref_Name r) "uses prompt")
  | draws_skill a r : r ∈ Agent_Skills a →
      draws (SAgent a) (solid ("agent:" +:+ Agent_Name a) ("skill:" +:+ Ref_Name r) "uses skill")
  | draws_guardrail a g : g ∈ Agent_GuardrailRefs a →
      draws (SAgent a) (solid ("agent:" +:+ Agent_Name a) ("guardrail:" +:+ g) "uses guardrail")
  | draws_client a r : Agent_Client a = Some r →
      draws (SAgent a) (solid ("agent:" +:+ Agent_Name a) ("mcp_client:" +:+ Ref_Name r) "uses client")
  | draws_delegate a d : d ∈ Agent_Delegates a →
      draws (SAgent a) (dashed ("agent:" +:+ Agent_Name a) ("agent:" +:+ Delegate_AgentRef d) "delegates to")
  | draws_fallback a : Agent_Fallback a ≠ "" →
      draws (SAgent a) (dashed ("agent:" +:+ Agent_Name a) ("agent:" +:+ Agent_Fallback a) "fallback")
  | draws_tool s tc : Skill_ToolConfig s = Some tc → ToolConfig_ServerTool tc ≠ "" →
      draws (SSkill s) (solid ("skill:" +:+ Skill_Name s)
        ("mcp_server:" +:+ default "" (head (SplitN2 (ToolConfig_ServerTool tc) "/"))) "uses tool")
  | draws_server c r : r ∈ MCPClient_Servers c →
      draws (SMCPClient c) (solid ("mcp_client:" +:+ MCPClient_Name c) ("mcp_server:" +:+ Ref_Name r) "connects to")
  | draws_contains p step : step ∈ Pipeline_Steps p →
      draws (SPipeline p) (solid ("pipeline:" +:+ Pipeline_Name p)
        ("step:" +:+ Pipeline_Name p +:+ "." +:+ PipelineStep_Name step) "contains")
  | draws_invokes p step : step ∈ Pipeline_Steps p → PipelineStep_Agent step ≠ "" →
      draws (SPipeline p) (solid ("step:" +:+ Pipeline_Name p +:+ "." +:+ PipelineStep_Name step)
        ("agent:" +:+ PipelineStep_Agent step) "invokes")
  | draws_depends p step dep : step ∈ Pipeline_Steps p → dep ∈ PipelineStep_DependsOn step →
      draws (SPipeline p) (solid ("step:" +:+ Pipeline_Name p +:+ "." +:+ PipelineStep_Name step)
        ("step:" +:+ Pipeline_Name p +:+ "." +:+ dep) "depends on")
  | draws_governs p rule : rule ∈ Policy_Rules p → Rule_Resource rule ≠ "" →
      draws (SPolicy p) (solid ("policy:" +:+ Policy_Name p) ("policy_target:" +:+ Rule_Resource rule) "governs")
  | draws_access u agent : agent ∈ User_Agents u →
      draws (SUser u) (solid ("user:" +:+ User_Name u) ("agent:" +:+ agent) "can access")
  | draws_override e ov : ov ∈ Environment_Overrides e → Override_Resource ov ≠ "" →
      draws (SEnvironment e) (dashed ("env:" +:+ Environment_Name e) ("env_target:" +:+ Override_Resource ov) "overrides").

(** [grown E N st st']: the edges that [st'] has and [st] has not are those of
    [E], and the nodes, up to attributes, those of [N]. *)
Definition grown (E : GraphEdge → Prop) (N : GraphNode → Prop) (st st' : Extraction) : Prop :=
  (∀ e, e ∈ Graph_Edges st'.1 ↔ e ∈ Graph_Edges st.1 ∨ E e) ∧
  (∀ n, n ∈ map plain (Graph_Nodes st'.1) ↔ n ∈ map plain (Graph_Nodes st.1) ∨ N n).

Lemma grown_same st : grown (λ _, False) (λ _, False) st st.
Proof. split; naive_solver. Qed.

Lemma grown_iff E N E' N' st st' :
  grown E N st st' → (∀ e, E e ↔ E' e) → (∀ n, N n ↔ N' n) → grown E' N' st st'.
Proof. intros [GE GN] HE HN. split; intros; [rewrite GE, HE|rewrite GN, HN]; done. Qed.

Lemma grown_node E N st st' n : grown E N st st' → grown E (λ n', N n' ∨ n' = plain n) st (addNode st' n).
Proof.
  intros [GE GN]. split; [done|]. intros n'. unfold addNode. simpl.
  rewrite map_app, elem_of_app, GN. cbn [map]. rewrite list_elem_of_singleton. tauto.
Qed.

Lemma grown_edge E N st st' s t l y : y ≠ "" →
  grown E N st st' → grown (λ e, E e ∨ e = mkGraphEdge s t l y) N st (addEdge s t l y st').
Proof.
  intros Y [GE GN]. split; [|done]. intros e. unfold addEdge. apply String.eqb_neq in Y. rewrite Y. simpl.
  rewrite elem_of_app, GE, list_elem_of_singleton. tauto.
Qed.

Lemma grown_if E N E' N' st st' (b : bool) f : grown E N st st' → (∀ st, grown E' N' st (f st)) →
  grown (λ e, E e ∨ b = true ∧ E' e) (λ n, N n ∨ b = true ∧ N' n) st (if_ b f st').
Proof.
  intros [GE GN] F. destruct (F st') as [FE FN]. destruct b; simpl; split; intros;
    rewrite ?FE, ?FN, ?GE, ?GN; naive_solver.
Qed.

Lemma grown_for_each {A} E N E' N' st st' (l : list A) f :
  grown E N st st' → (∀ x st, grown (E' x) (N' x) st (f x st)) →
  grown (λ e, E e ∨ ∃ x, x ∈ l ∧ E' x e) (λ n, N n ∨ ∃ x, x ∈ l ∧ N' x n) st (for_each l f st').
Proof.
  unfold for_each. intros G F. revert E N st' G. induction l as [|x l IH]; intros E N st' G; cbn [foldl].
  - eapply grown_iff; [exact G|..]; intros; set_solver.
  - destruct G as [GE GN]. destruct (F x st') as [FE FN].
    eapply grown_iff; [apply (IH (λ e, E e ∨ E' x e) (λ n, N n ∨ N' x n))|..].
    + split; intros; rewrite ?FE, ?FN, ?GE, ?GN; tauto.
    + intros e. setoid_rewrite elem_of_cons. naive_solver.
    + intros n. setoid_rewrite elem_of_cons. naive_solver.
Qed.

Ltac grows :=
  repeat first
    [ apply grown_same
    | apply grown_node
    | apply grown_edge; [done|]
    | eapply grown_if; [|intros]
    | eapply grown_for_each; [|intros] ].

(** Solves the disjunctions of [grown]. *)
Ltac pick :=
  cbv beta;
  lazymatch goal with
  | |- _ ∨ _ => first [left; solve [pick] | right; solve [pick]]
  | |- ∃ _, _ => eexists; pick
  | |- _ ∈ _ ∧ _ => split; [eassumption | pick]
  | |- negb _ = true ∧ _ => split; [by apply negb_true_iff, String.eqb_neq | pick]
  | |- _ = _ => reflexivity
  end.

Ltac grown_cases :=
  repeat match goal with
  | H : _ ∨ _ |- _ => destruct H as [H|H]
  | H : ∃ _, _ |- _ => destruct H as [? H]
  | H : _ ∧ _ |- _ => destruct H as [? H]
  | H : False |- _ => destruct H
  | H : negb (String.eqb _ _) = true |- _ => apply negb_true_iff, String.eqb_neq in H
  end.

Section grown.
Context `{GoRuntime}.

Lemma extractStatement_grown file s st : grown (draws s) (shows file s) st (extractStatement file s st).
Proof.
  destruct s as [s|s|s|s|s|s|s|s|s|s|s|s|s|s|s|s|s|s|s]; simpl;
    unfold extractAgent, extractPrompt, extractSkill, extractMCPServer, extractMCPClient,
    extractPipeline, extract_step, extractSecret, extractPolicy, extractGuardrail, extractUser, extractBinding,
    extractDeployTarget, extractStateConfig, extractEnvironment, extractTypeDef, extractPlugins, state_name, nodeID;
    try destruct (Skill_ToolConfig s) eqn:?; try (destruct (Agent_Prompt s) eqn:?, (Agent_Client s) eqn:?).
  all: eapply grown_iff; [grows|..]; intros x; cbv beta; unfold plain;
    cbn [GraphNode_ID GraphNode_Type GraphNode_Name GraphNode_File GraphNode_Line];
    (split; [intros D; grown_cases; subst; by repeat econstructor
    |intros D; inversion D; subst; try match goal with E : entity _ _ _ _ |- _ => inversion E; subst end; simplify_eq; pick]).
Qed.

Lemma extract_file_grown f st :
  grown (λ e, ∃ s, s ∈ declarations f ∧ draws s e) (λ n, ∃ s, s ∈ declarations f ∧ shows (File_Path f) s n)
    st (extract_file (Some f) st).
Proof.
  assert (∀ g g' ns, Graph_Nodes g' = Graph_Nodes g → Graph_Edges g' = Graph_Edges g →
    grown (λ e, ∃ s, s ∈ declarations f ∧ draws s e) (λ n, ∃ s, s ∈ declarations f ∧ shows (File_Path f) s n)
      (g', ns) (for_each (declarations f) (extractStatement (File_Path f)) (g', ns)) →
    grown (λ e, ∃ s, s ∈ declarations f ∧ draws s e) (λ n, ∃ s, s ∈ declarations f ∧ shows (File_Path f) s n)
      (g, ns) (for_each (declarations f) (extractStatement (File_Path f)) (g', ns))) as Same.
  { intros g g' ns N E. unfold grown. simpl. by rewrite N, E. }
  assert (∀ st, grown (λ e, ∃ s, s ∈ declarations f ∧ draws s e) (λ n, ∃ s, s ∈ declarations f ∧ shows (File_Path f) s n)
    st (for_each (declarations f) (extractStatement (File_Path f)) st)) as All.
  { intros st'. eapply grown_iff; [eapply grown_for_each; [apply grown_same|intros; apply extractStatement_grown]|..];
      naive_solver. }
  destruct st as [g ns]. unfold extract_file. destruct (File_Package f) as [pkg|] eqn:P.
  - assert (∀ st, for_each (File_Statements f) (extractStatement (File_Path f)) (extractPlugins pkg (File_Path f) st) =
      for_each (declarations f) (extractStatement (File_Path f)) st) as -> by (intros st; unfold declarations; by rewrite P).
    apply Same; [by destruct (String.eqb (File_Path f) ""), (String.eqb _ "")..|apply All].
  - assert (File_Statements f = declarations f) as -> by (unfold declarations; by rewrite P).
    apply Same; [by destruct (String.eqb (File_Path f) "")..|apply All].
Qed.

(** What the files show. *)
Definition shown (files : list File) (n : GraphNode) : Prop :=
  ∃ f s, f ∈ files ∧ s ∈ declarations f ∧ shows (File_Path f) s n.
Definition drawn (files : list File) (e : GraphEdge) : Prop :=
  ∃ f s, f ∈ files ∧ s ∈ declarations f ∧ draws s e.

Lemma declared_exact files :
  (∀ e, e ∈ Graph_Edges (declared (map Some files)).1 ↔ drawn files e) ∧
  (∀ n, n ∈ map plain (Graph_Nodes (declared (map Some files)).1) ↔ shown files n).
Proof.
  assert (∀ st, for_each (map Some files) extract_file st = for_each files (λ f, extract_file (Some f)) st) as E.
  { unfold for_each. induction files as [|f l IH]; intros st; [done|]. apply IH. }
  unfold declared. rewrite E.
  destruct (grown_for_each _ _ _ _ (empty_graph, ∅) (empty_graph, ∅) files (λ f, extract_file (Some f))
    (grown_same _) (λ f st, extract_file_grown f st)) as [GE GN].
  split; intros x; [rewrite GE|rewrite GN]; unfold drawn, shown; simpl; rewrite elem_of_nil; naive_solver.
Qed.
End grown.

(** The node that stands for a target that nothing declares. *)
Inductive placeholder (files : list File) : GraphNode → Prop :=
  | placeholder_for e typ name :
      drawn files e → GraphEdge_Target e = typ +:+ ":" +:+ name → (∀ u v, typ ≠ u +:+ ":" +:+ v) →
      (∀ n, shown files n → GraphNode_ID n ≠ GraphEdge_Target e) →
      placeholder files (mkGraphNode (GraphEdge_Target e) typ name "" 0 {["missing" := "true"]}).

(** The types of the ends of references. *)
Definition end_types : list string :=
  ["agent"; "prompt"; "skill"; "guardrail"; "mcp_client"; "mcp_server"; "pipeline"; "step"; "policy"; "policy_target";
   "user"; "env"; "env_target"].

Lemma draws_ends s e : draws s e →
  (∃ t x, t ∈ end_types ∧ GraphEdge_Source e = t +:+ ":" +:+ x) ∧
  (∃ t x, t ∈ end_types ∧ GraphEdge_Target e = t +:+ ":" +:+ x).
Proof.
  intros []; (split; [|]); cbn [solid dashed GraphEdge_Source GraphEdge_Target];
    match goal with |- ∃ t x, t ∈ _ ∧ ?s +:+ _ = _ =>
      let t := eval vm_compute in (str_take (String.length s - 1) s) in exists t end;
    eexists; (split; [by apply (bool_decide_unpack _)|reflexivity]).
Qed.

Lemma Index_colon t x : Index t ":" = None → Index (t +:+ ":" +:+ x) ":" = Some (String.length t).
Proof.
  induction t as [|c t IH]; intros N.
  - apply Index_prefix, HasPrefix_spec. by exists x.
  - change (String c t +:+ ":" +:+ x) with (String c (t +:+ ":" +:+ x)). destruct (HasPrefix (String c t) ":") eqn:P; [by rewrite Index_prefix in N|].
    assert (HasPrefix (String c (t +:+ ":" +:+ x)) ":" = false) as P'.
    { apply not_true_iff_false. intros [u E]%HasPrefix_spec. injection E as -> _.
      assert (HasPrefix (String ":" t) ":" = true) as C by (apply HasPrefix_spec; by exists t). congruence. }
    rewrite (Index_cons _ _ _ P) in N. rewrite (Index_cons _ _ _ P'). destruct (Index t ":") eqn:I; [done|].
    rewrite IH by done. done.
Qed.

Lemma end_type_no_colon t : t ∈ end_types → Index t ":" = None.
Proof.
  unfold end_types. intros I. repeat (apply elem_of_cons in I as [->|I]; [done|]). by apply elem_of_nil in I.
Qed.

Lemma missing_node_typed t x : t ∈ end_types →
  missing_node (t +:+ ":" +:+ x) = mkGraphNode (t +:+ ":" +:+ x) t x "" 0 {["missing" := "true"]}.
Proof.
  intros I%end_type_no_colon. unfold missing_node, SplitN2. rewrite Index_colon by done.
  assert (str_drop (String.length t + String.length ":") (t +:+ ":" +:+ x) = x) as ->; [|by rewrite str_take_app].
  rewrite (str_app_assoc t ":" x). rewrite <- str_app_length. apply str_drop_app.
Qed.

Lemma unresolved_placeholder `{GoRuntime} files n : unresolved (map Some files) n → placeholder files n.
Proof.
  destruct (declared_exact files) as [DE DN]. intros (e & Ie%DE & -> & N).
  destruct Ie as (f & s & If & Is & D). destruct (draws_ends s e D) as [_ (t & x & It & E)].
  rewrite E, missing_node_typed, <- E by done. apply placeholder_for; [by exists f, s|done|..].
  - intros u v ->. apply end_type_no_colon in It. by eapply Index_None in It.
  - intros m (n & -> & In)%DN%list_elem_of_fmap M. apply N, elem_of_has_node. by exists n.
Qed.


(** The graph command: file nodes and filters keep the graph closed, and the
    result shows exactly the declared entities, the files and the references
    that nothing declares. *)

(** * Filters *)

Section filters.
Context (keep : GraphNode → bool) (g : Graph).

Lemma elem_of_filterNodes n : n ∈ Graph_Nodes (filterNodes keep g) ↔ n ∈ Graph_Nodes g ∧ keep n = true.
Proof. apply elem_of_List_filter. Qed.

(** An ID that [keep] removes is removed with all its edges. *)
Lemma elem_of_filterNodes_edges e :
  e ∈ Graph_Edges (filterNodes keep g) ↔
  e ∈ Graph_Edges g ∧
  (∀ n, n ∈ Graph_Nodes g → keep n = false →
     GraphNode_ID n ≠ GraphEdge_Source e ∧ GraphNode_ID n ≠ GraphEdge_Target e).
Proof.
  simpl. rewrite elem_of_List_filter, andb_true_iff, !bool_decide_eq_true.
  assert (∀ id, id ∈ (list_to_set (map GraphNode_ID (List.filter (λ n, negb (keep n)) (Graph_Nodes g))) : gset string)
    ↔ ∃ n, n ∈ Graph_Nodes g ∧ keep n = false ∧ GraphNode_ID n = id) as R.
  { intros id. rewrite elem_of_list_to_set. split.
    - intros (n & -> & [I K%negb_true_iff]%elem_of_List_filter)%list_elem_of_fmap. by exists n.
    - intros (n & I & K & <-). apply list_elem_of_fmap_2, elem_of_List_filter. by rewrite K. }
  rewrite !R. apply and_iff_compat_l. split.
  - intros [S T] n I K. split; intros E; [apply S | apply T]; by exists n.
  - intros N. split; intros (n & I & K & E); by destruct (N n I K).
Qed.

Lemma filterNodes_closed : closed g → closed (filterNodes keep g).
Proof.
  intros C e [Ie R]%elem_of_filterNodes_edges. destruct (C e Ie) as [S T].
  apply elem_of_has_node in S as (n & En & In), T as (n' & En' & In').
  split; apply elem_of_has_node; [exists n | exists n']; split; [done | | done |]; apply elem_of_filterNodes.
  - split; [done|]. destruct (keep n) eqn:K; [done|]. by destruct (R n In K) as [? _].
  - split; [done|]. destruct (keep n') eqn:K; [done|]. by destruct (R n' In' K) as [_ ?].
Qed.
End filters.

(** A node is an end of an edge. *)
Definition connected (g : Graph) (id : string) : Prop :=
  ∃ e, e ∈ Graph_Edges g ∧ (GraphEdge_Source e = id ∨ GraphEdge_Target e = id).

Lemma elem_of_FilterOrphans g n :
  n ∈ Graph_Nodes (FilterOrphans g) ↔ n ∈ Graph_Nodes g ∧ connected g (GraphNode_ID n).
Proof.
  unfold FilterOrphans. rewrite elem_of_filterNodes, bool_decide_eq_true, elem_of_union, !elem_of_list_to_set.
  apply and_iff_compat_l. unfold connected. split.
  - intros [(e & -> & I)%list_elem_of_fmap|(e & -> & I)%list_elem_of_fmap]; exists e; auto.
  - intros (e & I & [<-|<-]); [left|right]; by apply list_elem_of_fmap_2.
Qed.

(** No edge is lost with the orphans. *)
Lemma FilterOrphans_edges g e : e ∈ Graph_Edges (FilterOrphans g) ↔ e ∈ Graph_Edges g.
Proof.
  unfold FilterOrphans. rewrite elem_of_filterNodes_edges. split; [by intros [? _]|].
  intros I. split; [done|]. intros n _. rewrite bool_decide_eq_false, elem_of_union, !elem_of_list_to_set.
  intros N. split; intros E; apply N; [left|right]; rewrite E; by apply list_elem_of_fmap_2.
Qed.

(** * File nodes *)

(** The state of AddFileNodes: the set of IDs is that of the nodes and every
    edge joins two nodes. *)
Definition well_linked (st : Extraction) : Prop := tracks st ∧ closed st.1.

(** Nodes and edges are only added, the nodes being file nodes. *)
Record files_added (st st' : Extraction) : Prop := {
  fa_linked : well_linked st → well_linked st';
  fa_nodes : Graph_Nodes st.1 ⊆ Graph_Nodes st'.1;
  fa_ids : st.2 ⊆ st'.2;
  fa_edges : Graph_Edges st.1 ⊆ Graph_Edges st'.1;
  fa_only : ∀ n, n ∈ Graph_Nodes st'.1 → n ∈ Graph_Nodes st.1 ∨ ∃ path, n = file_node path;
  fa_same : Graph_Errors st'.1 = Graph_Errors st.1;
}.

#[global] Instance files_added_preorder : PreOrder files_added.
Proof.
  split.
  - intros st. split; auto.
  - intros st1 st2 st3 [L N I E O S] [L' N' I' E' O' S']. split; [auto | by etrans.. | | congruence].
    intros n [In|F]%O'; [by apply O | by right].
Qed.

Lemma files_added_node path st : files_added st (addNode st (file_node path)).
Proof.
  split.
  - intros [T C]. split.
    + by apply (ext_tracks _ _ _ (ext_addNode _ known_ends_mono st _)).
    + by apply (ext_edges _ _ _ (ext_addNode _ known_ends_mono st _)).
  - intros n I. apply elem_of_app. by left.
  - simpl. set_solver.
  - done.
  - intros n [I|I%list_elem_of_singleton]%elem_of_app; [by left | right; by exists path].
  - done.
Qed.

Lemma files_added_edge s t l y st :
  s ∈ st.2 → t ∈ st.2 → files_added st (addEdge s t l y st).
Proof.
  intros Is It. split; [| done | done | | by left | done].
  - intros [T C]. split; [exact T|]. rewrite (T s) in Is. rewrite (T t) in It.
    by apply (ext_edges _ _ _ (ext_addEdge _ known_ends_mono s t l y st (λ _, conj Is It))).
  - intros e I. apply elem_of_app. by left.
Qed.

(** A loop that needs the node [id]. *)
Lemma files_added_for_each {A} id (l : list A) f st :
  id ∈ st.2 → (∀ x st, id ∈ st.2 → files_added st (f x st)) → files_added st (for_each l f st).
Proof.
  intros I K. unfold for_each. revert st I. induction l as [|x l IH]; intros st I; [done|]. simpl.
  pose proof (K x st I) as F. etrans; [exact F | by apply IH, (fa_ids _ _ F)].
Qed.

(** The edge from a file to an entity it declares. *)
Definition defines (path id : string) : GraphEdge := mkGraphEdge (nodeID "file" path) id "defines" "solid".

Lemma add_define_added path stmt st :
  nodeID "file" path ∈ st.2 → files_added st (add_define path stmt st).
Proof.
  intros I. unfold add_define, if_. destruct (_ && _) eqn:E; [|done].
  apply andb_true_iff in E as [_ E%bool_decide_eq_true]. by apply files_added_edge.
Qed.

Lemma add_defines_edge path l s st :
  nodeID "file" path ∈ st.2 → s ∈ l → stmtNodeID s ≠ "" → stmtNodeID s ∈ st.2 →
  defines path (stmtNodeID s) ∈ Graph_Edges (for_each l (add_define path) st).1.
Proof.
  intros F (l1 & l2 & ->)%list_elem_of_split N I. rewrite for_each_middle.
  pose proof (files_added_for_each _ l1 _ _ F (λ x st, add_define_added path x st)) as A1.
  set (st1 := for_each l1 _ st) in *. apply (fa_ids _ _ A1) in F, I.
  pose proof (fa_edges _ _ (files_added_for_each _ l2 _ (add_define path s st1)
    (fa_ids _ _ (add_define_added path s st1 F) _ F) (λ x st, add_define_added path x st))) as A2.
  apply A2. unfold add_define, if_. rewrite (proj2 (String.eqb_neq _ _) N), bool_decide_true by done.
  apply elem_of_app. right. by left.
Qed.

Lemma add_import_added path imp st :
  nodeID "file" path ∈ st.2 → files_added st (add_import path imp st).
Proof.
  intros I. unfold add_import, if_. set (id := nodeID "file" (Import_Path imp)).
  destruct (bool_decide_reflect (id ∉ st.2)) as [N|N%dec_stable].
  - etrans; [apply (files_added_node (Import_Path imp))|]. apply files_added_edge; simpl.
    + apply elem_of_union. by right.
    + apply elem_of_union. left. apply elem_of_singleton. done.
  - by apply files_added_edge.
Qed.

Lemma add_file_node_eq f (st : Extraction) seen :
  add_file_node (Some f) (st, seen) =
  if String.eqb (File_Path f) "" || bool_decide (nodeID "file" (File_Path f) ∈ seen) then (st, seen)
  else (add_file f st, {[nodeID "file" (File_Path f)]} ∪ seen).
Proof. done. Qed.

Lemma file_node_known st path : nodeID "file" path ∈ (addNode st (file_node path)).2.
Proof. apply elem_of_union. left. by apply elem_of_singleton. Qed.

Lemma add_defines_added path l st :
  nodeID "file" path ∈ st.2 → files_added st (for_each l (add_define path) st).
Proof. intros I. apply (files_added_for_each _ _ _ _ I). intros x st'. apply add_define_added. Qed.

Lemma add_imports_added path pkg st :
  nodeID "file" path ∈ st.2 →
  files_added st (match pkg with
                  | Some pkg => for_each (Package_Imports pkg) (add_import path)
                  | None => λ st, st
                  end st).
Proof.
  intros I. destruct pkg as [pkg|]; [|done]. apply (files_added_for_each _ _ _ _ I).
  intros x st'. apply add_import_added.
Qed.

Lemma add_file_added f st : files_added st (add_file f st).
Proof.
  unfold add_file. etrans; [apply (files_added_node (File_Path f))|].
  pose proof (add_defines_added (File_Path f) (File_Statements f) _ (file_node_known st _)) as D.
  etrans; [exact D|]. apply add_imports_added, (fa_ids _ _ D), file_node_known.
Qed.

Lemma add_file_defines f st s :
  s ∈ File_Statements f → stmtNodeID s ≠ "" → stmtNodeID s ∈ st.2 →
  defines (File_Path f) (stmtNodeID s) ∈ Graph_Edges (add_file f st).1.
Proof.
  intros Is N I. pose proof (file_node_known st (File_Path f)) as F.
  apply (fa_edges _ _ (add_imports_added (File_Path f) (File_Package f) _
    (fa_ids _ _ (add_defines_added _ (File_Statements f) _ F) _ F))).
  apply add_defines_edge; [done.. |]. by apply (fa_ids _ _ (files_added_node (File_Path f) st)).
Qed.

Lemma add_file_node_added f st : files_added st.1 (add_file_node f st).1.
Proof.
  destruct f as [f|], st as [st seen]; [|done]. rewrite add_file_node_eq.
  destruct (_ || _); [done | apply add_file_added].
Qed.

Lemma AddFileNodes_loop_added files st : files_added st.1 (for_each files add_file_node st).1.
Proof.
  unfold for_each. revert st. induction files as [|f files IH]; intros st; [done|]. simpl.
  etrans; [apply add_file_node_added | apply IH].
Qed.

(** The files seen are among those that came before. *)
Lemma files_seen files (st : Extraction) seen id :
  id ∈ (for_each (map Some files) add_file_node (st, seen)).2 →
  id ∈ seen ∨ ∃ f, f ∈ files ∧ id = nodeID "file" (File_Path f).
Proof.
  unfold for_each. revert st seen. induction files as [|f files IH]; intros st seen I; [by left|].
  cbn [map foldl] in I. rewrite add_file_node_eq in I. destruct (_ || _); apply IH in I.
  - destruct I as [I|(g & G & ->)]; [by left | right; exists g; split; [by right | done]].
  - destruct I as [[->%elem_of_singleton|I]%elem_of_union|(g & G & ->)].
    + right. exists f. split; [by left | done].
    + by left.
    + right. exists g. split; [by right | done].
Qed.

Lemma nodeID_inj t p q : nodeID t p = nodeID t q → p = q.
Proof. unfold nodeID. intros E%(inj _). by apply (inj (String.append ":")) in E. Qed.

(** Every file with a path of its own is added. *)
Lemma AddFileNodes_loop_adds files (st : Extraction) f :
  NoDup (map File_Path files) → f ∈ files → File_Path f ≠ "" →
  ∃ st1, st.2 ⊆ st1.2 ∧ files_added (add_file f st1) (for_each (map Some files) add_file_node (st, ∅)).1.
Proof.
  intros D (l1 & l2 & ->)%list_elem_of_split P.
  rewrite map_app in D. apply NoDup_app in D as (_ & D & _).
  rewrite map_app. cbn [map]. rewrite for_each_middle.
  pose proof (AddFileNodes_loop_added (map Some l1) (st, ∅)) as A1.
  pose proof (files_seen l1 st ∅ (nodeID "file" (File_Path f))) as S.
  destruct (for_each (map Some l1) add_file_node (st, ∅)) as [st1 seen1]. simpl in A1.
  exists st1. split; [by apply (fa_ids _ _ A1)|]. rewrite add_file_node_eq.
  rewrite (proj2 (String.eqb_neq _ _) P), bool_decide_false.
  - apply (AddFileNodes_loop_added (map Some l2) (_, _)).
  - intros J. destruct (S J) as [J'|(g & G & E%nodeID_inj)]; [by apply not_elem_of_empty in J'|].
    apply (D (File_Path f)); [rewrite E; by apply list_elem_of_fmap_2 | left].
Qed.

Lemma add_file_imports f st pkg imp :
  File_Package f = Some pkg → imp ∈ Package_Imports pkg →
  solid ("file:" +:+ File_Path f) ("file:" +:+ Import_Path imp) "imports" ∈ Graph_Edges (add_file f st).1.
Proof.
  intros P (l1 & l2 & E)%list_elem_of_split. unfold add_file. rewrite P, E, for_each_middle.
  pose proof (add_defines_added (File_Path f) (File_Statements f) _ (file_node_known st (File_Path f))) as A.
  set (st1 := for_each (File_Statements f) _ _) in *.
  pose proof (fa_ids _ _ A _ (file_node_known st (File_Path f))) as K1.
  pose proof (files_added_for_each _ l1 _ _ K1 (λ x st, add_import_added (File_Path f) x st)) as A1.
  pose proof (fa_ids _ _ A1 _ K1) as K2. set (st2 := for_each l1 _ st1) in *.
  pose proof (add_import_added (File_Path f) imp st2 K2) as A2.
  apply (fa_edges _ _ (files_added_for_each _ l2 _ _ (fa_ids _ _ A2 _ K2) (λ x st, add_import_added (File_Path f) x st))).
  unfold add_import. apply elem_of_app. right. by left.
Qed.

Lemma add_file_node_in f st : file_node (File_Path f) ∈ Graph_Nodes (add_file f st).1.
Proof.
  unfold add_file. pose proof (file_node_known st (File_Path f)) as K.
  pose proof (add_defines_added (File_Path f) (File_Statements f) _ K) as A.
  apply (fa_nodes _ _ (add_imports_added (File_Path f) (File_Package f) _ (fa_ids _ _ A _ K))), (fa_nodes _ _ A).
  apply elem_of_app. right. by left.
Qed.

(** * The command *)

Section command.
Context `{GoRuntime}.
Context (files : list File).

(** The nodes of files, and the edges from them. *)
Inductive file_shown : GraphNode → Prop :=
  | shows_file f : f ∈ files → File_Path f ≠ "" →
      file_shown (mkGraphNode ("file:" +:+ File_Path f) "file" (File_Path f) (File_Path f) 1 ∅)
  | shows_imported f pkg imp : f ∈ files → File_Path f ≠ "" → File_Package f = Some pkg → imp ∈ Package_Imports pkg →
      file_shown (mkGraphNode ("file:" +:+ Import_Path imp) "file" (Import_Path imp) (Import_Path imp) 1 ∅).

Inductive file_drawn : GraphEdge → Prop :=
  | draws_defines f s typ name pos :
      f ∈ files → File_Path f ≠ "" → s ∈ File_Statements f → entity s typ name pos →
      file_drawn (solid ("file:" +:+ File_Path f) (typ +:+ ":" +:+ name) "defines")
  | draws_imports f pkg imp :
      f ∈ files → File_Path f ≠ "" → File_Package f = Some pkg → imp ∈ Package_Imports pkg →
      file_drawn (solid ("file:" +:+ File_Path f) ("file:" +:+ Import_Path imp) "imports").

(** What the command promises of its graph: the edges are the references of the
    declarations and, with several files and unless they are filtered, those
    from the files; the nodes are what the declarations show, a placeholder for
    each other target and the files, less the unconnected ones when these are
    filtered. The files have different paths. *)
Record command_spec (parseErrors : list string) (noFiles noOrph : bool) (g : Graph) : Prop := {
  cs_closed : closed g;
  cs_stats : stats_exact g;
  cs_errors : Graph_Errors g = parseErrors;
  cs_edges : ∀ e, e ∈ Graph_Edges g ↔
    drawn files e ∨ noFiles = false ∧ (1 < length files)%nat ∧ file_drawn e;
  cs_nodes : ∀ n, n ∈ Graph_Nodes g →
    shown files (plain n) ∨ placeholder files n ∨ noFiles = false ∧ (1 < length files)%nat ∧ file_shown n;
  cs_connected : noOrph = true → ∀ n, n ∈ Graph_Nodes g → connected g (GraphNode_ID n);
  cs_shown : ∀ n, shown files n → (noOrph = true → connected g (GraphNode_ID n)) →
    ∃ n', n' ∈ Graph_Nodes g ∧ plain n' = n;
  cs_files : noFiles = false → (1 < length files)%nat → ∀ n, file_shown n →
    (noOrph = true → connected g (GraphNode_ID n)) → ∃ n', n' ∈ Graph_Nodes g ∧ GraphNode_ID n' = GraphNode_ID n;
}.

Lemma stmtNodeID_entity s typ name pos : entity s typ name pos → stmtNodeID s = typ +:+ ":" +:+ name.
Proof. by intros []. Qed.

Lemma entity_stmtNodeID s : stmtNodeID s ≠ "" → ∃ typ name pos, entity s typ name pos.
Proof. destruct s; simpl; intros N; try done; do 3 eexists; constructor. Qed.

(** The edges and nodes that are new are those of files. *)
Definition bounded (st st' : Extraction) : Prop :=
  (∀ e, e ∈ Graph_Edges st'.1 → e ∈ Graph_Edges st.1 ∨ file_drawn e) ∧
  (∀ n, n ∈ Graph_Nodes st'.1 → n ∈ Graph_Nodes st.1 ∨ file_shown n).

#[local] Instance bounded_preorder : PreOrder bounded.
Proof.
  split; [intros st; split; auto|]. intros st1 st2 st3 [E N] [E' N']. split.
  - intros e [?%E|]%E'; auto.
  - intros n [?%N|]%N'; auto.
Qed.

Lemma bounded_node st n : file_shown n → bounded st (addNode st n).
Proof. intros F. split; [by left|]. intros m. simpl. rewrite elem_of_app, list_elem_of_singleton. by intros [| ->]; auto. Qed.

Lemma bounded_edge st s t l : file_drawn (solid s t l) → bounded st (addEdge s t l "solid" st).
Proof. intros F. split; [|by left]. intros e. simpl. rewrite elem_of_app, list_elem_of_singleton. by intros [| ->]; auto. Qed.

Lemma bounded_for_each {A} (l : list A) f st : (∀ x st, x ∈ l → bounded st (f x st)) → bounded st (for_each l f st).
Proof.
  unfold for_each. revert st. induction l as [|x l IH]; intros st F; [done|]. simpl.
  etrans; [apply F; by left|]. apply IH. intros. apply F. by right.
Qed.

Lemma add_file_bounded f st : f ∈ files → File_Path f ≠ "" → bounded st (add_file f st).
Proof.
  intros If P. unfold add_file. etrans; [by apply bounded_node, (shows_file f)|].
  etrans; [apply (bounded_for_each (File_Statements f) (add_define (File_Path f)))|].
  - intros s st' Is. unfold add_define, if_. destruct (String.eqb_spec (stmtNodeID s) "") as [|N]; [done|].
    destruct (bool_decide _); [|done]. simpl. apply bounded_edge.
    destruct (entity_stmtNodeID s N) as (typ & name & pos & E). rewrite (stmtNodeID_entity _ _ _ _ E).
    by apply (draws_defines f s typ name pos).
  - destruct (File_Package f) as [pkg|] eqn:Pk; [|done]. apply bounded_for_each. intros imp st' Ii. unfold add_import.
    etrans; [|by apply bounded_edge, (draws_imports f pkg imp)]. unfold if_. destruct (bool_decide _); [|done].
    by apply bounded_node, (shows_imported f pkg imp).
Qed.

Lemma AddFileNodes_loop_bounded l (st : Extraction) seen :
  l ⊆ files → bounded st (for_each (map Some l) add_file_node (st, seen)).1.
Proof.
  unfold for_each. revert st seen. induction l as [|f l IH]; intros st seen Sub; [done|]. cbn [map foldl].
  rewrite add_file_node_eq. destruct (String.eqb_spec (File_Path f) ""); [apply IH; set_solver|].
  destruct (bool_decide _); simpl orb; cbv iota; [apply IH; set_solver|].
  etrans; [apply (add_file_bounded f st); [apply Sub; by left|done]|]. apply IH. set_solver.
Qed.

(** The graph before the filters. *)
Record unfiltered (g : Graph) : Prop := {
  uf_closed : closed g;
  uf_edges : ∀ e, e ∈ Graph_Edges g ↔ drawn files e ∨ (1 < length files)%nat ∧ file_drawn e;
  uf_nodes : ∀ n, n ∈ Graph_Nodes g →
    shown files (plain n) ∨ placeholder files n ∨ (1 < length files)%nat ∧ file_shown n;
  uf_shown : ∀ n, shown files n → ∃ n', n' ∈ Graph_Nodes g ∧ plain n' = n;
  uf_files : (1 < length files)%nat → ∀ n, file_shown n → ∃ n', n' ∈ Graph_Nodes g ∧ GraphNode_ID n' = GraphNode_ID n;
}.

Definition with_files (parseErrors : list string) : Graph :=
  if_ (1 <? length files)%nat (λ g, AddFileNodes g (map Some files))
    ((Extract (map Some files)) <| Graph_Errors := parseErrors |>).

Lemma node_ids_linked g : closed g → well_linked (g, list_to_set (node_ids g)).
Proof. intros C. split; [|done]. intros id. apply elem_of_list_to_set. Qed.

Lemma AddFileNodes_added g l :
  files_added (g, list_to_set (node_ids g))
    (for_each l add_file_node ((g, list_to_set (node_ids g)), ∅)).1.
Proof. apply (AddFileNodes_loop_added l ((g, _), ∅)). Qed.

Lemma resolved_exact :
  (∀ e, e ∈ Graph_Edges (resolved (map Some files)).1 ↔ drawn files e) ∧
  (∀ n, n ∈ Graph_Nodes (resolved (map Some files)).1 → shown files (plain n) ∨ placeholder files n) ∧
  (∀ n, shown files n → ∃ n', n' ∈ Graph_Nodes (resolved (map Some files)).1 ∧ plain n' = n).
Proof.
  destruct (declared_exact files) as [DE DN]. split_and!.
  - intros e. by rewrite (filled_edges _ _ _ (resolved_filled (map Some files))).
  - intros n [I|U]%resolved_nodes; [left; apply DN; by apply list_elem_of_fmap_2|right; by apply unresolved_placeholder].
  - intros n (n' & -> & I)%DN%list_elem_of_fmap. exists n'. split; [|done]. apply resolved_nodes. by left.
Qed.

Lemma with_files_unfiltered parseErrors : NoDup (map File_Path files) → unfiltered (with_files parseErrors).
Proof.
  intros D. unfold with_files, if_. set (g := (Extract _) <| Graph_Errors := _ |>).
  assert (closed g) as C by exact (resolved_closed (map Some files)).
  destruct resolved_exact as (RE & RN & RS).
  assert ((∀ e, e ∈ Graph_Edges g ↔ drawn files e) ∧
    (∀ n, n ∈ Graph_Nodes g → shown files (plain n) ∨ placeholder files n) ∧
    (∀ n, shown files n → ∃ n', n' ∈ Graph_Nodes g ∧ plain n' = n)) as (GE & GN & GS) by done.
  destruct (Nat.ltb_spec 1 (length files)) as [L|L].
  2: { split; [done| | |done|intros ?; lia].
       - intros e. rewrite GE. split; [by left|intros [|[? _]]; [done|lia]].
       - intros n [|]%GN; auto. }
  destruct (AddFileNodes_added g (map Some files)) as [FL FN _ FE _ FS].
  destruct (AddFileNodes_loop_bounded files (g, list_to_set (node_ids g)) ∅ ltac:(done)) as [BE BN].
  simpl in FN, FE, BE, BN.
  assert (∀ e, file_drawn e → e ∈ Graph_Edges (AddFileNodes g (map Some files))) as DE.
  { intros e F. simpl.
    assert (∃ f, f ∈ files ∧ File_Path f ≠ "" ∧ ∀ st, list_to_set (node_ids g) ⊆ st.2 → e ∈ Graph_Edges (add_file f st).1)
      as (f & If & P & K).
    { destruct F as [f s typ name pos If P Is E|f pkg imp If P Pk Ii]; exists f; (split_and!; [done..|]); intros st Sub.
      - pose proof (stmtNodeID_entity _ _ _ _ E) as EI. rewrite <- EI. apply add_file_defines; [done| |].
        + rewrite EI. by inversion E.
        + apply Sub, elem_of_list_to_set. rewrite EI.
          destruct (GS (mkGraphNode (typ +:+ ":" +:+ name) typ name (File_Path f) (Pos_Line pos) ∅)) as (n & In & En).
          * exists f, s. split_and!; [done| |by constructor]. unfold declarations. apply elem_of_app. by right.
          * apply elem_of_has_node. exists n. split; [by injection En|done].
      - by apply (add_file_imports f st pkg imp). }
    destruct (AddFileNodes_loop_adds files (g, list_to_set (node_ids g)) f D If P) as (st1 & Sub & A).
    by apply (fa_edges _ _ A), K. }
  split.
  - apply ComputeStats_closed, FL, node_ids_linked, C.
  - intros e. split.
    + intros [I|F]%BE; [left; by apply GE|by right].
    + intros [I|[_ F]]; [by apply FE, GE|by apply DE].
  - intros n [[|]%GN|F]%BN; auto.
  - intros n (n' & I & E)%GS. exists n'. split; [by apply FN|done].
  - intros _ ? [f If P|f pkg imp If P Pk Ii].
    + destruct (AddFileNodes_loop_adds files (g, list_to_set (node_ids g)) f D If P) as (st1 & _ & A).
      exists (file_node (File_Path f)). split; [|done]. apply (fa_nodes _ _ A), add_file_node_in.
    + assert (closed (AddFileNodes g (map Some files))) as C' by apply ComputeStats_closed, FL, node_ids_linked, C.
      destruct (C' _ (DE _ (draws_imports f pkg imp If P Pk Ii))) as [_ (m & Em & Im)%elem_of_has_node].
      exists m. split; [exact Im|symmetry; exact Em].
Qed.

Lemma with_files_errors parseErrors : Graph_Errors (with_files parseErrors) = parseErrors.
Proof.
  unfold with_files, if_. destruct (1 <? length files)%nat; [|done].
  set (g := (Extract _) <| Graph_Errors := _ |>). by destruct (AddFileNodes_added g (map Some files)) as [_ _ _ _ _ S].
Qed.

(** The nodes of type file are those with the identifiers of files. *)
Definition entity_types : list string :=
  ["agent"; "prompt"; "skill"; "mcp_server"; "mcp_client"; "pipeline"; "secret"; "policy"; "guardrail"; "user";
   "binding"; "deploy"; "state"; "env"; "type"; "step"; "plugin"].

Lemma shown_typed n : shown files n → GraphNode_Type n ∈ entity_types ∧ ∃ x, GraphNode_ID n = GraphNode_Type n +:+ ":" +:+ x.
Proof.
  intros (f & s & _ & _ & Sh). destruct Sh as [s typ nm pos E|p step _|pkg p _]; simpl.
  - split; [destruct E; by apply (bool_decide_unpack _)|by eexists].
  - split; [by apply (bool_decide_unpack _)|by eexists].
  - split; [by apply (bool_decide_unpack _)|by eexists].
Qed.

Lemma type_not_file t x y : t ∈ entity_types ++ end_types → t +:+ ":" +:+ x ≠ "file:" +:+ y.
Proof.
  unfold entity_types, end_types. intros I. repeat (apply elem_of_cons in I as [->|I]; [done|]). by apply elem_of_nil in I.
Qed.

Lemma file_typed n : shown files (plain n) ∨ placeholder files n ∨ file_shown n →
  (GraphNode_Type n = "file" → file_shown n) ∧ ((∃ x, GraphNode_ID n = "file:" +:+ x) → GraphNode_Type n = "file").
Proof.
  intros [Sh|[Pl|F]].
  - destruct (shown_typed _ Sh) as [T [x E]]. simpl in T, E. split.
    + intros F. rewrite F in T. by apply (bool_decide_pack _) in T.
    + intros [y E']. rewrite E in E'. apply type_not_file in E'; [done|]. apply elem_of_app. by left.
  - destruct Pl as [e typ name De E N _]. simpl.
    destruct De as (f & s & _ & _ & D). destruct (draws_ends s e D) as [_ (t & x & It & Et)].
    assert (typ ≠ "file" ∧ ∀ y, GraphEdge_Target e ≠ "file:" +:+ y) as [NF NE].
    { split; [intros ->|intros y Ey]; (eapply type_not_file; [apply elem_of_app; right; exact It|]);
        rewrite <- Et; [rewrite E; reflexivity|exact Ey]. }
    split; [done|]. intros [y Ey]. by destruct (NE y).
  - split; [done|]. by destruct F.
Qed.

Lemma drawn_not_file e x : drawn files e → GraphEdge_Source e ≠ "file:" +:+ x ∧ GraphEdge_Target e ≠ "file:" +:+ x.
Proof.
  intros (f & s & _ & _ & D). destruct (draws_ends s e D) as [(t & y & It & ->) (t' & y' & It' & ->)].
  split; apply type_not_file, elem_of_app; by right.
Qed.

Definition without_files (noFiles : bool) (g : Graph) : Graph := if_ noFiles FilterFiles g.
Definition without_orphans (noOrph : bool) (g : Graph) : Graph := if_ noOrph FilterOrphans g.

Lemma elem_of_without_files b g n :
  n ∈ Graph_Nodes (without_files b g) ↔ n ∈ Graph_Nodes g ∧ (b = true → GraphNode_Type n ≠ "file").
Proof.
  destruct b; [|by split; [|intros []]]. unfold without_files, if_, FilterFiles.
  rewrite elem_of_filterNodes, negb_true_iff, String.eqb_neq. naive_solver.
Qed.

Lemma elem_of_without_orphans b g n :
  n ∈ Graph_Nodes (without_orphans b g) ↔ n ∈ Graph_Nodes g ∧ (b = true → connected g (GraphNode_ID n)).
Proof. destruct b; [|by split; [|intros []]]. unfold without_orphans, if_. rewrite elem_of_FilterOrphans. naive_solver. Qed.

Lemma without_orphans_edges b g e : e ∈ Graph_Edges (without_orphans b g) ↔ e ∈ Graph_Edges g.
Proof. destruct b; [apply FilterOrphans_edges | done]. Qed.

Lemma without_closed b c g : closed g → closed (without_orphans b (without_files c g)).
Proof. intros C. destruct b, c; repeat apply filterNodes_closed; done. Qed.

Lemma without_files_edges b g e : unfiltered g →
  e ∈ Graph_Edges (without_files b g) ↔ drawn files e ∨ b = false ∧ (1 < length files)%nat ∧ file_drawn e.
Proof.
  intros [C E N _ _]. destruct b; [|by rewrite (E e); naive_solver].
  unfold without_files, if_, FilterFiles. rewrite elem_of_filterNodes_edges, E. split.
  - intros [[D|[L F]] K]; [by left|]. exfalso.
    assert (e ∈ Graph_Edges g) as I by (apply E; auto). destruct (C e I) as [(n & En & In)%elem_of_has_node _].
    destruct (K n In) as [Ns _]; [|by destruct Ns].
    assert (GraphNode_Type n = "file") as ->; [|done]. apply (file_typed n); [|by rewrite <- En; destruct F; eexists].
    destruct (N n In) as [|[|[_ ?]]]; auto.
  - intros [D|[? _]]; [|done]. split; [by left|]. intros n In K.
    apply negb_false_iff, String.eqb_eq in K.
    assert (file_shown n) as F. { apply (file_typed n); [|done]. destruct (N n In) as [|[|[_ ?]]]; auto. }
    destruct F as [f If P|f pkg imp If P Pk Ii]; simpl;
      [destruct (drawn_not_file e (File_Path f) D) as [S T]|destruct (drawn_not_file e (Import_Path imp) D) as [S T]];
      by split; intros X; [apply S|apply T].
Qed.

(** The graph command draws what it read. *)
Lemma command_graph_exact parseErrors noFiles noOrph : NoDup (map File_Path files) →
  command_spec parseErrors noFiles noOrph (command_graph files parseErrors noFiles noOrph).
Proof.
  intros D. unfold command_graph. fold (with_files parseErrors).
  change (command_spec parseErrors noFiles noOrph
    (ComputeStats (without_orphans noOrph (without_files noFiles (with_files parseErrors))))).
  pose proof (with_files_errors parseErrors) as Er. pose proof (with_files_unfiltered parseErrors D) as U.
  set (g := with_files parseErrors) in *. clearbody g. pose proof (without_files_edges noFiles g) as WE.
  destruct U as [C E N Sh Fi].
  set (g1 := without_files noFiles g) in *.
  assert (∀ id, connected (ComputeStats (without_orphans noOrph g1)) id ↔ connected g1 id) as Cn.
  { intros id. unfold connected. by setoid_rewrite without_orphans_edges. }
  assert (∀ n, n ∈ Graph_Nodes g1 → (noOrph = true → connected g1 (GraphNode_ID n)) →
    n ∈ Graph_Nodes (ComputeStats (without_orphans noOrph g1))) as Keep.
  { intros n I K. by apply elem_of_without_orphans. }
  split.
  - apply ComputeStats_closed, without_closed, C.
  - apply ComputeStats_exact.
  - etrans; [|exact Er]. unfold g1. by destruct noOrph, noFiles.
  - intros e. etransitivity; [apply without_orphans_edges|]. by apply WE.
  - intros n [[I F]%elem_of_without_files _]%elem_of_without_orphans.
    destruct (N n I) as [|[|[L Fs]]]; [by auto..|]. right; right. split; [|done].
    destruct noFiles; [|done]. destruct (F eq_refl). by destruct Fs.
  - intros -> n I. apply elem_of_without_orphans in I as [_ K]. apply Cn, K. done.
  - intros n Sn K. destruct (Sh n Sn) as (n' & I & En). exists n'. split; [|done]. apply Keep.
    + apply elem_of_without_files. split; [done|]. intros _ T. rewrite <- En in Sn.
      destruct (shown_typed _ Sn) as [Ty _]. simpl in Ty. rewrite T in Ty. by apply (bool_decide_pack _) in Ty.
    + intros O. apply Cn. rewrite <- En in K. by apply K.
  - intros -> L n F K. destruct (Fi L n F) as (n' & I & En). exists n'. split; [|done]. apply Keep.
    + apply elem_of_without_files. by split.
    + intros O. apply Cn. rewrite En. by apply K.
Qed.
End command.
