(* ===== verification/GraphRender.v ===== *)
(** The text forms of the graph (internal/graph/dot.go and mermaid.go).

    The writes to the strings.Builder are the concatenation of their texts.
    sort.Slice is a stable insertion sort: nodes with the same ID keep their
    order, where Go promises none. [fuel] bounds the depth of the recursion of
    computeLevel; [None] is a call that does not return within it. *)
From S2P Require Import Prelude GoStd Ast Graph GoMaps GraphFacts.
Open Scope Z_scope.

(** * Tables *)

Definition dotShapes : gmap string string := list_to_map [
  ("agent", "box"); ("prompt", "note"); ("skill", "component"); ("mcp_server", "hexagon");
  ("mcp_client", "hexagon"); ("pipeline", "tab"); ("step", "circle"); ("secret", "diamond");
  ("policy", "house"); ("guardrail", "octagon"); ("user", "invhouse"); ("deploy", "folder");
  ("binding", "folder"); ("state", "cylinder"); ("env", "parallelogram"); ("type", "rect");
  ("plugin", "pentagon"); ("file", "folder")].

Definition dotColors : gmap string string := list_to_map [
  ("agent", "#4A9EFF"); ("prompt", "#4ADE80"); ("skill", "#A78BFA"); ("mcp_server", "#FB923C");
  ("mcp_client", "#FBBF24"); ("pipeline", "#22D3EE"); ("step", "#2DD4BF"); ("secret", "#F87171");
  ("policy", "#F472B6"); ("guardrail", "#FB7185"); ("user", "#818CF8"); ("deploy", "#94A3B8");
  ("binding", "#94A3B8"); ("state", "#34D399"); ("env", "#A3E635"); ("type", "#9CA3AF");
  ("plugin", "#C084FC"); ("file", "#E5E7EB")].

Definition mermaidShapes : gmap string (string * string) := list_to_map [
  ("agent", ("([", "])")); ("prompt", ("[", "]")); ("skill", ("[", "]"));
  ("mcp_server", ("{{", "}}")); ("mcp_client", ("{{", "}}")); ("pipeline", ("([", "])"));
  ("step", ("((", "))")); ("secret", ("{", "}")); ("policy", ("[", "]"));
  ("guardrail", ("[", "]")); ("user", ("[", "]")); ("deploy", ("[", "]"));
  ("binding", ("[", "]")); ("state", ("[(", ")]")); ("env", ("[/", "/]")); ("type", ("[", "]"));
  ("plugin", ("[", "]")); ("file", ("[", "]"))].

Definition mermaidColors : gmap string string := list_to_map [
  ("agent", "#4A9EFF"); ("prompt", "#4ADE80"); ("skill", "#A78BFA"); ("mcp_server", "#FB923C");
  ("mcp_client", "#FBBF24"); ("pipeline", "#22D3EE"); ("step", "#2DD4BF"); ("secret", "#F87171");
  ("policy", "#F472B6"); ("guardrail", "#FB7185"); ("user", "#818CF8"); ("deploy", "#94A3B8");
  ("binding", "#94A3B8"); ("state", "#34D399"); ("env", "#A3E635"); ("type", "#9CA3AF");
  ("plugin", "#C084FC"); ("file", "#E5E7EB")].

(** [m[k]] of a map of strings, with its fallback for the empty string. *)
Definition lookup_or (m : gmap string string) (k dflt : string) : string :=
  let v := default "" (m !! k) in
  if String.eqb v "" then dflt else v.

Definition is_missing (n : GraphNode) : bool :=
  String.eqb (default "" (GraphNode_Attributes n !! "missing")) "true".

(** * Grouping and order *)

(** [m[k] = append(m[k], x)] *)
Definition append_at {A} (k : string) (x : A) (m : gmap string (list A)) : gmap string (list A) :=
  <[k := default [] (m !! k) ++ [x]]> m.

(** The nodes of each file, and those without one. *)
Definition in_file (n : GraphNode) : bool :=
  negb (String.eqb (GraphNode_File n) "") && negb (String.eqb (GraphNode_Type n) "file").

Definition fileNodes (g : Graph) : gmap string (list GraphNode) :=
  for_each (Graph_Nodes g) (λ n, if_ (in_file n) (append_at (GraphNode_File n) n)) ∅.

Definition noFileNodes (g : Graph) : list GraphNode :=
  List.filter (λ n, negb (in_file n)) (Graph_Nodes g).

(** The steps of each pipeline, found by their first "contains" edge. *)
Definition pipelineSteps (g : Graph) : gmap string (list GraphNode) :=
  for_each (Graph_Nodes g) (λ n m,
    if String.eqb (GraphNode_Type n) "step" then
      match List.find (λ e, String.eqb (GraphEdge_Target e) (GraphNode_ID n) &&
                            String.eqb (GraphEdge_Label e) "contains") (Graph_Edges g) with
      | Some e => append_at (GraphEdge_Source e) n m
      | None => m
      end
    else m) ∅.

(** The dependencies of each step. *)
Definition stepDeps (g : Graph) : gmap string (list string) :=
  for_each (Graph_Edges g) (λ e,
    if_ (String.eqb (GraphEdge_Label e) "depends on")
      (append_at (GraphEdge_Source e) (GraphEdge_Target e))) ∅.

Definition sort_nodes : list GraphNode → list GraphNode :=
  insertion_sort (λ a b, str_ltb (GraphNode_ID a) (GraphNode_ID b)).

Definition edge_less (a b : GraphEdge) : bool :=
  if negb (String.eqb (GraphEdge_Source a) (GraphEdge_Source b)) then
    str_ltb (GraphEdge_Source a) (GraphEdge_Source b)
  else if negb (String.eqb (GraphEdge_Target a) (GraphEdge_Target b)) then
    str_ltb (GraphEdge_Target a) (GraphEdge_Target b)
  else str_ltb (GraphEdge_Label a) (GraphEdge_Label b).

Definition sortedEdges (g : Graph) : list GraphEdge := insertion_sort edge_less (Graph_Edges g).

(** The concatenation of the texts of a list. *)
Definition write_each {A} (l : list A) (text : A → string) : string :=
  String.concat "" (map text l).

(** * Levels of steps *)

Section levels.
Context (stepSet : gset string) (deps : gmap string (list string)).

(** The loop over the dependencies of a step; [call] is the recursive call. *)
Fixpoint max_level (call : string → gmap string Z → option (Z * gmap string Z)) (l : list string)
    (maxDep : Z) (levels : gmap string Z) : option (Z * gmap string Z) :=
  match l with
  | [] => Some (maxDep, levels)
  | dep :: l =>
      if bool_decide (dep ∈ stepSet) then
        '(lv, levels) ← call dep levels;
        max_level call l (if maxDep <? lv then lv else maxDep) levels
      else max_level call l maxDep levels
  end.

Fixpoint computeLevel (fuel : nat) (id : string) (levels : gmap string Z)
    : option (Z * gmap string Z) :=
  match levels !! id with
  | Some l => Some (l, levels)
  | None =>
      match fuel with
      | O => None
      | S fuel =>
          '(maxDep, levels) ← max_level (computeLevel fuel) (default [] (deps !! id)) (-1) levels;
          Some (maxDep + 1, <[id := maxDep + 1]> levels)
      end
  end.

Fixpoint compute_levels (fuel : nat) (steps : list GraphNode) (levels : gmap string Z)
    : option (gmap string Z) :=
  match steps with
  | [] => Some levels
  | s :: steps =>
      '(_, levels) ← computeLevel fuel (GraphNode_ID s) levels;
      compute_levels fuel steps levels
  end.
End levels.

Section render.
Context `{GoRuntime}.

(** groupByDepLevel groups steps into levels by their dependency depth. *)
Definition groupByDepLevel (fuel : nat) (steps : list GraphNode) (deps : gmap string (list string))
    : option (list (list GraphNode)) :=
  let stepSet : gset string := list_to_set (map GraphNode_ID steps) in
  levels ← compute_levels stepSet deps fuel steps ∅;
  let maxLevel := foldl Z.max 0 (map snd (map_range levels)) in
  Some (for_each steps (λ s,
          alter (λ level, level ++ [s]) (Z.to_nat (default 0 (levels !! GraphNode_ID s))))
        (replicate (Z.to_nat (maxLevel + 1)) [])).

(** The keys of a map, sorted. *)
Definition sorted_keys {A} (m : gmap string A) : list string := sort_strings (map fst (map_range m)).

(** * DOT *)

Definition writeNode (n : GraphNode) (indent : string) : string :=
  let shape := lookup_or dotShapes (GraphNode_Type n) "box" in
  let color := lookup_or dotColors (GraphNode_Type n) "#9CA3AF" in
  let style := if is_missing n then "dashed" else "filled" in
  let style := if String.eqb (GraphNode_Type n) "agent" then style +:+ ",rounded" else style in
  indent +:+ quote (GraphNode_ID n) +:+ " [label=" +:+ quote (GraphNode_Name n) +:+
  " shape=" +:+ shape +:+ " style=" +:+ quote style +:+ " fillcolor=" +:+ quote (color +:+ "20") +:+
  " color=" +:+ quote color +:+ "];" +:+ nl.

(** The cluster of a file. *)
Definition write_cluster (clusterIdx : nat) (file : string) (nodes : list GraphNode) : string :=
  "  subgraph cluster_" +:+ pretty clusterIdx +:+ " {" +:+ nl +:+
  "    label=" +:+ quote file +:+ ";" +:+ nl +:+
  "    style=dashed;" +:+ nl +:+
  qt "    color=`#475569`;" +:+ nl +:+
  write_each (sort_nodes nodes) (λ n, writeNode n "    ") +:+
  "  }" +:+ nl +:+ nl.

(** The steps of a level on one rank. *)
Definition write_level (level : list GraphNode) : string :=
  if (1 <? length level)%nat then
    "  { rank=same;" +:+ write_each (sort_nodes level) (λ n, " " +:+ quote (GraphNode_ID n) +:+ ";") +:+
    " }" +:+ nl
  else "".

Definition write_dot_edge (e : GraphEdge) : string :=
  let style := if String.eqb (GraphEdge_Style e) "dashed" then " style=dashed" else "" in
  "  " +:+ quote (GraphEdge_Source e) +:+ " -> " +:+ quote (GraphEdge_Target e) +:+ " [label=" +:+
  quote (GraphEdge_Label e) +:+ style +:+ "];" +:+ nl.

(** RenderDOT produces a valid Graphviz DOT digraph with deterministic output. *)
Definition RenderDOT (fuel : nat) (g : Graph) : option string :=
  let fileNodes := fileNodes g in
  let noFileNodes := noFileNodes g in
  let pipelineSteps := pipelineSteps g in
  ranks ← mapM (λ pipeID, groupByDepLevel fuel (default [] (pipelineSteps !! pipeID)) (stepDeps g))
            (sorted_keys pipelineSteps);
  Some
    ("digraph agentspec {" +:+ nl +:+
     "  rankdir=LR;" +:+ nl +:+
     qt "  node [fontname=`Helvetica` fontsize=10];" +:+ nl +:+
     qt "  edge [fontname=`Helvetica` fontsize=8];" +:+ nl +:+ nl +:+
     String.concat ""
       (imap (λ clusterIdx file, write_cluster clusterIdx file (default [] (fileNodes !! file)))
          (sorted_keys fileNodes)) +:+
     write_each (sort_nodes noFileNodes) (λ n, writeNode n "  ") +:+
     (if (0 <? length noFileNodes)%nat then nl else "") +:+
     write_each ranks (λ levels, write_each levels write_level) +:+
     (if (0 <? size pipelineSteps)%nat then nl else "") +:+
     write_each (sortedEdges g) write_dot_edge +:+
     "}" +:+ nl).

(** * Mermaid *)

(** mermaidID converts a node ID to a valid Mermaid identifier. *)
Definition mermaid_byte (c : Ascii.ascii) : Ascii.ascii :=
  if existsb (Ascii.eqb c) [":"; "."; "/"; " "; "-"]%char then "_"%char
  else if Ascii.eqb c "*" then "x"%char
  else c.

Fixpoint mermaidID (id : string) : string :=
  match id with
  | EmptyString => EmptyString
  | String c id => String (mermaid_byte c) (mermaidID id)
  end.

Definition writeMermaidNode (n : GraphNode) (indent : string) : string :=
  let '(open, close) :=
    default ("", "")
      match mermaidShapes !! GraphNode_Type n with
      | Some shape => Some shape
      | None => mermaidShapes !! "type"
      end in
  let label := if is_missing n then "? " +:+ GraphNode_Name n else GraphNode_Name n in
  indent +:+ mermaidID (GraphNode_ID n) +:+ open +:+ quote label +:+ close +:+ nl.

Definition write_file_subgraph (file : string) (nodes : list GraphNode) : string :=
  "  subgraph " +:+ mermaidID file +:+ nl +:+
  write_each (sort_nodes nodes) (λ n, writeMermaidNode n "    ") +:+
  "  end" +:+ nl.

(** The subgraph of a pipeline, under the name of its node. *)
Definition write_pipeline_subgraph (g : Graph) (pipeID : string) (steps : list GraphNode) : string :=
  let pipeName :=
    match List.find (λ n, String.eqb (GraphNode_ID n) pipeID) (Graph_Nodes g) with
    | Some n => GraphNode_Name n
    | None => pipeID
    end in
  "  subgraph " +:+ mermaidID pipeID +:+ "[" +:+ quote (pipeName +:+ " pipeline") +:+ "]" +:+ nl +:+
  write_each (sort_nodes steps) (λ n, writeMermaidNode n "    ") +:+
  "  end" +:+ nl.

Definition write_mermaid_edge (e : GraphEdge) : string :=
  let arrow := if String.eqb (GraphEdge_Style e) "dashed" then "-.->" else "-->" in
  "  " +:+ mermaidID (GraphEdge_Source e) +:+ " " +:+ arrow +:+ "|" +:+ GraphEdge_Label e +:+ "| " +:+
  mermaidID (GraphEdge_Target e) +:+ nl.

(** The identifiers of the nodes of each type. *)
Definition usedTypes (g : Graph) : gmap string (list string) :=
  for_each (Graph_Nodes g) (λ n, append_at (GraphNode_Type n) (mermaidID (GraphNode_ID n))) ∅.

Definition write_class (typ : string) (ids : list string) : string :=
  let color := lookup_or mermaidColors typ "#9CA3AF" in
  "  classDef " +:+ typ +:+ " fill:" +:+ color +:+ "20,stroke:" +:+ color +:+ ",color:#fff" +:+ nl +:+
  "  class " +:+ Join (sort_strings ids) "," +:+ " " +:+ typ +:+ nl.

(** RenderMermaid produces a valid Mermaid graph LR with deterministic output. *)
Definition RenderMermaid (g : Graph) : string :=
  let fileNodes := fileNodes g in
  let pipelineSteps := pipelineSteps g in
  let usedTypes := usedTypes g in
  "graph LR" +:+ nl +:+
  write_each (sorted_keys fileNodes)
    (λ file, write_file_subgraph file (default [] (fileNodes !! file))) +:+
  write_each (sort_nodes (noFileNodes g)) (λ n, writeMermaidNode n "  ") +:+
  write_each (sorted_keys pipelineSteps)
    (λ pipeID, write_pipeline_subgraph g pipeID (default [] (pipelineSteps !! pipeID))) +:+
  nl +:+
  write_each (sortedEdges g) write_mermaid_edge +:+
  nl +:+
  write_each (sorted_keys usedTypes) (λ typ, write_class typ (default [] (usedTypes !! typ))).
End render.

(** The levels of the steps of a pipeline are the lengths of their longest
    dependency chains, and are computed exactly when the dependencies have no
    cycle; the text of a graph does not depend on the order of maps. *)

(** * Dependency chains *)

Section chains.
Context (stepSet : gset string) (deps : gmap string (list string)).

(** A step depends on another step of the pipeline. *)
Definition depends (id dep : string) : Prop :=
  dep ∈ stepSet ∧ dep ∈ default [] (deps !! id).

(** [chain n id]: a chain of [n] dependencies starts at [id]. *)
Fixpoint chain (n : nat) (id : string) : Prop :=
  match n with
  | O => True
  | S n => ∃ dep, depends id dep ∧ chain n dep
  end.

Definition longest (n : nat) (id : string) : Prop := chain n id ∧ ¬ chain (S n) id.

(** No step depends on itself, directly or through others. *)
Definition acyclic_steps : Prop := ∀ id, id ∈ stepSet → ¬ tc depends id id.

Lemma chain_shorter n m id : chain n id → (m ≤ n)%nat → chain m id.
Proof.
  revert m id. induction n as [|n IH]; intros [|m] id C L; try done; [lia|].
  destruct C as (dep & D & C). exists dep. split; [done | apply IH; [done | lia]].
Qed.

Lemma longest_unique n m id : longest n id → longest m id → n = m.
Proof.
  intros [C N] [C' N']. destruct (Nat.lt_trichotomy n m) as [L|[E|L]]; [|done|].
  - destruct N. by apply (chain_shorter m).
  - destruct N'. by apply (chain_shorter n).
Qed.

(** A cycle has chains of every length. *)
Lemma cycle_chain n id x : tc depends id id → tc depends x id → chain n x.
Proof.
  intros C. revert x. induction n as [|n IH]; intros x T; [done|].
  inversion T as [? ? D|? y ? D T']; subst; eexists; split; try exact D; by apply IH.
Qed.

(** Without cycles, a chain visits different steps. *)
Lemma chain_nodes n id :
  acyclic_steps → id ∈ stepSet → chain n id →
  ∃ l, length l = n ∧ NoDup (id :: l) ∧ ∀ x, x ∈ l → x ∈ stepSet ∧ tc depends id x.
Proof.
  intros A. revert id. induction n as [|n IH]; intros id I C.
  - exists []. split_and!; [done | apply NoDup_singleton | intros x J; inversion J].
  - destruct C as (dep & [Id D] & C). destruct (IH dep Id C) as (l & L & N & R).
    assert (∀ x, x ∈ dep :: l → x ∈ stepSet ∧ tc depends id x) as R'.
    { intros x [->|J]%elem_of_cons; [split; [done | by apply tc_once]|].
      destruct (R x J). split; [done | apply (tc_l _ _ dep); by try split]. }
    exists (dep :: l). split_and!; [simpl; lia | | exact R'].
    apply NoDup_cons. split; [|done]. intros J. by apply (A id I), R'.
Qed.

Lemma acyclic_chain id : acyclic_steps → id ∈ stepSet → ¬ chain (size stepSet) id.
Proof.
  intros A I C. destruct (chain_nodes _ _ A I C) as (l & L & N & R).
  assert (size (list_to_set (id :: l) : gset string) ≤ size stepSet)%nat as Le.
  { apply subseteq_size. intros x [->|J]%elem_of_list_to_set%elem_of_cons; [done | by apply R]. }
  rewrite size_list_to_set in Le by done. simpl in Le. lia.
Qed.

(** * computeLevel *)

Definition level_is (l : Z) (id : string) : Prop := ∃ n, l = Z.of_nat n ∧ longest n id.

Definition known (levels : gmap string Z) : Prop := ∀ id l, levels !! id = Some l → level_is l id.

(** The states around a call that gives [levels'] . *)
Definition grows (levels levels' : gmap string Z) : Prop := known levels' ∧ levels ⊆ levels'.

Definition call_ok (call : string → gmap string Z → option (Z * gmap string Z)) : Prop :=
  ∀ id levels l levels', known levels → call id levels = Some (l, levels') →
  grows levels levels' ∧ level_is l id ∧ levels' !! id = Some l.

Lemma max_level_exact call l maxDep levels m levels' :
  call_ok call → known levels → max_level stepSet call l maxDep levels = Some (m, levels') →
  grows levels levels' ∧ maxDep ≤ m ∧
  (m = maxDep ∨ ∃ dep, dep ∈ l ∧ dep ∈ stepSet ∧ level_is m dep) ∧
  (∀ dep, dep ∈ l → dep ∈ stepSet → ∃ lv, lv ≤ m ∧ level_is lv dep).
Proof.
  intros O. revert maxDep levels. induction l as [|dep l IH]; intros maxDep levels K E.
  - injection E as <- <-. split_and!; [by split | lia | by left | intros dep J; inversion J].
  - simpl in E. destruct (bool_decide_reflect (dep ∈ stepSet)) as [S|S].
    + apply bind_Some in E as ([lv levels1] & C & E). destruct (O _ _ _ _ K C) as ([K1 L1] & V & _).
      apply IH in E as ([K2 L2] & M & W & A); [|done]. split_and!; [split; [done | by etrans] | | |].
      * destruct (Z.ltb_spec maxDep lv); lia.
      * destruct W as [->|(d & Id & Sd & Vd)]; [|right; exists d; split_and!; [by right | done..]].
        destruct (Z.ltb_spec maxDep lv); [|by left].
        right. exists dep. split_and!; [left | done..].
      * intros d [->|Id]%elem_of_cons Sd; [|by apply A]. exists lv. split; [|done].
        destruct (Z.ltb_spec maxDep lv); lia.
    + apply IH in E as (G & M & W & A); [|done]. split_and!; [exact G | done | |].
      * destruct W as [->|(d & Id & Sd & Vd)]; [by left | right; exists d; split_and!; [by right | done..]].
      * intros d [->|Id]%elem_of_cons Sd; [done | by apply A].
Qed.

Lemma computeLevel_exact fuel : call_ok (computeLevel stepSet deps fuel).
Proof.
  induction fuel as [|fuel IH]; intros id levels l levels' K E; simpl in E;
    destruct (levels !! id) as [lv|] eqn:Lv; try done.
  1,2: injection E as <- <-; split_and!; [by split | by apply K | done].
  apply bind_Some in E as ([m levels1] & M & E). injection E as <- <-.
  apply max_level_exact in M as ([K1 L1] & Ge & W & A); [|done..].
  assert (level_is (m + 1) id) as V.
  { exists (Z.to_nat (m + 1)). split; [lia|]. split.
    - destruct W as [->|(dep & Id & Sd & (n & -> & [C _]))]; [done|].
      replace (Z.to_nat (Z.of_nat n + 1)) with (S n) by lia. by exists dep.
    - intros (dep & [Sd Id] & C). destruct (A dep Id Sd) as (lv & Le & n & -> & [_ N]).
      apply N. eapply chain_shorter; [exact C | lia]. }
  assert (known (<[id:=m + 1]> levels1)) as K2.
  { intros x y. destruct (decide (x = id)) as [->|Ne].
    - rewrite lookup_insert_eq. by intros [= <-].
    - rewrite lookup_insert_ne by done. apply K1. }
  split_and!; [split; [done|] | done | apply lookup_insert_eq].
  etrans; [apply insert_subseteq, Lv|]. by apply insert_mono.
Qed.

Lemma max_level_returns call l maxDep levels :
  (∀ dep levels, dep ∈ l → dep ∈ stepSet → is_Some (call dep levels)) →
  is_Some (max_level stepSet call l maxDep levels).
Proof.
  revert maxDep levels. induction l as [|dep l IH]; intros maxDep levels K; [done|]. simpl.
  assert (∀ d levels, d ∈ l → d ∈ stepSet → is_Some (call d levels)) as K' by (intros; apply K; [by right | done]).
  destruct (bool_decide_reflect (dep ∈ stepSet)) as [S|S]; [|by apply IH].
  destruct (K dep levels) as [[lv levels1] ->]; [left | done | by apply IH].
Qed.

(** The depth of the recursion is at most the length of the longest chain. *)
Lemma computeLevel_returns fuel id levels :
  ¬ chain fuel id → is_Some (computeLevel stepSet deps fuel id levels).
Proof.
  revert id levels. induction fuel as [|fuel IH]; intros id levels N; simpl;
    destruct (levels !! id); try done.
  destruct (max_level_returns (computeLevel stepSet deps fuel) (default [] (deps !! id)) (-1) levels)
    as [[m levels1] ->]; [|done].
  intros dep levels1 Id Sd. apply IH. intros C. apply N. by exists dep.
Qed.

Lemma compute_levels_exact fuel steps levels levels' :
  known levels → compute_levels stepSet deps fuel steps levels = Some levels' →
  grows levels levels' ∧ ∀ s, s ∈ steps → is_Some (levels' !! GraphNode_ID s).
Proof.
  revert levels. induction steps as [|s steps IH]; intros levels K E.
  - injection E as <-. split; [done | intros s J; inversion J].
  - simpl in E. apply bind_Some in E as ([l levels1] & C & E).
    destruct (computeLevel_exact _ _ _ _ _ K C) as ([K1 L1] & _ & V).
    apply IH in E as ([K2 L2] & A); [|done]. split; [split; [done | by etrans]|].
    intros t [->|I]%elem_of_cons; [|by apply A]. exists l. by eapply lookup_weaken.
Qed.

Lemma compute_levels_returns fuel steps levels :
  (∀ s, s ∈ steps → ¬ chain fuel (GraphNode_ID s)) →
  is_Some (compute_levels stepSet deps fuel steps levels).
Proof.
  revert levels. induction steps as [|s steps IH]; intros levels K; [done|]. simpl.
  destruct (computeLevel_returns fuel (GraphNode_ID s) levels) as [[l levels1] ->]; [apply K; left|].
  apply IH. intros t I. apply K. by right.
Qed.
End chains.

(** * groupByDepLevel *)

(** One round of the loop that fills the levels. *)
Definition place (f : GraphNode → nat) (s : GraphNode) (acc : list (list GraphNode)) :
    list (list GraphNode) :=
  alter (λ level, level ++ [s]) (f s) acc.

Lemma place_all f steps acc i :
  for_each steps (place f) acc !! i =
  (λ level, level ++ List.filter (λ s, Nat.eqb (f s) i) steps) <$> acc !! i.
Proof.
  unfold for_each. revert acc. induction steps as [|s steps IH]; intros acc; simpl.
  - destruct (acc !! i) as [level|]; simpl; [by rewrite app_nil_r | done].
  - rewrite IH. unfold place. destruct (Nat.eqb_spec (f s) i) as [->|N].
    + rewrite list_lookup_alter_eq. destruct (acc !! i); simpl; [by rewrite <- app_assoc | done].
    + by rewrite list_lookup_alter_ne.
Qed.

Lemma place_concat f s acc : (f s < length acc)%nat → concat (place f s acc) ≡ₚ s :: concat acc.
Proof.
  intros L. unfold place. destruct (lookup_lt_is_Some_2 _ _ L) as [level E].
  rewrite <- (take_drop_middle acc (f s) level E) at 1. rewrite alter_app_r_alt by (rewrite length_take; lia).
  rewrite length_take_le, Nat.sub_diag by lia. simpl. rewrite concat_app. simpl.
  rewrite <- (take_drop_middle acc (f s) level E) at 3. rewrite concat_app. simpl.
  rewrite <- !app_assoc. simpl. by solve_Permutation.
Qed.

Lemma place_all_concat f steps acc :
  (∀ s, s ∈ steps → f s < length acc)%nat → concat (for_each steps (place f) acc) ≡ₚ steps ++ concat acc.
Proof.
  unfold for_each. revert acc. induction steps as [|s steps IH]; intros acc L; [done|]. simpl.
  rewrite IH.
  - rewrite place_concat by (apply L; left). by rewrite Permutation_middle.
  - intros t I. unfold place. rewrite length_alter. apply L. by right.
Qed.

Lemma concat_replicate_nil {A} n : concat (replicate n (@nil A)) = [].
Proof. by induction n. Qed.

Lemma foldl_max_ge l acc x : (x = acc ∨ x ∈ l) → x ≤ foldl Z.max acc l.
Proof.
  revert acc x. induction l as [|y l IH]; intros acc x [->|I]; simpl; [lia | by inversion I | |].
  - etrans; [|apply IH; by left]. lia.
  - apply elem_of_cons in I as [->|I]; [|apply IH; by right]. etrans; [|apply IH; by left]. lia.
Qed.

Lemma size_list_to_set_le (l : list string) : (size (list_to_set l : gset string) ≤ length l)%nat.
Proof.
  induction l as [|x l IH]; [by apply Nat.eq_le_incl|]. simpl. rewrite size_union_alt, size_singleton. apply le_n_S. etrans; [|exact IH].
  apply subseteq_size. set_solver.
Qed.

Section group.
Context `{GoRuntime}.
Context (steps : list GraphNode) (deps : gmap string (list string)).

Definition step_set : gset string := list_to_set (map GraphNode_ID steps).

(** The levels hold each step once, at the length of its longest chain. *)
Definition levels_exact (levels : list (list GraphNode)) : Prop :=
  concat levels ≡ₚ steps ∧
  ∀ i s, s ∈ default [] (levels !! i) ↔ s ∈ steps ∧ longest step_set deps i (GraphNode_ID s).

Lemma groupByDepLevel_exact fuel levels :
  groupByDepLevel fuel steps deps = Some levels → levels_exact levels.
Proof.
  unfold groupByDepLevel. fold step_set. intros E. apply bind_Some in E as (lv & C & E).
  injection E as <-.
  apply compute_levels_exact in C as [[K _] A]; [|by intros id l]. set (f := λ s, Z.to_nat (default 0 (lv !! GraphNode_ID s))).
  set (top := foldl _ _ _).
  assert (∀ s, s ∈ steps → longest step_set deps (f s) (GraphNode_ID s) ∧ (f s < Z.to_nat (top + 1))%nat) as F.
  { intros s I. unfold f. destruct (A s I) as [l El]. rewrite El. destruct (K _ _ El) as (n & -> & Lg). simpl.
    rewrite Nat2Z.id. split; [done|].
    assert (Z.of_nat n ≤ top); [|lia]. apply foldl_max_ge. right.
    apply list_elem_of_fmap. exists (GraphNode_ID s, Z.of_nat n). split; [done | by apply elem_of_map_range]. }
  split.
  - etrans; [apply (place_all_concat f)|].
    + intros s I. rewrite length_replicate. by apply F.
    + by rewrite concat_replicate_nil, app_nil_r.
  - intros i s. rewrite (place_all f). destruct (decide (i < Z.to_nat (top + 1))%nat) as [L|L].
    + rewrite lookup_replicate_2 by done. simpl. rewrite elem_of_List_filter, Nat.eqb_eq.
      split; intros [I E]; destruct (F s I) as [Lg _]; (split; [done|]).
      * by rewrite <- E.
      * by eapply longest_unique.
    + rewrite lookup_ge_None_2 by (rewrite length_replicate; lia). simpl. split; [intros J; inversion J|].
      intros [I Lg]. destruct (F s I) as [Lg' B]. rewrite (longest_unique _ _ _ _ _ Lg Lg') in L. lia.
Qed.

(** It returns when no step depends on itself, and only then. *)
Lemma groupByDepLevel_returns fuel :
  (length steps ≤ fuel)%nat → acyclic_steps step_set deps → is_Some (groupByDepLevel fuel steps deps).
Proof.
  intros L A. unfold groupByDepLevel. fold step_set.
  destruct (compute_levels_returns step_set deps fuel steps ∅) as [lv ->]; [|done].
  intros s I C. assert (GraphNode_ID s ∈ step_set) as J by by apply elem_of_list_to_set, list_elem_of_fmap_2.
  apply (acyclic_chain step_set deps _ A J). apply (chain_shorter _ _ fuel); [done|].
  etrans; [|exact L]. unfold step_set. etrans; [apply size_list_to_set_le|]. by rewrite length_map.
Qed.

Lemma groupByDepLevel_acyclic fuel levels :
  groupByDepLevel fuel steps deps = Some levels → acyclic_steps step_set deps.
Proof.
  intros E id I T. apply groupByDepLevel_exact in E as [P L].
  apply elem_of_list_to_set, list_elem_of_fmap in I as (s & -> & I).
  rewrite <- P in I. apply list_elem_of_In, in_concat in I as (level & J & I).
  apply list_elem_of_In in J, I. apply list_elem_of_lookup in J as [i J]. specialize (proj1 (L i s)). rewrite J. intros K.
  destruct (K I) as [_ [_ N]]. apply N. by eapply cycle_chain.
Qed.
End group.

(** * Rendering *)

(** Every list of a grouping holds as many elements as were visited at most. *)
Lemma grouped_length {A B} (l : list A) (f : A → gmap string (list B) → gmap string (list B)) n m :
  (∀ x m n, (∀ k v, m !! k = Some v → length v ≤ n)%nat → ∀ k v, f x m !! k = Some v → (length v ≤ S n)%nat) →
  (∀ k v, m !! k = Some v → length v ≤ n)%nat →
  ∀ k v, for_each l f m !! k = Some v → (length v ≤ n + length l)%nat.
Proof.
  intros F. unfold for_each. revert n m. induction l as [|x l IH]; intros n m K k v E; simpl in E.
  - apply K in E. simpl. lia.
  - apply (IH (S n)) in E; [simpl; lia|]. by apply F.
Qed.

Lemma append_at_length {A} k (x : A) m n :
  (∀ k v, m !! k = Some v → length v ≤ n)%nat →
  ∀ k' v, append_at k x m !! k' = Some v → (length v ≤ S n)%nat.
Proof.
  intros K k' v. unfold append_at. destruct (decide (k' = k)) as [->|N].
  - rewrite lookup_insert_eq. intros [= <-]. rewrite length_app. simpl.
    destruct (m !! k) as [w|] eqn:E; simpl; [apply K in E|]; lia.
  - rewrite lookup_insert_ne by done. intros E. apply K in E. lia.
Qed.

Lemma pipelineSteps_length g pipeID steps :
  pipelineSteps g !! pipeID = Some steps → (length steps ≤ length (Graph_Nodes g))%nat.
Proof.
  unfold pipelineSteps. apply (grouped_length _ _ 0 ∅); [|intros ? ?; by rewrite lookup_empty].
  intros n m k K id v. destruct (String.eqb _ _); [destruct (List.find _ _)|].
  - by apply append_at_length.
  - intros E. apply K in E. lia.
  - intros E. apply K in E. lia.
Qed.

(** No step of a pipeline depends on itself, directly or through others. *)
Definition drawable (g : Graph) : Prop :=
  ∀ pipeID steps, pipelineSteps g !! pipeID = Some steps →
  acyclic_steps (step_set steps) (stepDeps g).

Lemma elem_of_sorted_keys `{GoRuntime} {A} (m : gmap string A) k : k ∈ sorted_keys m ↔ is_Some (m !! k).
Proof. unfold sorted_keys. rewrite elem_of_sort_strings. etrans; [apply elem_of_keys | apply elem_of_dom]. Qed.

Lemma RenderDOT_ranks `{GoRuntime} fuel g :
  is_Some (RenderDOT fuel g) ↔
  ∀ pipeID steps, pipelineSteps g !! pipeID = Some steps →
  is_Some (groupByDepLevel fuel steps (stepDeps g)).
Proof.
  unfold RenderDOT.
  transitivity (is_Some (mapM (λ pipeID, groupByDepLevel fuel (default [] (pipelineSteps g !! pipeID)) (stepDeps g))
    (sorted_keys (pipelineSteps g)))).
  { destruct (mapM _ _); simpl; [by split | split; by intros []]. }
  rewrite mapM_is_Some, Forall_forall. split.
  - intros A pipeID steps E. specialize (A pipeID). unfold compose in A. rewrite E in A. apply A, elem_of_sorted_keys. by exists steps.
  - intros A pipeID [steps E]%elem_of_sorted_keys. unfold compose. rewrite E. by apply (A pipeID).
Qed.

Lemma drawable_returns `{GoRuntime} g : drawable g → is_Some (RenderDOT (length (Graph_Nodes g)) g).
Proof.
  intros D. apply RenderDOT_ranks. intros pipeID steps E. apply groupByDepLevel_returns; [|by apply (D pipeID)].
  by eapply pipelineSteps_length.
Qed.

Lemma returns_drawable `{GoRuntime} fuel g : is_Some (RenderDOT fuel g) → drawable g.
Proof.
  intros S pipeID steps E. rewrite RenderDOT_ranks in S. destruct (S pipeID steps E) as [levels L].
  by eapply groupByDepLevel_acyclic.
Qed.

(** * The order of maps *)

(** The runtime [R] with another order of maps. *)
Definition with_order (R : GoRuntime) (range : ∀ V, gmap string V → list (string * V))
    (perm : ∀ V (m : gmap string V), range V m ≡ₚ map_to_list m) : GoRuntime := {|
  uni_letter := uni_letter;
  uni_digit := uni_digit;
  uni_print := uni_print;
  uni_fold := uni_fold;
  uni_lower := uni_lower;
  uni_upper := uni_upper;
  fmt_g := fmt_g;
  float_f := float_f;
  json_float := json_float;
  sha256_hex := sha256_hex;
  map_range := range;
  map_range_perm := perm;
|}.

Lemma sorted_keys_order (R R' : GoRuntime) {A} (m : gmap string A) :
  @sorted_keys R A m = @sorted_keys R' A m.
Proof. apply sort_strings_proper. by rewrite !map_range_perm. Qed.

Lemma foldl_max_perm l l' x : l ≡ₚ l' → foldl Z.max x l = foldl Z.max x l'.
Proof.
  intros P. revert x. induction P as [|y l l' P IH|y z l|l l' l'' P IH P' IH']; intros x; simpl;
    [done | apply IH | f_equal; lia | by rewrite IH].
Qed.

Lemma groupByDepLevel_order (R R' : GoRuntime) fuel steps deps :
  @groupByDepLevel R fuel steps deps = @groupByDepLevel R' fuel steps deps.
Proof.
  unfold groupByDepLevel. destruct (compute_levels _ _ _ _ _) as [lv|]; [|done]. simpl.
  rewrite (foldl_max_perm _ (map snd (@map_range R' _ lv))); [done|]. by rewrite !map_range_perm.
Qed.

Section order.
Context (R : GoRuntime) (range : ∀ V, gmap string V → list (string * V)).
Context (perm : ∀ V (m : gmap string V), range V m ≡ₚ map_to_list m).

Lemma RenderDOT_order fuel g : @RenderDOT (with_order R range perm) fuel g = @RenderDOT R fuel g.
Proof.
  unfold RenderDOT. rewrite !(sorted_keys_order (with_order R range perm) R).
  rewrite (mapM_ext _ (λ pipeID, @groupByDepLevel R fuel (default [] (pipelineSteps g !! pipeID)) (stepDeps g)))
    by (intros ?; apply groupByDepLevel_order).
  done.
Qed.

Lemma RenderMermaid_order g : @RenderMermaid (with_order R range perm) g = @RenderMermaid R g.
Proof. unfold RenderMermaid. by rewrite !(sorted_keys_order (with_order R range perm) R). Qed.
End order.

(** C31. RenderDOT returns a text exactly when no step of a pipeline depends on
    itself (on a cycle computeLevel recurses forever), a depth of recursion of
    the number of nodes is enough, and the steps that share a rank are those
    with equally long longest dependency chains; neither text depends on the
    iteration order of maps. *)
Theorem render_exact (R : GoRuntime) (g : Graph) :
  (drawable g → is_Some (RenderDOT (length (Graph_Nodes g)) g)) ∧
  (∀ fuel, is_Some (RenderDOT fuel g) → drawable g) ∧
  (∀ fuel steps levels, groupByDepLevel fuel steps (stepDeps g) = Some levels →
     levels_exact steps (stepDeps g) levels) ∧
  (∀ range perm,
     (∀ fuel, @RenderDOT (with_order R range perm) fuel g = RenderDOT fuel g) ∧
     @RenderMermaid (with_order R range perm) g = RenderMermaid g).
Proof.
  split_and!.
  - apply drawable_returns.
  - intros fuel. apply returns_drawable.
  - intros fuel steps levels. apply groupByDepLevel_exact.
  - intros range perm. split; [intros fuel; apply RenderDOT_order | apply RenderMermaid_order].
Qed.
