(* ===== verification/Commands.v ===== *)
(** The commands that only parse (cmd/agentspec/fmt.go and graph.go): agentspec
    fmt and agentspec graph.

    The fmt command threads the files and the two output streams; the other
    commands read a [FileSystem] that does not change. The recursion of
    parseGraphFiles takes fuel; CommandFacts proves that one unit more than
    there are readable files is enough. *)
From S2P Require Import Prelude GoStd Ast ParserCore Parser Resolver Formatter Graph GraphRender GoMaps Token Lexer ParserSound FormatText FormatWf FormatParse FormatRoundtrip GraphFacts.
Open Scope Z_scope.

(** * resolveFiles *)

Section resolve.
Context (stat_dir : string → result string bool).            (** os.Stat: whether a directory *)
Context (Glob : string → result string (list string)).       (** filepath.Glob *)

(** The loop of resolveFiles; [files] are the files found so far. *)
Fixpoint resolve_args (args files : list string) : result string (list string) :=
  match args with
  | [] => Ok files
  | arg :: args =>
      match stat_dir arg with
      | Err err => Err ("cannot access " +:+ arg +:+ ": " +:+ err)
      | Ok true =>
          match Glob (path_Join [arg; "*.ias"]) with
          | Err err => Err err
          | Ok matches => resolve_args args (files ++ matches)
          end
      | Ok false =>
          if HasSuffix arg ".az" then
            Err (arg +:+
              ": .az files are no longer supported, run 'agentspec migrate' to convert to .ias")
          else resolve_args args (files ++ [arg])
      end
  end.

Definition resolveFiles (args : list string) : result string (list string) :=
  resolve_args (if Nat.eqb (length args) 0 then ["."] else args) [].
End resolve.

(** * agentspec fmt *)

(** The files, by path, and what the command printed. *)
Record World := mkWorld {
  W_disk : gmap string string;
  W_stdout : list string;
  W_stderr : list string;
}.

Global Instance settable_World : Settable World := λ w,
  mkWorld (W_disk w) (W_stdout w) (W_stderr w).

Definition print (text : string) (w : World) : World :=
  w <| W_stdout := W_stdout w ++ [text] |>.

Definition print_error (text : string) (w : World) : World :=
  w <| W_stderr := W_stderr w ++ [text] |>.

Inductive FmtExit :=
| FmtFailed (err : string)
| FmtUnformatted       (** os.Exit(1) of --check *)
| FmtDone.

Section fmt.
Context `{GoRuntime}.
Context (read_error : string → string).             (** os.ReadFile of a missing file *)
Context (write_error : string → option string).     (** os.WriteFile: the error, if any *)
Context (check showDiff : bool).

(** formatFile, once the file is read and parsed: whether it changed, the error
    and the new state. *)
Definition write_formatted (path input formatted : string) (w : World)
    : (bool * option string) * World :=
  if String.eqb input formatted then ((false, None), w)
  else if check then ((true, None), print (path +:+ " needs formatting" +:+ nl) w)
  else
    let w :=
      if showDiff then
        print (formatted +:+ nl)
          (print ("--- " +:+ path +:+ nl +:+ "+++ " +:+ path +:+ " (formatted)" +:+ nl) w)
      else w in
    match write_error path with
    | Some err => ((true, Some err), w)
    | None => ((true, None), w <| W_disk := <[path := formatted]> (W_disk w) |>)
    end.

Definition formatFile (path : string) (w : World) : option ((bool * option string) * World) :=
  match W_disk w !! path with
  | None => Some ((false, Some (read_error path)), w)
  | Some input =>
      '(f, parseErrs) ← Parse input path;
      match parseErrs with
      | [] => f ← f; Some (write_formatted path input (Format f) w)
      | _ =>
          let w := foldl (λ w e, print_error (ParseError_Error e +:+ nl) w) w parseErrs in
          Some ((false, Some ("parse errors in " +:+ path)), w)
      end
  end.

(** The loop over the files and the exit status. *)
Fixpoint fmt_files (files : list string) (anyChanged : bool) (w : World) : option (FmtExit * World) :=
  match files with
  | [] => Some (if check && anyChanged then FmtUnformatted else FmtDone, w)
  | file :: files =>
      '((changed, err), w) ← formatFile file w;
      match err with
      | Some err =>
          Some (FmtFailed err, print_error ("Error formatting " +:+ file +:+ ": " +:+ err +:+ nl) w)
      | None => fmt_files files (if changed : bool then true else anyChanged) w
      end
  end.

Definition fmt_command (files : list string) (w : World) : option (FmtExit * World) :=
  fmt_files files false w.
End fmt.

(** * agentspec graph *)

(** The variables of parseGraphFiles. *)
Record Parsing := mkParsing {
  P_visited : gset string;
  P_astFiles : list File;
  P_parseErrors : list string;
}.

Inductive GraphOutput :=
| Serve (g : Graph)            (** the web server *)
| Content (text : string).     (** to standard output or to the output file *)

Section graph.
Context `{GoRuntime} (fs : FileSystem).
Context (EvalSymlinks : string → option string).   (** filepath.EvalSymlinks, [None] on an error *)

Definition real_path (path : string) : string := default path (EvalSymlinks path).

(** The file that an import of the file [path] names. *)
Definition import_path (path : string) (imp : Import) : string :=
  let impPath := Import_Path imp in
  if HasPrefix impPath "/" then impPath else path_Join [path_Dir path; impPath].

(** The imports of a file, in the order of the two loops. *)
Definition graph_imports (f : File) : list Import :=
  match File_Package f with Some pkg => Package_Imports pkg | None => [] end ++
  omap (λ stmt, match stmt with SImport imp => Some imp | _ => None end) (File_Statements f).

Fixpoint parse_each (parseOne : string → Parsing → option Parsing) (paths : list string)
    (st : Parsing) : option Parsing :=
  match paths with
  | [] => Some st
  | path :: paths => st ← parseOne path st; parse_each parseOne paths st
  end.

Fixpoint parseOne (fuel : nat) (path : string) (st : Parsing) : option Parsing :=
  match fuel with
  | O => None
  | S fuel =>
      let '(mkParsing visited astFiles parseErrors) := st in
      if bool_decide (real_path path ∈ visited) then Some st
      else
        let visited := {[real_path path]} ∪ visited in
        match ReadFile fs path with
        | Err err => Some (mkParsing visited astFiles (parseErrors ++ [path +:+ ": " +:+ err]))
        | Ok input =>
            '(f, errs) ← Parse input path;
            match errs with
            | [] =>
                f ← f;
                parse_each (parseOne fuel) (map (import_path path) (graph_imports f))
                  (mkParsing visited (astFiles ++ [f]) parseErrors)
            | _ =>
                let line e :=
                  path +:+ ":" +:+ pretty (ParseError_Line e) +:+ ": " +:+ ParseError_Message e in
                Some (mkParsing visited astFiles (parseErrors ++ map line errs))
            end
        end
  end.

Definition parseGraphFiles (fuel : nat) (files : list string) : option (list File * list string) :=
  st ← parse_each (parseOne fuel) files (mkParsing ∅ [] []);
  Some (P_astFiles st, P_parseErrors st).

(** The graph command, for the files that resolveFiles found; [dot_fuel] is the
    fuel of RenderDOT. *)
Definition graph_run (fuel dot_fuel : nat) (files : list string) (format : string)
    (noFiles noOrph : bool) : option (result string GraphOutput) :=
  if Nat.eqb (length files) 0 then Some (Err "no .ias files found")
  else
    '(astFiles, parseErrors) ← parseGraphFiles fuel files;
    if Nat.eqb (length astFiles) 0 then Some (Err "no valid .ias files to graph")
    else
      let g := command_graph astFiles parseErrors noFiles noOrph in
      if String.eqb format "web" then Some (Ok (Serve g))
      else if String.eqb format "dot" then out ← RenderDOT dot_fuel g; Some (Ok (Content out))
      else if String.eqb format "mermaid" then Some (Ok (Content (RenderMermaid g)))
      else Some (Err ("unknown format: " +:+ format +:+ " (use web, dot, or mermaid)")).
End graph.

(** What the commands promise: agentspec fmt loses nothing and is idempotent,
    agentspec graph reads each file once and draws the files it read. *)

Section parse.
Context `{GoRuntime}.

(** A parsed file carries the path it was parsed under. *)
Lemma Parse_path input path f errs : Parse input path = Some (Some f, errs) → File_Path f = path.
Proof.
  intros E. destruct (parse_cases input path) as [(err & _ & E')|(ts & f' & p & _ & _ & P & _ & E')];
    rewrite E' in E; simplify_eq.
  unfold parseFile in P. apply bind_Some in P as ([path' p0] & R & P).
  repeat (apply bind_Some in P as ([? ?] & _ & P)).
  injection P as <- <-. by injection R as <- <-.
Qed.
End parse.

(** * agentspec fmt *)

Section fmt.
Context `{GoRuntime}.
Context (read_error : string → string) (write_error : string → option string).
Context (W : ∀ path, write_error path = None).

(** The file parses without an error, as one that has a canonical form. *)
Definition ready (w : World) (path : string) (f : File) : Prop :=
  ∃ input, W_disk w !! path = Some input ∧ Parse input path = Some (Some f, []) ∧
    formattable f = true.

(** The file is its canonical form. *)
Definition settled (w : World) (path : string) (f : File) : Prop :=
  W_disk w !! path = Some (Format f) ∧ formattable f = true ∧ File_Path f = path.

Lemma formatFile_parsed check showDiff w path input f :
  W_disk w !! path = Some input → Parse input path = Some (Some f, []) →
  formatFile read_error write_error check showDiff path w =
  Some (write_formatted write_error check showDiff path input (Format f) w).
Proof. intros D P. unfold formatFile. by rewrite D, P. Qed.

Lemma formatFile_settled check showDiff w path f :
  settled w path f →
  formatFile read_error write_error check showDiff path w = Some ((false, None), w).
Proof.
  intros (D & F & <-). destruct (Parse_formatted f F) as (f' & P & E).
  rewrite (formatFile_parsed _ _ _ _ _ _ D P). unfold write_formatted.
  by rewrite (Format_unplaced _ _ E), String.eqb_refl.
Qed.

(** The other files and the errors printed are the same. *)
Definition touches (paths : list string) (w w' : World) : Prop :=
  W_stderr w' = W_stderr w ∧ ∀ path, path ∉ paths → W_disk w' !! path = W_disk w !! path.

Lemma write_formatted_ready showDiff w path input f :
  W_disk w !! path = Some input → formattable f = true → File_Path f = path →
  ∃ changed w', write_formatted write_error false showDiff path input (Format f) w = ((changed, None), w') ∧
    settled w' path f ∧ touches [path] w w'.
Proof.
  intros D F P. unfold write_formatted. destruct (String.eqb_spec input (Format f)) as [->|N].
  - by exists false, w.
  - rewrite W. eexists true, _. split; [done|]. split.
    + split_and!; [|done..]. destruct showDiff; apply lookup_insert_eq.
    + split; [by destruct showDiff|]. intros p Np. rewrite list_elem_of_singleton in Np.
      destruct showDiff; by apply lookup_insert_ne.
Qed.

(** A file that fmt can rewrite, or has rewritten already. *)
Definition good (w : World) (path : string) (f : File) : Prop := ready w path f ∨ settled w path f.

Lemma good_same w w' path f : W_disk w' !! path = W_disk w !! path → good w path f → good w' path f.
Proof. unfold good, ready, settled. by intros ->. Qed.

Lemma settled_same w w' path f : W_disk w' !! path = W_disk w !! path → settled w path f → settled w' path f.
Proof. unfold settled. by intros ->. Qed.

Lemma formatFile_good showDiff w path f :
  good w path f →
  ∃ changed w', formatFile read_error write_error false showDiff path w = Some ((changed, None), w') ∧
    settled w' path f ∧ touches [path] w w'.
Proof.
  intros [(input & D & P & F)|S].
  - rewrite (formatFile_parsed _ _ _ _ _ _ D P).
    destruct (write_formatted_ready showDiff w path input f D F (Parse_path _ _ _ _ P)) as (c & w' & -> & R).
    by exists c, w'.
  - exists false, w. split; [by apply (formatFile_settled _ _ _ _ f) | by split].
Qed.

Lemma fmt_files_settles showDiff files (φ : string → File) any w :
  (∀ path, path ∈ files → good w path (φ path)) →
  ∃ w', fmt_files read_error write_error false showDiff files any w = Some (FmtDone, w') ∧
    touches files w w' ∧ ∀ path, path ∈ files → settled w' path (φ path).
Proof.
  revert any w. induction files as [|file files IH]; intros any w G.
  - exists w. split_and!; [done | by split | intros path I; inversion I].
  - simpl. destruct (formatFile_good showDiff w file (φ file)) as (c & w1 & -> & S & [E1 D1]); [apply G; left|].
    assert (∀ path, path ≠ file → W_disk w1 !! path = W_disk w !! path) as D1'.
    { intros path N. apply D1. by rewrite list_elem_of_singleton. }
    simpl. destruct (IH (if c : bool then true else any) w1) as (w' & -> & [E D] & Ss).
    { intros path I. destruct (decide (path = file)) as [->|N]; [by right|].
      apply (good_same w); [by apply D1' | apply G; by right]. }
    exists w'. split; [done|]. split.
    + split; [congruence|]. intros path [N1 N2]%not_elem_of_cons. rewrite D by done. by apply D1'.
    + intros path I. destruct (decide (path ∈ files)) as [J|J]; [by apply Ss|].
      apply elem_of_cons in I as [->|]; [|done]. by apply (settled_same w1); [apply D|].
Qed.

(** On settled files the command has nothing to do. *)
Lemma fmt_files_idle check showDiff files (φ : string → File) w :
  (∀ path, path ∈ files → settled w path (φ path)) →
  fmt_files read_error write_error check showDiff files false w = Some (FmtDone, w).
Proof.
  induction files as [|file files IH]; intros S; simpl; [by rewrite andb_false_r|].
  rewrite (formatFile_settled _ _ _ _ (φ file)) by (apply S; left). simpl.
  apply IH. intros path I. apply S. by right.
Qed.

(** With --check, nothing is written and the exit tells whether a file differs
    from its canonical form. *)
Definition formatted (w : World) (φ : string → File) (path : string) : Prop :=
  W_disk w !! path = Some (Format (φ path)).

Lemma fmt_files_check showDiff files (φ : string → File) any w :
  (∀ path, path ∈ files → ready w path (φ path)) →
  ∃ exit w', fmt_files read_error write_error true showDiff files any w = Some (exit, w') ∧
    W_disk w' = W_disk w ∧
    (exit = FmtDone ∧ any = false ∧ (∀ path, path ∈ files → formatted w φ path) ∨
     exit = FmtUnformatted ∧ (any = true ∨ ∃ path, path ∈ files ∧ ¬ formatted w φ path)).
Proof.
  revert any w. induction files as [|file files IH]; intros any w R.
  - simpl. destruct any; [exists FmtUnformatted, w | exists FmtDone, w]; split_and!; try done; [right; auto|].
    left. split_and!; [done.. | intros path I; inversion I].
  - simpl. destruct (R file) as (input & D & P & F); [left|].
    rewrite (formatFile_parsed _ _ _ _ _ _ D P). unfold write_formatted.
    assert (formatted w φ file ↔ input = Format (φ file)) as Ff.
    { unfold formatted. rewrite D. split; congruence. }
    destruct (String.eqb_spec input (Format (φ file))) as [E|N]; simpl.
    + destruct (IH any w) as (exit & w' & -> & Dw & C); [intros path I; apply R; by right|].
      exists exit, w'. split_and!; [done | done |]. destruct C as [(-> & -> & A)|[-> C]]; [left|right].
      * split_and!; [done..|]. intros path [->|I]%elem_of_cons; [by apply Ff | by apply A].
      * split; [done|]. destruct C as [->|(path & I & N)]; [by left | right; exists path; split; [by right | done]].
    + destruct (IH true (print (file +:+ " needs formatting" +:+ nl) w)) as (exit & w' & -> & Dw & C).
      { intros path I. apply R. by right. }
      exists exit, w'. split_and!; [done | done |]. right. destruct C as [(_ & ? & _)|[-> _]]; [done|].
      split; [done|]. right. exists file. split; [left | by rewrite Ff].
Qed.
End fmt.

(** C29. agentspec fmt, when writing does not fail, on files that have a
    canonical form succeeds and keeps what they say: each is rewritten to its canonical text, which parses to the
    same file up to source positions; no other file changes, and no error is
    printed; a second run, with any flags, changes nothing and exits with
    success. agentspec fmt --check writes nothing and succeeds exactly when
    every file is in canonical form. *)
Theorem fmt_command_exact `{GoRuntime} read_error write_error showDiff files (φ : string → File) w :
  (∀ path, write_error path = None) →
  (∀ path, path ∈ files → ready w path (φ path)) →
  (∃ w', fmt_command read_error write_error false showDiff files w = Some (FmtDone, w') ∧
    touches files w w' ∧
    (∀ path, path ∈ files → ∃ f', W_disk w' !! path = Some (Format (φ path)) ∧
       Parse (Format (φ path)) path = Some (Some f', []) ∧ unplaced f' = unplaced (φ path)) ∧
    ∀ check' showDiff', fmt_command read_error write_error check' showDiff' files w' = Some (FmtDone, w')) ∧
  (∃ exit w', fmt_command read_error write_error true showDiff files w = Some (exit, w') ∧
    W_disk w' = W_disk w ∧ (exit = FmtDone ∨ exit = FmtUnformatted) ∧
    (exit = FmtDone ↔ ∀ path, path ∈ files → formatted w φ path)).
Proof.
  intros W R. split.
  - destruct (fmt_files_settles read_error write_error W showDiff files φ false w) as (w' & E & T & S).
    { intros path I. left. by apply R. }
    exists w'. split_and!; [done | exact T | |].
    + intros path I. destruct (S path I) as (D & F & P). destruct (Parse_formatted (φ path) F) as (f' & P' & U).
      rewrite P in P'. by exists f'.
    + intros check' showDiff'. unfold fmt_command. by apply (fmt_files_idle _ _ _ _ _ φ).
  - destruct (fmt_files_check read_error write_error showDiff files φ false w R) as (exit & w' & E & D & C).
    exists exit, w'. split_and!; [done | done | naive_solver |].
    destruct C as [(-> & _ & A)|(-> & [?|(path & I & N)])]; [done | done |].
    split; [done|]. intros A. by destruct N; apply A.
Qed.

(** A file that is not in canonical form. *)
Definition messy_source : string :=
  qt "package `demo`   version `0.1.0` lang `3.0`" +:+ nl +:+
  qt "prompt `greet` {" +:+ nl +:+ qt "content   `Say hello`" +:+ nl +:+ "}" +:+ nl.

Definition messy_file : File :=
  match @Parse ascii_runtime messy_source "a.ias" with
  | Some (Some f, []) => f
  | _ => example_file
  end.

Definition messy_world : World := mkWorld {["a.ias" := messy_source]} [] [].

Lemma fmt_command_exact_witness :
  ∃ w', @fmt_command ascii_runtime id (λ _, None) false true ["a.ias"] messy_world = Some (FmtDone, w') ∧
    W_disk w' !! "a.ias" = Some (@Format ascii_runtime messy_file) ∧
    ∀ check' showDiff',
      @fmt_command ascii_runtime id (λ _, None) check' showDiff' ["a.ias"] w' = Some (FmtDone, w').
Proof.
  destruct (@fmt_command_exact ascii_runtime id (λ _, None) true ["a.ias"] (λ _, messy_file) messy_world)
    as [(w' & E & _ & D & I) _].
  - done.
  - intros path ->%list_elem_of_singleton. exists messy_source. split_and!; vm_compute; reflexivity.
  - exists w'. destruct (D "a.ias") as (f' & Df & _); [left | by split_and!].
Defined.

(** * agentspec graph *)

Section graph_facts.
Context `{GoRuntime} (fs : FileSystem) (EvalSymlinks : string → option string).

Abbreviation real := (real_path EvalSymlinks).

Definition parses (path : string) (f : File) : Prop :=
  ∃ input, ReadFile fs path = Ok input ∧ Parse input path = Some (Some f, []).

(** The paths that a file imports. *)
Definition import_paths (f : File) : list string := map (import_path (File_Path f)) (graph_imports f).

(** The paths that the arguments lead to. *)
Inductive reached (args : list string) : string → Prop :=
  | reached_arg path : path ∈ args → reached args path
  | reached_import path f p : reached args path → parses path f → p ∈ import_paths f → reached args p.

Lemma parses_path path f : parses path f → File_Path f = path.
Proof. intros (input & _ & P). by eapply Parse_path. Qed.

(** A path was read: as one of the files, or without success. *)
Definition was_read (files : list File) (p : string) : Prop :=
  (∃ f, f ∈ files ∧ File_Path f = p) ∨ ¬ ∃ f, parses p f.

Section exploration.
Context (args : list string).

(** A file that a call adds, between [st] and [st']. *)
Record adds (st st' : Parsing) (f : File) : Prop := {
  ad_parses : parses (File_Path f) f;
  ad_reached : reached args (File_Path f);
  ad_new : real (File_Path f) ∉ P_visited st;
  ad_visited : real (File_Path f) ∈ P_visited st';
  ad_imports : ∀ p, p ∈ import_paths f → real p ∈ P_visited st';
}.

(** What visiting [paths] does. *)
Record explores (paths : list string) (st st' : Parsing) : Prop := {
  ex_visited : P_visited st ⊆ P_visited st';
  ex_paths : ∀ p, p ∈ paths → real p ∈ P_visited st';
  ex_files : ∃ l, P_astFiles st' = P_astFiles st ++ l ∧ (∀ f, f ∈ l → adds st st' f) ∧
    NoDup (map (real ∘ File_Path) l);
  ex_read : ∀ r, r ∈ P_visited st' → r ∉ P_visited st →
    ∃ p, real p = r ∧ was_read (P_astFiles st') p;
}.

Lemma was_read_more files l p : was_read files p → was_read (files ++ l) p.
Proof. intros [(f & I & P)|N]; [left; exists f; split; [apply elem_of_app; by left | done] | by right]. Qed.

Lemma explores_nil st : explores [] st st.
Proof.
  split; [done | intros p I; inversion I | | done]. exists [].
  split_and!; [by rewrite app_nil_r | intros f I; inversion I | constructor].
Qed.

Lemma adds_more st st1 st2 f : P_visited st1 ⊆ P_visited st2 → adds st st1 f → adds st st2 f.
Proof. intros V [P R N I M]. split; auto. Qed.

Lemma adds_earlier st st1 st2 f : P_visited st ⊆ P_visited st1 → adds st1 st2 f → adds st st2 f.
Proof. intros V [P R N I M]. split; auto. Qed.

Lemma explores_app ps1 ps2 st st1 st2 :
  explores ps1 st st1 → explores ps2 st1 st2 → explores (ps1 ++ ps2) st st2.
Proof.
  intros [V1 P1 (l1 & E1 & A1 & D1) R1] [V2 P2 (l2 & E2 & A2 & D2) R2]. split.
  - by etrans.
  - intros p [I|I]%elem_of_app; [by apply V2, P1 | by apply P2].
  - exists (l1 ++ l2). split_and!; [by rewrite E2, E1, app_assoc | |].
    + intros f [I|I]%elem_of_app; [by eapply adds_more, A1 | by eapply adds_earlier, A2].
    + rewrite map_app. apply NoDup_app. split_and!; [done | | done].
      intros r (f & -> & I)%list_elem_of_fmap (g & E & J)%list_elem_of_fmap.
      apply (ad_new _ _ _ (A2 g J)). unfold compose in E. rewrite <- E. apply (ad_visited _ _ _ (A1 f I)).
  - intros r I N. destruct (decide (r ∈ P_visited st1)) as [J|J].
    + destruct (R1 r J N) as (p & E & W). exists p. split; [done|]. rewrite E2. by apply was_read_more.
    + by apply R2.
Qed.

Lemma parse_each_explores call paths st st' :
  (∀ path st st', reached args path → call path st = Some st' → explores [path] st st') →
  (∀ path, path ∈ paths → reached args path) →
  parse_each call paths st = Some st' → explores paths st st'.
Proof.
  intros K. revert st. induction paths as [|path paths IH]; intros st R E.
  - injection E as <-. apply explores_nil.
  - simpl in E. apply bind_Some in E as (st1 & E1 & E). apply (explores_app [path] paths st st1).
    + apply K; [apply R; left | done].
    + apply IH; [intros p I; apply R; by right | done].
Qed.

(** A path that cannot be read or parsed is only marked. *)
Lemma explores_failed path st errs :
  (¬ ∃ f, parses path f) →
  explores [path] st (mkParsing ({[real path]} ∪ P_visited st) (P_astFiles st) errs).
Proof.
  intros N. split.
  - simpl. apply union_subseteq_r.
  - intros p ->%list_elem_of_singleton. simpl. apply elem_of_union_l. by apply elem_of_singleton.
  - exists []. split_and!; [by rewrite app_nil_r | intros f I; inversion I | constructor].
  - simpl. intros r [->%elem_of_singleton|I]%elem_of_union Nr; [|done]. exists path. split; [done | by right].
Qed.

Lemma explores_file path f st st' :
  parses path f → reached args path → real path ∉ P_visited st →
  explores (import_paths f)
    (mkParsing ({[real path]} ∪ P_visited st) (P_astFiles st ++ [f]) (P_parseErrors st)) st' →
  explores [path] st st'.
Proof.
  intros P R N [V Ps (l & E & A & D) Rd]. simpl in *. pose proof (parses_path _ _ P) as Fp.
  assert (P_visited st ⊆ P_visited st') as V' by (etrans; [apply union_subseteq_r | exact V]).
  assert (real path ∈ P_visited st') as I by (apply V, elem_of_union_l; by apply elem_of_singleton).
  split; [done | by intros p ->%list_elem_of_singleton | |].
  - exists (f :: l). split_and!; [by rewrite E, <- app_assoc | |].
    + intros g [->|J]%elem_of_cons.
      * split; rewrite ?Fp; done.
      * apply A in J. destruct J as [Pg Rg Ng Ig Mg]. simpl in Ng. split; try done.
        intros J. by apply Ng, elem_of_union_r.
    + simpl. apply NoDup_cons. split; [|done]. intros (g & Eg & J)%list_elem_of_fmap.
      apply A in J. apply (ad_new _ _ _ J). simpl. unfold compose in Eg. rewrite <- Eg, Fp.
      apply elem_of_union_l. by apply elem_of_singleton.
  - intros r Ir Nr. destruct (decide (r = real path)) as [->|Ne].
    + exists path. split; [done|]. left. exists f. split; [|done]. rewrite E.
      apply elem_of_app. left. apply elem_of_app. right. left.
    + apply Rd; [done|]. intros [->%elem_of_singleton|J]%elem_of_union; done.
Qed.

Lemma parseOne_explores fuel path st st' :
  reached args path → parseOne fs EvalSymlinks fuel path st = Some st' → explores [path] st st'.
Proof.
  revert path st st'. induction fuel as [|fuel IH]; intros path st st' R E; [done|]. simpl in E.
  destruct st as [visited files errors]. destruct (bool_decide_reflect (real path ∈ visited)) as [I|N].
  { injection E as <-. split; [done | by intros p ->%list_elem_of_singleton | | done].
    exists []. split_and!; [by rewrite app_nil_r | intros f J; inversion J | constructor]. }
  destruct (ReadFile fs path) as [input|err] eqn:Rf.
  2: { injection E as <-. apply (explores_failed path (mkParsing visited files errors)).
       intros (f & input & Rf' & _). congruence. }
  apply bind_Some in E as ([f errs] & P & E). destruct errs as [|e errs].
  - apply bind_Some in E as (f' & -> & E). assert (parses path f') as Pf by (by exists input).
    pose proof (parses_path _ _ Pf) as Fp.
    apply (explores_file path f' (mkParsing visited files errors)); [done..|].
    eapply parse_each_explores; [exact IH | | unfold import_paths; rewrite Fp; exact E].
    intros p I. by eapply reached_import.
  - injection E as <-. apply (explores_failed path (mkParsing visited files errors)).
    intros (g & input' & Rf' & P'). congruence.
Qed.

(** * Termination *)

Context (readable : gset string).
Context (covers : ∀ path f, parses path f → real path ∈ readable).

Lemma parse_each_returns (n : nat) call paths st :
  (∀ path st, size (readable ∖ P_visited st) ≤ n →
     ∃ st', call path st = Some st' ∧ P_visited st ⊆ P_visited st')%nat →
  (size (readable ∖ P_visited st) ≤ n)%nat →
  ∃ st', parse_each call paths st = Some st' ∧ P_visited st ⊆ P_visited st'.
Proof.
  intros K. revert st. induction paths as [|path paths IH]; intros st L; [by exists st|]. simpl.
  destruct (K path st L) as (st1 & -> & V). simpl. destruct (IH st1) as (st2 & -> & V').
  - etrans; [|exact L]. apply subseteq_size. set_solver.
  - exists st2. split; [done | by etrans].
Qed.

(** Every input parses, to a file unless there are errors. *)
Lemma Parse_total input path :
  ∃ f errs, Parse input path = Some (f, errs) ∧ (errs = [] → is_Some f).
Proof.
  destruct (parse_cases input path) as [(err & _ & E)|(ts & f & p & _ & _ & _ & _ & E)].
  - by exists None, [mkParseError path 1 1 err ""].
  - exists (Some f), (p_errors p). split; [done | by exists f].
Qed.

Lemma parseOne_returns fuel path st :
  (size (readable ∖ P_visited st) < fuel)%nat →
  ∃ st', parseOne fs EvalSymlinks fuel path st = Some st' ∧ P_visited st ⊆ P_visited st'.
Proof.
  revert path st. induction fuel as [|fuel IH]; intros path st L; [lia|]. simpl.
  destruct st as [visited files errors]. destruct (bool_decide_reflect (real path ∈ visited)) as [I|N].
  { eexists. split; [done|]. done. }
  destruct (ReadFile fs path) as [input|err] eqn:Rf; [|eexists; split; [done | simpl; set_solver]].
  destruct (Parse_total input path) as (f & errs & P & S). rewrite P. simpl.
  destruct errs as [|e errs]; [|eexists; split; [done | simpl; set_solver]].
  destruct (S eq_refl) as [f' ->]. simpl.
  assert (real path ∈ readable) as Rd by (apply (covers path f'); by exists input).
  set (st1 := mkParsing _ _ _).
  assert (size (readable ∖ P_visited st1) < size (readable ∖ visited))%nat as L1.
  { apply subset_size. simpl. split; [set_solver|]. intros D.
    assert (real path ∈ readable ∖ ({[real path]} ∪ visited)) by (apply D; set_solver). set_solver. }
  destruct (parse_each_returns (size (readable ∖ P_visited st1)) (parseOne fs EvalSymlinks fuel)
    (map (import_path path) (graph_imports f')) st1) as (st' & -> & V); [| done |].
  - intros p st2 L2. apply IH. simpl in L. lia.
  - exists st'. split; [done|]. etrans; [|exact V]. simpl. set_solver.
Qed.
End exploration.

(** What parseGraphFiles promises: the files are those that the arguments lead
    to, each is read once, and everything they name was read. *)
Record explored (args : list string) (files : list File) : Prop := {
  xp_parses : ∀ f, f ∈ files → parses (File_Path f) f ∧ reached args (File_Path f);
  xp_once : NoDup (map (real ∘ File_Path) files);
  xp_complete : ∀ p, p ∈ args ∨ (∃ f, f ∈ files ∧ p ∈ import_paths f) →
    ∃ p', real p' = real p ∧ was_read files p';
}.

Lemma parseGraphFiles_explored (readable : gset string) fuel args :
  (∀ path f, parses path f → real path ∈ readable) → (size readable < fuel)%nat →
  ∃ files errs, parseGraphFiles fs EvalSymlinks fuel args = Some (files, errs) ∧ explored args files.
Proof.
  intros Cv L. set (st0 := mkParsing ∅ [] []).
  assert (size (readable ∖ P_visited st0) ≤ size readable)%nat as L0 by (apply subseteq_size; set_solver).
  destruct (parse_each_returns readable Cv (size readable) (parseOne fs EvalSymlinks fuel) args st0)
    as (st & E & _); [| done |].
  { intros path st L1. apply (parseOne_returns readable Cv). lia. }
  exists (P_astFiles st), (P_parseErrors st). unfold parseGraphFiles. fold st0. rewrite E. split; [done|].
  assert (explores args args st0 st) as [_ Ps (l & -> & A & D) R].
  { eapply parse_each_explores; [| |exact E].
    - intros path st1 st2. apply parseOne_explores.
    - intros path I. by apply reached_arg. }
  simpl in *. split; [| exact D |].
  - intros f I. destruct (A f I) as [Pf Rf _ _ _]. done.
  - intros p I. assert (real p ∈ P_visited st) as V.
    { destruct I as [I|(f & I & J)]; [by apply Ps|]. by apply (ad_imports _ _ _ _ (A f I)). }
    apply (R _ V). apply not_elem_of_empty.
Qed.

Lemma explored_paths args files : explored args files → NoDup (map File_Path files).
Proof.
  intros [_ D _]. apply (NoDup_fmap_1 real). change (NoDup (map real (map File_Path files))).
  rewrite map_map. exact D.
Qed.

(** C30. agentspec graph returns and draws what it read: with more fuel than there
    are readable files, each file that the arguments lead to through imports is
    parsed once, however the imports loop; if one parses, the edges of the graph
    are the references of the declarations (what an agent uses, delegates to and
    falls back to, the server of a tool, what a client connects to, what a
    pipeline contains and its steps invoke and depend on, what a policy governs,
    a user can access and an environment overrides) and, with several files, the
    edges from each file to what it defines; its nodes are the declared entities,
    steps and plugins, a placeholder for each other target and the files, less
    what is filtered. The attributes of the nodes are not described. The web and
    mermaid formats succeed, and the dot format does when no pipeline step
    depends on itself. *)
Theorem graph_run_exact (readable : gset string) fuel args format noFiles noOrph :
  args ≠ [] → (∀ path f, parses path f → real path ∈ readable) → (size readable < fuel)%nat →
  ∃ files errs, parseGraphFiles fs EvalSymlinks fuel args = Some (files, errs) ∧ explored args files ∧
    if Nat.eqb (length files) 0
    then ∀ n, graph_run fs EvalSymlinks fuel n args format noFiles noOrph =
              Some (Err "no valid .ias files to graph")
    else ∃ g, command_spec files errs noFiles noOrph g ∧ NoDup (map File_Path files) ∧
      ∃ n, match graph_run fs EvalSymlinks fuel n args format noFiles noOrph with
           | Some (Ok (Serve g')) => format = "web" ∧ g' = g
           | Some (Ok (Content text)) =>
               format = "mermaid" ∧ text = RenderMermaid g ∨
               format = "dot" ∧ RenderDOT n g = Some text
           | Some (Err _) => format ∉ ["web"; "dot"; "mermaid"]
           | None => format = "dot" ∧ ¬ drawable g
           end.
Proof.
  intros Ne Cv L. destruct (parseGraphFiles_explored readable fuel args Cv L) as (files & errs & E & X).
  exists files, errs. split_and!; [done..|]. unfold graph_run.
  assert (Nat.eqb (length args) 0 = false) as -> by by destruct args. rewrite E. simpl mbind.
  destruct (Nat.eqb_spec (length files) 0) as [Z|Z]; [done|].
  set (g := command_graph files errs noFiles noOrph). exists g.
  split_and!; [apply command_graph_exact; by eapply explored_paths | by eapply explored_paths |]. exists (length (Graph_Nodes g)).
  destruct (String.eqb_spec format "web") as [->|N1]; [done|].
  destruct (String.eqb_spec format "dot") as [->|N2].
  - destruct (RenderDOT _ g) as [text|] eqn:R; simpl; [by right|]. split; [done|].
    intros D. destruct (drawable_returns g D) as [text R']. congruence.
  - destruct (String.eqb_spec format "mermaid") as [->|N3]; [by left|].
    rewrite !not_elem_of_cons. split_and!; [done.. | apply not_elem_of_nil].
Qed.
End graph_facts.

(** Two files that import each other. *)
Definition looping_files : FileSystem :=
  mkFileSystem (λ _, true)
    (λ path,
       if String.eqb path "a.ias" then
         Ok (qt "package `a` version `0.1.0` lang `3.0`" +:+ nl +:+ qt "import `./b.ias`" +:+ nl)
       else if String.eqb path "b.ias" then
         Ok (qt "package `b` version `0.1.0` lang `3.0`" +:+ nl +:+ qt "import `./a.ias`" +:+ nl +:+
             qt "prompt `p` {" +:+ nl +:+ qt "content `x`" +:+ nl +:+ "}" +:+ nl)
       else Err "no such file")
    (λ _, Err "no such directory").

Lemma graph_run_exact_witness :
  ∃ files errs, @parseGraphFiles ascii_runtime looping_files (λ _, None) 4 ["a.ias"] = Some (files, errs) ∧
    length files = 2%nat ∧
    ∃ g, command_spec files errs false false g.
Proof.
  destruct (@graph_run_exact ascii_runtime looping_files (λ _, None) {["a.ias"; "b.ias"]} 4 ["a.ias"]
    "web" false false) as (files & errs & E & X & R).
  - done.
  - intros path f (input & Rf & _). unfold real_path. simpl in *.
    destruct (String.eqb_spec path "a.ias") as [->|]; [set_solver|].
    destruct (String.eqb_spec path "b.ias") as [->|]; [set_solver | done].
  - vm_compute. lia.
  - exists files, errs. split; [exact E|].
    assert (length files = 2%nat) as Len.
    { replace files with (default [] (fst <$> @parseGraphFiles ascii_runtime looping_files (λ _, None) 4 ["a.ias"]))
        by (by rewrite E). vm_compute. reflexivity. }
    split; [exact Len|]. rewrite Len in R. destruct R as (g & S & _). by exists g.
Defined.
