(* ===== verification/Server.v ===== *)
(** The HTTP server of the runtime (internal/runtime/server.go): authentication,
    routing and the handlers, over the sessions, the limits, the metrics, a
    strategy of the agent loop and the executor of on-input blocks.

    A definition is a handler run with no other request at the same time. A
    request is given with its path cut into segments, as the multiplexer matches
    it, and its body as the JSON decoder leaves it; a reply is a status, the
    headers that are set, in order, and what is written. The readings of the
    clock that a request makes are the fields of [Clock]. TLS and logging are
    left out. *)
From S2P Require Import Prelude GoStd GoTime Auth Ir Lower Loop Memory Sessions ControlFlow RuntimeConfig Tools Limits Metrics.
Open Scope Z_scope.

(** * Requests and replies *)

(** The fields that the decoder sets in the request structs. *)
Record Payload := mkPayload {
  P_Message : string;
  P_Variables : gmap string string;
  P_SessionID : string;
  P_Metadata : gmap string string;
  P_Trigger : option Attrs;
}.

Definition no_payload : Payload := mkPayload "" ∅ "" ∅ None.

Record HttpRequest := mkHttpRequest {
  HR_Method : string;
  HR_Segments : list string;
  HR_Origin : string;
  HR_APIKey : string;            (** the header X-API-Key *)
  HR_Authorization : string;
  HR_CorrelationID : string;     (** the header, or a fresh identifier *)
  HR_Size : Z;                   (** the bytes that the decoder reads of the body *)
  HR_Body : result Payload Payload;  (** an error comes with what was set before it *)
}.

Definition HR_Path (r : HttpRequest) : string := "/" +:+ Join (HR_Segments r) "/".

Definition maxRequestBodySize : Z := 10 * 1024 * 1024.

(** Decoding a body behind limitBody. *)
Definition decode (r : HttpRequest) : result Payload Payload :=
  if maxRequestBodySize <? HR_Size r then Err no_payload else HR_Body r.

Inductive Content :=
  | NoContent
  | Object (fields : Attrs)      (** a JSON object *)
  | Page (text : string)
  | Events                       (** a stream, sent as it is produced *)
  | Frontend                     (** the answer of the built-in frontend, its status included *)
  | Refusal.                     (** the text of the multiplexer *)

Record Reply := mkReply {
  Reply_Status : Z;
  Reply_Headers : list (string * string);
  Reply_Content : Content;
}.

Definition writeJSON (status : Z) (headers : list (string * string)) (v : Attrs) : Reply :=
  mkReply status (headers ++ [("Content-Type", "application/json")]) (Object v).

Definition writeError (status : Z) (code message : string) : Reply :=
  writeJSON status [] [("error", VStr code); ("message", VStr message)].

Record AuditEntry := mkAuditEntry {
  Audit_Timestamp : string;
  Audit_User : string;
  Audit_Agent : string;
  Audit_SessionID : string;
  Audit_Action : string;
  Audit_InputTokens : Z;
  Audit_OutputTokens : Z;
  Audit_DurationMs : Z;
  Audit_Status : string;
  Audit_CorrelationID : string;
  Audit_Error : string;
}.

(** The readings of the clock, and the other values a request is given. *)
Record Clock := mkClock {
  T_limit : Z; T_refill : Z;        (** the two sections of Allow *)
  T_budget : Z; T_warn : Z;         (** CheckBudget and CheckWarnings *)
  T_load : Z; T_expired : Z;        (** the two sections of Get *)
  T_save : Z;                       (** Touch *)
  T_create : Z; T_id : string;      (** Create, and the identifier it draws *)
  T_list : string → string → Z; T_removed : string → string → Z;
                                    (** the two sections of List, for an agent and a session *)
  T_audit : Z;
  T_uptime : string;                (** the text of the uptime *)
  T_elapsed : Z;                    (** time.Since(start) *)
  T_duration : nat → Z;             (** the Duration of each response *)
  T_call : nat → Z;                 (** that of each tool call of a response *)
}.

Definition Milliseconds (d : Z) : Z := Z.quot d 1000000.

Section server.
Context `{GoRuntime} {W : Type}.

(** Server, with the indexes of NewServer. *)
Record Server := mkServer {
  S_config : RuntimeConfig;
  S_registry : option (Registry W);
  S_apiKey : string;
  S_noAuth : bool;
  S_corsOrigins : list string;
  S_enableUI : bool;
  S_userStore : option (gmap string User);
  S_agentIndex : gmap string AgentConfig;
  S_pipelineIndex : gmap string PipelineConfig;
}.

(** What requests change. *)
Record ServerState := mkServerState {
  SS_sessions : Manager;
  SS_metrics : Metrics;
  SS_rateLimiter : option RateLimiter;
  SS_costTracker : option CostTracker;
  SS_audit : option (list AuditEntry);
  SS_world : W;
}.

#[export] Instance settable_ServerState : Settable ServerState := λ s,
  mkServerState (SS_sessions s) (SS_metrics s) (SS_rateLimiter s) (SS_costTracker s) (SS_audit s) (SS_world s).

Definition NewServer (config : RuntimeConfig) (registry : option (Registry W)) (apiKey : string)
    (noAuth : bool) (corsOrigins : list string) (enableUI : bool) (userStore : option (gmap string User)) : Server :=
  mkServer config registry apiKey noAuth corsOrigins enableUI userStore
    (foldl (λ m a, <[AgentConfig_Name a := a]> m) ∅ (RuntimeConfig_Agents config))
    (foldl (λ m p, <[PipelineConfig_Name p := p]> m) ∅ (RuntimeConfig_Pipelines config)).

(** * Authentication *)

Definition request_key (r : HttpRequest) : string :=
  if nonempty (HR_APIKey r) then HR_APIKey r
  else if HasPrefix (HR_Authorization r) "Bearer " then str_drop 7 (HR_Authorization r) else "".

(** authMiddleware: the message of the answer 401, or the user of the context. *)
Definition authMiddleware (s : Server) (r : HttpRequest) : result string (option User) :=
  if String.eqb (HR_Path r) "/healthz" then Ok None
  else if String.eqb (HR_Path r) "/v1/metrics" then Ok None
  else if S_enableUI s && negb (HasPrefix (HR_Path r) "/v1/") then Ok None
  else
    let key := request_key r in
    match S_userStore s with
    | Some users =>
        match Resolve_user users key with
        | Some user => Ok (Some user)
        | None =>
            if S_noAuth s && String.eqb key "" then Ok None else Err "Missing or invalid API key"
        end
    | None =>
        if String.eqb (S_apiKey s) "" then
          if S_noAuth s then Ok None
          else Err "No API key configured. Use --no-auth to allow unauthenticated access."
        else if negb (ValidateKey key (S_apiKey s)) then Err "Missing or invalid API key"
        else Ok None
    end.

(** rateLimitMiddleware: whether the next handler is called. *)
Definition rateLimitMiddleware (t : Clock) (agentName : string) (st : ServerState) : bool * ServerState :=
  match SS_rateLimiter st with
  | None => (true, st)
  | Some rl =>
      if String.eqb agentName "" then (true, st)
      else
        let '(allowed, rl) := Allow (T_limit t) (T_refill t) agentName rl in
        (allowed, st <| SS_rateLimiter := Some rl |>)
  end.

(** The headers that corsMiddleware sets. *)
Definition cors_headers (s : Server) (r : HttpRequest) : list (string * string) :=
  let origin := HR_Origin r in
  if nonempty origin && existsb (λ allowed, String.eqb allowed origin) (S_corsOrigins s) then
    [("Access-Control-Allow-Origin", origin);
     ("Access-Control-Allow-Methods", "GET, POST, PUT, DELETE, OPTIONS");
     ("Access-Control-Allow-Headers", "Content-Type, Authorization, X-API-Key");
     ("Access-Control-Max-Age", "86400")]
  else [].

(** Log writes an audit entry; a write that fails is ignored. *)
Definition Log (t : Clock) (entry : AuditEntry) (st : ServerState) : ServerState :=
  match SS_audit st with
  | None => st
  | Some log =>
      let stamp := if String.eqb (Audit_Timestamp entry) "" then FormatRFC3339 (T_audit t)
                   else Audit_Timestamp entry in
      st <| SS_audit := Some (log ++
        [mkAuditEntry stamp (Audit_User entry) (Audit_Agent entry) (Audit_SessionID entry) (Audit_Action entry)
           (Audit_InputTokens entry) (Audit_OutputTokens entry) (Audit_DurationMs entry) (Audit_Status entry)
           (Audit_CorrelationID entry) (Audit_Error entry)]) |>
  end.

(** * The handlers without a model *)

Definition handleHealthz (s : Server) (t : Clock) : Reply :=
  writeJSON 200 []
    [("status", VStr "healthy"); ("uptime", VStr (T_uptime t));
     ("agents", VInt (Z.of_nat (length (RuntimeConfig_Agents (S_config s))))); ("version", VStr "0.3.0")].

(** One agent of the list, and the sessions that the count removes. *)
Definition list_agent (t : Clock) (a : AgentConfig) (store : MemoryStore) : Value * MemoryStore :=
  let '(active, expired) := List_read (AgentConfig_Name a) (T_list t (AgentConfig_Name a)) store in
  (VMap [("name", VStr (AgentConfig_Name a)); ("fqn", VStr (AgentConfig_FQN a));
         ("model", VStr (AgentConfig_Model a)); ("strategy", VStr (AgentConfig_Strategy a));
         ("status", VStr "running"); ("skills", VList (VStr <$> AgentConfig_Skills a));
         ("active_sessions", VInt (Z.of_nat (length active)))],
   List_write expired (T_removed t (AgentConfig_Name a)) store).

Definition handleListAgents (s : Server) (t : Clock) (st : ServerState) : Reply * ServerState :=
  let '(agents, store) :=
    foldl (λ '(agents, store) a, let '(v, store) := list_agent t a store in (agents ++ [v], store))
      ([], M_store (SS_sessions st)) (RuntimeConfig_Agents (S_config s)) in
  (writeJSON 200 [] [("agents", VList agents)],
   st <| SS_sessions := mkManager store (M_memory (SS_sessions st)) |>).

Definition agent_not_found (agentName : string) : Reply :=
  writeError 404 "not_found" ("Agent " +:+ quote agentName +:+ " not found").

Definition session_not_found (id : string) : Reply :=
  writeError 404 "not_found" ("Session " +:+ quote id +:+ " not found").

(** A decoding error is ignored. *)
Definition handleCreateSession (s : Server) (t : Clock) (agentName : string) (r : HttpRequest)
    (st : ServerState) : Reply * ServerState :=
  match S_agentIndex s !! agentName with
  | None => (agent_not_found agentName, st)
  | Some _ =>
      let req := match decode r with Ok req | Err req => req end in
      let '(sess, store) := Create (T_id t) (T_create t) agentName (P_Metadata req) (M_store (SS_sessions st)) in
      (writeJSON 201 []
         [("session_id", VStr (Session_ID sess)); ("agent", VStr agentName);
          ("created_at", VStr (FormatRFC3339 (Session_CreatedAt sess)))],
       st <| SS_sessions := mkManager store (M_memory (SS_sessions st)) |>)
  end.

(** Close of the in-memory stores does not fail. *)
Definition handleDeleteSession (sessionID : string) (st : ServerState) : Reply * ServerState :=
  (mkReply 204 [] NoContent, st <| SS_sessions := Close sessionID (SS_sessions st) |>).
End server.
Arguments Server W : clear implicits.
Arguments ServerState W : clear implicits.

(** * The handlers that run a model

    [Execute] is the method of the strategy, with the client and the registry of
    the server: it returns, on a world that holds the model and the tools. The
    events of a stream are written into the world: [send_event] writes one of
    the loop, [send] one of the handler. *)
Section handlers.
Context `{GoRuntime} {W : Type}.
Context (Execute : option (StreamEvent → W → W) → Invocation → W → result string Response * W).
Context (send_event : StreamEvent → W → W) (send : string → Attrs → W → W).
Context (Eval : string → gmap string Dyn → result string Dyn).
Implicit Types (s : Server W) (st : ServerState W).

(** The invocation of an agent by a handler, and the one that on-input blocks
    make, without token budget and temperature. *)
Definition invocation (a : AgentConfig) (input : string) (history : list Message)
    (variables : gmap string string) (stream : bool) : Invocation :=
  mkInvocation (AgentConfig_Name a) (AgentConfig_Model a) (AgentConfig_System a) input history variables
    (AgentConfig_MaxTurns a) 4096 (AgentConfig_TokenBudget a) (AgentConfig_Temperature a) stream.

Definition block_invocation (a : AgentConfig) (input : string) : Invocation :=
  mkInvocation (AgentConfig_Name a) (AgentConfig_Model a) (AgentConfig_System a) input [] ∅
    (AgentConfig_MaxTurns a) 4096 0 None false.

Definition run_model (inv : Invocation) (st : ServerState W) : result string Response * ServerState W :=
  let '(r, w) := Execute None inv (SS_world st) in (r, st <| SS_world := w |>).

Definition with_metrics (f : Metrics → Metrics) (st : ServerState W) : ServerState W :=
  st <| SS_metrics := f (SS_metrics st) |>.

(** ** On-input blocks *)

(** An input of a skill as a tool input. The executor passes the message of the
    request, a string. *)
Fixpoint tool_value (v : Dyn) : Value :=
  match v with
  | DStr x => VStr x
  | DBool b => VBool b
  | DInt n => VInt n
  | DFloat f => VFloat f
  | DList l => VList (map tool_value l)
  | DMap m => VMap (map (λ '(k, x), (k, tool_value x)) m)
  | DStrs l => VList (VStr <$> l)
  | DInts l => VList (VInt <$> l)
  | DFloats l => VList (VFloat <$> l)
  | DNil => VStr ""
  | DOther _ text => VStr text
  end.

Definition tool_input (params : option (gmap string string)) (input : Dyn) : Attrs :=
  let m := VStr <$> default ∅ params in
  map_to_list (match input with DNil => m | _ => <["input" := tool_value input]> m end).

(** InvokeSkill tries the registered tool and falls back to the model; the
    identifier of the call is read by no tool. *)
Definition InvokeSkill (s : Server W) (agent : AgentConfig) (skillName : string)
    (params : option (gmap string string)) (input : Dyn) (w : W) : result string string * W :=
  let '(answer, w) :=
    match S_registry s with
    | None => (None, w)
    | Some registry =>
        let '(r, w) := finish_execution
          (Registry_Execute registry (mkToolCall "cf_" skillName (tool_input params input))) w in
        (match r with Ok result => Some result | Err _ => None end, w)
    end in
  match answer with
  | Some result => (Ok result, w)
  | None =>
      let prompt := "Use the skill '" +:+ skillName +:+ "' to process: " +:+ fmt_v input in
      let '(r, w) := Execute None (block_invocation agent prompt) w in
      (match r with Ok resp => Ok (Response_Output resp) | Err err => Err err end, w)
  end.

Definition DelegateToAgent (s : Server W) (agentName : string) (input : Dyn) (w : W) : result string string * W :=
  match S_agentIndex s !! agentName with
  | None => (Err ("agent " +:+ quote agentName +:+ " not found for delegation"), w)
  | Some agent =>
      let '(r, w) := Execute None (block_invocation agent (fmt_v input)) w in
      (match r with Ok resp => Ok (Response_Output resp) | Err err => Err err end, w)
  end.

Definition activity_entry (a : Action) : Value :=
  let type := Action_Type a in
  VMap (("type", VStr type) ::
    (if String.eqb type "use_skill" then [("content", VStr ("Invoked skill: " +:+ Action_SkillName a))]
     else if String.eqb type "delegate" then [("content", VStr ("Delegated to agent: " +:+ Action_AgentName a))]
     else if String.eqb type "respond" then
       [("content", VStr ("Responded with expression: " +:+ Action_Expression a))]
     else [])).

Definition handleControlFlowInvoke s (t : Clock) (agent : AgentConfig) (message : string) st : Reply * ServerState W :=
  let rc := NewRuntimeContext (DStr message) ∅ ∅ in
  let '(actions, output, err, _, w) :=
    ExecuteBlock Eval (Some (InvokeSkill s agent)) (Some (DelegateToAgent s)) (AgentConfig_OnInput agent) rc
      (SS_world st) in
  let st := st <| SS_world := w |> in
  let count status := with_metrics
    (RecordInvocation (AgentConfig_Name agent) (AgentConfig_Model agent) status (T_elapsed t) 0 0) st in
  match err with
  | Some err => (writeError 500 "internal_error" err, count "failed")
  | None =>
      (writeJSON 200 []
         [("output", VStr output); ("activity", VList (map activity_entry actions));
          ("duration_ms", VInt (Milliseconds (T_elapsed t)))], count "completed")
  end.

(** ** Invoking an agent *)

Definition denied (user : option User) (agentName : string) : option User :=
  match user with
  | Some u => if IsAuthorized u agentName then None else Some u
  | None => None
  end.

(** The check of the budget, when there is a tracker. *)
Definition check_budget (t : Clock) (agentName : string) st : option string * ServerState W :=
  match SS_costTracker st with
  | None => (None, st)
  | Some ct =>
      let '(err, ct) := CostTracker_CheckBudget (T_budget t) agentName ct in
      (err, st <| SS_costTracker := Some ct |>)
  end.

(** The history of a session, if one is named. *)
Definition load_history (t : Clock) (sessionID : string) st : result string (list Message) * ServerState W :=
  if String.eqb sessionID "" then (Ok [], st)
  else
    let '(r, m) := LoadMessages sessionID (T_load t) (T_expired t) (SS_sessions st) in
    (r, st <| SS_sessions := m |>).

Definition exchange (message output : string) : list Message := [user_message message; assistant_message output []].

(** Saving the exchange: the headers, and the sessions after. *)
Definition save_exchange (t : Clock) (sessionID message output : string) st :
    list (string * string) * ServerState W :=
  let '(err, m) := SaveMessages sessionID (T_save t) (exchange message output) (SS_sessions st) in
  (match err with
   | Some _ => [("Warning", "199 - " +:+ String "034" "session save failed" +:+ String "034" EmptyString)]
   | None => []
   end, st <| SS_sessions := m |>).

Definition call_status (tc : ToolCallRecord) : string :=
  if nonempty (ToolCallRecord_Error tc) then "error" else "success".

(** The metrics of a response, and its cost. *)
Definition record_response (t : Clock) (agentName : string) (a : AgentConfig) (resp : Response) st : ServerState W :=
  let used := Response_Tokens resp in
  let st := with_metrics (λ m,
    foldl (λ m tc, RecordToolCall agentName (ToolCallRecord_ToolName tc) (call_status tc) m)
      (RecordInvocation agentName (AgentConfig_Model a) "completed" (T_elapsed t)
         (TokenUsage_InputTokens used) (TokenUsage_OutputTokens used) m)
      (Response_ToolCalls resp)) st in
  match SS_costTracker st with
  | None => st
  | Some ct =>
      let '(cost, ct) := RecordUsage agentName (AgentConfig_Model a) (TokenUsage_InputTokens used)
        (TokenUsage_OutputTokens used) ct in
      with_metrics (RecordCost agentName (AgentConfig_Model a) cost)
        (st <| SS_costTracker := Some (CheckWarnings (T_warn t) agentName ct).2 |>)
  end.

Definition tool_call_fields (t : Clock) (i : nat) (tc : ToolCallRecord) : Value :=
  VMap ([("id", VStr (ToolCallRecord_ID tc)); ("tool_name", VStr (ToolCallRecord_ToolName tc));
         ("input", VMap (ToolCallRecord_Input tc)); ("output", VStr (ToolCallRecord_Output tc));
         ("duration_ms", VInt (Milliseconds (T_call t i)))] ++
        (if nonempty (ToolCallRecord_Error tc) then [("error", VStr (ToolCallRecord_Error tc))] else [])).

Definition invoke_fields (t : Clock) (sessionID : string) (resp : Response) : Attrs :=
  let used := Response_Tokens resp in
  [("output", VStr (Response_Output resp)); ("tool_calls", VList (imap (tool_call_fields t) (Response_ToolCalls resp)));
   ("tokens", VMap [("input", VInt (TokenUsage_InputTokens used)); ("output", VInt (TokenUsage_OutputTokens used));
                    ("cache_read", VInt (TokenUsage_CacheRead used)); ("total", VInt (Total used))]);
   ("turns", VInt (Response_Turns resp)); ("duration_ms", VInt (Milliseconds (T_duration t 0)));
   ("session_id", VStr sessionID)].

Definition user_name (user : option User) : string := match user with Some u => User_Name u | None => "" end.

(** The part of handleInvoke after the model has answered. *)
Definition answer_invoke (t : Clock) (user : option User) (agentName : string) (a : AgentConfig) (r : HttpRequest)
    (req : Payload) (resp : Response) st : Reply * ServerState W :=
  let sessionID := P_SessionID req in
  let used := Response_Tokens resp in
  let st := record_response t agentName a resp st in
  let '(headers, st) :=
    if String.eqb sessionID "" then ([], st)
    else save_exchange t sessionID (P_Message req) (Response_Output resp) st in
  let st := Log t (mkAuditEntry "" (user_name user) agentName sessionID "invoke" (TokenUsage_InputTokens used)
    (TokenUsage_OutputTokens used) (Milliseconds (T_duration t 0)) "success" (HR_CorrelationID r) "") st in
  (writeJSON 200 headers (invoke_fields t sessionID resp), st).

Definition handleInvoke s (t : Clock) (user : option User) (agentName : string) (r : HttpRequest) st :
    Reply * ServerState W :=
  match S_agentIndex s !! agentName with
  | None => (agent_not_found agentName, st)
  | Some agent =>
      match denied user agentName with
      | Some u =>
          (writeError 403 "forbidden"
             ("User " +:+ quote (User_Name u) +:+ " is not authorized to access agent " +:+ quote agentName),
           Log t (mkAuditEntry "" (User_Name u) agentName "" "invoke" 0 0 0 "denied" (HR_CorrelationID r) "") st)
      | None =>
          match check_budget t agentName st with
          | (Some err, st) =>
              (writeJSON 429 [("Retry-After", "3600")]
                 [("error", VStr "budget_exceeded"); ("message", VStr err); ("agent", VStr agentName)], st)
          | (None, st) =>
              match decode r with
              | Err _ => (writeError 400 "invalid_request" "Invalid request body", st)
              | Ok req =>
                  match AgentConfig_OnInput agent with
                  | _ :: _ => handleControlFlowInvoke s t agent (P_Message req) st
                  | [] =>
                      match load_history t (P_SessionID req) st with
                      | (Err _, st) => (session_not_found (P_SessionID req), st)
                      | (Ok history, st) =>
                          match run_model (invocation agent (P_Message req) history (P_Variables req) false) st with
                          | (Err err, st) =>
                              (writeError 500 "internal_error" err,
                               with_metrics (RecordInvocation agentName (AgentConfig_Model agent) "failed"
                                 (T_elapsed t) 0 0) st)
                          | (Ok resp, st) => answer_invoke t user agentName agent r req resp st
                          end
                      end
                  end
              end
          end
      end
  end.

(** ** Streams and sessions *)

Definition stream_headers : list (string * string) :=
  [("Content-Type", "text/event-stream"); ("Cache-Control", "no-cache"); ("Connection", "keep-alive")].

(** The connections of net/http can be flushed. *)
Definition handleStream s (t : Clock) (agentName : string) (r : HttpRequest) st : Reply * ServerState W :=
  match S_agentIndex s !! agentName with
  | None => (agent_not_found agentName, st)
  | Some agent =>
      match decode r with
      | Err _ => (writeError 400 "invalid_request" "Invalid request body", st)
      | Ok req =>
          let '(res, w) := Execute (Some send_event) (invocation agent (P_Message req) [] ∅ true) (SS_world st) in
          let w :=
            match res with
            | Err err => send "error" [("error", VStr "internal_error"); ("message", VStr err)] w
            | Ok resp =>
                let used := Response_Tokens resp in
                send "done"
                  [("tokens", VMap [("input", VInt (TokenUsage_InputTokens used));
                                    ("output", VInt (TokenUsage_OutputTokens used)); ("total", VInt (Total used))]);
                   ("turns", VInt (Response_Turns resp)); ("duration_ms", VInt (Milliseconds (T_duration t 0)))] w
            end in
          (mkReply 200 stream_headers Events, st <| SS_world := w |>)
      end
  end.

Definition handleSessionMessage s (t : Clock) (agentName sessionID : string) (r : HttpRequest) st :
    Reply * ServerState W :=
  match S_agentIndex s !! agentName with
  | None => (agent_not_found agentName, st)
  | Some agent =>
      match decode r with
      | Err _ => (writeError 400 "invalid_request" "Invalid request body", st)
      | Ok req =>
          let '(loaded, m) := LoadMessages sessionID (T_load t) (T_expired t) (SS_sessions st) in
          let st := st <| SS_sessions := m |> in
          match loaded with
          | Err _ => (session_not_found sessionID, st)
          | Ok history =>
              match run_model (invocation agent (P_Message req) history ∅ false) st with
              | (Err err, st) => (writeError 500 "internal_error" err, st)
              | (Ok resp, st) =>
                  let '(headers, st) := save_exchange t sessionID (P_Message req) (Response_Output resp) st in
                  (writeJSON 200 headers
                     [("output", VStr (Response_Output resp)); ("turns", VInt (Response_Turns resp));
                      ("duration_ms", VInt (Milliseconds (T_duration t 0))); ("session_id", VStr sessionID)], st)
              end
          end
      end
  end.

(** ** Pipelines *)

(** The input of a step: its own, the output of its first dependency, or the
    trigger. *)
Definition pipeline_input (step : PipelineStepConfig) (outputs : gmap string string) (trigger : string) : string :=
  let input := PipelineStepConfig_Input step in
  let input :=
    match PipelineStepConfig_DependsOn step with
    | dep :: _ => if String.eqb input "" then default "" (outputs !! dep) else input
    | [] => input
    end in
  if String.eqb input "" then trigger else input.

(** The loop over the steps; [n] counts the executions so far. The results are
    kept by step name. *)
Fixpoint pipeline_steps s (t : Clock) (trigger : string) (n : nat) (steps : list PipelineStepConfig)
    (outputs : gmap string string) (results : gmap string Value) (w : W) : string * gmap string Value * W :=
  match steps with
  | [] => ("completed", results, w)
  | step :: steps =>
      let ref := PipelineStepConfig_AgentRef step in
      let name := PipelineStepConfig_Name step in
      let failed err := <[name := VMap [("agent", VStr ref); ("status", VStr "failed"); ("error", VStr err)]]> results in
      match S_agentIndex s !! ref with
      | None => ("failed", failed ("agent " +:+ quote ref +:+ " not found"), w)
      | Some agent =>
          match Execute None (invocation agent (pipeline_input step outputs trigger) [] ∅ false) w with
          | (Err err, w) => ("failed", failed err, w)
          | (Ok resp, w) =>
              let output := Response_Output resp in
              pipeline_steps s t trigger (S n) steps (<[name := output]> outputs)
                (<[name := VMap [("agent", VStr ref); ("output", VStr output);
                                 ("duration_ms", VInt (Milliseconds (T_duration t n))); ("status", VStr "completed")]]>
                   results) w
          end
      end
  end.

Definition executePipeline s (t : Clock) (name : string) (steps : list PipelineStepConfig) (trigger : string) (w : W) :
    Attrs * W :=
  let '(status, results, w) := pipeline_steps s t trigger 0 steps {["trigger" := trigger]} ∅ w in
  ([("pipeline", VStr name); ("status", VStr status); ("steps", VMap (map_to_list results))], w).

(** A trigger that cannot be encoded is the empty string; none is null. *)
Definition trigger_input (trigger : option Attrs) : string :=
  match trigger with None => "null" | Some m => default "" (Marshal (VMap m)) end.

Definition handlePipelineRun s (t : Clock) (pipelineName : string) (r : HttpRequest) st : Reply * ServerState W :=
  match S_pipelineIndex s !! pipelineName with
  | None => (writeError 404 "not_found" ("Pipeline " +:+ quote pipelineName +:+ " not found"), st)
  | Some pConfig =>
      match decode r with
      | Err _ => (writeError 400 "invalid_request" "Invalid request body", st)
      | Ok req =>
          let '(result, w) :=
            executePipeline s t pipelineName (PipelineConfig_Steps pConfig) (trigger_input (P_Trigger req))
              (SS_world st) in
          (writeJSON 200 [] result, st <| SS_world := w |>)
      end
  end.

(** * Routes *)

Inductive Route :=
  | Healthz | ListAgents | MetricsPage
  | Invoke (agent : string) | Stream (agent : string) | CreateSession (agent : string)
  | SessionMessage (agent id : string) | DeleteSession (id : string) | PipelineRun (pipeline : string)
  | FrontendPage | NotAllowed | NotFound.

(** The patterns of a path, each with its method. *)
Definition patterns (segments : list string) : list (string * Route) :=
  match segments with
  | ["healthz"] => [("GET", Healthz)]
  | ["v1"; "agents"] => [("GET", ListAgents)]
  | ["v1"; "metrics"] => [("GET", MetricsPage)]
  | ["v1"; "agents"; name; "invoke"] => [("POST", Invoke name)]
  | ["v1"; "agents"; name; "stream"] => [("POST", Stream name)]
  | ["v1"; "agents"; name; "sessions"] => [("POST", CreateSession name)]
  | ["v1"; "agents"; name; "sessions"; id] =>
      if String.eqb id "" then [] else [("POST", SessionMessage name id); ("DELETE", DeleteSession id)]
  | ["v1"; "pipelines"; name; "run"] => [("POST", PipelineRun name)]
  | _ => []
  end.

(** The choice of the multiplexer, for a clean path; a GET pattern matches HEAD,
    and the frontend is mounted for every path and method. *)
Definition route (enableUI : bool) (method : string) (segments : list string) : Route :=
  let method := if String.eqb method "HEAD" then "GET" else method in
  match List.find (λ p, String.eqb p.1 method) (patterns segments) with
  | Some (_, handler) => handler
  | None => if enableUI then FrontendPage else match patterns segments with [] => NotFound | _ => NotAllowed end
  end.

Definition rate_limited : Reply := writeError 429 "rate_limited" "Per-agent rate limit exceeded".

(** The handler of a route. *)
Definition dispatch s (t : Clock) (user : option User) (r : HttpRequest) (st : ServerState W) : Reply * ServerState W :=
  match route (S_enableUI s) (HR_Method r) (HR_Segments r) with
  | Healthz => (handleHealthz s t, st)
  | ListAgents => handleListAgents s t st
  | MetricsPage =>
      (match Metrics_Handler (SS_metrics st) with
       | Some page => mkReply 200 [("Content-Type", "text/plain; version=0.0.4; charset=utf-8")] (Page page)
       | None => mkReply 500 [] NoContent
       end, st)
  | Invoke name =>
      let '(allowed, st) := rateLimitMiddleware t name st in
      if allowed then handleInvoke s t user name r st else (rate_limited, st)
  | Stream name =>
      let '(allowed, st) := rateLimitMiddleware t name st in
      if allowed then handleStream s t name r st else (rate_limited, st)
  | CreateSession name => handleCreateSession s t name r st
  | SessionMessage name id => handleSessionMessage s t name id r st
  | DeleteSession id => handleDeleteSession id st
  | PipelineRun name => handlePipelineRun s t name r st
  | FrontendPage => (mkReply 200 [] Frontend, st)
  | NotAllowed => (mkReply 405 [] Refusal, st)
  | NotFound => (mkReply 404 [] Refusal, st)
  end.

Definition add_headers (headers : list (string * string)) (reply : Reply) : Reply :=
  mkReply (Reply_Status reply) (headers ++ Reply_Headers reply) (Reply_Content reply).

(** Handler: the cross-origin headers around authentication around the
    correlation identifier around the routes. *)
Definition serve s (t : Clock) (r : HttpRequest) st : Reply * ServerState W :=
  let cors := cors_headers s r in
  if String.eqb (HR_Method r) "OPTIONS" then (mkReply 204 cors NoContent, st)
  else
    match authMiddleware s r with
    | Err message => (add_headers cors (writeError 401 "unauthorized" message), st)
    | Ok user =>
        let '(reply, st) := dispatch s t user r st in
        (add_headers (cors ++ [("X-Correlation-ID", HR_CorrelationID r)]) reply, st)
    end.
End handlers.
