(* ===== verification/ServerFacts.v ===== *)
(** What the server of the runtime guarantees: no request changes anything
    without credentials, an invocation reaches the model only through its gates
    and is accounted for, and a conversation by messages refines a window of
    exchanges. *)
From S2P Require Import Prelude GoStd GoTime Auth Ir Lower Loop Memory MemoryFacts Sessions ControlFlow RuntimeConfig Tools Limits Metrics Server.
Open Scope Z_scope.

(** * Credentials *)

Section credentials.
Context `{GoRuntime} {W : Type}.
Implicit Types (s : Server W) (st : ServerState W).

(** The key that a request presents: the header X-API-Key when it is set, else
    the bearer token of the header Authorization, and else the empty one. *)
Inductive presents (r : HttpRequest) : string → Prop :=
  | presents_api_key key : HR_APIKey r = key → key ≠ "" → presents r key
  | presents_bearer key : HR_APIKey r = "" → HR_Authorization r = "Bearer " +:+ key → presents r key
  | presents_nothing :
      HR_APIKey r = "" → (∀ key, HR_Authorization r ≠ "Bearer " +:+ key) → presents r "".

(** A request that may pass as a user, or as nobody in particular. *)
Inductive credential s (r : HttpRequest) : option User → Prop :=
  | by_user users key u :
      S_userStore s = Some users → presents r key → users !! key = Some u → credential s r (Some u)
  | without_key users :
      S_userStore s = Some users → presents r "" → users !! "" = None → S_noAuth s = true → credential s r None
  | by_key :
      S_userStore s = None → S_apiKey s ≠ "" → presents r (S_apiKey s) → credential s r None
  | without_auth :
      S_userStore s = None → S_apiKey s = "" → S_noAuth s = true → credential s r None.

Lemma presents_key r key : presents r key ↔ request_key r = key.
Proof.
  unfold request_key, nonempty. destruct (String.eqb_spec (HR_APIKey r) "") as [E|N]; cbn [negb].
  - destruct (HasPrefix (HR_Authorization r) "Bearer ") eqn:P.
    + pose proof P as [rest Er]%HasPrefix_spec. rewrite Er.
      assert (∀ v, str_drop 7 ("Bearer " +:+ v) = v) as D by exact (str_drop_app "Bearer "). rewrite D. split.
      * intros [key' <- N|key' _ Eb|_ Nb]; [done | | by destruct (Nb rest)].
        rewrite Er in Eb. apply (f_equal (str_drop 7)) in Eb. by rewrite !D in Eb.
      * intros <-. by apply presents_bearer.
    + assert (∀ key, HR_Authorization r ≠ "Bearer " +:+ key) as Nb.
      { intros k Ek. assert (HasPrefix (HR_Authorization r) "Bearer " = true); [|congruence].
        apply HasPrefix_spec. by exists k. }
      split; [intros [key' <- N|key' _ Eb|_ _]; [done | by destruct (Nb key') | done]|].
      intros <-. by apply presents_nothing.
  - split; [by intros [key' <- _|key' E _|E _]|]. intros <-. by apply presents_api_key.
Qed.

(** The routes that read or change more than the metrics and static files. *)
Definition guarded (route : Route) : bool :=
  match route with
  | Healthz | MetricsPage | FrontendPage | NotAllowed | NotFound => false
  | _ => true
  end.

Lemma guarded_path s r :
  guarded (route (S_enableUI s) (HR_Method r) (HR_Segments r)) = true →
  String.eqb (HR_Path r) "/healthz" = false ∧ String.eqb (HR_Path r) "/v1/metrics" = false ∧
  HasPrefix (HR_Path r) "/v1/" = true.
Proof.
  unfold route, HR_Path. set (m := if String.eqb (HR_Method r) "HEAD" then "GET" else HR_Method r).
  clearbody m. destruct (List.find _ _) as [[m' handler]|] eqn:E.
  2: { destruct (S_enableUI s); [done|]. by destruct (patterns _). }
  apply List.find_some in E as [I _]. revert I. unfold patterns.
  repeat case_match; simpl; try done; intros I G; destruct_or? I; simplify_eq; try done; split_and!; done.
Qed.

(** The middleware passes exactly the requests with a credential. *)
Lemma authMiddleware_credential s r user :
  guarded (route (S_enableUI s) (HR_Method r) (HR_Segments r)) = true →
  (authMiddleware s r = Ok user ↔ credential s r user).
Proof.
  intros G. destruct (guarded_path s r G) as (P1 & P2 & P3). unfold authMiddleware, ValidateKey, Resolve_user.
  rewrite P1, P2, P3, andb_false_r. split.
  - destruct (S_userStore s) as [users|] eqn:U.
    + destruct (users !! request_key r) as [u|] eqn:K.
      { intros [= <-]. eapply by_user; [done | by apply presents_key | done]. }
      destruct (S_noAuth s) eqn:N; [|done]. simpl. destruct (String.eqb_spec (request_key r) "") as [E|]; [|done].
      intros [= <-]. rewrite E in K. eapply without_key; [done | by apply presents_key | done..].
    + destruct (String.eqb_spec (S_apiKey s) "").
      * destruct (S_noAuth s) eqn:N; [|done]. intros [= <-]. by apply without_auth.
      * destruct (String.eqb_spec (request_key r) (S_apiKey s)) as [E|]; [|done]. intros [= <-].
        apply by_key; [done..|]. by apply presents_key.
  - intros [users key u -> <-%presents_key ->|users -> K%presents_key L ->| -> N K%presents_key| -> -> ->]; try done.
    + by rewrite K, L.
    + apply String.eqb_neq in N as N'. by rewrite N', K, String.eqb_refl.
Qed.
End credentials.

Section serving.
Context `{GoRuntime} {W : Type}.
Context (Execute : option (StreamEvent → W → W) → Invocation → W → result string Response * W).
Context (send_event : StreamEvent → W → W) (send : string → Attrs → W → W).
Context (Eval : string → gmap string Dyn → result string Dyn).
Implicit Types (s : Server W) (st : ServerState W).

Abbreviation serve := (serve Execute send_event send Eval).
Abbreviation dispatch := (dispatch Execute send_event send Eval).

Lemma stream_keeps s t name r st :
  SS_costTracker (handleStream Execute send_event send s t name r st).2 = SS_costTracker st ∧
  SS_audit (handleStream Execute send_event send s t name r st).2 = SS_audit st.
Proof.
  unfold handleStream. destruct (_ !! name); [|done]. destruct (decode r); [|done]. by destruct (Execute _ _ _).
Qed.

Lemma dispatch_unguarded s t user r st :
  guarded (route (S_enableUI s) (HR_Method r) (HR_Segments r)) = false → (dispatch s t user r st).2 = st.
Proof. unfold Server.dispatch. by destruct (route _ _ _). Qed.

(** Only an invocation looks at the user, the budget and the audit log. *)
Lemma dispatch_side_doors s t user r st :
  (∀ name, route (S_enableUI s) (HR_Method r) (HR_Segments r) ≠ Invoke name) →
  dispatch s t user r st = dispatch s t None r st ∧
  SS_costTracker (dispatch s t user r st).2 = SS_costTracker st ∧
  SS_audit (dispatch s t user r st).2 = SS_audit st.
Proof.
  intros N. unfold Server.dispatch. destruct (route _ _ _) as [| | |name|name|name|name id|id|name| | |] eqn:R; try done.
  - unfold handleListAgents. by destruct (foldl _ _ _).
  - by destruct (N name).
  - unfold rateLimitMiddleware. destruct (SS_rateLimiter st) as [rl|]; [|split; [done|]; apply stream_keeps].
    destruct (String.eqb name ""); [split; [done|]; apply stream_keeps|]. destruct (Allow _ _ _ _) as [[|] rl']; [|done].
    split; [done|].
    by edestruct (stream_keeps s t name r) as [-> ->].
  - unfold handleCreateSession. by destruct (_ !! name).
  - split; [done|]. unfold handleSessionMessage. destruct (_ !! name); [|done]. destruct (decode r); [|done].
    destruct (LoadMessages _ _ _ _) as [[h|] m]; [|done]. unfold run_model. destruct (Execute _ _ _) as [[resp|] w]; [|done].
    cbn beta iota zeta. unfold save_exchange. by destruct (SaveMessages _ _ _ _).
  - split; [done|]. unfold handlePipelineRun. destruct (_ !! name); [|done]. destruct (decode r); [|done].
    by destruct (executePipeline _ _ _ _ _ _).
Qed.

(** C34. Authentication is complete: a request for an agent, a session or a
    pipeline is handled exactly when it carries the key of a user or of the
    server, or may come without one, and is handled as that user; without a
    credential it is answered 401, and neither the state of the server nor the
    world of the models and tools changes. The routes that need no credential,
    and preflight requests, change nothing either. But only the invocation of an
    agent looks at who the user is and at the budgets: streams, sessions and
    pipelines are the same for every user, and neither charge nor log. *)
Theorem serve_authenticated s t r st :
  let '(reply, st') := serve s t r st in
  if String.eqb (HR_Method r) "OPTIONS" then st' = st ∧ Reply_Status reply = 204
  else if guarded (route (S_enableUI s) (HR_Method r) (HR_Segments r)) then
    (∀ user, credential s r user →
       st' = (dispatch s t user r st).2 ∧
       reply = add_headers (cors_headers s r ++ [("X-Correlation-ID", HR_CorrelationID r)])
                 (dispatch s t user r st).1) ∧
    ((∀ user, ¬ credential s r user) → st' = st ∧ Reply_Status reply = 401) ∧
    ((∀ name, route (S_enableUI s) (HR_Method r) (HR_Segments r) ≠ Invoke name) →
       ∀ user, dispatch s t user r st = dispatch s t None r st ∧
         SS_costTracker (dispatch s t user r st).2 = SS_costTracker st ∧
         SS_audit (dispatch s t user r st).2 = SS_audit st)
  else st' = st.
Proof.
  unfold Server.serve. destruct (String.eqb (HR_Method r) "OPTIONS"); [done|].
  destruct (guarded _) eqn:G.
  - destruct (authMiddleware s r) as [user|message] eqn:A.
    + destruct (dispatch s t user r st) as [reply st'] eqn:D.
      split_and!; [| | intros N u; by apply dispatch_side_doors].
      * intros user' C%authMiddleware_credential; [|done]. rewrite A in C. injection C as <-. by rewrite D.
      * intros N. apply authMiddleware_credential in A; [|done]. by destruct (N user).
    + split_and!; [|done| intros N u; by apply dispatch_side_doors]. intros user C%authMiddleware_credential; [|done]. by rewrite A in C.
  - destruct (authMiddleware s r) as [user|message]; [|done].
    pose proof (dispatch_unguarded s t user r st G) as E. by destruct (dispatch s t user r st).
Qed.

(** * Invocations *)

(** The conversation that a session shows to a request: the session is there
    and was not, at both readings of the clock, idle for longer than the
    expiry. *)
Definition live (t : Clock) (id : string) (m : Manager) (h : list Message) : Prop :=
  ∃ sess, MS_sessions (M_store m) !! id = Some sess ∧
    ¬ (0 < MS_expiry (M_store m) ∧ MS_expiry (M_store m) < T_load t - Session_LastActive sess ∧
       MS_expiry (M_store m) < T_expired t - Session_LastActive sess) ∧
    h = SlidingWindow_Load_read (M_memory m) id.

Lemma not_idle t expiry sess :
  ¬ (0 < expiry ∧ expiry < T_load t - Session_LastActive sess ∧ expiry < T_expired t - Session_LastActive sess) ↔
  is_expired expiry (T_load t) sess && is_expired expiry (T_expired t) sess = false.
Proof.
  unfold is_expired.
  destruct (Z.ltb_spec 0 expiry), (Z.ltb_spec expiry (T_load t - Session_LastActive sess)),
    (Z.ltb_spec expiry (T_expired t - Session_LastActive sess)); simpl; split; try done; lia.
Qed.

Lemma LoadMessages_live t id m h :
  live t id m h → LoadMessages id (T_load t) (T_expired t) m =
    (Ok h, mkManager (M_store m) (SlidingWindow_Load_promote (M_memory m) id)).
Proof.
  intros (sess & E & X & ->). apply not_idle in X. unfold LoadMessages, Get_session, Get_read, Get_write. rewrite E.
  destruct (is_expired _ (T_load t) _); simpl in X; by rewrite ?X.
Qed.

Lemma LoadMessages_dead t id m :
  (∀ h, ¬ live t id m h) → ∃ err store, LoadMessages id (T_load t) (T_expired t) m = (Err err, mkManager store (M_memory m)) ∧
    (MS_sessions store = delete id (MS_sessions (M_store m)) ∧ MS_expiry store = MS_expiry (M_store m)).
Proof.
  intros D. unfold LoadMessages, Get_session, Get_read, Get_write.
  destruct (MS_sessions (M_store m) !! id) as [sess|] eqn:E.
  - destruct (is_expired _ (T_load t) sess) eqn:X1; [destruct (is_expired _ (T_expired t) sess) eqn:X2|].
    + by eexists _, _.
    + destruct (D (SlidingWindow_Load_read (M_memory m) id)). exists sess. split_and!; [done| |done].
      apply not_idle. by rewrite X1, X2.
    + destruct (D (SlidingWindow_Load_read (M_memory m) id)). exists sess. split_and!; [done| |done].
      apply not_idle. by rewrite X1.
  - eexists _, _. split; [done|]. by rewrite delete_id.
Qed.

(** The history that a request asks for. *)
Definition history_of (t : Clock) (req : Payload) st (h : list Message) : Prop :=
  if String.eqb (P_SessionID req) "" then h = [] else live t (P_SessionID req) (SS_sessions st) h.

(** What an invocation needs to reach the model, and the history it is given:
    the user may use the agent, no budget of the agent is used up in its
    period, the body is read, and its session is there. *)
Definition admitted (t : Clock) (user : option User) (agentName : string) (r : HttpRequest) st
    (req : Payload) (h : list Message) : Prop :=
  (∀ u, user = Some u → User_Role u = "admin" ∨ User_Agents u = [] ∨ agentName ∈ User_Agents u) ∧
  (∀ ct b, SS_costTracker st = Some ct → b ∈ default [] (CT_budgets ct !! agentName) →
     overdue (T_budget t) b ∨
     (BudgetEntry_Paused b = false ∧ float_le (BudgetEntry_LimitDollars b) (BudgetEntry_UsedDollars b) = false)) ∧
  decode r = Ok req ∧ history_of t req st h.

Lemma denied_None user agentName :
  denied user agentName = None ↔
  ∀ u, user = Some u → User_Role u = "admin" ∨ User_Agents u = [] ∨ agentName ∈ User_Agents u.
Proof.
  unfold denied, IsAuthorized. destruct user as [u|]; [|by split]. split.
  - intros D ? [= <-]. destruct (String.eqb_spec (User_Role u) "admin"); [by left|].
    destruct (User_Agents u) as [|x l]; [by right; left|]. right; right.
    destruct (existsb _ _) eqn:E; [|done]. apply existsb_exists in E as (y & I & <-%String.eqb_eq).
    by apply list_elem_of_In.
  - intros D. destruct (D u eq_refl) as [->|[->|I]]; [done|by destruct (String.eqb _ _)|].
    destruct (String.eqb _ _); [done|]. destruct (User_Agents u) as [|x l]; [done|].
    assert (existsb (String.eqb agentName) (x :: l) = true) as ->; [|done].
    apply existsb_exists. exists agentName. split; [by apply list_elem_of_In|apply String.eqb_refl].
Qed.

(** What a check of the budget of an agent leaves of the tracker. *)
Definition checked (t : Clock) (agentName : string) (before after : option CostTracker) : Prop :=
  match before, after with
  | Some ct, Some ct' =>
      CT_costs ct' = CT_costs ct ∧
      Forall2 (renewed (T_budget t)) (default [] (CT_budgets ct !! agentName)) (default [] (CT_budgets ct' !! agentName)) ∧
      ∀ other, other ≠ agentName → CT_budgets ct' !! other = CT_budgets ct !! other
  | None, None => True
  | _, _ => False
  end.

Lemma CheckBudget_others now agent ct : let ct' := (CostTracker_CheckBudget now agent ct).2 in
  CT_costs ct' = CT_costs ct ∧ ∀ other, other ≠ agent → CT_budgets ct' !! other = CT_budgets ct !! other.
Proof.
  cbv zeta. unfold CostTracker_CheckBudget. destruct (CT_budgets ct !! agent) as [entries|]; [|done].
  destruct (check_entries agent now entries) as [err es]. simpl. split; [done|].
  intros other N. by rewrite lookup_insert_ne.
Qed.

(** The check of the budget, and what it leaves alone. *)
Lemma check_budget_exact t agentName st :
  ((check_budget t agentName st).1 = None ↔
   ∀ ct b, SS_costTracker st = Some ct → b ∈ default [] (CT_budgets ct !! agentName) →
     overdue (T_budget t) b ∨
     (BudgetEntry_Paused b = false ∧ float_le (BudgetEntry_LimitDollars b) (BudgetEntry_UsedDollars b) = false)) ∧
  ∃ ct', (check_budget t agentName st).2 = st <| SS_costTracker := ct' |> ∧
    CT_costs <$> ct' = CT_costs <$> SS_costTracker st ∧
    ((check_budget t agentName st).1 = None → checked t agentName (SS_costTracker st) ct').
Proof.
  unfold check_budget. destruct (SS_costTracker st) as [ct|] eqn:E.
  - pose proof (check_budget_entries (T_budget t) agentName ct) as [P Q].
    pose proof (check_entries_result agentName (T_budget t) (default [] (CT_budgets ct !! agentName))) as R.
    destruct (CheckBudget_others (T_budget t) agentName ct) as [C O].
    destruct (CostTracker_CheckBudget (T_budget t) agentName ct) as [err ct']. cbn [fst snd] in *. split.
    + rewrite P, check_entries_pass.
      assert (∀ b, is_over b = false ↔ BudgetEntry_Paused b = false ∧
        float_le (BudgetEntry_LimitDollars b) (BudgetEntry_UsedDollars b) = false) as Ov
        by (intros b; apply orb_false_iff).
      setoid_rewrite is_due_overdue. setoid_rewrite Ov. clear.
      split; [by intros A ? b [= <-]; apply A | intros A b; by apply A].
    + exists (Some ct'). split_and!; [done | simpl; by rewrite C |]. intros Ne. simpl. split_and!; [done| |done].
      rewrite Q. destruct R as [(es & -> & F)|(pre & pre' & b & post & _ & _ & _ & _ & R)]; [done|].
      rewrite R in P. simpl in P. congruence.
  - split; [naive_solver|]. exists None. split; [|done]. destruct st. simpl in *. by subst.
Qed.

(** What a use is charged: the total of the agent, and each of its budgets, as
    the check left it. *)
Definition charged (t : Clock) (agentName model : string) (used : TokenUsage) (before after : option CostTracker) : Prop :=
  let cost := dollars model (TokenUsage_InputTokens used) (TokenUsage_OutputTokens used) in
  match before, after with
  | Some ct, Some ct' =>
      (∀ agent, GetAgentCost agent ct' =
         if String.eqb agentName agent then float_add (GetAgentCost agent ct) cost else GetAgentCost agent ct) ∧
      Forall2 (λ b b', ∃ b1 warned, renewed (T_budget t) b b1 ∧
         b' = mkBudgetEntry (BudgetEntry_AgentName b1) (BudgetEntry_Period b1) (BudgetEntry_LimitDollars b1)
           (float_add (BudgetEntry_UsedDollars b1) cost) (BudgetEntry_ResetAt b1) (BudgetEntry_Paused b1) warned)
        (default [] (CT_budgets ct !! agentName)) (default [] (CT_budgets ct' !! agentName)) ∧
      ∀ other, other ≠ agentName → CT_budgets ct' !! other = CT_budgets ct !! other
  | None, None => True
  | _, _ => False
  end.

Lemma warn_entries_entries now es :
  Forall2 (λ b b', ∃ warned, b' = mkBudgetEntry (BudgetEntry_AgentName b) (BudgetEntry_Period b)
    (BudgetEntry_LimitDollars b) (BudgetEntry_UsedDollars b) (BudgetEntry_ResetAt b) (BudgetEntry_Paused b) warned)
    es (warn_entries now es).2.
Proof.
  induction es as [|b es IH]; simpl; [constructor|].
  assert (∀ b, ∃ warned, b = mkBudgetEntry (BudgetEntry_AgentName b) (BudgetEntry_Period b)
    (BudgetEntry_LimitDollars b) (BudgetEntry_UsedDollars b) (BudgetEntry_ResetAt b) (BudgetEntry_Paused b) warned) as Same.
  { intros c. exists (BudgetEntry_WarnedAt c). by destruct c. }
  destruct (_ && _); simpl.
  - constructor; [by eexists|]. apply Forall_Forall2_diag, Forall_forall. intros c _. apply Same.
  - destruct (warn_entries now es) as [w es']. constructor; [apply Same | exact IH].
Qed.

(** A use that was checked first, and the warning after it. *)
Lemma use_charged t agentName model used now ct ct1 :
  checked t agentName (Some ct) (Some ct1) →
  charged t agentName model used (Some ct)
    (Some (CheckWarnings now agentName
      (RecordUsage agentName model (TokenUsage_InputTokens used) (TokenUsage_OutputTokens used) ct1).2).2).
Proof.
  intros (C & F & O). set (ct2 := (RecordUsage _ _ _ _ ct1).2).
  assert (∀ agent, GetAgentCost agent ct2 = if String.eqb agentName agent
      then float_add (GetAgentCost agent ct) (dollars model (TokenUsage_InputTokens used) (TokenUsage_OutputTokens used))
      else GetAgentCost agent ct) as G.
  { intros agent. destruct (RecordUsage_charges agent agentName model (TokenUsage_InputTokens used)
      (TokenUsage_OutputTokens used) ct1) as [Gc _]. fold ct2 in Gc. rewrite Gc. unfold GetAgentCost. by rewrite C. }
  destruct (RecordUsage_charges agentName agentName model (TokenUsage_InputTokens used)
    (TokenUsage_OutputTokens used) ct1) as [_ B]. fold ct2 in B. rewrite String.eqb_refl in B.
  assert (∀ other, other ≠ agentName → CT_budgets ct2 !! other = CT_budgets ct !! other) as O2.
  { intros other N. unfold ct2, RecordUsage. simpl. rewrite lookup_alter_ne by done. by apply O. }
  clearbody ct2. unfold CheckWarnings.
  set (cost := dollars _ _ _) in *.
  assert (∀ es, Forall2 (λ b b', ∃ warned, b' = mkBudgetEntry (BudgetEntry_AgentName b) (BudgetEntry_Period b)
      (BudgetEntry_LimitDollars b) (BudgetEntry_UsedDollars b) (BudgetEntry_ResetAt b) (BudgetEntry_Paused b) warned)
      (default [] (CT_budgets ct2 !! agentName)) es →
    Forall2 (λ b b', ∃ b1 warned, renewed (T_budget t) b b1 ∧
       b' = mkBudgetEntry (BudgetEntry_AgentName b1) (BudgetEntry_Period b1) (BudgetEntry_LimitDollars b1)
         (float_add (BudgetEntry_UsedDollars b1) cost) (BudgetEntry_ResetAt b1) (BudgetEntry_Paused b1) warned)
      (default [] (CT_budgets ct !! agentName)) es) as K.
  { intros es. rewrite B. clear -F. revert es. induction F as [|b b1 bs bs1 R F IH]; intros es Fe;
      inversion Fe as [|? b' ? es' (warned & Eb) Fe']; subst; constructor; [|by apply IH].
    by exists b1, warned. }
  destruct (CT_budgets ct2 !! agentName) as [es|] eqn:E.
  - pose proof (warn_entries_entries now es) as Wn. destruct (warn_entries now es) as [w es']. simpl in Wn |- *.
    split_and!; [exact G | rewrite lookup_insert_eq; by apply K |].
    intros other N. rewrite lookup_insert_ne by done. by apply O2.
  - simpl in K |- *. rewrite E. split_and!; [exact G | by apply K | exact O2].
Qed.

Abbreviation handleInvoke := (handleInvoke Execute Eval).

Lemma Log_keeps t entry st :
  SS_world (Log t entry st) = SS_world st ∧ SS_sessions (Log t entry st) = SS_sessions st ∧
  SS_metrics (Log t entry st) = SS_metrics st ∧ SS_costTracker (Log t entry st) = SS_costTracker st.
Proof. unfold Log. by destruct (SS_audit st). Qed.

(** One more under a key of a counter of two names. *)
Definition counted (name status : string) (before after : gmap string Z) : Prop :=
  let key := name +:+ "," +:+ status in
  after = <[key := wrap64 (default 0 (before !! key) + 1)]> before.

(** The cost counter of an agent and a model, when costs are tracked. *)
Definition cost_counted (name model : string) (used : TokenUsage) (tracker : option CostTracker)
    (before after : gmap string float64) : Prop :=
  let key := name +:+ "," +:+ model in
  match tracker with
  | None => after = before
  | Some _ => after = <[key := float_add (default float_zero (before !! key))
      (dollars model (TokenUsage_InputTokens used) (TokenUsage_OutputTokens used))]> before
  end.

(** What a response adds to the books: the costs of the agent, and the metrics
    of the invocation. *)
Lemma record_response_exact t agentName a resp st st0 :
  checked t agentName (SS_costTracker st0) (SS_costTracker st) →
  let used := Response_Tokens resp in
  let st' := record_response t agentName a resp st in
  SS_world st' = SS_world st ∧ SS_sessions st' = SS_sessions st ∧
  counted agentName "completed" (invocationsTotal (SS_metrics st)) (invocationsTotal (SS_metrics st')) ∧
  cost_counted agentName (AgentConfig_Model a) used (SS_costTracker st0)
    (costTotal (SS_metrics st)) (costTotal (SS_metrics st')) ∧
  charged t agentName (AgentConfig_Model a) used (SS_costTracker st0) (SS_costTracker st').
Proof.
  cbv zeta. intros Ck. unfold record_response, with_metrics. cbn [SS_costTracker].
  assert (∀ calls m, invocationsTotal (foldl (λ m tc, RecordToolCall agentName (ToolCallRecord_ToolName tc)
    (call_status tc) m) m calls) = invocationsTotal m ∧
    costTotal (foldl (λ m tc, RecordToolCall agentName (ToolCallRecord_ToolName tc) (call_status tc) m) m calls) =
    costTotal m) as F.
  { intros calls. induction calls as [|tc calls IH]; intros m; [done|]. simpl. by destruct (IH (RecordToolCall agentName
      (ToolCallRecord_ToolName tc) (call_status tc) m)) as [-> ->]. }
  set (m1 := RecordInvocation _ _ _ _ _ _ (SS_metrics st)).
  destruct (F (Response_ToolCalls resp) m1) as [Fi Fc]. cbn [SS_metrics SS_costTracker set_field settable settable_ServerState].
  set (m2 := foldl _ m1 _) in *. clearbody m2.
  destruct (SS_costTracker st) as [ct|] eqn:E, (SS_costTracker st0) as [ct0|]; try done.
  - pose proof (use_charged t agentName (AgentConfig_Model a) (Response_Tokens resp) (T_warn t) ct0 ct Ck) as Ch.
    destruct (RecordUsage agentName (AgentConfig_Model a) _ _ ct) as [cost ct'] eqn:R. simpl in Ch |- *.
    split; [done|]. split; [done|]. split; [by unfold counted; rewrite Fi|]. split; [|exact Ch].
    rewrite Fc. unfold m1. simpl. f_equal. f_equal.
    apply (f_equal fst) in R. simpl in R. rewrite <- R. unfold usage_cost, dollars. by destruct (LookupPrice _).
  - simpl. rewrite E. split; [done|]. split; [done|]. split; [by unfold counted; rewrite Fi|]. by rewrite Fc.
Qed.

Lemma save_exchange_live t id message output st st1 h :
  live t id (SS_sessions st) h →
  SS_sessions st1 = mkManager (M_store (SS_sessions st)) (SlidingWindow_Load_promote (M_memory (SS_sessions st)) id) →
  save_exchange t id message output st1 = ([], st1 <| SS_sessions :=
    mkManager (Touch id (T_save t) (M_store (SS_sessions st))).2
      (SlidingWindow_Save (SlidingWindow_Load_promote (M_memory (SS_sessions st)) id) id
         [mkMessage "user" message [] None; mkMessage "assistant" output [] None]) |>).
Proof.
  intros (sess & E & _ & _) Es. unfold save_exchange, SaveMessages, Touch. rewrite Es. simpl. by rewrite E.
Qed.

(** The books of the server: its metrics, the costs and the conversations. *)
Definition same_books st st' : Prop :=
  SS_metrics st' = SS_metrics st ∧ CT_costs <$> SS_costTracker st' = CT_costs <$> SS_costTracker st ∧
  M_memory (SS_sessions st') = M_memory (SS_sessions st).

(** The conversation memory after an exchange, or after it failed. *)
Definition remembered (req : Payload) (answer : option string) (m : SlidingWindow) : SlidingWindow :=
  if String.eqb (P_SessionID req) "" then m
  else
    let m := SlidingWindow_Load_promote m (P_SessionID req) in
    match answer with
    | Some output => SlidingWindow_Save m (P_SessionID req)
        [mkMessage "user" (P_Message req) [] None; mkMessage "assistant" output [] None]
    | None => m
    end.

(** The answer of an invocation. *)
Definition answer_fields (t : Clock) (sessionID : string) (resp : Response) : Attrs :=
  let used := Response_Tokens resp in
  [("output", VStr (Response_Output resp));
   ("tool_calls", VList (imap (λ i tc, VMap (
      [("id", VStr (ToolCallRecord_ID tc)); ("tool_name", VStr (ToolCallRecord_ToolName tc));
       ("input", VMap (ToolCallRecord_Input tc)); ("output", VStr (ToolCallRecord_Output tc));
       ("duration_ms", VInt (Z.quot (T_call t i) 1000000))] ++
      if String.eqb (ToolCallRecord_Error tc) "" then [] else [("error", VStr (ToolCallRecord_Error tc))]))
      (Response_ToolCalls resp)));
   ("tokens", VMap [("input", VInt (TokenUsage_InputTokens used)); ("output", VInt (TokenUsage_OutputTokens used));
      ("cache_read", VInt (TokenUsage_CacheRead used));
      ("total", VInt (wrap64 (TokenUsage_InputTokens used + TokenUsage_OutputTokens used)))]);
   ("turns", VInt (Response_Turns resp)); ("duration_ms", VInt (Z.quot (T_duration t 0) 1000000));
   ("session_id", VStr sessionID)].

Lemma invoke_fields_exact t sessionID resp : invoke_fields t sessionID resp = answer_fields t sessionID resp.
Proof.
  unfold invoke_fields, answer_fields. do 4 f_equal. apply imap_ext. intros i tc _.
  unfold tool_call_fields, nonempty. by destruct (String.eqb (ToolCallRecord_Error tc) "").
Qed.

(** What an invocation that reached the model leaves. *)
Definition accounted (t : Clock) (agentName : string) (a : AgentConfig) (req : Payload) st
    (res : result string Response) (reply : Reply) (st' : ServerState W) : Prop :=
  let invocations st := invocationsTotal (SS_metrics st) in
  let costs st := costTotal (SS_metrics st) in
  match res with
  | Ok resp =>
      let used := Response_Tokens resp in
      Reply_Status reply = 200 ∧ Reply_Content reply = Object (answer_fields t (P_SessionID req) resp) ∧
      counted agentName "completed" (invocations st) (invocations st') ∧
      cost_counted agentName (AgentConfig_Model a) used (SS_costTracker st) (costs st) (costs st') ∧
      charged t agentName (AgentConfig_Model a) used (SS_costTracker st) (SS_costTracker st') ∧
      M_memory (SS_sessions st') = remembered req (Some (Response_Output resp)) (M_memory (SS_sessions st))
  | Err err =>
      Reply_Status reply = 500 ∧
      Reply_Content reply = Object [("error", VStr "internal_error"); ("message", VStr err)] ∧
      counted agentName "failed" (invocations st) (invocations st') ∧ costs st' = costs st ∧
      checked t agentName (SS_costTracker st) (SS_costTracker st') ∧
      M_memory (SS_sessions st') = remembered req None (M_memory (SS_sessions st))
  end.

Lemma live_cases t id m : (∃ h, live t id m h) ∨ ∀ h, ¬ live t id m h.
Proof.
  destruct (MS_sessions (M_store m) !! id) as [sess|] eqn:E.
  - destruct (is_expired (MS_expiry (M_store m)) (T_load t) sess && is_expired (MS_expiry (M_store m)) (T_expired t) sess) eqn:X.
    + right. intros h (sess' & E' & X' & _). rewrite E in E'. injection E' as <-. apply not_idle in X'. congruence.
    + left. exists (SlidingWindow_Load_read (M_memory m) id), sess. split_and!; [done| |done]. by apply not_idle.
  - right. intros h (sess' & E' & _). congruence.
Qed.

Lemma live_unique t id m h h' : live t id m h → live t id m h' → h = h'.
Proof. intros (_ & _ & _ & ->) (_ & _ & _ & ->). done. Qed.

Lemma history_cases t req st : (∃ h, history_of t req st h) ∨ ∀ h, ¬ history_of t req st h.
Proof. unfold history_of. destruct (String.eqb _ _); [left; by exists []|]. apply live_cases. Qed.

Lemma history_unique t req st h h' : history_of t req st h → history_of t req st h' → h = h'.
Proof. unfold history_of. destruct (String.eqb _ _); [by intros -> ->|]. apply live_unique. Qed.

Lemma load_history_exact t req st h :
  history_of t req st h →
  ∃ st', load_history t (P_SessionID req) st = (Ok h, st') ∧
    st' = (if String.eqb (P_SessionID req) "" then st
           else st <| SS_sessions := mkManager (M_store (SS_sessions st))
                  (SlidingWindow_Load_promote (M_memory (SS_sessions st)) (P_SessionID req)) |>).
Proof.
  unfold load_history, history_of. destruct (String.eqb (P_SessionID req) ""); [intros ->; by eexists|].
  intros L. rewrite (LoadMessages_live _ _ _ _ L). by eexists.
Qed.

Lemma load_history_fails t req st :
  (∀ h, ¬ history_of t req st h) →
  ∃ err store, load_history t (P_SessionID req) st =
    (Err err, st <| SS_sessions := mkManager store (M_memory (SS_sessions st)) |>).
Proof.
  unfold load_history, history_of. destruct (String.eqb (P_SessionID req) ""); [intros N; by destruct (N [])|].
  intros D. destruct (LoadMessages_dead _ _ _ D) as (err & store & -> & _). by eexists _, _.
Qed.

(** [st1] is [st] after the gates and the model. *)
Record reached (t : Clock) (agentName : string) (req : Payload) (h : list Message) st st1 : Prop := {
  rd_history : history_of t req st h;
  rd_sessions : SS_sessions st1 =
    if String.eqb (P_SessionID req) "" then SS_sessions st
    else mkManager (M_store (SS_sessions st)) (SlidingWindow_Load_promote (M_memory (SS_sessions st)) (P_SessionID req));
  rd_metrics : SS_metrics st1 = SS_metrics st;
  rd_costs : checked t agentName (SS_costTracker st) (SS_costTracker st1);
}.

Lemma answer_invoke_exact t user agentName a r req resp st st1 h :
  reached t agentName req h st st1 →
  let '(reply, st') := answer_invoke t user agentName a r req resp st1 in
  SS_world st' = SS_world st1 ∧ accounted t agentName a req st (Ok resp) reply st'.
Proof.
  intros [Rh Rs Rm Rc]. unfold history_of in Rh. unfold answer_invoke, accounted, remembered.
  destruct (record_response_exact t agentName a resp st1 st Rc) as (Ew & Es & Em & Ed & Ec).
  set (st2 := record_response t agentName a resp st1) in *. clearbody st2.
  rewrite Rm in Em, Ed. rewrite Rs in Es. rewrite <- (invoke_fields_exact t (P_SessionID req) resp).
  destruct (String.eqb (P_SessionID req) "").
  - destruct (Log_keeps t (mkAuditEntry "" (user_name user) agentName (P_SessionID req) "invoke"
      (TokenUsage_InputTokens (Response_Tokens resp)) (TokenUsage_OutputTokens (Response_Tokens resp))
      (Milliseconds (T_duration t 0)) "success" (HR_CorrelationID r) "") st2) as (-> & -> & -> & ->).
    cbv zeta. split_and!; try done. by rewrite Es.
  - rewrite (save_exchange_live t (P_SessionID req) (P_Message req) (Response_Output resp) st st2 h Rh Es).
    destruct (Log_keeps t (mkAuditEntry "" (user_name user) agentName (P_SessionID req) "invoke"
      (TokenUsage_InputTokens (Response_Tokens resp)) (TokenUsage_OutputTokens (Response_Tokens resp))
      (Milliseconds (T_duration t 0)) "success" (HR_CorrelationID r) "")
      (st2 <| SS_sessions := mkManager (Touch (P_SessionID req) (T_save t) (M_store (SS_sessions st))).2
        (SlidingWindow_Save (SlidingWindow_Load_promote (M_memory (SS_sessions st)) (P_SessionID req))
           (P_SessionID req) [mkMessage "user" (P_Message req) [] None;
             mkMessage "assistant" (Response_Output resp) [] None]) |>)) as (Lw & Ls & Lm & Lc).
    rewrite Lw, Lm, Lc, Ls. cbv zeta. split_and!; done.
Qed.


(** * Conversations

    The specification of a session that gets messages: when it was last active
    and the window of its last messages; [None] when it is gone. *)
Record Turn := mkTurn {
  Turn_agent : string;
  Turn_clock : Clock;
  Turn_request : HttpRequest;
}.

Abbreviation Conversation := (option (Z * list Message)).

(** One message: the reply, the conversation and the world after it. The model
    is given the settings of the agent, the message and the window of the last
    messages, and no variables. *)
Definition turn_spec s (expiry : Z) (size : nat) (id : string) (turn : Turn) (conv : Conversation) (w : W) :
    Reply * Conversation * W :=
  let t := Turn_clock turn in
  let error status code message :=
    mkReply status [("Content-Type", "application/json")]
      (Object [("error", VStr code); ("message", VStr message)]) in
  let gone := error 404 "not_found" ("Session " +:+ quote id +:+ " not found") in
  match S_agentIndex s !! Turn_agent turn, decode (Turn_request turn), conv with
  | None, _, _ => (error 404 "not_found" ("Agent " +:+ quote (Turn_agent turn) +:+ " not found"), conv, w)
  | _, Err _, _ => (error 400 "invalid_request" "Invalid request body", conv, w)
  | _, _, None => (gone, None, w)
  | Some a, Ok req, Some (active, h) =>
      if (0 <? expiry) && (expiry <? T_load t - active) && (expiry <? T_expired t - active)
      then (gone, None, w)
      else
        match Execute None
          (mkInvocation (AgentConfig_Name a) (AgentConfig_Model a) (AgentConfig_System a) (P_Message req) h ∅
             (AgentConfig_MaxTurns a) 4096 (AgentConfig_TokenBudget a) (AgentConfig_Temperature a) false) w with
        | (Err err, w) => (error 500 "internal_error" err, conv, w)
        | (Ok resp, w) =>
            (mkReply 200 [("Content-Type", "application/json")]
               (Object [("output", VStr (Response_Output resp)); ("turns", VInt (Response_Turns resp));
                        ("duration_ms", VInt (Z.quot (T_duration t 0) 1000000)); ("session_id", VStr id)]),
             Some (T_save t, lastn size (h ++ [mkMessage "user" (P_Message req) [] None;
                                               mkMessage "assistant" (Response_Output resp) [] None])), w)
        end
  end.

(** The server holds a conversation. *)
Record holds_conversation (expiry : Z) (size : nat) (id : string) (conv : Conversation) (m : Manager) : Prop := {
  hc_memory : ∃ c, represents (M_memory m) c ∧ ∀ active h, conv = Some (active, h) → window c id = h;
  hc_store : Session_LastActive <$> MS_sessions (M_store m) !! id = fst <$> conv;
  hc_expiry : MS_expiry (M_store m) = expiry;
  hc_size : Z.to_nat (SlidingWindow_maxMessages (M_memory m)) = size;
  hc_bounds : 0 < SlidingWindow_maxMessages (M_memory m) ∧ 0 < SlidingWindow_maxSessions (M_memory m);
}.

Abbreviation handleSessionMessage := (handleSessionMessage Execute).

Lemma window_head id w c : window ((id, w) :: c) id = w.
Proof. unfold window. simpl. by rewrite String.eqb_refl. Qed.

Lemma promoted_and_saved m id ms c :
  id ≠ "" → represents m c → 0 < SlidingWindow_maxMessages m → 0 < SlidingWindow_maxSessions m →
  let m' := SlidingWindow_Save (SlidingWindow_Load_promote m id) id ms in
  (∃ c', represents m' c' ∧ window c' id = lastn (Z.to_nat (SlidingWindow_maxMessages m)) (window c id ++ ms)) ∧
  SlidingWindow_maxMessages m' = SlidingWindow_maxMessages m ∧
  SlidingWindow_maxSessions m' = SlidingWindow_maxSessions m.
Proof.
  intros N R Pm Pn. destruct (window_step_refines m c (OpPromote id) R N Pm Pn) as (_ & R1 & M1 & N1).
  cbn [window_step snd cache_step] in R1, M1, N1.
  assert (0 < SlidingWindow_maxMessages (SlidingWindow_Load_promote m id)) as Pm1 by by rewrite M1.
  assert (0 < SlidingWindow_maxSessions (SlidingWindow_Load_promote m id)) as Pn1 by by rewrite N1.
  destruct (window_step_refines _ _ (OpSave id ms) R1 N Pm1 Pn1) as (_ & R2 & M2 & N2).
  cbn [window_step snd cache_step] in R2, M2, N2. rewrite N1, M1 in *.
  split_and!; [|done..]. eexists. split; [exact R2|].
  destruct (Z.to_nat (SlidingWindow_maxSessions m)) as [|n] eqn:E; [lia|]. cbn [take].
  by rewrite !window_head.
Qed.

Lemma promoted m id conv expiry size :
  id ≠ "" → holds_conversation expiry size id conv m →
  holds_conversation expiry size id conv (mkManager (M_store m) (SlidingWindow_Load_promote (M_memory m) id)).
Proof.
  intros N [(c' & R & Hw) Hs He Hz [Pm Pn]].
  destruct (window_step_refines _ c' (OpPromote id) R N Pm Pn) as (_ & R1 & M1 & N1).
  cbn [window_step snd cache_step] in R1, M1, N1. split; try done.
  eexists. split; [exact R1|]. intros active h E. rewrite window_head. by eapply Hw.
Qed.

(** A conversation is live with its window, until it was idle for too long. *)
Lemma conversation_live (t : Clock) id expiry size conv m h :
  holds_conversation expiry size id conv m →
  live t id m h ↔ ∃ active, conv = Some (active, h) ∧
    (0 <? expiry) && (expiry <? T_load t - active) && (expiry <? T_expired t - active) = false.
Proof.
  intros [(c & R & Hw) Hs <- _ _]. unfold live, SlidingWindow_Load_read. split.
  - intros (sess & E & X & ->). apply not_idle in X. unfold is_expired in X. rewrite E in Hs. destruct conv as [[active h]|]; [|done]. injection Hs as <-.
    eexists. split; [by rewrite (rp_windows _ _ R), (Hw _ _ eq_refl)|].
    revert X. destruct (0 <? _); [|done]. done.
  - intros (active & -> & X). destruct (MS_sessions (M_store m) !! id) as [sess|] eqn:E; [|done].
    injection Hs as Hs. exists sess. split_and!; [done| |by rewrite (rp_windows _ _ R), (Hw _ _ eq_refl)].
    apply not_idle. unfold is_expired. rewrite Hs. revert X. by destruct (0 <? _).
Qed.

Lemma conversation_ends id expiry size conv m store :
  holds_conversation expiry size id conv m →
  MS_sessions store = delete id (MS_sessions (M_store m)) → MS_expiry store = MS_expiry (M_store m) →
  holds_conversation expiry size id None (mkManager store (M_memory m)).
Proof.
  intros [(c & R & _) _ He Hz Hb] Es Ee. split; simpl; try done; [by exists c| |by rewrite Ee].
  by rewrite Es, lookup_delete_eq.
Qed.

(** One message refines a turn of the specification. *)
Lemma turn_refines s id expiry size turn conv st :
  id ≠ "" → holds_conversation expiry size id conv (SS_sessions st) →
  let '(reply, st') := handleSessionMessage s (Turn_clock turn) (Turn_agent turn) id (Turn_request turn) st in
  let '(reply', conv', w') := turn_spec s expiry size id turn conv (SS_world st) in
  reply = reply' ∧ SS_world st' = w' ∧ holds_conversation expiry size id conv' (SS_sessions st').
Proof.
  intros N C. destruct turn as [agent t r]. unfold Server.handleSessionMessage, turn_spec.
  cbn [Turn_agent Turn_clock Turn_request]. destruct (S_agentIndex s !! agent) as [a|]; [|done].
  destruct (decode r) as [req|req]; [|done].
  destruct (live_cases t id (SS_sessions st)) as [[h L]|D].
  - rewrite (LoadMessages_live _ _ _ _ L). pose proof L as L'.
    apply (conversation_live t id expiry size conv _ h C) in L' as (active & -> & ->).
    pose proof (promoted _ _ _ _ _ N C) as C1.
    unfold run_model, invocation. cbn [SS_world]. simpl. destruct (Execute _ _ _) as [res w].
    destruct res as [resp|err]; [|done]. cbn beta iota zeta.
    rewrite (save_exchange_live t id _ _ st _ h L) by done. split_and!; [done..|]. cbn [SS_sessions].
    simpl. destruct C as [(c & R & Hw) Hs He Hz [Pm Pn]].
    destruct (promoted_and_saved (M_memory (SS_sessions st)) id [mkMessage "user" (P_Message req) [] None;
      mkMessage "assistant" (Response_Output resp) [] None] c N R Pm Pn)
      as ((c' & R' & W') & M1 & N1).
    destruct L as (sess & E & _). split; simpl.
    + exists c'. split; [done|]. intros ? ? [= <- <-]. by rewrite W', (Hw _ _ eq_refl), Hz.
    + unfold Touch. rewrite E. simpl. by rewrite lookup_insert_eq.
    + unfold Touch. by rewrite E.
    + by rewrite M1.
    + by rewrite M1, N1.
  - destruct (LoadMessages_dead _ _ _ D) as (err & store & -> & Es & Ee).
    pose proof (conversation_ends _ _ _ _ _ _ C Es Ee) as C'.
    destruct conv as [[active h]|]; [|done].
    destruct (_ && _) eqn:X; [done|]. exfalso. apply (D h).
    apply (conversation_live t id expiry size _ _ h C). by exists active.
Qed.

(** Messages to a session, one after another. *)
Fixpoint converse s (id : string) (turns : list Turn) st : list Reply * ServerState W :=
  match turns with
  | [] => ([], st)
  | turn :: turns =>
      let '(reply, st) := handleSessionMessage s (Turn_clock turn) (Turn_agent turn) id (Turn_request turn) st in
      let '(replies, st) := converse s id turns st in (reply :: replies, st)
  end.

Fixpoint converse_spec s expiry size (id : string) (turns : list Turn) (conv : Conversation) (w : W) :
    list Reply * Conversation * W :=
  match turns with
  | [] => ([], conv, w)
  | turn :: turns =>
      let '(reply, conv, w) := turn_spec s expiry size id turn conv w in
      let '(replies, conv, w) := converse_spec s expiry size id turns conv w in (reply :: replies, conv, w)
  end.

Lemma converse_refines s id expiry size turns conv st :
  id ≠ "" → holds_conversation expiry size id conv (SS_sessions st) →
  let '(replies, st') := converse s id turns st in
  let '(replies', conv', w') := converse_spec s expiry size id turns conv (SS_world st) in
  replies = replies' ∧ SS_world st' = w' ∧ holds_conversation expiry size id conv' (SS_sessions st').
Proof.
  intros N. revert conv st. induction turns as [|turn turns IH]; intros conv st C; [done|]. cbn [converse converse_spec].
  pose proof (turn_refines s id expiry size turn conv st N C) as T.
  destruct (handleSessionMessage _ _ _ _ _ _) as [reply st1]. destruct (turn_spec _ _ _ _ _ _ _) as [[reply' conv1] w1].
  destruct T as (-> & <- & C1). specialize (IH conv1 st1 C1).
  destruct (converse s id turns st1) as [replies st2].
  destruct (converse_spec _ _ _ _ _ _ _) as [[replies' conv2] w2]. by destruct IH as (-> & <- & C2).
Qed.

(** C36. A session is a conversation: from a session as Create makes it, under an
    identifier that the memory holds no messages of, and with room for at least
    one message and one session, any messages sent to it get the answers of the specification, in which each
    message is given to the model with the last messages exchanged before it,
    and without variables, the answer is the output and the turns alone, a
    failed message leaves no trace in the conversation, and the session is gone
    once it was idle for longer than the expiry. *)
Theorem conversation_refines s t agent id st expiry size metadata turns :
  let m := SS_sessions st in
  let st0 := st <| SS_sessions := mkManager (Create id (T_create t) agent metadata (M_store m)).2 (M_memory m) |> in
  id ≠ "" → MS_expiry (M_store m) = expiry → Z.to_nat (SlidingWindow_maxMessages (M_memory m)) = S size →
  0 < SlidingWindow_maxSessions (M_memory m) →
  (∃ c, represents (M_memory m) c ∧ window c id = []) →
  let '(replies, st') := converse s id turns st0 in
  let '(replies', conv, w') := converse_spec s expiry (S size) id turns (Some (T_create t, [])) (SS_world st) in
  replies = replies' ∧ SS_world st' = w' ∧ holds_conversation expiry (S size) id conv (SS_sessions st').
Proof.
  cbv zeta. intros N He Hz Hn (c & R & Hw).
  assert (holds_conversation expiry (S size) id (Some (T_create t, []))
    (mkManager (Create id (T_create t) agent metadata (M_store (SS_sessions st))).2 (M_memory (SS_sessions st)))) as C.
  { split; simpl; try done; [|by rewrite lookup_insert_eq | split; [lia|done]].
    exists c. split; [done|]. by intros ? ? [= _ <-]. }
  set (st0 := st <| SS_sessions := _ |>). change (mkManager _ _) with (SS_sessions st0) in C.
  change (SS_world st) with (SS_world st0). clearbody st0. revert C. generalize (Some (T_create t, [] : list Message)).
  intros conv C. exact (converse_refines s id expiry (S size) turns conv st0 N C).
Qed.
End serving.

(** * A server *)

(** A model that repeats how many messages it was given, and the last one. *)
Definition echo (events : option (StreamEvent → nat → nat)) (inv : Invocation) (w : nat) :
    result string Response * nat :=
  (Ok (mkResponse (pretty (Z.of_nat (length (Invocation_Messages inv))) +:+ ":" +:+ Invocation_Input inv) []
         (mkTokenUsage 1000000 0 0 0) 1 ""), S w).

Definition bot : AgentConfig :=
  mkAgentConfig "bot" "p/Agent/bot" "gpt-4o" "" [] "react" 10 "" 0 None false "" 0 "" None [] [] [] [] [].

Definition echo_server : Server nat :=
  NewServer (mkRuntimeConfig "p" [bot] [] [] ∅ []) None "secret" false [] false None.

Definition echo_state : ServerState nat :=
  mkServerState (mkManager (NewMemoryStore 100 0) (NewSlidingWindow 4 [])) NewMetrics None
    (Some (NewCostTracker [mkBudgetEntry "bot" "daily" (float_of_Z 3) float_zero "" false ""])) None 0%nat.

Definition at_time (n : Z) : Clock :=
  mkClock n n n n n n n n "sess" (λ _ _, n) (λ _ _, n) n "" 0 (λ _, 0) (λ _, 0).

Definition say (message : string) : HttpRequest :=
  mkHttpRequest "POST" ["v1"; "agents"; "bot"; "sessions"; "sess"] "" "secret" "" "" 0
    (Ok (mkPayload message ∅ "" ∅ None)).

Definition echo_turns : list Turn :=
  [mkTurn "bot" (at_time 10) (say "a"); mkTurn "bot" (at_time 90) (say "b"); mkTurn "bot" (at_time 191) (say "c")].

Lemma conversation_refines_witness :
  let m := SS_sessions echo_state in
  let st0 := echo_state <| SS_sessions := mkManager (@Create "sess" 0 "bot" ∅ (M_store m)).2 (M_memory m) |> in
  let '(replies, st') := @converse ascii_runtime nat echo echo_server "sess" echo_turns st0 in
  let '(replies', conv, w') :=
    @converse_spec ascii_runtime nat echo echo_server 100 4 "sess" echo_turns (Some (0, [])) 0%nat in
  replies = replies' ∧ SS_world st' = w' ∧ holds_conversation 100 4 "sess" conv (SS_sessions st').
Proof.
  apply (@conversation_refines ascii_runtime nat echo echo_server (at_time 0) "bot" "sess" echo_state 100 3 ∅ echo_turns);
    [done | reflexivity | reflexivity | reflexivity |].
  exists []. split; [|reflexivity]. apply (new_store_limits 4 []).
Defined.

(** Two messages are answered, the third comes too late. *)
Example echo_replies :
  let st := echo_state <| SS_sessions := mkManager (@Create "sess" 0 "bot" ∅ (NewMemoryStore 100 0)).2
    (NewSlidingWindow 4 []) |> in
  (Reply_Status <$> (@converse ascii_runtime nat echo echo_server "sess" echo_turns st).1) = [200; 200; 404].
Proof. vm_compute. reflexivity. Qed.

(** The second invocation is over the budget of three dollars; a stream is not. *)
Example budget_side_door :
  let invoke := mkHttpRequest "POST" ["v1"; "agents"; "bot"; "invoke"] "" "secret" "" "" 0 (Ok no_payload) in
  let stream := mkHttpRequest "POST" ["v1"; "agents"; "bot"; "stream"] "" "secret" "" "" 0 (Ok no_payload) in
  let go r st := @serve ascii_runtime nat echo (λ _ w, w) (λ _ _ w, w) (λ _ _, Err "") echo_server (at_time 0) r st in
  let '(r1, st1) := go invoke echo_state in
  let '(r2, st2) := go invoke st1 in
  let '(r3, st3) := go invoke st2 in
  let '(r4, st4) := go stream st3 in
  map Reply_Status [r1; r2; r3; r4] = [200; 200; 429; 200] ∧ SS_world st3 = 2%nat ∧ SS_world st4 = 3%nat.
Proof. vm_compute. done. Qed.
