(* ===== verification/Compile.v ===== *)
(** Compilation to a framework (internal/compiler/safezone.go, gapanalysis.go,
    configref.go, cross.go and the parts of compiler.go around them): the zones
    of a generated file that recompilation preserves, the features of a document
    that a target does not support, and the reference of its parameters. The
    generators of the targets are left out. *)
From S2P Require Import Prelude GoStd GoMaps Ast Ir Lower ControlFlow RuntimeConfig.

(** * Safe zones *)

Definition GeneratedStartMarker : string := "AGENTSPEC GENERATED START".
Definition GeneratedEndMarker : string := "AGENTSPEC GENERATED END".
Definition UserCodeStartMarker : string := "USER CODE START".
Definition UserCodeEndMarker : string := "USER CODE END".

Record SafeZone := mkSafeZone {
  SafeZone_Type : string;
  SafeZone_Content : string;
}.

Definition marker (commentPrefix name : string) : string := commentPrefix +:+ " --- " +:+ name +:+ " ---".

(** The variables of ParseSafeZones: zones, current and currentType. *)
Record Zoning := mkZoning {
  Z_zones : list SafeZone;
  Z_current : string;
  Z_type : string;
}.

(** A start marker closes an open zone and opens another. *)
Definition open_zone (type line : string) (z : Zoning) : Zoning :=
  let zones :=
    if nonempty (Z_type z) && nonempty (Z_current z)
    then Z_zones z ++ [mkSafeZone (Z_type z) (Z_current z)] else Z_zones z in
  let current :=
    if nonempty (Z_type z) && nonempty (Z_current z) then "" else Z_current z in
  mkZoning zones (current +:+ line +:+ nl) type.

Definition close_zone (type line : string) (z : Zoning) : Zoning :=
  mkZoning (Z_zones z ++ [mkSafeZone type (Z_current z +:+ line +:+ nl)]) "" "".

Section zones.
Context (commentPrefix : string).

(** One line of the loop. *)
Definition zone_line (z : Zoning) (line : string) : Zoning :=
  let trimmed := TrimSpace line in
  if String.eqb trimmed (marker commentPrefix GeneratedStartMarker) then open_zone "generated" line z
  else if String.eqb trimmed (marker commentPrefix GeneratedEndMarker) then close_zone "generated" line z
  else if String.eqb trimmed (marker commentPrefix UserCodeStartMarker) then open_zone "user" line z
  else if String.eqb trimmed (marker commentPrefix UserCodeEndMarker) then close_zone "user" line z
  else
    mkZoning (Z_zones z) (Z_current z +:+ line +:+ nl)
      (if String.eqb (Z_type z) "" then "outside" else Z_type z).

(** The zone that is open at the end. *)
Definition last_zone (z : Zoning) : list SafeZone :=
  if nonempty (Z_current z) then
    Z_zones z ++ [mkSafeZone (if String.eqb (Z_type z) "" then "outside" else Z_type z) (Z_current z)]
  else Z_zones z.

(** ParseSafeZones parses a file's content into safe zones. *)
Definition ParseSafeZones (content : string) : list SafeZone :=
  last_zone (foldl zone_line (mkZoning [] "" "") (Split content nl)).

Definition is_user (z : SafeZone) : bool := String.eqb (SafeZone_Type z) "user".

(** ExtractUserCode: a map from section index to user code. *)
Definition ExtractUserCode (content : string) : gmap nat string :=
  map_seq 0 (SafeZone_Content <$> List.filter is_user (ParseSafeZones content)).

(** The loop of MergeWithUserCode. *)
Fixpoint merge_zones (existing : gmap nat string) (userIdx : nat) (zones : list SafeZone) : string :=
  match zones with
  | [] => ""
  | z :: zones =>
      if is_user z then
        default (SafeZone_Content z) (existing !! userIdx) +:+ merge_zones existing (S userIdx) zones
      else SafeZone_Content z +:+ merge_zones existing userIdx zones
  end.

(** MergeWithUserCode merges new generated content with preserved user code. *)
Definition MergeWithUserCode (newContent : string) (existing : gmap nat string) : string :=
  if decide (existing = ∅) then newContent
  else merge_zones existing 0 (ParseSafeZones newContent).

(** The content of a generated file, given what is at its path. *)
Definition preserve (existingContent : option string) (content : string) : string :=
  match existingContent with
  | None => content
  | Some e =>
      let userCode := ExtractUserCode e in
      if decide (userCode = ∅) then content else MergeWithUserCode content userCode
  end.

Definition WrapGenerated (content : string) : string :=
  marker commentPrefix GeneratedStartMarker +:+ nl +:+
  commentPrefix +:+ " Do not edit between these markers; changes will be overwritten on recompile" +:+ nl +:+
  content +:+ marker commentPrefix GeneratedEndMarker +:+ nl.

Definition WrapUserCode (placeholder : string) : string :=
  marker commentPrefix UserCodeStartMarker +:+ nl +:+
  commentPrefix +:+ " Your custom code here is preserved across recompilations" +:+ nl +:+
  placeholder +:+ marker commentPrefix UserCodeEndMarker +:+ nl.
End zones.

(** CommentPrefixForLanguage returns the line comment prefix of a language. *)
Definition CommentPrefixForLanguage `{GoRuntime} (lang : string) : string :=
  if bool_decide (ToLower lang ∈ ["javascript"; "js"; "typescript"; "ts"; "go"; "java"; "c"; "cpp"; "rust"])
  then "//" else "#".

(** * Features of a document *)

(** DetectedFeature represents a feature found in the IR document. *)
Record DetectedFeature := mkDetectedFeature {
  DF_Name : string;
  DF_ResourceFQN : string;
}.

(** GapWarning represents a feature gap for a specific target. *)
Record GapWarning := mkGapWarning {
  GW_Feature : string;
  GW_Level : string;
  GW_Message : string;
  GW_Suggestion : string;
}.

Definition FeatureFull : string := "full".
Definition FeaturePartial : string := "partial".
Definition FeatureEmulated : string := "emulated".
Definition FeatureNone : string := "none".

(** [if x, ok := r.Attributes[key]; ok && x != nil]: the IR holds no nil. *)
Definition when_set (key : string) (r : Resource) (features : Value → list string) : list string :=
  match attr key (Resource_Attributes r) with Some v => features v | None => [] end.

Definition strategy_feature (v : Value) : list string :=
  match v with
  | VStr s =>
      if String.eqb s "react" then ["loop_react"]
      else if bool_decide (s ∈ ["plan-and-execute"; "plan_and_execute"]) then ["loop_plan_execute"]
      else if String.eqb s "reflexion" then ["loop_reflexion"]
      else if String.eqb s "router" then ["loop_router"]
      else if bool_decide (s ∈ ["map-reduce"; "map_reduce"]) then ["loop_map_reduce"]
      else []
  | _ => []
  end.

Definition detectControlFlowFeatures (onInput : Value) : list string :=
  match onInput with
  | VList stmts =>
      flat_map (λ stmt,
        match stmt with
        | VMap m =>
            let type := str_attr "type" m in
            if String.eqb type "if" then ["control_flow_if"]
            else if String.eqb type "for_each" then ["control_flow_foreach"] else []
        | _ => []
        end) stmts
  | _ => []
  end.

Definition detectAgentFeatures (r : Resource) : list string :=
  when_set "strategy" r strategy_feature ++
  when_set "config_params" r (λ _, ["config_params"]) ++
  when_set "validation_rules" r (λ _, ["validation_rules"]) ++
  when_set "eval_cases" r (λ _, ["eval_cases"]) ++
  when_set "on_input" r detectControlFlowFeatures ++
  when_set "delegates" r (λ _, ["delegation"]) ++
  when_set "stream" r (λ v, match v with VBool true => ["streaming"] | _ => [] end) ++
  when_set "memory" r (λ _, ["sessions"]) ++
  when_set "fallback" r (λ v, match v with VStr EmptyString => [] | _ => ["error_handling"] end).

Definition detectSkillFeatures (r : Resource) : list string :=
  when_set "tool" r (λ v,
    match v with
    | VMap tool =>
        let type := str_attr "type" tool in
        if String.eqb type "inline" then ["inline_tools"]
        else if String.eqb type "mcp" then ["mcp_tools"] else []
    | _ => []
    end).

Definition detectPipelineFeatures (r : Resource) : list string :=
  when_set "steps" r (λ v,
    match v with
    | VList steps =>
        flat_map (λ step,
          match step with
          | VMap s =>
              (if nonempty (str_attr "when" s) then ["pipeline_conditional"] else []) ++
              (match attr "parallel" s with Some (VBool true) => ["pipeline_hierarchical"] | _ => [] end)
          | _ => []
          end) steps
    | _ => []
    end).

(** The features of one resource. *)
Definition detect_resource (r : Resource) : list string :=
  let kind := Resource_Kind r in
  if String.eqb kind "Agent" then "agent" :: detectAgentFeatures r
  else if String.eqb kind "Skill" then "skill" :: detectSkillFeatures r
  else if String.eqb kind "Prompt" then "prompt" :: when_set "variables" r (λ _, ["prompt_variables"])
  else if String.eqb kind "Pipeline" then "pipeline_sequential" :: detectPipelineFeatures r
  else if String.eqb kind "Type" then ["type_definitions"]
  else [].

(** DetectFeatures returns all features in use. *)
Definition DetectFeatures (doc : Document) : list DetectedFeature :=
  flat_map (λ r, (λ name, mkDetectedFeature name (Resource_FQN r)) <$> detect_resource r) (Document_Resources doc).

Definition suggestions : gmap string string := list_to_map [
  ("loop_reflexion", "Consider using the LangGraph target which supports reflexion loops");
  ("loop_router", "Consider using the LangGraph target which supports conditional routing");
  ("loop_map_reduce", "Consider using the LangGraph target for map-reduce patterns");
  ("pipeline_conditional", "Consider using the LangGraph target for conditional pipelines");
  ("inline_tools", "Convert inline tools to command or HTTP tools for this target");
  ("mcp_tools", "Convert MCP tools to HTTP or command tools for this target");
  ("control_flow_if", "Consider using the standalone or LangGraph target for control flow");
  ("control_flow_foreach", "Consider using the standalone or LangGraph target for loops")].

Definition gapSuggestion (feature level : string) : string :=
  if String.eqb level FeatureNone then
    default "This feature will be omitted from the generated code" (suggestions !! feature)
  else if String.eqb level FeatureEmulated then
    "Generated as application-level code wrapper; review the implementation for correctness"
  else "Check target documentation for limitations".

Section gaps.
Context `{GoRuntime}.

(** The warning for a feature at a level, if any. *)
Definition gap_warning (feature resourceFQN level : string) : option GapWarning :=
  let warning (text : string) :=
    Some (mkGapWarning feature level
      ("Feature " +:+ quote feature +:+ " (used by " +:+ resourceFQN +:+ ") " +:+ text) (gapSuggestion feature level)) in
  if String.eqb level FeatureFull then None
  else if String.eqb level FeaturePartial then warning "has partial support in this target"
  else if String.eqb level FeatureEmulated then
    warning "is emulated via generated code, not a native framework primitive"
  else if String.eqb level FeatureNone then warning "is not supported by this target"
  else None.

(** The first resource of each feature. *)
Definition first_users (features : list DetectedFeature) : gmap string string :=
  foldl (λ seen f,
    match seen !! DF_Name f with
    | Some _ => seen
    | None => <[DF_Name f := DF_ResourceFQN f]> seen
    end) ∅ features.

(** AnalyzeGaps returns warnings for the features that are not fully supported,
    in the order in which the map is visited. *)
Definition AnalyzeGaps (features : list DetectedFeature) (featureMap : gmap string string) : list GapWarning :=
  omap (λ '(featureName, resourceFQN),
    gap_warning featureName resourceFQN (default FeatureNone (featureMap !! featureName)))
    (map_range (first_users features)).

(** GapWarningsToStrings converts gap warnings to simple string messages. *)
Definition GapWarningsToStrings (warnings : list GapWarning) : list string :=
  (λ w, "[" +:+ GW_Level w +:+ "] " +:+ GW_Message w +:+
        (if nonempty (GW_Suggestion w) then " — " +:+ GW_Suggestion w else "")) <$> warnings.
End gaps.

(** agentNames extracts agent names from an IR document. *)
Definition agentNames (doc : Document) : list string :=
  Resource_Name <$> List.filter (λ r, String.eqb (Resource_Kind r) "Agent") (Document_Resources doc).

(** * The configuration reference *)

Record AgentConfigRef := mkAgentConfigRef {
  ACR_AgentName : string;
  ACR_Params : list ConfigParamDef;
}.

Definition code (s : string) : string := "`" +:+ s +:+ "`".

Definition ref_row `{GoRuntime} (agentName : string) (p : ConfigParamDef) : string :=
  "| " +:+ code (ConfigParamDef_Name p) +:+ " | " +:+ ConfigParamDef_Type p +:+ " | " +:+
  (if ConfigParamDef_Required p then "**Yes**" else "No") +:+ " | " +:+
  (if ConfigParamDef_Secret p then "Yes" else "No") +:+ " | " +:+
  (if ConfigParamDef_HasDefault p then code (ConfigParamDef_Default p) else "-") +:+ " | " +:+
  code (configEnvKey agentName (ConfigParamDef_Name p)) +:+ " | " +:+
  (if nonempty (ConfigParamDef_Description p) then ConfigParamDef_Description p else "-") +:+ " |" +:+ nl.

Definition ref_setup `{GoRuntime} (agentName : string) (p : ConfigParamDef) : string :=
  let envVar := configEnvKey agentName (ConfigParamDef_Name p) in
  let desc := ConfigParamDef_Description p in
  (if ConfigParamDef_Secret p then
     "export " +:+ envVar +:+ "=<secret>  # " +:+ desc +:+ " (required: " +:+
     (if ConfigParamDef_Required p then "true" else "false") +:+ ")"
   else if ConfigParamDef_HasDefault p then
     "# export " +:+ envVar +:+ "=" +:+ ConfigParamDef_Default p +:+ "  # " +:+ desc +:+ " (optional, default shown)"
   else if ConfigParamDef_Required p then "export " +:+ envVar +:+ "=<value>  # " +:+ desc
   else "# export " +:+ envVar +:+ "=<value>  # " +:+ desc +:+ " (optional)") +:+ nl.

Definition ref_agent `{GoRuntime} (agent : AgentConfigRef) : string :=
  let name := ACR_AgentName agent in
  "## Agent: " +:+ name +:+ nl +:+ nl +:+
  match ACR_Params agent with
  | [] => "No configuration parameters declared." +:+ nl +:+ nl
  | params =>
      "| Parameter | Type | Required | Secret | Default | Env Variable | Description |" +:+ nl +:+
      "|-----------|------|----------|--------|---------|-------------|-------------|" +:+ nl +:+
      String.concat "" (map (ref_row name) params) +:+ nl +:+
      "### Quick Setup" +:+ nl +:+ nl +:+ "```bash" +:+ nl +:+
      String.concat "" (map (ref_setup name) params) +:+ "```" +:+ nl +:+ nl
  end.

(** GenerateConfigRef, given the text of the time. *)
Definition GenerateConfigRef `{GoRuntime} (now : string) (agents : list AgentConfigRef) (artifactName : string) : string :=
  "# Configuration Reference: " +:+ artifactName +:+ nl +:+ nl +:+ "Generated: " +:+ now +:+ nl +:+ nl +:+
  String.concat "" (map ref_agent agents).

Definition SupportedPlatforms : list string :=
  ["linux/amd64"; "linux/arm64"; "darwin/amd64"; "darwin/arm64"; "windows/amd64"].

(** ValidatePlatform checks if the platform string is supported. *)
Definition ValidatePlatform `{GoRuntime} (platform : string) : option string :=
  if String.eqb platform "" || existsb (String.eqb platform) SupportedPlatforms then None
  else Some ("unsupported platform " +:+ quote platform +:+ ", supported: [" +:+ Join SupportedPlatforms " " +:+ "]").

(** * Files as segments

    A file between marker lines: plain lines, and marked segments, each a start
    line, the lines between and an end line. *)
Inductive Segment :=
  | Plain (lines : list string)
  | Marked (user : bool) (start : string) (lines : list string) (stop : string).

Definition seg_lines (s : Segment) : list string :=
  match s with Plain ls => ls | Marked _ start ls stop => start :: ls ++ [stop] end.

Definition lines_of (segs : list Segment) : list string := concat (map seg_lines segs).

(** The text of a file, and of lines that all end. *)
Definition text_of_segments (segs : list Segment) : string := Join (lines_of segs) nl.
Definition unlines (ls : list string) : string := String.concat "" (map (λ l, l +:+ nl) ls).

Definition user_segments (segs : list Segment) : list Segment :=
  List.filter (λ s, match s with Marked true _ _ _ => true | _ => false end) segs.

Definition user_code (segs : list Segment) : list string :=
  map (λ s, unlines (seg_lines s)) (user_segments segs).

(** The new file with the user segments of the old one, as far as there are. *)
Fixpoint overlay (olds segs : list Segment) : list Segment :=
  match segs with
  | [] => []
  | Marked true start ls stop :: segs =>
      match olds with
      | o :: olds => o :: overlay olds segs
      | [] => Marked true start ls stop :: overlay [] segs
      end
  | s :: segs => s :: overlay olds segs
  end.

Section segment_facts.
Context (commentPrefix : string).

Abbreviation is_marker l name := (TrimSpace l = marker commentPrefix name).

Definition plain_line (l : string) : Prop :=
  ¬ is_marker l GeneratedStartMarker ∧ ¬ is_marker l GeneratedEndMarker ∧
  ¬ is_marker l UserCodeStartMarker ∧ ¬ is_marker l UserCodeEndMarker.

Definition seg_ok (s : Segment) : Prop :=
  Forall (λ l, ¬ occurs nl l) (seg_lines s) ∧
  match s with
  | Plain ls => Forall plain_line ls
  | Marked user start ls stop =>
      is_marker start (if user then UserCodeStartMarker else GeneratedStartMarker) ∧ Forall plain_line ls ∧
      is_marker stop (if user then UserCodeEndMarker else GeneratedEndMarker)
  end.

(** The markers differ. *)
Lemma marker_inj a b : marker commentPrefix a = marker commentPrefix b → a +:+ " ---" = b +:+ " ---".
Proof.
  unfold marker. intros E. induction commentPrefix as [|c p IH]; simpl in E; [by injection E|].
  injection E as E. by apply IH.
Qed.

Lemma marker_neq a b : a +:+ " ---" ≠ b +:+ " ---" → String.eqb (marker commentPrefix a) (marker commentPrefix b) = false.
Proof. intros N. apply String.eqb_neq. intros E. by apply N, marker_inj. Qed.

Lemma zone_line_plain z l :
  plain_line l → zone_line commentPrefix z l =
    mkZoning (Z_zones z) (Z_current z +:+ l +:+ nl) (if String.eqb (Z_type z) "" then "outside" else Z_type z).
Proof.
  intros (A & B & C & D). unfold zone_line.
  by repeat match goal with N : ¬ _ |- _ => apply String.eqb_neq in N; rewrite N; clear N end.
Qed.

Lemma zone_line_start z (user : bool) l :
  is_marker l (if user then UserCodeStartMarker else GeneratedStartMarker) →
  zone_line commentPrefix z l = open_zone (if user then "user" else "generated") l z.
Proof.
  unfold zone_line. intros ->. destruct user; rewrite ?String.eqb_refl; [|done].
  by rewrite !marker_neq.
Qed.

Lemma zone_line_stop z (user : bool) l :
  is_marker l (if user then UserCodeEndMarker else GeneratedEndMarker) →
  zone_line commentPrefix z l = close_zone (if user then "user" else "generated") l z.
Proof. unfold zone_line. intros ->. destruct user; rewrite !marker_neq, String.eqb_refl by done; done. Qed.

(** * Parsing segments *)

Lemma str_concat_cons x l : String.concat "" (x :: l) = x +:+ String.concat "" l.
Proof. destruct l; [|done]. simpl. by rewrite str_app_nil_r. Qed.

Lemma unlines_app l1 l2 : unlines (l1 ++ l2) = unlines l1 +:+ unlines l2.
Proof.
  unfold unlines. rewrite map_app. induction l1 as [|l l1 IH]; [done|]. cbn [map app].
  rewrite !str_concat_cons, IH. by rewrite str_app_assoc.
Qed.

Lemma unlines_cons l ls : unlines (l :: ls) = l +:+ nl +:+ unlines ls.
Proof. unfold unlines. cbn [map]. rewrite str_concat_cons. by rewrite str_app_assoc. Qed.

(** Outside a segment, with plain lines before it or not. *)
Definition between (z : Zoning) : Prop :=
  Z_type z = if String.eqb (Z_current z) "" then "" else "outside".

Lemma nonempty_line u l : nonempty (u +:+ l +:+ nl) = true.
Proof. destruct u, l; done. Qed.

Lemma run_plain z ls :
  Forall plain_line ls → ls ≠ [] →
  foldl (zone_line commentPrefix) z ls =
    mkZoning (Z_zones z) (Z_current z +:+ unlines ls) (if String.eqb (Z_type z) "" then "outside" else Z_type z).
Proof.
  intros F. revert z. induction F as [|l ls P F IH]; intros z N; [done|]. cbn [foldl].
  rewrite zone_line_plain by done. destruct ls as [|l' ls].
  - reflexivity.
  - rewrite IH by done. cbn [Z_zones Z_current Z_type]. rewrite (unlines_cons l), <- !str_app_assoc. f_equal.
    by destruct (String.eqb (Z_type z) "") eqn:E; [|rewrite E].
Qed.

Lemma run_plain_between z ls :
  between z → Forall plain_line ls →
  let z' := foldl (zone_line commentPrefix) z ls in
  between z' ∧ Z_zones z' = Z_zones z ∧ Z_current z' = Z_current z +:+ unlines ls.
Proof.
  intros B F. destruct ls as [|l ls]; [cbn; by rewrite str_app_nil_r|].
  cbv zeta. rewrite run_plain by done. split_and!; [|done..]. unfold between in *. cbn [Z_type Z_current].
  rewrite B, unlines_cons. destruct (Z_current z) as [|c u]; [|done]. by destruct l.
Qed.

Lemma run_marked z user start ls stop :
  between z → seg_ok (Marked user start ls stop) →
  foldl (zone_line commentPrefix) z (seg_lines (Marked user start ls stop)) =
    mkZoning (last_zone z ++ [mkSafeZone (if user then "user" else "generated") (unlines (start :: ls ++ [stop]))]) "" "".
Proof.
  intros B (_ & S & F & E). cbn [seg_lines foldl]. rewrite (zone_line_start _ user) by done.
  assert (open_zone (if user then "user" else "generated") start z =
    mkZoning (last_zone z) (start +:+ nl) (if user then "user" else "generated")) as ->.
  { unfold open_zone, last_zone. rewrite B. destruct (Z_current z) as [|c u]; [done|]. simpl. done. }
  rewrite foldl_snoc. set (z0 := mkZoning _ _ _).
  assert (foldl (zone_line commentPrefix) z0 ls =
    mkZoning (last_zone z) (unlines (start :: ls)) (if user then "user" else "generated")) as ->.
  { destruct ls as [|l ls]; [unfold unlines; simpl; by rewrite ?str_app_nil_r|].
    rewrite run_plain by done. unfold z0. cbn [Z_zones Z_current Z_type].
    rewrite (unlines_cons start), <- !str_app_assoc. by destruct user. }
  rewrite (zone_line_stop _ user) by done. unfold close_zone. cbn [Z_zones Z_current]. do 3 f_equal.
  rewrite app_comm_cons, unlines_app. done.
Qed.

Definition users (zones : list SafeZone) : list string := SafeZone_Content <$> List.filter is_user zones.

Lemma users_last z : between z → users (last_zone z) = users (Z_zones z).
Proof.
  unfold between, last_zone, users. intros ->. destruct (Z_current z) as [|c u]; [done|]. simpl.
  by rewrite List.filter_app, app_nil_r.
Qed.

(** The user zones are the user segments. *)
Lemma users_run segs z :
  between z → Forall seg_ok segs →
  users (last_zone (foldl (zone_line commentPrefix) z (lines_of segs))) = users (Z_zones z) ++ user_code segs.
Proof.
  intros B F. revert z B. induction F as [|s segs O F IH]; intros z B.
  { cbn. by rewrite app_nil_r, users_last. }
  unfold lines_of. cbn [map concat]. rewrite foldl_app. fold (lines_of segs). destruct s as [ls|user start ls stop].
  - destruct (run_plain_between z ls B (proj2 O)) as (B' & Ez & _). cbn [seg_lines]. rewrite IH by done. by rewrite Ez.
  - rewrite run_marked by done. rewrite IH by done. cbn [Z_zones]. unfold users. rewrite List.filter_app, fmap_app.
    fold (users (last_zone z)). rewrite users_last by done. rewrite <- app_assoc. by destruct user.
Qed.

(** The text with the user code at some indexes replaced. *)
Fixpoint overlay_text (u : gmap nat string) (i : nat) (segs : list Segment) : string :=
  match segs with
  | [] => ""
  | Plain ls :: segs => unlines ls +:+ overlay_text u i segs
  | Marked true start ls stop :: segs =>
      default (unlines (start :: ls ++ [stop])) (u !! i) +:+ overlay_text u (S i) segs
  | Marked false start ls stop :: segs => unlines (start :: ls ++ [stop]) +:+ overlay_text u i segs
  end.

Lemma merge_zones_app u i zs zs' :
  merge_zones u i (zs ++ zs') = merge_zones u i zs +:+ merge_zones u (i + length (users zs)) zs'.
Proof.
  revert i. induction zs as [|z zs IH]; intros i; [cbn; by rewrite Nat.add_0_r|]. cbn [app merge_zones]. unfold users in *.
  cbn [List.filter]. destruct (is_user z); rewrite IH, str_app_assoc; [|done].
  cbn [fmap list_fmap length]. by rewrite Nat.add_succ_r.
Qed.

Lemma merge_last u i z :
  between z → merge_zones u i (last_zone z) = merge_zones u i (Z_zones z) +:+ Z_current z.
Proof.
  unfold between, last_zone. intros ->. destruct (Z_current z) as [|c v]; [cbn; by rewrite str_app_nil_r|].
  simpl. rewrite merge_zones_app. simpl. by rewrite str_app_nil_r.
Qed.

Lemma merge_run u i segs z :
  between z → Forall seg_ok segs →
  merge_zones u i (last_zone (foldl (zone_line commentPrefix) z (lines_of segs))) =
  merge_zones u i (Z_zones z) +:+ Z_current z +:+ overlay_text u (i + length (users (Z_zones z))) segs.
Proof.
  intros B F. revert z B. induction F as [|s segs O F IH]; intros z B.
  { cbn. by rewrite str_app_nil_r, merge_last. }
  unfold lines_of. cbn [map concat]. rewrite foldl_app. fold (lines_of segs). destruct s as [ls|user start ls stop].
  - destruct (run_plain_between z ls B (proj2 O)) as (B' & Ez & Ec). cbn [seg_lines]. rewrite IH by done.
    rewrite Ez, Ec. cbn [overlay_text]. by rewrite <- !str_app_assoc.
  - rewrite run_marked by done. rewrite IH by done. cbn [Z_zones Z_current]. rewrite merge_zones_app, merge_last by done.
    rewrite <- !str_app_assoc. unfold users at 1 2. rewrite List.filter_app, fmap_app, length_app.
    fold (users (last_zone z)). rewrite users_last by done.
    destruct user; cbn -[unlines]; rewrite ?str_app_nil_r, ?Nat.add_0_r, <- ?str_app_assoc; [|done].
    by rewrite Nat.add_assoc, Nat.add_1_r.
Qed.

(** * Lines *)

Lemma first_line a b x y :
  ¬ occurs nl a → ¬ occurs nl b → a +:+ nl +:+ x = b +:+ nl +:+ y → a = b ∧ x = y.
Proof.
  revert b. induction a as [|c a IH]; intros [|d b] Na Nb E.
  - unfold nl in E. injection E as E. exact (conj eq_refl E).
  - injection E as <- E. destruct Nb. by exists "", b.
  - injection E as -> E. destruct Na. by exists "", a.
  - injection E as -> E. destruct (IH b) as [-> ->]; [| |exact E|done].
    + intros (u & v & ->). apply Na. by exists (String d u), v.
    + intros (u & v & ->). apply Nb. by exists (String d u), v.
Qed.

Lemma one_line a b x : ¬ occurs nl a → a ≠ b +:+ nl +:+ x.
Proof. intros N ->. apply N. by exists b, x. Qed.

Lemma Join_cons l l' ls : Join (l :: l' :: ls) nl = l +:+ nl +:+ Join (l' :: ls) nl.
Proof. done. Qed.

Lemma Join_lines_inj ls ls' :
  ls ≠ [] → ls' ≠ [] → Forall (λ l, ¬ occurs nl l) ls → Forall (λ l, ¬ occurs nl l) ls' →
  Join ls nl = Join ls' nl → ls = ls'.
Proof.
  revert ls'. induction ls as [|a [|a' ls] IH]; intros [|b [|b' ls']] N N' F F' E; try done.
  - unfold Join in E. simpl in E. by rewrite E.
  - rewrite Join_cons in E. apply Forall_cons in F as [Fa _]. by destruct (one_line a b (Join (b' :: ls') nl) Fa).
  - rewrite Join_cons in E. apply Forall_cons in F' as [Fb _]. by destruct (one_line b a (Join (a' :: ls) nl) Fb).
  - rewrite !Join_cons in E. apply Forall_cons in F as [Fa F], F' as [Fb F'].
    destruct (first_line _ _ _ _ Fa Fb E) as [-> E']. f_equal. by apply IH.
Qed.

Lemma Split_Join_lines ls : ls ≠ [] → Forall (λ l, ¬ occurs nl l) ls → Split (Join ls nl) nl = ls.
Proof.
  intros N F. destruct (Split_spec (Join ls nl) nl) as [J S]; [done|].
  apply Join_lines_inj; try done.
  destruct (split_on_nonempty (String.length (Join ls nl)) (Join ls nl) nl) as (x & xs & E).
  unfold Split. by rewrite E.
Qed.

Lemma unlines_Join ls : unlines ls = Join (ls ++ [""]) nl.
Proof.
  induction ls as [|l ls IH]; [done|]. rewrite unlines_cons, IH. by destruct ls.
Qed.

Lemma lines_ok segs : Forall seg_ok segs → Forall (λ l, ¬ occurs nl l) (lines_of segs).
Proof.
  intros F. unfold lines_of. induction F as [|s segs [O _] F IH]; [done|]. cbn [map concat].
  apply Forall_app. done.
Qed.

Lemma parse_segments segs :
  lines_of segs ≠ [] → Forall seg_ok segs →
  ParseSafeZones commentPrefix (text_of_segments segs) =
    last_zone (foldl (zone_line commentPrefix) (mkZoning [] "" "") (lines_of segs)).
Proof.
  intros N F. unfold ParseSafeZones, text_of_segments. by rewrite Split_Join_lines by (done || by apply lines_ok).
Qed.

(** Replacing the texts is replacing the segments. *)
Lemma overlay_text_segments olds segs u i :
  (∀ k, u !! (i + k)%nat = (λ s, unlines (seg_lines s)) <$> olds !! k) →
  overlay_text u i segs = unlines (lines_of (overlay olds segs)).
Proof.
  revert olds i. induction segs as [|s segs IH]; intros olds i U; [done|].
  destruct s as [ls|user start ls stop]; [|destruct user].
  - cbn [overlay_text overlay]. unfold lines_of. cbn [map concat seg_lines]. by rewrite unlines_app, (IH olds i U).
  - cbn [overlay_text overlay]. pose proof (U 0%nat) as U0. rewrite Nat.add_0_r in U0. rewrite U0.
    destruct olds as [|o olds].
    + unfold lines_of. cbn [lookup list_lookup fmap option_fmap option_map default map concat seg_lines].
      rewrite unlines_app. f_equal. apply IH. intros k. replace (S i + k)%nat with (i + S k)%nat by lia. by rewrite U.
    + unfold lines_of. cbn [lookup list_lookup fmap option_fmap option_map default map concat].
      rewrite unlines_app. f_equal. apply IH. intros k. replace (S i + k)%nat with (i + S k)%nat by lia. by rewrite U.
  - cbn [overlay_text overlay]. unfold lines_of. cbn [map concat seg_lines]. by rewrite unlines_app, (IH olds i U).
Qed.


Lemma user_code_overlay olds segs k :
  user_segments olds = olds →
  user_code (overlay olds segs) !! k =
  (λ own, default own (user_code olds !! k)) <$> user_code segs !! k.
Proof.
  revert olds k. induction segs as [|s segs IH]; intros olds k U; [done|].
  destruct s as [ls|user start ls stop]; [by apply IH|destruct user; [|by apply IH]].
  destruct olds as [|o olds].
  - destruct k as [|k]; [done|]. exact (IH [] k eq_refl).
  - destruct o as [ls'|[] start' ls' stop']; try (by
      pose proof (f_equal length U) as L; unfold user_segments in L; simpl in L;
      pose proof (List.filter_length_le (λ s, match s with Marked true _ _ _ => true | _ => false end) olds);
      simpl in *; lia).
    destruct k as [|k]; [done|]. apply (IH olds k). by injection U.
Qed.

Lemma user_segments_idem segs : user_segments (user_segments segs) = user_segments segs.
Proof.
  unfold user_segments. induction segs as [|s segs IH]; [done|]. destruct s as [ls|[] start ls stop]; simpl; try done.
  by rewrite IH.
Qed.

Lemma overlay_others olds segs :
  user_segments olds = olds →
  List.filter (λ s, match s with Marked true _ _ _ => false | _ => true end) (overlay olds segs) =
  List.filter (λ s, match s with Marked true _ _ _ => false | _ => true end) segs.
Proof.
  revert olds. induction segs as [|s segs IH]; intros olds U; [done|].
  destruct s as [ls|[] start ls stop]; simpl; [by rewrite IH| |by rewrite IH].
  destruct olds as [|o olds]; simpl; [by apply IH|].
  destruct o as [ls'|[] start' ls' stop']; try (by
    pose proof (f_equal length U) as L; unfold user_segments in L; simpl in L;
    pose proof (List.filter_length_le (λ s, match s with Marked true _ _ _ => true | _ => false end) olds);
    simpl in *; lia).
  apply IH. by injection U.
Qed.

(** C37. Recompiling keeps the user code: of a file on disk and a newly generated
    one, both made of marked segments, the result is the new file, in which the
    user segment at each position is the one that was on disk at that position,
    if there was one, and everything else is as generated, with one more line
    end when there is user code on disk at all. The user code of the file on disk is found exactly; what it has beyond
    the user segments of the new file is lost. *)
Theorem recompile_keeps_user_code old new :
  lines_of old ≠ [] → lines_of new ≠ [] → Forall seg_ok old → Forall seg_ok new →
  let merged := overlay (user_segments old) new ++ [Plain [""]] in
  ExtractUserCode commentPrefix (text_of_segments old) = map_seq 0 (user_code old) ∧
  preserve commentPrefix (Some (text_of_segments old)) (text_of_segments new) =
    (if decide (user_code old = []) then text_of_segments new else text_of_segments merged) ∧
  (∀ k, user_code merged !! k = (λ own, default own (user_code old !! k)) <$> user_code new !! k) ∧
  List.filter (λ s, match s with Marked true _ _ _ => false | _ => true end) merged =
    List.filter (λ s, match s with Marked true _ _ _ => false | _ => true end) new ++ [Plain [""]].
Proof.
  intros No Nn Fo Fn merged.
  assert (ExtractUserCode commentPrefix (text_of_segments old) = map_seq 0 (user_code old)) as X.
  { unfold ExtractUserCode. rewrite parse_segments by done. fold (users (last_zone (foldl (zone_line commentPrefix)
      (mkZoning [] "" "") (lines_of old)))). by rewrite users_run. }
  pose proof (user_segments_idem old) as I. split_and!; [exact X| | |].
  - unfold preserve, MergeWithUserCode. rewrite X. destruct (decide (user_code old = [])) as [->|N]; [done|].
    assert (map_seq 0 (user_code old) ≠ (∅ : gmap nat string)) as Ne.
    { destruct (user_code old) as [|x l]; [done|]. intros E.
      apply (f_equal (λ m : gmap nat string, m !! 0%nat)) in E. by rewrite lookup_map_seq_0 in E. }
    rewrite !decide_False by done. rewrite parse_segments, merge_run by done. cbn [Z_zones Z_current merge_zones].
    rewrite (overlay_text_segments (user_segments old)).
    + unfold merged, text_of_segments. rewrite unlines_Join. unfold lines_of. by rewrite map_app, concat_app.
    + intros k. rewrite Nat.add_0_l, lookup_map_seq_0. unfold user_code. by rewrite list_lookup_fmap.
  - intros k. unfold merged, user_code at 1, user_segments at 1. rewrite List.filter_app. simpl. rewrite app_nil_r.
    fold (user_segments (overlay (user_segments old) new)). fold (user_code (overlay (user_segments old) new)).
    rewrite user_code_overlay by done.
    assert (user_code (user_segments old) = user_code old) as ->; [unfold user_code; by rewrite I | done].
  - unfold merged. rewrite List.filter_app. f_equal. by apply overlay_others.
Qed.
End segment_facts.

(** A file on disk with two user segments, and a new one with none: recompiling
    drops them. *)
Definition edited_file : list Segment :=
  [Plain ["import x"]; Marked true "# --- USER CODE START ---" ["mine"] "# --- USER CODE END ---"; Plain [""]].
Definition generated_file : list Segment := [Plain ["import y"; ""]].

Lemma edited_ok : Forall (seg_ok "#") edited_file ∧ Forall (seg_ok "#") generated_file.
Proof.
  assert (∀ l, Contains l nl = false → ¬ occurs nl l) as N by (intros l; apply not_Contains).
  split; repeat constructor; simpl; try (apply N; reflexivity); try reflexivity.
  all: intros E; apply (f_equal String.length) in E; vm_compute in E; discriminate.
Qed.

Lemma recompile_keeps_user_code_witness :
  let merged := overlay (user_segments edited_file) generated_file ++ [Plain [""]] in
  ExtractUserCode "#" (text_of_segments edited_file) = map_seq 0 (user_code edited_file) ∧
  preserve "#" (Some (text_of_segments edited_file)) (text_of_segments generated_file) =
    (if decide (user_code edited_file = []) then text_of_segments generated_file else text_of_segments merged) ∧
  (∀ k, user_code merged !! k =
     (λ own, default own (user_code edited_file !! k)) <$> user_code generated_file !! k) ∧
  List.filter (λ s, match s with Marked true _ _ _ => false | _ => true end) merged =
    List.filter (λ s, match s with Marked true _ _ _ => false | _ => true end) generated_file ++ [Plain [""]].
Proof.
  apply (recompile_keeps_user_code "#" edited_file generated_file);
    [done | done | apply edited_ok | apply edited_ok].
Defined.

Example user_code_dropped :
  user_code edited_file ≠ [] ∧
  preserve "#" (Some (text_of_segments edited_file)) (text_of_segments generated_file) =
    "import y" +:+ nl +:+ nl.
Proof. split; [done|]. vm_compute. reflexivity. Qed.

(** * Gaps *)

Section gap_facts.
Context `{GoRuntime}.

Lemma first_users_lookup features n :
  first_users features !! n = DF_ResourceFQN <$> List.find (λ f, String.eqb (DF_Name f) n) features.
Proof.
  assert (∀ seen : gmap string string, foldl (λ seen f, match seen !! DF_Name f with Some _ => seen
      | None => <[DF_Name f := DF_ResourceFQN f]> seen end) seen features !! n =
    match seen !! n with Some x => Some x
    | None => DF_ResourceFQN <$> List.find (λ f, String.eqb (DF_Name f) n) features end) as G.
  { induction features as [|f features IH]; intros seen; cbn [foldl List.find]; [by destruct (seen !! n)|].
    rewrite IH. destruct (String.eqb_spec (DF_Name f) n) as [->|N].
    - destruct (seen !! n) eqn:E; [by rewrite E|]. by rewrite lookup_insert_eq.
    - destruct (seen !! DF_Name f); [done|]. by rewrite lookup_insert_ne. }
  unfold first_users. by rewrite G, lookup_empty.
Qed.

Lemma gap_warning_feature n fqn level w : gap_warning n fqn level = Some w → GW_Feature w = n ∧ GW_Level w = level.
Proof. unfold gap_warning. intros E. by repeat case_match; simplify_eq. Qed.

(** The warnings are those of the features in use, each once, with the first
    resource that uses it and the level of the target. *)
Theorem gaps_exact doc featureMap :
  let features := DetectFeatures doc in
  let ws := AnalyzeGaps features featureMap in
  NoDup (GW_Feature <$> ws) ∧
  ∀ w, w ∈ ws ↔ ∃ f, List.find (λ f, String.eqb (DF_Name f) (GW_Feature w)) features = Some f ∧
    gap_warning (DF_Name f) (DF_ResourceFQN f) (default FeatureNone (featureMap !! DF_Name f)) = Some w.
Proof.
  intros features ws. split.
  - unfold ws, AnalyzeGaps. pose proof (NoDup_map_range (first_users features)) as N.
    assert (NoDup (map_range (first_users features)).*1) as N1.
    { rewrite map_range_perm. apply NoDup_fst_map_to_list. }
    clear N. revert N1. induction (map_range (first_users features)) as [|[n fqn] l IH]; intros N1; [constructor|].
    apply NoDup_cons in N1 as [Nn N1]. cbn [omap list_omap].
    destruct (gap_warning n fqn _) as [w|] eqn:E; [|by apply IH]. rewrite fmap_cons. apply NoDup_cons.
    split; [|by apply IH]. intros (w' & Ew & I)%list_elem_of_fmap. apply Nn.
    apply list_elem_of_omap in I as ([n' fqn'] & I & E'). apply gap_warning_feature in E as [En _], E' as [En' _].
    assert (n' = n) as -> by congruence. apply list_elem_of_fmap. by exists (n, fqn').
  - intros w. unfold ws, AnalyzeGaps. rewrite list_elem_of_omap. split.
    + intros ([n fqn] & I & E). apply elem_of_map_range in I. rewrite first_users_lookup in I.
      pose proof (gap_warning_feature _ _ _ _ E) as [-> _]. destruct (List.find _ features) as [f|] eqn:F; [|done].
      injection I as <-. exists f. split; [done|]. apply List.find_some in F as [_ <-%String.eqb_eq]. done.
    + intros (f & F & E). exists (DF_Name f, DF_ResourceFQN f). split; [|done].
      pose proof (gap_warning_feature _ _ _ _ E) as [En _]. apply elem_of_map_range.
      rewrite first_users_lookup, <- En, F. done.
Qed.
End gap_facts.

(** A loop inside a condition is not reported. *)
Example nested_loop_unnoticed :
  detectControlFlowFeatures
    (VList [VMap [("type", VStr "if"); ("body", VList [VMap [("type", VStr "for_each")]])]]) = ["control_flow_if"].
Proof. reflexivity. Qed.
