(* ===== verification/Evaluation.v ===== *)
(** Evaluation of agents (internal/evaluation): the scorers, the runner over
    cases with tags, and the reports.

    Agents are invoked through an interface over a world [W]; expressions are
    evaluated by a third-party library, [Eval], as in ControlFlow. Durations and
    the date of a run are given as texts; the JSON report is left out. *)
From S2P Require Import Prelude GoStd GoTime Ir ControlFlow RuntimeConfig Validation GoMaps.
Open Scope Z_scope.

(** * Words *)

(** strings.Fields, on the runes of a string; [cur] is the field so far. *)
Fixpoint fields (cur : string) (l : list (Z * string)) : list string :=
  match l with
  | [] => if String.eqb cur "" then [] else [cur]
  | (r, b) :: l =>
      if IsSpace r then (if String.eqb cur "" then fields "" l else cur :: fields "" l)
      else fields (cur +:+ b) l
  end.

Definition Fields (s : string) : list string := fields "" (runes_of (String.length s) s).

(** strings.Trim *)
Fixpoint drop_cutset (cutset : list Z) (l : list (Z * string)) : list (Z * string) :=
  match l with
  | (r, b) :: l' => if bool_decide (r ∈ cutset) then drop_cutset cutset l' else l
  | [] => []
  end.

Definition Trim (s : string) (cutset : list Z) : string :=
  String.concat ""
    (snd <$> rev (drop_cutset cutset (rev (drop_cutset cutset (runes_of (String.length s) s))))).

(** The bytes of .,!?;:, the two quotes, and ()[]{} *)
Definition punctuation : list Z := [46; 44; 33; 63; 59; 58; 34; 39; 40; 41; 91; 93; 123; 125].

Section evaluation.
Context `{GoRuntime}.
Context (Eval : string → gmap string Dyn → result string Dyn).

(** toWordSet: the keys of the map. *)
Definition toWordSet (s : string) : gset string :=
  foldl (λ set w, let w := Trim w punctuation in if String.eqb w "" then set else {[w]} ∪ set) ∅
    (Fields (ToLower s)).

(** * Scorers *)

Definition Scorer : Type := string → string → result string float64.

Definition one : float64 := float_of_Z 1.

Definition exactScorer : Scorer := λ actual expected,
  Ok (if String.eqb (TrimSpace (ToLower actual)) (TrimSpace (ToLower expected)) then one else float_zero).

Definition ratio (part whole : Z) : float64 := float_div (float_of_Z part) (float_of_Z whole).

Definition containsScorer : Scorer := λ actual expected,
  let lower := ToLower actual in
  let expectedLower := ToLower expected in
  if Contains lower expectedLower then Ok one
  else
    match Fields expectedLower with
    | [] => Ok one
    | expectedWords =>
        let found := length (List.filter (λ w, Contains lower w) expectedWords) in
        Ok (ratio (Z.of_nat found) (Z.of_nat (length expectedWords)))
    end.

(** The loops count over the words in any order. *)
Definition semanticScorer : Scorer := λ actual expected,
  let actualWords := toWordSet actual in
  let expectedWords := toWordSet expected in
  if (size expectedWords =? 0)%nat && (size actualWords =? 0)%nat then Ok one
  else if (size expectedWords =? 0)%nat || (size actualWords =? 0)%nat then Ok float_zero
  else
    let intersection :=
      foldl (λ n w, if bool_decide (w ∈ actualWords) then n + 1 else n) 0 (elements expectedWords) in
    let union :=
      foldl (λ n w, if bool_decide (w ∈ actualWords) then n else n + 1) (Z.of_nat (size actualWords))
        (elements expectedWords) in
    if union =? 0 then Ok one else Ok (ratio intersection union).

(** The expected text is the expression. *)
Definition customScorer : Scorer := λ actual expected,
  match EvalString Eval expected (mkContext (DStr expected) DNil ∅ ∅ (DStr actual)) with
  | Err err => Err ("custom score expression error: " +:+ err)
  | Ok (DFloat v) => Ok v
  | Ok (DBool v) => Ok (if v then one else float_zero)
  | Ok (DInt v) => Ok (float_of_Z v)
  | Ok v => Err ("custom score returned " +:+ fmt_T v +:+ ", expected float64 or bool")
  end.

Definition NewScorer (method : string) : result string Scorer :=
  if String.eqb method "exact" then Ok exactScorer
  else if String.eqb method "contains" then Ok containsScorer
  else if String.eqb method "semantic" then Ok semanticScorer
  else if String.eqb method "custom" then Ok customScorer
  else Err ("unknown scoring method: " +:+ quote method).

(** * Runs *)

(** CaseResult is the outcome of evaluating a single test case. *)
Record CaseResult := mkCaseResult {
  CR_Name : string;
  CR_Input : string;
  CR_Expected : string;
  CR_Actual : string;
  CR_Score : float64;
  CR_Threshold : float64;
  CR_Scoring : string;
  CR_Passed : bool;
  CR_Error : string;
}.

(** RunResult is the outcome of an entire evaluation run. *)
Record RunResult := mkRunResult {
  RR_AgentName : string;
  RR_Cases : list CaseResult;
  RR_TotalCases : Z;
  RR_PassedCases : Z;
  RR_FailedCases : Z;
  RR_OverallScore : float64;
}.

(** filterByTags: cases without tags are skipped when filtering. *)
Definition filterByTags (cases : list EvalCaseDef) (tags : list string) : list EvalCaseDef :=
  match tags with
  | [] => cases
  | _ => List.filter (λ c, existsb (λ t, existsb (String.eqb t) tags) (EvalCaseDef_Tags c)) cases
  end.

Section runner.
Context {W : Type} (Invoke : string → string → W → result string string * W).

Definition runCase (agentName : string) (c : EvalCaseDef) (w : W) : CaseResult * W :=
  let threshold := if float_eq (EvalCaseDef_Threshold c) float_zero then decimal 8 1 else EvalCaseDef_Threshold c in
  let scoring := if String.eqb (EvalCaseDef_Scoring c) "" then "semantic" else EvalCaseDef_Scoring c in
  let cr actual score passed error :=
    mkCaseResult (EvalCaseDef_Name c) (EvalCaseDef_Input c) (EvalCaseDef_Expected c) actual score threshold scoring
      passed error in
  match Invoke agentName (EvalCaseDef_Input c) w with
  | (Err err, w) => (cr "" float_zero false ("invocation failed: " +:+ err), w)
  | (Ok output, w) =>
      (match NewScorer scoring with
       | Err err => cr output float_zero false ("scorer error: " +:+ err)
       | Ok scorer =>
           match scorer output (EvalCaseDef_Expected c) with
           | Err err => cr output float_zero false ("scoring error: " +:+ err)
           | Ok score => cr output score (float_le threshold score) ""
           end
       end, w)
  end.

(** The loop of Run. *)
Fixpoint run_cases (agentName : string) (cases : list EvalCaseDef) (acc : list CaseResult * Z * Z * float64) (w : W) :
    list CaseResult * Z * Z * float64 * W :=
  match cases with
  | [] => (acc, w)
  | c :: cases =>
      let '(cr, w) := runCase agentName c w in
      let '(results, passed, failed, totalScore) := acc in
      run_cases agentName cases
        (results ++ [cr], if CR_Passed cr then passed + 1 else passed,
         if CR_Passed cr then failed else failed + 1, float_add totalScore (CR_Score cr)) w
  end.

(** Run executes all eval cases for an agent. *)
Definition Run (agentName : string) (cases : list EvalCaseDef) (tags : list string) (w : W) : RunResult * W :=
  let filtered := filterByTags cases tags in
  let total := Z.of_nat (length filtered) in
  let '(results, passed, failed, totalScore, w) := run_cases agentName filtered ([], 0, 0, float_zero) w in
  (mkRunResult agentName results total passed failed
     (if 0 <? total then float_div totalScore (float_of_Z total) else float_zero), w).
End runner.
End evaluation.

(** * Reports *)

(** fmt.Fprintf with %.2f *)
Definition fmt_2 (f : float64) : string := fmt_fixed 2 f.
Definition fmt_d (n : Z) : string := pretty n.
Definition line (s : string) : string := s +:+ nl.

Definition percentage (part total : Z) : Z := if total =? 0 then 0 else Z.quot (part * 100) total.

Definition spaces (n : nat) : string := String.concat "" (replicate n " ").

(** The width of the names, at least 20. *)
Definition name_width (cases : list CaseResult) : nat :=
  foldl (λ maxLen c, if (maxLen <? String.length (CR_Name c))%nat then String.length (CR_Name c) else maxLen) 20%nat cases.

Definition table_case (maxLen : nat) (c : CaseResult) : string :=
  line ("  " +:+ (if CR_Passed c then "✓" else "✗") +:+ " " +:+ CR_Name c +:+
        spaces (maxLen - String.length (CR_Name c) + 2) +:+ "score: " +:+ fmt_2 (CR_Score c) +:+
        "  (threshold: " +:+ fmt_2 (CR_Threshold c) +:+ ")") +:+
  (if String.eqb (CR_Error c) "" then "" else line ("    error: " +:+ CR_Error c)) +:+
  (if negb (CR_Passed c) && negb (String.eqb (CR_Expected c) "") then
     line ("    expected: " +:+ CR_Expected c) +:+ line ("    actual:   " +:+ CR_Actual c)
   else "").

Definition formatTable (duration : string) (r : RunResult) : string :=
  line ("Evaluating " +:+ RR_AgentName r +:+ " (" +:+ fmt_d (RR_TotalCases r) +:+ " test cases)...") +:+ nl +:+
  String.concat "" (map (table_case (name_width (RR_Cases r))) (RR_Cases r)) +:+ nl +:+
  line ("Results: " +:+ fmt_d (RR_PassedCases r) +:+ "/" +:+ fmt_d (RR_TotalCases r) +:+ " passed (" +:+
        fmt_d (percentage (RR_PassedCases r) (RR_TotalCases r)) +:+ "%)") +:+
  line ("Overall score: " +:+ fmt_2 (RR_OverallScore r)) +:+ line ("Duration: " +:+ duration).

Definition markdown_row (c : CaseResult) : string :=
  line ("| " +:+ CR_Name c +:+ " | " +:+ fmt_2 (CR_Score c) +:+ " | " +:+ fmt_2 (CR_Threshold c) +:+ " | " +:+
        (if CR_Passed c then "PASS" else "FAIL") +:+ " | " +:+ CR_Scoring c +:+ " |").

Definition markdown_failure (c : CaseResult) : string :=
  line ("### " +:+ CR_Name c) +:+ nl +:+
  line ("- **Score**: " +:+ fmt_2 (CR_Score c) +:+ " (threshold: " +:+ fmt_2 (CR_Threshold c) +:+ ")") +:+
  line ("- **Input**: " +:+ CR_Input c) +:+ line ("- **Expected**: " +:+ CR_Expected c) +:+
  line ("- **Actual**: " +:+ CR_Actual c) +:+
  (if String.eqb (CR_Error c) "" then "" else line ("- **Error**: " +:+ CR_Error c)) +:+ nl.

Definition formatMarkdown (date duration : string) (r : RunResult) : string :=
  let failed := List.filter (λ c, negb (CR_Passed c)) (RR_Cases r) in
  line ("# Evaluation Report: " +:+ RR_AgentName r) +:+ nl +:+ line ("**Date**: " +:+ date) +:+
  line ("**Duration**: " +:+ duration) +:+ nl +:+
  line "## Summary" +:+ nl +:+ line "| Metric | Value |" +:+ line "|----|----|" +:+
  line ("| Total Cases | " +:+ fmt_d (RR_TotalCases r) +:+ " |") +:+
  line ("| Passed | " +:+ fmt_d (RR_PassedCases r) +:+ " |") +:+
  line ("| Failed | " +:+ fmt_d (RR_FailedCases r) +:+ " |") +:+
  line ("| Pass Rate | " +:+ fmt_d (percentage (RR_PassedCases r) (RR_TotalCases r)) +:+ "% |") +:+
  line ("| Overall Score | " +:+ fmt_2 (RR_OverallScore r) +:+ " |") +:+
  nl +:+ line "## Results" +:+ nl +:+ line "| Test Case | Score | Threshold | Status | Scoring |" +:+
  line "|-----------|-------|-----------|--------|--------|" +:+
  String.concat "" (map markdown_row (RR_Cases r)) +:+
  (match failed with [] => "" | _ => nl +:+ line "## Failed Cases" +:+ nl end) +:+
  String.concat "" (map markdown_failure failed).

(** The change of a case since the previous run: a regression or an
    improvement. *)
Definition changed (previous : gmap string float64) (c : CaseResult) : option (bool * string) :=
  match previous !! CR_Name c with
  | None => None
  | Some prevScore =>
      let text := CR_Name c +:+ ": " +:+ fmt_2 prevScore +:+ " → " +:+ fmt_2 (CR_Score c) in
      if float_lt (CR_Score c) (float_sub prevScore (decimal 1 2)) then Some (false, text)
      else if float_lt (float_add prevScore (decimal 1 2)) (CR_Score c) then Some (true, text)
      else None
  end.

Definition scores_by_name (r : RunResult) : gmap string float64 :=
  foldl (λ m c, <[CR_Name c := CR_Score c]> m) ∅ (RR_Cases r).

(** CompareResults compares two evaluation runs and returns a summary. *)
Definition CompareResults (current previous : RunResult) : string :=
  let diff := float_sub (RR_OverallScore current) (RR_OverallScore previous) in
  let scores := "  Overall: " +:+ fmt_2 (RR_OverallScore previous) +:+ " → " +:+ fmt_2 (RR_OverallScore current) in
  let changes := omap (changed (scores_by_name previous)) (RR_Cases current) in
  let regressions := snd <$> List.filter (λ c, negb c.1) changes in
  let improvements := snd <$> List.filter fst changes in
  nl +:+ line "Compared to previous run:" +:+
  (if float_lt float_zero diff then line (scores +:+ " (+" +:+ fmt_2 diff +:+ ")")
   else if float_lt diff float_zero then line (scores +:+ " (" +:+ fmt_2 diff +:+ ")")
   else line (scores +:+ " (no change)")) +:+
  line ("  Regressions: " +:+ fmt_d (Z.of_nat (length regressions))) +:+
  String.concat "" (map (λ r, line ("    - " +:+ r)) regressions) +:+
  line ("  Improvements: " +:+ fmt_d (Z.of_nat (length improvements))) +:+
  String.concat "" (map (λ i, line ("    + " +:+ i)) improvements).

(** FormatReport; [json] is the JSON report. *)
Definition FormatReport `{GoRuntime} (date duration : string) (json : RunResult → result string string)
    (r : RunResult) (format : string) : result string string :=
  if String.eqb format "table" then Ok (formatTable duration r)
  else if String.eqb format "json" then json r
  else if String.eqb format "markdown" then Ok (formatMarkdown date duration r)
  else Err ("unsupported format: " +:+ quote format +:+ " (available: table, json, markdown)").

(** * Facts *)

Section facts.
Context `{GoRuntime}.
Context (Eval : string → gmap string Dyn → result string Dyn).

Lemma count_words (P : string → bool) l n :
  foldl (λ n w, if P w then n + 1 else n) n l = n + Z.of_nat (length (List.filter P l)).
Proof.
  revert n. induction l as [|w l IH]; intros n; simpl; [lia|]. rewrite IH. destruct (P w); simpl; lia.
Qed.

Lemma filter_elements (X Y : gset string) :
  length (List.filter (λ w, bool_decide (w ∈ X)) (elements Y)) = size (X ∩ Y).
Proof.
  change (size (X ∩ Y)) with (length (elements (X ∩ Y))). apply Permutation_length, NoDup_Permutation.
  - apply NoDup_ListNoDup, List.NoDup_filter, NoDup_ListNoDup, NoDup_elements.
  - apply NoDup_elements.
  - intros w. rewrite list_elem_of_In, List.filter_In, <- list_elem_of_In, bool_decide_eq_true. set_solver.
Qed.

(** The semantic score is the Jaccard similarity of the word sets. *)
Lemma semantic_jaccard actual expected :
  let A := toWordSet actual in
  let B := toWordSet expected in
  semanticScorer actual expected =
  Ok (if decide (A = ∅ ∧ B = ∅) then one
      else if decide (A = ∅ ∨ B = ∅) then float_zero
      else ratio (Z.of_nat (size (A ∩ B))) (Z.of_nat (size (A ∪ B)))).
Proof.
  cbv zeta. unfold semanticScorer. set (A := toWordSet actual). set (B := toWordSet expected). clearbody A B.
  assert (∀ X : gset string, (size X =? 0)%nat = bool_decide (X = ∅)) as E.
  { intros X. destruct (Nat.eqb_spec (size X) 0) as [Z|Z]; symmetry.
    - apply bool_decide_eq_true. apply leibniz_equiv, size_empty_inv, Z.
    - apply bool_decide_eq_false. intros ->. by rewrite size_empty in Z. }
  rewrite !E. rewrite count_words, filter_elements.
  assert (∀ n, foldl (λ n w, if bool_decide (w ∈ A) then n else n + 1) n (elements B) =
    n + Z.of_nat (size (B ∖ A))) as U.
  { intros n. transitivity (foldl (λ n w, if negb (bool_decide (w ∈ A)) then n + 1 else n) n (elements B)).
    - generalize (elements B). intros l. revert n. induction l as [|w l IH]; intros n; [done|]. simpl.
      rewrite IH. by destruct (bool_decide (w ∈ A)).
    - rewrite count_words. f_equal. f_equal.
      change (size (B ∖ A)) with (length (elements (B ∖ A))). apply Permutation_length, NoDup_Permutation.
      + apply NoDup_ListNoDup, List.NoDup_filter, NoDup_ListNoDup, NoDup_elements.
      + apply NoDup_elements.
      + intros w. rewrite list_elem_of_In, List.filter_In, <- list_elem_of_In, negb_true_iff, bool_decide_eq_false.
        set_solver. }
  rewrite U. assert (Z.of_nat (size A) + Z.of_nat (size (B ∖ A)) = Z.of_nat (size (A ∪ B))) as ->.
  { rewrite <- Nat2Z.inj_add. f_equal. rewrite <- size_union by set_solver. f_equal. apply leibniz_equiv.
    intros w. destruct (decide (w ∈ A)); set_solver. }
  destruct (decide (A = ∅)) as [->|Na], (decide (B = ∅)) as [->|Nb].
  - by rewrite !bool_decide_true, decide_True.
  - by rewrite (bool_decide_false (B = ∅)), bool_decide_true, decide_False, decide_True by naive_solver.
  - by rewrite (bool_decide_false (A = ∅)), bool_decide_true, decide_False, decide_True by naive_solver.
  - rewrite !bool_decide_false, !decide_False by naive_solver. simpl.
    destruct (Z.eqb_spec (Z.of_nat (size (A ∪ B))) 0) as [Z|_]; [|done].
    assert (A ∪ B ≡ ∅) as Em by (apply size_empty_inv; lia). set_solver.
Qed.

(** * What a run reports *)

(** The words of a text: what is left of its fields, in lower case, without the
    punctuation around them. *)
Definition word_of (s w : string) : Prop :=
  ∃ f, f ∈ Fields (ToLower s) ∧ w = Trim f punctuation ∧ w ≠ "".

Lemma elem_of_toWordSet s w : w ∈ toWordSet s ↔ word_of s w.
Proof.
  unfold toWordSet, word_of. generalize (Fields (ToLower s)). intros l.
  assert (∀ X : gset string, w ∈ foldl (λ set w, let w := Trim w punctuation in
    if String.eqb w "" then set else {[w]} ∪ set) X l ↔
    w ∈ X ∨ ∃ f, f ∈ l ∧ w = Trim f punctuation ∧ w ≠ "") as G; [|rewrite G; set_solver].
  induction l as [|f l IH]; intros X; simpl; [set_solver|]. rewrite IH. setoid_rewrite elem_of_cons.
  destruct (String.eqb_spec (Trim f punctuation) "") as [E|N]; [|set_solver].
  split; [set_solver|]. intros [|(f' & [->|I] & -> & N)]; [by left|by rewrite E in N|right; by exists f'].
Qed.

#[local] Instance occurs_dec sub s : Decision (occurs sub s).
Proof. destruct (Contains s sub) eqn:C; [left; by apply Contains_spec|right; by apply not_Contains]. Defined.

(** The score that a method gives to an output, when it gives one. *)
Inductive scored (actual expected : string) : string → float64 → Prop :=
  | exactly_same : TrimSpace (ToLower actual) = TrimSpace (ToLower expected) →
      scored actual expected "exact" (float_of_Z 1)
  | exactly_other : TrimSpace (ToLower actual) ≠ TrimSpace (ToLower expected) →
      scored actual expected "exact" (float_of_Z 0)
  | contains_text : occurs (ToLower expected) (ToLower actual) →
      scored actual expected "contains" (float_of_Z 1)
  | contains_words words found : ¬ occurs (ToLower expected) (ToLower actual) →
      words = Fields (ToLower expected) → words ≠ [] →
      found = filter (λ w, occurs w (ToLower actual)) words →
      scored actual expected "contains"
        (float_div (float_of_Z (Z.of_nat (length found))) (float_of_Z (Z.of_nat (length words))))
  | contains_blank : ¬ occurs (ToLower expected) (ToLower actual) → Fields (ToLower expected) = [] →
      scored actual expected "contains" (float_of_Z 1)
  | no_words : (∀ w, ¬ word_of actual w) → (∀ w, ¬ word_of expected w) →
      scored actual expected "semantic" (float_of_Z 1)
  | shared_words (A B : gset string) : (∀ w, w ∈ A ↔ word_of actual w) → (∀ w, w ∈ B ↔ word_of expected w) →
      ¬ (A = ∅ ∧ B = ∅) →
      scored actual expected "semantic"
        (if decide (A = ∅ ∨ B = ∅) then float_of_Z 0
         else float_div (float_of_Z (Z.of_nat (size (A ∩ B)))) (float_of_Z (Z.of_nat (size (A ∪ B)))))
  | custom_float v :
      EvalString Eval expected (mkContext (DStr expected) DNil ∅ ∅ (DStr actual)) = Ok (DFloat v) →
      scored actual expected "custom" v
  | custom_bool (b : bool) :
      EvalString Eval expected (mkContext (DStr expected) DNil ∅ ∅ (DStr actual)) = Ok (DBool b) →
      scored actual expected "custom" (float_of_Z (if b then 1 else 0))
  | custom_int v :
      EvalString Eval expected (mkContext (DStr expected) DNil ∅ ∅ (DStr actual)) = Ok (DInt v) →
      scored actual expected "custom" (float_of_Z v).

Definition score_of (method actual expected : string) : result string float64 :=
  match NewScorer Eval method with Ok scorer => scorer actual expected | Err err => Err err end.

Lemma filter_Contains l s : List.filter (λ w, Contains s w) l = filter (λ w, occurs w s) l.
Proof.
  induction l as [|w l IH]; [done|]. cbn [List.filter]. rewrite filter_cons, IH.
  destruct (Contains s w) eqn:C, (decide (occurs w s)) as [O|O]; try done.
  - by apply Contains_spec in C.
  - apply Contains_spec in O. congruence.
Qed.

Lemma score_of_scored method actual expected v : score_of method actual expected = Ok v → scored actual expected method v.
Proof.
  unfold score_of, NewScorer. destruct (String.eqb_spec method "exact") as [->|_].
  { unfold exactScorer. destruct (String.eqb_spec (TrimSpace (ToLower actual)) (TrimSpace (ToLower expected)));
      intros [= <-]; by constructor. }
  destruct (String.eqb_spec method "contains") as [->|_].
  { unfold containsScorer. cbv zeta. destruct (Contains (ToLower actual) (ToLower expected)) eqn:C.
    - intros [= <-]. constructor. by apply Contains_spec.
    - apply not_Contains in C. destruct (Fields (ToLower expected)) as [|x l] eqn:F; intros E.
      + injection E as <-. by apply contains_blank.
      + assert (v = ratio (Z.of_nat (length (List.filter (λ w, Contains (ToLower actual) w) (x :: l))))
          (Z.of_nat (length (x :: l)))) as -> by congruence.
        rewrite filter_Contains. by apply (contains_words _ _ (x :: l)). }
  destruct (String.eqb_spec method "semantic") as [->|_].
  { rewrite semantic_jaccard. intros [= <-]. destruct (decide (toWordSet actual = ∅ ∧ toWordSet expected = ∅)) as [[EA EB]|N].
    - apply no_words; intros w; rewrite <- elem_of_toWordSet; set_solver.
    - apply (shared_words _ _ (toWordSet actual) (toWordSet expected)); [intros w; apply elem_of_toWordSet..|done]. }
  destruct (String.eqb_spec method "custom") as [->|_]; [|done].
  unfold customScorer. destruct (EvalString _ _ _) as [[]|] eqn:E; try done; intros [= <-];
    [|by apply custom_int|by apply custom_float].
  pose proof (custom_bool _ _ _ E) as S. by destruct b.
Qed.

Lemma scored_score_of method actual expected v : scored actual expected method v → score_of method actual expected = Ok v.
Proof.
  unfold score_of. intros [E|E|O|ws found O -> N ->|O E|NA NB|A B HA HB N|x E|b E|x E]; cbn.
  - unfold exactScorer. by rewrite E, String.eqb_refl.
  - unfold exactScorer. by destruct (String.eqb_spec (TrimSpace (ToLower actual)) (TrimSpace (ToLower expected))).
  - unfold containsScorer. apply Contains_spec in O. by rewrite O.
  - unfold containsScorer. apply not_Contains in O. rewrite O. rewrite <- filter_Contains.
    by destruct (Fields (ToLower expected)).
  - unfold containsScorer. apply not_Contains in O. by rewrite O, E.
  - rewrite semantic_jaccard. rewrite decide_True; [done|].
    split; apply leibniz_equiv; intros w; rewrite elem_of_toWordSet; set_solver.
  - rewrite semantic_jaccard. assert (toWordSet actual = A) as ->.
    { apply leibniz_equiv. intros w. by rewrite elem_of_toWordSet, HA. }
    assert (toWordSet expected = B) as ->.
    { apply leibniz_equiv. intros w. by rewrite elem_of_toWordSet, HB. }
    by rewrite decide_False.
  - unfold customScorer. by rewrite E.
  - unfold customScorer. rewrite E. by destruct b.
  - unfold customScorer. by rewrite E.
Qed.

Section runs.
Context {W : Type} (Invoke : string → string → W → result string string * W).

(** The result of a case whose invocation gave [out]: the method is semantic
    when none is named, and a threshold of zero stands for 0.8. The case passes
    when there is a score that reaches the threshold; an error fails it with
    score zero. *)
Definition case_spec (c : EvalCaseDef) (out : result string string) (cr : CaseResult) : Prop :=
  CR_Name cr = EvalCaseDef_Name c ∧ CR_Input cr = EvalCaseDef_Input c ∧ CR_Expected cr = EvalCaseDef_Expected c ∧
  (EvalCaseDef_Scoring c = "" → CR_Scoring cr = "semantic") ∧
  (EvalCaseDef_Scoring c ≠ "" → CR_Scoring cr = EvalCaseDef_Scoring c) ∧
  CR_Threshold cr = (if float_eq (EvalCaseDef_Threshold c) (float_of_Z 0) then decimal 8 1 else EvalCaseDef_Threshold c) ∧
  let failed := CR_Passed cr = false ∧ CR_Score cr = float_of_Z 0 ∧ CR_Error cr ≠ "" in
  match out with
  | Err _ => CR_Actual cr = "" ∧ failed
  | Ok output => CR_Actual cr = output ∧
      ((∃ score, scored output (EvalCaseDef_Expected c) (CR_Scoring cr) score ∧
          CR_Score cr = score ∧ CR_Passed cr = float_le (CR_Threshold cr) score ∧ CR_Error cr = "") ∨
       (∀ score, ¬ scored output (EvalCaseDef_Expected c) (CR_Scoring cr) score) ∧ failed)
  end.

(** The agent is invoked on the input of each case, one after another. *)
Inductive in_order (agentName : string) : list EvalCaseDef → W → list CaseResult → W → Prop :=
  | no_cases w : in_order agentName [] w [] w
  | next_case c cs cr crs w w1 w2 out :
      Invoke agentName (EvalCaseDef_Input c) w = (out, w1) → case_spec c out cr →
      in_order agentName cs w1 crs w2 → in_order agentName (c :: cs) w (cr :: crs) w2.

Lemma runCase_spec agentName c w :
  let '(cr, w1) := runCase Eval Invoke agentName c w in
  ∃ out, Invoke agentName (EvalCaseDef_Input c) w = (out, w1) ∧ case_spec c out cr.
Proof.
  unfold runCase, case_spec. destruct (Invoke _ _ w) as [[output|err] w1]; [exists (Ok output)|exists (Err err)];
    (split; [done|]); [|by destruct (String.eqb_spec (EvalCaseDef_Scoring c) "")].
  set (m := if String.eqb (EvalCaseDef_Scoring c) "" then "semantic" else EvalCaseDef_Scoring c).
  assert ((EvalCaseDef_Scoring c = "" → m = "semantic") ∧ (EvalCaseDef_Scoring c ≠ "" → m = EvalCaseDef_Scoring c)) as [M1 M2]
    by (unfold m; by destruct (String.eqb_spec (EvalCaseDef_Scoring c) "")).
  clearbody m. pose proof (score_of_scored m output (EvalCaseDef_Expected c)) as S1.
  pose proof (scored_score_of m output (EvalCaseDef_Expected c)) as S2. unfold score_of in S1, S2.
  destruct (NewScorer Eval m) as [scorer|e]; [destruct (scorer output (EvalCaseDef_Expected c)) as [v|e]|]; cbn;
    split_and!; try done.
  - left. exists v. by split_and!; [apply S1|..].
  - right. split; [|done]. by intros v S%S2.
  - right. split; [|done]. by intros v S%S2.
Qed.

Lemma run_cases_spec agentName cs acc w :
  let '(results, passed, failed, totalScore) := acc in
  let '(results', passed', failed', totalScore', w') := run_cases Eval Invoke agentName cs acc w in
  ∃ crs, results' = results ++ crs ∧ in_order agentName cs w crs w' ∧
    passed' = passed + Z.of_nat (length (List.filter CR_Passed crs)) ∧
    failed' = failed + Z.of_nat (length (List.filter (λ c, negb (CR_Passed c)) crs)) ∧
    totalScore' = foldl float_add totalScore (map CR_Score crs).
Proof.
  revert acc w. induction cs as [|c cs IH]; intros [[[results passed] failed] totalScore] w; cbn [run_cases].
  { exists []. rewrite app_nil_r. simpl. split_and!; [done | constructor | lia | lia | done]. }
  pose proof (runCase_spec agentName c w) as R. destruct (runCase _ _ _ c w) as [cr w1].
  destruct R as (out & E & S).
  specialize (IH (results ++ [cr], if CR_Passed cr then passed + 1 else passed,
    if CR_Passed cr then failed else failed + 1, float_add totalScore (CR_Score cr)) w1).
  revert IH. cbn beta iota. destruct (run_cases _ _ _ cs _ w1) as [[[[results' passed'] failed'] totalScore'] w'].
  intros IH. destruct IH as (crs & -> & O & -> & -> & ->). exists (cr :: crs). rewrite <- app_assoc.
  split_and!; [done | by econstructor | | | done]; simpl; destruct (CR_Passed cr); simpl; lia.
Qed.

Lemma length_partition (l : list CaseResult) :
  (length (List.filter CR_Passed l) + length (List.filter (λ c, negb (CR_Passed c)) l) = length l)%nat.
Proof. induction l as [|c l IH]; simpl; [done|]. destruct (CR_Passed c); simpl; lia. Qed.

Lemma in_order_length agentName cs w crs w' : in_order agentName cs w crs w' → length cs = length crs.
Proof. induction 1; simpl; congruence. Qed.

Lemma filterByTags_spec cases tags :
  filterByTags cases tags = filter (λ c, tags = [] ∨ Exists (.∈ tags) (EvalCaseDef_Tags c)) cases.
Proof.
  assert (∀ P (Q : EvalCaseDef → Prop) (D : ∀ c, Decision (Q c)) l, (∀ c, P c = true ↔ Q c) → List.filter P l = filter Q l) as F.
  { intros P Q D l E; induction l as [|c l IH]; [done|]. cbn [List.filter]. rewrite filter_cons. rewrite IH.
    destruct (P c) eqn:Pc, (decide (Q c)) as [Qc|Qc]; try done; [by apply E in Pc | apply E in Qc; congruence]. }
  unfold filterByTags. destruct tags as [|t tags].
  - induction cases as [|c cases IH]; [done|]. rewrite filter_cons_True by by left. by rewrite <- IH.
  - apply F. intros c. rewrite existsb_exists, Exists_exists. split.
    + intros (x & I & E). right. exists x. split; [by apply list_elem_of_In|].
      apply existsb_exists in E as (y & Iy & <-%String.eqb_eq). by apply list_elem_of_In.
    + intros [|(x & I & E)]; [done|]. exists x. split; [by apply list_elem_of_In|].
      apply existsb_exists. exists x. split; [by apply list_elem_of_In | apply String.eqb_refl].
Qed.

End runs.
End facts.

(** A threshold of zero cannot be asked for: it stands for 0.8. *)
Example zero_threshold :
  let c := mkEvalCaseDef "c" "in" "yes" "exact" float_zero [] in
  let invoke (_ _ : string) (w : nat) : result string string * nat := (Ok "no", S w) in
  CR_Passed (@runCase ascii_runtime (λ _ _, Err "") nat invoke "bot" c 0%nat).1 = false.
Proof. vm_compute. reflexivity. Qed.
